(* ===== verification/_CoqProject ===== *)
-Q . S2P
Prelude.v
Protocol.v
Calls.v
CallManager.v
CallTables.v
CallInvariant.v
CallLeave.v
CallJoin.v
CallReach.v
CallProperties.v
Handlers.v
HandlerLogic.v
HandlerProperties.v
Controllers.v
CoverageErrors.v
Profile.v
ProfileProperties.v
Coverage.v
CoverageLookup.v
CoverageResolve.v
CoverageBuild.v
CoverageProperties.v
Clients.v
ClientInvariant.v
ClientSteps.v
ClientView.v
ClientRuns.v
ClientProperties.v
Playback.v
PlaybackLogic.v
PlaybackFiles.v
PlaybackProperties.v
Keybinds.v
KeybindProperties.v
SignalingErrors.v
AppState.v
AppEvents.v
AppLogic.v
AppRuns.v
AppProperties.v
AppStations.v
SignalingClient.v
SignalingLogic.v
SignalingProperties.v
AppConnection.v
Store.v
TokenProperties.v
Releases.v
ReleaseProperties.v
Sessions.v
Server.v
ServerInvariant.v
ServerProperties.v
Radio.v
RadioProperties.v
Audio.v
AudioLogic.v
AudioProperties.v
Remote.v
RemoteProperties.v
Sources.v
SourceProperties.v
Media.v
MediaProperties.v
Dataset.v
DatasetProperties.v
Feed.v
FeedProperties.v
Devices.v
DeviceProperties.v
Joystick.v
JoystickProperties.v
Loading.v
LoadingProperties.v
Portal.v
PortalProperties.v
