(* ===== verification/Prelude.v ===== *)
(** vacs: a verification of the voice communication system of virtual air traffic control.

    * The program

    Controllers talk over calls between stations. A server ([vacs-server]) knows who is
    connected, which positions of the VATSIM network they hold ([vacs-vatsim]) and which
    stations that covers, and passes on invitations, answers and the messages that set up
    a direct connection. A desktop client ([vacs-client]) logs in over a websocket
    ([vacs-signaling], the data in [vacs-protocol]), keeps the state of its calls, carries
    the audio peer to peer ([vacs-webrtc]), plays and captures it ([vacs-audio]), works
    the radio and the keys, records the radio, and can be controlled from a browser.

    * The parts of the model

    Every definition is a translation of code under [src/]; each file names the source it
    models. In this order:

    - Prelude (this file): results, hash maps whose iteration order is any ([HashOrder]),
      and the lemmas and tactics shared by all; Protocol: the data of [vacs-protocol].
    - The calls of the server. Calls: the entries of the tables ([state/calls.rs],
      [metrics/guards.rs]); CallManager: every operation on the four tables
      ([state/calls/manager.rs]). CallTables, CallInvariant, CallLeave, CallJoin and
      CallReach carry the invariant of the tables through the operations and present the
      manager as a state machine; CallProperties has the theorems.
    - The messages about calls. Handlers: [ws/application_message.rs], as state passing
      over the calls and the list of messages sent; HandlerLogic is a logic for such
      handlers, HandlerProperties has the theorems.
    - The network. Controllers: [vacs-vatsim/src/lib.rs]; Profile: the layouts
      ([coverage/profile.rs]); CoverageErrors and Coverage: loading, inheritance and
      coverage ([coverage.rs], [coverage/network.rs], [station.rs], [position.rs],
      [flight_information_region.rs]); CoverageLookup, CoverageResolve, CoverageBuild:
      lemmas; ProfileProperties, CoverageProperties: theorems. Loading: reading the
      directories and files of a network, with LoadingProperties. Feed: what the data feed
      and the slurper answer and the limits of requests ([data_feed/vatsim.rs],
      [slurper.rs], [ratelimit.rs]), with FeedProperties. Dataset: how the files of the
      network are replaced on disk ([dataset.rs]), with DatasetProperties.
    - The clients of the server. Clients: the registry ([state/clients/manager.rs],
      [session.rs]); ClientInvariant, ClientSteps, ClientView, ClientRuns: its invariant,
      what a client is told; ClientProperties: theorems. Store: tokens ([store.rs],
      [state.rs], [auth/extractor.rs]), with TokenProperties; Releases: updates
      ([release.rs] and its modules), with ReleaseProperties. Sessions: the login and the
      tasks of a session ([ws/auth.rs], [ws/message.rs], [session.rs]); Server: the
      registry, the calls and the connections as one machine ([state.rs],
      [ws/handler.rs]); ServerInvariant, ServerProperties.
    - The desktop client. SignalingErrors and SignalingClient: the connection
      ([vacs-signaling]), with SignalingLogic and SignalingProperties; AppState and
      AppEvents: the calls of the client ([app/state/*.rs]), with AppLogic, AppRuns and
      AppProperties; Keybinds ([keybinds.rs], [keybinds/engine.rs]), Joystick
      ([keybinds/joystick.rs], [keybinds/commands.rs]), Portal (the shortcuts of Wayland
      and the keys of X11, [keybinds/runtime/linux]), Playback ([playback/*.rs], with
      PlaybackLogic and PlaybackFiles), Radio ([radio.rs], [radio/*.rs]), Remote
      ([remote/*.rs]), each with its properties.
    - The audio. Audio: mixer, playback streams and the manager of the sounds
      ([vacs-audio/src/mixer.rs], [audio/manager.rs]), with AudioLogic and
      AudioProperties; Sources: clips, tones, the frames of a peer and the framing of the
      input ([sources/*.rs], [stream/capture.rs]); Media: a peer with its sender, receiver
      and watchdog ([vacs-webrtc]); Devices: the choice of a device and of its
      configuration ([vacs-audio/src/device.rs]), with DeviceProperties.

    * How they fit together

    A stateful component is a record, and an operation a function from the record to its
    answer and the new record; where the source sends messages, events or files, the
    operation answers them as a list in their order. A task of the source that waits is
    cut where it waits: each turn is a step, and theorems hold for every order of the
    steps. The components meet where the code does: the handlers use the call manager and,
    through the class [ClientDirectory], the registry, which is its instance; Server runs
    registry, calls and sessions together; AppStations sets the list of stations the
    client keeps against the registry's view of it; AppConnection puts the client behind
    the signalling connection, and [ServerProperties.login_agreed] puts that connection
    against the server's login; JoystickProperties runs the engine of the keys with the
    poller that feeds it; the mixer takes any [AudioSource], of which the sources of
    Sources are instances; both radios are instances of one interface.

    * What is shown

    - The calls: the four tables agree on every run, nobody is in two calls, a conference
      has a leader, a client that leaves or vanishes leaves nothing, and every operation
      is made of a few elementary steps (CallProperties); who may cause which message, and
      who is told (HandlerProperties).
    - The network: a network is accepted exactly if it passes the declared checks, the
      climb through the parents ends, and the reported changes lead from one coverage to
      the other (CoverageProperties, ProfileProperties); what is served is what the files
      hold, or every error of reading them is answered (LoadingProperties).
    - The server: the registry's tables agree, everybody in it or in a call has a
      connection, a login is vouched for and both sides agree on it, a session that ends
      is forgotten (ClientProperties, ServerProperties); tokens last as long as they should
      (TokenProperties), an update is the right one (ReleaseProperties), the data feed is
      fresh (FeedProperties), and no dataset is lost (DatasetProperties).
    - The client: nothing of a call outlives it, one side offers, an unconnected call is
      given up (AppProperties); a lost connection is taken up again, not too often
      (SignalingProperties); the radio transmits only while its key is held
      (KeybindProperties, RadioProperties), which is a button of a device that is there if
      it is a button (JoystickProperties), and no release of a shortcut of the desktop is
      lost (PortalProperties); the recorder keeps its files
      (PlaybackProperties); a remote invocation is answered once (RemoteProperties).
    - The audio: every sound has its source, requests are done, sources never read past
      their samples and do not depend on how buffers are cut, the input is framed whole
      (AudioProperties, SourceProperties); a held call is silent, lost frames are reported
      and a dead path is noticed (MediaProperties); the best configuration of a device is
      taken and it is told when the device is not the preferred one (DeviceProperties).
    - Where the code does not do what it says, a lemma shows it on a concrete or general
      input, e.g. [CallProperties.drop_target_order_dependent],
      [SourceProperties.stop_lost_while_restarting],
      [DatasetProperties.crash_between_renames].

    * Fuel and bounds

    Recursion that is not structural has fuel, with a lemma that it is enough: the climb
    through the parents of a station takes [resolve_fuel], three more than there are
    stations, and ends by meeting a station twice; the search of a free name tries one
    candidate more than there are names; trimming, cutting into chunks and the framing of
    input take the length of what they consume, of which every turn takes something.
    Machine integers are numbers with their bounds written out where they matter:
    saturating durations and back-offs, the 16-bit gap of a sample, the 32-bit numbers of
    the slurper, the wrap of a seek, counters of 64 bits.

    * What is assumed

    Code outside [src/] is an argument: the order of hash maps ([HashOrder]), the clock
    and the network as seen by the handlers ([Env], [Surroundings]), the connection of a
    call ([SessionDescriptions], and the answers of the steps of Media), versions
    ([Semver]), JSON, TOML, UUIDs and regular expressions ([JsonText], [Formats], [UuidSyntax],
    [ReleasePatterns], [FrequencyPattern], [SizePattern]), the writer of recorded clips
    ([ClipWriter]), the platform, arithmetic on samples ([Signal]), TrackAudio's answers,
    token buckets ([Governor]) and the file system. Theorems hold for all of them; where
    one needs a law it is a hypothesis or a field of the class, and its witness has an
    instance.

    * Not modelled

    Metrics, tracing and logs; the encoding of messages as JSON; the store in Redis, HTTP
    routes and cookie sessions beyond what is named above; the verification of tokens of
    GitHub; the streams of audio devices, resampling, Opus, the processing of the
    microphone and WebRTC itself; the reading and saving of configuration files; windows,
    dialogs and the listeners of Windows and macOS; the user interface in TypeScript. These are input
    and output, code of other projects, or settings. An operation is one step of the model
    also where the source takes several locks one after the other; a task that waits is
    cut where it waits. *)
From stdpp Require Import prelude gmap strings list fin_maps sorting.
From Stdlib Require Import NArith.

Declare Scope vacs_scope.
Delimit Scope vacs_scope with vacs.
#[global] Open Scope vacs_scope.

Create HintDb vacs.

(** ** Results: Rust's [Result<T, E>] *)
Inductive Result (T E : Type) : Type :=
| Ok (value : T)
| Err (error : E).
Arguments Ok {T E} value.
Arguments Err {T E} error.

(** ** Hash iteration order

    Rust's [HashMap] and [HashSet] iterate in an unspecified order. Every
    definition that iterates one of them is parametrised by a [HashOrder]: a
    function that lists the entries of a map in some order. The only law is
    that the list is a permutation of the entries, so a theorem proved for an
    arbitrary [HashOrder] holds whatever order the run-time picks. *)
Class HashOrder := {
  map_iter : forall {K V : Type} `{!EqDecision K, !Countable K}, gmap K V -> list (K * V);
  map_iter_perm : forall {K V : Type} `{!EqDecision K, !Countable K} (m : gmap K V),
    map_iter m ≡ₚ map_to_list m
}.

(** Two concrete orders, used by the witnesses. *)
Definition listed_order : HashOrder := {|
  map_iter K V _ _ m := map_to_list m;
  map_iter_perm K V _ _ m := Permutation_refl _
|}.

Definition reversed_order : HashOrder := {|
  map_iter K V _ _ m := reverse (map_to_list m);
  map_iter_perm K V _ _ m := reverse_Permutation _
|}.

(** The operations of the Rust standard library on maps and sets that the
    source uses and that depend on the iteration order. *)
Section hash.
Context {HO : HashOrder}.
Context {K V : Type} `{!EqDecision K, !Countable K}.

(** [set.iter()] *)
Definition set_iter (s : gset K) : list K := (map_iter (gset_to_gmap () s)).*1.

(** [map.values()] *)
Definition map_values (m : gmap K V) : list V := (map_iter m).*2.

(** [map.keys()] *)
Definition map_keys (m : gmap K V) : list K := (map_iter m).*1.

(** [extend] of a map with the pairs of an iterator: later pairs overwrite. *)
Definition map_extend (m : gmap K V) (l : list (K * V)) : gmap K V :=
  foldl (λ acc kv, <[kv.1 := kv.2]> acc) m l.

(** [collect::<HashMap<_, _>>()] *)
Definition map_collect (l : list (K * V)) : gmap K V := map_extend ∅ l.

(** [iter().any(..)] and [iter().all(..)] over the entries *)
Definition map_any (f : K -> V -> bool) (m : gmap K V) : bool :=
  existsb (λ kv, f kv.1 kv.2) (map_iter m).
Definition map_all (f : K -> V -> bool) (m : gmap K V) : bool :=
  forallb (λ kv, f kv.1 kv.2) (map_iter m).

(** [iter().find_map(..)]: the first [Some] in iteration order *)
Fixpoint list_find_map {A B : Type} (f : A -> option B) (l : list A) : option B :=
  match l with
  | [] => None
  | x :: l => match f x with Some y => Some y | None => list_find_map f l end
  end.
Definition map_find_map {B : Type} (f : K -> V -> option B) (m : gmap K V) : option B :=
  list_find_map (λ kv, f kv.1 kv.2) (map_iter m).

(** [retain] with a closure that may change the value it looks at and has an
    accumulator of captured variables: [f] answers the value to keep, or
    [None] to drop the entry, with the new accumulator. *)
Definition map_retain {A : Type} (f : K -> V -> A -> option V * A)
    (m : gmap K V) (a : A) : gmap K V * A :=
  foldl (λ st kv,
    let (kept, a') := f kv.1 kv.2 st.2 in
    (match kept with Some v' => <[kv.1 := v']> st.1 | None => delete kv.1 st.1 end, a'))
    (m, a) (map_iter m).
End hash.

(** ** Order facts *)
Section hash_facts.
Context {HO : HashOrder}.
Context {K V : Type} `{!EqDecision K, !Countable K}.
Implicit Types m : gmap K V.

Lemma elem_of_map_iter m k v : (k, v) ∈ map_iter m <-> (m !! k = Some v).
Proof. by rewrite map_iter_perm, elem_of_map_to_list. Qed.

Lemma elem_of_map_iter' m kv : kv ∈ map_iter m <-> (m !! kv.1 = Some kv.2).
Proof. destruct kv. apply elem_of_map_iter. Qed.

Lemma NoDup_fst_map_iter m : NoDup (map_iter m).*1.
Proof. rewrite map_iter_perm. apply NoDup_fst_map_to_list. Qed.

Lemma elem_of_map_values m v : v ∈ map_values m <-> exists k, m !! k = Some v.
Proof.
  unfold map_values. rewrite list_elem_of_fmap. split.
  - intros ([k v'] & -> & H). exists k. by apply elem_of_map_iter.
  - intros [k H]. exists (k, v). split; [done|]. by apply elem_of_map_iter.
Qed.

Lemma elem_of_map_keys m k : k ∈ map_keys m <-> is_Some (m !! k).
Proof.
  unfold map_keys. rewrite list_elem_of_fmap. split.
  - intros ([k' v] & -> & H). exists v. by apply elem_of_map_iter.
  - intros [v H]. exists (k, v). split; [done|]. by apply elem_of_map_iter.
Qed.

Lemma map_any_true (f : K -> V -> bool) m :
  (map_any f m = true) <-> exists k v, m !! k = Some v /\ f k v = true.
Proof.
  unfold map_any. rewrite existsb_exists. split.
  - intros ([k v] & Hin & Hf). apply list_elem_of_In, elem_of_map_iter in Hin. eauto.
  - intros (k & v & Hk & Hf). exists (k, v). split; [|done].
    by apply list_elem_of_In, elem_of_map_iter.
Qed.

Lemma map_any_false (f : K -> V -> bool) m :
  (map_any f m = false) <-> forall k v, m !! k = Some v -> f k v = false.
Proof.
  rewrite <- not_true_iff_false, map_any_true. split.
  - intros H k v Hk. destruct (f k v) eqn:E; [|done]. exfalso. eauto.
  - intros H (k & v & Hk & Hf). rewrite H in Hf; done.
Qed.

Lemma map_all_true (f : K -> V -> bool) m :
  (map_all f m = true) <-> forall k v, m !! k = Some v -> f k v = true.
Proof.
  unfold map_all. rewrite forallb_forall. split.
  - intros H k v Hk. apply (H (k, v)). by apply list_elem_of_In, elem_of_map_iter.
  - intros H [k v] Hin. apply H. by apply list_elem_of_In, elem_of_map_iter in Hin.
Qed.

Lemma list_find_map_Some {A B} (f : A -> option B) (l : list A) y :
  list_find_map f l = Some y -> exists x, x ∈ l /\ f x = Some y.
Proof.
  induction l as [|x l IH]; simpl; [done|].
  destruct (f x) eqn:E; intros H; simplify_eq.
  - exists x. split; [left|done].
  - destruct (IH H) as (x' & ? & ?). exists x'. split; [by right|done].
Qed.

Lemma list_find_map_None {A B} (f : A -> option B) (l : list A) :
  (list_find_map f l = None) <-> forall x, x ∈ l -> f x = None.
Proof.
  induction l as [|x l IH]; simpl.
  - split; [intros _ x Hx; inversion Hx|done].
  - destruct (f x) eqn:E.
    + split; [done|]. intros H. rewrite (H x) in E by left. done.
    + rewrite IH. setoid_rewrite elem_of_cons. naive_solver.
Qed.

Lemma map_find_map_Some {B} (f : K -> V -> option B) m y :
  map_find_map f m = Some y -> exists k v, m !! k = Some v /\ f k v = Some y.
Proof.
  intros ([k v] & Hin & Hf)%list_find_map_Some. exists k, v.
  by rewrite <- elem_of_map_iter.
Qed.

Lemma map_find_map_None {B} (f : K -> V -> option B) m :
  (map_find_map f m = None) <-> forall k v, m !! k = Some v -> f k v = None.
Proof.
  unfold map_find_map. rewrite list_find_map_None. split.
  - intros H k v Hk. apply (H (k, v)). by apply elem_of_map_iter.
  - intros H [k v] Hin. apply H. by apply elem_of_map_iter.
Qed.

Lemma map_extend_not_in m l k :
  k ∉ l.*1 -> map_extend m l !! k = m !! k.
Proof.
  revert m. induction l as [|[k' v'] l IH]; intros m Hk; simpl; [done|].
  rewrite fmap_cons, not_elem_of_cons in Hk. destruct Hk as [Hne Hk].
  unfold map_extend in IH |- *. simpl. rewrite IH by done.
  by rewrite lookup_insert_ne by (simpl in *; congruence).
Qed.

(** Every value of a collected map comes from one of the pairs. *)
Lemma map_extend_lookup m l k v :
  map_extend m l !! k = Some v -> (k, v) ∈ l \/ (k ∉ l.*1 /\ m !! k = Some v).
Proof.
  revert m. induction l as [|[k' v'] l IH]; intros m H; simpl in *.
  - right. split; [apply not_elem_of_nil|done].
  - apply IH in H as [H|[Hk H]]; [left; by right|].
    destruct (decide (k = k')) as [->|Hne].
    + rewrite lookup_insert_eq in H. simplify_eq. left. by left.
    + rewrite lookup_insert_ne in H by congruence. right. split; [|done].
      by apply not_elem_of_cons.
Qed.

Lemma map_extend_is_Some m l k :
  is_Some (map_extend m l !! k) <-> k ∈ l.*1 \/ is_Some (m !! k).
Proof.
  revert m. induction l as [|[k' v'] l IH]; intros m; simpl.
  - split; [by right|]. intros [H|H]; [by apply not_elem_of_nil in H|done].
  - rewrite IH, elem_of_cons. destruct (decide (k' = k)) as [->|Hne].
    + rewrite lookup_insert_eq. naive_solver.
    + rewrite lookup_insert_ne by done. naive_solver congruence.
Qed.

Lemma map_collect_lookup (l : list (K * V)) k v : map_collect l !! k = Some v -> (k, v) ∈ l.
Proof.
  intros H. apply map_extend_lookup in H as [|[_ H]]; [done|]. by rewrite lookup_empty in H.
Qed.

Lemma map_collect_is_Some (l : list (K * V)) k : is_Some (map_collect l !! k) <-> k ∈ l.*1.
Proof.
  unfold map_collect. rewrite map_extend_is_Some, lookup_empty. split; [|by left].
  intros [|[? ?]]; done.
Qed.

(** When the pairs are functional, collecting is exactly the relation. *)
Lemma map_collect_functional (l : list (K * V)) k v :
  (forall k v1 v2, (k, v1) ∈ l -> (k, v2) ∈ l -> v1 = v2) ->
  (map_collect l !! k = Some v) <-> (k, v) ∈ l.
Proof.
  intros Hfun. split; [apply map_collect_lookup|]. intros Hin.
  assert (is_Some (map_collect l !! k)) as [v' Hv'].
  { apply map_collect_is_Some, list_elem_of_fmap. exists (k, v). done. }
  rewrite Hv'. f_equal. eapply Hfun; [|done]. by apply map_collect_lookup.
Qed.
End hash_facts.

Section set_facts.
Context {HO : HashOrder}.
Context {K : Type} `{!EqDecision K, !Countable K}.

Lemma elem_of_set_iter (s : gset K) x : x ∈ set_iter s <-> x ∈ s.
Proof.
  unfold set_iter. rewrite list_elem_of_fmap. split.
  - intros ([y []] & -> & Hy). apply elem_of_map_iter in Hy.
    by apply lookup_gset_to_gmap_Some in Hy as [??].
  - intros Hx. exists (x, ()). split; [done|].
    apply elem_of_map_iter, lookup_gset_to_gmap_Some. done.
Qed.

Lemma NoDup_set_iter (s : gset K) : NoDup (set_iter s).
Proof. unfold set_iter. rewrite map_iter_perm. apply NoDup_fst_map_to_list. Qed.

Lemma set_iter_nil (s : gset K) : (set_iter s = []) <-> (s = ∅).
Proof.
  split; intros H.
  - apply set_eq. intros x. rewrite <- elem_of_set_iter, H. set_solver.
  - destruct (set_iter s) as [|x l] eqn:E; [done|].
    assert (x ∈ s) by (apply elem_of_set_iter; rewrite E; left). set_solver.
Qed.

End set_facts.

(** [retain]: what is kept does not depend on the order, as long as the
    closure's decision does not depend on the accumulator. *)
Section retain_facts.
Context {HO : HashOrder}.
Context {K V A : Type} `{!EqDecision K, !Countable K}.
Implicit Types m : gmap K V.

Lemma map_retain_foldl_lookup (f : K -> V -> A -> option V * A) (g : K -> V -> option V)
    (l : list (K * V)) m a k :
  (forall k v a, (f k v a).1 = g k v) ->
  NoDup l.*1 -> (forall kv, kv ∈ l -> m !! kv.1 = Some kv.2) ->
  (foldl (λ st kv,
    let (kept, a') := f kv.1 kv.2 st.2 in
    (match kept with Some v' => <[kv.1 := v']> st.1 | None => delete kv.1 st.1 end, a'))
    (m, a) l).1 !! k
  = if decide (k ∈ l.*1) then m !! k ≫= g k else m !! k.
Proof.
  intros Hf. revert m a. induction l as [|[k1 v1] l IH]; intros m a Hnd Hl; cbn.
  { case_decide as H; [by apply not_elem_of_nil in H|done]. }
  rewrite fmap_cons in Hnd. apply NoDup_cons in Hnd as [Hk1 Hnd]. cbn in Hk1.
  destruct (f k1 v1 a) as [kept a'] eqn:E.
  assert (kept = g k1 v1) as -> by (rewrite <- (Hf k1 v1 a), E; done).
  assert (m !! k1 = Some v1) as Hm by (apply (Hl (k1, v1)); left).
  set (m' := match g k1 v1 with Some v' => _ | None => _ end).
  assert (m' !! k1 = g k1 v1) as Hk1'.
  { subst m'. destruct (g k1 v1); [by rewrite lookup_insert_eq|by rewrite lookup_delete_eq]. }
  assert (forall k', k' <> k1 -> m' !! k' = m !! k') as Hne.
  { intros k' ?. subst m'.
    destruct (g k1 v1); [by rewrite lookup_insert_ne|by rewrite lookup_delete_ne]. }
  rewrite IH; [|done|].
  - destruct (decide (k = k1)) as [->|Hk].
    + rewrite decide_False by done. rewrite decide_True by left. by rewrite Hk1', Hm.
    + rewrite Hne by done. destruct (decide (k ∈ l.*1)) as [Hin|Hnin].
      * rewrite decide_True by (by right). done.
      * rewrite decide_False; [done|]. by rewrite not_elem_of_cons.
  - intros [k2 v2] Hin. cbn. rewrite Hne.
    + apply (Hl (k2, v2)). by right.
    + intros ->. apply Hk1, list_elem_of_fmap. by exists (k1, v2).
Qed.

Lemma map_retain_lookup (f : K -> V -> A -> option V * A) (g : K -> V -> option V) m a k :
  (forall k v a, (f k v a).1 = g k v) ->
  (map_retain f m a).1 !! k = m !! k ≫= g k.
Proof.
  intros Hf. unfold map_retain.
  rewrite (map_retain_foldl_lookup f g); [|done|apply NoDup_fst_map_iter|].
  - case_decide as Hin; [done|]. destruct (m !! k) as [v|] eqn:E; [|done].
    destruct Hin. apply list_elem_of_fmap. exists (k, v). split; [done|].
    by apply elem_of_map_iter.
  - intros [k1 v1]. apply elem_of_map_iter.
Qed.

Lemma map_retain_acc (f : K -> V -> A -> option V * A) (h : K -> V -> A -> A) m a :
  (forall k v a, (f k v a).2 = h k v a) ->
  (map_retain f m a).2 = foldl (λ a kv, h kv.1 kv.2 a) a (map_iter m).
Proof.
  intros Hf. unfold map_retain. generalize m at 1. revert a.
  induction (map_iter m) as [|[k v] l IH]; intros a m'; cbn; [done|].
  destruct (f k v a) as [kept a'] eqn:E. rewrite IH. f_equal.
  by rewrite <- Hf, E.
Qed.
End retain_facts.

(** Folds that act at one key of the list at most. *)
Lemma foldl_inert {A B} (h : B -> A -> B) (l : list A) (b : B) :
  (forall x b, x ∈ l -> h b x = b) -> foldl h b l = b.
Proof.
  revert b. induction l as [|x l IH]; intros b H; simpl; [done|].
  rewrite H by left. apply IH. intros y b' Hy. apply H. by right.
Qed.

Lemma foldl_single {A B} (h : B -> A -> B) (l : list A) (b : B) x :
  NoDup l -> x ∈ l -> (forall y b, y ∈ l -> y <> x -> h b y = b) -> foldl h b l = h b x.
Proof.
  revert b. induction l as [|y l IH]; intros b Hnd Hin H; simpl; [by apply not_elem_of_nil in Hin|].
  apply NoDup_cons in Hnd as [Hy Hnd]. apply elem_of_cons in Hin as [->|Hin].
  - apply foldl_inert. intros z b' Hz. apply H; [by right|]. by intros ->.
  - rewrite H; [|left|by intros ->]. apply IH; [done..|]. intros z b' Hz. apply H. by right.
Qed.

Section fold_map_iter.
Context {HO : HashOrder}.
Context {K V B : Type} `{!EqDecision K, !Countable K}.

Lemma NoDup_map_iter (m : gmap K V) : NoDup (map_iter m).
Proof. eapply NoDup_fmap_1, NoDup_fst_map_iter. Qed.

(** A loop over a map that only acts at one of its keys. *)
Lemma foldl_map_iter_single (h : B -> K * V -> B) (m : gmap K V) b k v :
  m !! k = Some v -> (forall k' v' b, m !! k' = Some v' -> k' <> k -> h b (k', v') = b) ->
  foldl h b (map_iter m) = h b (k, v).
Proof.
  intros Hk H. apply foldl_single; [apply NoDup_map_iter|by apply elem_of_map_iter|].
  intros [k' v'] b' Hin%elem_of_map_iter Hne. apply H; [done|]. intros ->. congruence.
Qed.

Lemma foldl_map_iter_inert (h : B -> K * V -> B) (m : gmap K V) b :
  (forall k' v' b, m !! k' = Some v' -> h b (k', v') = b) -> foldl h b (map_iter m) = b.
Proof. intros H. apply foldl_inert. intros [k v] b' Hin%elem_of_map_iter. by apply H. Qed.
End fold_map_iter.

(** ** Strings: Rust's [Ord] for [str] is the lexicographic order of bytes *)
Definition str_leb (a b : string) : bool :=
  match String.compare a b with Gt => false | _ => true end.
Definition str_ltb (a b : string) : bool :=
  match String.compare a b with Lt => true | _ => false end.

Lemma str_compare_refl a : String.compare a a = Eq.
Proof. induction a as [|c a IH]; simpl; [done|]. unfold Ascii.compare. by rewrite N.compare_refl. Qed.

Lemma str_compare_antisym a b : String.compare a b = CompOpp (String.compare b a).
Proof. apply String.compare_antisym. Qed.

Lemma str_compare_eq a b : String.compare a b = Eq -> a = b.
Proof. apply String.compare_eq_iff. Qed.

Lemma str_compare_trans_lt a b c :
  String.compare a b = Lt -> String.compare b c = Lt -> String.compare a c = Lt.
Proof.
  revert b c. induction a as [|x a IH]; intros [|y b] [|z c]; simpl; try done.
  unfold Ascii.compare.
  destruct (N.compare_spec (Ascii.N_of_ascii x) (Ascii.N_of_ascii y)) as [Hxy|Hxy|Hxy];
  destruct (N.compare_spec (Ascii.N_of_ascii y) (Ascii.N_of_ascii z)) as [Hyz|Hyz|Hyz];
  try done; intros H1 H2;
  (destruct (N.compare_spec (Ascii.N_of_ascii x) (Ascii.N_of_ascii z)); try lia; eauto).
Qed.

Lemma str_leb_refl a : str_leb a a = true.
Proof. unfold str_leb. by rewrite str_compare_refl. Qed.

Lemma str_leb_total a b : str_leb a b = true \/ str_leb b a = true.
Proof.
  unfold str_leb. rewrite (str_compare_antisym b a). destruct (String.compare a b); simpl; auto.
Qed.

Lemma str_leb_antisym a b : str_leb a b = true -> str_leb b a = true -> a = b.
Proof.
  unfold str_leb. rewrite (str_compare_antisym b a).
  destruct (String.compare a b) eqn:E; simpl; try done. intros _ _. by apply str_compare_eq.
Qed.

Lemma str_leb_trans a b c : str_leb a b = true -> str_leb b c = true -> str_leb a c = true.
Proof.
  unfold str_leb.
  destruct (String.compare a b) eqn:E1; try done; destruct (String.compare b c) eqn:E2; try done;
  intros _ _.
  - apply str_compare_eq in E1, E2. subst. by rewrite str_compare_refl.
  - apply str_compare_eq in E1. subst. by rewrite E2.
  - apply str_compare_eq in E2. subst. by rewrite E1.
  - by rewrite (str_compare_trans_lt _ _ _ E1 E2).
Qed.
