(* ===== verification/Protocol.v ===== *)
(** Protocol: the data types shared by client and server
    ([vacs-protocol/src]): identifiers, call sources and targets with their
    order, the messages of the websocket protocol, and station changes.

    An identifier is a wrapper around its string, as in the source, so that a
    client id cannot be used as a station id. [CallId] wraps the 128 bits of a
    UUID as a number. JSON encoding is not modelled. *)
From stdpp Require Import prelude gmap strings list.
From Stdlib Require Import NArith.
From S2P Require Import Prelude.

(** ** Identifiers ([vatsim.rs], [ws/shared/calls.rs], [profile.rs]) *)

Record ClientId := mkClientId { client_id_str : string }.
Record PositionId := mkPositionId { position_id_str : string }.
Record StationId := mkStationId { station_id_str : string }.
Record ProfileId := mkProfileId { profile_id_str : string }.
Record CallId := mkCallId { call_uuid : N }.

#[export] Instance ClientId_eq_dec : EqDecision ClientId.
Proof. solve_decision. Defined.
#[export] Instance PositionId_eq_dec : EqDecision PositionId.
Proof. solve_decision. Defined.
#[export] Instance StationId_eq_dec : EqDecision StationId.
Proof. solve_decision. Defined.
#[export] Instance ProfileId_eq_dec : EqDecision ProfileId.
Proof. solve_decision. Defined.
#[export] Instance CallId_eq_dec : EqDecision CallId.
Proof. solve_decision. Defined.

#[export] Instance ClientId_countable : Countable ClientId.
Proof. by apply (inj_countable' client_id_str mkClientId); intros []. Defined.
#[export] Instance PositionId_countable : Countable PositionId.
Proof. by apply (inj_countable' position_id_str mkPositionId); intros []. Defined.
#[export] Instance StationId_countable : Countable StationId.
Proof. by apply (inj_countable' station_id_str mkStationId); intros []. Defined.
#[export] Instance ProfileId_countable : Countable ProfileId.
Proof. by apply (inj_countable' profile_id_str mkProfileId); intros []. Defined.
#[export] Instance CallId_countable : Countable CallId.
Proof. by apply (inj_countable' call_uuid mkCallId); intros []. Defined.

(** [str::to_ascii_uppercase] *)
Definition ascii_uppercase (c : Ascii.ascii) : Ascii.ascii :=
  let n := Ascii.N_of_ascii c in
  if (97 <=? n)%N && (n <=? 122)%N then Ascii.ascii_of_N (n - 32) else c.

Fixpoint to_ascii_uppercase (s : string) : string :=
  match s with
  | EmptyString => EmptyString
  | String c s => String (ascii_uppercase c) (to_ascii_uppercase s)
  end.

Definition ClientId_from (id : string) : ClientId := mkClientId id.
Definition PositionId_from (id : string) : PositionId := mkPositionId (to_ascii_uppercase id).
Definition StationId_from (id : string) : StationId := mkStationId (to_ascii_uppercase id).
Definition ProfileId_from (id : string) : ProfileId := mkProfileId (to_ascii_uppercase id).

(** The derived [Ord] of the newtypes is the order of their strings. *)
Definition client_leb (a b : ClientId) : bool := str_leb (client_id_str a) (client_id_str b).
Definition position_leb (a b : PositionId) : bool :=
  str_leb (position_id_str a) (position_id_str b).
Definition station_leb (a b : StationId) : bool := str_leb (station_id_str a) (station_id_str b).

(** ** Calls ([ws/shared/calls.rs]) *)

Record CallSource := mkCallSource {
  source_client_id : ClientId;
  source_position_id : option PositionId;
  source_station_id : option StationId
}.

Inductive CallTarget :=
| TClient (id : ClientId)
| TPosition (id : PositionId)
| TStation (id : StationId).

#[export] Instance CallSource_eq_dec : EqDecision CallSource.
Proof. solve_decision. Defined.
#[export] Instance CallTarget_eq_dec : EqDecision CallTarget.
Proof. solve_decision. Defined.
#[export] Instance CallTarget_countable : Countable CallTarget.
Proof.
  by apply (inj_countable'
    (λ t, match t with
          | TClient c => inl c | TPosition p => inr (inl p) | TStation s => inr (inr s) end)
    (λ s, match s with
          | inl c => TClient c | inr (inl p) => TPosition p | inr (inr s) => TStation s end));
  intros [].
Defined.

(** [impl Ord for CallTarget]: stations before positions before clients. *)
Definition call_target_cmp (a b : CallTarget) : comparison :=
  match a, b with
  | TStation s, TStation s' => String.compare (station_id_str s) (station_id_str s')
  | TStation _, TPosition _ | TStation _, TClient _ | TPosition _, TClient _ => Lt
  | TClient c, TClient c' => String.compare (client_id_str c) (client_id_str c')
  | TClient _, TPosition _ | TClient _, TStation _ | TPosition _, TStation _ => Gt
  | TPosition p, TPosition p' => String.compare (position_id_str p) (position_id_str p')
  end.

(** [impl From<CallSource> for CallTarget] *)
Definition call_target_of_source (value : CallSource) : CallTarget :=
  match source_station_id value with
  | Some station_id => TStation station_id
  | None =>
    match source_position_id value with
    | Some position_id => TPosition position_id
    | None => TClient (source_client_id value)
    end
  end.

(** [pub type CallParticipants = HashMap<ClientId, CallTarget>] *)
Abbreviation CallParticipants := (gmap ClientId CallTarget).

(** The payload of an unknown reason, kept as the text it arrived in. *)
Record UnknownReason := mkUnknownReason { unknown_payload : string }.

Inductive CallErrorReason :=
| TargetsNotFound (targets : gset CallTarget)
| CE_AlreadyParticipant (target : CallTarget)
| CE_CallNotFound
| CallActive
| WebrtcFailure (client : ClientId)
| AudioFailure (client : ClientId)
| CallFailure
| SignalingFailure (client : ClientId)
| CE_AutoHangup
| PeerConnectionFailed (peer : ClientId)
| CE_NotConferenceLeader (target : CallTarget)
| CE_NotParticipant
| MaxConferenceSizeReached (targets : gset CallTarget)
| CE_Other
| CE_Unknown (reason : UnknownReason).

Record CallEnd := mkCallEnd { ce_call_id : CallId; ending_client_id : ClientId }.

Record CallError := mkCallError {
  cerr_call_id : CallId;
  cerr_reason : CallErrorReason;
  cerr_message : option string
}.

(** ** Client messages ([ws/client/calls.rs], [ws/client.rs], [ws/shared/webrtc.rs]) *)

Record CallInvite := mkCallInvite {
  invite_call_id : CallId;
  invite_source : CallSource;
  invite_targets : gset CallTarget;
  invite_prio : bool
}.

Record CallAccept := mkCallAccept { accept_call_id : CallId; accepting_client_id : ClientId }.

Inductive CallRejectReason :=
| Busy
| RejectUnknown (reason : UnknownReason).

Record CallReject := mkCallReject {
  reject_call_id : CallId;
  rejecting_client_id : ClientId;
  reject_reason : CallRejectReason
}.

Inductive CallDropReason := Requested | AutoHangup.
#[export] Instance CallDropReason_eq_dec : EqDecision CallDropReason.
Proof. solve_decision. Defined.

Record CallDropTarget := mkCallDropTarget {
  drop_call_id : CallId;
  drop_target_target : CallTarget;
  drop_reason : CallDropReason
}.

Record WebrtcOffer := mkWebrtcOffer {
  offer_call_id : CallId; offer_from : ClientId; offer_to : ClientId; offer_sdp : string }.
Record WebrtcAnswer := mkWebrtcAnswer {
  answer_call_id : CallId; answer_from : ClientId; answer_to : ClientId; answer_sdp : string }.
Record WebrtcIceCandidate := mkWebrtcIceCandidate {
  ice_call_id : CallId; ice_from : ClientId; ice_to : ClientId; ice_candidate : string }.

Inductive ErrorReason :=
| MalformedMessage
| Internal (message : string)
| PeerConnection
| UnexpectedMessage (message : string)
| RateLimited (targets : gset CallTarget) (retry_after_secs : N)
| ClientNotFound
| ErrorUnknown (reason : UnknownReason).

Record Error := mkError {
  error_reason : ErrorReason;
  error_client_id : option ClientId;
  error_call_id : option CallId
}.

Definition Error_new (reason : ErrorReason) : Error := mkError reason None None.
Definition with_client_id (e : Error) (client_id : ClientId) : Error :=
  mkError (error_reason e) (Some client_id) (error_call_id e).
Definition with_call_id (e : Error) (call_id : CallId) : Error :=
  mkError (error_reason e) (error_client_id e) (Some call_id).

Record Login := mkLogin {
  login_token : string;
  protocol_version : string;
  custom_profile : bool;
  login_position_id : option PositionId
}.

Inductive ClientMessage :=
| CM_Login (login : Login)
| CM_Logout
| CM_CallInvite (invite : CallInvite)
| CM_CallAccept (accept : CallAccept)
| CM_CallEnd (call_end : CallEnd)
| CM_CallReject (reject : CallReject)
| CM_CallError (error : CallError)
| CM_CallDropTarget (drop : CallDropTarget)
| CM_WebrtcOffer (offer : WebrtcOffer)
| CM_WebrtcAnswer (answer : WebrtcAnswer)
| CM_WebrtcIceCandidate (candidate : WebrtcIceCandidate)
| CM_ListClients
| CM_ListStations
| CM_Disconnect
| CM_Error (error : Error).

(** ** Stations and clients ([vatsim.rs], [ws/server/network.rs]) *)

Inductive StationChange :=
| Online (station_id : StationId) (position_id : PositionId)
| Handoff (station_id : StationId) (from_position_id to_position_id : PositionId)
| Offline (station_id : StationId).

#[export] Instance StationChange_eq_dec : EqDecision StationChange.
Proof. solve_decision. Defined.

Definition change_station_id (change : StationChange) : StationId :=
  match change with
  | Online s _ | Handoff s _ _ | Offline s => s
  end.

(** The derived [Ord]: by variant, then by the fields in order. *)
Definition station_change_key (c : StationChange) : N * list string :=
  match c with
  | Online s p => (0%N, [station_id_str s; position_id_str p])
  | Handoff s f t => (1%N, [station_id_str s; position_id_str f; position_id_str t])
  | Offline s => (2%N, [station_id_str s])
  end.

Fixpoint strs_cmp (a b : list string) : comparison :=
  match a, b with
  | [], [] => Eq
  | [], _ :: _ => Lt
  | _ :: _, [] => Gt
  | x :: a, y :: b => match String.compare x y with Eq => strs_cmp a b | r => r end
  end.

Definition station_change_cmp (a b : StationChange) : comparison :=
  match N.compare (station_change_key a).1 (station_change_key b).1 with
  | Eq => strs_cmp (station_change_key a).2 (station_change_key b).2
  | r => r
  end.

Definition station_change_le (a b : StationChange) : Prop := station_change_cmp a b <> Gt.

#[export] Instance station_change_le_dec : RelDecision station_change_le.
Proof. intros a b. unfold station_change_le. destruct (station_change_cmp a b); [left|left|right]; abstract congruence. Defined.

Inductive ActiveProfile (A : Type) := Specific (profile : A) | Custom | NoProfile.
Arguments Specific {A} profile.
Arguments Custom {A}.
Arguments NoProfile {A}.

#[export] Instance ActiveProfile_eq_dec : EqDecision (ActiveProfile ProfileId).
Proof. solve_decision. Defined.

(** A resolved profile is sent with its whole layout; the layout is only copied
    to the wire and is represented here by the id of the profile. *)
Inductive SessionProfile := Unchanged | Changed (profile : ActiveProfile ProfileId).

Record ClientInfo := mkClientInfo {
  info_id : ClientId;
  display_name : string;
  info_frequency : string;
  info_position_id : option PositionId
}.

Record SessionInfo := mkSessionInfo {
  si_client : ClientInfo;
  si_profile : SessionProfile;
  si_default_call_sources : list StationId;
  si_max_conf_size : option N
}.

Record StationInfo := mkStationInfo { station_info_id : StationId; own : bool }.

(** ** Server messages ([ws/server.rs], [ws/server/calls.rs], [ws/server/auth.rs]) *)

Record CallInvitation := mkCallInvitation {
  inv_call_id : CallId;
  inv_source : CallSource;
  inv_target : CallTarget;
  inv_invited_targets : gset CallTarget;
  inv_joined_participants : CallParticipants;
  inv_conference_leader : option ClientId;
  inv_prio : bool
}.

Record CallUpdate := mkCallUpdate {
  cu_call_id : CallId;
  cu_invited_targets : gset CallTarget;
  cu_joined_participants : CallParticipants;
  cu_conference_leader : option ClientId
}.

Inductive CallCancelReason :=
| AnsweredElsewhere (client : ClientId)
| CallerCancelled
| CC_Disconnected
| Errored (reason : CallErrorReason)
| CC_Rejected (reason : CallRejectReason)
| CC_Unknown (reason : UnknownReason).

Record CallCancelled := mkCallCancelled {
  cc_call_id : CallId;
  cc_targets : gset CallTarget;
  cc_reason : CallCancelReason
}.

Inductive LoginFailureReason :=
| Unauthorized
| DuplicateId
| InvalidCredentials
| LF_NoActiveVatsimConnection
| LF_AmbiguousVatsimPosition (positions : list PositionId)
| InvalidVatsimPosition
| LF_Timeout
| IncompatibleProtocolVersion
| LF_Unknown (reason : UnknownReason).

Inductive DisconnectReason :=
| Terminated
| NoActiveVatsimConnection
| AmbiguousVatsimPosition (positions : list PositionId)
| DR_Unknown (reason : UnknownReason).

Inductive ServerMessage :=
| SM_LoginFailure (reason : LoginFailureReason)
| SM_CallInvitation (invitation : CallInvitation)
| SM_CallEnd (call_end : CallEnd)
| SM_CallUpdate (update : CallUpdate)
| SM_CallCancelled (cancelled : CallCancelled)
| SM_CallError (error : CallError)
| SM_WebrtcOffer (offer : WebrtcOffer)
| SM_WebrtcAnswer (answer : WebrtcAnswer)
| SM_WebrtcIceCandidate (candidate : WebrtcIceCandidate)
| SM_ClientInfo (info : ClientInfo)
| SM_SessionInfo (info : SessionInfo)
| SM_ClientConnected (client : ClientInfo)
| SM_ClientDisconnected (client_id : ClientId)
| SM_ClientList (clients : list ClientInfo)
| SM_StationList (stations : list StationInfo)
| SM_StationChanges (changes : list StationChange)
| SM_Disconnected (reason : DisconnectReason)
| SM_Error (error : Error)
| SM_Unknown.

(** ** Order facts *)

Lemma client_leb_total a b : client_leb a b = true \/ client_leb b a = true.
Proof. apply str_leb_total. Qed.

Lemma client_leb_antisym a b : client_leb a b = true -> client_leb b a = true -> a = b.
Proof. destruct a, b. intros H1 H2. f_equal. by apply str_leb_antisym. Qed.

Lemma call_target_cmp_eq a b : call_target_cmp a b = Eq -> a = b.
Proof.
  destruct a as [[]|[]|[]], b as [[]|[]|[]]; simpl; try done; intros ->%str_compare_eq; done. Qed.

(** The hand-written order of call targets is a total order: [cmp] is
    antisymmetric and only equal on equal targets. *)
Lemma call_target_cmp_antisym a b : call_target_cmp a b = CompOpp (call_target_cmp b a).
Proof.
  destruct a as [[]|[]|[]], b as [[]|[]|[]]; simpl; try done; apply str_compare_antisym. Qed.

Lemma strs_cmp_antisym a b : strs_cmp a b = CompOpp (strs_cmp b a).
Proof.
  revert b. induction a as [|x a IH]; intros [|y b]; simpl; try done.
  rewrite (str_compare_antisym x y). destruct (String.compare y x); simpl; auto.
Qed.

Lemma strs_cmp_eq a b : strs_cmp a b = Eq -> a = b.
Proof.
  revert b. induction a as [|x a IH]; intros [|y b]; simpl; try done.
  destruct (String.compare x y) eqn:E; try done. intros ->%IH.
  by apply str_compare_eq in E as ->.
Qed.

Lemma strs_cmp_trans a b c : strs_cmp a b <> Gt -> strs_cmp b c <> Gt -> strs_cmp a c <> Gt.
Proof.
  revert b c. induction a as [|x a IH]; intros [|y b] [|z c]; simpl; try done.
  destruct (String.compare x y) eqn:E1; try done; destruct (String.compare y z) eqn:E2; try done;
  intros H1 H2.
  - apply str_compare_eq in E1, E2. subst. rewrite str_compare_refl. eauto.
  - apply str_compare_eq in E1. subst. by rewrite E2.
  - apply str_compare_eq in E2. subst. by rewrite E1.
  - by rewrite (str_compare_trans_lt _ _ _ E1 E2).
Qed.

#[export] Instance station_change_le_trans : Transitive station_change_le.
Proof.
  intros a b c. unfold station_change_le, station_change_cmp.
  destruct (N.compare_spec (station_change_key a).1 (station_change_key b).1) as [E1|E1|E1];
  destruct (N.compare_spec (station_change_key b).1 (station_change_key c).1) as [E2|E2|E2];
  destruct (N.compare_spec (station_change_key a).1 (station_change_key c).1) as [E3|E3|E3];
  try lia; try done. apply strs_cmp_trans.
Qed.

#[export] Instance station_change_le_total : Total station_change_le.
Proof.
  intros a b. unfold station_change_le, station_change_cmp.
  rewrite (N.compare_antisym (station_change_key b).1), (strs_cmp_antisym (station_change_key b).2).
  destruct (N.compare _ _); simpl; [|by right|by left].
  destruct (strs_cmp _ _); simpl; [left|left|right]; done.
Qed.

#[export] Instance station_change_le_antisym : AntiSymm (=) station_change_le.
Proof.
  intros a b. unfold station_change_le, station_change_cmp.
  rewrite (N.compare_antisym (station_change_key b).1), (strs_cmp_antisym (station_change_key b).2).
  destruct (N.compare_spec (station_change_key b).1 (station_change_key a).1) as [E|E|E]; simpl;
    try done.
  destruct (strs_cmp _ _) eqn:E'; simpl; try done. intros _ _.
  apply strs_cmp_eq in E'.
  destruct a as [[] []|[] [] []|[]], b as [[] []|[] [] []|[]]; simpl in *; by simplify_eq.
Qed.
