(* ===== verification/Calls.v ===== *)
(** Calls: the entries of the call tables, [vacs-server/src/state/calls.rs] and
    the guards of [vacs-server/src/metrics/guards.rs] they hold.

    A time is a number of nanoseconds. The metrics a guard emits when it is
    dropped, and the log lines, are not modelled. *)
From stdpp Require Import prelude gmap strings list.
From Stdlib Require Import NArith.
From S2P Require Import Prelude Protocol.

Abbreviation Instant := N.
Abbreviation Duration := N.

(** [Instant::duration_since] saturates at zero. *)
Definition duration_since (later earlier : Instant) : Duration := (later - earlier)%N.

(** ** Guards *)

Inductive CallAttemptOutcome :=
| Accepted
| Rejected
| OutcomeError (reason : CallErrorReason)
| Cancelled
| Aborted.

Definition outcome_of_drop_reason (reason : CallDropReason) : CallAttemptOutcome :=
  match reason with
  | Requested => Cancelled
  | AutoHangup => OutcomeError CE_AutoHangup
  end.

Record CallAttemptGuard := mkCallAttemptGuard {
  attempt_start_time : Instant;
  attempt_outcome : option CallAttemptOutcome
}.

Definition CallAttemptGuard_new (now : Instant) : CallAttemptGuard := mkCallAttemptGuard now None.
Definition guard_set_outcome (g : CallAttemptGuard) (outcome : CallAttemptOutcome) :=
  mkCallAttemptGuard (attempt_start_time g) (Some outcome).

Record CallGuard := mkCallGuard { guard_start_time : Instant; max_participants : nat }.

Definition CallGuard_new (now : Instant) : CallGuard := mkCallGuard now 2.
Definition record_participants (g : CallGuard) (count : nat) : CallGuard :=
  mkCallGuard (guard_start_time g) (Nat.max (max_participants g) count).

(** ** Ringing targets *)

Record RingingTarget := mkRingingTarget {
  rt_call_id : CallId;
  rt_caller_id : ClientId;
  rt_source : CallSource;
  rt_target : CallTarget;
  rt_notified_clients : gset ClientId
}.

Record RingingTargetEntry := mkRingingTargetEntry {
  rte_source : CallSource;
  rte_notified_clients : gset ClientId;
  rte_rejected_clients : gset ClientId;
  rte_errored_clients : gset ClientId;
  rte_guard : CallAttemptGuard
}.

Module RingingTargetEntry.
Definition new (source : CallSource) (notified_clients : gset ClientId) (now : Instant) :
    RingingTargetEntry :=
  mkRingingTargetEntry source notified_clients ∅ ∅ (CallAttemptGuard_new now).

Definition has_notified_client (e : RingingTargetEntry) (client_id : ClientId) : bool :=
  bool_decide (client_id ∈ rte_notified_clients e).

Definition has_failed_client (e : RingingTargetEntry) (client_id : ClientId) : bool :=
  bool_decide (client_id ∈ rte_rejected_clients e)
  || bool_decide (client_id ∈ rte_errored_clients e).

Definition mark_rejected (e : RingingTargetEntry) (client_id : ClientId) : RingingTargetEntry :=
  if bool_decide (client_id ∈ rte_notified_clients e) then
    mkRingingTargetEntry (rte_source e) (rte_notified_clients e ∖ {[client_id]})
      ({[client_id]} ∪ rte_rejected_clients e) (rte_errored_clients e) (rte_guard e)
  else e.

Definition mark_errored (e : RingingTargetEntry) (client_id : ClientId) : RingingTargetEntry :=
  if bool_decide (client_id ∈ rte_notified_clients e) then
    mkRingingTargetEntry (rte_source e) (rte_notified_clients e ∖ {[client_id]})
      (rte_rejected_clients e) ({[client_id]} ∪ rte_errored_clients e) (rte_guard e)
  else e.

Definition set_outcome (e : RingingTargetEntry) (outcome : CallAttemptOutcome) :
    RingingTargetEntry :=
  mkRingingTargetEntry (rte_source e) (rte_notified_clients e) (rte_rejected_clients e)
    (rte_errored_clients e) (guard_set_outcome (rte_guard e) outcome).

Definition complete (e : RingingTargetEntry) (outcome : CallAttemptOutcome) (call_id : CallId)
    (caller_id : ClientId) (source : CallSource) (target : CallTarget) :
    RingingTargetEntry * RingingTarget :=
  (set_outcome e outcome,
   mkRingingTarget call_id caller_id source target (rte_notified_clients e)).

Definition all_rejected_or_errored (e : RingingTargetEntry) : bool :=
  bool_decide (rte_notified_clients e = ∅).
End RingingTargetEntry.

(** ** Ringing calls *)

Record RingingCallEntry := mkRingingCallEntry {
  rce_call_id : CallId;
  rce_caller_id : ClientId;
  rce_targets : gmap CallTarget RingingTargetEntry
}.

Definition set_targets (r : RingingCallEntry) (targets : gmap CallTarget RingingTargetEntry) :=
  mkRingingCallEntry (rce_call_id r) (rce_caller_id r) targets.

Module RingingCallEntry.
Section defs.
Context {HO : HashOrder}.

Definition new (call_id : CallId) (caller_id : ClientId) (source : CallSource)
    (target : CallTarget) (notified_clients : gset ClientId) (now : Instant) :
    RingingCallEntry :=
  mkRingingCallEntry call_id caller_id
    {[ target := RingingTargetEntry.new source notified_clients now ]}.

Definition add_target (r : RingingCallEntry) (source : CallSource) (target : CallTarget)
    (notified_clients : gset ClientId) (now : Instant) : RingingCallEntry :=
  set_targets r (<[target := RingingTargetEntry.new source notified_clients now]> (rce_targets r)).

Definition complete_all_targets (r : RingingCallEntry) (outcome : CallAttemptOutcome) :
    list RingingTarget :=
  map (λ kv,
    (RingingTargetEntry.complete kv.2 outcome (rce_call_id r) (rce_caller_id r)
       (rte_source kv.2) kv.1).2)
    (map_iter (rce_targets r)).

Definition all_targets_failed (r : RingingCallEntry) : bool :=
  map_all (λ _ entry, RingingTargetEntry.all_rejected_or_errored entry) (rce_targets r).

Definition involves (r : RingingCallEntry) (client_id : ClientId) : bool :=
  bool_decide (rce_caller_id r = client_id)
  || map_any (λ _ entry, bool_decide (client_id ∈ rte_notified_clients entry)) (rce_targets r).

Definition invited_participants (r : RingingCallEntry) : CallParticipants :=
  map_collect (flat_map
    (λ kv, map (λ client, (client, kv.1)) (set_iter (rte_notified_clients kv.2)))
    (map_iter (rce_targets r))).
End defs.
End RingingCallEntry.

(** ** Active calls *)

Record ActiveCall := mkActiveCall {
  ac_call_id : CallId;
  ac_conference_leader : option ClientId;
  ac_participants : CallParticipants
}.

Record LinkReport := mkLinkReport {
  lr_reporters : gset ClientId;
  lr_refreshed_at : Instant;
  lr_first_reported_at : Instant
}.

Record ActiveCallEntry := mkActiveCallEntry {
  ace_call_id : CallId;
  ace_conference_leader : option ClientId;
  ace_participants : CallParticipants;
  ace_join_order : gmap ClientId N;
  ace_next_join_seq : N;
  ace_link_reports : gmap (ClientId * ClientId) LinkReport;
  ace_accepted_at : Instant;
  ace_guard : CallGuard
}.

(** Field updates. *)
Definition set_participants (a : ActiveCallEntry) (p : CallParticipants) : ActiveCallEntry :=
  mkActiveCallEntry (ace_call_id a) (ace_conference_leader a) p (ace_join_order a)
    (ace_next_join_seq a) (ace_link_reports a) (ace_accepted_at a) (ace_guard a).
Definition set_leader (a : ActiveCallEntry) (l : option ClientId) : ActiveCallEntry :=
  mkActiveCallEntry (ace_call_id a) l (ace_participants a) (ace_join_order a)
    (ace_next_join_seq a) (ace_link_reports a) (ace_accepted_at a) (ace_guard a).
Definition set_joins (a : ActiveCallEntry) (order : gmap ClientId N) (next : N) : ActiveCallEntry :=
  mkActiveCallEntry (ace_call_id a) (ace_conference_leader a) (ace_participants a) order
    next (ace_link_reports a) (ace_accepted_at a) (ace_guard a).
Definition set_link_reports (a : ActiveCallEntry) (l : gmap (ClientId * ClientId) LinkReport) :=
  mkActiveCallEntry (ace_call_id a) (ace_conference_leader a) (ace_participants a)
    (ace_join_order a) (ace_next_join_seq a) l (ace_accepted_at a) (ace_guard a).
Definition set_guard (a : ActiveCallEntry) (g : CallGuard) : ActiveCallEntry :=
  mkActiveCallEntry (ace_call_id a) (ace_conference_leader a) (ace_participants a)
    (ace_join_order a) (ace_next_join_seq a) (ace_link_reports a) (ace_accepted_at a) g.

Module ActiveCall.
Definition participants_without_self (c : ActiveCall) (client_id : ClientId) : CallParticipants :=
  filter (λ kv, kv.1 <> client_id) (ac_participants c).

Definition involves (c : ActiveCall) (client_id : ClientId) : bool :=
  bool_decide (is_Some (ac_participants c !! client_id)).
End ActiveCall.

Definition u64_max : N := 18446744073709551615.

(** 90 seconds. *)
Definition LINK_REPORT_TTL : Duration := 90000000000.

Module ActiveCallEntry.
Definition new (call_id : CallId) (conference_leader : option ClientId)
    (participants : CallParticipants) (now : Instant) : ActiveCallEntry :=
  mkActiveCallEntry call_id conference_leader participants ∅ 0 ∅ now (CallGuard_new now).

(** The counter is a [u64]; it wraps in a release build. *)
Definition record_join (a : ActiveCallEntry) (client_id : ClientId) : ActiveCallEntry :=
  set_joins a (<[client_id := ace_next_join_seq a]> (ace_join_order a))
    ((ace_next_join_seq a + 1) `mod` (u64_max + 1))%N.

Definition forget_participant (a : ActiveCallEntry) (client_id : ClientId) : ActiveCallEntry :=
  let a := set_joins a (delete client_id (ace_join_order a)) (ace_next_join_seq a) in
  set_link_reports a
    (filter (λ kv, kv.1.1 <> client_id /\ kv.1.2 <> client_id) (ace_link_reports a)).

Definition link_key (a b : ClientId) : ClientId * ClientId :=
  if client_leb a b then (a, b) else (b, a).

Definition record_link_report_at (e : ActiveCallEntry) (reporter peer : ClientId)
    (now : Instant) : ActiveCallEntry * bool :=
  let key := link_key reporter peer in
  let report :=
    match ace_link_reports e !! key with
    | Some report => report
    | None => mkLinkReport ∅ now now
    end in
  let report :=
    if (LINK_REPORT_TTL <=? duration_since now (lr_refreshed_at report))%N
    then mkLinkReport ∅ (lr_refreshed_at report) now
    else report in
  let report := mkLinkReport (lr_reporters report) now (lr_first_reported_at report) in
  let report :=
    mkLinkReport ({[reporter]} ∪ lr_reporters report) (lr_refreshed_at report)
      (lr_first_reported_at report) in
  let confirmed := bool_decide (peer ∈ lr_reporters report) in
  (set_link_reports e (<[key := report]> (ace_link_reports e)), confirmed).

Definition record_link_report (e : ActiveCallEntry) (reporter peer : ClientId) (now : Instant) :=
  record_link_report_at e reporter peer now.

Definition join_seq (e : ActiveCallEntry) (id : ClientId) : N :=
  default u64_max (ace_join_order e !! id).

Definition later_joiner (e : ActiveCallEntry) (a b : ClientId) : ClientId :=
  if (join_seq e b <=? join_seq e a)%N then a else b.

Definition participants_without_self (e : ActiveCallEntry) (client_id : ClientId) :
    CallParticipants :=
  filter (λ kv, kv.1 <> client_id) (ace_participants e).

Definition involves (e : ActiveCallEntry) (client_id : ClientId) : bool :=
  bool_decide (is_Some (ace_participants e !! client_id)).

(** [impl From<&ActiveCallEntry> for ActiveCall] *)
Definition to_active_call (e : ActiveCallEntry) : ActiveCall :=
  mkActiveCall (ace_call_id e) (ace_conference_leader e) (ace_participants e).
End ActiveCallEntry.

(** ** Updates *)

Record UpdateParticipants := mkUpdateParticipants {
  up_call_id : CallId;
  up_invited_participants : CallParticipants;
  up_joined_participants : CallParticipants;
  up_conference_leader : option ClientId
}.

Inductive UpdateCallAction :=
| CancelRingingTarget (target : RingingTarget)
| DropParticipant (call_id : CallId) (client_id : ClientId)
| UpdateParticipantsAction (update : UpdateParticipants).

Module UpdateParticipants.
Section defs.
Context {HO : HashOrder}.

Definition all_participants (u : UpdateParticipants) : list (ClientId * CallTarget) :=
  map_iter (up_invited_participants u) ++ map_iter (up_joined_participants u).

Definition all_participants_without_self (u : UpdateParticipants) (client_id : ClientId) :
    list (ClientId * CallTarget) :=
  filter (λ kv, kv.1 <> client_id) (all_participants u).

Definition for_recipient (u : UpdateParticipants) (recipient_id : ClientId) : CallUpdate :=
  let own_target := up_invited_participants u !! recipient_id in
  mkCallUpdate (up_call_id u)
    (list_to_set
      (filter (λ target, Some target <> own_target) (map_values (up_invited_participants u))))
    (up_joined_participants u) (up_conference_leader u).
End defs.
End UpdateParticipants.

(** ** Lemmas *)

Lemma participants_without_self_delete e c :
  ActiveCallEntry.participants_without_self e c = delete c (ace_participants e).
Proof.
  apply map_eq. intros i. unfold ActiveCallEntry.participants_without_self.
  destruct (decide (i = c)) as [->|Hne].
  - rewrite lookup_delete_eq. apply map_lookup_filter_None. right. by intros x _ [].
  - rewrite lookup_delete_ne by done.
    destruct (ace_participants e !! i) as [t|] eqn:E.
    + by apply map_lookup_filter_Some.
    + apply map_lookup_filter_None. by left.
Qed.

Lemma involves_true e c :
  ActiveCallEntry.involves e c = true <-> is_Some (ace_participants e !! c).
Proof. apply bool_decide_eq_true. Qed.

Lemma link_key_comm a b : ActiveCallEntry.link_key a b = ActiveCallEntry.link_key b a.
Proof.
  unfold ActiveCallEntry.link_key.
  destruct (client_leb a b) eqn:E1, (client_leb b a) eqn:E2; try done.
  - by rewrite (client_leb_antisym a b).
  - destruct (client_leb_total a b); congruence.
Qed.

Lemma link_key_cases a b :
  ActiveCallEntry.link_key a b = (a, b) \/ ActiveCallEntry.link_key a b = (b, a).
Proof. unfold ActiveCallEntry.link_key. destruct (client_leb a b); auto. Qed.

Section lemmas.
Context {HO : HashOrder}.

(** A client is listed as invited exactly when some target rings it. *)
Lemma invited_participants_lookup r c t :
  RingingCallEntry.invited_participants r !! c = Some t ->
  exists e, rce_targets r !! t = Some e /\ c ∈ rte_notified_clients e.
Proof.
  intros H%map_collect_lookup%list_elem_of_In%in_flat_map.
  destruct H as ([t' e] & Hin & H). apply list_elem_of_In, elem_of_map_iter in Hin.
  apply in_map_iff in H as (c' & ? & Hc). simplify_eq/=.
  exists e. split; [done|]. by apply list_elem_of_In, elem_of_set_iter in Hc.
Qed.

Lemma invited_participants_is_Some r c :
  is_Some (RingingCallEntry.invited_participants r !! c) <->
  exists t e, rce_targets r !! t = Some e /\ c ∈ rte_notified_clients e.
Proof.
  split; [intros [t H]; exists t; by apply invited_participants_lookup|].
  intros (t & e & Ht & Hc). apply map_collect_is_Some, list_elem_of_fmap.
  exists (c, t). split; [done|]. apply list_elem_of_In, in_flat_map.
  exists (t, e). split; [by apply list_elem_of_In, elem_of_map_iter|].
  apply in_map_iff. exists c. split; [done|]. by apply list_elem_of_In, elem_of_set_iter.
Qed.

Lemma ringing_involves_true r c :
  RingingCallEntry.involves r c = true <->
  rce_caller_id r = c \/ exists t e, rce_targets r !! t = Some e /\ c ∈ rte_notified_clients e.
Proof.
  unfold RingingCallEntry.involves.
  rewrite orb_true_iff, bool_decide_eq_true, map_any_true. by setoid_rewrite bool_decide_eq_true.
Qed.

Lemma elem_of_complete_all_targets r outcome rt :
  rt ∈ RingingCallEntry.complete_all_targets r outcome <->
  exists t e, rce_targets r !! t = Some e /\
    rt = mkRingingTarget (rce_call_id r) (rce_caller_id r) (rte_source e) t
           (rte_notified_clients e).
Proof.
  unfold RingingCallEntry.complete_all_targets. rewrite list_elem_of_In, in_map_iff. split.
  - intros ([t e] & <- & Hin). apply list_elem_of_In, elem_of_map_iter in Hin. eauto.
  - intros (t & e & Ht & ->). exists (t, e). split; [done|].
    by apply list_elem_of_In, elem_of_map_iter.
Qed.
End lemmas.
