(* ===== verification/CallManager.v ===== *)
(** CallManager: the operations of the call manager,
    [vacs-server/src/state/calls/manager.rs].

    The four tables, each behind its own lock in the source, are the fields of
    one record; an operation is a function of the record that answers its
    result and the new record. An operation that reads the clock takes the time
    as an argument. *)
From stdpp Require Import prelude gmap strings list.
From Stdlib Require Import NArith.
From S2P Require Import Prelude Protocol Calls.

Inductive StartCallError := CallerBusy | AlreadyParticipant | NotConferenceLeader | NotParticipant.

Inductive DropTargetOutcome :=
| DT_CallNotFound
| NotPermitted
| Obsolete (update : UpdateParticipants)
| RingingTargetCancelled (target : RingingTarget) (update : UpdateParticipants)
| ParticipantDropped (client : ClientId) (update : UpdateParticipants).

Inductive CallTerminationOutcome :=
| CallNotFound
| ClientNotNotified
| Continued
| TargetFailed (targets : list RingingTarget) (update : UpdateParticipants)
| ChangedActions (actions : list UpdateCallAction).

Inductive LinkReportOutcome :=
| InvalidReport
| Recorded
| Evicted (evicted unreachable : ClientId) (actions : list UpdateCallAction).

Inductive AcceptCallOutcome :=
| AcceptedCall (target : RingingTarget) (update : UpdateParticipants)
| AcceptorBusy
| AcceptNotFound.

Record CallManager := mkCallManager {
  ringing_calls : gmap CallId RingingCallEntry;
  active_calls : gmap CallId ActiveCallEntry;
  client_incoming_calls : gmap ClientId (gmap CallId CallTarget);
  client_active_calls : gmap ClientId CallId;
  max_conf_size : N
}.

Definition set_ringing (cm : CallManager) (m : gmap CallId RingingCallEntry) : CallManager :=
  mkCallManager m (active_calls cm) (client_incoming_calls cm) (client_active_calls cm)
    (max_conf_size cm).
Definition set_active (cm : CallManager) (m : gmap CallId ActiveCallEntry) : CallManager :=
  mkCallManager (ringing_calls cm) m (client_incoming_calls cm) (client_active_calls cm)
    (max_conf_size cm).
Definition set_incoming (cm : CallManager) (m : gmap ClientId (gmap CallId CallTarget)) :=
  mkCallManager (ringing_calls cm) (active_calls cm) m (client_active_calls cm)
    (max_conf_size cm).
Definition set_markers (cm : CallManager) (m : gmap ClientId CallId) : CallManager :=
  mkCallManager (ringing_calls cm) (active_calls cm) (client_incoming_calls cm) m
    (max_conf_size cm).

(** [if let Some(calls) = incoming.get_mut(c) { calls.remove(id); if calls.is_empty() { .. } }],
    the block that every removal from the incoming table repeats. *)
Definition incoming_remove (call_id : CallId) (m : gmap ClientId (gmap CallId CallTarget))
    (client_id : ClientId) : gmap ClientId (gmap CallId CallTarget) :=
  match m !! client_id with
  | Some calls =>
    let calls := delete call_id calls in
    if bool_decide (calls = ∅) then delete client_id m else <[client_id := calls]> m
  | None => m
  end.

(** [incoming.entry(c).or_default().insert(id, target)] *)
Definition incoming_insert (call_id : CallId) (target : CallTarget)
    (m : gmap ClientId (gmap CallId CallTarget)) (client_id : ClientId) :=
  <[client_id := <[call_id := target]> (default ∅ (m !! client_id))]> m.

(** [if markers.get(c).is_some_and(|id| id == call) { markers.remove(c); }] *)
Definition marker_release (call_id : CallId) (m : gmap ClientId CallId) (client_id : ClientId) :=
  if bool_decide (m !! client_id = Some call_id) then delete client_id m else m.

Module CallManager.
Section defs.
Context {HO : HashOrder}.

Definition new (max_conf_size : N) : CallManager := mkCallManager ∅ ∅ ∅ ∅ max_conf_size.

Definition has_active_call (cm : CallManager) (call_id : CallId) (client_id : ClientId) : bool :=
  match active_calls cm !! call_id with
  | Some active => ActiveCallEntry.involves active client_id
  | None => false
  end.

Definition active_call (cm : CallManager) (call_id : CallId) : option ActiveCall :=
  ActiveCallEntry.to_active_call <$> active_calls cm !! call_id.

Definition call_duration (cm : CallManager) (call_id : CallId) (now : Instant) :
    option Duration :=
  (λ active, duration_since now (ace_accepted_at active)) <$> active_calls cm !! call_id.

Definition invite_exceeds_max_conf_size (cm : CallManager) (call_id : CallId)
    (caller_id : ClientId) (targets : gset CallTarget) : bool :=
  let ringing := ringing_calls cm !! call_id in
  let ringing_len := match ringing with Some call => size (rce_targets call) | None => 0 end in
  let active := active_calls cm !! call_id in
  let joined_len := match active with Some call => size (ace_participants call) | None => 0 end in
  let caller_joined :=
    match active with
    | Some call => bool_decide (is_Some (ace_participants call !! caller_id))
    | None => false
    end in
  let new_targets :=
    length (filter (λ target,
      negb (match ringing with
            | Some call => bool_decide (is_Some (rce_targets call !! target))
            | None => false end)
      && negb (match active with
               | Some call => map_any (λ _ joined, bool_decide (joined = target))
                                (ace_participants call)
               | None => false end))
      (set_iter targets)) in
  N.to_nat (max_conf_size cm) <?
    joined_len + ringing_len + new_targets + (if caller_joined then 0 else 1).

Definition active_call_snapshot (cm : CallManager) (call_id : CallId) :
    CallParticipants * option ClientId :=
  match active_calls cm !! call_id with
  | Some active_call => (ace_participants active_call, ace_conference_leader active_call)
  | None => (∅, None)
  end.

(** *** Starting a call *)

(** The block of [validate_call_attempt] that looks at the active call. *)
Definition validate_joined (active : option ActiveCallEntry) (caller_id : ClientId)
    (target : CallTarget) (notified_clients : gset ClientId) : Result () StartCallError :=
  let foreign_leader :=
    match active with
    | Some active_call =>
      match ace_conference_leader active_call with
      | Some conference_leader => negb (bool_decide (conference_leader = caller_id))
      | None => false
      end
    | None => false
    end in
  if foreign_leader then Err NotConferenceLeader else
  let participating :=
    match active with
    | Some active_call =>
      map_any (λ participant_id participating_target,
        bool_decide (participating_target = target)
        || existsb (λ callee, bool_decide (participant_id = callee))
             (set_iter notified_clients))
        (ace_participants active_call)
    | None => false
    end in
  if participating then Err AlreadyParticipant else
  let active_targets : gset CallTarget :=
    match active with
    | Some active_call_entry => list_to_set (map_values (ace_participants active_call_entry))
    | None => ∅
    end in
  if bool_decide (target ∈ active_targets) then Err AlreadyParticipant else Ok ().

(** The block that looks at the ringing call. *)
Definition validate_rung (ringing : option RingingCallEntry) (caller_id : ClientId)
    (target : CallTarget) (notified_clients : gset ClientId) : Result () StartCallError :=
  match ringing with
  | Some ringing_call =>
    if negb (bool_decide (rce_caller_id ringing_call = caller_id)) then Err NotConferenceLeader
    else if bool_decide (is_Some (rce_targets ringing_call !! target))
    then Err AlreadyParticipant
    else
      match map_find_map (λ _ ringing_target,
              list_find_map (λ callee,
                if bool_decide (callee ∈ rte_notified_clients ringing_target)
                then Some callee else None)
                (set_iter notified_clients))
              (rce_targets ringing_call) with
      | Some _ => Err AlreadyParticipant
      | None => Ok ()
      end
  | None => Ok ()
  end.

Definition validate_call_attempt (cm : CallManager) (call_id : CallId) (caller_id : ClientId)
    (target : CallTarget) (notified_clients : gset ClientId) : Result () StartCallError :=
  match client_active_calls cm !! caller_id with
  | Some participating_call_id =>
    if negb (bool_decide (participating_call_id = call_id)) then Err CallerBusy else
    match validate_joined (active_calls cm !! call_id) caller_id target notified_clients with
    | Err e => Err e
    | Ok _ => validate_rung (ringing_calls cm !! call_id) caller_id target notified_clients
    end
  | None =>
    if bool_decide (is_Some (active_calls cm !! call_id)) then Err NotParticipant
    else if bool_decide (is_Some (ringing_calls cm !! call_id)) then Err NotParticipant
    else Ok ()
  end.

Definition attempt_call (cm : CallManager) (call_id : CallId) (caller_id : ClientId)
    (source : CallSource) (target : CallTarget) (notified_clients : gset ClientId)
    (now : Instant) :
    Result (CallParticipants * CallParticipants) StartCallError * CallManager :=
  match validate_call_attempt cm call_id caller_id target notified_clients with
  | Err e => (Err e, cm)
  | Ok _ =>
    let (ringing_calls', ringing_participants) :=
      match ringing_calls cm !! call_id with
      | Some ringing_call_entry =>
        let ringing_call_entry :=
          RingingCallEntry.add_target ringing_call_entry source target notified_clients now in
        (<[call_id := ringing_call_entry]> (ringing_calls cm),
         RingingCallEntry.invited_participants ringing_call_entry)
      | None =>
        (<[call_id := RingingCallEntry.new call_id caller_id source target notified_clients now]>
           (ringing_calls cm),
         map_collect (map (λ client, (client, target)) (set_iter notified_clients)))
      end in
    let cm := set_ringing cm ringing_calls' in
    let cm := set_markers cm (<[caller_id := call_id]> (client_active_calls cm)) in
    let cm := set_incoming cm
      (foldl (incoming_insert call_id target) (client_incoming_calls cm)
         (set_iter notified_clients)) in
    let joined_participants :=
      match active_calls cm !! call_id with
      | Some active_call => ace_participants active_call
      | None => ∅
      end in
    (Ok (ringing_participants, joined_participants), cm)
  end.

(** *** Rejecting and failing *)

Definition remove_client_incoming_call (cm : CallManager) (call_id : CallId)
    (client_id : ClientId) : CallManager :=
  set_incoming cm (incoming_remove call_id (client_incoming_calls cm) client_id).

Definition cleanup_client_incoming_calls (cm : CallManager) (ringing_call : RingingCallEntry) :
    CallManager :=
  set_incoming cm
    (foldl (incoming_remove (rce_call_id ringing_call)) (client_incoming_calls cm)
       (flat_map (λ e, set_iter (rte_notified_clients e)) (map_values (rce_targets ringing_call)))).

(** No active call involves the client: the test that guards the removal of
    the busy marker of a caller whose ringing entry ended. *)
Definition in_no_active_call (cm : CallManager) (client_id : ClientId) : bool :=
  negb (map_any (λ _ entry, ActiveCallEntry.involves entry client_id) (active_calls cm)).

(** The closure of the [retain] over the targets. *)
Definition mark_retain (call_id : CallId) (caller_id client_id : ClientId)
    (mark_fn : RingingTargetEntry -> ClientId -> RingingTargetEntry)
    (outcome : CallAttemptOutcome) (target : CallTarget)
    (ringing_target_entry : RingingTargetEntry) (acc : bool * list RingingTarget) :
    option RingingTargetEntry * (bool * list RingingTarget) :=
  if negb (RingingTargetEntry.has_notified_client ringing_target_entry client_id)
     || RingingTargetEntry.has_failed_client ringing_target_entry client_id
  then (Some ringing_target_entry, acc)
  else
    let ringing_target_entry := mark_fn ringing_target_entry client_id in
    if RingingTargetEntry.all_rejected_or_errored ringing_target_entry then
      (None,
       (true, acc.2 ++
         [(RingingTargetEntry.complete ringing_target_entry outcome call_id caller_id
             (rte_source ringing_target_entry) target).2]))
    else (Some ringing_target_entry, (true, acc.2)).

Definition mark_client_within_ringing_calls (cm : CallManager) (call_id : CallId)
    (client_id : ClientId) (mark_fn : RingingTargetEntry -> ClientId -> RingingTargetEntry)
    (outcome : CallAttemptOutcome) : CallTerminationOutcome * CallManager :=
  let cm := remove_client_incoming_call cm call_id client_id in
  match ringing_calls cm !! call_id with
  | Some ringing_call_entry =>
    if bool_decide (rce_caller_id ringing_call_entry = client_id)
    then (ClientNotNotified, cm) else
    let '(targets, (marked_once, terminated_targets)) :=
      map_retain (mark_retain call_id (rce_caller_id ringing_call_entry) client_id mark_fn outcome)
        (rce_targets ringing_call_entry) (false, []) in
    let ringing_call_entry := set_targets ringing_call_entry targets in
    let cm := set_ringing cm (<[call_id := ringing_call_entry]> (ringing_calls cm)) in
    if negb marked_once then (ClientNotNotified, cm) else
    let invited_participants := RingingCallEntry.invited_participants ringing_call_entry in
    let cm :=
      if bool_decide (rce_targets ringing_call_entry = ∅) then
        let caller_id := rce_caller_id ringing_call_entry in
        let cm := set_ringing cm (delete call_id (ringing_calls cm)) in
        if in_no_active_call cm caller_id
        then set_markers cm (delete caller_id (client_active_calls cm)) else cm
      else cm in
    match terminated_targets with
    | [] => (Continued, cm)
    | _ :: _ =>
      let (joined_participants, conference_leader) := active_call_snapshot cm call_id in
      (TargetFailed terminated_targets
         (mkUpdateParticipants call_id invited_participants joined_participants
            conference_leader), cm)
    end
  | None => (CallNotFound, cm)
  end.

Definition reject_call (cm : CallManager) (call_id : CallId) (rejecting_client_id : ClientId) :=
  mark_client_within_ringing_calls cm call_id rejecting_client_id
    RingingTargetEntry.mark_rejected Rejected.

Definition fail_ringing_recipient (cm : CallManager) (call_id : CallId) (client_id : ClientId)
    (reason : CallErrorReason) :=
  mark_client_within_ringing_calls cm call_id client_id
    RingingTargetEntry.mark_errored (OutcomeError reason).

(** *** Ending *)

Definition cancel_pending_invitations (cm : CallManager) (call_id : CallId)
    (outcome : CallAttemptOutcome) : list UpdateCallAction * CallManager :=
  match ringing_calls cm !! call_id with
  | None => ([], cm)
  | Some ringing =>
    let cm := set_ringing cm (delete call_id (ringing_calls cm)) in
    let cm := cleanup_client_incoming_calls cm ringing in
    (map CancelRingingTarget (RingingCallEntry.complete_all_targets ringing outcome), cm)
  end.

(** The first half of [end_call]: the invitations the leaving client itself
    opened. *)
Definition end_call_ringing (cm : CallManager) (call_id : CallId) (ending_client_id : ClientId) :
    option (list UpdateCallAction) * CallManager :=
  match ringing_calls cm !! call_id with
  | Some ringing =>
    if bool_decide (rce_caller_id ringing = ending_client_id) then
      let cm := set_ringing cm (delete call_id (ringing_calls cm)) in
      let cm := cleanup_client_incoming_calls cm ringing in
      let cm := set_markers cm (delete ending_client_id (client_active_calls cm)) in
      (Some (map CancelRingingTarget
               (RingingCallEntry.complete_all_targets ringing Cancelled)), cm)
    else (None, cm)
  | None => (None, cm)
  end.

(** The second half of [end_call]: the active call the client participates in. *)
Definition end_call_active (cm : CallManager) (call_id : CallId) (ending_client_id : ClientId) :
    option (list UpdateCallAction) * CallManager :=
  match active_calls cm !! call_id with
  | Some active_call =>
    if negb (ActiveCallEntry.involves active_call ending_client_id) then (None, cm) else
    let participants_without_self :=
      ActiveCallEntry.participants_without_self active_call ending_client_id in
    if bool_decide (participants_without_self = ∅) then
      let cm := set_active cm (delete call_id (active_calls cm)) in
      let (actions, cm) := cancel_pending_invitations cm call_id Cancelled in
      let cm := set_markers cm
        (marker_release call_id (client_active_calls cm) ending_client_id) in
      (Some actions, cm)
    else if bool_decide (ace_conference_leader active_call = Some ending_client_id)
         || (size participants_without_self <=? 1) then
      let cm := set_active cm (delete call_id (active_calls cm)) in
      let cm := set_markers cm
        (foldl (marker_release call_id) (client_active_calls cm)
           (map_keys participants_without_self)) in
      let cm := set_markers cm
        (marker_release call_id (client_active_calls cm) ending_client_id) in
      let actions :=
        map (DropParticipant call_id) (map_keys participants_without_self) in
      let (cancelled, cm) := cancel_pending_invitations cm call_id Cancelled in
      (Some (actions ++ cancelled), cm)
    else
      let active_call :=
        set_participants active_call (delete ending_client_id (ace_participants active_call)) in
      let active_call := ActiveCallEntry.forget_participant active_call ending_client_id in
      let active_call :=
        if size (ace_participants active_call) <=? 2 then set_leader active_call None
        else active_call in
      let cm := set_active cm (<[call_id := active_call]> (active_calls cm)) in
      let cm := set_markers cm
        (marker_release call_id (client_active_calls cm) ending_client_id) in
      let invited_participants :=
        match ringing_calls cm !! call_id with
        | Some ringing_call => RingingCallEntry.invited_participants ringing_call
        | None => ∅
        end in
      (Some [UpdateParticipantsAction
               (mkUpdateParticipants call_id invited_participants (ace_participants active_call)
                  (ace_conference_leader active_call))], cm)
  | None => (None, cm)
  end.

Definition end_call (cm : CallManager) (call_id : CallId) (ending_client_id : ClientId) :
    option (list UpdateCallAction) * CallManager :=
  let (ringing_actions, cm) := end_call_ringing cm call_id ending_client_id in
  let (active_actions, cm) := end_call_active cm call_id ending_client_id in
  (match active_actions, ringing_actions with
   | Some active, Some ringing => Some (active ++ ringing)
   | Some active, None => Some active
   | None, ringing => ringing
   end, cm).

Definition call_error (cm : CallManager) (call_id : CallId) (erroring_client_id : ClientId) :
    CallTerminationOutcome * CallManager :=
  let (outcome, cm) :=
    mark_client_within_ringing_calls cm call_id erroring_client_id
      RingingTargetEntry.mark_errored (OutcomeError CallFailure) in
  match outcome with
  | Continued | TargetFailed _ _ => (outcome, cm)
  | _ =>
    match end_call cm call_id erroring_client_id with
    | (None, cm) => (CallNotFound, cm)
    | (Some actions, cm) => (ChangedActions actions, cm)
    end
  end.

(** *** Accepting *)

Definition accept_retain (call_id : CallId) (caller_id accepting_client_id : ClientId)
    (target : CallTarget) (entry : RingingTargetEntry) (ringing_target : option RingingTarget) :
    option RingingTargetEntry * option RingingTarget :=
  if RingingTargetEntry.has_notified_client entry accepting_client_id then
    let new_ringing_target :=
      (RingingTargetEntry.complete entry Accepted call_id caller_id (rte_source entry) target).2 in
    let new_ringing_target :=
      match ringing_target with
      | Some old =>
        mkRingingTarget (rt_call_id new_ringing_target) (rt_caller_id new_ringing_target)
          (rt_source new_ringing_target)
          (match call_target_cmp (rt_target new_ringing_target) (rt_target old) with
           | Gt => rt_target old
           | _ => rt_target new_ringing_target
           end)
          (rt_notified_clients new_ringing_target ∪ rt_notified_clients old)
      | None => new_ringing_target
      end in
    (None, Some new_ringing_target)
  else (Some entry, ringing_target).

(** Joining an active call, or turning the ringing call into one. *)
Definition accept_active (cm : CallManager) (call_id : CallId) (accepting_client_id : ClientId)
    (ringing_target : RingingTarget) (now : Instant) :
    CallParticipants * option ClientId * CallManager :=
  match active_calls cm !! call_id with
  | Some active_call =>
    let active_call := set_participants active_call
      (<[accepting_client_id := rt_target ringing_target]> (ace_participants active_call)) in
    let active_call := ActiveCallEntry.record_join active_call accepting_client_id in
    let active_call := set_guard active_call
      (record_participants (ace_guard active_call) (size (ace_participants active_call))) in
    let active_call :=
      match ace_conference_leader active_call with
      | None => set_leader active_call (Some (source_client_id (rt_source ringing_target)))
      | Some _ => active_call
      end in
    let cm := set_active cm (<[call_id := active_call]> (active_calls cm)) in
    let cm := set_markers cm (<[accepting_client_id := call_id]> (client_active_calls cm)) in
    (ace_participants active_call, ace_conference_leader active_call, cm)
  | None =>
    let participants : CallParticipants :=
      <[rt_caller_id ringing_target := call_target_of_source (rt_source ringing_target)]>
        {[accepting_client_id := rt_target ringing_target]} in
    let active := ActiveCallEntry.new call_id None participants now in
    let active := ActiveCallEntry.record_join active (rt_caller_id ringing_target) in
    let active := ActiveCallEntry.record_join active accepting_client_id in
    let cm := set_active cm (<[call_id := active]> (active_calls cm)) in
    let cm := set_markers cm (<[accepting_client_id := call_id]> (client_active_calls cm)) in
    (participants, None, cm)
  end.

Definition accept_call (cm : CallManager) (call_id : CallId) (accepting_client_id : ClientId)
    (now : Instant) : AcceptCallOutcome * CallManager :=
  if bool_decide (is_Some (client_active_calls cm !! accepting_client_id))
  then (AcceptorBusy, cm) else
  match ringing_calls cm !! call_id with
  | None => (AcceptNotFound, cm)
  | Some ringing_call =>
    let (targets, ringing_target) :=
      map_retain (accept_retain call_id (rce_caller_id ringing_call) accepting_client_id)
        (rce_targets ringing_call) None in
    let ringing_call := set_targets ringing_call targets in
    let invited_participants := RingingCallEntry.invited_participants ringing_call in
    let cm := set_ringing cm
      (if bool_decide (targets = ∅) then delete call_id (ringing_calls cm)
       else <[call_id := ringing_call]> (ringing_calls cm)) in
    match ringing_target with
    | None => (AcceptNotFound, cm)
    | Some ringing_target =>
      let cm := set_incoming cm
        (foldl (incoming_remove call_id) (client_incoming_calls cm)
           (set_iter (rt_notified_clients ringing_target))) in
      let '(joined_participants, conference_leader, cm) :=
        accept_active cm call_id accepting_client_id ringing_target now in
      (AcceptedCall ringing_target
         (mkUpdateParticipants call_id invited_participants joined_participants
            conference_leader), cm)
    end
  end.

(** *** Dropping a target *)

Definition drop_ringing_target (cm : CallManager) (call_id : CallId)
    (dropping_client_id : ClientId) (target : CallTarget) (reason : CallDropReason) :
    option DropTargetOutcome * CallManager :=
  match ringing_calls cm !! call_id with
  | None => (None, cm)
  | Some ringing_call =>
    match rce_targets ringing_call !! target with
    | None => (None, cm)
    | Some ringing_target_entry =>
      if negb (bool_decide
           (source_client_id (rte_source ringing_target_entry) = dropping_client_id))
      then (Some NotPermitted, cm) else
      let caller_id := rce_caller_id ringing_call in
      let ringing_call := set_targets ringing_call (delete target (rce_targets ringing_call)) in
      let source := rte_source ringing_target_entry in
      let ringing_target :=
        (RingingTargetEntry.complete ringing_target_entry (outcome_of_drop_reason reason)
           call_id caller_id source target).2 in
      let invited_participants := RingingCallEntry.invited_participants ringing_call in
      let ringing_ended := bool_decide (rce_targets ringing_call = ∅) in
      let cm := set_ringing cm
        (if ringing_ended then delete call_id (ringing_calls cm)
         else <[call_id := ringing_call]> (ringing_calls cm)) in
      let cm := foldl (λ cm callee_id, remove_client_incoming_call cm call_id callee_id) cm
        (set_iter (rt_notified_clients ringing_target)) in
      let (joined_participants, conference_leader) := active_call_snapshot cm call_id in
      let cm :=
        if ringing_ended && negb (bool_decide (is_Some (joined_participants !! caller_id)))
        then set_markers cm (marker_release call_id (client_active_calls cm) caller_id)
        else cm in
      (Some (RingingTargetCancelled ringing_target
               (mkUpdateParticipants call_id invited_participants joined_participants
                  conference_leader)), cm)
    end
  end.

(** The participant a drop request designates: the first one, in iteration
    order, that joined as the target. *)
Definition find_participant (active_call : ActiveCallEntry) (target : CallTarget) :
    option ClientId :=
  map_find_map (λ client_id participating_target,
    if bool_decide (participating_target = target) then Some client_id else None)
    (ace_participants active_call).

Definition drop_joined_participant (cm : CallManager) (call_id : CallId)
    (dropping_client_id : ClientId) (target : CallTarget) (reason : CallDropReason) :
    DropTargetOutcome * CallManager :=
  let finish (dropped_client_id : option ClientId) (cm : CallManager) :=
    let invited_participants :=
      match ringing_calls cm !! call_id with
      | Some ringing_call => RingingCallEntry.invited_participants ringing_call
      | None => ∅
      end in
    let (joined_participants, conference_leader) := active_call_snapshot cm call_id in
    let update :=
      mkUpdateParticipants call_id invited_participants joined_participants conference_leader in
    match dropped_client_id with
    | None =>
      if bool_decide (up_invited_participants update = ∅)
         && bool_decide (up_joined_participants update = ∅)
      then (DT_CallNotFound, cm) else (Obsolete update, cm)
    | Some dropped_client_id =>
      (ParticipantDropped dropped_client_id update,
       set_markers cm (marker_release call_id (client_active_calls cm) dropped_client_id))
    end in
  match active_calls cm !! call_id with
  | None => finish None cm
  | Some active_call =>
    if negb (ActiveCallEntry.involves active_call dropping_client_id) then (NotPermitted, cm) else
    match find_participant active_call target with
    | None => finish None cm
    | Some dropped_client_id =>
      if bool_decide (reason = AutoHangup) then finish None cm
      else if bool_decide (dropped_client_id = dropping_client_id) then (NotPermitted, cm)
      else if size (ace_participants active_call) <=? 2 then (NotPermitted, cm)
      else if negb (bool_decide (ace_conference_leader active_call = Some dropping_client_id))
      then (NotPermitted, cm)
      else
        let active_call := set_participants active_call
          (delete dropped_client_id (ace_participants active_call)) in
        let active_call := ActiveCallEntry.forget_participant active_call dropped_client_id in
        let active_call :=
          if size (ace_participants active_call) <=? 2 then set_leader active_call None
          else active_call in
        finish (Some dropped_client_id)
          (set_active cm (<[call_id := active_call]> (active_calls cm)))
    end
  end.

Definition drop_target (cm : CallManager) (call_id : CallId) (dropping_client_id : ClientId)
    (target : CallTarget) (reason : CallDropReason) : DropTargetOutcome * CallManager :=
  match drop_ringing_target cm call_id dropping_client_id target reason with
  | (Some outcome, cm) => (outcome, cm)
  | (None, cm) => drop_joined_participant cm call_id dropping_client_id target reason
  end.

(** *** Disconnects *)

(** The outgoing invitations of a disconnecting client. *)
Definition cleanup_outgoing (cm : CallManager) (call_id : CallId) (client_id : ClientId) :
    list UpdateCallAction * CallManager :=
  match ringing_calls cm !! call_id with
  | Some ringing_call =>
    if bool_decide (rce_caller_id ringing_call = client_id) then
      let cm := set_ringing cm (delete call_id (ringing_calls cm)) in
      let cm := set_incoming cm
        (foldl (incoming_remove call_id) (client_incoming_calls cm)
           (flat_map (λ e, set_iter (rte_notified_clients e))
              (map_values (rce_targets ringing_call)))) in
      (map CancelRingingTarget (RingingCallEntry.complete_all_targets ringing_call Aborted), cm)
    else ([], cm)
  | None => ([], cm)
  end.

(** The active call of a disconnecting client. *)
Definition cleanup_active (cm : CallManager) (call_id : CallId) (client_id : ClientId) :
    list UpdateCallAction * CallManager :=
  match active_calls cm !! call_id with
  | Some active_call =>
    if negb (bool_decide (is_Some (ace_participants active_call !! client_id))) then ([], cm) else
    let participants_without_self :=
      ActiveCallEntry.participants_without_self active_call client_id in
    if bool_decide (participants_without_self = ∅) then
      let cm := set_active cm (delete call_id (active_calls cm)) in
      cancel_pending_invitations cm call_id Aborted
    else if bool_decide (ace_conference_leader active_call = Some client_id)
         || (size participants_without_self <=? 1) then
      let cm := set_active cm (delete call_id (active_calls cm)) in
      let cm := set_markers cm
        (foldl (marker_release call_id) (client_active_calls cm)
           (map_keys participants_without_self)) in
      let (cancelled, cm) := cancel_pending_invitations cm call_id Aborted in
      (map (DropParticipant call_id) (map_keys participants_without_self) ++ cancelled, cm)
    else
      let active_call :=
        set_participants active_call (delete client_id (ace_participants active_call)) in
      let active_call := ActiveCallEntry.forget_participant active_call client_id in
      let active_call :=
        if size (ace_participants active_call) <=? 2 then set_leader active_call None
        else active_call in
      let cm := set_active cm (<[call_id := active_call]> (active_calls cm)) in
      let invited_participants :=
        match ringing_calls cm !! call_id with
        | Some ringing_call => RingingCallEntry.invited_participants ringing_call
        | None => ∅
        end in
      ([UpdateParticipantsAction
          (mkUpdateParticipants call_id invited_participants (ace_participants active_call)
             (ace_conference_leader active_call))], cm)
  | None => ([], cm)
  end.

Definition cleanup_own_call (cm : CallManager) (client_id : ClientId) :
    list UpdateCallAction * CallManager :=
  let active_or_outgoing_call_id := client_active_calls cm !! client_id in
  let cm := set_markers cm (delete client_id (client_active_calls cm)) in
  match active_or_outgoing_call_id with
  | Some call_id =>
    let (cancelled, cm) := cleanup_outgoing cm call_id client_id in
    let (left, cm) := cleanup_active cm call_id client_id in
    (cancelled ++ left, cm)
  | None => ([], cm)
  end.

(** The disconnecting client is taken out of the target that rings at it. *)
Definition forget_incoming_target (cm : CallManager) (client_id : ClientId) (call_id : CallId)
    (call_target : CallTarget) (ringing_call : RingingCallEntry) :
    list UpdateCallAction * RingingCallEntry :=
  match rce_targets ringing_call !! call_target with
  | None => ([], ringing_call)
  | Some ringing_target =>
    let ringing_target := mkRingingTargetEntry (rte_source ringing_target)
      (rte_notified_clients ringing_target ∖ {[client_id]})
      (rte_rejected_clients ringing_target ∖ {[client_id]})
      (rte_errored_clients ringing_target ∖ {[client_id]}) (rte_guard ringing_target) in
    if RingingTargetEntry.all_rejected_or_errored ringing_target then
      let cancelled :=
        (RingingTargetEntry.complete ringing_target Aborted (rce_call_id ringing_call)
           (rce_caller_id ringing_call) (rte_source ringing_target) call_target).2 in
      let ringing_call :=
        set_targets ringing_call (delete call_target (rce_targets ringing_call)) in
      let (joined_participants, conference_leader) := active_call_snapshot cm call_id in
      ([CancelRingingTarget cancelled;
        UpdateParticipantsAction
          (mkUpdateParticipants call_id (RingingCallEntry.invited_participants ringing_call)
             joined_participants conference_leader)], ringing_call)
    else
      ([], set_targets ringing_call (<[call_target := ringing_target]> (rce_targets ringing_call)))
  end.

(** One incoming call of a disconnecting client: the body of the loop over
    its row of the incoming table. *)
Definition cleanup_incoming_call (client_id : ClientId)
    (acc : list UpdateCallAction * CallManager) (incoming : CallId * CallTarget) :
    list UpdateCallAction * CallManager :=
  let '(actions, cm) := acc in
  let '(call_id, call_target) := incoming in
  match ringing_calls cm !! call_id with
  | None => (actions, cm)
  | Some ringing_call =>
    let (new_actions, ringing_call) :=
      forget_incoming_target cm client_id call_id call_target ringing_call in
    let actions := actions ++ new_actions in
    if RingingCallEntry.all_targets_failed ringing_call then
      let cm :=
        if in_no_active_call cm (rce_caller_id ringing_call)
        then set_markers cm (delete (rce_caller_id ringing_call) (client_active_calls cm))
        else cm in
      (actions, set_ringing cm (delete call_id (ringing_calls cm)))
    else (actions, set_ringing cm (<[call_id := ringing_call]> (ringing_calls cm)))
  end.

Definition cleanup_incoming (cm : CallManager) (client_id : ClientId) :
    list UpdateCallAction * CallManager :=
  let incoming_call_ids := client_incoming_calls cm !! client_id in
  let cm := set_incoming cm (delete client_id (client_incoming_calls cm)) in
  match incoming_call_ids with
  | Some incoming_call_ids =>
    foldl (cleanup_incoming_call client_id) ([], cm) (map_iter incoming_call_ids)
  | None => ([], cm)
  end.

(** [cleanup_client_calls] up to the messages it sends: the actions that the
    caller has to announce, in order. *)
Definition cleanup_client_calls (cm : CallManager) (client_id : ClientId) :
    list UpdateCallAction * CallManager :=
  let (own, cm) := cleanup_own_call cm client_id in
  let (incoming, cm) := cleanup_incoming cm client_id in
  (own ++ incoming, cm).

(** *** Dead links *)

(** The part under the lock of the active table: record the report and, when
    it is the second one, choose the participant to evict and the peer it
    could not reach. *)
Definition record_link_failure (cm : CallManager) (call_id : CallId)
    (reporter_id peer_id : ClientId) (now : Instant) :
    (LinkReportOutcome + ClientId * ClientId) * CallManager :=
  if bool_decide (reporter_id = peer_id) then (inl InvalidReport, cm) else
  match active_calls cm !! call_id with
  | None => (inl InvalidReport, cm)
  | Some active_call =>
    if negb (bool_decide (is_Some (ace_participants active_call !! reporter_id)))
       || negb (bool_decide (is_Some (ace_participants active_call !! peer_id)))
    then (inl InvalidReport, cm) else
    let (active_call, confirmed) :=
      ActiveCallEntry.record_link_report active_call reporter_id peer_id now in
    let cm := set_active cm (<[call_id := active_call]> (active_calls cm)) in
    if negb confirmed then (inl Recorded, cm) else
    let evicted := ActiveCallEntry.later_joiner active_call reporter_id peer_id in
    let unreachable := if bool_decide (evicted = reporter_id) then peer_id else reporter_id in
    (inr (evicted, unreachable), cm)
  end.

Definition report_link_failure (cm : CallManager) (call_id : CallId)
    (reporter_id peer_id : ClientId) (now : Instant) : LinkReportOutcome * CallManager :=
  match record_link_failure cm call_id reporter_id peer_id now with
  | (inl outcome, cm) => (outcome, cm)
  | (inr (evicted, unreachable), cm) =>
    match end_call cm call_id evicted with
    | (Some actions, cm) => (Evicted evicted unreachable actions, cm)
    | (None, cm) => (Recorded, cm)
    end
  end.

(** *** Reading the state of a call *)

Definition call_state_if (cm : CallManager) (call_id : CallId)
    (involved : option RingingCallEntry -> CallParticipants -> CallParticipants -> bool) :
    option UpdateParticipants :=
  let ringing := ringing_calls cm !! call_id in
  let invited_participants :=
    match ringing with
    | Some call => RingingCallEntry.invited_participants call
    | None => ∅
    end in
  let (joined_participants, conference_leader) := active_call_snapshot cm call_id in
  if involved ringing invited_participants joined_participants
  then Some (mkUpdateParticipants call_id invited_participants joined_participants
               conference_leader)
  else None.

Definition call_state_update (cm : CallManager) (call_id : CallId) (client_id : ClientId) :
    option UpdateParticipants :=
  call_state_if cm call_id (λ ringing _ joined,
    match ringing with
    | Some call =>
      bool_decide (rce_caller_id call = client_id)
      || map_any (λ _ target, bool_decide (source_client_id (rte_source target) = client_id))
           (rce_targets call)
    | None => false
    end || bool_decide (is_Some (joined !! client_id))).

Definition call_state_for_party (cm : CallManager) (call_id : CallId) (client_id : ClientId) :
    option UpdateParticipants :=
  call_state_if cm call_id (λ ringing invited joined,
    match ringing with
    | Some call => bool_decide (rce_caller_id call = client_id)
    | None => false
    end
    || bool_decide (is_Some (invited !! client_id))
    || bool_decide (is_Some (joined !! client_id))).

Definition is_party (cm : CallManager) (call_id : CallId) (client_id : ClientId) : bool :=
  match ringing_calls cm !! call_id with
  | Some call => RingingCallEntry.involves call client_id
  | None => false
  end
  || match active_calls cm !! call_id with
     | Some call => bool_decide (is_Some (ace_participants call !! client_id))
     | None => false
     end.
End defs.
End CallManager.
