(* ===== verification/CallTables.v ===== *)
(** CallTables: the well-formedness of the call manager's four tables and the
    lemmas about single table updates that every operation shares.

    The two tables of entries, [ringing_calls] and [active_calls], determine
    the two index tables: a client has the busy marker of a call exactly when it
    is its caller or one of its participants, and an incoming row for a call
    exactly when some ringing target of the call notifies it. *)
From stdpp Require Import prelude gmap strings list.
From Stdlib Require Import NArith.
From S2P Require Import Prelude Protocol Calls CallManager.

(** ** Predicates *)

(** [t] rings at client [c] within a (possible) ringing entry. *)
Definition rings (r : option RingingCallEntry) (t : CallTarget) (c : ClientId) : Prop :=
  exists r' e, r = Some r' /\ rce_targets r' !! t = Some e /\ c ∈ rte_notified_clients e.

(** The clients that a call occupies: its participants and the caller of its
    ringing entry. *)
Definition occupies (r : option RingingCallEntry) (a : option ActiveCallEntry) (c : ClientId) :
    Prop :=
  (exists a', a = Some a' /\ is_Some (ace_participants a' !! c)) \/
  (exists r', r = Some r' /\ rce_caller_id r' = c).

Record target_ok (caller : ClientId) (e : RingingTargetEntry) : Prop := {
  to_notified : rte_notified_clients e <> ∅;
  to_source : source_client_id (rte_source e) = caller;
  to_caller : caller ∉ rte_notified_clients e;
  to_failed : rte_notified_clients e ## rte_rejected_clients e ∪ rte_errored_clients e
}.

Record ringing_ok (id : CallId) (r : RingingCallEntry) : Prop := {
  ro_id : rce_call_id r = id;
  ro_nonempty : rce_targets r <> ∅;
  ro_targets : forall t e, rce_targets r !! t = Some e -> target_ok (rce_caller_id r) e;
  ro_disjoint : forall t1 t2 c, rings (Some r) t1 c -> rings (Some r) t2 c -> t1 = t2
}.

Record active_ok (id : CallId) (a : ActiveCallEntry) : Prop := {
  ao_id : ace_call_id a = id;
  ao_size : 2 <= size (ace_participants a);
  ao_leader :
    match ace_conference_leader a with
    | Some l => is_Some (ace_participants a !! l) /\ 3 <= size (ace_participants a)
    | None => size (ace_participants a) = 2
    end;
  ao_joins : forall c, is_Some (ace_join_order a !! c) <-> is_Some (ace_participants a !! c);
  ao_links : forall x y rep, ace_link_reports a !! (x, y) = Some rep ->
    is_Some (ace_participants a !! x) /\ is_Some (ace_participants a !! y) /\
    forall z, z ∈ lr_reporters rep -> z = x \/ z = y
}.

(** The two entries of one call. *)
Record call_ok (id : CallId) (r : option RingingCallEntry) (a : option ActiveCallEntry) : Prop := {
  co_ringing : forall r', r = Some r' -> ringing_ok id r';
  co_active : forall a', a = Some a' -> active_ok id a';
  co_caller : forall r' a', r = Some r' -> a = Some a' ->
    is_Some (ace_participants a' !! rce_caller_id r');
  co_leader : forall r' a' l, r = Some r' -> a = Some a' ->
    ace_conference_leader a' = Some l -> l = rce_caller_id r';
  co_fresh : forall r' a' t c, r = Some r' -> a = Some a' ->
    rings (Some r') t c -> ace_participants a' !! c = None
}.

Definition incoming_lookup (m : gmap ClientId (gmap CallId CallTarget)) (c : ClientId)
    (id : CallId) : option CallTarget := m !! c ≫= (λ row, row !! id).

Definition rows_ok (m : gmap ClientId (gmap CallId CallTarget)) : Prop :=
  forall c row, m !! c = Some row -> row <> ∅.

Record cm_wf (cm : CallManager) : Prop := {
  wf_calls : forall id, call_ok id (ringing_calls cm !! id) (active_calls cm !! id);
  wf_markers : forall c id, (client_active_calls cm !! c = Some id) <->
    occupies (ringing_calls cm !! id) (active_calls cm !! id) c;
  wf_incoming : forall c id t, (incoming_lookup (client_incoming_calls cm) c id = Some t) <->
    rings (ringing_calls cm !! id) t c;
  wf_rows : rows_ok (client_incoming_calls cm)
}.

(** ** The incoming table *)

Lemma incoming_lookup_insert id t m c c' id' :
  incoming_lookup (incoming_insert id t m c) c' id' =
    if decide (c' = c /\ id' = id) then Some t else incoming_lookup m c' id'.
Proof.
  unfold incoming_lookup, incoming_insert.
  destruct (decide (c' = c)) as [->|Hc].
  - rewrite lookup_insert_eq. simpl. destruct (decide (id' = id)) as [->|Hid].
    + rewrite lookup_insert_eq. by rewrite decide_True.
    + rewrite lookup_insert_ne by done. rewrite decide_False by naive_solver.
      by destruct (m !! c).
  - rewrite lookup_insert_ne by done. by rewrite decide_False by naive_solver.
Qed.

Lemma rows_ok_insert id t m c : rows_ok m -> rows_ok (incoming_insert id t m c).
Proof.
  intros H c' row. unfold incoming_insert. destruct (decide (c' = c)) as [->|Hc].
  - rewrite lookup_insert_eq. intros [= <-]. apply insert_non_empty.
  - rewrite lookup_insert_ne by done. apply H.
Qed.

Lemma incoming_lookup_remove id m c c' id' :
  incoming_lookup (incoming_remove id m c) c' id' =
    if decide (c' = c /\ id' = id) then None else incoming_lookup m c' id'.
Proof.
  unfold incoming_lookup, incoming_remove.
  destruct (m !! c) as [row|] eqn:E.
  - case_bool_decide as Hrow.
    + destruct (decide (c' = c)) as [->|Hc].
      * rewrite lookup_delete_eq, E. simpl.
        destruct (decide (id' = id)) as [->|Hid]; [by rewrite decide_True|].
        rewrite decide_False by naive_solver.
        rewrite <- (lookup_delete_ne row id id') by done. by rewrite Hrow.
      * rewrite lookup_delete_ne by done. by rewrite decide_False by naive_solver.
    + destruct (decide (c' = c)) as [->|Hc].
      * rewrite lookup_insert_eq, E. simpl.
        destruct (decide (id' = id)) as [->|Hid].
        -- rewrite lookup_delete_eq. by rewrite decide_True.
        -- rewrite lookup_delete_ne by done. by rewrite decide_False by naive_solver.
      * rewrite lookup_insert_ne by done. by rewrite decide_False by naive_solver.
  - case_decide as H; [|done]. destruct H as [-> ->]. by rewrite E.
Qed.

Lemma rows_ok_remove id m c : rows_ok m -> rows_ok (incoming_remove id m c).
Proof.
  intros H c' row. unfold incoming_remove. destruct (m !! c) as [row'|] eqn:E; [|apply H].
  case_bool_decide as Hrow.
  - intros [_ H']%lookup_delete_Some. by apply (H c').
  - destruct (decide (c' = c)) as [->|Hc].
    + rewrite lookup_insert_eq. by intros [= <-].
    + rewrite lookup_insert_ne by done. apply H.
Qed.

Lemma incoming_lookup_insert_all id t m (l : list ClientId) c' id' :
  incoming_lookup (foldl (incoming_insert id t) m l) c' id' =
    if decide (c' ∈ l /\ id' = id) then Some t else incoming_lookup m c' id'.
Proof.
  revert m. induction l as [|c l IH]; intros m; cbn [foldl].
  - rewrite decide_False; [done|]. intros [H _]. by apply not_elem_of_nil in H.
  - rewrite IH, incoming_lookup_insert.
    repeat case_decide; try done; exfalso; set_solver.
Qed.

Lemma incoming_lookup_remove_all id m (l : list ClientId) c' id' :
  incoming_lookup (foldl (incoming_remove id) m l) c' id' =
    if decide (c' ∈ l /\ id' = id) then None else incoming_lookup m c' id'.
Proof.
  revert m. induction l as [|c l IH]; intros m; cbn [foldl].
  - rewrite decide_False; [done|]. intros [H _]. by apply not_elem_of_nil in H.
  - rewrite IH, incoming_lookup_remove.
    repeat case_decide; try done; exfalso; set_solver.
Qed.

Lemma rows_ok_insert_all id t m (l : list ClientId) :
  rows_ok m -> rows_ok (foldl (incoming_insert id t) m l).
Proof. revert m. induction l; intros m H; simpl; auto using rows_ok_insert. Qed.

Lemma rows_ok_remove_all id m (l : list ClientId) :
  rows_ok m -> rows_ok (foldl (incoming_remove id) m l).
Proof. revert m. induction l; intros m H; simpl; auto using rows_ok_remove. Qed.

(** ** The busy markers *)

Lemma marker_release_lookup id m c c' :
  marker_release id m c !! c' =
    if decide (c' = c /\ m !! c' = Some id) then None else m !! c'.
Proof.
  unfold marker_release. case_bool_decide as H.
  - destruct (decide (c' = c)) as [->|Hc].
    + rewrite lookup_delete_eq. by rewrite decide_True.
    + rewrite lookup_delete_ne by done. by rewrite decide_False by naive_solver.
  - by rewrite decide_False by naive_solver.
Qed.

Lemma marker_release_all_lookup id m (l : list ClientId) c' :
  foldl (marker_release id) m l !! c' =
    if decide (c' ∈ l /\ m !! c' = Some id) then None else m !! c'.
Proof.
  revert m. induction l as [|c l IH]; intros m; cbn [foldl].
  - rewrite decide_False; [done|]. intros [H _]. by apply not_elem_of_nil in H.
  - rewrite IH, marker_release_lookup.
    repeat case_decide; try done; exfalso; set_solver.
Qed.

(** ** Simple consequences *)

Lemma rings_Some r t c :
  rings (Some r) t c <-> exists e, rce_targets r !! t = Some e /\ c ∈ rte_notified_clients e.
Proof. unfold rings. naive_solver. Qed.

Lemma rings_None t c : ~ rings None t c.
Proof. intros (? & ? & ? & _). done. Qed.

Lemma occupies_participant r a c :
  is_Some (ace_participants a !! c) -> occupies r (Some a) c.
Proof. intros H. left. eauto. Qed.

Lemma occupies_caller r a : occupies (Some r) a (rce_caller_id r).
Proof. right. eauto. Qed.

#[export] Hint Resolve occupies_participant occupies_caller : vacs.

Section wf.
Context (cm : CallManager) (Hwf : cm_wf cm).

(** A client is occupied by at most one call. *)
Lemma wf_one_call c id id' :
  occupies (ringing_calls cm !! id) (active_calls cm !! id) c ->
  occupies (ringing_calls cm !! id') (active_calls cm !! id') c -> id = id'.
Proof. rewrite <- !(wf_markers _ Hwf). congruence. Qed.

Lemma wf_caller_marker id r :
  ringing_calls cm !! id = Some r -> client_active_calls cm !! rce_caller_id r = Some id.
Proof. intros E. apply (wf_markers _ Hwf). rewrite E. apply occupies_caller. Qed.

Lemma wf_participant_marker id a c :
  active_calls cm !! id = Some a -> is_Some (ace_participants a !! c) ->
  client_active_calls cm !! c = Some id.
Proof. intros E H. apply (wf_markers _ Hwf). rewrite E. by apply occupies_participant. Qed.

Lemma wf_unmarked id c :
  client_active_calls cm !! c = None ->
  ~ occupies (ringing_calls cm !! id) (active_calls cm !! id) c.
Proof. intros H Ho. apply (wf_markers _ Hwf) in Ho. congruence. Qed.

(** For the caller of a ringing entry, having no active call at all and not
    having this one are the same. *)
Lemma wf_in_no_active_call {HO : HashOrder} id r :
  ringing_calls cm !! id = Some r ->
  CallManager.in_no_active_call cm (rce_caller_id r) = bool_decide (active_calls cm !! id = None).
Proof.
  intros Hr. unfold CallManager.in_no_active_call. apply eq_true_iff_eq.
  rewrite negb_true_iff, map_any_false, bool_decide_eq_true. split.
  - intros H. destruct (active_calls cm !! id) as [a|] eqn:Ha; [|done]. exfalso.
    assert (ActiveCallEntry.involves a (rce_caller_id r) = true) as Hi.
    { apply involves_true. by apply (co_caller _ _ _ (wf_calls _ Hwf id)). }
    rewrite (H id a) in Hi; done.
  - intros Ha id' a' Ha'. destruct (ActiveCallEntry.involves a' (rce_caller_id r)) eqn:Hi; [|done].
    exfalso. apply involves_true in Hi.
    assert (id = id') as <-; [|congruence].
    apply (wf_one_call (rce_caller_id r)); [rewrite Hr|rewrite Ha']; auto with vacs.
Qed.

Lemma wf_ringing_ok id r : ringing_calls cm !! id = Some r -> ringing_ok id r.
Proof. apply (co_ringing _ _ _ (wf_calls _ Hwf id)). Qed.

Lemma wf_active_ok id a : active_calls cm !! id = Some a -> active_ok id a.
Proof. apply (co_active _ _ _ (wf_calls _ Hwf id)). Qed.
End wf.

Lemma cm_wf_new n : cm_wf (CallManager.new n).
Proof.
  split; simpl.
  - intros id. rewrite !lookup_empty. split; done.
  - intros c id. rewrite !lookup_empty. split; [done|]. intros [(?&?&?)|(?&?&?)]; done.
  - intros c id t. unfold incoming_lookup. rewrite !lookup_empty. split; [done|].
    by intros ?%rings_None.
  - intros c row. by rewrite lookup_empty.
Qed.

(** An operation that touches one call keeps the tables well formed when the
    new entries of that call are, the index tables are right for it, and they
    are unchanged for every other call. *)
Lemma cm_wf_update cm cm' id :
  cm_wf cm ->
  (forall id', id' <> id -> ringing_calls cm' !! id' = ringing_calls cm !! id') ->
  (forall id', id' <> id -> active_calls cm' !! id' = active_calls cm !! id') ->
  call_ok id (ringing_calls cm' !! id) (active_calls cm' !! id) ->
  (forall c, (client_active_calls cm' !! c = Some id) <->
     occupies (ringing_calls cm' !! id) (active_calls cm' !! id) c) ->
  (forall c id', id' <> id ->
     (client_active_calls cm' !! c = Some id') <-> (client_active_calls cm !! c = Some id')) ->
  (forall c t, (incoming_lookup (client_incoming_calls cm') c id = Some t) <->
     rings (ringing_calls cm' !! id) t c) ->
  (forall c id', id' <> id -> incoming_lookup (client_incoming_calls cm') c id' =
     incoming_lookup (client_incoming_calls cm) c id') ->
  rows_ok (client_incoming_calls cm') ->
  cm_wf cm'.
Proof.
  intros Hwf HR HA Hok HM HM' HI HI' Hrows. split; [| | |done].
  - intros id'. destruct (decide (id' = id)) as [->|Hne]; [done|].
    rewrite HR, HA by done. apply (wf_calls _ Hwf).
  - intros c id'. destruct (decide (id' = id)) as [->|Hne]; [done|].
    rewrite HM', HR, HA by done. apply (wf_markers _ Hwf).
  - intros c id' t. destruct (decide (id' = id)) as [->|Hne]; [done|].
    rewrite HI', HR by done. apply (wf_incoming _ Hwf).
Qed.
