(* ===== verification/CallInvariant.v ===== *)
(** CallInvariant: every operation of the call manager keeps its tables well
    formed ([cm_wf] of CallTables), so the tables of every reachable state are. *)
From stdpp Require Import prelude gmap strings list.
From Stdlib Require Import NArith.
From S2P Require Import Prelude Protocol Calls CallManager CallTables.

(** [targets'] results from [targets] by dropping targets and by taking
    clients away from those that stay. *)
Record shrinks_to (targets targets' : gmap CallTarget RingingTargetEntry) : Prop := {
  sh_kept : forall t e', targets' !! t = Some e' -> exists e, targets !! t = Some e /\
    rte_source e' = rte_source e /\ rte_notified_clients e' ⊆ rte_notified_clients e;
  sh_notified : forall t e', targets' !! t = Some e' -> rte_notified_clients e' <> ∅;
  sh_failed : forall t e', targets' !! t = Some e' ->
    rte_notified_clients e' ## rte_rejected_clients e' ∪ rte_errored_clients e'
}.

(** The state after a ringing entry shrank: the entry disappears with its last
    target, and the caller is released unless the call is active. *)
Definition after_shrink (cm : CallManager) (id : CallId) (r : RingingCallEntry)
    (targets' : gmap CallTarget RingingTargetEntry)
    (incoming' : gmap ClientId (gmap CallId CallTarget)) : CallManager :=
  mkCallManager
    (if bool_decide (targets' = ∅) then delete id (ringing_calls cm)
     else <[id := set_targets r targets']> (ringing_calls cm))
    (active_calls cm) incoming'
    (if bool_decide (targets' = ∅) && bool_decide (active_calls cm !! id = None)
     then delete (rce_caller_id r) (client_active_calls cm) else client_active_calls cm)
    (max_conf_size cm).

(** What both marking functions do to an entry that rings at the client. *)
Definition marks (mark_fn : RingingTargetEntry -> ClientId -> RingingTargetEntry) : Prop :=
  forall e c, c ∈ rte_notified_clients e ->
    rte_notified_clients (mark_fn e c) = rte_notified_clients e ∖ {[c]} /\
    rte_source (mark_fn e c) = rte_source e /\
    rte_rejected_clients (mark_fn e c) ∪ rte_errored_clients (mark_fn e c) ⊆
      {[c]} ∪ (rte_rejected_clients e ∪ rte_errored_clients e).

(** The targets of a ringing entry once the client was marked in the target
    that rings at it. *)
Definition mark_target (targets : gmap CallTarget RingingTargetEntry) (t : CallTarget)
    (e' : RingingTargetEntry) : gmap CallTarget RingingTargetEntry :=
  if RingingTargetEntry.all_rejected_or_errored e' then delete t targets else <[t := e']> targets.

(** What ending, dropping and cleaning up amount to: the whole call disappears
    from the four tables, or one participant does. *)
Definition close_call (cm : CallManager) (id : CallId) : CallManager :=
  mkCallManager (delete id (ringing_calls cm)) (delete id (active_calls cm))
    (omap (λ row : gmap CallId CallTarget,
       if bool_decide (delete id row = ∅) then None else Some (delete id row))
       (client_incoming_calls cm))
    (filter (λ kv, kv.2 <> id) (client_active_calls cm)) (max_conf_size cm).

Definition leave_entry (a : ActiveCallEntry) (c : ClientId) : ActiveCallEntry :=
  let a := ActiveCallEntry.forget_participant
    (set_participants a (delete c (ace_participants a))) c in
  if size (ace_participants a) <=? 2 then set_leader a None else a.

Definition leave_call (cm : CallManager) (id : CallId) (a : ActiveCallEntry) (c : ClientId) :
    CallManager :=
  set_markers (set_active cm (<[id := leave_entry a c]> (active_calls cm)))
    (delete c (client_active_calls cm)).

(** Whether the call ends when participant [c] leaves it. *)
Definition closes (a : ActiveCallEntry) (c : ClientId) : bool :=
  bool_decide (ace_conference_leader a = Some c) || (size (ace_participants a) <=? 2).

Section end_defs.
Context {HO : HashOrder}.

(** Everybody the ringing entry rings at. *)
Definition rung_clients (r : RingingCallEntry) : list ClientId :=
  flat_map (λ e, set_iter (rte_notified_clients e)) (map_values (rce_targets r)).

(** The state once the pending invitations of the call are cancelled. *)
Definition cancelled (cm : CallManager) (id : CallId) : CallManager :=
  match ringing_calls cm !! id with
  | Some r =>
    set_incoming (set_ringing cm (delete id (ringing_calls cm)))
      (foldl (incoming_remove id) (client_incoming_calls cm) (rung_clients r))
  | None => cm
  end.

(** The invitations of a call that its end cancels. *)
Definition cancellations (cm : CallManager) (id : CallId) (outcome : CallAttemptOutcome) :
    list UpdateCallAction :=
  match ringing_calls cm !! id with
  | Some r => map CancelRingingTarget (RingingCallEntry.complete_all_targets r outcome)
  | None => []
  end.

Definition invited (cm : CallManager) (id : CallId) : CallParticipants :=
  match ringing_calls cm !! id with
  | Some r => RingingCallEntry.invited_participants r
  | None => ∅
  end.
End end_defs.

(** ** Shrinking a ringing entry *)

Lemma shrink_rings r targets' t c :
  shrinks_to (rce_targets r) targets' ->
  rings (Some (set_targets r targets')) t c -> rings (Some r) t c.
Proof.
  intros Hs. rewrite !rings_Some. cbn. intros (e' & Ht & Hc).
  destruct (sh_kept _ _ Hs t e' Ht) as (e & He & _ & Hsub). exists e. set_solver.
Qed.

Lemma shrink_ringing_ok id r targets' :
  ringing_ok id r -> shrinks_to (rce_targets r) targets' -> targets' <> ∅ ->
  ringing_ok id (set_targets r targets').
Proof.
  intros Hok Hs Hne. split; cbn; [apply Hok|done| |].
  - intros t e' Ht. destruct (sh_kept _ _ Hs t e' Ht) as (e & He & Hsrc & Hsub).
    pose proof (ro_targets _ _ Hok t e He) as Hte. split.
    + by eapply sh_notified.
    + rewrite Hsrc. apply Hte.
    + pose proof (to_caller _ _ Hte). set_solver.
    + by eapply sh_failed.
  - intros t1 t2 c H1%shrink_rings H2%shrink_rings; [|done..]. by eapply (ro_disjoint _ _ Hok).
Qed.

Lemma shrink_call_ok id r a targets' :
  call_ok id (Some r) a -> shrinks_to (rce_targets r) targets' ->
  call_ok id (if bool_decide (targets' = ∅) then None else Some (set_targets r targets')) a.
Proof.
  intros Hok Hs. case_bool_decide as He.
  - split; try done. apply (co_active _ _ _ Hok).
  - split.
    + intros ? [= <-]. apply shrink_ringing_ok; [|done..]. by apply (co_ringing _ _ _ Hok).
    + apply (co_active _ _ _ Hok).
    + intros ? a' [= <-] Ha. by apply (co_caller _ _ _ Hok r a').
    + intros ? a' l [= <-] Ha. by apply (co_leader _ _ _ Hok r a').
    + intros ? a' t c [= <-] Ha Hr%shrink_rings; [|done]. by eapply (co_fresh _ _ _ Hok r a').
Qed.

Lemma after_shrink_ringing cm id r targets' incoming' :
  ringing_calls (after_shrink cm id r targets' incoming') !! id =
    if bool_decide (targets' = ∅) then None else Some (set_targets r targets').
Proof. cbn. case_bool_decide; [apply lookup_delete_eq|apply lookup_insert_eq]. Qed.

Lemma wf_shrink cm id r targets' incoming' :
  cm_wf cm -> ringing_calls cm !! id = Some r -> shrinks_to (rce_targets r) targets' ->
  (forall c t, (incoming_lookup incoming' c id = Some t) <->
     rings (Some (set_targets r targets')) t c) ->
  (forall c id', id' <> id -> incoming_lookup incoming' c id' =
     incoming_lookup (client_incoming_calls cm) c id') ->
  rows_ok incoming' ->
  cm_wf (after_shrink cm id r targets' incoming').
Proof.
  intros Hwf Hr Hs Hin Hin' Hrows.
  pose proof (wf_calls _ Hwf id) as Hok. rewrite Hr in Hok.
  apply (cm_wf_update cm _ id); [done| | | | | | | |].
  - intros id' Hne. cbn. case_bool_decide; [by apply lookup_delete_ne|by apply lookup_insert_ne].
  - done.
  - rewrite after_shrink_ringing. by apply shrink_call_ok.
  - intros c. rewrite after_shrink_ringing. cbn.
    pose proof (wf_markers _ Hwf c id) as Hm. rewrite Hr in Hm.
    destruct (active_calls cm !! id) as [a|] eqn:Ha; cbn.
    + rewrite andb_false_r, Hm.
      case_bool_decide.
      * split; [|by intros [?|(?&?&?)]; [left|]].
        intros [|(r' & [= <-] & <-)]; [by left|]. left. exists a. split; [done|].
        by apply (co_caller _ _ _ Hok).
      * split; (intros [|(r' & [= <-] & <-)]; [by left|right; eauto]).
    + rewrite andb_true_r.
      case_bool_decide.
      * split; [|by intros [(?&?&?)|(?&?&?)]].
        intros [Hne Hc]%lookup_delete_Some. apply Hm in Hc as [(?&?&?)|(r' & [= <-] & ?)]; done.
      * rewrite Hm. split; (intros [(?&?&?)|(r' & [= <-] & <-)]; [done|right; eauto]).
  - intros c id' Hne. cbn. destruct (_ && _); [|done].
    rewrite lookup_delete_Some. split; [naive_solver|]. intros Hc. split; [|done].
    intros <-. pose proof (wf_caller_marker _ Hwf _ _ Hr). congruence.
  - intros c t. rewrite after_shrink_ringing. cbn. rewrite Hin.
    case_bool_decide as He; [|done]. subst. split; [|by intros ?%rings_None].
    rewrite rings_Some. cbn. intros (e & He & _). by rewrite lookup_empty in He.
  - done.
  - done.
Qed.

(** ** Rejecting and failing *)

Lemma mark_rejected_marks : marks RingingTargetEntry.mark_rejected.
Proof.
  intros e c Hc. unfold RingingTargetEntry.mark_rejected. rewrite bool_decide_eq_true_2 by done.
  cbn. repeat split. set_solver.
Qed.

Lemma mark_errored_marks : marks RingingTargetEntry.mark_errored.
Proof.
  intros e c Hc. unfold RingingTargetEntry.mark_errored. rewrite bool_decide_eq_true_2 by done.
  cbn. repeat split. set_solver.
Qed.

#[export] Hint Resolve mark_rejected_marks mark_errored_marks : vacs.

Section mark.
Context {HO : HashOrder}.
Context (mark_fn : RingingTargetEntry -> ClientId -> RingingTargetEntry).
Context (Hmark : marks mark_fn).

Lemma set_targets_id r : set_targets r (rce_targets r) = r.
Proof. by destruct r. Qed.

Context (call_id : CallId) (c : ClientId) (outcome : CallAttemptOutcome).

(** What is kept does not depend on the captured variables. *)
Lemma mark_retain_kept caller t e acc acc' :
  (CallManager.mark_retain call_id caller c mark_fn outcome t e acc).1 =
  (CallManager.mark_retain call_id caller c mark_fn outcome t e acc').1.
Proof. unfold CallManager.mark_retain. by repeat case_match. Qed.

(** No target rings at the client: [retain] keeps everything. *)
Lemma mark_retain_idle caller targets :
  (forall t e, targets !! t = Some e -> c ∉ rte_notified_clients e) ->
  map_retain (CallManager.mark_retain call_id caller c mark_fn outcome) targets (false, []) =
    (targets, (false, [])).
Proof.
  intros Hno. set (f := CallManager.mark_retain _ _ _ _ _).
  assert (forall t e a, targets !! t = Some e -> f t e a = (Some e, a)) as Hf.
  { intros t e a He. subst f. unfold CallManager.mark_retain.
    unfold RingingTargetEntry.has_notified_client.
    by rewrite bool_decide_eq_false_2 by (by eapply Hno). }
  rewrite (surjective_pairing (map_retain f targets (false, []))). f_equal.
  - apply map_eq. intros t.
    rewrite (map_retain_lookup f (λ t e, (f t e (false, [])).1)).
    + destruct (targets !! t) as [e|] eqn:He; [|done]. cbn. by rewrite Hf.
    + intros t' e a. apply mark_retain_kept.
  - rewrite (map_retain_acc f (λ t e a, (f t e a).2)) by done.
    apply foldl_map_iter_inert. intros t e a He. cbn. by rewrite Hf.
Qed.

(** Exactly one target, [t], rings at the client. *)
Lemma mark_retain_single caller targets t e :
  targets !! t = Some e -> c ∈ rte_notified_clients e ->
  c ∉ rte_rejected_clients e ∪ rte_errored_clients e ->
  (forall t' e', targets !! t' = Some e' -> c ∈ rte_notified_clients e' -> t' = t) ->
  map_retain (CallManager.mark_retain call_id caller c mark_fn outcome) targets (false, []) =
    (mark_target targets t (mark_fn e c),
     (true,
      if RingingTargetEntry.all_rejected_or_errored (mark_fn e c)
      then [mkRingingTarget call_id caller (rte_source e) t ∅] else [])).
Proof.
  intros He Hc Hnf Huniq. set (f := CallManager.mark_retain _ _ _ _ _).
  destruct (Hmark e c Hc) as (Hn & Hsrc & _).
  assert (forall t' e' a, targets !! t' = Some e' -> t' <> t -> f t' e' a = (Some e', a)) as Hf.
  { intros t' e' a He' Hne. subst f. unfold CallManager.mark_retain.
    unfold RingingTargetEntry.has_notified_client.
    rewrite bool_decide_eq_false_2; [done|]. intros Hc'. by apply Hne, (Huniq _ e'). }
  assert (forall a, f t e a =
    if RingingTargetEntry.all_rejected_or_errored (mark_fn e c)
    then (None, (true, a.2 ++ [mkRingingTarget call_id caller (rte_source e) t ∅]))
    else (Some (mark_fn e c), (true, a.2))) as Hft.
  { intros a. subst f. unfold CallManager.mark_retain.
    unfold RingingTargetEntry.has_notified_client, RingingTargetEntry.has_failed_client.
    rewrite (bool_decide_eq_true_2 (c ∈ rte_notified_clients e)) by done.
    rewrite (bool_decide_eq_false_2 (c ∈ rte_rejected_clients e)) by set_solver.
    rewrite (bool_decide_eq_false_2 (c ∈ rte_errored_clients e)) by set_solver. cbn.
    unfold RingingTargetEntry.all_rejected_or_errored.
    case_bool_decide as Hempty; [|done]. by rewrite Hempty, Hsrc. }
  rewrite (surjective_pairing (map_retain f targets (false, []))). f_equal.
  - apply map_eq. intros t'.
    rewrite (map_retain_lookup f (λ t e, (f t e (false, [])).1)).
    + unfold mark_target. destruct (decide (t' = t)) as [->|Hne].
      * rewrite He. cbn. rewrite Hft.
        destruct (RingingTargetEntry.all_rejected_or_errored _);
          [by rewrite lookup_delete_eq|by rewrite lookup_insert_eq].
      * assert (targets !! t' ≫= (λ e', (f t' e' (false, [])).1) = targets !! t') as ->.
        { destruct (targets !! t') as [e'|] eqn:He'; [|done]. cbn. by rewrite Hf. }
        destruct (RingingTargetEntry.all_rejected_or_errored _);
          [by rewrite lookup_delete_ne|by rewrite lookup_insert_ne].
    + intros t'' e'' a. apply mark_retain_kept.
  - rewrite (map_retain_acc f (λ t e a, (f t e a).2)) by done.
    rewrite (foldl_map_iter_single _ _ _ t e) by
      (try done; intros t' e' a He' Hne; cbn; by rewrite Hf).
    cbn. rewrite Hft. by destruct (RingingTargetEntry.all_rejected_or_errored _).
Qed.
End mark.

(** Dropping an incoming row that is absent does not change what is looked up. *)
Lemma wf_remove_absent cm id c :
  cm_wf cm -> (forall t, ~ rings (ringing_calls cm !! id) t c) ->
  cm_wf (CallManager.remove_client_incoming_call cm id c).
Proof.
  intros Hwf Hno.
  assert (forall c' id', incoming_lookup (incoming_remove id (client_incoming_calls cm) c) c' id' =
    incoming_lookup (client_incoming_calls cm) c' id') as Hsame.
  { intros c' id'. rewrite incoming_lookup_remove. case_decide as H; [|done].
    destruct H as [-> ->]. destruct (incoming_lookup _ c id) as [t|] eqn:E; [|done].
    apply (wf_incoming _ Hwf) in E. by destruct (Hno t). }
  split; cbn.
  - apply Hwf.
  - apply Hwf.
  - intros c' id' t. rewrite Hsame. apply Hwf.
  - apply rows_ok_remove, Hwf.
Qed.

Lemma mark_target_shrinks mark_fn r t e c id :
  marks mark_fn -> ringing_ok id r -> rce_targets r !! t = Some e -> c ∈ rte_notified_clients e ->
  shrinks_to (rce_targets r) (mark_target (rce_targets r) t (mark_fn e c)).
Proof.
  intros Hmark Hok He Hc. destruct (Hmark e c Hc) as (Hn & Hsrc & Hf).
  pose proof (to_failed _ _ (ro_targets _ _ Hok t e He)) as Hfailed.
  assert (forall t' e', mark_target (rce_targets r) t (mark_fn e c) !! t' = Some e' ->
    (t' = t /\ e' = mark_fn e c /\ rte_notified_clients (mark_fn e c) <> ∅) \/
    rce_targets r !! t' = Some e') as Hcases.
  { intros t' e'. unfold mark_target, RingingTargetEntry.all_rejected_or_errored.
    case_bool_decide; [intros [_ ?]%lookup_delete_Some; by right|].
    intros [[<- <-]|[_ ?]]%lookup_insert_Some; [by left|by right]. }
  split; intros t' e' [(-> & -> & Hne)|He']%Hcases; try done.
  - exists e. rewrite Hn. set_solver.
  - by exists e'.
  - by eapply to_notified, (ro_targets _ _ Hok).
  - rewrite Hn. set_solver.
  - by eapply to_failed, (ro_targets _ _ Hok).
Qed.

Lemma mark_target_rings mark_fn r t e c id t' c' :
  marks mark_fn -> ringing_ok id r -> rce_targets r !! t = Some e -> c ∈ rte_notified_clients e ->
  rings (Some (set_targets r (mark_target (rce_targets r) t (mark_fn e c)))) t' c' <->
  rings (Some r) t' c' /\ c' <> c.
Proof.
  intros Hmark Hok He Hc. destruct (Hmark e c Hc) as (Hn & _ & _).
  rewrite !rings_Some. cbn. unfold mark_target, RingingTargetEntry.all_rejected_or_errored.
  destruct (decide (t' = t)) as [->|Ht].
  - rewrite He. case_bool_decide as Hempty.
    + rewrite lookup_delete_eq. set_solver.
    + rewrite lookup_insert_eq. set_solver.
  - assert (forall e', rce_targets r !! t' = Some e' -> c ∉ rte_notified_clients e') as Hother.
    { intros e' He' Hc'. apply Ht. apply (ro_disjoint _ _ Hok t' t c); apply rings_Some; eauto. }
    case_bool_decide; [rewrite lookup_delete_ne by done|rewrite lookup_insert_ne by done];
    naive_solver.
Qed.

Section mark_wf.
Context {HO : HashOrder}.
Context (mark_fn : RingingTargetEntry -> ClientId -> RingingTargetEntry).
Context (Hmark : marks mark_fn).

(** A client that the call does not ring: nothing but its (absent) incoming
    row is touched. *)
Lemma mark_client_idle cm id c outcome :
  (forall t, ~ rings (ringing_calls cm !! id) t c) ->
  CallManager.mark_client_within_ringing_calls cm id c mark_fn outcome =
    (match ringing_calls cm !! id with Some _ => ClientNotNotified | None => CallNotFound end,
     CallManager.remove_client_incoming_call cm id c).
Proof.
  intros Hno. unfold CallManager.mark_client_within_ringing_calls. cbn.
  destruct (ringing_calls cm !! id) as [r|] eqn:Hr; [|done].
  case_bool_decide as Hcaller; [done|].
  rewrite mark_retain_idle.
  - rewrite set_targets_id. cbn. f_equal. unfold CallManager.remove_client_incoming_call, set_ringing.
    cbn. by rewrite insert_id by done.
  - intros t e He Hc. apply (Hno t), rings_Some. eauto.
Qed.

(** A client rung by the target [t]: the target loses it, and disappears when
    it was the last one it rang at. *)
Lemma mark_client_rung cm id r t e c outcome :
  cm_wf cm -> ringing_calls cm !! id = Some r -> rce_targets r !! t = Some e ->
  c ∈ rte_notified_clients e ->
  let targets' := mark_target (rce_targets r) t (mark_fn e c) in
  let cm' := after_shrink cm id r targets' (incoming_remove id (client_incoming_calls cm) c) in
  CallManager.mark_client_within_ringing_calls cm id c mark_fn outcome =
    (if RingingTargetEntry.all_rejected_or_errored (mark_fn e c) then
       let (joined, leader) := CallManager.active_call_snapshot cm id in
       TargetFailed [mkRingingTarget id (rce_caller_id r) (rte_source e) t ∅]
         (mkUpdateParticipants id
            (RingingCallEntry.invited_participants (set_targets r targets')) joined leader)
     else Continued, cm').
Proof.
  intros Hwf Hr He Hc targets' cm'.
  pose proof (wf_ringing_ok _ Hwf _ _ Hr) as Hok.
  pose proof (ro_targets _ _ Hok t e He) as Hte.
  unfold CallManager.mark_client_within_ringing_calls. cbn. rewrite Hr.
  rewrite bool_decide_eq_false_2 by (intros Heq; apply (to_caller _ _ Hte); by rewrite Heq).
  rewrite (mark_retain_single _ Hmark _ _ _ _ _ t e); [|done|done| |].
  2: { pose proof (to_failed _ _ Hte). set_solver. }
  2: { intros t' e' He' Hc'. apply (ro_disjoint _ _ Hok t' t c); apply rings_Some; eauto. }
  fold targets'. cbn [negb].
  match goal with |- context [(Continued, ?x)] => assert (x = cm') as -> end.
  { subst cm'. unfold after_shrink, set_ringing, set_markers. cbn.
    rewrite delete_insert_eq. unfold CallManager.in_no_active_call. cbn.
    pose proof (wf_in_no_active_call _ Hwf _ _ Hr) as Hn. unfold CallManager.in_no_active_call in Hn.
    rewrite Hn. by repeat case_bool_decide. }
  destruct (RingingTargetEntry.all_rejected_or_errored (mark_fn e c)); [|done].
  subst cm'. unfold CallManager.active_call_snapshot. cbn.
  by destruct (active_calls cm !! id).
Qed.

(** The state once the entry that rings at [c] has lost it. *)
Lemma wf_mark_shrink cm id r t e c :
  cm_wf cm -> ringing_calls cm !! id = Some r -> rce_targets r !! t = Some e ->
  c ∈ rte_notified_clients e ->
  cm_wf (after_shrink cm id r (mark_target (rce_targets r) t (mark_fn e c))
           (incoming_remove id (client_incoming_calls cm) c)).
Proof.
  intros Hwf Hr He Hc. pose proof (wf_ringing_ok _ Hwf _ _ Hr) as Hok.
  apply wf_shrink; [done|done| | | |].
  - by eapply mark_target_shrinks.
  - intros c' t'. rewrite (mark_target_rings _ _ _ _ _ id) by done. rewrite <- Hr.
    rewrite <- (wf_incoming _ Hwf), incoming_lookup_remove. case_decide; naive_solver.
  - intros c' id' Hne. rewrite incoming_lookup_remove. by rewrite decide_False by naive_solver.
  - apply rows_ok_remove, Hwf.
Qed.

Lemma mark_client_wf cm id c outcome :
  cm_wf cm ->
  cm_wf (CallManager.mark_client_within_ringing_calls cm id c mark_fn outcome).2.
Proof.
  intros Hwf.
  destruct (incoming_lookup (client_incoming_calls cm) c id) as [t|] eqn:Hin.
  - apply (wf_incoming _ Hwf) in Hin as Hr. destruct Hr as (r & e & Hr & He & Hc).
    rewrite (mark_client_rung cm id r t e c) by done. cbn.
    by apply wf_mark_shrink with (e := e).
  - assert (forall t, ~ rings (ringing_calls cm !! id) t c) as Hno.
    { intros t Ht%(wf_incoming _ Hwf). congruence. }
    rewrite mark_client_idle by done. by apply wf_remove_absent.
Qed.
End mark_wf.

(** ** Dropping a ringing target *)

Lemma submap_shrinks id r targets' :
  ringing_ok id r -> targets' ⊆ rce_targets r -> shrinks_to (rce_targets r) targets'.
Proof.
  intros Hok Hsub.
  split; intros t e' He'; pose proof (lookup_weaken _ _ _ _ He' Hsub) as He.
  - by exists e'.
  - by eapply to_notified, (ro_targets _ _ Hok).
  - by eapply to_failed, (ro_targets _ _ Hok).
Qed.

(** The clients of the ringing entry that ring through one target. *)
Lemma delete_target_rings id r t e t' c :
  ringing_ok id r -> rce_targets r !! t = Some e ->
  rings (Some (set_targets r (delete t (rce_targets r)))) t' c <->
  rings (Some r) t' c /\ c ∉ rte_notified_clients e.
Proof.
  intros Hok He. rewrite !rings_Some. cbn. split.
  - intros (e' & [Hne He']%lookup_delete_Some & Hc). split; [by eauto|]. intros Hc'. apply Hne.
    by apply (ro_disjoint _ _ Hok t t' c); apply rings_Some; eauto.
  - intros [(e' & He' & Hc) Hn]. exists e'. split; [|done]. apply lookup_delete_Some. naive_solver.
Qed.

Section drop_wf.
Context {HO : HashOrder}.

Lemma foldl_remove_incoming id (l : list ClientId) cm :
  foldl (λ cm callee_id, CallManager.remove_client_incoming_call cm id callee_id) cm l =
  set_incoming cm (foldl (incoming_remove id) (client_incoming_calls cm) l).
Proof. revert cm. induction l as [|c l IH]; intros []; [done|]. cbn. by rewrite IH. Qed.

(** The row of the incoming table of a well-formed state, once the clients of
    some targets of the call were removed from it. *)
Lemma incoming_remove_some cm id r t e c t' :
  cm_wf cm -> ringing_calls cm !! id = Some r -> rce_targets r !! t = Some e ->
  (incoming_lookup (foldl (incoming_remove id) (client_incoming_calls cm)
     (set_iter (rte_notified_clients e))) c id = Some t') <->
  rings (Some (set_targets r (delete t (rce_targets r)))) t' c.
Proof.
  intros Hwf Hr He. rewrite (delete_target_rings id _ _ e) by eauto using wf_ringing_ok.
  rewrite incoming_lookup_remove_all, <- Hr, <- (wf_incoming _ Hwf).
  case_decide as Hd; rewrite elem_of_set_iter in Hd; naive_solver.
Qed.

Lemma incoming_remove_other id m (l : list ClientId) c id' :
  id' <> id -> incoming_lookup (foldl (incoming_remove id) m l) c id' = incoming_lookup m c id'.
Proof. intros Hne. rewrite incoming_lookup_remove_all. by rewrite decide_False by naive_solver. Qed.

Lemma drop_ringing_target_state cm id c t reason r e :
  cm_wf cm -> ringing_calls cm !! id = Some r -> rce_targets r !! t = Some e ->
  source_client_id (rte_source e) = c ->
  CallManager.drop_ringing_target cm id c t reason =
    (Some (RingingTargetCancelled
       (mkRingingTarget id (rce_caller_id r) (rte_source e) t (rte_notified_clients e))
       (mkUpdateParticipants id
          (RingingCallEntry.invited_participants (set_targets r (delete t (rce_targets r))))
          (CallManager.active_call_snapshot cm id).1 (CallManager.active_call_snapshot cm id).2)),
     after_shrink cm id r (delete t (rce_targets r))
       (foldl (incoming_remove id) (client_incoming_calls cm)
          (set_iter (rte_notified_clients e)))).
Proof.
  intros Hwf Hr He Hc. unfold CallManager.drop_ringing_target. rewrite Hr, He.
  rewrite bool_decide_eq_true_2 by done. cbn. rewrite foldl_remove_incoming.
  unfold CallManager.active_call_snapshot. cbn.
  pose proof (wf_caller_marker _ Hwf _ _ Hr) as Hm.
  destruct (active_calls cm !! id) as [a|] eqn:Ha; cbn.
  - assert (is_Some (ace_participants a !! rce_caller_id r)) as Hj
      by by apply (co_caller _ _ _ (wf_calls _ Hwf id)).
    rewrite (bool_decide_eq_true_2 (is_Some _)) by done. cbn. rewrite !andb_false_r.
    unfold after_shrink. by rewrite Ha, andb_false_r.
  - rewrite (bool_decide_eq_false_2 (is_Some _)) by (by intros [? ?]). cbn. rewrite !andb_true_r.
    unfold after_shrink, set_markers, set_incoming, set_ringing, marker_release. cbn.
    rewrite Ha. cbn. rewrite (bool_decide_eq_true_2 _ Hm). by case_bool_decide.
Qed.

Lemma drop_ringing_target_wf cm id c t reason :
  cm_wf cm -> cm_wf (CallManager.drop_ringing_target cm id c t reason).2.
Proof.
  intros Hwf.
  destruct (ringing_calls cm !! id) as [r|] eqn:Hr;
    [|by unfold CallManager.drop_ringing_target; rewrite Hr].
  destruct (rce_targets r !! t) as [e|] eqn:He;
    [|by unfold CallManager.drop_ringing_target; rewrite Hr, He].
  destruct (decide (source_client_id (rte_source e) = c)) as [Hc|Hc].
  - rewrite (drop_ringing_target_state _ _ _ _ _ r e) by done. cbn.
    pose proof (wf_ringing_ok _ Hwf _ _ Hr) as Hok.
    apply wf_shrink; [done|done| | | |].
    + eapply submap_shrinks; [done|apply delete_subseteq].
    + intros c' t'. by apply incoming_remove_some.
    + intros c' id' Hne. by apply incoming_remove_other.
    + apply rows_ok_remove_all, Hwf.
  - unfold CallManager.drop_ringing_target. rewrite Hr, He.
    by rewrite bool_decide_eq_false_2 by done.
Qed.
End drop_wf.

(** ** Closing a call, and leaving one *)

Lemma incoming_ext m1 m2 :
  rows_ok m1 -> rows_ok m2 ->
  (forall c id, incoming_lookup m1 c id = incoming_lookup m2 c id) -> m1 = m2.
Proof.
  intros H1 H2 H. apply map_eq. intros c. unfold incoming_lookup in H. specialize (H c).
  destruct (m1 !! c) as [row1|] eqn:E1, (m2 !! c) as [row2|] eqn:E2; cbn in H; [| | |done].
  - f_equal. apply map_eq, H.
  - exfalso. apply (H1 _ _ E1), map_eq. intros i. by rewrite H.
  - exfalso. apply (H2 _ _ E2), map_eq. intros i. by rewrite <- H.
Qed.

Lemma close_incoming_lookup cm id c id' :
  incoming_lookup (client_incoming_calls (close_call cm id)) c id' =
    if decide (id' = id) then None else incoming_lookup (client_incoming_calls cm) c id'.
Proof.
  unfold incoming_lookup, close_call. cbn. rewrite lookup_omap.
  destruct (client_incoming_calls cm !! c) as [row|]; cbn; [|by case_decide].
  case_bool_decide as Hrow; cbn; case_decide as Hid; subst; [done| | |].
  - rewrite <- (lookup_delete_ne row id) by done. by rewrite Hrow.
  - by rewrite lookup_delete_eq.
  - by rewrite lookup_delete_ne.
Qed.

Lemma close_marker_lookup cm id c :
  client_active_calls (close_call cm id) !! c =
    if decide (client_active_calls cm !! c = Some id) then None else client_active_calls cm !! c.
Proof.
  cbn. destruct (client_active_calls cm !! c) as [id'|] eqn:E.
  - case_decide as H.
    + apply map_lookup_filter_None. right. intros id'' ?. cbn. naive_solver.
    + apply map_lookup_filter_Some. naive_solver.
  - rewrite decide_False by done. apply map_lookup_filter_None. by left.
Qed.

Lemma close_rows_ok cm id : rows_ok (client_incoming_calls (close_call cm id)).
Proof.
  intros c row. cbn. rewrite lookup_omap.
  destruct (client_incoming_calls cm !! c) as [row'|]; cbn; [|done]. case_bool_decide; naive_solver.
Qed.

Lemma call_ok_None id : call_ok id None None.
Proof. by split. Qed.

Lemma wf_close cm id : cm_wf cm -> cm_wf (close_call cm id).
Proof.
  intros Hwf. apply (cm_wf_update cm _ id); [done| | | | | | | |].
  - intros id' Hne. by apply lookup_delete_ne.
  - intros id' Hne. by apply lookup_delete_ne.
  - cbn. rewrite !lookup_delete_eq. apply call_ok_None.
  - intros c. rewrite close_marker_lookup. cbn. rewrite !lookup_delete_eq. split.
    + by case_decide.
    + by intros [(?&?&?)|(?&?&?)].
  - intros c id' Hne. rewrite close_marker_lookup. case_decide; naive_solver.
  - intros c t. rewrite close_incoming_lookup, decide_True by done. cbn. rewrite lookup_delete_eq.
    split; [done|]. by intros ?%rings_None.
  - intros c id' Hne. rewrite close_incoming_lookup. by rewrite decide_False.
  - apply close_rows_ok.
Qed.

(** The state after a call ended, recognised by its four tables. *)
Lemma closed_state cm cm' id :
  cm_wf cm ->
  ringing_calls cm' = delete id (ringing_calls cm) ->
  active_calls cm' = delete id (active_calls cm) ->
  max_conf_size cm' = max_conf_size cm ->
  (forall c, client_active_calls cm' !! c =
     if decide (client_active_calls cm !! c = Some id) then None
     else client_active_calls cm !! c) ->
  rows_ok (client_incoming_calls cm') ->
  (forall c id', incoming_lookup (client_incoming_calls cm') c id' =
     if decide (id' = id) then None else incoming_lookup (client_incoming_calls cm) c id') ->
  cm' = close_call cm id.
Proof.
  intros Hwf HR HA Hmax HM Hrows HI. destruct cm' as [R A I M n]. cbn in *. subst R A n.
  unfold close_call. f_equal.
  - apply (incoming_ext _ (client_incoming_calls (close_call cm id)));
      [done|apply close_rows_ok|]. intros c id'. by rewrite HI, close_incoming_lookup.
  - apply map_eq. intros c. by rewrite HM, <- close_marker_lookup.
Qed.

Lemma leave_entry_fields a c :
  ace_call_id (leave_entry a c) = ace_call_id a /\
  ace_participants (leave_entry a c) = delete c (ace_participants a) /\
  ace_join_order (leave_entry a c) = delete c (ace_join_order a) /\
  ace_next_join_seq (leave_entry a c) = ace_next_join_seq a /\
  ace_link_reports (leave_entry a c) =
    filter (λ kv, kv.1.1 <> c /\ kv.1.2 <> c) (ace_link_reports a) /\
  ace_conference_leader (leave_entry a c) =
    if size (delete c (ace_participants a)) <=? 2 then None else ace_conference_leader a.
Proof. unfold leave_entry. cbn. by case_match. Qed.

Lemma size_delete_participant a c :
  is_Some (ace_participants a !! c) ->
  size (delete c (ace_participants a)) = size (ace_participants a) - 1.
Proof. intros [t Ht]. rewrite map_size_delete, Ht. lia. Qed.

Lemma leave_active_ok id a c :
  active_ok id a -> is_Some (ace_participants a !! c) -> ace_conference_leader a <> Some c ->
  3 <= size (ace_participants a) -> active_ok id (leave_entry a c).
Proof.
  intros Hok Hc Hl Hsize.
  destruct (leave_entry_fields a c) as (E1 & E2 & E3 & _ & E5 & E6).
  pose proof (size_delete_participant _ _ Hc) as Hsz. pose proof (ao_leader _ _ Hok) as Hlead.
  split; rewrite ?E1, ?E2, ?E3, ?E5, ?E6.
  - apply Hok.
  - lia.
  - destruct (Nat.leb_spec (size (delete c (ace_participants a))) 2); [lia|].
    destruct (ace_conference_leader a) as [l|]; [|lia]. rewrite lookup_delete_ne by congruence.
    split; [apply Hlead|lia].
  - intros c'. rewrite !lookup_delete_is_Some, (ao_joins _ _ Hok). done.
  - intros x y rep [Hrep [? ?]]%map_lookup_filter_Some. cbn in *.
    destruct (ao_links _ _ Hok _ _ _ Hrep) as (? & ? & ?).
    by rewrite !lookup_delete_ne.
Qed.

Lemma leave_call_ok id r a c :
  call_ok id r (Some a) -> is_Some (ace_participants a !! c) ->
  ace_conference_leader a <> Some c -> 3 <= size (ace_participants a) ->
  call_ok id r (Some (leave_entry a c)).
Proof.
  intros Hok Hc Hl Hsize. pose proof (co_active _ _ _ Hok a eq_refl) as Ha.
  destruct (leave_entry_fields a c) as (_ & E2 & _ & _ & _ & E6).
  split.
  - apply Hok.
  - intros ? [= <-]. by apply leave_active_ok.
  - intros r' ? Hr [= <-]. rewrite E2. rewrite lookup_delete_ne; [by apply (co_caller _ _ _ Hok)|].
    intros ->. pose proof (ao_leader _ _ Ha) as Hlead.
    destruct (ace_conference_leader a) as [l|] eqn:El; [|lia].
    pose proof (co_leader _ _ _ Hok r' a l Hr eq_refl El). congruence.
  - intros r' ? l Hr [= <-]. rewrite E6. case_match; [done|]. by apply (co_leader _ _ _ Hok).
  - intros r' ? t c' Hr [= <-] Hrings. rewrite E2.
    pose proof (co_fresh _ _ _ Hok r' a t c' Hr eq_refl Hrings) as Hf.
    by apply lookup_delete_None; right.
Qed.

Lemma wf_leave cm id a c :
  cm_wf cm -> active_calls cm !! id = Some a -> is_Some (ace_participants a !! c) ->
  ace_conference_leader a <> Some c -> 3 <= size (ace_participants a) ->
  cm_wf (leave_call cm id a c).
Proof.
  intros Hwf Ha Hc Hl Hsize.
  pose proof (wf_calls _ Hwf id) as Hok. rewrite Ha in Hok.
  destruct (leave_entry_fields a c) as (_ & E2 & _).
  pose proof (leave_call_ok _ _ _ _ Hok Hc Hl Hsize) as Hok'.
  apply (cm_wf_update cm _ id); [done| | | | | | | |]; cbn.
  - done.
  - intros id' Hne. by rewrite lookup_insert_ne.
  - by rewrite lookup_insert_eq.
  - intros c'. rewrite lookup_insert_eq, lookup_delete_Some.
    rewrite (wf_markers _ Hwf), Ha. split.
    + intros [Hne [(? & [= <-] & H)|H]]; [|by right].
      left. exists (leave_entry a c). by rewrite E2, lookup_delete_ne.
    + intros [(? & [= <-] & H)|(r & Hr & <-)].
      * rewrite E2, lookup_delete_is_Some in H. split; [apply H|]. left. exists a. naive_solver.
      * split; [|right; eauto]. intros ->.
        destruct (co_caller _ _ _ Hok' r _ Hr eq_refl) as [t Ht].
        by rewrite E2, lookup_delete_eq in Ht.
  - intros c' id' Hne. rewrite lookup_delete_Some. split; [naive_solver|]. intros H.
    split; [|done]. intros <-. pose proof (wf_participant_marker _ Hwf _ _ _ Ha Hc). congruence.
  - intros c' t. apply (wf_incoming _ Hwf).
  - done.
  - apply Hwf.
Qed.

(** ** Ending a call *)

Section end_wf.
Context {HO : HashOrder}.

Lemma elem_of_rung_clients r c : c ∈ rung_clients r <-> exists t, rings (Some r) t c.
Proof.
  unfold rung_clients. rewrite list_elem_of_In, in_flat_map. split.
  - intros (e & He & Hc). apply list_elem_of_In, elem_of_map_values in He as [t He].
    apply list_elem_of_In, elem_of_set_iter in Hc. exists t. apply rings_Some. eauto.
  - intros [t (e & He & Hc)%rings_Some]. exists e.
    split; apply list_elem_of_In; [apply elem_of_map_values; eauto|by apply elem_of_set_iter].
Qed.

Lemma remove_rung_lookup cm id r c id' :
  cm_wf cm -> ringing_calls cm !! id = Some r ->
  incoming_lookup (foldl (incoming_remove id) (client_incoming_calls cm) (rung_clients r)) c id' =
    if decide (id' = id) then None else incoming_lookup (client_incoming_calls cm) c id'.
Proof.
  intros Hwf Hr. rewrite incoming_lookup_remove_all. case_decide as H1; case_decide as H2; try done.
  - naive_solver.
  - subst id'. destruct (incoming_lookup _ c id) as [t|] eqn:E; [|done].
    apply (wf_incoming _ Hwf) in E. rewrite Hr in E. destruct H1. split; [|done].
    apply elem_of_rung_clients. by exists t.
Qed.

Lemma no_ringing_no_row cm id c :
  cm_wf cm -> ringing_calls cm !! id = None ->
  incoming_lookup (client_incoming_calls cm) c id = None.
Proof.
  intros Hwf Hr. destruct (incoming_lookup _ c id) as [t|] eqn:E; [|done].
  apply (wf_incoming _ Hwf) in E. rewrite Hr in E. by apply rings_None in E.
Qed.

Lemma cancel_pending_state cm id outcome :
  (forall r, ringing_calls cm !! id = Some r -> rce_call_id r = id) ->
  CallManager.cancel_pending_invitations cm id outcome =
    (match ringing_calls cm !! id with
     | Some r => map CancelRingingTarget (RingingCallEntry.complete_all_targets r outcome)
     | None => []
     end, cancelled cm id).
Proof.
  intros Hid. unfold CallManager.cancel_pending_invitations, cancelled.
  destruct (ringing_calls cm !! id) as [r|] eqn:Hr; [|done].
  unfold CallManager.cleanup_client_incoming_calls. by rewrite (Hid r).
Qed.

(** A state that differs from [cancelled] in its active table and in its
    markers only. *)
Lemma cancelled_closed cm id active' markers' :
  cm_wf cm -> active' = delete id (active_calls cm) ->
  (forall c, markers' !! c =
     if decide (client_active_calls cm !! c = Some id) then None
     else client_active_calls cm !! c) ->
  set_markers (set_active (cancelled cm id) active') markers' = close_call cm id.
Proof.
  intros Hwf HA HM. apply closed_state; [done| |done| |done| |]; unfold cancelled;
  destruct (ringing_calls cm !! id) as [r|] eqn:Hr; cbn; try done.
  - by rewrite delete_id.
  - apply rows_ok_remove_all, Hwf.
  - apply Hwf.
  - intros c id'. by apply remove_rung_lookup.
  - intros c id'. case_decide; [|done]. subst. by apply no_ringing_no_row.
Qed.

(** Who has the marker of an active call: its participants. *)
Lemma active_marker cm id a c :
  cm_wf cm -> active_calls cm !! id = Some a ->
  (client_active_calls cm !! c = Some id) <-> is_Some (ace_participants a !! c).
Proof.
  intros Hwf Ha. rewrite (wf_markers _ Hwf), Ha. split; [|by auto with vacs].
  intros [(a' & [= <-] & ?)|(r & Hr & <-)]; [done|].
  by apply (co_caller _ _ _ (wf_calls _ Hwf id)).
Qed.

(** Who has the marker of a call that only rings: its caller. *)
Lemma ringing_marker cm id r c :
  cm_wf cm -> ringing_calls cm !! id = Some r -> active_calls cm !! id = None ->
  (client_active_calls cm !! c = Some id) <-> rce_caller_id r = c.
Proof.
  intros Hwf Hr Ha. rewrite (wf_markers _ Hwf), Hr, Ha. split; [|by intros <-; auto with vacs].
  by intros [(a' & ? & ?)|(r' & [= <-] & <-)].
Qed.

Lemma without_self_nonempty id a c :
  active_ok id a -> is_Some (ace_participants a !! c) ->
  ActiveCallEntry.participants_without_self a c <> ∅ /\
  size (ActiveCallEntry.participants_without_self a c) = size (ace_participants a) - 1 /\
  (bool_decide (ace_conference_leader a = Some c)
   || (size (ActiveCallEntry.participants_without_self a c) <=? 1)) = closes a c.
Proof.
  intros Hok Hc. rewrite participants_without_self_delete.
  pose proof (size_delete_participant _ _ Hc) as Hsz. pose proof (ao_size _ _ Hok).
  split; [|split; [done|]].
  - rewrite <- map_size_non_empty_iff. lia.
  - unfold closes. f_equal. rewrite Hsz.
    destruct (Nat.leb_spec (size (ace_participants a) - 1) 1),
      (Nat.leb_spec (size (ace_participants a)) 2); lia.
Qed.

(** Releasing every other participant, then [c] itself. *)
Lemma released_markers cm id a c (M : gmap ClientId CallId) :
  cm_wf cm -> active_calls cm !! id = Some a ->
  (forall c', c' <> c -> M !! c' = client_active_calls cm !! c') ->
  (M !! c = client_active_calls cm !! c \/ M !! c = None) ->
  is_Some (ace_participants a !! c) ->
  forall c', marker_release id (foldl (marker_release id) M
      (map_keys (ActiveCallEntry.participants_without_self a c))) c !! c' =
    if decide (client_active_calls cm !! c' = Some id) then None
    else client_active_calls cm !! c'.
Proof.
  intros Hwf Ha HM HMc Hc c'. rewrite marker_release_lookup, !marker_release_all_lookup.
  pose proof (active_marker _ _ _ c' Hwf Ha) as Hm.
  assert (c' ∈ map_keys (ActiveCallEntry.participants_without_self a c) <->
    is_Some (ace_participants a !! c') /\ c' <> c) as Hk.
  { rewrite elem_of_map_keys, participants_without_self_delete, lookup_delete_is_Some. naive_solver. }
  destruct (decide (c' = c)) as [->|Hne].
  - assert (client_active_calls cm !! c = Some id) as Hcm by by apply Hm.
    rewrite Hcm in *. rewrite (decide_True (P := Some id = Some id)) by done.
    repeat case_decide; naive_solver.
  - rewrite HM by done. repeat case_decide; naive_solver.
Qed.
End end_wf.

Section end_call.
Context {HO : HashOrder}.
Context (cm : CallManager) (id : CallId) (c : ClientId) (Hwf : cm_wf cm).

Lemma ringing_ids r : ringing_calls cm !! id = Some r -> rce_call_id r = id.
Proof. intros Hr. by apply (wf_ringing_ok _ Hwf). Qed.

(** The first half does nothing unless [c] is the caller of the ringing entry. *)
Lemma end_call_ringing_not_caller :
  (forall r, ringing_calls cm !! id = Some r -> rce_caller_id r <> c) ->
  CallManager.end_call_ringing cm id c = (None, cm).
Proof.
  intros Hne. unfold CallManager.end_call_ringing.
  destruct (ringing_calls cm !! id) as [r|] eqn:Hr; [|done].
  by rewrite bool_decide_eq_false_2 by by apply Hne.
Qed.

Lemma end_call_ringing_caller r :
  ringing_calls cm !! id = Some r -> rce_caller_id r = c ->
  CallManager.end_call_ringing cm id c =
    (Some (cancellations cm id Cancelled),
     set_markers (cancelled cm id) (delete c (client_active_calls cm))).
Proof.
  intros Hr Hc. unfold CallManager.end_call_ringing, cancellations, cancelled. rewrite Hr.
  rewrite bool_decide_eq_true_2 by done. unfold CallManager.cleanup_client_incoming_calls.
  by rewrite (ringing_ids r) by done.
Qed.

Lemma cancelled_active : active_calls (cancelled cm id) = active_calls cm.
Proof. unfold cancelled. by case_match. Qed.

Lemma cancelled_ringing : ringing_calls (cancelled cm id) !! id = None.
Proof.
  unfold cancelled. destruct (ringing_calls cm !! id) eqn:Hr; [apply lookup_delete_eq|done].
Qed.

Lemma cancelled_markers : client_active_calls (cancelled cm id) = client_active_calls cm.
Proof. unfold cancelled. by case_match. Qed.

Lemma cancelled_set X A M :
  cancelled (set_markers (set_active X A) M) id =
    set_markers (set_active (cancelled X id) A) M.
Proof. unfold cancelled. cbn. by case_match. Qed.

Lemma cancelled_set_markers X M :
  cancelled (set_markers X M) id = set_markers (cancelled X id) M.
Proof. unfold cancelled. cbn. by case_match. Qed.

Lemma cancelled_idemp : cancelled (cancelled cm id) id = cancelled cm id.
Proof. unfold cancelled at 1. by rewrite cancelled_ringing. Qed.

Lemma cancellations_cancelled outcome : cancellations (cancelled cm id) id outcome = [].
Proof. unfold cancellations. by rewrite cancelled_ringing. Qed.

Lemma end_call_active_closes cm1 a :
  active_calls cm1 !! id = Some a -> active_ok id a -> is_Some (ace_participants a !! c) ->
  closes a c = true -> (forall r, ringing_calls cm1 !! id = Some r -> rce_call_id r = id) ->
  CallManager.end_call_active cm1 id c =
    (Some (map (DropParticipant id) (map_keys (ActiveCallEntry.participants_without_self a c))
           ++ cancellations cm1 id Cancelled),
     set_markers (set_active (cancelled cm1 id) (delete id (active_calls cm1)))
       (marker_release id (foldl (marker_release id) (client_active_calls cm1)
          (map_keys (ActiveCallEntry.participants_without_self a c))) c)).
Proof.
  intros Ha Hok Hc Hcl Hids.
  destruct (without_self_nonempty _ _ _ Hok Hc) as (Hne & _ & Hcl').
  unfold CallManager.end_call_active. rewrite Ha. unfold ActiveCallEntry.involves.
  rewrite (bool_decide_eq_true_2 _ Hc), (bool_decide_eq_false_2 _ Hne), Hcl', Hcl. cbn.
  rewrite cancel_pending_state by done. cbn. by rewrite <- cancelled_set.
Qed.

(** The leader leaves, or one of two participants does. *)
Lemma end_call_closes a :
  active_calls cm !! id = Some a -> is_Some (ace_participants a !! c) -> closes a c = true ->
  CallManager.end_call cm id c =
    (Some (map (DropParticipant id) (map_keys (ActiveCallEntry.participants_without_self a c))
           ++ cancellations cm id Cancelled), close_call cm id).
Proof.
  intros Ha Hc Hcl. pose proof (wf_active_ok _ Hwf _ _ Ha) as Hok.
  unfold CallManager.end_call.
  destruct (ringing_calls cm !! id) as [r|] eqn:Hr;
    [destruct (decide (rce_caller_id r = c)) as [Hcaller|Hcaller]|].
  - rewrite (end_call_ringing_caller r) by done.
    rewrite (end_call_active_closes _ a); cbn; rewrite ?cancelled_active; try done;
      [|by rewrite cancelled_ringing].
    f_equal.
    + f_equal. rewrite <- app_assoc. f_equal. unfold cancellations at 1. cbn.
      by rewrite cancelled_ringing.
    + rewrite cancelled_set_markers, cancelled_idemp. cbn.
      apply (cancelled_closed cm id); [done..|].
      apply (released_markers cm id a c); [done..| | |done].
      * intros c' ?. by rewrite lookup_delete_ne.
      * right. apply lookup_delete_eq.
  - rewrite end_call_ringing_not_caller by naive_solver.
    rewrite (end_call_active_closes _ a) by (done || apply ringing_ids). f_equal.
    apply cancelled_closed; [done..|].
    apply (released_markers cm id a c); naive_solver.
  - rewrite end_call_ringing_not_caller by naive_solver.
    rewrite (end_call_active_closes _ a) by (done || apply ringing_ids). f_equal.
    apply cancelled_closed; [done..|].
    apply (released_markers cm id a c); naive_solver.
Qed.

(** One of at least three participants, not the leader, leaves. *)
Lemma end_call_leaves a :
  active_calls cm !! id = Some a -> is_Some (ace_participants a !! c) -> closes a c = false ->
  CallManager.end_call cm id c =
    (Some [UpdateParticipantsAction
             (mkUpdateParticipants id (invited cm id) (delete c (ace_participants a))
                (ace_conference_leader (leave_entry a c)))], leave_call cm id a c).
Proof.
  intros Ha Hc Hcl. pose proof (wf_active_ok _ Hwf _ _ Ha) as Hok.
  destruct (without_self_nonempty _ _ _ Hok Hc) as (Hne & _ & Hcl').
  unfold CallManager.end_call.
  rewrite end_call_ringing_not_caller.
  2: { intros r Hr Hcaller. unfold closes in Hcl. apply orb_false_iff in Hcl as [Hl Hsz].
       apply bool_decide_eq_false in Hl. apply Nat.leb_gt in Hsz.
       pose proof (ao_leader _ _ Hok). destruct (ace_conference_leader a) as [l|] eqn:El; [|lia].
       pose proof (co_leader _ _ _ (wf_calls _ Hwf id) r a l Hr Ha El). congruence. }
  unfold CallManager.end_call_active. rewrite Ha. unfold ActiveCallEntry.involves.
  rewrite (bool_decide_eq_true_2 _ Hc), (bool_decide_eq_false_2 _ Hne), Hcl', Hcl. cbn [negb].
  fold (leave_entry a c). destruct (leave_entry_fields a c) as (_ & E2 & _).
  fold (invited cm id). unfold invited. cbn. rewrite E2. f_equal.
  unfold leave_call, set_markers, set_active, marker_release. cbn.
  rewrite bool_decide_eq_true_2; [done|]. by eapply active_marker.
Qed.

(** The caller of a call nobody accepted hangs up. *)
Lemma end_call_outgoing r :
  ringing_calls cm !! id = Some r -> active_calls cm !! id = None -> rce_caller_id r = c ->
  CallManager.end_call cm id c = (Some (cancellations cm id Cancelled), close_call cm id).
Proof.
  intros Hr Ha Hc. unfold CallManager.end_call. rewrite (end_call_ringing_caller r) by done.
  unfold CallManager.end_call_active. cbn. rewrite cancelled_active, Ha. f_equal.
  transitivity (set_markers (set_active (cancelled cm id) (active_calls cm))
    (delete c (client_active_calls cm))).
  - unfold cancelled. by rewrite Hr.
  - apply cancelled_closed; [done|by rewrite delete_id|]. intros c'.
    pose proof (ringing_marker _ _ _ c' Hwf Hr Ha) as Hm.
    destruct (decide (c' = c)) as [->|Hne].
    + rewrite lookup_delete_eq. case_decide; naive_solver.
    + rewrite lookup_delete_ne by done. case_decide; naive_solver.
Qed.

(** Anybody else changes nothing. *)
Lemma end_call_other :
  ~ occupies (ringing_calls cm !! id) (active_calls cm !! id) c ->
  CallManager.end_call cm id c = (None, cm).
Proof.
  intros Ho. unfold CallManager.end_call. rewrite end_call_ringing_not_caller.
  2: { intros r Hr Hc. apply Ho. rewrite Hr, <- Hc. apply occupies_caller. }
  unfold CallManager.end_call_active. destruct (active_calls cm !! id) as [a|] eqn:Ha; [|done].
  unfold ActiveCallEntry.involves. rewrite bool_decide_eq_false_2; [done|].
  intros Hc. by apply Ho, occupies_participant.
Qed.

Lemma occupies_dec : 
  {occupies (ringing_calls cm !! id) (active_calls cm !! id) c} +
  {~ occupies (ringing_calls cm !! id) (active_calls cm !! id) c}.
Proof.
  destruct (decide (client_active_calls cm !! c = Some id)) as [H|H];
    [left|right]; by rewrite <- (wf_markers _ Hwf).
Qed.

Lemma closes_false a : closes a c = false ->
  ace_conference_leader a <> Some c /\ 3 <= size (ace_participants a).
Proof.
  unfold closes. rewrite orb_false_iff, bool_decide_eq_false, Nat.leb_gt.
  intros [? ?]. split; [done|lia].
Qed.

Lemma end_call_wf : cm_wf (CallManager.end_call cm id c).2.
Proof.
  destruct occupies_dec as [Ho|Ho]; [|by rewrite end_call_other].
  destruct (active_calls cm !! id) as [a|] eqn:Ha.
  - assert (is_Some (ace_participants a !! c)) as Hc
      by by apply (active_marker cm id a c Hwf Ha), (wf_markers _ Hwf); rewrite Ha.
    destruct (closes a c) eqn:Hcl.
    + rewrite (end_call_closes a) by done. by apply wf_close.
    + rewrite (end_call_leaves a) by done. apply closes_false in Hcl as [? ?]. by apply wf_leave.
  - destruct Ho as [(?&?&_)|(r & Hr & Hc)]; [done|].
    rewrite (end_call_outgoing r) by done. by apply wf_close.
Qed.
End end_call.
