(* ===== verification/CallLeave.v ===== *)
(** CallLeave: dropping a participant, failing, reporting a dead link and
    disconnecting: what each operation does to the tables, and that it keeps
    them well formed. *)
From stdpp Require Import prelude gmap strings list.
From Stdlib Require Import NArith.
From S2P Require Import Prelude Protocol Calls CallManager CallTables CallInvariant.

(** What a disconnect does to an entry that rings at the client. *)
Definition forget_client (e : RingingTargetEntry) (c : ClientId) : RingingTargetEntry :=
  mkRingingTargetEntry (rte_source e) (rte_notified_clients e ∖ {[c]})
    (rte_rejected_clients e ∖ {[c]}) (rte_errored_clients e ∖ {[c]}) (rte_guard e).

(** The state in which the client [c] still has the incoming row [row]. *)
Definition with_row (cm : CallManager) (c : ClientId) (row : gmap CallId CallTarget) :
    CallManager :=
  set_incoming cm
    (if bool_decide (row = ∅) then client_incoming_calls cm
     else <[c := row]> (client_incoming_calls cm)).

(** The participant that [c] names in a drop request may be dropped by it. *)
Definition may_drop (a : ActiveCallEntry) (c dropped : ClientId) (reason : CallDropReason) : bool :=
  negb (bool_decide (reason = AutoHangup)) && negb (bool_decide (dropped = c))
  && negb (size (ace_participants a) <=? 2)
  && bool_decide (ace_conference_leader a = Some c).

Definition unmarked (cm : CallManager) (c : ClientId) : CallManager :=
  set_markers cm (delete c (client_active_calls cm)).

Section leave_defs.
Context {HO : HashOrder}.

(** What the disconnecting client's own call becomes. *)
Definition own_call_spec (cm : CallManager) (c : ClientId) : list UpdateCallAction * CallManager :=
  match client_active_calls cm !! c with
  | None => ([], cm)
  | Some id =>
    let own :=
      match ringing_calls cm !! id with
      | Some r => bool_decide (rce_caller_id r = c)
      | None => false
      end in
    match active_calls cm !! id with
    | None => (cancellations cm id Aborted, close_call cm id)
    | Some a =>
      if closes a c then
        let drops :=
          map (DropParticipant id) (map_keys (ActiveCallEntry.participants_without_self a c)) in
        (if own then cancellations cm id Aborted ++ drops
         else drops ++ cancellations cm id Aborted, close_call cm id)
      else
        ([UpdateParticipantsAction
            (mkUpdateParticipants id (invited cm id) (delete c (ace_participants a))
               (ace_conference_leader (leave_entry a c)))], leave_call cm id a c)
    end
  end.
End leave_defs.

(** ** Failing *)

Section call_error.
Context {HO : HashOrder}.

Lemma call_error_wf cm id c : cm_wf cm -> cm_wf (CallManager.call_error cm id c).2.
Proof.
  intros Hwf. unfold CallManager.call_error.
  pose proof (mark_client_wf _ mark_errored_marks cm id c (OutcomeError CallFailure) Hwf) as H.
  destruct (CallManager.mark_client_within_ringing_calls _ _ _ _ _) as [outcome cm1]. cbn in H.
  pose proof (end_call_wf cm1 id c H) as H'.
  destruct (CallManager.end_call cm1 id c) as [[]]; by destruct outcome.
Qed.
End call_error.

(** ** Dropping a participant *)

Section drop_joined.
Context {HO : HashOrder}.

Lemma find_participant_Some a t d :
  CallManager.find_participant a t = Some d -> ace_participants a !! d = Some t.
Proof.
  intros (c & t' & Hc & H)%map_find_map_Some. case_bool_decide; naive_solver.
Qed.

(** Unless the drop is permitted, nothing changes. *)
Lemma drop_joined_refused cm id c t reason :
  (forall a d, active_calls cm !! id = Some a -> CallManager.find_participant a t = Some d ->
     is_Some (ace_participants a !! c) -> may_drop a c d reason = false) ->
  (CallManager.drop_joined_participant cm id c t reason).2 = cm.
Proof.
  intros Hmay. unfold CallManager.drop_joined_participant, CallManager.active_call_snapshot.
  destruct (active_calls cm !! id) as [a|] eqn:Ha; rewrite ?Ha; [|by case_match].
  destruct (ActiveCallEntry.involves a c) eqn:Hi; [|done]. cbn [negb].
  apply involves_true in Hi.
  destruct (CallManager.find_participant a t) as [d|] eqn:Hd; [|by case_match].
  specialize (Hmay a d eq_refl Hd Hi). unfold may_drop in Hmay.
  destruct (bool_decide (reason = AutoHangup)); [by case_match|].
  destruct (bool_decide (d = c)); [done|]. destruct (_ <=? 2); [done|]. cbn in Hmay.
  by rewrite Hmay.
Qed.

(** A permitted drop removes the participant that the target designates. *)
Lemma drop_joined_permitted cm id c t reason a d :
  cm_wf cm -> active_calls cm !! id = Some a -> CallManager.find_participant a t = Some d ->
  may_drop a c d reason = true ->
  CallManager.drop_joined_participant cm id c t reason =
    (ParticipantDropped d
       (mkUpdateParticipants id (invited cm id) (delete d (ace_participants a))
          (ace_conference_leader (leave_entry a d))), leave_call cm id a d).
Proof.
  intros Hwf Ha Hd Hmay. unfold may_drop in Hmay.
  apply andb_true_iff in Hmay as [[[H1 H2]%andb_true_iff H3]%andb_true_iff H4].
  unfold CallManager.drop_joined_participant. rewrite Ha.
  pose proof (wf_active_ok _ Hwf _ _ Ha) as Hok.
  assert (is_Some (ace_participants a !! c)) as Hc.
  { apply bool_decide_eq_true in H4. pose proof (ao_leader _ _ Hok) as Hl. rewrite H4 in Hl.
    apply Hl. }
  unfold ActiveCallEntry.involves. rewrite (bool_decide_eq_true_2 _ Hc), Hd. cbn [negb].
  apply negb_true_iff in H1 as ->. apply negb_true_iff in H2 as ->.
  apply negb_true_iff in H3 as ->. rewrite H4. cbn [negb].
  fold (leave_entry a d). destruct (leave_entry_fields a d) as (_ & E2 & _).
  unfold CallManager.active_call_snapshot. cbn. rewrite lookup_insert_eq, E2.
  fold (invited cm id). unfold invited. f_equal.
  unfold leave_call, set_markers, set_active, marker_release. cbn.
  rewrite bool_decide_eq_true_2; [done|]. eapply active_marker; [done..|].
  apply find_participant_Some in Hd. eauto.
Qed.

Lemma may_drop_leaves a c d reason :
  may_drop a c d reason = true ->
  ace_conference_leader a <> Some d /\ 3 <= size (ace_participants a).
Proof.
  unfold may_drop. rewrite !andb_true_iff, !negb_true_iff, bool_decide_eq_true,
    !bool_decide_eq_false, Nat.leb_gt. intros [[[_ Hne] Hs] Hl]. split; [congruence|lia].
Qed.

Lemma drop_joined_wf cm id c t reason :
  cm_wf cm -> cm_wf (CallManager.drop_joined_participant cm id c t reason).2.
Proof.
  intros Hwf.
  destruct (active_calls cm !! id) as [a|] eqn:Ha; [|rewrite drop_joined_refused; naive_solver].
  destruct (CallManager.find_participant a t) as [d|] eqn:Hd;
    [|rewrite drop_joined_refused; naive_solver].
  destruct (may_drop a c d reason) eqn:Hmay; [|rewrite drop_joined_refused; naive_solver].
  rewrite (drop_joined_permitted _ _ _ _ _ a d) by done. cbn.
  destruct (may_drop_leaves _ _ _ _ Hmay).
  apply wf_leave; [done..| |done|done]. apply find_participant_Some in Hd. eauto.
Qed.

Lemma drop_target_wf cm id c t reason :
  cm_wf cm -> cm_wf (CallManager.drop_target cm id c t reason).2.
Proof.
  intros Hwf. unfold CallManager.drop_target.
  pose proof (drop_ringing_target_wf cm id c t reason Hwf) as H.
  destruct (CallManager.drop_ringing_target cm id c t reason) as [[outcome|] cm']; [done|].
  by apply drop_joined_wf.
Qed.
End drop_joined.

(** ** Dead links *)

Section links.
Context {HO : HashOrder}.

(** An active entry may be replaced by one with the same participants and
    the same leader. *)
Lemma wf_same_members cm id a a' :
  cm_wf cm -> active_calls cm !! id = Some a -> active_ok id a' ->
  ace_participants a' = ace_participants a ->
  ace_conference_leader a' = ace_conference_leader a ->
  cm_wf (set_active cm (<[id := a']> (active_calls cm))).
Proof.
  intros Hwf Ha Hok Hp Hl. pose proof (wf_calls _ Hwf id) as Hcall. rewrite Ha in Hcall.
  apply (cm_wf_update cm _ id); [done| | | | | | | |]; cbn; try done.
  - intros id' Hne. by rewrite lookup_insert_ne.
  - rewrite lookup_insert_eq. split.
    + apply Hcall.
    + by intros ? [= <-].
    + intros r' ? Hr [= <-]. rewrite Hp. by apply (co_caller _ _ _ Hcall).
    + intros r' ? l Hr [= <-]. rewrite Hl. by apply (co_leader _ _ _ Hcall).
    + intros r' ? t c Hr [= <-]. rewrite Hp. by apply (co_fresh _ _ _ Hcall).
  - intros c. rewrite lookup_insert_eq, (wf_markers _ Hwf), Ha. unfold occupies.
    split; (intros [(? & [= <-] & ?)|?]; [left; eexists; split; [done|]; congruence|by right]).
  - intros c t. apply (wf_incoming _ Hwf).
  - apply Hwf.
Qed.

Lemma record_link_report_members a x y now :
  let a' := (ActiveCallEntry.record_link_report a x y now).1 in
  ace_call_id a' = ace_call_id a /\ ace_participants a' = ace_participants a /\
  ace_conference_leader a' = ace_conference_leader a /\
  ace_join_order a' = ace_join_order a /\ ace_next_join_seq a' = ace_next_join_seq a.
Proof. done. Qed.

Lemma record_link_report_ok id a x y now :
  active_ok id a -> is_Some (ace_participants a !! x) -> is_Some (ace_participants a !! y) ->
  active_ok id (ActiveCallEntry.record_link_report a x y now).1.
Proof.
  intros Hok Hx Hy. split; cbn; [apply Hok..|].
  intros x' y' rep. rewrite lookup_insert_Some. intros [[Hkey <-]|[_ Hrep]];
    [|by apply (ao_links _ _ Hok)].
  destruct (link_key_cases x y) as [E|E]; rewrite E in Hkey; simplify_eq;
  (split; [done|split; [done|]]); cbn;
  (case_match; [set_solver|]);
  (destruct (ace_link_reports a !! _) as [rep|] eqn:Hrep; [|set_solver]);
  (intros z [->%elem_of_singleton|Hz]%elem_of_union; [by auto|]);
  rewrite E in Hrep; destruct (ao_links _ _ Hok _ _ _ Hrep) as (_ & _ & Hz2); naive_solver.
Qed.

Lemma record_link_failure_wf cm id x y now :
  cm_wf cm -> cm_wf (CallManager.record_link_failure cm id x y now).2.
Proof.
  intros Hwf. unfold CallManager.record_link_failure. case_bool_decide; [done|].
  destruct (active_calls cm !! id) as [a|] eqn:Ha; [|done].
  case_bool_decide as Hx; [|done]. case_bool_decide as Hy; [|done]. cbn [negb orb].
  pose proof (record_link_report_ok id a x y now (wf_active_ok _ Hwf _ _ Ha) Hx Hy) as Hok.
  pose proof (record_link_report_members a x y now) as (_ & Hp & Hl & _).
  destruct (ActiveCallEntry.record_link_report a x y now) as [a' confirmed]. cbn in *.
  assert (cm_wf (set_active cm (<[id := a']> (active_calls cm)))) by (by eapply wf_same_members).
  by destruct confirmed.
Qed.

Lemma report_link_failure_wf cm id x y now :
  cm_wf cm -> cm_wf (CallManager.report_link_failure cm id x y now).2.
Proof.
  intros Hwf. unfold CallManager.report_link_failure.
  pose proof (record_link_failure_wf cm id x y now Hwf) as H.
  destruct (CallManager.record_link_failure cm id x y now) as [[|[evicted u]] cm']; [done|].
  pose proof (end_call_wf cm' id evicted H) as H'.
  by destruct (CallManager.end_call cm' id evicted) as [[] ?].
Qed.
End links.

(** ** Disconnects: the client's own call *)

Section own_call.
Context {HO : HashOrder}.
Context (cm : CallManager) (c : ClientId) (Hwf : cm_wf cm).

Lemma cleanup_outgoing_state id X :
  (forall r, ringing_calls X !! id = Some r -> rce_call_id r = id) ->
  CallManager.cleanup_outgoing X id c =
    match ringing_calls X !! id with
    | Some r => if bool_decide (rce_caller_id r = c)
                then (cancellations X id Aborted, cancelled X id) else ([], X)
    | None => ([], X)
    end.
Proof.
  intros Hid. unfold CallManager.cleanup_outgoing, cancellations, cancelled.
  destruct (ringing_calls X !! id) as [r|]; [|done]. by case_bool_decide.
Qed.

Lemma cleanup_active_closes id X a :
  active_calls X !! id = Some a -> active_ok id a -> is_Some (ace_participants a !! c) ->
  closes a c = true -> (forall r, ringing_calls X !! id = Some r -> rce_call_id r = id) ->
  CallManager.cleanup_active X id c =
    (map (DropParticipant id) (map_keys (ActiveCallEntry.participants_without_self a c))
       ++ cancellations X id Aborted,
     set_markers (set_active (cancelled X id) (delete id (active_calls X)))
       (foldl (marker_release id) (client_active_calls X)
          (map_keys (ActiveCallEntry.participants_without_self a c)))).
Proof.
  intros Ha Hok Hc Hcl Hids.
  destruct (without_self_nonempty _ _ _ Hok Hc) as (Hne & _ & Hcl').
  unfold CallManager.cleanup_active. rewrite Ha.
  rewrite (bool_decide_eq_true_2 _ Hc), (bool_decide_eq_false_2 _ Hne), Hcl', Hcl. cbn [negb].
  rewrite cancel_pending_state by done. cbn. by rewrite <- cancelled_set.
Qed.

Lemma unmarked_released id a c' :
  active_calls cm !! id = Some a -> is_Some (ace_participants a !! c) ->
  foldl (marker_release id) (delete c (client_active_calls cm))
    (map_keys (ActiveCallEntry.participants_without_self a c)) !! c' =
    if decide (client_active_calls cm !! c' = Some id) then None
    else client_active_calls cm !! c'.
Proof.
  intros Ha Hc.
  rewrite <- (released_markers cm id a c (delete c (client_active_calls cm))); [|done..| | |done].
  - rewrite marker_release_lookup, marker_release_all_lookup.
    destruct (decide (c' = c)) as [->|Hne]; [|by repeat case_decide; naive_solver].
    rewrite lookup_delete_eq. by repeat case_decide.
  - intros ? ?. by rewrite lookup_delete_ne.
  - right. apply lookup_delete_eq.
Qed.

Lemma cleanup_own_closes id a :
  client_active_calls cm !! c = Some id -> active_calls cm !! id = Some a ->
  is_Some (ace_participants a !! c) -> closes a c = true ->
  CallManager.cleanup_own_call cm c = own_call_spec cm c.
Proof.
  intros Hm Ha Hc Hcl. pose proof (wf_active_ok _ Hwf _ _ Ha) as Hok.
  unfold CallManager.cleanup_own_call, own_call_spec. rewrite Hm, Ha, Hcl. fold (unmarked cm c).
  assert (set_markers (set_active (cancelled cm id) (delete id (active_calls cm)))
    (foldl (marker_release id) (delete c (client_active_calls cm))
      (map_keys (ActiveCallEntry.participants_without_self a c))) = close_call cm id) as Hstate.
  { apply cancelled_closed; [done..|]. intros c'. by apply unmarked_released. }
  rewrite cleanup_outgoing_state by exact (ringing_ids cm id Hwf). cbn [unmarked ringing_calls set_markers].
  destruct (ringing_calls cm !! id) as [r|] eqn:Hr; [case_bool_decide|]; cbn beta iota.
  - rewrite (cleanup_active_closes id (cancelled (unmarked cm c) id) a);
      [|by rewrite cancelled_active|done..|by rewrite cancelled_ringing].
    rewrite cancellations_cancelled, app_nil_r, cancelled_idemp, cancelled_markers, cancelled_active.
    rewrite <- Hstate. unfold unmarked. by rewrite cancelled_set_markers.
  - rewrite (cleanup_active_closes id (unmarked cm c) a); [|done..|exact (ringing_ids cm id Hwf)].
    rewrite <- Hstate. unfold unmarked. by rewrite cancelled_set_markers.
  - rewrite (cleanup_active_closes id (unmarked cm c) a); [|done..|exact (ringing_ids cm id Hwf)].
    rewrite <- Hstate. unfold unmarked. by rewrite cancelled_set_markers.
Qed.

Lemma cleanup_own_leaves id a :
  client_active_calls cm !! c = Some id -> active_calls cm !! id = Some a ->
  is_Some (ace_participants a !! c) -> closes a c = false ->
  CallManager.cleanup_own_call cm c = own_call_spec cm c.
Proof.
  intros Hm Ha Hc Hcl. pose proof (wf_active_ok _ Hwf _ _ Ha) as Hok.
  destruct (without_self_nonempty _ _ _ Hok Hc) as (Hne & _ & Hcl').
  unfold CallManager.cleanup_own_call, own_call_spec. rewrite Hm, Ha, Hcl. fold (unmarked cm c).
  rewrite cleanup_outgoing_state by exact (ringing_ids cm id Hwf).
  assert (match ringing_calls (unmarked cm c) !! id with
          | Some r => if bool_decide (rce_caller_id r = c)
                      then (cancellations (unmarked cm c) id Aborted, cancelled (unmarked cm c) id)
                      else ([], (unmarked cm c))
          | None => ([], (unmarked cm c))
          end = ([], (unmarked cm c))) as ->.
  { cbn. destruct (ringing_calls cm !! id) as [r|] eqn:Hr; [|done].
    rewrite bool_decide_eq_false_2; [done|]. intros Hcaller.
    apply (closes_false c) in Hcl as [Hl Hsize]. pose proof (ao_leader _ _ Hok).
    destruct (ace_conference_leader a) as [l|] eqn:El; [|lia].
    pose proof (co_leader _ _ _ (wf_calls _ Hwf id) r a l Hr Ha El). congruence. }
  cbn beta iota. unfold CallManager.cleanup_active.
  change (active_calls (unmarked cm c)) with (active_calls cm). rewrite Ha.
  rewrite (bool_decide_eq_true_2 _ Hc), (bool_decide_eq_false_2 _ Hne), Hcl', Hcl. cbn [negb].
  fold (leave_entry a c). destruct (leave_entry_fields a c) as (_ & E2 & _).
  by rewrite E2.
Qed.

Lemma cleanup_own_rings id r :
  client_active_calls cm !! c = Some id -> active_calls cm !! id = None ->
  ringing_calls cm !! id = Some r -> rce_caller_id r = c ->
  CallManager.cleanup_own_call cm c = own_call_spec cm c.
Proof.
  intros Hm Ha Hr Hc. unfold CallManager.cleanup_own_call, own_call_spec. rewrite Hm, Ha.
  fold (unmarked cm c). rewrite cleanup_outgoing_state by exact (ringing_ids cm id Hwf).
  cbn [unmarked ringing_calls set_markers]. rewrite Hr, bool_decide_eq_true_2 by done.
  unfold CallManager.cleanup_active. rewrite cancelled_active. cbn. rewrite Ha, app_nil_r.
  f_equal.
  transitivity (set_markers (set_active (cancelled cm id) (active_calls cm))
    (delete c (client_active_calls cm))).
  - unfold unmarked, cancelled. cbn. by rewrite Hr.
  - apply cancelled_closed; [done|by rewrite delete_id|]. intros c'.
    pose proof (ringing_marker _ _ _ c' Hwf Hr Ha) as Hrm.
    destruct (decide (c' = c)) as [->|Hne].
    + rewrite lookup_delete_eq. case_decide; naive_solver.
    + rewrite lookup_delete_ne by done. case_decide; naive_solver.
Qed.

Lemma cleanup_own_call_spec : CallManager.cleanup_own_call cm c = own_call_spec cm c.
Proof.
  destruct (client_active_calls cm !! c) as [id|] eqn:Hm.
  - pose proof Hm as Ho. apply (wf_markers _ Hwf) in Ho.
    destruct (active_calls cm !! id) as [a|] eqn:Ha.
    + assert (is_Some (ace_participants a !! c)) as Hc by by apply (active_marker cm id a c).
      destruct (closes a c) eqn:Hcl; [by eapply cleanup_own_closes|by eapply cleanup_own_leaves].
    + destruct Ho as [(?&?&_)|(r & Hr & Hc)]; [done|]. by eapply cleanup_own_rings.
  - unfold CallManager.cleanup_own_call, own_call_spec. rewrite Hm.
    rewrite delete_id by done. by destruct cm.
Qed.

Lemma cleanup_own_call_wf : cm_wf (CallManager.cleanup_own_call cm c).2.
Proof.
  rewrite cleanup_own_call_spec. unfold own_call_spec.
  destruct (client_active_calls cm !! c) as [id|] eqn:Hm; [|done].
  destruct (active_calls cm !! id) as [a|] eqn:Ha; [|by apply wf_close].
  destruct (closes a c) eqn:Hcl; [by apply wf_close|].
  apply (closes_false c) in Hcl as [? ?]. apply wf_leave; [done..| |done|done].
  by apply (active_marker cm id a c).
Qed.

Lemma cleanup_own_call_unmarked : client_active_calls (CallManager.cleanup_own_call cm c).2 !! c = None.
Proof.
  rewrite cleanup_own_call_spec. unfold own_call_spec.
  destruct (client_active_calls cm !! c) as [id|] eqn:Hm; [|done].
  assert (client_active_calls (close_call cm id) !! c = None).
  { rewrite close_marker_lookup. by rewrite decide_True. }
  destruct (active_calls cm !! id) as [a|]; [|done].
  destruct (closes a c); [done|]. apply lookup_delete_eq.
Qed.
End own_call.

(** ** Disconnects: the calls that ring at the client *)

Lemma forget_client_marks : marks forget_client.
Proof. intros e c Hc. cbn. split; [done|split; [done|]]. set_solver. Qed.

#[export] Hint Resolve forget_client_marks : vacs.

Section incoming.
Context {HO : HashOrder}.
Context (c : ClientId).

(** A ringing entry of a well-formed state that shrank has no live target
    left exactly when it has no target left. *)
Lemma shrunk_all_failed id r targets' :
  ringing_ok id r -> shrinks_to (rce_targets r) targets' ->
  RingingCallEntry.all_targets_failed (set_targets r targets') = bool_decide (targets' = ∅).
Proof.
  intros Hok Hs. apply eq_true_iff_eq. unfold RingingCallEntry.all_targets_failed.
  rewrite map_all_true, bool_decide_eq_true. cbn. split.
  - intros H. apply map_empty. intros t. destruct (targets' !! t) as [e|] eqn:He; [|done].
    specialize (H t e He). apply bool_decide_eq_true in H. by destruct (sh_notified _ _ Hs t e He).
  - intros ->. intros t e. by rewrite lookup_empty.
Qed.

Lemma with_row_lookup cm row :
  client_incoming_calls cm !! c = None -> row <> ∅ ->
  client_incoming_calls (with_row cm c row) !! c = Some row.
Proof. intros H Hne. cbn. rewrite bool_decide_eq_false_2 by done. apply lookup_insert_eq. Qed.

Lemma with_row_remove cm row id t :
  client_incoming_calls cm !! c = None -> row !! id = Some t ->
  incoming_remove id (client_incoming_calls (with_row cm c row)) c =
    client_incoming_calls (with_row cm c (delete id row)).
Proof.
  intros Hc Hid. unfold incoming_remove.
  assert (row <> ∅) as Hne by (intros ->; by rewrite lookup_empty in Hid).
  rewrite with_row_lookup by done. cbn. rewrite (bool_decide_eq_false_2 (row = ∅)) by done.
  case_bool_decide; [by apply delete_insert_id|by rewrite insert_insert_eq].
Qed.

Lemma forget_incoming_target_state cm id r t e :
  rce_targets r !! t = Some e ->
  (CallManager.forget_incoming_target cm c id t r).2 =
    set_targets r (mark_target (rce_targets r) t (forget_client e c)).
Proof.
  intros He. unfold CallManager.forget_incoming_target, mark_target. rewrite He.
  fold (forget_client e c). case_match; [|done]. by destruct (CallManager.active_call_snapshot cm id).
Qed.

(** One step of the loop: in the state that still has the row, it is the
    state after the target that rings at the client lost it. *)
Lemma cleanup_incoming_call_state cm row id t actions :
  client_incoming_calls cm !! c = None -> row !! id = Some t -> cm_wf (with_row cm c row) ->
  let step := CallManager.cleanup_incoming_call c (actions, cm) (id, t) in
  client_incoming_calls step.2 = client_incoming_calls cm /\
  exists r e, ringing_calls cm !! id = Some r /\ rce_targets r !! t = Some e /\
    c ∈ rte_notified_clients e /\
    with_row step.2 c (delete id row) =
      after_shrink (with_row cm c row) id r
        (mark_target (rce_targets r) t (forget_client e c))
        (incoming_remove id (client_incoming_calls (with_row cm c row)) c).
Proof.
  intros Hc Hid Hwf. set (V := with_row cm c row) in *.
  assert (row <> ∅) as Hne by (intros ->; by rewrite lookup_empty in Hid).
  assert (rings (ringing_calls V !! id) t c) as (r & e & Hr & He & Hce).
  { apply (wf_incoming _ Hwf). unfold incoming_lookup, V. by rewrite with_row_lookup. }
  pose proof (wf_ringing_ok _ Hwf _ _ Hr) as Hok.
  pose proof (mark_target_shrinks _ _ _ _ _ _ forget_client_marks Hok He Hce) as Hs.
  assert (ringing_calls cm !! id = Some r) as Hr' by done.
  pose proof (wf_in_no_active_call _ Hwf _ _ Hr) as Hna.
  change (CallManager.in_no_active_call V (rce_caller_id r)) with
    (CallManager.in_no_active_call cm (rce_caller_id r)) in Hna.
  intros step. subst step. unfold CallManager.cleanup_incoming_call. rewrite Hr'.
  pose proof (forget_incoming_target_state cm id r t e He) as Hft.
  destruct (CallManager.forget_incoming_target cm c id t r) as [acts r1]. cbn in Hft. subst r1.
  rewrite (shrunk_all_failed id) by done. cbn [rce_caller_id set_targets]. rewrite Hna.
  unfold V. rewrite (with_row_remove cm row id t) by done.
  split; [by repeat case_bool_decide|]. exists r, e. repeat split; try done.
  unfold after_shrink, with_row. cbn. by repeat case_bool_decide.
Qed.

Lemma cleanup_incoming_call_wf cm row id t actions :
  client_incoming_calls cm !! c = None -> row !! id = Some t -> cm_wf (with_row cm c row) ->
  let step := CallManager.cleanup_incoming_call c (actions, cm) (id, t) in
  client_incoming_calls step.2 !! c = None /\ cm_wf (with_row step.2 c (delete id row)) /\
  (client_active_calls cm !! c = None -> client_active_calls step.2 !! c = None).
Proof.
  intros Hc Hid Hwf step.
  destruct (cleanup_incoming_call_state cm row id t actions Hc Hid Hwf)
    as (Hin & r & e & Hr & He & Hce & Hst). fold step in Hin, Hst.
  split; [by rewrite Hin|]. rewrite Hst. split; [by apply wf_mark_shrink; auto with vacs|].
  intros Hm.
  change (client_active_calls step.2) with
    (client_active_calls (with_row step.2 c (delete id row))). rewrite Hst. cbn.
  case_match; [|done]. by apply lookup_delete_None; right.
Qed.

Lemma cleanup_incoming_loop (l : list (CallId * CallTarget)) cm row actions :
  NoDup l.*1 -> (forall id t, (row !! id = Some t) <-> (id, t) ∈ l) ->
  client_incoming_calls cm !! c = None -> cm_wf (with_row cm c row) ->
  let final := foldl (CallManager.cleanup_incoming_call c) (actions, cm) l in
  client_incoming_calls final.2 !! c = None /\ cm_wf final.2 /\
  (client_active_calls cm !! c = None -> client_active_calls final.2 !! c = None).
Proof.
  revert cm row actions. induction l as [|[id t] l IH]; intros cm row actions Hnd Hrow Hc Hwf; cbn.
  - assert (row = ∅) as ->.
    { apply map_empty. intros id. destruct (row !! id) as [t|] eqn:E; [|done].
      by apply Hrow, not_elem_of_nil in E. }
    split; [done|]. split; [|done]. by destruct cm.
  - assert (row !! id = Some t) as Hid by (apply Hrow; left).
    apply NoDup_cons in Hnd as [Hid' Hnd].
    destruct (cleanup_incoming_call_wf cm row id t actions Hc Hid Hwf) as (Hc' & Hwf' & Hm).
    cbn in Hc', Hwf', Hm.
    destruct (match ringing_calls cm !! id with Some _ => _ | None => _ end) as [acts cm'].
    cbn in *. destruct (IH cm' (delete id row) acts) as (H1 & H2 & H3); try done.
    + intros id' t'. rewrite lookup_delete_Some, Hrow, elem_of_cons. split; [naive_solver|].
      intros Hin. split; [|by right]. intros <-. apply Hid', list_elem_of_fmap. by exists (id, t').
    + split; [done|]. split; [done|]. intros Hcm. by apply H3, Hm.
Qed.

Lemma cleanup_incoming_wf cm :
  cm_wf cm ->
  let cm' := (CallManager.cleanup_incoming cm c).2 in
  cm_wf cm' /\ client_incoming_calls cm' !! c = None /\
  (client_active_calls cm !! c = None -> client_active_calls cm' !! c = None).
Proof.
  intros Hwf. unfold CallManager.cleanup_incoming. cbn.
  destruct (client_incoming_calls cm !! c) as [row|] eqn:Hrow.
  - destruct (cleanup_incoming_loop (map_iter row)
      (set_incoming cm (delete c (client_incoming_calls cm))) row [])
      as (H1 & H2 & H3); [apply NoDup_fst_map_iter|..|done].
    + intros id t. by rewrite elem_of_map_iter.
    + apply lookup_delete_eq.
    + unfold with_row. cbn. rewrite bool_decide_eq_false_2 by by eapply wf_rows.
      rewrite insert_delete_eq. by destruct cm; rewrite insert_id.
  - rewrite delete_id by done. destruct cm. cbn in *. done.
Qed.

(** After the cleanup the client is in no table. *)
Lemma cleanup_client_calls_wf cm :
  cm_wf cm ->
  let cm' := (CallManager.cleanup_client_calls cm c).2 in
  cm_wf cm' /\ client_active_calls cm' !! c = None /\ client_incoming_calls cm' !! c = None.
Proof.
  intros Hwf. unfold CallManager.cleanup_client_calls.
  pose proof (cleanup_own_call_wf cm c Hwf) as H1.
  pose proof (cleanup_own_call_unmarked cm c Hwf) as H2.
  destruct (CallManager.cleanup_own_call cm c) as [own cm1]. cbn in H1, H2.
  destruct (cleanup_incoming_wf cm1 H1) as (H3 & H4 & H5).
  destruct (CallManager.cleanup_incoming cm1 c) as [incoming cm2]. cbn in *. auto.
Qed.
End incoming.

(** ** More on dropping and on links *)

Section drop_cases.
Context {HO : HashOrder}.

Lemma drop_joined_cases cm id c t reason :
  cm_wf cm ->
  (CallManager.drop_joined_participant cm id c t reason).2 = cm \/
  exists a d, active_calls cm !! id = Some a /\ ace_participants a !! d = Some t /\
    ace_conference_leader a = Some c /\ d <> c /\ reason = Requested /\
    (CallManager.drop_joined_participant cm id c t reason).2 = leave_call cm id a d /\
    (forall c', client_active_calls (leave_call cm id a d) !! c' =
       if decide (c' = d) then None else client_active_calls cm !! c').
Proof.
  intros Hwf.
  destruct (active_calls cm !! id) as [a|] eqn:Ha;
    [|left; rewrite drop_joined_refused; naive_solver].
  destruct (CallManager.find_participant a t) as [d|] eqn:Hd;
    [|left; rewrite drop_joined_refused; naive_solver].
  destruct (may_drop a c d reason) eqn:Hmay; [|left; rewrite drop_joined_refused; naive_solver].
  right. exists a, d. rewrite (drop_joined_permitted _ _ _ _ _ a d) by done.
  apply find_participant_Some in Hd. unfold may_drop in Hmay.
  rewrite !andb_true_iff, !negb_true_iff, bool_decide_eq_true, !bool_decide_eq_false in Hmay.
  destruct Hmay as [[[Hreason Hne] _] Hl]. do 4 (split; [done|]).
  split; [by destruct reason|]. split; [done|]. intros c'. cbn.
  case_decide as Hc; [subst; apply lookup_delete_eq|by apply lookup_delete_ne].
Qed.

Lemma record_link_report_confirmed a x y now :
  x <> y ->
  (ActiveCallEntry.record_link_report a x y now).2 =
    match ace_link_reports a !! ActiveCallEntry.link_key x y with
    | Some rep => bool_decide (y ∈ lr_reporters rep)
        && (duration_since now (lr_refreshed_at rep) <? LINK_REPORT_TTL)%N
    | None => false
    end.
Proof.
  intros Hne. unfold ActiveCallEntry.record_link_report, ActiveCallEntry.record_link_report_at. cbn.
  destruct (ace_link_reports a !! ActiveCallEntry.link_key x y) as [rep|]; cbn.
  - destruct (N.leb_spec LINK_REPORT_TTL (duration_since now (lr_refreshed_at rep))) as [H|H].
    + rewrite (proj2 (N.ltb_ge _ _)) by done. rewrite andb_false_r.
      apply bool_decide_eq_false. cbn. set_solver.
    + rewrite (proj2 (N.ltb_lt _ _)) by done. rewrite andb_true_r.
      apply bool_decide_ext. set_solver.
  - apply bool_decide_eq_false. case_match; cbn; set_solver.
Qed.

(** A disconnecting participant leaves its call as if it had ended it. *)
Lemma cleanup_own_as_end cm c id :
  cm_wf cm -> client_active_calls cm !! c = Some id ->
  (CallManager.cleanup_own_call cm c).2 = (CallManager.end_call cm id c).2.
Proof.
  intros Hwf Hm. rewrite cleanup_own_call_spec by done. unfold own_call_spec. rewrite Hm.
  destruct (active_calls cm !! id) as [a|] eqn:Ha.
  - apply (active_marker cm id a) in Hm; [|done..].
    destruct (closes a c) eqn:Hcl.
    + by rewrite (end_call_closes cm id c Hwf a).
    + by rewrite (end_call_leaves cm id c Hwf a).
  - apply (wf_markers _ Hwf) in Hm as [(?&?&_)|(r & Hr & Hc)]; [congruence|].
    by rewrite (end_call_outgoing cm id c Hwf r).
Qed.
End drop_cases.
