(* ===== verification/CallJoin.v ===== *)
(** CallJoin: inviting and accepting: what the two operations do to the tables,
    and that they keep them well formed. *)
From stdpp Require Import prelude gmap strings list.
From Stdlib Require Import NArith.
From S2P Require Import Prelude Protocol Calls CallManager CallTables CallInvariant.

(** The ringing entry of the call once [target] was added to it. *)
Definition invite_entry (r : option RingingCallEntry) (id : CallId) (caller : ClientId)
    (source : CallSource) (target : CallTarget) (notified : gset ClientId) (now : Instant) :
    RingingCallEntry :=
  match r with
  | Some r => RingingCallEntry.add_target r source target notified now
  | None => RingingCallEntry.new id caller source target notified now
  end.

(** The active entry of the call once [c] joined it through the target [t]. *)
Definition join_entry (a : option ActiveCallEntry) (id : CallId) (caller : ClientId)
    (source : CallSource) (t : CallTarget) (c : ClientId) (now : Instant) : ActiveCallEntry :=
  match a with
  | Some a =>
    let a := ActiveCallEntry.record_join
      (set_participants a (<[c := t]> (ace_participants a))) c in
    let a := set_guard a (record_participants (ace_guard a) (size (ace_participants a))) in
    match ace_conference_leader a with
    | None => set_leader a (Some (source_client_id source))
    | Some _ => a
    end
  | None =>
    ActiveCallEntry.record_join
      (ActiveCallEntry.record_join
         (ActiveCallEntry.new id None (<[caller := call_target_of_source source]> {[c := t]}) now)
         caller) c
  end.

Section join_defs.
Context {HO : HashOrder}.

(** The tables once [c] accepted through the target [t], with entry [e]. *)
Definition accepted (cm : CallManager) (id : CallId) (r : RingingCallEntry) (t : CallTarget)
    (e : RingingTargetEntry) (c : ClientId) (now : Instant) : CallManager :=
  mkCallManager
    (if bool_decide (delete t (rce_targets r) = ∅) then delete id (ringing_calls cm)
     else <[id := set_targets r (delete t (rce_targets r))]> (ringing_calls cm))
    (<[id := join_entry (active_calls cm !! id) id (rce_caller_id r) (rte_source e) t c now]>
       (active_calls cm))
    (foldl (incoming_remove id) (client_incoming_calls cm) (set_iter (rte_notified_clients e)))
    (<[c := id]> (client_active_calls cm)) (max_conf_size cm).

(** The tables once the call rings at a new target. *)
Definition invited_state (cm : CallManager) (id : CallId) (caller : ClientId)
    (source : CallSource) (target : CallTarget) (notified : gset ClientId) (now : Instant) :
    CallManager :=
  mkCallManager
    (<[id := invite_entry (ringing_calls cm !! id) id caller source target notified now]>
       (ringing_calls cm))
    (active_calls cm)
    (foldl (incoming_insert id target) (client_incoming_calls cm) (set_iter notified))
    (<[caller := id]> (client_active_calls cm)) (max_conf_size cm).
End join_defs.

(** What [validate_call_attempt] lets through. *)
Record may_invite (cm : CallManager) (id : CallId) (caller : ClientId) (target : CallTarget)
    (notified : gset ClientId) : Prop := {
  mi_member : client_active_calls cm !! caller = Some id \/
    (client_active_calls cm !! caller = None /\ ringing_calls cm !! id = None /\
     active_calls cm !! id = None);
  mi_leader : forall a l, active_calls cm !! id = Some a -> ace_conference_leader a = Some l ->
    l = caller;
  mi_caller : forall r, ringing_calls cm !! id = Some r -> rce_caller_id r = caller;
  mi_target : forall a c t, active_calls cm !! id = Some a -> ace_participants a !! c = Some t ->
    t <> target /\ c ∉ notified;
  mi_ringing : forall r, ringing_calls cm !! id = Some r -> rce_targets r !! target = None;
  mi_callees : forall r t c, ringing_calls cm !! id = Some r -> rings (Some r) t c -> c ∉ notified
}.

(** ** Inviting *)

Section invite.
Context {HO : HashOrder}.

Lemma validate_rung_ok r caller target notified :
  CallManager.validate_rung (Some r) caller target notified = Ok () <->
  rce_caller_id r = caller /\ rce_targets r !! target = None /\
  forall t c, rings (Some r) t c -> c ∉ notified.
Proof.
  unfold CallManager.validate_rung. case_bool_decide as Hc; cbn [negb]; [|naive_solver].
  case_bool_decide as Ht; [by destruct Ht as [? ->]; naive_solver|].
  apply eq_None_not_Some in Ht.
  destruct (map_find_map _ _) as [d|] eqn:Hf.
  - split; [done|]. intros (_ & _ & H).
    apply map_find_map_Some in Hf as (t & e & He & Hf).
    apply list_find_map_Some in Hf as (c & Hin & Hf). case_bool_decide as Hce; simplify_eq.
    apply elem_of_set_iter in Hin. destruct (H t d); [|done]. apply rings_Some. eauto.
  - split; [|done]. intros _. split; [done|split; [done|]].
    intros t c (e & He & Hce)%rings_Some Hin.
    apply (proj1 (map_find_map_None _ _)) with (k := t) (v := e) in Hf; [|done].
    apply (proj1 (list_find_map_None _ _)) with (x := c) in Hf; [|by apply elem_of_set_iter].
    by rewrite bool_decide_eq_true_2 in Hf.
Qed.

Lemma validate_joined_ok a caller target notified :
  CallManager.validate_joined (Some a) caller target notified = Ok () <->
  (forall l, ace_conference_leader a = Some l -> l = caller) /\
  (forall c t, ace_participants a !! c = Some t -> t <> target /\ c ∉ notified).
Proof.
  unfold CallManager.validate_joined.
  destruct (match ace_conference_leader a with Some _ => _ | None => _ end) eqn:Hl.
  { split; [done|]. intros [H _]. destruct (ace_conference_leader a) as [l|]; [|done].
    apply negb_true_iff, bool_decide_eq_false in Hl. naive_solver. }
  match goal with |- context [map_any ?f ?m] => destruct (map_any f m) eqn:Hp end.
  { split; [done|]. intros [_ H]. apply map_any_true in Hp as (c & t & Hc & Hp).
    destruct (H c t Hc) as [Ht Hcn]. rewrite bool_decide_eq_false_2 in Hp by done.
    apply existsb_exists in Hp as (c' & Hin & Heq). apply bool_decide_eq_true in Heq as <-.
    apply list_elem_of_In, elem_of_set_iter in Hin. done. }
  assert (forall c t, ace_participants a !! c = Some t -> t <> target /\ c ∉ notified) as Hno.
  { intros c t Hc. apply (proj1 (map_any_false _ _)) with (k := c) (v := t) in Hp; [|done].
    apply orb_false_iff in Hp as [Ht Hcn]. apply bool_decide_eq_false in Ht. split; [done|].
    intros Hin. apply not_true_iff_false in Hcn. apply Hcn, existsb_exists. exists c.
    split; [by apply list_elem_of_In, elem_of_set_iter|by apply bool_decide_eq_true]. }
  rewrite bool_decide_eq_false_2.
  2: { intros Hin%elem_of_list_to_set%elem_of_map_values. destruct Hin as [c Hc].
       by destruct (Hno c target Hc). }
  split; [|done]. intros _. split; [|done]. intros l Hlead. rewrite Hlead in Hl.
  by apply negb_false_iff, bool_decide_eq_true in Hl.
Qed.

Lemma validate_joined_none caller target notified :
  CallManager.validate_joined None caller target notified = Ok ().
Proof. unfold CallManager.validate_joined. by rewrite bool_decide_eq_false_2 by set_solver. Qed.

(** The attempt is let through exactly when [may_invite] holds. *)
Lemma validate_ok cm id caller target notified :
  CallManager.validate_call_attempt cm id caller target notified = Ok () <->
  may_invite cm id caller target notified.
Proof.
  unfold CallManager.validate_call_attempt.
  destruct (client_active_calls cm !! caller) as [id'|] eqn:Hm.
  - case_bool_decide as Hid; cbn [negb].
    2: { split; [done|]. intros [[H|(H & _)] _ _ _ _ _]; congruence. }
    subst id'. destruct (active_calls cm !! id) as [a|] eqn:Ha.
    + destruct (CallManager.validate_joined _ _ _ _) as [[]|] eqn:Hj.
      * apply validate_joined_ok in Hj as [Hl Hp].
        destruct (ringing_calls cm !! id) as [r|] eqn:Hr.
        -- rewrite validate_rung_ok. split; [intros (H1 & H2 & H3)|intros []].
           ++ split; rewrite ?Ha, ?Hr; naive_solver.
           ++ naive_solver.
        -- split; [|done]. split; rewrite ?Ha, ?Hr; naive_solver.
      * split; [done|]. intros H. exfalso.
        assert (CallManager.validate_joined (Some a) caller target notified = Ok ()) as Hok.
        { apply validate_joined_ok.
          split; [intros l Hl; by eapply (mi_leader _ _ _ _ _ H)|].
          intros c t Hc. by eapply (mi_target _ _ _ _ _ H). }
        congruence.
    + rewrite validate_joined_none.
      destruct (ringing_calls cm !! id) as [r|] eqn:Hr.
      * rewrite validate_rung_ok. split; [intros (H1 & H2 & H3)|intros []].
        -- split; rewrite ?Ha, ?Hr; naive_solver.
        -- naive_solver.
      * split; [|done]. split; rewrite ?Ha, ?Hr; naive_solver.
  - case_bool_decide as Ha.
    { split; [done|]. intros [[H|(_ & _ & H)] _ _ _ _ _]; [congruence|].
      rewrite H in Ha. by destruct Ha. }
    case_bool_decide as Hr.
    { split; [done|]. intros [[H|(_ & H & _)] _ _ _ _ _]; [congruence|].
      rewrite H in Hr. by destruct Hr. }
    apply eq_None_not_Some in Ha, Hr. split; [|done]. intros _.
    split; rewrite ?Ha, ?Hr; naive_solver.
Qed.

Lemma attempt_call_state cm id caller source target notified now :
  may_invite cm id caller target notified ->
  (CallManager.attempt_call cm id caller source target notified now).2 =
    invited_state cm id caller source target notified now.
Proof.
  intros Hmay. unfold CallManager.attempt_call. apply validate_ok in Hmay as ->.
  unfold invited_state, invite_entry. by destruct (ringing_calls cm !! id).
Qed.

Lemma attempt_call_refused cm id caller source target notified now e :
  CallManager.validate_call_attempt cm id caller target notified = Err e ->
  CallManager.attempt_call cm id caller source target notified now = (Err e, cm).
Proof. intros H. unfold CallManager.attempt_call. by rewrite H. Qed.

Lemma invite_entry_fields r id caller source target notified now :
  let e := RingingTargetEntry.new source notified now in
  let r' := invite_entry r id caller source target notified now in
  rce_targets r' = <[target := e]> (match r with Some r => rce_targets r | None => ∅ end) /\
  rce_caller_id r' = (match r with Some r => rce_caller_id r | None => caller end) /\
  rce_call_id r' = (match r with Some r => rce_call_id r | None => id end).
Proof. by destruct r. Qed.

Lemma invite_entry_rings r id caller source target notified now t c :
  (forall r', r = Some r' -> rce_targets r' !! target = None) ->
  rings (Some (invite_entry r id caller source target notified now)) t c <->
  (t = target /\ c ∈ notified) \/ rings r t c.
Proof.
  intros Hnew. rewrite rings_Some.
  destruct (invite_entry_fields r id caller source target notified now) as (-> & _ & _).
  split.
  - intros (e & [[<- <-]|[Hne He]]%lookup_insert_Some & Hc); [by left|].
    right. destruct r as [r|]; [|by rewrite lookup_empty in He]. exists r, e. done.
  - intros [[-> Hc]|(r' & e & -> & He & Hc)].
    + eexists. split; [apply lookup_insert_eq|done].
    + exists e. split; [|done]. rewrite lookup_insert_ne; [done|].
      intros ->. specialize (Hnew r' eq_refl). congruence.
Qed.

Section invited_wf.
Context (cm : CallManager) (id : CallId) (caller : ClientId) (source : CallSource)
  (target : CallTarget) (notified : gset ClientId) (now : Instant).
Context (Hwf : cm_wf cm) (Hmay : may_invite cm id caller target notified)
  (Hsource : source_client_id source = caller) (Hnotified : notified <> ∅)
  (Hcaller : caller ∉ notified).

Let r' := invite_entry (ringing_calls cm !! id) id caller source target notified now.

Lemma invited_caller : rce_caller_id r' = caller.
Proof.
  unfold r'. destruct (invite_entry_fields (ringing_calls cm !! id) id caller source target
    notified now) as (_ & -> & _).
  destruct (ringing_calls cm !! id) as [r|] eqn:Hr; [|done]. by apply (mi_caller _ _ _ _ _ Hmay).
Qed.

Lemma invited_rings t c :
  rings (Some r') t c <-> (t = target /\ c ∈ notified) \/ rings (ringing_calls cm !! id) t c.
Proof.
  apply invite_entry_rings. apply (mi_ringing _ _ _ _ _ Hmay).
Qed.

(** A client that the call already rings is not called again. *)
Lemma invited_fresh t c : rings (ringing_calls cm !! id) t c -> c ∉ notified.
Proof.
  intros Hr. pose proof Hr as (r & e & E & _). rewrite E in Hr.
  by apply (mi_callees _ _ _ _ _ Hmay r t).
Qed.

Lemma invited_ringing_ok : ringing_ok id r'.
Proof.
  destruct (invite_entry_fields (ringing_calls cm !! id) id caller source target
    notified now) as (Ht & _ & Hid). fold r' in Ht, Hid. split.
  - rewrite Hid. destruct (ringing_calls cm !! id) eqn:Hr; [|done].
    by apply (wf_ringing_ok _ Hwf).
  - rewrite Ht. apply insert_non_empty.
  - intros t e. rewrite Ht, invited_caller, lookup_insert_Some. intros [[<- <-]|[Hne He]].
    + split; cbn; [done..|set_solver].
    + destruct (ringing_calls cm !! id) as [r|] eqn:Hr; [|by rewrite lookup_empty in He].
      pose proof (mi_caller _ _ _ _ _ Hmay r Hr) as <-.
      apply (ro_targets id r (wf_ringing_ok _ Hwf _ _ Hr) t e He).
  - intros t1 t2 c [[-> H1]|H1]%invited_rings [[-> H2]|H2]%invited_rings; [done| | |].
    + by destruct (invited_fresh t2 c).
    + by destruct (invited_fresh t1 c).
    + destruct (ringing_calls cm !! id) as [r|] eqn:Hr; [|by apply rings_None in H1].
      by apply (ro_disjoint _ _ (wf_ringing_ok _ Hwf _ _ Hr) t1 t2 c).
Qed.

(** Who the call occupies does not change, but for the caller. *)
Lemma invited_occupies c :
  occupies (Some r') (active_calls cm !! id) c <->
  c = caller \/ occupies (ringing_calls cm !! id) (active_calls cm !! id) c.
Proof.
  unfold occupies. split.
  - intros [H|(? & [= <-] & <-)]; [by right; left|]. left. apply invited_caller.
  - intros [->|[H|(r & Hr & <-)]].
    + right. exists r'. split; [done|apply invited_caller].
    + by left.
    + right. exists r'. split; [done|]. rewrite invited_caller. symmetry.
      by apply (mi_caller _ _ _ _ _ Hmay).
Qed.

Lemma invited_marker : client_active_calls cm !! caller = Some id \/
  client_active_calls cm !! caller = None.
Proof. destruct (mi_member _ _ _ _ _ Hmay) as [|(? & _)]; auto. Qed.

Lemma invited_wf : cm_wf (invited_state cm id caller source target notified now).
Proof.
  pose proof (wf_calls _ Hwf id) as Hok.
  apply (cm_wf_update cm _ id); [done| | | | | | | |]; cbn; fold r'.
  - intros id' Hne. by rewrite lookup_insert_ne.
  - done.
  - rewrite lookup_insert_eq. split.
    + intros ? [= <-]. apply invited_ringing_ok.
    + apply Hok.
    + intros ? a [= <-] Ha. rewrite invited_caller.
      destruct (mi_member _ _ _ _ _ Hmay) as [Hm|(_ & _ & ?)]; [|congruence].
      by apply (active_marker cm id a).
    + intros ? a l [= <-] Ha Hl. rewrite invited_caller. by apply (mi_leader _ _ _ _ _ Hmay a).
    + intros ? a t c [= <-] Ha [[-> Hc]|Hr]%invited_rings.
      * destruct (ace_participants a !! c) as [t|] eqn:Hp; [|done].
        by destruct (mi_target _ _ _ _ _ Hmay a c t Ha Hp).
      * destruct (ringing_calls cm !! id) as [r|] eqn:Er; [|by apply rings_None in Hr].
        by apply (co_fresh _ _ _ Hok r a t).
  - intros c. rewrite !lookup_insert_eq, invited_occupies.
    rewrite <- (wf_markers _ Hwf). destruct (decide (c = caller)) as [->|Hne].
    + rewrite lookup_insert_eq. naive_solver.
    + rewrite lookup_insert_ne by done. naive_solver.
  - intros c id' Hne. destruct (decide (c = caller)) as [->|Hc].
    + rewrite lookup_insert_eq. destruct invited_marker; split; intros; congruence.
    + by rewrite lookup_insert_ne.
  - intros c t. rewrite lookup_insert_eq, invited_rings, incoming_lookup_insert_all.
    rewrite <- (wf_incoming _ Hwf). pose proof (wf_incoming _ Hwf c id t) as Hi.
    case_decide as Hd; rewrite elem_of_set_iter in Hd; [|naive_solver].
    split; [naive_solver|]. intros [[-> _]|Hin]; [done|].
    apply Hi, invited_fresh in Hin. naive_solver.
  - intros c id' Hne. rewrite incoming_lookup_insert_all. by rewrite decide_False by naive_solver.
  - apply rows_ok_insert_all, Hwf.
Qed.
End invited_wf.

Lemma attempt_call_wf cm id caller source target notified now :
  cm_wf cm -> source_client_id source = caller -> notified <> ∅ -> caller ∉ notified ->
  cm_wf (CallManager.attempt_call cm id caller source target notified now).2.
Proof.
  intros Hwf Hs Hn Hc.
  destruct (CallManager.validate_call_attempt cm id caller target notified) as [[]|e] eqn:Hv.
  - apply validate_ok in Hv. rewrite attempt_call_state by done. by apply invited_wf.
  - by rewrite (attempt_call_refused _ _ _ _ _ _ _ e).
Qed.
End invite.

(** ** Accepting *)

Section join_entry.
Context (a : option ActiveCallEntry) (id : CallId) (caller : ClientId) (source : CallSource)
  (t : CallTarget) (c : ClientId) (now : Instant).

Lemma join_entry_id : ace_call_id (join_entry a id caller source t c now) =
  match a with Some a => ace_call_id a | None => id end.
Proof. destruct a as [[? [] ? ? ? ? ? ?]|]; done. Qed.

Lemma join_entry_participants : ace_participants (join_entry a id caller source t c now) =
  match a with
  | Some a => <[c := t]> (ace_participants a)
  | None => <[caller := call_target_of_source source]> {[c := t]}
  end.
Proof. destruct a as [[? [] ? ? ? ? ? ?]|]; done. Qed.

Lemma join_entry_leader : ace_conference_leader (join_entry a id caller source t c now) =
  match a with
  | Some a =>
    match ace_conference_leader a with
    | Some l => Some l
    | None => Some (source_client_id source)
    end
  | None => None
  end.
Proof. destruct a as [[? [] ? ? ? ? ? ?]|]; done. Qed.

Lemma join_entry_joins : ace_join_order (join_entry a id caller source t c now) =
  match a with
  | Some a => <[c := ace_next_join_seq a]> (ace_join_order a)
  | None => <[c := 1%N]> (<[caller := 0%N]> ∅)
  end.
Proof. destruct a as [[? [] ? ? ? ? ? ?]|]; done. Qed.

Lemma join_entry_links : ace_link_reports (join_entry a id caller source t c now) =
  match a with Some a => ace_link_reports a | None => ∅ end.
Proof. destruct a as [[? [] ? ? ? ? ? ?]|]; done. Qed.
End join_entry.

Section accept.
Context {HO : HashOrder}.

Lemma accept_retain_kept id caller c t e acc :
  (CallManager.accept_retain id caller c t e acc).1 =
    if bool_decide (c ∈ rte_notified_clients e) then None else Some e.
Proof.
  unfold CallManager.accept_retain, RingingTargetEntry.has_notified_client. by case_bool_decide.
Qed.

Lemma accept_retain_idle id caller c targets :
  (forall t e, targets !! t = Some e -> c ∉ rte_notified_clients e) ->
  map_retain (CallManager.accept_retain id caller c) targets None = (targets, None).
Proof.
  intros Hno. set (f := CallManager.accept_retain _ _ _).
  assert (forall t e a, targets !! t = Some e -> f t e a = (Some e, a)) as Hf.
  { intros t e a He. subst f. unfold CallManager.accept_retain.
    unfold RingingTargetEntry.has_notified_client.
    by rewrite bool_decide_eq_false_2 by (by eapply Hno). }
  rewrite (surjective_pairing (map_retain f targets None)). f_equal.
  - apply map_eq. intros t.
    rewrite (map_retain_lookup f (λ t e, (f t e None).1)).
    + destruct (targets !! t) as [e|] eqn:He; [|done]. cbn. by rewrite Hf.
    + intros t' e a. unfold f. by rewrite !accept_retain_kept.
  - rewrite (map_retain_acc f (λ t e a, (f t e a).2)) by done.
    apply foldl_map_iter_inert. intros t e a He. cbn. by rewrite Hf.
Qed.

Lemma accept_retain_single id caller c targets t e :
  targets !! t = Some e -> c ∈ rte_notified_clients e ->
  (forall t' e', targets !! t' = Some e' -> c ∈ rte_notified_clients e' -> t' = t) ->
  map_retain (CallManager.accept_retain id caller c) targets None =
    (delete t targets,
     Some (mkRingingTarget id caller (rte_source e) t (rte_notified_clients e))).
Proof.
  intros He Hc Huniq. set (f := CallManager.accept_retain _ _ _).
  assert (forall t' e' a, targets !! t' = Some e' -> t' <> t -> f t' e' a = (Some e', a)) as Hf.
  { intros t' e' a He' Hne. subst f. unfold CallManager.accept_retain.
    unfold RingingTargetEntry.has_notified_client.
    rewrite bool_decide_eq_false_2; [done|]. intros Hc'. by apply Hne, (Huniq _ e'). }
  assert (f t e None =
    (None, Some (mkRingingTarget id caller (rte_source e) t (rte_notified_clients e)))) as Hft.
  { subst f. unfold CallManager.accept_retain, RingingTargetEntry.has_notified_client.
    by rewrite bool_decide_eq_true_2. }
  rewrite (surjective_pairing (map_retain f targets None)). f_equal.
  - apply map_eq. intros t'.
    rewrite (map_retain_lookup f (λ t e, (f t e None).1)).
    + destruct (decide (t' = t)) as [->|Hne].
      * rewrite He, lookup_delete_eq. cbn. by rewrite Hft.
      * rewrite lookup_delete_ne by done.
        destruct (targets !! t') as [e'|] eqn:He'; [|done]. cbn. by rewrite Hf.
    + intros t'' e'' a. unfold f. by rewrite !accept_retain_kept.
  - rewrite (map_retain_acc f (λ t e a, (f t e a).2)) by done.
    rewrite (foldl_map_iter_single _ _ _ t e) by
      (try done; intros t' e' a He' Hne; cbn; by rewrite Hf).
    cbn. by rewrite Hft.
Qed.

(** A busy client does not join anything. *)
Lemma accept_call_busy cm id c now :
  is_Some (client_active_calls cm !! c) ->
  CallManager.accept_call cm id c now = (AcceptorBusy, cm).
Proof. intros H. unfold CallManager.accept_call. by rewrite bool_decide_eq_true_2. Qed.

(** A client the call does not ring joins nothing. *)
Lemma accept_call_not_rung cm id c now :
  cm_wf cm -> client_active_calls cm !! c = None ->
  (forall t, ~ rings (ringing_calls cm !! id) t c) ->
  CallManager.accept_call cm id c now = (AcceptNotFound, cm).
Proof.
  intros Hwf Hm Hno. unfold CallManager.accept_call.
  rewrite bool_decide_eq_false_2 by (rewrite Hm; by intros [? ?]).
  destruct (ringing_calls cm !! id) as [r|] eqn:Hr; [|done].
  rewrite accept_retain_idle.
  2: { intros t e He Hc. apply (Hno t), rings_Some. eauto. }
  pose proof (ro_nonempty _ _ (wf_ringing_ok _ Hwf _ _ Hr)) as Hne.
  rewrite bool_decide_eq_false_2 by done. rewrite set_targets_id. f_equal.
  unfold set_ringing. rewrite insert_id by done. by destruct cm.
Qed.

(** A client that target [t] rings joins the call. *)
Lemma accept_call_state cm id c now r t e :
  cm_wf cm -> client_active_calls cm !! c = None -> ringing_calls cm !! id = Some r ->
  rce_targets r !! t = Some e -> c ∈ rte_notified_clients e ->
  let a' := join_entry (active_calls cm !! id) id (rce_caller_id r) (rte_source e) t c now in
  CallManager.accept_call cm id c now =
    (AcceptedCall
       (mkRingingTarget id (rce_caller_id r) (rte_source e) t (rte_notified_clients e))
       (mkUpdateParticipants id
          (RingingCallEntry.invited_participants (set_targets r (delete t (rce_targets r))))
          (ace_participants a') (ace_conference_leader a')),
     accepted cm id r t e c now).
Proof.
  intros Hwf Hm Hr He Hc a'. pose proof (wf_ringing_ok _ Hwf _ _ Hr) as Hok.
  unfold CallManager.accept_call.
  rewrite bool_decide_eq_false_2 by (rewrite Hm; by intros [? ?]). rewrite Hr.
  rewrite (accept_retain_single _ _ _ _ t e) by
    (try done; intros t' e' He' Hc'; apply (ro_disjoint _ _ Hok t' t c); apply rings_Some; eauto).
  unfold CallManager.accept_active. cbn [active_calls set_ringing set_incoming].
  unfold accepted. fold a'. unfold a', join_entry.
  destruct (active_calls cm !! id) as [a|] eqn:Ha; [|done]. cbn.
  by destruct (ace_conference_leader a) eqn:Hl; cbn; rewrite ?Hl.
Qed.

Section accepted_wf.
Context (cm : CallManager) (id : CallId) (r : RingingCallEntry) (t : CallTarget)
  (e : RingingTargetEntry) (c : ClientId) (now : Instant).
Context (Hwf : cm_wf cm) (Hm : client_active_calls cm !! c = None)
  (Hr : ringing_calls cm !! id = Some r) (He : rce_targets r !! t = Some e)
  (Hc : c ∈ rte_notified_clients e).

Let a' := join_entry (active_calls cm !! id) id (rce_caller_id r) (rte_source e) t c now.

Lemma accepted_target_ok : target_ok (rce_caller_id r) e.
Proof. by apply (ro_targets _ _ (wf_ringing_ok _ Hwf _ _ Hr) t). Qed.

Lemma accepted_not_caller : c <> rce_caller_id r.
Proof. intros Heq. apply (to_caller _ _ accepted_target_ok). by rewrite <- Heq. Qed.

Lemma accepted_not_participant a : active_calls cm !! id = Some a -> ace_participants a !! c = None.
Proof.
  intros Ha. destruct (ace_participants a !! c) as [t'|] eqn:E; [|done].
  assert (client_active_calls cm !! c = Some id) by (eapply active_marker; eauto). congruence.
Qed.

(** Who participates after the acceptance. *)
Lemma accepted_participants c' :
  is_Some (ace_participants a' !! c') <->
  c' = c \/ occupies (ringing_calls cm !! id) (active_calls cm !! id) c'.
Proof.
  unfold a'. rewrite join_entry_participants. pose proof (wf_calls _ Hwf id) as Hok.
  rewrite Hr in Hok |- *. unfold occupies.
  destruct (active_calls cm !! id) as [a|] eqn:Ha; rewrite lookup_insert_is_Some.
  - split.
    + intros [->|[_ H]]; [by left|]. right. left. eauto.
    + intros H. destruct (decide (c = c')) as [->|Hne]; [by left|]. right. split; [done|].
      destruct H as [->|[(? & [= <-] & H)|(? & [= <-] & <-)]]; [done..|].
      by apply (co_caller _ _ _ Hok).
  - rewrite lookup_singleton_is_Some. split.
    + intros [Heq|[_ ->]]; [right; right; eauto|by left].
    + intros [->|[(?&?&_)|(? & [= <-] & <-)]]; [|done|by left].
      destruct (decide (rce_caller_id r = c)); [by left|by right].
Qed.

Lemma accepted_active_ok : active_ok id a'.
Proof.
  pose proof accepted_not_caller as Hne. pose proof (wf_calls _ Hwf id) as Hcall.
  pose proof accepted_target_ok as Hte.
  unfold a'. destruct (active_calls cm !! id) as [a|] eqn:Ha.
  - pose proof (wf_active_ok _ Hwf _ _ Ha) as Hok.
    pose proof (accepted_not_participant a Ha) as Hnew.
    pose proof (ao_size _ _ Hok) as Hsize. pose proof (ao_leader _ _ Hok) as Hl.
    split; rewrite ?join_entry_id, ?join_entry_participants, ?join_entry_leader,
      ?join_entry_joins, ?join_entry_links.
    + apply Hok.
    + rewrite map_size_insert_None by done. lia.
    + rewrite map_size_insert_None by done. rewrite Hr in Hcall.
      destruct (ace_conference_leader a) as [l|].
      * split; [|lia]. apply lookup_insert_is_Some'. right; apply Hl.
      * rewrite (to_source _ _ Hte). split; [|lia]. apply lookup_insert_is_Some'. right.
        by apply (co_caller _ _ _ Hcall).
    + intros c'. rewrite !lookup_insert_is_Some', (ao_joins _ _ Hok). done.
    + intros x y rep Hrep. destruct (ao_links _ _ Hok _ _ _ Hrep) as (? & ? & ?).
      split; [|split; [|done]]; apply lookup_insert_is_Some'; by right.
  - split; rewrite ?join_entry_id, ?join_entry_participants, ?join_entry_leader,
      ?join_entry_joins, ?join_entry_links.
    + done.
    + rewrite map_size_insert_None; [by rewrite map_size_singleton|].
      by rewrite lookup_singleton_ne.
    + rewrite map_size_insert_None; [by rewrite map_size_singleton|].
      by rewrite lookup_singleton_ne.
    + intros c'. rewrite !lookup_insert_is_Some', !lookup_singleton_is_Some.
      rewrite lookup_empty. split; [intros [|[|[? ?]]]|intros []]; auto; done.
    + done.
Qed.

Lemma accepted_rings t' c' :
  rings (ringing_calls (accepted cm id r t e c now) !! id) t' c' <->
  rings (Some r) t' c' /\ c' ∉ rte_notified_clients e.
Proof.
  rewrite <- (delete_target_rings id r t e) by (try done; by apply (wf_ringing_ok _ Hwf)).
  cbn. case_bool_decide as Hempty; [|by rewrite lookup_insert_eq].
  rewrite lookup_delete_eq. split; [by intros ?%rings_None|].
  intros (? & H & _)%rings_Some. cbn in H. by rewrite Hempty, lookup_empty in H.
Qed.

Lemma accepted_ringing r' :
  ringing_calls (accepted cm id r t e c now) !! id = Some r' ->
  rce_caller_id r' = rce_caller_id r /\ ringing_ok id r'.
Proof.
  cbn. case_bool_decide as Hempty; [by rewrite lookup_delete_eq|].
  rewrite lookup_insert_eq. intros [= <-]. split; [done|].
  pose proof (wf_ringing_ok _ Hwf _ _ Hr) as Hok.
  apply shrink_ringing_ok; [done| |done]. apply (submap_shrinks id); [done|].
  apply delete_subseteq.
Qed.

Lemma accepted_call_ok :
  call_ok id (ringing_calls (accepted cm id r t e c now) !! id) (Some a').
Proof.
  pose proof (wf_calls _ Hwf id) as Hcall. rewrite Hr in Hcall.
  split.
  - intros r' Hr'. by apply accepted_ringing.
  - intros ? [= <-]. apply accepted_active_ok.
  - intros r' ? [-> _]%accepted_ringing [= <-]. apply accepted_participants. right. rewrite Hr.
    apply occupies_caller.
  - intros r' ? l [-> _]%accepted_ringing [= <-]. unfold a'. rewrite join_entry_leader.
    destruct (active_calls cm !! id) as [a|] eqn:Ha; [|done].
    destruct (ace_conference_leader a) as [l'|] eqn:El; intros [= <-].
    + by apply (co_leader _ _ _ Hcall r a).
    + apply (to_source _ _ accepted_target_ok).
  - intros r' ? t' c' Hr' [= <-] Hring. rewrite <- Hr' in Hring.
    apply accepted_rings in Hring as [Hring Hn].
    apply eq_None_not_Some. rewrite accepted_participants, Hr.
    intros [->|[(a & Ha & Hp)|(? & [= <-] & <-)]]; [done| |].
    + rewrite Ha in Hcall. rewrite (co_fresh _ _ _ Hcall r a t' c') in Hp by done. by destruct Hp.
    + apply rings_Some in Hring as (e' & He' & Hc').
      apply (to_caller _ _ (ro_targets _ _ (wf_ringing_ok _ Hwf _ _ Hr) t' e' He')).
      done.
Qed.

Lemma accepted_wf : cm_wf (accepted cm id r t e c now).
Proof.
  apply (cm_wf_update cm _ id); [done| | | | | | | |]; cbn [accepted active_calls
    client_active_calls client_incoming_calls].
  - intros id' Hne. cbn. case_bool_decide; [by apply lookup_delete_ne|by apply lookup_insert_ne].
  - intros id' Hne. by rewrite lookup_insert_ne.
  - rewrite lookup_insert_eq. apply accepted_call_ok.
  - intros c'. rewrite lookup_insert_eq. fold a'.
    assert (occupies (ringing_calls (accepted cm id r t e c now) !! id) (Some a') c' <->
      is_Some (ace_participants a' !! c')) as ->.
    { split; [|by auto with vacs]. intros [(? & [= <-] & ?)|(r' & Hr' & <-)]; [done|].
      by apply (co_caller _ _ _ accepted_call_ok). }
    rewrite accepted_participants, <- (wf_markers _ Hwf).
    destruct (decide (c' = c)) as [->|Hne].
    + rewrite lookup_insert_eq. naive_solver.
    + rewrite lookup_insert_ne by done. naive_solver.
  - intros c' id' Hne. destruct (decide (c' = c)) as [->|Hne'].
    + rewrite lookup_insert_eq. split; intros; congruence.
    + by rewrite lookup_insert_ne.
  - intros c' t'. rewrite accepted_rings, incoming_lookup_remove_all, <- Hr.
    rewrite <- (wf_incoming _ Hwf). case_decide as Hd; rewrite elem_of_set_iter in Hd; naive_solver.
  - intros c' id' Hne. by apply incoming_remove_other.
  - apply rows_ok_remove_all, Hwf.
Qed.
End accepted_wf.

Lemma accept_call_wf cm id c now :
  cm_wf cm -> cm_wf (CallManager.accept_call cm id c now).2.
Proof.
  intros Hwf. destruct (client_active_calls cm !! c) as [id'|] eqn:Hm.
  { rewrite accept_call_busy; [done|]. rewrite Hm. eauto. }
  destruct (incoming_lookup (client_incoming_calls cm) c id) as [t|] eqn:Hin.
  - apply (wf_incoming _ Hwf) in Hin as (r & e & Hr & He & Hc).
    rewrite (accept_call_state cm id c now r t e) by done. by apply accepted_wf.
  - rewrite accept_call_not_rung; [done..|]. intros t Ht%(wf_incoming _ Hwf). congruence.
Qed.
End accept.
