(* ===== verification/CallReach.v ===== *)
(** CallReach: the call manager as a state machine. An operation either makes
    the calls smaller, in elementary steps ([effect]), or adds a target, or
    adds a participant. From this follow the invariant of the tables on every
    run, the numbering of the participants and the size of the calls. *)
From stdpp Require Import prelude gmap strings list.
From Stdlib Require Import NArith.
From S2P Require Import Prelude Protocol Calls CallManager CallTables CallInvariant CallLeave CallJoin.

(** The operations, with what the handlers guarantee of their arguments. *)
Inductive Op :=
| OpAttempt (id : CallId) (source : CallSource) (target : CallTarget) (notified : gset ClientId)
    (now : Instant)
| OpAccept (id : CallId) (c : ClientId) (now : Instant)
| OpReject (id : CallId) (c : ClientId)
| OpFail (id : CallId) (c : ClientId) (reason : CallErrorReason)
| OpEnd (id : CallId) (c : ClientId)
| OpError (id : CallId) (c : ClientId)
| OpDrop (id : CallId) (c : ClientId) (t : CallTarget) (reason : CallDropReason)
| OpLink (id : CallId) (reporter peer : ClientId) (now : Instant)
| OpCleanup (c : ClientId).

Definition op_ok (op : Op) : Prop :=
  match op with
  | OpAttempt _ source _ notified _ => notified <> ∅ /\ source_client_id source ∉ notified
  | _ => True
  end.

(** The operations that neither invite nor accept. *)
Definition shrinking (op : Op) : Prop :=
  match op with OpAttempt _ _ _ _ _ | OpAccept _ _ _ => False | _ => True end.

(** One elementary way for the calls to become smaller. *)
Inductive effect (cm : CallManager) : CallManager -> Prop :=
| eff_shrink id r targets' incoming' :
    ringing_calls cm !! id = Some r -> shrinks_to (rce_targets r) targets' ->
    effect cm (after_shrink cm id r targets' incoming')
| eff_close id : effect cm (close_call cm id)
| eff_leave id a c :
    active_calls cm !! id = Some a -> is_Some (ace_participants a !! c) ->
    3 <= size (ace_participants a) -> effect cm (leave_call cm id a c)
| eff_link id a x y now :
    active_calls cm !! id = Some a ->
    effect cm (set_active cm
      (<[id := (ActiveCallEntry.record_link_report a x y now).1]> (active_calls cm))).

(** The places a call takes: its participants, its ringing targets, and its
    caller while nobody has accepted. *)
Definition weight (r : option RingingCallEntry) (a : option ActiveCallEntry) : nat :=
  match a with Some a => size (ace_participants a) | None => 0 end
  + match r with Some r => size (rce_targets r) | None => 0 end
  + match a, r with None, Some _ => 1 | _, _ => 0 end.

Definition call_weight (cm : CallManager) (id : CallId) : nat :=
  weight (ringing_calls cm !! id) (active_calls cm !! id).

(** The join numbers are distinct and below the counter. *)
Record joins_ok (a : ActiveCallEntry) : Prop := {
  jo_below : forall c s, ace_join_order a !! c = Some s -> (s < ace_next_join_seq a)%N;
  jo_inj : forall c1 c2 s, ace_join_order a !! c1 = Some s -> ace_join_order a !! c2 = Some s ->
    c1 = c2
}.

(** All the active calls are numbered, with counters of at most [k]. *)
Definition numbered (k : N) (cm : CallManager) : Prop :=
  forall id a, active_calls cm !! id = Some a -> joins_ok a /\ (ace_next_join_seq a <= k)%N.

Section machine.
Context {HO : HashOrder}.

Definition exec (op : Op) (cm : CallManager) : CallManager :=
  match op with
  | OpAttempt id source target notified now =>
    (CallManager.attempt_call cm id (source_client_id source) source target notified now).2
  | OpAccept id c now => (CallManager.accept_call cm id c now).2
  | OpReject id c => (CallManager.reject_call cm id c).2
  | OpFail id c reason => (CallManager.fail_ringing_recipient cm id c reason).2
  | OpEnd id c => (CallManager.end_call cm id c).2
  | OpError id c => (CallManager.call_error cm id c).2
  | OpDrop id c t reason => (CallManager.drop_target cm id c t reason).2
  | OpLink id x y now => (CallManager.report_link_failure cm id x y now).2
  | OpCleanup c => (CallManager.cleanup_client_calls cm c).2
  end.

(** [run max n cm]: the state [cm] after [n] operations on a new manager. *)
Inductive run (max : N) : nat -> CallManager -> Prop :=
| run_new : run max 0 (CallManager.new max)
| run_step n cm op : run max n cm -> op_ok op -> run max (S n) (exec op cm).
End machine.

(** ** The operations as sequences of elementary steps *)

Section effects.
Context {HO : HashOrder}.

Lemma remove_absent_id cm id c :
  cm_wf cm -> (forall t, ~ rings (ringing_calls cm !! id) t c) ->
  CallManager.remove_client_incoming_call cm id c = cm.
Proof.
  intros Hwf Hno. unfold CallManager.remove_client_incoming_call, set_incoming.
  destruct cm as [R A I M n]. f_equal. cbn.
  apply incoming_ext; [apply rows_ok_remove; apply (wf_rows _ Hwf)|apply (wf_rows _ Hwf)|].
  intros c' id'. rewrite incoming_lookup_remove. case_decide as H; [|done].
  destruct H as [-> ->]. destruct (incoming_lookup I c id) as [t|] eqn:E; [|done].
  apply (wf_incoming _ Hwf) in E. by destruct (Hno t).
Qed.

Lemma mark_client_effect mark_fn cm id c outcome :
  marks mark_fn -> cm_wf cm ->
  rtc effect cm (CallManager.mark_client_within_ringing_calls cm id c mark_fn outcome).2.
Proof.
  intros Hmark Hwf.
  destruct (incoming_lookup (client_incoming_calls cm) c id) as [t|] eqn:Hin.
  - apply (wf_incoming _ Hwf) in Hin as (r & e & Hr & He & Hc).
    rewrite (mark_client_rung _ Hmark cm id r t e c) by done. apply rtc_once, eff_shrink; [done|].
    by eapply mark_target_shrinks; [|apply (wf_ringing_ok _ Hwf)|..].
  - assert (forall t, ~ rings (ringing_calls cm !! id) t c) as Hno.
    { intros t Ht%(wf_incoming _ Hwf). congruence. }
    rewrite mark_client_idle by done. cbn. by rewrite remove_absent_id.
Qed.

Lemma end_call_effect cm id c : cm_wf cm -> rtc effect cm (CallManager.end_call cm id c).2.
Proof.
  intros Hwf.
  destruct (occupies_dec cm id c Hwf) as [Ho|Ho]; [|by rewrite end_call_other].
  destruct (active_calls cm !! id) as [a|] eqn:Ha.
  - assert (is_Some (ace_participants a !! c)) as Hc
      by by apply (active_marker cm id a c Hwf Ha), (wf_markers _ Hwf); rewrite Ha.
    destruct (closes a c) eqn:Hcl.
    + rewrite (end_call_closes cm id c Hwf a) by done. apply rtc_once, eff_close.
    + rewrite (end_call_leaves cm id c Hwf a) by done. apply closes_false in Hcl as [_ ?].
      by apply rtc_once, eff_leave.
  - destruct Ho as [(?&?&_)|(r & Hr & Hc)]; [done|].
    rewrite (end_call_outgoing cm id c Hwf r) by done. apply rtc_once, eff_close.
Qed.

Lemma drop_joined_effect cm id c t reason :
  cm_wf cm -> rtc effect cm (CallManager.drop_joined_participant cm id c t reason).2.
Proof.
  intros Hwf.
  destruct (active_calls cm !! id) as [a|] eqn:Ha; [|rewrite drop_joined_refused; naive_solver].
  destruct (CallManager.find_participant a t) as [d|] eqn:Hd;
    [|rewrite drop_joined_refused; naive_solver].
  destruct (may_drop a c d reason) eqn:Hmay; [|rewrite drop_joined_refused; naive_solver].
  rewrite (drop_joined_permitted _ _ _ _ _ a d) by done. cbn.
  destruct (may_drop_leaves _ _ _ _ Hmay).
  apply rtc_once, eff_leave; [done| |done]. apply find_participant_Some in Hd. eauto.
Qed.

Lemma drop_target_effect cm id c t reason :
  cm_wf cm -> rtc effect cm (CallManager.drop_target cm id c t reason).2.
Proof.
  intros Hwf. unfold CallManager.drop_target.
  destruct (CallManager.drop_ringing_target cm id c t reason) as [[outcome|] cm'] eqn:Hd.
  - assert (cm' = (CallManager.drop_ringing_target cm id c t reason).2) as -> by by rewrite Hd.
    clear Hd. cbn. destruct (ringing_calls cm !! id) as [r|] eqn:Hr;
      [|by unfold CallManager.drop_ringing_target; rewrite Hr].
    destruct (rce_targets r !! t) as [e|] eqn:He;
      [|by unfold CallManager.drop_ringing_target; rewrite Hr, He].
    destruct (decide (source_client_id (rte_source e) = c)) as [Hc|Hc].
    + rewrite (drop_ringing_target_state _ _ _ _ _ r e) by done. cbn.
      apply rtc_once, eff_shrink; [done|]. apply (submap_shrinks id); [|apply delete_subseteq].
      by apply (wf_ringing_ok _ Hwf).
    + unfold CallManager.drop_ringing_target. rewrite Hr, He.
      by rewrite bool_decide_eq_false_2 by done.
  - assert (cm' = cm) as ->; [|by apply drop_joined_effect].
    unfold CallManager.drop_ringing_target in Hd.
    destruct (ringing_calls cm !! id) as [r|]; [|congruence].
    destruct (rce_targets r !! t) as [e|]; [|congruence]. by repeat case_match.
Qed.

Lemma record_link_failure_effect cm id x y now :
  rtc effect cm (CallManager.record_link_failure cm id x y now).2.
Proof.
  unfold CallManager.record_link_failure. case_bool_decide; [done|].
  destruct (active_calls cm !! id) as [a|] eqn:Ha; [|done].
  case_match; [done|]. pose proof (eff_link cm id a x y now Ha) as He.
  destruct (ActiveCallEntry.record_link_report a x y now) as [a' confirmed]. cbn in He.
  destruct confirmed; by apply rtc_once.
Qed.

Lemma report_link_failure_effect cm id x y now :
  cm_wf cm -> rtc effect cm (CallManager.report_link_failure cm id x y now).2.
Proof.
  intros Hwf. unfold CallManager.report_link_failure.
  pose proof (record_link_failure_wf cm id x y now Hwf) as Hwf'.
  pose proof (record_link_failure_effect cm id x y now) as H.
  destruct (CallManager.record_link_failure cm id x y now) as [[|[evicted u]] cm']; [done|].
  pose proof (end_call_effect cm' id evicted Hwf') as H'.
  destruct (CallManager.end_call cm' id evicted) as [[] ?]; by etrans.
Qed.

Lemma call_error_effect cm id c : cm_wf cm -> rtc effect cm (CallManager.call_error cm id c).2.
Proof.
  intros Hwf. unfold CallManager.call_error.
  pose proof (mark_client_wf _ mark_errored_marks cm id c (OutcomeError CallFailure) Hwf) as Hwf'.
  pose proof (mark_client_effect _ cm id c (OutcomeError CallFailure) mark_errored_marks Hwf) as H.
  destruct (CallManager.mark_client_within_ringing_calls _ _ _ _ _) as [outcome cm1]. cbn in *.
  pose proof (end_call_effect cm1 id c Hwf') as H'.
  destruct (CallManager.end_call cm1 id c) as [[]]; destruct outcome; cbn in *; done || by etrans.
Qed.

Lemma cleanup_own_call_effect cm c :
  cm_wf cm -> rtc effect cm (CallManager.cleanup_own_call cm c).2.
Proof.
  intros Hwf. rewrite cleanup_own_call_spec by done. unfold own_call_spec.
  destruct (client_active_calls cm !! c) as [id|] eqn:Hm; [|done].
  destruct (active_calls cm !! id) as [a|] eqn:Ha; [|apply rtc_once, eff_close].
  destruct (closes a c) eqn:Hcl; [apply rtc_once, eff_close|].
  apply (closes_false c) in Hcl as [_ ?]. apply rtc_once, eff_leave; [done| |done].
  by apply (active_marker cm id a c).
Qed.

Lemma cleanup_incoming_loop_effect c (l : list (CallId * CallTarget)) cm row actions :
  NoDup l.*1 -> (forall id t, (row !! id = Some t) <-> (id, t) ∈ l) ->
  client_incoming_calls cm !! c = None -> cm_wf (with_row cm c row) ->
  rtc effect (with_row cm c row) (foldl (CallManager.cleanup_incoming_call c) (actions, cm) l).2.
Proof.
  revert cm row actions. induction l as [|[id t] l IH]; intros cm row actions Hnd Hrow Hc Hwf.
  - assert (row = ∅) as ->; [|by destruct cm].
    apply map_empty. intros id. destruct (row !! id) as [t|] eqn:E; [|done].
    by apply Hrow, not_elem_of_nil in E.
  - assert (row !! id = Some t) as Hid by (apply Hrow; left).
    apply NoDup_cons in Hnd as [Hid' Hnd]. cbn [foldl].
    destruct (cleanup_incoming_call_state c cm row id t actions Hc Hid Hwf)
      as (Hin & r & e & Hr & He & Hce & Hst).
    destruct (cleanup_incoming_call_wf c cm row id t actions Hc Hid Hwf) as (Hc' & Hwf' & _).
    destruct (CallManager.cleanup_incoming_call c (actions, cm) (id, t)) as [acts cm'].
    cbn [snd] in *. transitivity (with_row cm' c (delete id row)).
    + rewrite Hst. apply rtc_once, eff_shrink; [done|].
      apply (mark_target_shrinks forget_client r t e c id);
        [apply forget_client_marks|by apply (wf_ringing_ok _ Hwf)|done..].
    + apply IH; [done| |done|done].
      intros id' t'. rewrite lookup_delete_Some, Hrow, elem_of_cons. split; [naive_solver|].
      intros Hin'. split; [|by right]. intros <-. apply Hid', list_elem_of_fmap. by exists (id, t').
Qed.

Lemma cleanup_client_calls_effect cm c :
  cm_wf cm -> rtc effect cm (CallManager.cleanup_client_calls cm c).2.
Proof.
  intros Hwf. unfold CallManager.cleanup_client_calls.
  pose proof (cleanup_own_call_effect cm c Hwf) as H1.
  pose proof (cleanup_own_call_wf cm c Hwf) as H2.
  destruct (CallManager.cleanup_own_call cm c) as [own cm1]. cbn in H1, H2.
  assert (rtc effect cm1 (CallManager.cleanup_incoming cm1 c).2).
  2: { destruct (CallManager.cleanup_incoming cm1 c). cbn in *. by etrans. }
  unfold CallManager.cleanup_incoming.
  destruct (client_incoming_calls cm1 !! c) as [row|] eqn:Hrow.
  - set (cm2 := set_incoming cm1 (delete c (client_incoming_calls cm1))).
    assert (with_row cm2 c row = cm1) as Heq.
    { unfold with_row, cm2, set_incoming. cbn.
      rewrite bool_decide_eq_false_2 by by eapply wf_rows.
      rewrite insert_delete_eq, insert_id by done. by destruct cm1. }
    rewrite <- Heq at 1. apply cleanup_incoming_loop_effect; [apply NoDup_fst_map_iter|..].
    + intros id t. by rewrite elem_of_map_iter.
    + apply lookup_delete_eq.
    + by rewrite Heq.
  - rewrite delete_id by done. by destruct cm1.
Qed.
End effects.

(** ** What the elementary steps keep *)

Lemma size_subset {V W : Type} (m : gmap CallTarget V) (m' : gmap CallTarget W) :
  (forall t v, m' !! t = Some v -> is_Some (m !! t)) -> size m' <= size m.
Proof.
  intros H. rewrite <- !size_dom. apply subseteq_size. intros t [v Hv]%elem_of_dom.
  apply elem_of_dom. eauto.
Qed.

Lemma effect_max cm cm' : effect cm cm' -> max_conf_size cm' = max_conf_size cm.
Proof. by intros []. Qed.

(** The calls do not take more places. *)
Lemma effect_weight cm cm' id : effect cm cm' -> call_weight cm' id <= call_weight cm id.
Proof.
  intros H. unfold call_weight.
  destruct H as [id' r targets' incoming' Hr Hs|id'|id' a c Ha Hc _|id' a x y now Ha]; cbn.
  - destruct (decide (id = id')) as [->|Hne].
    + rewrite Hr. assert (size targets' <= size (rce_targets r)).
      { apply size_subset. intros t e' He'. destruct (sh_kept _ _ Hs t e' He') as (e & -> & _). eauto. }
      unfold weight. case_bool_decide.
      * rewrite lookup_delete_eq. destruct (active_calls cm !! id'); lia.
      * rewrite lookup_insert_eq. cbn. destruct (active_calls cm !! id'); lia.
    + by case_bool_decide; [rewrite lookup_delete_ne|rewrite lookup_insert_ne].
  - destruct (decide (id = id')) as [->|Hne]; [rewrite !lookup_delete_eq; cbn; lia|].
    by rewrite !lookup_delete_ne.
  - destruct (decide (id = id')) as [->|Hne]; [|by rewrite lookup_insert_ne].
    rewrite lookup_insert_eq, Ha. destruct (leave_entry_fields a c) as (_ & E2 & _).
    unfold weight. rewrite E2, size_delete_participant by done. lia.
  - destruct (decide (id = id')) as [->|Hne]; [|by rewrite lookup_insert_ne].
    by rewrite lookup_insert_eq, Ha.
Qed.

Lemma rtc_effect_weight cm cm' id : rtc effect cm cm' -> call_weight cm' id <= call_weight cm id.
Proof.
  induction 1 as [|cm1 cm2 cm3 H _ IH]; [done|]. pose proof (effect_weight _ _ id H). lia.
Qed.

Lemma rtc_effect_max cm cm' : rtc effect cm cm' -> max_conf_size cm' = max_conf_size cm.
Proof. induction 1 as [|cm1 cm2 cm3 H _ IH]; [done|]. by rewrite IH, (effect_max _ _ H). Qed.

Lemma joins_ok_leave a c : joins_ok a -> joins_ok (leave_entry a c).
Proof.
  intros [Hb Hi]. destruct (leave_entry_fields a c) as (_ & _ & E3 & E4 & _).
  split; intros *; rewrite ?E3, ?E4.
  - intros [_ ?]%lookup_delete_Some. eauto.
  - intros [_ ?]%lookup_delete_Some [_ ?]%lookup_delete_Some. eauto.
Qed.

Lemma effect_numbered k cm cm' : numbered k cm -> effect cm cm' -> numbered k cm'.
Proof.
  intros Hk H id a Ha.
  destruct H as [id' r targets' incoming' Hr Hs|id'|id' a' c Ha' Hc _|id' a' x y now Ha']; cbn in Ha.
  - by apply (Hk id).
  - apply lookup_delete_Some in Ha as [_ Ha]. by apply (Hk id).
  - apply lookup_insert_Some in Ha as [[<- <-]|[_ Ha]]; [|by apply (Hk id)].
    destruct (Hk id' a' Ha') as [Hj Hn]. split; [by apply joins_ok_leave|].
    by destruct (leave_entry_fields a' c) as (_ & _ & _ & -> & _).
  - apply lookup_insert_Some in Ha as [[<- <-]|[_ Ha]]; [|by apply (Hk id)].
    destruct (Hk id' a' Ha') as [[Hb Hi] Hn]. by split.
Qed.

Lemma rtc_effect_numbered k cm cm' : numbered k cm -> rtc effect cm cm' -> numbered k cm'.
Proof. intros Hk H. induction H; eauto using effect_numbered. Qed.

(** ** Joining *)

Lemma join_entry_next a id caller source t c now :
  ace_next_join_seq (join_entry a id caller source t c now) =
    match a with
    | Some a => ((ace_next_join_seq a + 1) `mod` (u64_max + 1))%N
    | None => 2%N
    end.
Proof. destruct a as [[? [] ? ? ? ? ? ?]|]; done. Qed.

Lemma join_entry_numbered k a id caller source t c now :
  (1 <= k)%N -> (k + 1 <= u64_max)%N -> c <> caller ->
  (forall a', a = Some a' -> joins_ok a' /\ (ace_next_join_seq a' <= k)%N) ->
  joins_ok (join_entry a id caller source t c now) /\
  (ace_next_join_seq (join_entry a id caller source t c now) <= k + 1)%N /\
  (forall c' s, ace_join_order (join_entry a id caller source t c now) !! c' = Some s -> c' <> c ->
     exists s', ace_join_order (join_entry a id caller source t c now) !! c = Some s' /\ (s < s')%N).
Proof.
  intros Hk Hmax Hne Ha. rewrite join_entry_next. destruct a as [a|].
  - destruct (Ha a eq_refl) as [[Hb Hi] Hn].
    rewrite N.mod_small by (unfold u64_max in *; lia). split; [|split; [lia|]].
    + split; rewrite ?join_entry_next, join_entry_joins.
      * rewrite N.mod_small by (unfold u64_max in *; lia).
        intros c' s [[<- <-]|[_ H]]%lookup_insert_Some; [lia|]. apply Hb in H. lia.
      * intros c1 c2 s [[<- <-]|[? H1]]%lookup_insert_Some [[<- E]|[? H2]]%lookup_insert_Some;
          [done| | |by eapply Hi].
        -- apply Hb in H2. lia.
        -- subst. apply Hb in H1. lia.
    + intros c' s. rewrite join_entry_joins, lookup_insert_eq.
      intros [[<- <-]|[_ H]]%lookup_insert_Some Hc; [done|]. eexists. split; [done|]. by apply Hb in H.
  - split; [|split; [lia|]].
    + split; rewrite ?join_entry_next, join_entry_joins.
      * intros c' s [[<- <-]|[_ [[<- <-]|[_ H]]%lookup_insert_Some]]%lookup_insert_Some; [lia..|].
        by rewrite lookup_empty in H.
      * intros c1 c2 s [[<- <-]|[? [[<- <-]|[? H1]]%lookup_insert_Some]]%lookup_insert_Some
          [[<- E]|[? [[<- E]|[? H2]]%lookup_insert_Some]]%lookup_insert_Some; try done;
        by rewrite lookup_empty in *.
    + intros c' s. rewrite join_entry_joins, lookup_insert_eq.
      intros [[<- <-]|[_ [[<- <-]|[_ H]]%lookup_insert_Some]]%lookup_insert_Some Hc; [done| |].
      * eexists. split; [done|lia].
      * by rewrite lookup_empty in H.
Qed.

Lemma joins_ok_later id a x y :
  active_ok id a -> joins_ok a ->
  is_Some (ace_participants a !! x) -> is_Some (ace_participants a !! y) -> x <> y ->
  exists sx sy, ace_join_order a !! x = Some sx /\ ace_join_order a !! y = Some sy /\ sx <> sy /\
    ActiveCallEntry.later_joiner a x y = if (sy <? sx)%N then x else y.
Proof.
  intros Hok Hj Hx Hy Hne. apply (ao_joins _ _ Hok) in Hx as [sx Hsx], Hy as [sy Hsy].
  assert (sx <> sy) as Hs by (intros ->; by apply Hne, (jo_inj _ Hj _ _ sy)).
  exists sx, sy. do 3 (split; [done|]).
  unfold ActiveCallEntry.later_joiner, ActiveCallEntry.join_seq. rewrite Hsx, Hsy. cbn.
  destruct (N.leb_spec sy sx), (N.ltb_spec sy sx); done || lia.
Qed.

Lemma greatest_joins_later a c x :
  is_Some (ace_join_order a !! c) -> is_Some (ace_join_order a !! x) ->
  (forall c' s, ace_join_order a !! c' = Some s -> c' <> c ->
     exists s', ace_join_order a !! c = Some s' /\ (s < s')%N) ->
  ActiveCallEntry.later_joiner a x c = c /\ ActiveCallEntry.later_joiner a c x = c.
Proof.
  intros [sc Hc] [sx Hx] H. unfold ActiveCallEntry.later_joiner, ActiveCallEntry.join_seq.
  destruct (decide (x = c)) as [->|Hne]; [by case_match|].
  destruct (H x sx Hx Hne) as (s' & Hs' & Hlt). rewrite Hc in Hs'. injection Hs' as <-.
  rewrite Hc, Hx. cbn. destruct (N.leb_spec sc sx), (N.leb_spec sx sc); done || lia.
Qed.

Section join_facts.
Context {HO : HashOrder}.

(** The three ways an acceptance can go. *)
Lemma accept_call_cases cm id c now :
  cm_wf cm ->
  (CallManager.accept_call cm id c now).2 = cm \/
  exists r t e, client_active_calls cm !! c = None /\ ringing_calls cm !! id = Some r /\
    rce_targets r !! t = Some e /\ c ∈ rte_notified_clients e /\
    (CallManager.accept_call cm id c now).2 = accepted cm id r t e c now.
Proof.
  intros Hwf. destruct (client_active_calls cm !! c) as [id'|] eqn:Hm.
  { left. rewrite accept_call_busy; [done|]. rewrite Hm. eauto. }
  destruct (incoming_lookup (client_incoming_calls cm) c id) as [t|] eqn:Hin.
  - apply (wf_incoming _ Hwf) in Hin as (r & e & Hr & He & Hc). right. exists r, t, e.
    by rewrite (accept_call_state cm id c now r t e).
  - left. rewrite accept_call_not_rung; [done..|]. intros t Ht%(wf_incoming _ Hwf). congruence.
Qed.

Lemma accepted_weight cm id r t e c now id' :
  cm_wf cm -> client_active_calls cm !! c = None -> ringing_calls cm !! id = Some r ->
  rce_targets r !! t = Some e -> c ∈ rte_notified_clients e ->
  call_weight (accepted cm id r t e c now) id' = call_weight cm id'.
Proof.
  intros Hwf Hm Hr He Hc. unfold call_weight. cbn.
  destruct (decide (id' = id)) as [->|Hne].
  2: { rewrite lookup_insert_ne by done.
       by case_bool_decide; [rewrite lookup_delete_ne|rewrite lookup_insert_ne]. }
  rewrite lookup_insert_eq, Hr.
  assert (weight (if bool_decide (delete t (rce_targets r) = ∅) then None
      else Some (set_targets r (delete t (rce_targets r))))
    (Some (join_entry (active_calls cm !! id) id (rce_caller_id r) (rte_source e) t c now)) =
    weight (Some r) (active_calls cm !! id)) as <-.
  2: { case_bool_decide; [by rewrite lookup_delete_eq|by rewrite lookup_insert_eq]. }
  assert (size (rce_targets r) = S (size (delete t (rce_targets r)))) as Hsz.
  { rewrite <- (insert_delete_id _ _ _ He) at 1. apply map_size_insert_None, lookup_delete_eq. }
  unfold weight. rewrite join_entry_participants.
  assert (match (if bool_decide (delete t (rce_targets r) = ∅) then None
      else Some (set_targets r (delete t (rce_targets r)))) with
    | Some r => size (rce_targets r) | None => 0 end = size (delete t (rce_targets r))) as ->.
  { case_bool_decide as Hd; [by rewrite Hd|done]. }
  destruct (active_calls cm !! id) as [a|] eqn:Ha.
  - rewrite map_size_insert_None; [lia|]. by eapply accepted_not_participant.
  - rewrite map_size_insert_None, map_size_singleton; [lia|]. apply lookup_singleton_ne.
    by eapply accepted_not_caller.
Qed.

(** One more target: one more place, two for a new call (its caller). *)
Lemma invited_weight cm id caller source target notified now id' :
  may_invite cm id caller target notified ->
  call_weight (invited_state cm id caller source target notified now) id' =
    if decide (id' = id) then
      call_weight cm id + 1 +
      match ringing_calls cm !! id, active_calls cm !! id with None, None => 1 | _, _ => 0 end
    else call_weight cm id'.
Proof.
  intros Hmay. unfold call_weight. cbn. case_decide as Hid.
  2: { by rewrite lookup_insert_ne. }
  subst. rewrite lookup_insert_eq. unfold weight.
  destruct (invite_entry_fields (ringing_calls cm !! id) id caller source target notified now)
    as (Ht & _ & _).
  rewrite Ht. rewrite map_size_insert_None.
  - destruct (ringing_calls cm !! id), (active_calls cm !! id);
      rewrite ?map_size_empty; cbn; lia.
  - destruct (ringing_calls cm !! id) as [r|] eqn:Hr; [|apply lookup_empty].
    by apply (mi_ringing _ _ _ _ _ Hmay).
Qed.
End join_facts.

(** ** Runs *)

Section runs.
Context {HO : HashOrder}.

Lemma exec_wf op cm : op_ok op -> cm_wf cm -> cm_wf (exec op cm).
Proof.
  destruct op; cbn; intros Hop Hwf.
  - destruct Hop. by apply attempt_call_wf.
  - by apply accept_call_wf.
  - by apply mark_client_wf; [apply mark_rejected_marks|].
  - by apply mark_client_wf; [apply mark_errored_marks|].
  - by apply end_call_wf.
  - by apply call_error_wf.
  - by apply drop_target_wf.
  - by apply report_link_failure_wf.
  - by apply cleanup_client_calls_wf.
Qed.

Lemma run_cm_wf max n cm : run max n cm -> cm_wf cm.
Proof. induction 1; [apply cm_wf_new|by apply exec_wf]. Qed.

Lemma exec_effect op cm : shrinking op -> cm_wf cm -> rtc effect cm (exec op cm).
Proof.
  destruct op; cbn; intros Hop Hwf; try done.
  - by apply mark_client_effect; [apply mark_rejected_marks|].
  - by apply mark_client_effect; [apply mark_errored_marks|].
  - by apply end_call_effect.
  - by apply call_error_effect.
  - by apply drop_target_effect.
  - by apply report_link_failure_effect.
  - by apply cleanup_client_calls_effect.
Qed.

Lemma exec_numbered op cm k :
  (1 <= k)%N -> (k + 1 <= u64_max)%N -> op_ok op -> cm_wf cm -> numbered k cm ->
  numbered (k + 1) (exec op cm).
Proof.
  intros Hk Hmax Hop Hwf Hnum.
  assert (numbered (k + 1) cm) as Hnum'.
  { intros id a Ha. destruct (Hnum id a Ha). split; [done|lia]. }
  destruct op as [id source target notified now|id c now| | | | | | |];
    try (eapply rtc_effect_numbered; [done|by apply exec_effect]).
  - cbn. destruct (CallManager.validate_call_attempt cm id (source_client_id source) target notified)
      as [[]|e] eqn:Hv; [|by rewrite (attempt_call_refused _ _ _ _ _ _ _ e)].
    apply validate_ok in Hv. by rewrite attempt_call_state.
  - cbn. destruct (accept_call_cases cm id c now Hwf)
      as [->|(r & t & e & Hm & Hr & He & Hc & ->)]; [done|].
    intros id' a. cbn. intros [[<- <-]|[_ Ha]]%lookup_insert_Some; [|by apply (Hnum' id')].
    destruct (join_entry_numbered k (active_calls cm !! id) id (rce_caller_id r) (rte_source e) t c
      now) as (H1 & H2 & _); [done..| | |done].
    + by eapply accepted_not_caller.
    + intros a' Ha'. by apply (Hnum id).
Qed.

(** After [n] operations no counter is above [n + 1], so that the 64 bits of
    the counter are enough for any run of fewer than 2^64 - 2 operations. *)
Lemma run_numbered max n cm :
  run max n cm -> (N.of_nat n + 1 <= u64_max)%N -> numbered (N.of_nat n + 1) cm.
Proof.
  induction 1 as [|n cm op Hrun IH Hop]; intros Hn.
  - intros id a. cbn. by rewrite lookup_empty.
  - replace (N.of_nat (S n) + 1)%N with (N.of_nat n + 1 + 1)%N by lia.
    apply exec_numbered; [lia|lia|done|by eapply run_cm_wf|]. apply IH. lia.
Qed.
End runs.
