(* ===== verification/CallProperties.v ===== *)
(** CallProperties: what the call manager promises, on every run and for every
    operation, with a concrete run of four clients on which the promises are
    evaluated. *)
From stdpp Require Import prelude gmap strings list.
From Stdlib Require Import NArith.
From S2P Require Import Prelude Protocol Calls CallManager CallTables CallInvariant CallLeave.
From S2P Require Import CallJoin CallReach.

(** ** A concrete run

    Alice calls Bob and Carol, who accept: a conference led by Alice. Then she
    invites Dave, who has not answered yet. *)

Definition alice : ClientId := mkClientId "1000001".
Definition bob : ClientId := mkClientId "1000002".
Definition carol : ClientId := mkClientId "1000003".
Definition dave : ClientId := mkClientId "1000004".
Definition call1 : CallId := mkCallId 1.
Definition call2 : CallId := mkCallId 2.
Definition from_client (c : ClientId) : CallSource := mkCallSource c None None.

Definition demo_ops : list Op :=
  [OpAttempt call1 (from_client alice) (TClient bob) {[bob]} 0;
   OpAccept call1 bob 10;
   OpAttempt call1 (from_client alice) (TClient carol) {[carol]} 20;
   OpAccept call1 carol 30;
   OpAttempt call1 (from_client alice) (TClient dave) {[dave]} 40].

Definition demo_state {HO : HashOrder} (n : nat) : CallManager :=
  foldl (λ cm op, exec op cm) (CallManager.new 5) (take n demo_ops).

Lemma run_foldl {HO : HashOrder} max n cm (ops : list Op) :
  run max n cm -> Forall op_ok ops ->
  run max (n + length ops) (foldl (λ cm op, exec op cm) cm ops).
Proof.
  revert n cm. induction ops as [|op ops IH]; intros n cm Hrun Hops; cbn; [by rewrite Nat.add_0_r|].
  apply Forall_cons in Hops as [Hop Hops]. rewrite Nat.add_succ_r, <- Nat.add_succ_l.
  apply IH; [by constructor|done].
Qed.

Lemma demo_ops_ok : Forall op_ok demo_ops.
Proof. repeat constructor; cbn; set_solver by done. Qed.

Lemma demo_run {HO : HashOrder} n : n <= 5 -> run 5 n (demo_state n).
Proof.
  intros Hn. unfold demo_state.
  replace n with (0 + length (take n demo_ops)) at 1 by (rewrite length_take; cbn; lia).
  apply run_foldl; [constructor|]. apply Forall_take, demo_ops_ok.
Qed.

Lemma demo_wf {HO : HashOrder} n : n <= 5 -> cm_wf (demo_state n).
Proof. intros Hn. by eapply run_cm_wf, demo_run. Qed.

(** ** Runs *)

(** C1: on every run of the call manager its four tables stay well formed: the
    entries of every call are consistent with each other, a client has the busy
    marker of a call exactly when it is its caller or one of its participants,
    and it has an incoming row for a call exactly when a target of that call
    rings at it. *)
Theorem run_tables_wf {HO : HashOrder} max n cm : run max n cm -> cm_wf cm.
Proof. apply run_cm_wf. Qed.

Lemma run_tables_wf_witness :
  let HO := listed_order in
  run 5 5 (demo_state 5) /\ cm_wf (demo_state 5) /\ size (client_active_calls (demo_state 5)) = 3.
Proof.
  intros HO. assert (run 5 5 (demo_state 5)) as H by (apply demo_run; lia).
  split; [exact H|]. split; [exact (run_tables_wf 5 5 _ H)|]. by vm_compute.
Defined.

(** C2: on every run a client takes part in at most one call, as a participant
    or as the caller of a call that rings, and it cannot be invited to a call
    by two targets of it, nor be invited to a call it participates in. *)
Theorem run_exclusive {HO : HashOrder} max n cm c :
  run max n cm ->
  (forall id1 id2, occupies (ringing_calls cm !! id1) (active_calls cm !! id1) c ->
     occupies (ringing_calls cm !! id2) (active_calls cm !! id2) c -> id1 = id2) /\
  (forall id t1 t2, rings (ringing_calls cm !! id) t1 c -> rings (ringing_calls cm !! id) t2 c ->
     t1 = t2) /\
  (forall id t, rings (ringing_calls cm !! id) t c ->
     ~ occupies (ringing_calls cm !! id) (active_calls cm !! id) c).
Proof.
  intros Hwf%run_cm_wf. split; [by eapply wf_one_call|]. split.
  - intros id t1 t2 H1 H2. apply (wf_incoming _ Hwf) in H1, H2. congruence.
  - intros id t (r & e & Hr & He & Hc). pose proof (wf_calls _ Hwf id) as Hok. rewrite Hr in Hok |- *.
    intros [(a & Ha & Hp)|(r' & [= <-] & <-)].
    + assert (ace_participants a !! c = None) as Hn; [|rewrite Hn in Hp; by destruct Hp].
      apply (co_fresh _ _ _ Hok r a t c); [done..|]. apply rings_Some. eauto.
    + by apply (to_caller _ _ (ro_targets _ _ (wf_ringing_ok _ Hwf _ _ Hr) t e He)).
Qed.

Lemma run_exclusive_witness :
  let HO := listed_order in
  ~ occupies (ringing_calls (demo_state 5) !! call1) (active_calls (demo_state 5) !! call1) dave.
Proof.
  intros HO. assert (run 5 5 (demo_state 5)) as H by (apply demo_run; lia).
  apply (run_exclusive 5 5 (demo_state 5) dave H) with (t := TClient dave).
  apply (wf_incoming _ (run_cm_wf 5 5 _ H)). by vm_compute.
Defined.

(** C3: on every run an active call has at least two participants; it has a
    conference leader exactly when it has three or more; the leader
    participates, and it is the only client that can have invitations of the
    call pending. *)
Theorem run_leader {HO : HashOrder} max n cm id a :
  run max n cm -> active_calls cm !! id = Some a ->
  2 <= size (ace_participants a) /\
  (is_Some (ace_conference_leader a) <-> 3 <= size (ace_participants a)) /\
  (forall l, ace_conference_leader a = Some l -> is_Some (ace_participants a !! l)) /\
  (forall r, ringing_calls cm !! id = Some r -> is_Some (ace_participants a !! rce_caller_id r) /\
     forall l, ace_conference_leader a = Some l -> l = rce_caller_id r).
Proof.
  intros Hwf%run_cm_wf Ha. pose proof (wf_active_ok _ Hwf _ _ Ha) as Hok.
  pose proof (ao_size _ _ Hok). pose proof (ao_leader _ _ Hok) as Hl.
  pose proof (wf_calls _ Hwf id) as Hcall. rewrite Ha in Hcall.
  split; [done|]. split; [|split].
  - destruct (ace_conference_leader a) as [l|].
    + destruct Hl. split; eauto.
    + split; [by intros [? ?]|lia].
  - intros l Hlead. rewrite Hlead in Hl. apply Hl.
  - intros r Hr. split; [by apply (co_caller _ _ _ Hcall)|].
    intros l. by apply (co_leader _ _ _ Hcall).
Qed.

Lemma run_leader_witness :
  let HO := listed_order in
  exists a, active_calls (demo_state 5) !! call1 = Some a /\ 3 <= size (ace_participants a).
Proof.
  intros HO. assert (run 5 5 (demo_state 5)) as H by (apply demo_run; lia).
  destruct (active_calls (demo_state 5) !! call1) as [a|] eqn:Ha; [|by vm_compute in Ha].
  exists a. split; [done|].
  apply (run_leader 5 5 (demo_state 5) call1 a H Ha).
  vm_compute in Ha. injection Ha as <-. by eexists.
Defined.

(** ** The operations *)

(** C4: ending a call, on every branch. A participant whose leaving the call
    does not survive (the leader, or one of the last two) closes it: everybody
    else is told to drop, the pending invitations are cancelled, and no trace
    of the call is left in any table. Any other participant just leaves, and
    the rest are sent the new list. The caller of a call nobody accepted yet
    cancels it. Anybody else changes nothing. *)
Theorem end_call_spec {HO : HashOrder} cm id c :
  cm_wf cm ->
  CallManager.end_call cm id c =
    match active_calls cm !! id with
    | Some a =>
      if bool_decide (is_Some (ace_participants a !! c)) then
        if closes a c then
          (Some (map (DropParticipant id) (map_keys (ActiveCallEntry.participants_without_self a c))
                 ++ cancellations cm id Cancelled), close_call cm id)
        else
          (Some [UpdateParticipantsAction
                   (mkUpdateParticipants id (invited cm id) (delete c (ace_participants a))
                      (ace_conference_leader (leave_entry a c)))], leave_call cm id a c)
      else (None, cm)
    | None =>
      match ringing_calls cm !! id with
      | Some r =>
        if bool_decide (rce_caller_id r = c)
        then (Some (cancellations cm id Cancelled), close_call cm id) else (None, cm)
      | None => (None, cm)
      end
    end.
Proof.
  intros Hwf. destruct (active_calls cm !! id) as [a|] eqn:Ha.
  - case_bool_decide as Hc.
    + destruct (closes a c) eqn:Hcl; [by apply end_call_closes|by apply end_call_leaves].
    + apply end_call_other. rewrite <- (wf_markers _ Hwf). by rewrite (active_marker cm id a).
  - destruct (ringing_calls cm !! id) as [r|] eqn:Hr.
    + case_bool_decide as Hc; [by apply (end_call_outgoing cm id c Hwf r)|].
      apply end_call_other. rewrite <- (wf_markers _ Hwf). by rewrite (ringing_marker cm id r).
    + apply end_call_other. rewrite Hr, Ha. by intros [(?&?&_)|(?&?&_)].
Qed.

Lemma end_call_spec_witness :
  let HO := listed_order in
  CallManager.end_call (demo_state 5) call1 alice =
    (Some [DropParticipant call1 bob; DropParticipant call1 carol;
           CancelRingingTarget
             (mkRingingTarget call1 alice (from_client alice) (TClient dave) {[dave]})],
     mkCallManager ∅ ∅ ∅ ∅ 5) \/
  CallManager.end_call (demo_state 5) call1 alice =
    (Some [DropParticipant call1 carol; DropParticipant call1 bob;
           CancelRingingTarget
             (mkRingingTarget call1 alice (from_client alice) (TClient dave) {[dave]})],
     mkCallManager ∅ ∅ ∅ ∅ 5).
Proof.
  intros HO. assert (cm_wf (demo_state 5)) as H by (apply demo_wf; lia).
  rewrite (end_call_spec (demo_state 5) call1 alice H).
  (left; by vm_compute) || (right; by vm_compute).
Defined.

(** Accepting a call, on every branch. A client that is in a call already
    is busy; one that the call does not ring finds nothing; both leave the
    tables as they are. A client that rings joins through the one target that
    rings at it; that target stops ringing at everybody, and the call becomes
    active, with the caller of the invitation as second participant, or gains
    a participant and, if it had none, the inviter as leader. *)
Theorem accept_call_spec {HO : HashOrder} cm id c now :
  cm_wf cm ->
  match client_active_calls cm !! c, incoming_lookup (client_incoming_calls cm) c id with
  | Some _, _ => CallManager.accept_call cm id c now = (AcceptorBusy, cm)
  | None, None => CallManager.accept_call cm id c now = (AcceptNotFound, cm)
  | None, Some t =>
    exists r e, ringing_calls cm !! id = Some r /\ rce_targets r !! t = Some e /\
      c ∈ rte_notified_clients e /\
      let a' := join_entry (active_calls cm !! id) id (rce_caller_id r) (rte_source e) t c now in
      CallManager.accept_call cm id c now =
        (AcceptedCall
           (mkRingingTarget id (rce_caller_id r) (rte_source e) t (rte_notified_clients e))
           (mkUpdateParticipants id
              (RingingCallEntry.invited_participants (set_targets r (delete t (rce_targets r))))
              (ace_participants a') (ace_conference_leader a')),
         accepted cm id r t e c now) /\
      ace_participants a' =
        match active_calls cm !! id with
        | Some a => <[c := t]> (ace_participants a)
        | None => <[rce_caller_id r := call_target_of_source (rte_source e)]> {[c := t]}
        end /\
      ace_conference_leader a' =
        match active_calls cm !! id with
        | Some a => Some (rce_caller_id r)
        | None => None
        end
  end.
Proof.
  intros Hwf. destruct (client_active_calls cm !! c) as [id'|] eqn:Hm.
  { apply accept_call_busy. rewrite Hm. eauto. }
  destruct (incoming_lookup (client_incoming_calls cm) c id) as [t|] eqn:Hin.
  - apply (wf_incoming _ Hwf) in Hin as (r & e & Hr & He & Hc). exists r, e.
    pose proof (wf_calls _ Hwf id) as Hcall. rewrite Hr in Hcall.
    do 3 (split; [done|]). cbn zeta. split; [by apply accept_call_state|].
    split; [by rewrite join_entry_participants|].
    rewrite join_entry_leader. destruct (active_calls cm !! id) as [a|] eqn:Ha; [|done].
    destruct (ace_conference_leader a) as [l|] eqn:Hl.
    + f_equal. by apply (co_leader _ _ _ Hcall r a).
    + f_equal. eapply to_source, accepted_target_ok; done.
  - apply accept_call_not_rung; [done..|]. intros t Ht%(wf_incoming _ Hwf). congruence.
Qed.

Lemma accept_call_spec_witness :
  let HO := listed_order in
  (CallManager.accept_call (demo_state 5) call1 dave 50).2 =
    accepted (demo_state 5) call1
      (RingingCallEntry.new call1 alice (from_client alice) (TClient dave) {[dave]} 40)
      (TClient dave) (RingingTargetEntry.new (from_client alice) {[dave]} 40) dave 50.
Proof.
  intros HO. assert (cm_wf (demo_state 5)) as H by (apply demo_wf; lia).
  pose proof (accept_call_spec (demo_state 5) call1 dave 50 H) as Hs.
  set (r := RingingCallEntry.new call1 alice (from_client alice) (TClient dave) {[dave]} 40).
  set (e := RingingTargetEntry.new (from_client alice) {[dave]} 40).
  assert (client_active_calls (demo_state 5) !! dave = None) as Hm by (vm_compute; reflexivity).
  assert (incoming_lookup (client_incoming_calls (demo_state 5)) dave call1 = Some (TClient dave))
    as Hi by (vm_compute; reflexivity).
  assert (ringing_calls (demo_state 5) !! call1 = Some r) as Hr by (vm_compute; reflexivity).
  assert (rce_targets r !! TClient dave = Some e) as He by (vm_compute; reflexivity).
  rewrite Hm, Hi in Hs. destruct Hs as (r' & e' & Hr' & He' & _ & Hs & _).
  rewrite Hr in Hr'. injection Hr' as <-. rewrite He in He'. injection He' as <-.
  exact (f_equal snd Hs).
Defined.

(** An invitation is let through exactly when the caller is free and the
    call is new, or the caller belongs to the call, leads it if it has a
    leader, opened its pending invitations, and neither the target nor anybody
    it rings is part of the call already. Then the call rings at the target and
    the caller is busy; otherwise nothing changes. *)
Theorem attempt_call_spec {HO : HashOrder} cm id caller source target notified now :
  (may_invite cm id caller target notified ->
   exists lists, CallManager.attempt_call cm id caller source target notified now =
     (Ok lists, invited_state cm id caller source target notified now)) /\
  (~ may_invite cm id caller target notified ->
   exists error, CallManager.attempt_call cm id caller source target notified now =
     (Err error, cm)).
Proof.
  rewrite <- validate_ok. split.
  - intros Hv. pose proof Hv as Hmay. apply validate_ok in Hmay.
    rewrite <- attempt_call_state by done. unfold CallManager.attempt_call. rewrite Hv.
    destruct (ringing_calls cm !! id); eauto.
  - intros Hv. destruct (CallManager.validate_call_attempt cm id caller target notified)
      as [[]|error] eqn:E; [done|]. exists error. by apply attempt_call_refused.
Qed.

Lemma attempt_call_spec_witness :
  let HO := listed_order in
  exists error,
    CallManager.attempt_call (demo_state 5) call1 bob (from_client bob) (TClient dave) {[dave]} 50 =
      (Err error, demo_state 5).
Proof.
  intros HO. apply (attempt_call_spec (demo_state 5) call1 bob (from_client bob) (TClient dave)
    {[dave]} 50).
  rewrite <- validate_ok. by vm_compute.
Defined.

(** Rejecting (and, with the other marking function, failing) a ringing
    call, on every branch: a client that no target rings at changes nothing;
    otherwise the one target that rings at it loses it and goes on ringing at
    the others, and the target fails, is reported and disappears with its last
    client. When the last target disappears and nobody had accepted, the caller
    is released; the participants of an active call are never touched. *)
Theorem reject_call_spec {HO : HashOrder} cm id c :
  cm_wf cm ->
  match incoming_lookup (client_incoming_calls cm) c id with
  | None =>
    CallManager.reject_call cm id c =
      (match ringing_calls cm !! id with Some _ => ClientNotNotified | None => CallNotFound end, cm)
  | Some t =>
    exists r e, ringing_calls cm !! id = Some r /\ rce_targets r !! t = Some e /\
      c ∈ rte_notified_clients e /\
      let e' := RingingTargetEntry.mark_rejected e c in
      let targets' := mark_target (rce_targets r) t e' in
      CallManager.reject_call cm id c =
        (if bool_decide (rte_notified_clients e = {[c]}) then
           TargetFailed [mkRingingTarget id (rce_caller_id r) (rte_source e) t ∅]
             (mkUpdateParticipants id
                (RingingCallEntry.invited_participants (set_targets r targets'))
                (CallManager.active_call_snapshot cm id).1
                (CallManager.active_call_snapshot cm id).2)
         else Continued,
         after_shrink cm id r targets' (incoming_remove id (client_incoming_calls cm) c)) /\
      rte_notified_clients e' = rte_notified_clients e ∖ {[c]}
  end.
Proof.
  intros Hwf. destruct (incoming_lookup (client_incoming_calls cm) c id) as [t|] eqn:Hin.
  - apply (wf_incoming _ Hwf) in Hin as (r & e & Hr & He & Hc). exists r, e.
    do 3 (split; [done|]). cbn zeta. destruct (mark_rejected_marks e c Hc) as (Hn & _ & _).
    split; [|done]. unfold CallManager.reject_call.
    rewrite (mark_client_rung _ mark_rejected_marks cm id r t e c) by done.
    unfold RingingTargetEntry.all_rejected_or_errored. rewrite Hn.
    assert (bool_decide (rte_notified_clients e ∖ {[c]} = ∅) =
      bool_decide (rte_notified_clients e = {[c]})) as ->.
    { apply bool_decide_ext. split; [|intros ->; set_solver].
      intros Hempty. apply set_eq. intros x. destruct (decide (x = c)); set_solver. }
    by destruct (CallManager.active_call_snapshot cm id).
  - assert (forall t, ~ rings (ringing_calls cm !! id) t c) as Hno.
    { intros t Ht%(wf_incoming _ Hwf). congruence. }
    unfold CallManager.reject_call. rewrite mark_client_idle by done. by rewrite remove_absent_id.
Qed.

Lemma reject_call_spec_witness :
  let HO := listed_order in
  CallManager.reject_call (demo_state 5) call1 bob = (ClientNotNotified, demo_state 5).
Proof.
  intros HO. assert (cm_wf (demo_state 5)) as H by (apply demo_wf; lia).
  pose proof (reject_call_spec (demo_state 5) call1 bob H) as Hs.
  assert (incoming_lookup (client_incoming_calls (demo_state 5)) bob call1 = None) as Hi
    by (vm_compute; reflexivity).
  rewrite Hi in Hs. rewrite Hs. reflexivity.
Defined.

(** C5: dropping a target. A ringing target is withdrawn, and only by the
    client that sent its invitation. A participant is removed only when the
    leader of a conference asks for it by another participant's target, and it
    is then the only one to leave; an automatic hang-up never removes a
    participant. In every other case no table changes. *)
Theorem drop_target_spec {HO : HashOrder} cm id c t reason :
  cm_wf cm ->
  match ringing_calls cm !! id ≫= (λ r, rce_targets r !! t) with
  | Some e =>
    exists r, ringing_calls cm !! id = Some r /\
      (CallManager.drop_target cm id c t reason).2 =
        if bool_decide (source_client_id (rte_source e) = c) then
          after_shrink cm id r (delete t (rce_targets r))
            (foldl (incoming_remove id) (client_incoming_calls cm)
               (set_iter (rte_notified_clients e)))
        else cm
  | None =>
    (CallManager.drop_target cm id c t reason).2 = cm \/
    exists a d, active_calls cm !! id = Some a /\ ace_participants a !! d = Some t /\
      ace_conference_leader a = Some c /\ d <> c /\ reason = Requested /\
      (CallManager.drop_target cm id c t reason).2 = leave_call cm id a d /\
      (forall c', client_active_calls (leave_call cm id a d) !! c' =
         if decide (c' = d) then None else client_active_calls cm !! c')
  end.
Proof.
  intros Hwf. unfold CallManager.drop_target.
  destruct (ringing_calls cm !! id) as [r|] eqn:Hr; cbn; [destruct (rce_targets r !! t) as [e|] eqn:He|].
  - exists r. split; [done|]. case_bool_decide as Hc.
    + by rewrite (drop_ringing_target_state _ _ _ _ _ r e).
    + unfold CallManager.drop_ringing_target. rewrite Hr, He.
      by rewrite bool_decide_eq_false_2 by done.
  - assert (CallManager.drop_ringing_target cm id c t reason = (None, cm)) as ->.
    { unfold CallManager.drop_ringing_target. by rewrite Hr, He. }
    by apply drop_joined_cases.
  - assert (CallManager.drop_ringing_target cm id c t reason = (None, cm)) as ->.
    { unfold CallManager.drop_ringing_target. by rewrite Hr. }
    by apply drop_joined_cases.
Qed.

Lemma drop_target_spec_witness :
  let HO := listed_order in
  (CallManager.drop_target (demo_state 5) call1 bob (TClient dave) Requested).2 = demo_state 5.
Proof.
  intros HO. assert (cm_wf (demo_state 5)) as H by (apply demo_wf; lia).
  pose proof (drop_target_spec (demo_state 5) call1 bob (TClient dave) Requested H) as Hs.
  assert (ringing_calls (demo_state 5) !! call1 ≫= (λ r, rce_targets r !! TClient dave) =
    Some (RingingTargetEntry.new (from_client alice) {[dave]} 40)) as He by (vm_compute; reflexivity).
  rewrite He in Hs. destruct Hs as (r & _ & Hs). rewrite Hs. vm_compute; reflexivity.
Defined.

(** Dead links. A report is invalid, and changes nothing, unless both ends
    are different participants of the call. The report of one end alone, or of
    one end while the other's is older than 90 seconds, is only recorded. When
    the other end has reported the link less than 90 seconds before the last
    report, the end that joined later is evicted, as if it had ended the call. *)
Theorem report_link_failure_spec {HO : HashOrder} cm id x y now a :
  cm_wf cm -> active_calls cm !! id = Some a ->
  is_Some (ace_participants a !! x) -> is_Some (ace_participants a !! y) -> x <> y ->
  let a' := (ActiveCallEntry.record_link_report a x y now).1 in
  let cm1 := set_active cm (<[id := a']> (active_calls cm)) in
  let fresh := match ace_link_reports a !! ActiveCallEntry.link_key x y with
               | Some rep => bool_decide (y ∈ lr_reporters rep)
                   && (duration_since now (lr_refreshed_at rep) <? LINK_REPORT_TTL)%N
               | None => false
               end in
  if fresh then
    let evicted := ActiveCallEntry.later_joiner a x y in
    exists actions, CallManager.end_call cm1 id evicted = (Some actions,
      (CallManager.report_link_failure cm id x y now).2) /\
    (CallManager.report_link_failure cm id x y now).1 =
      Evicted evicted (if bool_decide (evicted = x) then y else x) actions
  else CallManager.report_link_failure cm id x y now = (Recorded, cm1).
Proof.
  intros Hwf Ha Hx Hy Hne a' cm1 fresh.
  assert ((ActiveCallEntry.record_link_report a x y now).2 = fresh) as Hconf.
  { by apply record_link_report_confirmed. }
  unfold CallManager.report_link_failure, CallManager.record_link_failure.
  rewrite bool_decide_eq_false_2, Ha by done.
  rewrite (bool_decide_eq_true_2 _ Hx), (bool_decide_eq_true_2 _ Hy). cbn [negb orb].
  rewrite (surjective_pairing (ActiveCallEntry.record_link_report a x y now)), Hconf. fold a' cm1.
  destruct fresh; cbn [negb]; [|done].
  assert (ActiveCallEntry.later_joiner a' x y = ActiveCallEntry.later_joiner a x y) as -> by done.
  set (evicted := ActiveCallEntry.later_joiner a x y).
  assert (cm_wf cm1) as Hwf1.
  { eapply wf_same_members; [done..| |done|done].
    apply record_link_report_ok; [by apply (wf_active_ok _ Hwf)|done|done]. }
  assert (is_Some (ace_participants a' !! evicted)) as He.
  { unfold evicted, ActiveCallEntry.later_joiner. by case_match. }
  assert (active_calls cm1 !! id = Some a') as Ha' by apply lookup_insert_eq.
  destruct (closes a' evicted) eqn:Hcl.
  - rewrite (end_call_closes cm1 id evicted Hwf1 a') by done. eauto.
  - rewrite (end_call_leaves cm1 id evicted Hwf1 a') by done. eauto.
Qed.

Lemma report_link_failure_spec_witness :
  let HO := listed_order in
  exists a, active_calls (demo_state 5) !! call1 = Some a /\
    CallManager.report_link_failure (demo_state 5) call1 bob carol 60 =
      (Recorded, set_active (demo_state 5)
         (<[call1 := (ActiveCallEntry.record_link_report a bob carol 60).1]>
            (active_calls (demo_state 5)))).
Proof.
  intros HO. assert (cm_wf (demo_state 5)) as H by (apply demo_wf; lia).
  destruct (active_calls (demo_state 5) !! call1) as [a|] eqn:Ha;
    [|vm_compute in Ha; discriminate Ha].
  exists a. split; [reflexivity|].
  assert (is_Some (active_calls (demo_state 5) !! call1 ≫= (λ a, ace_participants a !! bob))) as Hb
    by (vm_compute; eexists; reflexivity).
  assert (is_Some (active_calls (demo_state 5) !! call1 ≫= (λ a, ace_participants a !! carol))) as Hc
    by (vm_compute; eexists; reflexivity).
  assert (active_calls (demo_state 5) !! call1 ≫=
    (λ a, ace_link_reports a !! ActiveCallEntry.link_key bob carol) = None) as Hl
    by (vm_compute; reflexivity).
  rewrite Ha in Hb, Hc, Hl. cbn in Hb, Hc, Hl.
  pose proof (report_link_failure_spec (demo_state 5) call1 bob carol 60 a H Ha Hb Hc
    ltac:(discriminate)) as Hs.
  cbn zeta in Hs. rewrite Hl in Hs. exact Hs.
Defined.

(** C6: a client that disconnects disappears from every table: it is not a
    participant or a caller of any call, no target rings at it, and the tables
    stay well formed. Its own call loses it exactly as if it had ended it,
    except that the outcome of the pending invitations is "aborted". *)
Theorem cleanup_leaves_no_trace {HO : HashOrder} cm c id :
  cm_wf cm ->
  let cm' := (CallManager.cleanup_client_calls cm c).2 in
  cm_wf cm' /\ client_active_calls cm' !! c = None /\ client_incoming_calls cm' !! c = None /\
  ~ occupies (ringing_calls cm' !! id) (active_calls cm' !! id) c /\
  (forall t, ~ rings (ringing_calls cm' !! id) t c) /\
  (forall id', client_active_calls cm !! c = Some id' ->
     (CallManager.cleanup_own_call cm c).2 = (CallManager.end_call cm id' c).2).
Proof.
  intros Hwf. destruct (cleanup_client_calls_wf c cm Hwf) as (H1 & H2 & H3). cbn zeta.
  split_and!; [done|done|done| | |].
  - rewrite <- (wf_markers _ H1). congruence.
  - intros t Ht%(wf_incoming _ H1). unfold incoming_lookup in Ht. by rewrite H3 in Ht.
  - intros id' Hm. by apply cleanup_own_as_end.
Qed.

Lemma cleanup_leaves_no_trace_witness :
  let HO := listed_order in
  ~ occupies (ringing_calls (CallManager.cleanup_client_calls (demo_state 5) alice).2 !! call1)
      (active_calls (CallManager.cleanup_client_calls (demo_state 5) alice).2 !! call1) alice.
Proof.
  intros HO. assert (cm_wf (demo_state 5)) as H by (apply demo_wf; lia).
  apply (cleanup_leaves_no_trace (demo_state 5) alice call1 H).
Defined.

(** C7: every operation that neither invites nor accepts refines the abstract
    machine whose only steps are: a ringing entry loses clients or targets, a
    call disappears, a participant of a conference leaves, a link report is
    noted. In particular none of them adds a participant, a target or a
    leader, and no call takes more places after it. *)
Theorem operations_refine_effects {HO : HashOrder} op cm :
  cm_wf cm -> shrinking op ->
  rtc effect cm (exec op cm) /\ max_conf_size (exec op cm) = max_conf_size cm /\
  forall id, call_weight (exec op cm) id <= call_weight cm id.
Proof.
  intros Hwf Hop. pose proof (exec_effect op cm Hop Hwf) as He.
  split; [done|]. split; [by apply rtc_effect_max|]. intros id. by apply rtc_effect_weight.
Qed.

Lemma operations_refine_effects_witness :
  let HO := listed_order in
  call_weight (exec (OpEnd call1 bob) (demo_state 5)) call1 <= call_weight (demo_state 5) call1.
Proof.
  intros HO. assert (cm_wf (demo_state 5)) as H by (apply demo_wf; lia).
  exact (proj2 (proj2 (operations_refine_effects (OpEnd call1 bob) (demo_state 5) H I)) call1).
Defined.

(** Join numbers. On a run of fewer than 2^64 - 2 operations the 64-bit
    counter never wraps: the participants of a call have distinct join numbers,
    and one that accepts gets a greater number than everybody else, so that of
    any two ends of a dead link the one that joined later is evicted. *)
Theorem run_join_numbers {HO : HashOrder} max n cm id a :
  run max n cm -> (N.of_nat n + 2 <= u64_max)%N -> active_calls cm !! id = Some a ->
  (forall x y, is_Some (ace_participants a !! x) -> is_Some (ace_participants a !! y) -> x <> y ->
     exists sx sy, ace_join_order a !! x = Some sx /\ ace_join_order a !! y = Some sy /\
       sx <> sy /\
       ActiveCallEntry.later_joiner a x y = if (sy <? sx)%N then x else y) /\
  (forall c now cm' a' x, CallManager.accept_call cm id c now = cm' ->
     active_calls cm'.2 !! id = Some a' -> ace_participants a !! c = None ->
     is_Some (ace_participants a' !! c) -> is_Some (ace_participants a' !! x) ->
     ActiveCallEntry.later_joiner a' x c = c /\ ActiveCallEntry.later_joiner a' c x = c).
Proof.
  intros Hrun Hn Ha. pose proof (run_cm_wf _ _ _ Hrun) as Hwf.
  pose proof (run_numbered _ _ _ Hrun ltac:(lia)) as Hnum.
  destruct (Hnum id a Ha) as [Hj Hnext]. pose proof (wf_active_ok _ Hwf _ _ Ha) as Hok. split.
  - intros x y Hx Hy Hne. by apply (joins_ok_later id).
  - intros c now cm' a' x <- Ha' Hnew Hc Hx.
    destruct (accept_call_cases cm id c now Hwf) as [Heq|(r & t & e & Hm & Hr & He & Hce & Heq)].
    { rewrite Heq in Ha'. assert (a' = a) as -> by congruence. rewrite Hnew in Hc. by destruct Hc. }
    rewrite Heq in Ha'. cbn in Ha'. rewrite lookup_insert_eq in Ha'. injection Ha' as <-.
    assert (c <> rce_caller_id r) as Hnc by (by eapply accepted_not_caller).
    destruct (join_entry_numbered (N.of_nat n + 1) (active_calls cm !! id) id (rce_caller_id r)
      (rte_source e) t c now) as (_ & _ & Hlast); [lia|lia|done| |].
    { intros a'' Ha''. by apply (Hnum id). }
    apply (ao_joins id) in Hc, Hx; [|by eapply accepted_active_ok..].
    by apply greatest_joins_later.
Qed.

Lemma run_join_numbers_witness :
  let HO := listed_order in
  exists a, active_calls (demo_state 5) !! call1 = Some a /\
    exists sx sy, ace_join_order a !! bob = Some sx /\ ace_join_order a !! carol = Some sy /\
      sx <> sy /\ ActiveCallEntry.later_joiner a bob carol = if (sy <? sx)%N then bob else carol.
Proof.
  intros HO. assert (run 5 5 (demo_state 5)) as H by (apply demo_run; lia).
  destruct (active_calls (demo_state 5) !! call1) as [a|] eqn:Ha;
    [|vm_compute in Ha; discriminate Ha].
  exists a. split; [reflexivity|].
  assert (is_Some (active_calls (demo_state 5) !! call1 ≫= (λ a, ace_participants a !! bob))) as Hb
    by (vm_compute; eexists; reflexivity).
  assert (is_Some (active_calls (demo_state 5) !! call1 ≫= (λ a, ace_participants a !! carol))) as Hc
    by (vm_compute; eexists; reflexivity).
  rewrite Ha in Hb, Hc.
  apply (run_join_numbers 5 5 (demo_state 5) call1 a H); [vm_compute; discriminate|done..|done].
Defined.

(** ** An ambiguity

    Alice, calling from a station, calls that same station, which Bob covers
    too: both then participate under the same target. When she, as the leader
    of the conference with Carol, asks to drop that target, the participant
    that [find_map] meets first decides: the request is refused when it is
    Alice herself, and Bob is dropped when it is Bob. *)
Definition shared_station : StationId := mkStationId "LOWW_APP".
Definition from_station : CallSource := mkCallSource alice None (Some shared_station).

Definition ambiguous_ops : list Op :=
  [OpAttempt call1 from_station (TStation shared_station) {[bob]} 0;
   OpAccept call1 bob 10;
   OpAttempt call1 from_station (TClient carol) {[carol]} 20;
   OpAccept call1 carol 30].

Definition ambiguous_state : CallManager :=
  foldl (λ cm op, exec (HO := listed_order) op cm) (CallManager.new 5) ambiguous_ops.

(** Whether a drop is refused can depend on the iteration order of the map of
    the participants, on a state that a run reaches. *)
Theorem drop_target_order_dependent :
  run (HO := listed_order) 5 4 ambiguous_state /\
  call_weight (CallManager.drop_target (HO := listed_order) ambiguous_state call1 alice
    (TStation shared_station) Requested).2 call1 <>
  call_weight (CallManager.drop_target (HO := reversed_order) ambiguous_state call1 alice
    (TStation shared_station) Requested).2 call1.
Proof.
  split.
  - apply (run_foldl (HO := listed_order) 5 0 (CallManager.new 5) ambiguous_ops); [constructor|].
    repeat constructor; cbn; set_solver by done.
  - vm_compute. discriminate.
Qed.
