(* ===== verification/Handlers.v ===== *)
(** Handlers: the messages a client sends about calls,
    [vacs-server/src/ws/application_message.rs], with the parts of
    [state.rs], [state/calls/manager.rs], [ratelimit.rs] and
    [state/clients/session.rs] they use.

    A handler is a function of the state of the call manager and of the list of
    messages sent so far. Whether a message reaches the queue of its recipient
    is decided by the environment ([Env]), which also gives the time, the rate
    limiters and, through [ClientDirectory], the registry of the clients. *)
From stdpp Require Import prelude gmap strings list.
From Stdlib Require Import NArith.
From S2P Require Import Prelude Protocol Calls CallManager.

(** ** The environment *)

(** What the registry of clients promises to the handlers. *)
Class ClientDirectory := {
  is_client_connected : ClientId -> bool;
  clients_for_position : PositionId -> gset ClientId;
  clients_for_station : StationId -> gset ClientId
}.

(** The registry knows the recipient and its queue takes the message, its queue
    is closed, or the registry does not know it. *)
Inductive RecipientState := Queued | QueueClosed | NotConnected.

(** The answer of a keyed limiter to a request for a number of cells. *)
Inductive KeyCheck := Pass | NotUntil (wait : Duration) | InsufficientCapacity.

Record Sent := mkSent { sent_to : ClientId; sent_message : ServerMessage; delivered : bool }.

Record Env := mkEnv {
  recipient : list Sent -> ClientId -> RecipientState;
  own_queue_open : list Sent -> bool;
  env_now : Instant;
  call_invite_limiter : option (ClientId -> N -> KeyCheck);
  call_invite_per_minute_limiter : option (ClientId -> N -> KeyCheck)
}.

(** ** State and monad *)

Record World := mkWorld { calls : CallManager; outbox : list Sent }.

Definition Handler (A : Type) : Type := World -> A * World.

#[export] Instance handler_ret : MRet Handler := λ A a w, (a, w).
#[export] Instance handler_bind : MBind Handler := λ A B f m w, let (a, w) := m w in f a w.

(** An operation of the call manager. *)
Definition with_calls {A : Type} (f : CallManager -> A * CallManager) : Handler A := λ w,
  let (a, cm) := f (calls w) in (a, mkWorld cm (outbox w)).

Definition read_calls {A : Type} (f : CallManager -> A) : Handler A := λ w, (f (calls w), w).

(** [for x in l { f(x).await }] *)
Fixpoint for_each {A : Type} (l : list A) (f : A -> Handler ()) : Handler () :=
  match l with
  | [] => mret ()
  | x :: l => f x ;; for_each l f
  end.

(** ** Rate limits ([ratelimit.rs]) *)

Inductive CallInviteRejection := RateLimitedUntil (until : Duration) | TooManyTargets.

Definition u32_max : N := 4294967295.

Definition check_n (limiter : option (ClientId -> N -> KeyCheck)) (key : ClientId) (n : N) :
    Result () CallInviteRejection :=
  match limiter with
  | None => Ok ()
  | Some check_key_n =>
    match check_key_n key n with
    | Pass => Ok ()
    | NotUntil wait => Err (RateLimitedUntil wait)
    | InsufficientCapacity => Err TooManyTargets
    end
  end.

Definition check_call_invite (env : Env) (key : ClientId) (targets : nat) :
    Result () CallInviteRejection :=
  let n := N.max (N.min (N.of_nat targets) u32_max) 1 in
  match check_n (call_invite_limiter env) key n with
  | Ok _ => check_n (call_invite_per_minute_limiter env) key n
  | Err e => Err e
  end.

(** [Duration::as_secs] *)
Definition as_secs (d : Duration) : N := (d / 1000000000)%N.

Section handlers.
Context {HO : HashOrder} {CD : ClientDirectory} (env : Env).

(** ** Sending *)

(** [AppState::send_message] *)
Definition send_message (client_id : ClientId) (message : ServerMessage) :
    Handler (Result () Error) := λ w,
  let state := recipient env (outbox w) client_id in
  let ok := match state with Queued => true | _ => false end in
  (match state with
   | Queued => Ok ()
   | QueueClosed => Err (with_client_id (Error_new PeerConnection) client_id)
   | NotConnected => Err (with_client_id (Error_new ClientNotFound) client_id)
   end,
   mkWorld (calls w) (outbox w ++ [mkSent client_id message ok])).

(** [client.send_message], to the client whose message is handled *)
Definition send_own (client_id : ClientId) (message : ServerMessage) : Handler () := λ w,
  ((), mkWorld (calls w) (outbox w ++ [mkSent client_id message (own_queue_open env (outbox w))])).

(** Send, log a failure and go on. *)
Definition send_quietly (client_id : ClientId) (message : ServerMessage) : Handler () :=
  _ ← send_message client_id message; mret ().

Definition send_call_error (client_id : ClientId) (call_id : CallId) (reason : CallErrorReason)
    (message : option string) : Handler () :=
  send_own client_id (SM_CallError (mkCallError call_id reason message)).

Definition send_call_update (participant_id : ClientId) (update : UpdateParticipants) : Handler () :=
  send_quietly participant_id
    (SM_CallUpdate (UpdateParticipants.for_recipient update participant_id)).

Definition send_call_cancelled (recipients : list ClientId) (cancelled : CallCancelled) :
    Handler () :=
  for_each recipients (λ recipient_id, send_quietly recipient_id (SM_CallCancelled cancelled)).

Definition broadcast_call_update (update : UpdateParticipants) (dropping_id : ClientId) :
    Handler () :=
  let recipients : gset ClientId :=
    {[dropping_id]} ∪ list_to_set (UpdateParticipants.all_participants update).*1 in
  for_each (set_iter recipients) (λ participant_id, send_call_update participant_id update).

Definition update_everybody (update : UpdateParticipants) : Handler () :=
  for_each (UpdateParticipants.all_participants update)
    (λ kv, send_call_update kv.1 update).

Definition cancel_failed_target (call_id : CallId) (ringing_targets : list RingingTarget)
    (reason : CallCancelReason) : Handler () :=
  match ringing_targets with
  | [] => mret ()
  | first :: _ =>
    let targets : gset CallTarget := list_to_set (map rt_target ringing_targets) in
    send_quietly (rt_caller_id first) (SM_CallCancelled (mkCallCancelled call_id targets reason))
  end.

Definition fail_ringing_targets (call_id : CallId) (ringing_targets : list RingingTarget)
    (update : UpdateParticipants) (reason : CallErrorReason) : Handler () :=
  match ringing_targets with
  | [] => mret ()
  | first :: _ =>
    cancel_failed_target call_id ringing_targets (Errored reason) ;;
    for_each (UpdateParticipants.all_participants_without_self update (rt_caller_id first))
      (λ kv, send_call_update kv.1 update)
  end.

(** The invitations that the end of a call cancels: the same block in every
    loop over the actions. *)
Definition cancel_ringing_target (call_id : CallId) (ringing_target : RingingTarget) : Handler () :=
  send_call_cancelled (set_iter (rt_notified_clients ringing_target))
    (mkCallCancelled call_id {[rt_target ringing_target]} CallerCancelled).

(** ** Invitations *)

Fixpoint resolve_targets (caller_id : ClientId) (targets : list CallTarget) :
    gset CallTarget * list (CallTarget * gset ClientId) :=
  match targets with
  | [] => (∅, [])
  | target :: targets =>
    let target_clients : gset ClientId :=
      filter (λ client_id, client_id <> caller_id)
        match target with
        | TClient client_id => if is_client_connected client_id then {[client_id]} else ∅
        | TPosition position_id => clients_for_position position_id
        | TStation station_id => clients_for_station station_id
        end in
    let (not_found_targets, resolved_targets) := resolve_targets caller_id targets in
    if bool_decide (target_clients = ∅)
    then ({[target]} ∪ not_found_targets, resolved_targets)
    else (not_found_targets, (target, target_clients) :: resolved_targets)
  end.

(** The three maps the loop over the resolved targets fills. *)
Record InviteAcc := mkInviteAcc {
  acc_invited : CallParticipants;
  acc_joined : CallParticipants;
  acc_all_targets : CallParticipants
}.

(** The loop; [None] is an early return of the handler. *)
Fixpoint attempt_targets (caller_id : ClientId) (invite : CallInvite)
    (resolved_targets : list (CallTarget * gset ClientId)) (acc : InviteAcc) :
    Handler (option InviteAcc) :=
  match resolved_targets with
  | [] => mret (Some acc)
  | (target, target_clients) :: resolved_targets =>
    let call_id := invite_call_id invite in
    outcome ← with_calls (λ cm,
      CallManager.attempt_call cm call_id caller_id (invite_source invite) target target_clients
        (env_now env));
    match outcome with
    | Ok (invited, joined) =>
      attempt_targets caller_id invite resolved_targets
        (mkInviteAcc invited joined
           (map_extend (acc_all_targets acc)
              (map (λ target_client, (target_client, target)) (set_iter target_clients))))
    | Err CallerBusy => send_call_error caller_id call_id CallActive None ;; mret None
    | Err NotParticipant => send_call_error caller_id call_id CE_NotParticipant None ;; mret None
    | Err AlreadyParticipant =>
      send_call_error caller_id call_id (CE_AlreadyParticipant target) None ;;
      attempt_targets caller_id invite resolved_targets acc
    | Err NotConferenceLeader =>
      send_call_error caller_id call_id (CE_NotConferenceLeader target) None ;;
      attempt_targets caller_id invite resolved_targets acc
    end
  end.

(** The fan-out of the invitations; it answers the targets that failed. *)
Fixpoint send_invitations (invite : CallInvite) (acc : InviteAcc)
    (conference_leader : option ClientId) (callees : list (ClientId * CallTarget))
    (failed_targets : gset CallTarget) : Handler (gset CallTarget) :=
  match callees with
  | [] => mret failed_targets
  | (callee_id, target) :: callees =>
    let call_id := invite_call_id invite in
    let invited_targets : gset CallTarget := list_to_set (map_values (acc_invited acc)) in
    let invitation :=
      mkCallInvitation call_id (invite_source invite) target
        (filter (λ invited_target, invited_target <> target) invited_targets)
        (acc_joined acc) conference_leader (invite_prio invite) in
    sent ← send_message callee_id (SM_CallInvitation invitation);
    failed_targets ←
      match sent with
      | Ok _ => mret failed_targets
      | Err _ =>
        outcome ← with_calls (λ cm, CallManager.call_error cm call_id callee_id);
        match outcome with
        | Continued => mret failed_targets
        | TargetFailed ringing_targets _ =>
          cancel_failed_target call_id ringing_targets (Errored CallFailure) ;;
          mret ({[target]} ∪ failed_targets)
        | _ => mret ({[target]} ∪ failed_targets)
        end
      end;
    send_invitations invite acc conference_leader callees failed_targets
  end.

(** What follows the loop over the resolved targets. *)
Definition announce_invitations (caller_id : ClientId) (invite : CallInvite)
    (not_found_targets : gset CallTarget) (acc : InviteAcc) : Handler () :=
  let call_id := invite_call_id invite in
  not_found ←
    (if negb (bool_decide (not_found_targets = ∅)) then
       send_call_error caller_id call_id (TargetsNotFound not_found_targets) None ;;
       mret (bool_decide (acc_invited acc = ∅) && bool_decide (acc_joined acc = ∅))
     else mret false);
  if (not_found : bool) then mret () else
  conference_leader ← read_calls (λ cm,
    CallManager.active_call cm call_id ≫= ac_conference_leader);
  failed_targets ←
    send_invitations invite acc conference_leader (map_iter (acc_all_targets acc)) ∅;
  let update :=
    mkUpdateParticipants call_id
      (filter (λ kv, kv.2 ∉ failed_targets) (acc_invited acc))
      (acc_joined acc) conference_leader in
  for_each (map_iter (acc_invited acc) ++ map_iter (acc_joined acc)) (λ kv,
    if bool_decide (failed_targets = ∅)
       && bool_decide (is_Some (acc_all_targets acc !! kv.1))
    then mret () else send_call_update kv.1 update).

Definition handle_call_invite (caller_id : ClientId) (invite : CallInvite) : Handler () :=
  let call_id := invite_call_id invite in
  if negb (bool_decide (source_client_id (invite_source invite) = caller_id)) then
    send_call_error caller_id call_id CE_Other (Some "Source client ID mismatch"%string)
  else if bool_decide (invite_targets invite = ∅) then
    send_call_error caller_id call_id CE_Other (Some "No targets specified"%string)
  else
  let (not_found_targets, resolved_targets) :=
    resolve_targets caller_id (set_iter (invite_targets invite)) in
  match resolved_targets with
  | [] => send_call_error caller_id call_id (TargetsNotFound not_found_targets) None
  | _ :: _ =>
    exceeds ← read_calls (λ cm,
      CallManager.invite_exceeds_max_conf_size cm call_id caller_id
        (list_to_set resolved_targets.*1));
    if (exceeds : bool) then
      send_call_error caller_id call_id (MaxConferenceSizeReached (invite_targets invite)) None
    else
    match check_call_invite env caller_id (length resolved_targets) with
    | Err (RateLimitedUntil until) =>
      send_own caller_id (SM_Error (with_call_id
        (Error_new (RateLimited (invite_targets invite) (as_secs until))) call_id))
    | Err TooManyTargets =>
      send_call_error caller_id call_id CE_Other (Some "Too many targets"%string)
    | Ok _ =>
      acc ← attempt_targets caller_id invite resolved_targets (mkInviteAcc ∅ ∅ ∅);
      match acc with
      | None => mret ()
      | Some acc => announce_invitations caller_id invite not_found_targets acc
      end
    end
  end.

(** ** Accepting *)

(** What follows the end of the call of a participant that could not be told of
    the acceptance. *)
Definition announce_unreachable (call_id : CallId) (participant_id : ClientId)
    (action : UpdateCallAction) : Handler () :=
  match action with
  | CancelRingingTarget ringing_target => cancel_ringing_target call_id ringing_target
  | DropParticipant _ dropped_participant_id =>
    send_quietly dropped_participant_id
      (SM_CallError (mkCallError call_id (SignalingFailure participant_id) None)) ;;
    send_quietly dropped_participant_id (SM_CallEnd (mkCallEnd call_id participant_id))
  | UpdateParticipantsAction update => update_everybody update
  end.

(** One participant is told of the acceptance. *)
Definition announce_acceptance (call_id : CallId) (update : UpdateParticipants)
    (participant_id : ClientId) : Handler () :=
  sent ← send_message participant_id
    (SM_CallUpdate (UpdateParticipants.for_recipient update participant_id));
  match sent with
  | Ok _ => mret ()
  | Err _ =>
    actions ← with_calls (λ cm, CallManager.end_call cm call_id participant_id);
    match actions with
    | None => mret ()
    | Some actions => for_each actions (announce_unreachable call_id participant_id)
    end
  end.

Definition handle_call_accept (answerer_id : ClientId) (accept : CallAccept) : Handler () :=
  let call_id := accept_call_id accept in
  if negb (bool_decide (accepting_client_id accept = answerer_id)) then
    send_call_error answerer_id call_id CE_Other (Some "Accepting client ID mismatch"%string)
  else
  outcome ← with_calls (λ cm, CallManager.accept_call cm call_id answerer_id (env_now env));
  match outcome with
  | AcceptorBusy =>
    send_call_error answerer_id call_id CallActive None ;;
    outcome ← with_calls (λ cm,
      CallManager.fail_ringing_recipient cm call_id answerer_id CallActive);
    match outcome with
    | TargetFailed ringing_targets update =>
      fail_ringing_targets call_id ringing_targets update CallActive
    | _ => mret ()
    end
  | AcceptNotFound => send_call_error answerer_id call_id CallFailure None
  | AcceptedCall accepted_target update =>
    for_each (map_keys (up_invited_participants update))
      (λ participant_id, send_call_update participant_id update) ;;
    for_each (map_keys (up_joined_participants update))
      (announce_acceptance call_id update) ;;
    if 1 <? size (rt_notified_clients accepted_target) then
      send_call_cancelled
        (filter (λ callee_id, callee_id <> answerer_id)
           (set_iter (rt_notified_clients accepted_target)))
        (mkCallCancelled call_id ∅ (AnsweredElsewhere answerer_id))
    else mret ()
  end.

(** ** Rejecting *)

Definition handle_call_reject (rejecter_id : ClientId) (reject : CallReject) : Handler () :=
  let call_id := reject_call_id reject in
  if negb (bool_decide (rejecting_client_id reject = rejecter_id)) then
    send_call_error rejecter_id call_id CE_Other (Some "Rejecting client ID mismatch"%string)
  else
  outcome ← with_calls (λ cm, CallManager.reject_call cm call_id rejecter_id);
  match outcome with
  | CallNotFound | ClientNotNotified => send_call_error rejecter_id call_id CallFailure None
  | Continued | ChangedActions _ => mret ()
  | TargetFailed ringing_targets update =>
    cancel_failed_target call_id ringing_targets (CC_Rejected (reject_reason reject)) ;;
    update_everybody update
  end.

(** ** Ending *)

Definition announce_end (ender_id : ClientId) (call_end : CallEnd) (action : UpdateCallAction) :
    Handler () :=
  let call_id := ce_call_id call_end in
  match action with
  | CancelRingingTarget ringing_target => cancel_ringing_target call_id ringing_target
  | DropParticipant _ participant_id =>
    sent ← send_message participant_id (SM_CallEnd call_end);
    match sent with
    | Ok _ => mret ()
    | Err _ => send_call_error ender_id call_id (SignalingFailure participant_id) None
    end
  | UpdateParticipantsAction update => update_everybody update
  end.

Definition handle_call_end (ender_id : ClientId) (call_end : CallEnd) : Handler () :=
  let call_id := ce_call_id call_end in
  if negb (bool_decide (ending_client_id call_end = ender_id)) then
    send_call_error ender_id call_id CE_Other (Some "Ending client ID mismatch"%string)
  else
  actions ← with_calls (λ cm, CallManager.end_call cm call_id ender_id);
  match actions with
  | None => send_call_error ender_id call_id CE_CallNotFound None
  | Some actions => for_each actions (announce_end ender_id call_end)
  end.

(** ** Dead links *)

Definition announce_eviction (call_id : CallId) (evicted : ClientId) (action : UpdateCallAction) :
    Handler () :=
  match action with
  | CancelRingingTarget ringing_target => cancel_ringing_target call_id ringing_target
  | DropParticipant _ participant_id =>
    send_quietly participant_id (SM_CallEnd (mkCallEnd call_id evicted))
  | UpdateParticipantsAction update => update_everybody update
  end.

Definition handle_link_failure_report (reporter_id : ClientId) (call_id : CallId)
    (peer_id : ClientId) : Handler () :=
  outcome ← with_calls (λ cm,
    CallManager.report_link_failure cm call_id reporter_id peer_id (env_now env));
  match outcome with
  | InvalidReport | Recorded => mret ()
  | Evicted evicted unreachable actions =>
    send_quietly evicted
      (SM_CallError (mkCallError call_id (PeerConnectionFailed unreachable) None)) ;;
    send_quietly evicted (SM_CallEnd (mkCallEnd call_id evicted)) ;;
    for_each actions (announce_eviction call_id evicted)
  end.

(** ** Errors *)

Definition survivor_error (reason : CallErrorReason) : bool :=
  match reason with
  | WebrtcFailure _ | AudioFailure _ | SignalingFailure _ => true
  | _ => false
  end.

Definition announce_error (erroring_id : ClientId) (call_id : CallId) (reason : CallErrorReason)
    (action : UpdateCallAction) : Handler () :=
  let error := SM_CallError (mkCallError call_id reason None) in
  match action with
  | CancelRingingTarget ringing_target => cancel_ringing_target call_id ringing_target
  | DropParticipant _ client_id =>
    send_quietly client_id error ;;
    send_quietly client_id (SM_CallEnd (mkCallEnd call_id erroring_id))
  | UpdateParticipantsAction updates =>
    for_each (UpdateParticipants.all_participants updates) (λ kv,
      (if survivor_error reason then send_quietly kv.1 error else mret ()) ;;
      send_call_update kv.1 updates)
  end.

Definition fail_call (erroring_id : ClientId) (call_id : CallId) (reason : CallErrorReason) :
    Handler () :=
  outcome ← with_calls (λ cm, CallManager.call_error cm call_id erroring_id);
  match outcome with
  | CallNotFound | ClientNotNotified => send_call_error erroring_id call_id CallFailure None
  | Continued => mret ()
  | TargetFailed ringing_targets update =>
    fail_ringing_targets call_id ringing_targets update reason
  | ChangedActions actions => for_each actions (announce_error erroring_id call_id reason)
  end.

Definition handle_call_error (erroring_id : ClientId) (error : CallError) : Handler () :=
  let call_id := cerr_call_id error in
  match cerr_reason error with
  | WebrtcFailure client_id | AudioFailure client_id | SignalingFailure client_id =>
    if negb (bool_decide (erroring_id = client_id)) then
      send_call_error erroring_id call_id CE_Other (Some "Erroring client ID mismatch"%string)
    else fail_call erroring_id call_id (cerr_reason error)
  | CallFailure | CE_Other => fail_call erroring_id call_id (cerr_reason error)
  | PeerConnectionFailed peer_id => handle_link_failure_report erroring_id call_id peer_id
  | _ => mret ()
  end.

(** ** Dropping *)

Definition handle_call_drop_target (dropping_id : ClientId) (drop : CallDropTarget) : Handler () :=
  let call_id := drop_call_id drop in
  outcome ← with_calls (λ cm,
    CallManager.drop_target cm call_id dropping_id (drop_target_target drop) (drop_reason drop));
  match outcome with
  | DT_CallNotFound => send_call_error dropping_id call_id CE_CallNotFound None
  | NotPermitted =>
    send_call_error dropping_id call_id (CE_NotConferenceLeader (drop_target_target drop)) None ;;
    update ← read_calls (λ cm, CallManager.call_state_update cm call_id dropping_id);
    match update with
    | Some update => send_call_update dropping_id update
    | None => mret ()
    end
  | Obsolete update => send_call_update dropping_id update
  | RingingTargetCancelled ringing_target update =>
    send_call_cancelled (set_iter (rt_notified_clients ringing_target))
      (mkCallCancelled call_id {[rt_target ringing_target]}
         match drop_reason drop with
         | Requested => CallerCancelled
         | AutoHangup => Errored CE_AutoHangup
         end) ;;
    broadcast_call_update update dropping_id
  | ParticipantDropped dropped_client_id update =>
    send_quietly dropped_client_id (SM_CallEnd (mkCallEnd call_id dropping_id)) ;;
    broadcast_call_update update dropping_id
  end.

(** ** Relaying WebRTC messages *)

Definition check_webrtc_relay (client_id : ClientId) (call_id : CallId)
    (from_client_id to_client_id : ClientId) : Handler bool :=
  if negb (bool_decide (from_client_id = client_id)) then
    send_call_error client_id call_id CE_Other (Some "Source client ID mismatch"%string) ;;
    mret false
  else
  participates ← read_calls (λ cm, CallManager.has_active_call cm call_id client_id);
  if negb participates then
    send_call_error client_id call_id CallFailure None ;; mret false
  else read_calls (λ cm, CallManager.has_active_call cm call_id to_client_id).

Definition relay_webrtc_message (client_id : ClientId) (call_id : CallId) (to_client_id : ClientId)
    (message : ServerMessage) : Handler () :=
  sent ← send_message to_client_id message;
  match sent with
  | Ok _ => mret ()
  | Err _ => send_call_error client_id call_id (SignalingFailure to_client_id) None
  end.

Definition handle_webrtc_offer (client_id : ClientId) (offer : WebrtcOffer) : Handler () :=
  relay ← check_webrtc_relay client_id (offer_call_id offer) (offer_from offer) (offer_to offer);
  if negb relay then mret ()
  else relay_webrtc_message client_id (offer_call_id offer) (offer_to offer) (SM_WebrtcOffer offer).

Definition handle_webrtc_answer (client_id : ClientId) (answer : WebrtcAnswer) : Handler () :=
  relay ← check_webrtc_relay client_id (answer_call_id answer) (answer_from answer)
    (answer_to answer);
  if negb relay then mret ()
  else
    relay_webrtc_message client_id (answer_call_id answer) (answer_to answer)
      (SM_WebrtcAnswer answer).

Definition handle_webrtc_ice_candidate (client_id : ClientId) (candidate : WebrtcIceCandidate) :
    Handler () :=
  relay ← check_webrtc_relay client_id (ice_call_id candidate) (ice_from candidate)
    (ice_to candidate);
  if negb relay then mret ()
  else
    relay_webrtc_message client_id (ice_call_id candidate) (ice_to candidate)
      (SM_WebrtcIceCandidate candidate).

(** ** Dispatch *)

(** Listing clients and stations only reads the registry; the dispatcher is
    given the two lists. *)
Definition handle_application_message (clients : list ClientInfo) (stations : list StationInfo)
    (client_id : ClientId) (message : ClientMessage) : Handler bool :=
  match message with
  | CM_ListClients => send_own client_id (SM_ClientList clients) ;; mret true
  | CM_ListStations => send_own client_id (SM_StationList stations) ;; mret true
  | CM_CallInvite invite => handle_call_invite client_id invite ;; mret true
  | CM_CallAccept accept => handle_call_accept client_id accept ;; mret true
  | CM_CallReject reject => handle_call_reject client_id reject ;; mret true
  | CM_CallEnd call_end => handle_call_end client_id call_end ;; mret true
  | CM_CallError error => handle_call_error client_id error ;; mret true
  | CM_CallDropTarget drop => handle_call_drop_target client_id drop ;; mret true
  | CM_WebrtcOffer offer => handle_webrtc_offer client_id offer ;; mret true
  | CM_WebrtcAnswer answer => handle_webrtc_answer client_id answer ;; mret true
  | CM_WebrtcIceCandidate candidate => handle_webrtc_ice_candidate client_id candidate ;; mret true
  | CM_Logout | CM_Disconnect => mret false
  | CM_Login _ | CM_Error _ => mret true
  end.

(** ** Disconnects *)

Definition send_cleanup_action (client_id : ClientId) (action : UpdateCallAction) : Handler () :=
  match action with
  | CancelRingingTarget ringing_target =>
    let recipients := set_iter (rt_notified_clients ringing_target) in
    let (recipients, reason) :=
      if bool_decide (rt_caller_id ringing_target = client_id) then (recipients, CallerCancelled)
      else (rt_caller_id ringing_target :: recipients, CC_Disconnected) in
    send_call_cancelled recipients
      (mkCallCancelled (rt_call_id ringing_target) {[rt_target ringing_target]} reason)
  | DropParticipant call_id participant_id =>
    send_quietly participant_id (SM_CallEnd (mkCallEnd call_id client_id))
  | UpdateParticipantsAction update => update_everybody update
  end.

(** [CallManager::cleanup_client_calls], with its messages *)
Definition disconnect_client (client_id : ClientId) : Handler () :=
  actions ← with_calls (λ cm, CallManager.cleanup_client_calls cm client_id);
  for_each actions (send_cleanup_action client_id).

(** ** Forwarding to the socket ([ClientSession::refresh_call_update]) *)

Definition refresh_call_update (cm : CallManager) (client_id : ClientId) (message : ServerMessage) :
    ServerMessage :=
  match message with
  | SM_CallUpdate update =>
    match CallManager.call_state_for_party cm (cu_call_id update) client_id with
    | Some current => SM_CallUpdate (UpdateParticipants.for_recipient current client_id)
    | None => message
    end
  | _ => message
  end.
End handlers.
