(* ===== verification/HandlerLogic.v ===== *)
(** HandlerLogic: a small logic for handlers. [keeps P m]: the handler keeps a
    property of the call tables. [extends m]: it only appends to the messages
    sent. [informs m c msg]: it sends [msg] to [c]. With it, the invariant of
    the call tables and the bound on the size of the calls are shown for every
    message. *)
From stdpp Require Import prelude gmap strings list.
From Stdlib Require Import NArith.
From S2P Require Import Prelude Protocol Calls CallManager CallTables CallInvariant CallLeave.
From S2P Require Import CallJoin CallReach Handlers.

Definition keeps {A : Type} (P : CallManager -> Prop) (m : Handler A) : Prop :=
  forall w, P (calls w) -> P (calls (m w).2).

Definition extends {A : Type} (m : Handler A) : Prop :=
  forall w, outbox w `prefix_of` outbox (m w).2.

Definition informs {A : Type} (m : Handler A) (c : ClientId) (msg : ServerMessage) : Prop :=
  forall w, exists ok, mkSent c msg ok ∈ outbox (m w).2.

(** The handler does not touch the call tables at all. *)
Definition only_sends {A : Type} (m : Handler A) : Prop := forall w, calls (m w).2 = calls w.

(** Every call takes at most as many places as a conference may have. *)
Definition size_ok (cm : CallManager) : Prop :=
  forall id, call_weight cm id <= N.to_nat (max_conf_size cm).

Definition server_ok (max : N) (cm : CallManager) : Prop :=
  cm_wf cm /\ size_ok cm /\ max_conf_size cm = max.

(** ** Rules *)

Section rules.
Context {A B : Type} (P : CallManager -> Prop).

Lemma keeps_ret (a : A) : keeps P (mret a).
Proof. by intros w. Qed.

Lemma keeps_bind (m : Handler A) (f : A -> Handler B) :
  keeps P m -> (forall a, keeps P (f a)) -> keeps P (a ← m; f a).
Proof.
  intros Hm Hf w Hw. unfold mbind, handler_bind. specialize (Hm w Hw).
  destruct (m w) as [a w']. by apply Hf.
Qed.

Lemma keeps_only_sends (m : Handler A) : only_sends m -> keeps P m.
Proof. intros H w. by rewrite H. Qed.

Lemma keeps_read (f : CallManager -> A) : keeps P (read_calls f).
Proof. by intros w. Qed.

Lemma keeps_calls (f : CallManager -> A * CallManager) :
  (forall cm, P cm -> P (f cm).2) -> keeps P (with_calls f).
Proof.
  intros H w Hw. unfold with_calls. specialize (H _ Hw). by destruct (f (calls w)).
Qed.

Lemma only_sends_ret (a : A) : only_sends (mret a).
Proof. by intros w. Qed.

Lemma only_sends_bind (m : Handler A) (f : A -> Handler B) :
  only_sends m -> (forall a, only_sends (f a)) -> only_sends (a ← m; f a).
Proof.
  intros Hm Hf w. unfold mbind, handler_bind. specialize (Hm w).
  destruct (m w) as [a w']. by rewrite Hf.
Qed.

Lemma extends_ret (a : A) : extends (mret a).
Proof. by intros w. Qed.

Lemma extends_bind (m : Handler A) (f : A -> Handler B) :
  extends m -> (forall a, extends (f a)) -> extends (a ← m; f a).
Proof.
  intros Hm Hf w. unfold mbind, handler_bind. specialize (Hm w).
  destruct (m w) as [a w']. etrans; [done|apply Hf].
Qed.

Lemma extends_calls (f : CallManager -> A * CallManager) : extends (with_calls f).
Proof. intros w. unfold with_calls. by destruct (f (calls w)). Qed.

Lemma extends_read (f : CallManager -> A) : extends (read_calls f).
Proof. by intros w. Qed.

Lemma informs_first c msg (m : Handler A) (f : A -> Handler B) :
  informs m c msg -> (forall a, extends (f a)) -> informs (a ← m; f a) c msg.
Proof.
  intros Hm Hf w. unfold mbind, handler_bind. destruct (Hm w) as [ok Hok].
  destruct (m w) as [a w']. exists ok. eapply elem_of_prefix; [done|apply Hf].
Qed.

Lemma informs_then c msg (m : Handler A) (f : A -> Handler B) :
  (forall a, informs (f a) c msg) -> informs (a ← m; f a) c msg.
Proof. intros Hf w. unfold mbind, handler_bind. destruct (m w) as [a w']. apply Hf. Qed.
End rules.

Section loops.
Context {A : Type}.

Lemma keeps_for_each P (l : list A) f : (forall x, x ∈ l -> keeps P (f x)) -> keeps P (for_each l f).
Proof.
  induction l as [|x l IH]; intros H; cbn; [apply keeps_ret|].
  apply keeps_bind; [apply H; left|intros _; apply IH; intros y Hy; apply H; by right].
Qed.

Lemma only_sends_for_each (l : list A) f :
  (forall x, only_sends (f x)) -> only_sends (for_each l f).
Proof.
  intros H. induction l as [|x l IH]; cbn; [apply only_sends_ret|].
  apply only_sends_bind; [apply H|done].
Qed.

Lemma extends_for_each (l : list A) f : (forall x, extends (f x)) -> extends (for_each l f).
Proof.
  intros H. induction l as [|x l IH]; cbn; [apply extends_ret|].
  apply extends_bind; [apply H|done].
Qed.

Lemma informs_for_each (l : list A) f x c msg :
  x ∈ l -> informs (f x) c msg -> (forall y, extends (f y)) -> informs (for_each l f) c msg.
Proof.
  intros Hin Hx Hf. induction l as [|y l IH]; cbn; [by apply not_elem_of_nil in Hin|].
  apply elem_of_cons in Hin as [->|Hin].
  - apply informs_first; [done|]. intros _. by apply extends_for_each.
  - apply informs_then. intros _. by apply IH.
Qed.
End loops.

#[export] Hint Resolve keeps_ret keeps_read only_sends_ret extends_ret extends_calls extends_read : vacs.

(** Walk through the structure of a handler. *)
Ltac handler_step :=
  match goal with
  | |- keeps _ (mbind _ _) => apply keeps_bind; [|intros ?]
  | |- only_sends (mbind _ _) => apply only_sends_bind; [|intros ?]
  | |- extends (mbind _ _) => apply extends_bind; [|intros ?]
  | |- keeps _ (for_each _ _) => apply keeps_for_each; intros ? _
  | |- only_sends (for_each _ _) => apply only_sends_for_each; intros ?
  | |- extends (for_each _ _) => apply extends_for_each; intros ?
  | |- keeps _ (match ?x with _ => _ end) => destruct x
  | |- only_sends (match ?x with _ => _ end) => destruct x
  | |- extends (match ?x with _ => _ end) => destruct x
  end.
Ltac handler_auto := repeat first [progress eauto with vacs | handler_step].

(** ** The sending helpers *)

Section sending.
Context {HO : HashOrder} {CD : ClientDirectory} (env : Env).

Lemma only_sends_message c msg : only_sends (send_message env c msg).
Proof. by intros w. Qed.
Lemma only_sends_own c msg : only_sends (send_own env c msg).
Proof. by intros w. Qed.
Lemma extends_message c msg : extends (send_message env c msg).
Proof. intros w. by apply prefix_app_r. Qed.
Lemma extends_own c msg : extends (send_own env c msg).
Proof. intros w. by apply prefix_app_r. Qed.
Lemma informs_message c msg : informs (send_message env c msg) c msg.
Proof. intros w. cbn. eexists. apply elem_of_app. right. by apply list_elem_of_singleton. Qed.
Lemma informs_own c msg : informs (send_own env c msg) c msg.
Proof. intros w. cbn. eexists. apply elem_of_app. right. by apply list_elem_of_singleton. Qed.
End sending.

#[export] Hint Resolve only_sends_message only_sends_own extends_message extends_own : vacs.

Section helpers.
Context {HO : HashOrder} {CD : ClientDirectory} (env : Env).

Lemma only_sends_quietly c msg : only_sends (send_quietly env c msg).
Proof. unfold send_quietly. handler_auto. Qed.
Lemma extends_quietly c msg : extends (send_quietly env c msg).
Proof. unfold send_quietly. handler_auto. Qed.
Lemma informs_quietly c msg : informs (send_quietly env c msg) c msg.
Proof. apply informs_first; [apply informs_message|intros; apply extends_ret]. Qed.

Hint Resolve only_sends_quietly extends_quietly : vacs.

Lemma only_sends_call_error c id reason msg : only_sends (send_call_error env c id reason msg).
Proof. apply only_sends_own. Qed.
Lemma extends_call_error c id reason msg : extends (send_call_error env c id reason msg).
Proof. apply extends_own. Qed.

Lemma only_sends_call_update c u : only_sends (send_call_update env c u).
Proof. apply only_sends_quietly. Qed.
Lemma extends_call_update c u : extends (send_call_update env c u).
Proof. apply extends_quietly. Qed.

Hint Resolve only_sends_call_error extends_call_error only_sends_call_update extends_call_update
  : vacs.

Lemma only_sends_cancelled l m : only_sends (send_call_cancelled env l m).
Proof. unfold send_call_cancelled. handler_auto. Qed.
Lemma extends_cancelled l m : extends (send_call_cancelled env l m).
Proof. unfold send_call_cancelled. handler_auto. Qed.
Lemma informs_cancelled l m c : c ∈ l -> informs (send_call_cancelled env l m) c (SM_CallCancelled m).
Proof.
  intros Hc. apply (informs_for_each _ _ c); [done|apply informs_quietly|intros; apply extends_quietly].
Qed.

Lemma only_sends_broadcast u c : only_sends (broadcast_call_update env u c).
Proof. unfold broadcast_call_update. handler_auto. Qed.
Lemma extends_broadcast u c : extends (broadcast_call_update env u c).
Proof. unfold broadcast_call_update. handler_auto. Qed.

Lemma only_sends_everybody u : only_sends (update_everybody env u).
Proof. unfold update_everybody. handler_auto. Qed.
Lemma extends_everybody u : extends (update_everybody env u).
Proof. unfold update_everybody. handler_auto. Qed.
Lemma informs_everybody u c :
  is_Some (up_invited_participants u !! c) \/ is_Some (up_joined_participants u !! c) ->
  informs (update_everybody env u) c (SM_CallUpdate (UpdateParticipants.for_recipient u c)).
Proof.
  intros Hc.
  assert (exists t, (c, t) ∈ UpdateParticipants.all_participants u) as [t Hin].
  { unfold UpdateParticipants.all_participants. setoid_rewrite elem_of_app.
    setoid_rewrite elem_of_map_iter. destruct Hc as [[t ?]|[t ?]]; exists t; auto. }
  apply (informs_for_each _ _ (c, t)); [done|apply informs_quietly|intros; apply extends_quietly].
Qed.

Hint Resolve only_sends_cancelled extends_cancelled only_sends_broadcast extends_broadcast
  only_sends_everybody extends_everybody : vacs.

Lemma only_sends_failed_target id l r : only_sends (cancel_failed_target env id l r).
Proof. unfold cancel_failed_target. handler_auto. Qed.
Lemma extends_failed_target id l r : extends (cancel_failed_target env id l r).
Proof. unfold cancel_failed_target. handler_auto. Qed.

Hint Resolve only_sends_failed_target extends_failed_target : vacs.

Lemma only_sends_fail_targets id l u r : only_sends (fail_ringing_targets env id l u r).
Proof. unfold fail_ringing_targets. handler_auto. Qed.
Lemma extends_fail_targets id l u r : extends (fail_ringing_targets env id l u r).
Proof. unfold fail_ringing_targets. handler_auto. Qed.

Lemma only_sends_cancel_target id rt : only_sends (cancel_ringing_target env id rt).
Proof. unfold cancel_ringing_target. handler_auto. Qed.
Lemma extends_cancel_target id rt : extends (cancel_ringing_target env id rt).
Proof. unfold cancel_ringing_target. handler_auto. Qed.

Hint Resolve only_sends_fail_targets extends_fail_targets only_sends_cancel_target
  extends_cancel_target : vacs.

(** What follows an operation only sends. *)
Lemma only_sends_announcements id c r e a :
  only_sends (announce_unreachable env id c a) /\ only_sends (announce_end env c e a) /\
  only_sends (announce_eviction env id c a) /\ only_sends (announce_error env c id r a) /\
  only_sends (send_cleanup_action env c a).
Proof.
  unfold announce_unreachable, announce_end, announce_eviction, announce_error, send_cleanup_action.
  split_and!; handler_auto.
Qed.

Lemma extends_announcements id c r e a :
  extends (announce_unreachable env id c a) /\ extends (announce_end env c e a) /\
  extends (announce_eviction env id c a) /\ extends (announce_error env c id r a) /\
  extends (send_cleanup_action env c a).
Proof.
  unfold announce_unreachable, announce_end, announce_eviction, announce_error, send_cleanup_action.
  split_and!; handler_auto.
Qed.
End helpers.

#[export] Hint Resolve only_sends_quietly extends_quietly only_sends_call_error extends_call_error
  only_sends_call_update extends_call_update only_sends_cancelled extends_cancelled
  only_sends_broadcast extends_broadcast only_sends_everybody extends_everybody
  only_sends_failed_target extends_failed_target only_sends_fail_targets extends_fail_targets
  only_sends_cancel_target extends_cancel_target : vacs.

Section announcements.
Context {HO : HashOrder} {CD : ClientDirectory} (env : Env).

Lemma only_sends_unreachable id c a : only_sends (announce_unreachable env id c a).
Proof. apply (only_sends_announcements env id c CE_Other (mkCallEnd id c) a). Qed.
Lemma only_sends_end c e a : only_sends (announce_end env c e a).
Proof. apply (only_sends_announcements env (ce_call_id e) c CE_Other e a). Qed.
Lemma only_sends_eviction id c a : only_sends (announce_eviction env id c a).
Proof. apply (only_sends_announcements env id c CE_Other (mkCallEnd id c) a). Qed.
Lemma only_sends_error id c r a : only_sends (announce_error env c id r a).
Proof. apply (only_sends_announcements env id c r (mkCallEnd id c) a). Qed.
Lemma only_sends_cleanup c a : only_sends (send_cleanup_action env c a).
Proof. apply (only_sends_announcements env (mkCallId 0) c CE_Other (mkCallEnd (mkCallId 0) c) a). Qed.

Lemma extends_unreachable id c a : extends (announce_unreachable env id c a).
Proof. apply (extends_announcements env id c CE_Other (mkCallEnd id c) a). Qed.
Lemma extends_end c e a : extends (announce_end env c e a).
Proof. apply (extends_announcements env (ce_call_id e) c CE_Other e a). Qed.
Lemma extends_eviction id c a : extends (announce_eviction env id c a).
Proof. apply (extends_announcements env id c CE_Other (mkCallEnd id c) a). Qed.
Lemma extends_error id c r a : extends (announce_error env c id r a).
Proof. apply (extends_announcements env id c r (mkCallEnd id c) a). Qed.
Lemma extends_cleanup c a : extends (send_cleanup_action env c a).
Proof. apply (extends_announcements env (mkCallId 0) c CE_Other (mkCallEnd (mkCallId 0) c) a). Qed.
End announcements.

#[export] Hint Resolve only_sends_unreachable only_sends_end only_sends_eviction only_sends_error
  only_sends_cleanup extends_unreachable extends_end extends_eviction extends_error extends_cleanup
  : vacs.

(** A handler that only sends keeps everything. *)
#[export] Hint Extern 2 (keeps _ _) => apply keeps_only_sends : vacs.

(** ** What every operation but an invitation keeps *)

Class stable {HO : HashOrder} (P : CallManager -> Prop) : Prop := {
  stable_shrinking op cm : shrinking op -> P cm -> P (exec op cm);
  stable_accept cm id c now : P cm -> P (CallManager.accept_call cm id c now).2
}.

Section operations.
Context {HO : HashOrder} (max : N).

Lemma shrinking_server_ok op cm :
  shrinking op -> server_ok max cm -> server_ok max (exec op cm).
Proof.
  intros Hop (Hwf & Hsize & Hmax). pose proof (exec_effect op cm Hop Hwf) as He.
  split; [|split].
  - apply exec_wf; [by destruct op|done].
  - intros id. rewrite (rtc_effect_max _ _ He). etrans; [by apply rtc_effect_weight|apply Hsize].
  - by rewrite (rtc_effect_max _ _ He).
Qed.

Lemma accept_server_ok cm id c now :
  server_ok max cm -> server_ok max (CallManager.accept_call cm id c now).2.
Proof.
  intros (Hwf & Hsize & Hmax).
  destruct (accept_call_cases cm id c now Hwf) as [->|(r & t & e & Hm & Hr & He & Hc & Heq)]; [done|].
  split; [by apply accept_call_wf|]. rewrite Heq. split; [|done].
  intros id'. rewrite accepted_weight by done. apply Hsize.
Qed.

#[export] Instance server_ok_stable : stable (server_ok max).
Proof. split; [apply shrinking_server_ok|apply accept_server_ok]. Qed.
End operations.

Section stable_operations.
Context {HO : HashOrder} {P : CallManager -> Prop} `{!stable P}.

Lemma keeps_reject id c : keeps P (with_calls (λ cm, CallManager.reject_call cm id c)).
Proof. apply keeps_calls. intros cm. by apply (stable_shrinking (OpReject id c)). Qed.

Lemma keeps_fail id c r :
  keeps P (with_calls (λ cm, CallManager.fail_ringing_recipient cm id c r)).
Proof. apply keeps_calls. intros cm. by apply (stable_shrinking (OpFail id c r)). Qed.

Lemma keeps_end id c : keeps P (with_calls (λ cm, CallManager.end_call cm id c)).
Proof. apply keeps_calls. intros cm. by apply (stable_shrinking (OpEnd id c)). Qed.

Lemma keeps_error id c : keeps P (with_calls (λ cm, CallManager.call_error cm id c)).
Proof. apply keeps_calls. intros cm. by apply (stable_shrinking (OpError id c)). Qed.

Lemma keeps_drop id c t r : keeps P (with_calls (λ cm, CallManager.drop_target cm id c t r)).
Proof. apply keeps_calls. intros cm. by apply (stable_shrinking (OpDrop id c t r)). Qed.

Lemma keeps_link id x y now :
  keeps P (with_calls (λ cm, CallManager.report_link_failure cm id x y now)).
Proof. apply keeps_calls. intros cm. by apply (stable_shrinking (OpLink id x y now)). Qed.

Lemma keeps_cleanup c : keeps P (with_calls (λ cm, CallManager.cleanup_client_calls cm c)).
Proof. apply keeps_calls. intros cm. by apply (stable_shrinking (OpCleanup c)). Qed.

Lemma keeps_accept id c now : keeps P (with_calls (λ cm, CallManager.accept_call cm id c now)).
Proof. apply keeps_calls. intros cm. apply stable_accept. Qed.
End stable_operations.

#[export] Hint Resolve keeps_reject keeps_fail keeps_end keeps_error keeps_drop keeps_link
  keeps_cleanup keeps_accept : vacs.

(** ** Resolving targets *)

Section resolve.
Context {HO : HashOrder} {CD : ClientDirectory}.

(** The clients that a target reaches, other than the caller. *)
Definition target_clients (caller : ClientId) (t : CallTarget) : gset ClientId :=
  filter (λ client_id, client_id <> caller)
    match t with
    | TClient client_id => if is_client_connected client_id then {[client_id]} else ∅
    | TPosition position_id => clients_for_position position_id
    | TStation station_id => clients_for_station station_id
    end.

Lemma resolve_targets_spec caller l :
  let (not_found, resolved) := resolve_targets caller l in
  (forall t, t ∈ not_found <-> t ∈ l /\ target_clients caller t = ∅) /\
  resolved = map (λ t, (t, target_clients caller t))
    (filter (λ t, target_clients caller t <> ∅) l).
Proof.
  induction l as [|t l IH]; cbn [resolve_targets]; [split; [set_solver|done]|].
  destruct (resolve_targets caller l) as [not_found resolved]. destruct IH as [IH1 IH2].
  fold (target_clients caller t). case_bool_decide as Ht.
  - rewrite filter_cons_False by (intros H; by apply H). split; [|done].
    intros t'. rewrite elem_of_union, elem_of_singleton, IH1, elem_of_cons. naive_solver.
  - rewrite filter_cons_True by done. split; [|by rewrite IH2].
    intros t'. rewrite IH1, elem_of_cons. naive_solver.
Qed.

Lemma resolve_targets_ok caller l t cs :
  (t, cs) ∈ (resolve_targets caller l).2 -> cs = target_clients caller t /\ cs <> ∅ /\ caller ∉ cs.
Proof.
  pose proof (resolve_targets_spec caller l) as H.
  destruct (resolve_targets caller l) as [not_found resolved]. destruct H as [_ ->].
  cbn. rewrite list_elem_of_In, in_map_iff. intros (t' & [= <- <-] & Hin).
  apply list_elem_of_In, list_elem_of_filter in Hin as [Hne _]. split; [done|split; [done|]].
  unfold target_clients. rewrite elem_of_filter. naive_solver.
Qed.

Lemma resolve_targets_fst caller l :
  (resolve_targets caller l).2.*1 = filter (λ t, target_clients caller t <> ∅) l.
Proof.
  pose proof (resolve_targets_spec caller l) as H.
  destruct (resolve_targets caller l) as [not_found resolved]. destruct H as [_ ->]. cbn.
  induction (filter _ l) as [|t l' IH]; [done|]. cbn in *. by f_equal.
Qed.
End resolve.

(** ** The size of a call while its invitations are attempted *)

Section room.
Context {HO : HashOrder} {CD : ClientDirectory}.

(** The target is not part of the call yet. *)
Definition new_target (cm : CallManager) (id : CallId) (t : CallTarget) : bool :=
  negb (match ringing_calls cm !! id with
        | Some call => bool_decide (is_Some (rce_targets call !! t))
        | None => false end)
  && negb (match active_calls cm !! id with
           | Some call => map_any (λ _ joined, bool_decide (joined = t)) (ace_participants call)
           | None => false end).

(** The places the call would take if all the new targets of [l] were invited. *)
Definition reserve (cm : CallManager) (id : CallId) (l : list CallTarget) : nat :=
  call_weight cm id
  + match ringing_calls cm !! id, active_calls cm !! id with None, None => 1 | _, _ => 0 end
  + length (filter (λ t, new_target cm id t) l).

Lemma set_iter_list_to_set (l : list CallTarget) :
  NoDup l -> set_iter (list_to_set l : gset CallTarget) ≡ₚ l.
Proof.
  intros Hl. apply NoDup_Permutation; [apply NoDup_set_iter|done|].
  intros t. by rewrite elem_of_set_iter, elem_of_list_to_set.
Qed.

(** The guard of the handler reserves the room. *)
Lemma guard_reserves cm id caller (l : list CallTarget) :
  NoDup l ->
  CallManager.invite_exceeds_max_conf_size cm id caller (list_to_set l) = false ->
  reserve cm id l <= N.to_nat (max_conf_size cm).
Proof.
  intros Hl. unfold CallManager.invite_exceeds_max_conf_size.
  match goal with |- context [length (filter ?P ?m)] =>
    change (length (filter P m)) with (length (filter (λ t, new_target cm id t) m)) end.
  rewrite (set_iter_list_to_set l Hl). unfold reserve, call_weight, weight.
  rewrite Nat.ltb_ge.
  destruct (ringing_calls cm !! id) as [r|], (active_calls cm !! id) as [a|]; try lia;
  case_bool_decide; lia.
Qed.

Lemma new_target_invited cm id caller source target notified now t :
  new_target (invited_state cm id caller source target notified now) id t = true ->
  new_target cm id t = true.
Proof.
  unfold new_target. cbn. rewrite lookup_insert_eq, !andb_true_iff. intros [Hr Ha]. split; [|done].
  destruct (ringing_calls cm !! id) as [r|] eqn:E; [|done].
  apply negb_true_iff, bool_decide_eq_false in Hr. apply negb_true_iff, bool_decide_eq_false.
  intros [e He]. apply Hr. cbn. destruct (decide (target = t)) as [->|Hne].
  - rewrite lookup_insert_eq. eauto.
  - rewrite lookup_insert_ne by done. eauto.
Qed.

Lemma may_invite_new cm id caller target notified :
  may_invite cm id caller target notified -> new_target cm id target = true.
Proof.
  intros Hmay. unfold new_target. apply andb_true_iff. split; apply negb_true_iff.
  - destruct (ringing_calls cm !! id) as [r|] eqn:Hr; [|done].
    apply bool_decide_eq_false. rewrite (mi_ringing _ _ _ _ _ Hmay r Hr). by intros [? ?].
  - destruct (active_calls cm !! id) as [a|] eqn:Ha; [|done].
    apply map_any_false. intros c t Hc. apply bool_decide_eq_false.
    by apply (mi_target _ _ _ _ _ Hmay a c t).
Qed.

Lemma reserve_tail cm id t l : reserve cm id l <= reserve cm id (t :: l).
Proof. unfold reserve. rewrite filter_cons. case_decide; cbn; lia. Qed.

Lemma filter_length_le {A} (P Q : A -> Prop) `{!forall x, Decision (P x), !forall x, Decision (Q x)}
    (l : list A) :
  (forall x, P x -> Q x) -> length (filter P l) <= length (filter Q l).
Proof.
  intros Himp. induction l as [|x l IH]; [done|]. rewrite !filter_cons.
  repeat case_decide; cbn; try lia. exfalso. eauto.
Qed.

(** An invitation uses room that was reserved for it. *)
Lemma attempt_reserve cm id caller source target notified now l :
  reserve (CallManager.attempt_call cm id caller source target notified now).2 id l <=
  reserve cm id (target :: l).
Proof.
  destruct (CallManager.validate_call_attempt cm id caller target notified) as [[]|e] eqn:Hv.
  2: { rewrite (attempt_call_refused _ _ _ _ _ _ _ e) by done. apply reserve_tail. }
  apply validate_ok in Hv. rewrite attempt_call_state by done.
  pose proof (may_invite_new _ _ _ _ _ Hv) as Hnew. unfold reserve.
  rewrite invited_weight, decide_True by done. rewrite filter_cons_True by by rewrite Hnew.
  pose proof (filter_length_le
    (λ t, new_target (invited_state cm id caller source target notified now) id t)
    (λ t, new_target cm id t) l) as Hle.
  assert (length (filter (λ t, new_target (invited_state cm id caller source target notified now)
    id t) l) <= length (filter (λ t, new_target cm id t) l)).
  { apply Hle. intros t Ht. apply Is_true_eq_true in Ht. apply Is_true_eq_left.
    by eapply new_target_invited. }
  cbn. rewrite lookup_insert_eq. destruct (ringing_calls cm !! id), (active_calls cm !! id); lia.
Qed.

Lemma attempt_max cm id caller source target notified now :
  max_conf_size (CallManager.attempt_call cm id caller source target notified now).2 =
    max_conf_size cm.
Proof.
  unfold CallManager.attempt_call. case_match; [|done]. by destruct (ringing_calls cm !! id).
Qed.

Lemma attempt_other_weight cm id caller source target notified now id' :
  id' <> id ->
  call_weight (CallManager.attempt_call cm id caller source target notified now).2 id' =
    call_weight cm id'.
Proof.
  intros Hne.
  destruct (CallManager.validate_call_attempt cm id caller target notified) as [[]|e] eqn:Hv.
  - apply validate_ok in Hv. rewrite attempt_call_state by done.
    rewrite invited_weight by done. by rewrite decide_False.
  - by rewrite (attempt_call_refused _ _ _ _ _ _ _ e).
Qed.

Lemma attempt_server_ok max cm id source target notified now l :
  server_ok max cm -> notified <> ∅ -> source_client_id source ∉ notified ->
  reserve cm id (target :: l) <= N.to_nat max ->
  let cm' := (CallManager.attempt_call cm id (source_client_id source) source target notified now).2
  in server_ok max cm' /\ reserve cm' id l <= N.to_nat max.
Proof.
  intros (Hwf & Hsize & Hmax) Hn Hc Hroom cm'.
  assert (reserve cm' id l <= N.to_nat max) as Hroom' by (etrans; [apply attempt_reserve|done]).
  assert (max_conf_size cm' = max) as Hmax' by by unfold cm'; rewrite attempt_max.
  split; [|done]. split; [by apply attempt_call_wf|]. split; [|done].
  intros id'. rewrite Hmax'. destruct (decide (id' = id)) as [->|Hne].
  - unfold reserve in Hroom'. lia.
  - unfold cm'. rewrite attempt_other_weight by done. rewrite <- Hmax. apply Hsize.
Qed.
End room.

(** ** Every message keeps what is stable, and what its invitations keep *)

Section messages.
Context {HO : HashOrder} {CD : ClientDirectory} (env : Env) {P : CallManager -> Prop} `{!stable P}.

Lemma send_invitations_keeps invite acc leader l failed :
  keeps P (send_invitations env invite acc leader l failed).
Proof.
  revert failed. induction l as [|[c t] l IH]; intros failed; cbn; handler_auto.
Qed.

Hint Resolve send_invitations_keeps : vacs.

Lemma announce_invitations_keeps caller invite not_found acc :
  keeps P (announce_invitations env caller invite not_found acc).
Proof. unfold announce_invitations. handler_auto. Qed.

(** What an invitation does to the tables it does while it attempts the targets
    that were resolved, within the guard. *)
Lemma handle_call_invite_attempts caller invite :
  (forall w, let l := (resolve_targets caller (set_iter (invite_targets invite))).2 in
     source_client_id (invite_source invite) = caller ->
     CallManager.invite_exceeds_max_conf_size (calls w) (invite_call_id invite) caller
       (list_to_set l.*1) = false ->
     P (calls w) -> P (calls (attempt_targets env caller invite l (mkInviteAcc ∅ ∅ ∅) w).2)) ->
  keeps P (handle_call_invite env caller invite).
Proof.
  intros Hatt. unfold handle_call_invite. case_bool_decide as Hsrc; cbn [negb]; [|handler_auto].
  case_bool_decide as Hempty; [handler_auto|].
  destruct (resolve_targets caller (set_iter (invite_targets invite))) as [not_found l].
  cbn [snd] in Hatt. destruct l as [|first resolved]; [handler_auto|].
  set (l := first :: resolved) in *. intros w Hok. unfold mbind, handler_bind, read_calls.
  destruct (CallManager.invite_exceeds_max_conf_size (calls w) (invite_call_id invite) caller
    (list_to_set l.*1)) eqn:Hguard; [done|].
  destruct (check_call_invite env caller (length l)) as [|[]]; [|done..].
  specialize (Hatt w Hsrc Hguard Hok).
  destruct (attempt_targets env caller invite l _ w) as [[acc'|] w']; [|done].
  by apply announce_invitations_keeps.
Qed.

Lemma announce_acceptance_keeps id u c : keeps P (announce_acceptance env id u c).
Proof. unfold announce_acceptance. handler_auto. Qed.

Hint Resolve announce_acceptance_keeps : vacs.

Lemma handle_call_accept_keeps c m : keeps P (handle_call_accept env c m).
Proof. unfold handle_call_accept. handler_auto. Qed.

Lemma handle_call_reject_keeps c m : keeps P (handle_call_reject env c m).
Proof. unfold handle_call_reject. handler_auto. Qed.

Lemma handle_call_end_keeps c m : keeps P (handle_call_end env c m).
Proof. unfold handle_call_end. handler_auto. Qed.

Lemma handle_call_error_keeps c m : keeps P (handle_call_error env c m).
Proof. unfold handle_call_error, fail_call, handle_link_failure_report. handler_auto. Qed.

Lemma handle_call_drop_keeps c m : keeps P (handle_call_drop_target env c m).
Proof. unfold handle_call_drop_target. handler_auto. Qed.

Lemma handle_webrtc_only_sends c :
  (forall m, only_sends (handle_webrtc_offer env c m)) /\
  (forall m, only_sends (handle_webrtc_answer env c m)) /\
  (forall m, only_sends (handle_webrtc_ice_candidate env c m)).
Proof.
  unfold handle_webrtc_offer, handle_webrtc_answer, handle_webrtc_ice_candidate,
    check_webrtc_relay, relay_webrtc_message.
  split_and!; intros m; handler_auto; try (intros w; reflexivity).
Qed.

Lemma handle_message_stable cs ss c m :
  (forall invite, m = CM_CallInvite invite -> keeps P (handle_call_invite env c invite)) ->
  keeps P (handle_application_message env cs ss c m).
Proof.
  intros Hinvite. destruct (handle_webrtc_only_sends c) as (H1 & H2 & H3).
  unfold handle_application_message.
  destruct m; handler_auto; try (by apply Hinvite); try apply handle_call_accept_keeps; try apply handle_call_reject_keeps;
    try apply handle_call_end_keeps; try apply handle_call_error_keeps;
    try apply handle_call_drop_keeps; by apply keeps_only_sends.
Qed.

Lemma disconnect_client_keeps c : keeps P (disconnect_client env c).
Proof. unfold disconnect_client. handler_auto. Qed.
End messages.

(** ** Every message keeps [server_ok] *)

Section server_messages.
Context {HO : HashOrder} {CD : ClientDirectory} (env : Env) (max : N).

Lemma attempt_targets_keeps caller invite l acc w :
  source_client_id (invite_source invite) = caller ->
  (forall t cs, (t, cs) ∈ l -> cs <> ∅ /\ caller ∉ cs) ->
  server_ok max (calls w) -> reserve (calls w) (invite_call_id invite) l.*1 <= N.to_nat max ->
  server_ok max (calls (attempt_targets env caller invite l acc w).2).
Proof.
  intros Hsrc. revert acc w. induction l as [|[t cs] l IH]; intros acc w Hl Hok Hroom; [done|].
  destruct (Hl t cs) as [Hne Hnin]; [left|].
  destruct (attempt_server_ok max (calls w) (invite_call_id invite) (invite_source invite) t cs
    (env_now env) l.*1 Hok Hne) as [Hok' Hroom']; [by rewrite Hsrc|done|].
  cbn [attempt_targets]. unfold mbind, handler_bind, with_calls. rewrite Hsrc in Hok', Hroom'.
  destruct (CallManager.attempt_call _ _ _ _ _ _ _) as [[[invited joined]|[]] cm'];
    cbn in Hok', Hroom' |- *; try done;
    (apply IH; [|done|done]; intros t' cs' Hin; apply (Hl t' cs'); by right).
Qed.

Lemma handle_call_invite_keeps caller invite :
  keeps (server_ok max) (handle_call_invite env caller invite).
Proof.
  apply (handle_call_invite_attempts env). intros w l Hsrc Hguard Hok.
  apply attempt_targets_keeps; [done| |done|].
  - intros t cs Hin. by apply (resolve_targets_ok caller _ t cs) in Hin as (_ & ? & ?).
  - destruct Hok as (_ & _ & Hmax). rewrite <- Hmax. eapply guard_reserves; [|done].
    subst l. rewrite resolve_targets_fst. apply NoDup_filter, NoDup_set_iter.
Qed.

Lemma handle_message_keeps cs ss c m :
  keeps (server_ok max) (handle_application_message env cs ss c m).
Proof.
  apply handle_message_stable; [apply _|]. intros invite _. apply handle_call_invite_keeps.
Qed.
End server_messages.

(** ** A fresh invitation *)

(** ** Parties of a call *)

Section parties.
Context {HO : HashOrder}.

Lemma party_occupies cm id c :
  CallManager.is_party cm id c = true <->
  occupies (ringing_calls cm !! id) (active_calls cm !! id) c \/
  exists t, rings (ringing_calls cm !! id) t c.
Proof.
  unfold CallManager.is_party. rewrite orb_true_iff.
  destruct (ringing_calls cm !! id) as [r|]; [rewrite ringing_involves_true|];
  destruct (active_calls cm !! id) as [a|]; rewrite ?bool_decide_eq_true;
  unfold occupies; setoid_rewrite rings_Some || (unfold rings); naive_solver.
Qed.

(** The test of [call_state_for_party] is the one of [is_party]. *)
Lemma party_test cm id c :
  (match ringing_calls cm !! id with
   | Some call => bool_decide (rce_caller_id call = c)
   | None => false
   end
   || bool_decide (is_Some (invited cm id !! c))
   || bool_decide (is_Some ((CallManager.active_call_snapshot cm id).1 !! c))) =
  CallManager.is_party cm id c.
Proof.
  unfold CallManager.is_party, invited, CallManager.active_call_snapshot. f_equal.
  - destruct (ringing_calls cm !! id) as [r|].
    + unfold RingingCallEntry.involves. f_equal. apply eq_true_iff_eq.
      rewrite bool_decide_eq_true, map_any_true, invited_participants_is_Some.
      by setoid_rewrite bool_decide_eq_true.
    + rewrite lookup_empty. by rewrite bool_decide_eq_false_2 by (by intros [? ?]).
  - destruct (active_calls cm !! id) as [a|]; [done|]. cbn. rewrite lookup_empty.
    by rewrite bool_decide_eq_false_2 by (by intros [? ?]).
Qed.
End parties.

Section fresh.
Context {HO : HashOrder} {CD : ClientDirectory} (env : Env).

Lemma set_iter_singleton (t : CallTarget) : set_iter ({[t]} : gset CallTarget) = [t].
Proof.
  assert (set_iter ({[t]} : gset CallTarget) ≡ₚ [t]) as H.
  { apply NoDup_Permutation; [apply NoDup_set_iter|apply NoDup_singleton|].
    intros t'. by rewrite elem_of_set_iter, elem_of_singleton, list_elem_of_singleton. }
  symmetry in H. by apply Permutation_length_1_inv in H.
Qed.

Lemma fresh_may_invite cm id c t cs :
  client_active_calls cm !! c = None -> ringing_calls cm !! id = None ->
  active_calls cm !! id = None -> may_invite cm id c t cs.
Proof. intros Hm Hr Ha. split; rewrite ?Hr, ?Ha; naive_solver. Qed.

(** What the handler does up to the announcements. *)
Lemma fresh_invite_handler c id source prio t w :
  source_client_id source = c -> client_active_calls (calls w) !! c = None ->
  ringing_calls (calls w) !! id = None -> active_calls (calls w) !! id = None ->
  (2 <= max_conf_size (calls w))%N -> target_clients c t <> ∅ ->
  call_invite_limiter env = None -> call_invite_per_minute_limiter env = None ->
  exists acc,
    handle_call_invite env c (mkCallInvite id source {[t]} prio) w =
      announce_invitations env c (mkCallInvite id source {[t]} prio) ∅ acc
        (mkWorld (invited_state (calls w) id c source t (target_clients c t) (env_now env))
           (outbox w)) /\
    (forall p t', (acc_invited acc !! p = Some t') <-> p ∈ target_clients c t /\ t' = t) /\
    acc_joined acc = ∅ /\ acc_all_targets acc = acc_invited acc.
Proof.
  intros Hsrc Hm Hr Ha Hmax Hne Hl1 Hl2. unfold handle_call_invite.
  cbn [invite_source invite_targets invite_call_id].
  rewrite bool_decide_eq_true_2 by done. cbn [negb].
  rewrite bool_decide_eq_false_2 by set_solver. rewrite set_iter_singleton.
  cbn [resolve_targets]. fold (target_clients c t). rewrite bool_decide_eq_false_2 by done.
  unfold mbind at 1, handler_bind at 1, read_calls.
  assert (CallManager.invite_exceeds_max_conf_size (calls w) id c
    (list_to_set [(t, target_clients c t)].*1) = false) as ->.
  { unfold CallManager.invite_exceeds_max_conf_size. rewrite Hr, Ha. cbn [fmap list_fmap fst].
    cbn [list_to_set]. rewrite (right_id_L ∅ (∪)), set_iter_singleton.
    apply Nat.ltb_ge. rewrite filter_cons. case_decide; cbn; lia. }
  unfold check_call_invite, check_n. rewrite Hl1, Hl2.
  pose proof (fresh_may_invite (calls w) id c t (target_clients c t) Hm Hr Ha) as Hmay.
  pose proof (attempt_call_state _ _ _ source _ _ (env_now env) Hmay) as Hst.
  assert (CallManager.attempt_call (calls w) id c source t (target_clients c t) (env_now env) =
    (Ok (map_collect (map (λ client, (client, t)) (set_iter (target_clients c t))), ∅),
     invited_state (calls w) id c source t (target_clients c t) (env_now env))) as Hat.
  { rewrite <- Hst. unfold CallManager.attempt_call. apply validate_ok in Hmay. rewrite Hmay.
    rewrite Hr. cbn. by rewrite Ha. }
  exists (mkInviteAcc (map_collect (map (λ client, (client, t)) (set_iter (target_clients c t)))) ∅
    (map_collect (map (λ client, (client, t)) (set_iter (target_clients c t))))).
  split; [|split; [|done]].
  - unfold mbind at 1, handler_bind at 1. cbn [attempt_targets invite_call_id invite_source].
    unfold mbind at 1, handler_bind at 1, with_calls. by rewrite Hat.
  - intros p t'. cbn. rewrite map_collect_functional.
    + rewrite list_elem_of_In, in_map_iff. split.
      * intros (p' & [= <- <-] & Hin). by apply list_elem_of_In, elem_of_set_iter in Hin.
      * intros [Hin ->]. exists p. split; [done|]. by apply list_elem_of_In, elem_of_set_iter.
    + intros p' v1 v2 H1 H2. rewrite list_elem_of_In, in_map_iff in H1, H2. naive_solver.
Qed.

Lemma send_invitations_extends invite acc leader l failed :
  extends (send_invitations env invite acc leader l failed).
Proof. revert failed. induction l as [|[c t] l IH]; intros failed; cbn; handler_auto. Qed.

Lemma send_invitations_informs invite acc leader l failed p t :
  (p, t) ∈ l ->
  informs (send_invitations env invite acc leader l failed) p
    (SM_CallInvitation (mkCallInvitation (invite_call_id invite) (invite_source invite) t
      (filter (λ t', t' <> t) (list_to_set (map_values (acc_invited acc)) : gset CallTarget))
      (acc_joined acc) leader (invite_prio invite))).
Proof.
  revert failed. induction l as [|[c t'] l IH]; intros failed Hin; [by apply not_elem_of_nil in Hin|].
  cbn [send_invitations]. apply elem_of_cons in Hin as [[= <- <-]|Hin].
  - apply informs_first; [apply informs_message|]. intros sent.
    apply extends_bind; [handler_auto|]. intros. apply send_invitations_extends.
  - do 2 (apply informs_then; intros ?). by apply IH.
Qed.

Lemma send_invitations_delivered invite acc leader l failed w :
  (forall sent p, recipient env sent p = Queued) ->
  (send_invitations env invite acc leader l failed w).1 = failed /\
  calls (send_invitations env invite acc leader l failed w).2 = calls w.
Proof.
  intros Hopen. revert failed w. induction l as [|[c t] l IH]; intros failed w; [done|].
  cbn [send_invitations]. unfold mbind, handler_bind, send_message. rewrite Hopen. cbn.
  match goal with |- (_ ?w').1 = _ /\ _ => exact (IH failed w') end.
Qed.
End fresh.
