(* ===== verification/HandlerProperties.v ===== *)
(** HandlerProperties: what the message handlers promise: the invariants of the
    tables on every exchange of messages, who may cause what, and who is told
    of it. *)
From stdpp Require Import prelude gmap strings list.
From Stdlib Require Import NArith.
From S2P Require Import Prelude Protocol Calls CallManager CallTables CallInvariant CallLeave.
From S2P Require Import CallJoin CallReach CallProperties Handlers HandlerLogic.

(** A server that has handled any messages of any clients, and their
    disconnects, each in an arbitrary environment. *)
Inductive served {HO : HashOrder} (max : N) : World -> Prop :=
| served_new : served max (mkWorld (CallManager.new max) [])
| served_message w env CD clients stations c m :
    served max w ->
    served max (handle_application_message (CD := CD) env clients stations c m w).2
| served_disconnect w env c : served max w -> served max (disconnect_client env c w).2.

(** The client that a message names as its author. *)
Definition claimed_author (m : ClientMessage) : option ClientId :=
  match m with
  | CM_CallInvite invite => Some (source_client_id (invite_source invite))
  | CM_CallAccept accept => Some (accepting_client_id accept)
  | CM_CallReject reject => Some (rejecting_client_id reject)
  | CM_CallEnd call_end => Some (ending_client_id call_end)
  | CM_WebrtcOffer offer => Some (offer_from offer)
  | CM_WebrtcAnswer answer => Some (answer_from answer)
  | CM_WebrtcIceCandidate candidate => Some (ice_from candidate)
  | CM_CallError error =>
    match cerr_reason error with
    | WebrtcFailure c | AudioFailure c | SignalingFailure c => Some c
    | _ => None
    end
  | _ => None
  end.

(** The call, the author, the addressee and the forwarded form of a WebRTC message. *)
Definition webrtc_parts (m : ClientMessage) : option (CallId * ClientId * ClientId * ServerMessage) :=
  match m with
  | CM_WebrtcOffer o => Some (offer_call_id o, offer_from o, offer_to o, SM_WebrtcOffer o)
  | CM_WebrtcAnswer a => Some (answer_call_id a, answer_from a, answer_to a, SM_WebrtcAnswer a)
  | CM_WebrtcIceCandidate i =>
    Some (ice_call_id i, ice_from i, ice_to i, SM_WebrtcIceCandidate i)
  | _ => None
  end.

(** The environment in which every message is delivered, for the witnesses. *)
Definition open_env : Env := mkEnv (λ _ _, Queued) (λ _, true) 100 None None.
Definition one_by_one : ClientDirectory := {|
  is_client_connected _ := true;
  clients_for_position _ := ∅;
  clients_for_station _ := ∅
|}.
Definition demo_world {HO : HashOrder} : World := mkWorld (demo_state 5) [].

Definition participants_of (cm : CallManager) (id : CallId) : CallParticipants :=
  match active_calls cm !! id with Some a => ace_participants a | None => ∅ end.

(** What a delivered invitation to a new call says. *)
Definition first_invitation (invite : CallInvite) (t : CallTarget) : CallInvitation :=
  mkCallInvitation (invite_call_id invite) (invite_source invite) t ∅ ∅ None (invite_prio invite).

(** ** Invariants *)

Lemma served_server_ok {HO : HashOrder} max w : served max w -> server_ok max (calls w).
Proof.
  induction 1 as [|w env CD clients stations c m _ IH|w env c _ IH].
  - split; [apply cm_wf_new|]. split; [|done]. intros id. unfold call_weight. cbn.
    rewrite !lookup_empty. cbn. lia.
  - by apply handle_message_keeps.
  - apply disconnect_client_keeps; [apply _|done].
Qed.

(** Whatever messages the clients send, in whatever order, and whatever
    becomes of the messages sent to them, the tables stay well formed and no
    call ever takes more places (participants, ringing targets, and its caller
    before anybody accepted) than the maximum size of a conference. *)
Theorem served_calls_bounded {HO : HashOrder} max w id :
  served max w ->
  cm_wf (calls w) /\ call_weight (calls w) id <= N.to_nat max /\
  size (participants_of (calls w) id) <= N.to_nat max.
Proof.
  intros (Hwf & Hsize & Hmax)%served_server_ok. specialize (Hsize id). rewrite Hmax in Hsize.
  split; [done|]. split; [done|]. unfold participants_of, call_weight, weight in *.
  destruct (active_calls (calls w) !! id); [lia|]. rewrite map_size_empty. lia.
Qed.

Lemma served_calls_bounded_witness :
  let HO := listed_order in
  let invite := mkCallInvite call1 (from_client alice) {[TClient bob; TClient carol]} false in
  let w := (handle_application_message (CD := one_by_one) open_env [] [] alice
    (CM_CallInvite invite) (mkWorld (CallManager.new 3) [])).2 in
  call_weight (calls w) call1 <= 3 /\ call_weight (calls w) call1 = 3.
Proof.
  intros HO invite w. assert (served 3 w) as H by (apply served_message, served_new).
  split; [exact (proj1 (proj2 (served_calls_bounded 3 w call1 H)))|]. vm_compute. reflexivity.
Defined.

(** ** Who may cause what *)

(** A message that names another client as its author changes no table
    and is answered with one error to the client that sent it. *)
Theorem spoofed_message_rejected {HO : HashOrder} {CD : ClientDirectory} env clients stations c m a
    w :
  claimed_author m = Some a -> a <> c ->
  let w' := (handle_application_message env clients stations c m w).2 in
  calls w' = calls w /\
  exists id text, outbox w' = outbox w ++
    [mkSent c (SM_CallError (mkCallError id CE_Other (Some text))) (own_queue_open env (outbox w))].
Proof.
  intros Ha Hne. unfold handle_application_message.
  destruct m as [| |[id src ts prio]|[id who]|[id who]|[id who rsn]|[id rsn txt]| |[id from to p]
    |[id from to p]|[id from to p]| | | |]; cbn in Ha; simplify_eq.
  - unfold handle_call_invite. cbn. rewrite bool_decide_eq_false_2 by done. cbn. eauto.
  - unfold handle_call_accept. cbn. rewrite bool_decide_eq_false_2 by done. cbn. eauto.
  - unfold handle_call_end. cbn. rewrite bool_decide_eq_false_2 by done. cbn. eauto.
  - unfold handle_call_reject. cbn. rewrite bool_decide_eq_false_2 by done. cbn. eauto.
  - unfold handle_call_error. destruct rsn; simplify_eq; cbn;
    rewrite bool_decide_eq_false_2 by done; cbn; eauto.
  - unfold handle_webrtc_offer, check_webrtc_relay. cbn. rewrite bool_decide_eq_false_2 by done.
    cbn. eauto.
  - unfold handle_webrtc_answer, check_webrtc_relay. cbn. rewrite bool_decide_eq_false_2 by done.
    cbn. eauto.
  - unfold handle_webrtc_ice_candidate, check_webrtc_relay. cbn.
    rewrite bool_decide_eq_false_2 by done. cbn. eauto.
Qed.

Lemma spoofed_message_rejected_witness :
  let HO := listed_order in
  calls (handle_application_message (CD := one_by_one) open_env [] [] bob
    (CM_CallEnd (mkCallEnd call1 alice)) demo_world).2 = calls demo_world.
Proof.
  intros HO.
  exact (proj1 (spoofed_message_rejected (CD := one_by_one) open_env [] [] bob
    (CM_CallEnd (mkCallEnd call1 alice)) alice demo_world eq_refl ltac:(discriminate))).
Defined.

(** C12: a WebRTC message changes no table. It reaches nobody but its
    addressee, and that only if sender and addressee are both participants of
    the call it belongs to; an outsider gets an error, and so does a
    participant whose message could not be delivered. *)
Theorem webrtc_relay_spec {HO : HashOrder} {CD : ClientDirectory} env clients stations c m w id to
    out :
  webrtc_parts m = Some (id, c, to, out) ->
  let w' := (handle_application_message env clients stations c m w).2 in
  calls w' = calls w /\
  outbox w' = outbox w ++
    if negb (bool_decide (is_Some (participants_of (calls w) id !! c))) then
      [mkSent c (SM_CallError (mkCallError id CallFailure None)) (own_queue_open env (outbox w))]
    else if negb (bool_decide (is_Some (participants_of (calls w) id !! to))) then []
    else match recipient env (outbox w) to with
         | Queued => [mkSent to out true]
         | _ =>
           [mkSent to out false;
            mkSent c (SM_CallError (mkCallError id (SignalingFailure to) None))
              (own_queue_open env (outbox w ++ [mkSent to out false]))]
         end.
Proof.
  intros Hm.
  assert (forall x, CallManager.has_active_call (calls w) id x =
    bool_decide (is_Some (participants_of (calls w) id !! x))) as Hactive.
  { intros x. unfold CallManager.has_active_call, participants_of.
    destruct (active_calls (calls w) !! id); [done|]. rewrite lookup_empty.
    rewrite bool_decide_eq_false_2; [done|]. by intros [? ?]. }
  unfold handle_application_message. destruct m; try done; cbn in Hm; simplify_eq;
  unfold handle_webrtc_offer, handle_webrtc_answer, handle_webrtc_ice_candidate,
    check_webrtc_relay, relay_webrtc_message, mbind, handler_bind, read_calls;
  rewrite bool_decide_eq_true_2 by done; cbn; rewrite !Hactive;
  (destruct (bool_decide (is_Some (participants_of (calls w) _ !! _))); cbn; rewrite ?Hactive; [|done]);
  (destruct (bool_decide (is_Some (participants_of (calls w) _ !! _))); cbn;
    [|by rewrite app_nil_r]);
  (destruct (recipient env (outbox w) _); cbn; [done| |]); by rewrite <- app_assoc.
Qed.

Lemma webrtc_relay_spec_witness :
  let HO := listed_order in
  let offer := mkWebrtcOffer call1 bob dave "sdp" in
  outbox (handle_application_message (CD := one_by_one) open_env [] [] bob (CM_WebrtcOffer offer)
    demo_world).2 = [].
Proof.
  intros HO offer.
  destruct (webrtc_relay_spec (CD := one_by_one) open_env [] [] bob (CM_WebrtcOffer offer) demo_world
    call1 dave (SM_WebrtcOffer offer) eq_refl) as [_ H].
  etransitivity; [exact H|]. vm_compute. reflexivity.
Defined.

(** ** Who is told *)

Ltac to_informs :=
  match goal with
  | |- exists ok, mkSent ?c ?msg ok ∈ outbox (?h ?w).2 =>
    let H := fresh in enough (informs h c msg) as H by apply H
  end.

(** The actions of the end of a call name everybody it concerned. *)
Lemma in_drops {HO : HashOrder} id a c p :
  is_Some (ace_participants a !! p) -> p <> c ->
  DropParticipant id p ∈ map (DropParticipant id)
    (map_keys (ActiveCallEntry.participants_without_self a c)).
Proof.
  intros Hp Hne. apply list_elem_of_In, in_map_iff. exists p. split; [done|].
  apply list_elem_of_In, elem_of_map_keys. rewrite participants_without_self_delete.
  by rewrite lookup_delete_ne.
Qed.

Lemma in_cancellations {HO : HashOrder} cm id outcome r t e :
  cm_wf cm -> ringing_calls cm !! id = Some r -> rce_targets r !! t = Some e ->
  CancelRingingTarget
    (mkRingingTarget id (rce_caller_id r) (rte_source e) t (rte_notified_clients e)) ∈
    cancellations cm id outcome.
Proof.
  intros Hwf Hr He. unfold cancellations. rewrite Hr. apply list_elem_of_In, in_map_iff.
  eexists. split; [done|]. apply list_elem_of_In, elem_of_complete_all_targets.
  exists t, e. by rewrite (ringing_ids cm id Hwf r).
Qed.

(** Hanging up tells everybody. When the leader or one of the last two
    participants hangs up, the call is gone from the tables, every other
    participant is sent the end of the call and everybody it still rang at is
    sent its cancellation. When another participant hangs up, everybody left
    and everybody invited is sent the new composition of the call. *)
Theorem hang_up_informs {HO : HashOrder} env id c w a :
  cm_wf (calls w) -> active_calls (calls w) !! id = Some a -> is_Some (ace_participants a !! c) ->
  let w' := (handle_call_end env c (mkCallEnd id c) w).2 in
  if closes a c then
    calls w' = close_call (calls w) id /\
    (forall p, is_Some (ace_participants a !! p) -> p <> c ->
       exists ok, mkSent p (SM_CallEnd (mkCallEnd id c)) ok ∈ outbox w') /\
    (forall t p, rings (ringing_calls (calls w) !! id) t p ->
       exists ok, mkSent p (SM_CallCancelled (mkCallCancelled id {[t]} CallerCancelled)) ok
         ∈ outbox w')
  else
    let update := mkUpdateParticipants id (invited (calls w) id) (delete c (ace_participants a))
      (ace_conference_leader (leave_entry a c)) in
    calls w' = leave_call (calls w) id a c /\
    (forall p, is_Some (invited (calls w) id !! p) \/
       (is_Some (ace_participants a !! p) /\ p <> c) ->
       exists ok, mkSent p (SM_CallUpdate (UpdateParticipants.for_recipient update p)) ok
         ∈ outbox w').
Proof.
  intros Hwf Ha Hc. unfold handle_call_end. cbn [ending_client_id ce_call_id].
  rewrite bool_decide_eq_true_2 by done. cbn [negb]. unfold mbind, handler_bind, with_calls.
  assert (forall e x, only_sends (announce_end env c e x)) as Hos by (intros; apply only_sends_end).
  assert (forall e x, extends (announce_end env c e x)) as Hex by (intros; apply extends_end).
  destruct (closes a c) eqn:Hcl.
  - rewrite (end_call_closes (calls w) id c Hwf a) by done. split; [|split].
    + by rewrite (only_sends_for_each _ _ (Hos _)).
    + intros p Hp Hne. apply (informs_for_each _ _ (DropParticipant id p)); [|apply informs_first|done].
      * apply elem_of_app. left. by apply in_drops.
      * apply informs_message.
      * intros [?|?]; [apply extends_ret|apply extends_call_error].
    + intros t p (r & e & Hr & He & Hp). eapply informs_for_each; [| |done].
      * apply elem_of_app. right. by eapply in_cancellations.
      * apply informs_cancelled. cbn. by apply elem_of_set_iter.
  - rewrite (end_call_leaves (calls w) id c Hwf a) by done. split.
    + by rewrite (only_sends_for_each _ _ (Hos _)).
    + intros p Hp. eapply informs_for_each; [by apply list_elem_of_singleton| |done].
      apply informs_everybody. cbn. destruct Hp as [Hp|[Hp Hne]]; [by left|right].
      by rewrite lookup_delete_ne.
Qed.

Lemma hang_up_informs_witness :
  let HO := listed_order in
  exists ok, mkSent carol (SM_CallEnd (mkCallEnd call1 alice)) ok ∈
    outbox (handle_call_end open_env alice (mkCallEnd call1 alice) demo_world).2.
Proof.
  intros HO. assert (cm_wf (calls demo_world)) as H by (apply demo_wf; lia).
  destruct (active_calls (calls demo_world) !! call1) as [a|] eqn:Ha;
    [|vm_compute in Ha; discriminate Ha].
  assert (active_calls (calls demo_world) !! call1 ≫= (λ a, ace_participants a !! alice) =
    Some (TClient alice)) as Halice by (vm_compute; reflexivity).
  assert (active_calls (calls demo_world) !! call1 ≫= (λ a, ace_participants a !! carol) =
    Some (TClient carol)) as Hcarol by (vm_compute; reflexivity).
  assert ((λ a, closes a alice) <$> active_calls (calls demo_world) !! call1 = Some true) as Hcl
    by (vm_compute; reflexivity).
  rewrite Ha in Halice, Hcarol, Hcl. cbn in Halice, Hcarol, Hcl.
  pose proof (hang_up_informs open_env call1 alice demo_world a H Ha
    (mk_is_Some _ _ Halice)) as Hs.
  cbn zeta in Hs. injection Hcl as Hcl. rewrite Hcl in Hs.
  apply (proj1 (proj2 Hs)); [eauto|discriminate].
Defined.

(** Accepting tells everybody: every participant of the call, the new one
    included, is sent its new composition, and every other client the answered
    target rang at is told who answered. *)
Theorem accept_informs {HO : HashOrder} env id c w r t e :
  cm_wf (calls w) -> client_active_calls (calls w) !! c = None ->
  ringing_calls (calls w) !! id = Some r -> rce_targets r !! t = Some e ->
  c ∈ rte_notified_clients e ->
  let w' := (handle_call_accept env c (mkCallAccept id c) w).2 in
  let a' := join_entry (active_calls (calls w) !! id) id (rce_caller_id r) (rte_source e) t c
    (env_now env) in
  let update := mkUpdateParticipants id
    (RingingCallEntry.invited_participants (set_targets r (delete t (rce_targets r))))
    (ace_participants a') (ace_conference_leader a') in
  (forall p, is_Some (ace_participants a' !! p) ->
     exists ok, mkSent p (SM_CallUpdate (UpdateParticipants.for_recipient update p)) ok
       ∈ outbox w') /\
  (forall p, p ∈ rte_notified_clients e -> p <> c ->
     exists ok, mkSent p (SM_CallCancelled (mkCallCancelled id ∅ (AnsweredElsewhere c))) ok
       ∈ outbox w').
Proof.
  intros Hwf Hm Hr He Hc w' a' update.
  assert (handle_call_accept env c (mkCallAccept id c) w =
    (for_each (map_keys (up_invited_participants update))
       (λ participant_id, send_call_update env participant_id update) ;;
     for_each (map_keys (up_joined_participants update)) (announce_acceptance env id update) ;;
     if 1 <? size (rte_notified_clients e) then
       send_call_cancelled env
         (filter (λ callee_id, callee_id <> c) (set_iter (rte_notified_clients e)))
         (mkCallCancelled id ∅ (AnsweredElsewhere c))
     else mret ())
    (mkWorld (accepted (calls w) id r t e c (env_now env)) (outbox w))) as Heq.
  { unfold handle_call_accept. cbn [accepting_client_id accept_call_id].
    rewrite bool_decide_eq_true_2 by done. cbn [negb].
    unfold mbind at 1, handler_bind at 1, with_calls.
    by rewrite (accept_call_state (calls w) id c (env_now env) r t e) by done. }
  subst w'. rewrite Heq.
  assert (forall p, extends (announce_acceptance env id update p)) as Hacc.
  { intros p. unfold announce_acceptance. handler_auto. }
  assert (forall p, extends (send_call_update env p update)) as Hupd by (intros; apply extends_call_update).
  split.
  - intros p Hp. to_informs. apply informs_then. intros _. apply informs_first.
    + apply (informs_for_each _ _ p); [by apply elem_of_map_keys| |done].
      apply informs_first; [apply informs_message|]. intros a. unfold announce_acceptance. handler_auto.
    + intros _. handler_auto.
  - intros p Hp Hne. to_informs. apply informs_then. intros _. apply informs_then. intros _.
    assert (2 <= size (rte_notified_clients e)) as Hsize.
    { assert (size ({[p; c]} : gset ClientId) = 2) as <-.
      { rewrite size_union by set_solver. by rewrite !size_singleton. }
      apply subseteq_size. set_solver. }
    destruct (Nat.ltb_spec 1 (size (rte_notified_clients e))); [|lia].
    apply informs_cancelled. apply list_elem_of_filter. split; [done|]. by apply elem_of_set_iter.
Qed.

Lemma accept_informs_witness :
  let HO := listed_order in
  let w := mkWorld (demo_state 5) [] in
  (exists ok, mkSent bob (SM_CallUpdate (mkCallUpdate call1 ∅
     {[alice := TClient alice; bob := TClient bob; carol := TClient carol; dave := TClient dave]}
     (Some alice))) ok ∈ outbox (handle_call_accept open_env dave (mkCallAccept call1 dave) w).2).
Proof.
  intros HO w. assert (cm_wf (calls w)) as H by (apply demo_wf; lia).
  set (r := RingingCallEntry.new call1 alice (from_client alice) (TClient dave) {[dave]} 40).
  set (e := RingingTargetEntry.new (from_client alice) {[dave]} 40).
  assert (client_active_calls (calls w) !! dave = None) as Hm by (vm_compute; reflexivity).
  assert (ringing_calls (calls w) !! call1 = Some r) as Hr by (vm_compute; reflexivity).
  assert (rce_targets r !! TClient dave = Some e) as He by (vm_compute; reflexivity).
  assert (dave ∈ rte_notified_clients e) as Hc by (cbn; set_solver).
  pose proof (proj1 (accept_informs open_env call1 dave w r (TClient dave) e H Hm Hr He Hc) bob) as Hs.
  set (u := UpdateParticipants.for_recipient _ bob) in Hs.
  assert (u = mkCallUpdate call1 ∅
     {[alice := TClient alice; bob := TClient bob; carol := TClient carol; dave := TClient dave]}
     (Some alice)) as Hu by (vm_compute; reflexivity).
  rewrite <- Hu. apply Hs. vm_compute. eexists. reflexivity.
Defined.

(** A disconnect tells everybody in the client's own call, as hanging up
    does, and the tables become those that the call manager computed. *)
Theorem disconnect_informs {HO : HashOrder} env id c w a :
  cm_wf (calls w) -> active_calls (calls w) !! id = Some a -> is_Some (ace_participants a !! c) ->
  let w' := (disconnect_client env c w).2 in
  calls w' = (CallManager.cleanup_client_calls (calls w) c).2 /\
  if closes a c then
    (forall p, is_Some (ace_participants a !! p) -> p <> c ->
       exists ok, mkSent p (SM_CallEnd (mkCallEnd id c)) ok ∈ outbox w') /\
    (forall r t e p, ringing_calls (calls w) !! id = Some r -> rce_targets r !! t = Some e ->
       p ∈ rte_notified_clients e ->
       exists ok, mkSent p (SM_CallCancelled (mkCallCancelled id {[t]}
           (if bool_decide (rce_caller_id r = c) then CallerCancelled else CC_Disconnected))) ok
         ∈ outbox w')
  else
    let update := mkUpdateParticipants id (invited (calls w) id) (delete c (ace_participants a))
      (ace_conference_leader (leave_entry a c)) in
    forall p, is_Some (invited (calls w) id !! p) \/
       (is_Some (ace_participants a !! p) /\ p <> c) ->
       exists ok, mkSent p (SM_CallUpdate (UpdateParticipants.for_recipient update p)) ok
         ∈ outbox w'.
Proof.
  intros Hwf Ha Hc w'.
  assert (client_active_calls (calls w) !! c = Some id) as Hm by by apply (active_marker (calls w) id a c).
  assert (forall x, only_sends (send_cleanup_action env c x)) as Hos by (intros; apply only_sends_cleanup).
  assert (forall x, extends (send_cleanup_action env c x)) as Hex by (intros; apply extends_cleanup).
  pose proof (cleanup_own_call_spec (calls w) c Hwf) as Hown. unfold own_call_spec in Hown.
  rewrite Hm, Ha in Hown.
  assert (w' = (for_each (CallManager.cleanup_client_calls (calls w) c).1
    (send_cleanup_action env c)
    (mkWorld (CallManager.cleanup_client_calls (calls w) c).2 (outbox w))).2) as Heq.
  { unfold w', disconnect_client, mbind, handler_bind, with_calls.
    by destruct (CallManager.cleanup_client_calls (calls w) c). }
  rewrite Heq. split; [by rewrite (only_sends_for_each _ _ Hos)|].
  assert (forall x, x ∈ (CallManager.cleanup_own_call (calls w) c).1 ->
    x ∈ (CallManager.cleanup_client_calls (calls w) c).1) as Hin.
  { intros x Hx. unfold CallManager.cleanup_client_calls.
    destruct (CallManager.cleanup_own_call (calls w) c) as [own cm1].
    destruct (CallManager.cleanup_incoming cm1 c) as [incoming cm2]. cbn in *.
    apply elem_of_app. by left. }
  destruct (closes a c) eqn:Hcl; rewrite Hown in Hin; cbn [fst] in Hin.
  - split.
    + intros p Hp Hne. to_informs.
      apply (informs_for_each _ _ (DropParticipant id p)); [|apply informs_quietly|done].
      apply Hin. pose proof (in_drops id a c p Hp Hne).
      case_match; apply elem_of_app; [by right|by left].
    + intros r t e p Hr He Hp. to_informs. eapply informs_for_each; [apply Hin| |done].
      * pose proof (in_cancellations (calls w) id Aborted r t e Hwf Hr He) as Hcan.
        rewrite Hr. destruct (bool_decide (rce_caller_id r = c)); apply elem_of_app;
          [left|right]; exact Hcan.
      * cbn [send_cleanup_action rt_caller_id rt_notified_clients rt_call_id rt_target].
        case_bool_decide; apply informs_cancelled; [|right]; by apply elem_of_set_iter.
  - cbn zeta. intros p Hp. to_informs. eapply informs_for_each; [apply Hin| |done].
    + by apply list_elem_of_singleton.
    + apply informs_everybody. cbn. destruct Hp as [Hp|[Hp Hne]]; [by left|right].
      by rewrite lookup_delete_ne.
Qed.

Lemma disconnect_informs_witness :
  let HO := listed_order in
  exists ok, mkSent carol (SM_CallEnd (mkCallEnd call1 alice)) ok ∈
    outbox (disconnect_client open_env alice demo_world).2.
Proof.
  intros HO. assert (cm_wf (calls demo_world)) as H by (apply demo_wf; lia).
  destruct (active_calls (calls demo_world) !! call1) as [a|] eqn:Ha;
    [|vm_compute in Ha; discriminate Ha].
  assert (active_calls (calls demo_world) !! call1 ≫= (λ a, ace_participants a !! alice) =
    Some (TClient alice)) as Halice by (vm_compute; reflexivity).
  assert (active_calls (calls demo_world) !! call1 ≫= (λ a, ace_participants a !! carol) =
    Some (TClient carol)) as Hcarol by (vm_compute; reflexivity).
  assert ((λ a, closes a alice) <$> active_calls (calls demo_world) !! call1 = Some true) as Hcl
    by (vm_compute; reflexivity).
  rewrite Ha in Halice, Hcarol, Hcl. cbn in Halice, Hcarol, Hcl.
  pose proof (disconnect_informs open_env call1 alice demo_world a H Ha
    (mk_is_Some _ _ Halice)) as Hs.
  cbn zeta in Hs. injection Hcl as Hcl. rewrite Hcl in Hs.
  apply (proj1 (proj2 Hs)); [eauto|discriminate].
Defined.

(** ** Invitations *)

(** An invitation that would make the call too large, or that the rate
    limits refuse, changes no table and rings at nobody: its only effect is
    one message to the caller. The limits are charged one cell per reachable
    target, and both have to pass. *)
Theorem invite_limits {HO : HashOrder} {CD : ClientDirectory} env c invite w :
  source_client_id (invite_source invite) = c -> invite_targets invite <> ∅ ->
  let id := invite_call_id invite in
  let (not_found, resolved) := resolve_targets c (set_iter (invite_targets invite)) in
  let n := N.max (N.min (N.of_nat (length resolved)) u32_max) 1 in
  let passes limiter := match limiter with
                        | None => True
                        | Some check => check c n = Pass
                        end in
  resolved <> [] ->
  N.to_nat (max_conf_size (calls w)) < reserve (calls w) id resolved.*1 \/
  ~ (passes (call_invite_limiter env) /\ passes (call_invite_per_minute_limiter env)) ->
  let w' := (handle_call_invite env c invite w).2 in
  calls w' = calls w /\ exists msg, outbox w' = outbox w ++ [mkSent c msg (own_queue_open env (outbox w))].
Proof.
  intros Hsrc Hne. cbn zeta.
  pose proof (resolve_targets_fst c (set_iter (invite_targets invite))) as Hfst.
  assert (NoDup (resolve_targets c (set_iter (invite_targets invite))).2.*1) as Hnd.
  { rewrite Hfst. apply NoDup_filter, NoDup_set_iter. }
  unfold handle_call_invite. rewrite bool_decide_eq_true_2 by done. cbn [negb].
  rewrite bool_decide_eq_false_2 by done.
  destruct (resolve_targets c (set_iter (invite_targets invite))) as [not_found resolved].
  cbn in Hnd. intros Hres Hlim. destruct resolved as [|first rest]; [done|].
  set (l := first :: rest) in *. unfold mbind, handler_bind, read_calls.
  destruct (CallManager.invite_exceeds_max_conf_size (calls w) (invite_call_id invite) c
    (list_to_set l.*1)) eqn:Hguard; [cbn; eauto|].
  apply guard_reserves in Hguard; [|done]. destruct Hlim as [Hlim|Hlim]; [lia|].
  destruct (check_call_invite env c (length l)) as [|[until|]] eqn:Hcheck; [|cbn; eauto..].
  exfalso. apply Hlim. unfold check_call_invite, check_n in Hcheck.
  destruct (call_invite_limiter env) as [f|]; [destruct (f c _) eqn:Hf|];
  destruct (call_invite_per_minute_limiter env) as [g|]; try done;
  destruct (g c _) eqn:Hg; done.
Qed.

Lemma invite_limits_witness :
  let HO := listed_order in
  let CD := one_by_one in
  let invite := mkCallInvite call1 (from_client alice) {[TClient bob]} false in
  let env := mkEnv (λ _ _, Queued) (λ _, true) 100 (Some (λ _ _, NotUntil 5)) None in
  let w := mkWorld (CallManager.new 5) [] in
  calls (handle_call_invite env alice invite w).2 = calls w.
Proof.
  intros HO CD invite env w.
  pose proof (invite_limits env alice invite w eq_refl ltac:(cbn; set_solver)) as Hs.
  assert (resolve_targets alice (set_iter (invite_targets invite)) =
    (∅, [(TClient bob, {[bob]})])) as Hr by (vm_compute; reflexivity).
  cbn zeta in Hs. rewrite Hr in Hs.
  apply Hs; [discriminate|]. right. intros [H _]. discriminate H.
Defined.

(** The invited targets of a fresh call, other than the recipient's own: none. *)
Lemma fresh_other_targets {HO : HashOrder} (m : CallParticipants) (cs : gset ClientId) t :
  (forall p t', (m !! p = Some t') <-> p ∈ cs /\ t' = t) ->
  filter (λ t', t' <> t) (list_to_set (map_values m) : gset CallTarget) = ∅.
Proof.
  intros Hm. apply set_eq. intros t'. rewrite elem_of_filter, elem_of_list_to_set,
    elem_of_map_values. setoid_rewrite Hm. set_solver.
Qed.

Lemma fresh_invitations_sent {HO : HashOrder} env c id source prio t acc (cs : gset ClientId) p w :
  (forall p t', (acc_invited acc !! p = Some t') <-> p ∈ cs /\ t' = t) ->
  acc_joined acc = ∅ -> acc_all_targets acc = acc_invited acc ->
  active_calls (calls w) !! id = None -> p ∈ cs ->
  exists ok, mkSent p (SM_CallInvitation (first_invitation (mkCallInvite id source {[t]} prio) t)) ok
    ∈ outbox (announce_invitations env c (mkCallInvite id source {[t]} prio) ∅ acc w).2.
Proof.
  intros Hinv Hjoin Hall Ha Hp. unfold announce_invitations. cbn [invite_call_id].
  rewrite bool_decide_eq_true_2 by done. cbn [negb].
  unfold mbind at 1 2, handler_bind at 1 2, mret at 1, handler_ret at 1, read_calls.
  unfold CallManager.active_call. rewrite Ha. cbn [fmap option_fmap option_map].
  to_informs. apply informs_first; [|intros; handler_auto].
  assert ((p, t) ∈ map_iter (acc_all_targets acc)) as Hin.
  { rewrite Hall. apply elem_of_map_iter, Hinv. done. }
  pose proof (send_invitations_informs env (mkCallInvite id source {[t]} prio) acc None _ ∅ p t Hin)
    as Hs.
  rewrite (fresh_other_targets _ cs t Hinv), Hjoin in Hs. exact Hs.
Qed.

Lemma fresh_invitations_delivered {HO : HashOrder} env c id source prio t acc w :
  (forall sent p, recipient env sent p = Queued) ->
  calls (announce_invitations env c (mkCallInvite id source {[t]} prio) ∅ acc w).2 = calls w.
Proof.
  intros Hopen. unfold announce_invitations. cbn [invite_call_id].
  rewrite bool_decide_eq_true_2 by done. cbn [negb].
  unfold mbind, handler_bind, mret, handler_ret, read_calls.
  match goal with |- context [send_invitations env ?i ?a ?l ?m ?f w] =>
    destruct (send_invitations_delivered env i a l m f w Hopen) as [Hf Hc];
    destruct (send_invitations env i a l m f w) as [failed w1] end.
  cbn in Hf, Hc. rewrite <- Hc. apply only_sends_for_each. intros kv. handler_auto.
Qed.

(** A free client that invites one reachable target to a new call, within
    the limits, makes it ring: every client of the target is sent the
    invitation, and when the messages are delivered the tables hold exactly the
    new call. *)
Theorem fresh_invite_rings {HO : HashOrder} {CD : ClientDirectory} env c id source prio t w :
  source_client_id source = c -> client_active_calls (calls w) !! c = None ->
  ringing_calls (calls w) !! id = None -> active_calls (calls w) !! id = None ->
  (2 <= max_conf_size (calls w))%N -> target_clients c t <> ∅ ->
  call_invite_limiter env = None -> call_invite_per_minute_limiter env = None ->
  let invite := mkCallInvite id source {[t]} prio in
  let w' := (handle_call_invite env c invite w).2 in
  (forall p, p ∈ target_clients c t ->
     exists ok, mkSent p (SM_CallInvitation (first_invitation invite t)) ok ∈ outbox w') /\
  ((forall sent p, recipient env sent p = Queued) ->
   calls w' = invited_state (calls w) id c source t (target_clients c t) (env_now env)).
Proof.
  intros Hsrc Hm Hr Ha Hmax Hne Hl1 Hl2 invite w'.
  destruct (fresh_invite_handler env c id source prio t w) as (acc & Hacc & Hinv & Hjoin & Hall);
    [done..|]. fold invite in Hacc.
  assert (w' = (announce_invitations env c invite ∅ acc
    (mkWorld (invited_state (calls w) id c source t (target_clients c t) (env_now env))
       (outbox w))).2) as ->.
  { unfold w'. by rewrite Hacc. }
  split.
  - intros p Hp. by apply (fresh_invitations_sent _ _ _ _ _ _ _ (target_clients c t)).
  - intros Hopen. by apply fresh_invitations_delivered.
Qed.

Lemma fresh_invite_rings_witness :
  let HO := listed_order in
  let CD := one_by_one in
  let w := mkWorld (CallManager.new 5) [] in
  calls (handle_call_invite open_env alice
    (mkCallInvite call1 (from_client alice) {[TClient bob]} false) w).2 =
    invited_state (CallManager.new 5) call1 alice (from_client alice) (TClient bob)
      (target_clients alice (TClient bob)) 100.
Proof.
  intros HO CD w.
  apply (fresh_invite_rings open_env alice call1 (from_client alice) false (TClient bob) w);
    try reflexivity; [vm_compute; discriminate|].
  intros Hempty. assert (bob ∈ target_clients alice (TClient bob)) as Hbob.
  { apply elem_of_filter. split; [discriminate|]. apply elem_of_singleton. reflexivity. }
  rewrite Hempty in Hbob. exact (not_elem_of_empty bob Hbob).
Defined.

(** ** Updates *)

(** The update a recipient is sent. It lists as invited the targets of the
    other invited clients, never the one through which the recipient itself is
    invited, and the participants and the leader as they are. *)
Theorem update_for_recipient {HO : HashOrder} u c :
  let cu := UpdateParticipants.for_recipient u c in
  (forall t, t ∈ cu_invited_targets cu <->
     (exists p, up_invited_participants u !! p = Some t) /\
     up_invited_participants u !! c <> Some t) /\
  cu_call_id cu = up_call_id u /\
  cu_joined_participants cu = up_joined_participants u /\
  cu_conference_leader cu = up_conference_leader u.
Proof.
  split; [|done]. intros t. unfold UpdateParticipants.for_recipient. cbn.
  rewrite elem_of_list_to_set, list_elem_of_filter, elem_of_map_values. naive_solver.
Qed.

(** An update on its way to a client is replaced, when it is written to the
    socket, by the state of the call at that moment, exactly if the client is
    then a party of it: its caller, one of its participants, or a client it
    rings. Otherwise, and for every other message, nothing is changed. *)
Theorem refreshed_update_is_current {HO : HashOrder} cm c m :
  cm_wf cm ->
  refresh_call_update cm c m =
    match m with
    | SM_CallUpdate update =>
      let id := cu_call_id update in
      if CallManager.is_party cm id c then
        SM_CallUpdate (UpdateParticipants.for_recipient
          (mkUpdateParticipants id (invited cm id) (CallManager.active_call_snapshot cm id).1
             (CallManager.active_call_snapshot cm id).2) c)
      else m
    | _ => m
    end /\
  forall id, CallManager.is_party cm id c = true <->
    client_active_calls cm !! c = Some id \/
    is_Some (incoming_lookup (client_incoming_calls cm) c id).
Proof.
  intros Hwf. split.
  - unfold refresh_call_update. destruct m as [| | |update| | | | | | | | | | | | | | |]; try done.
    unfold CallManager.call_state_for_party, CallManager.call_state_if. cbn zeta.
    rewrite <- (party_test cm (cu_call_id update) c). fold (invited cm (cu_call_id update)).
    destruct (CallManager.active_call_snapshot cm (cu_call_id update)) as [joined leader].
    cbn [fst snd]. by destruct (_ || _).
  - intros id. rewrite (wf_markers _ Hwf). rewrite party_occupies. unfold is_Some.
    by setoid_rewrite (wf_incoming _ Hwf).
Qed.

Lemma refreshed_update_is_current_witness :
  let HO := listed_order in
  refresh_call_update (demo_state 5) dave (SM_ClientDisconnected bob) = SM_ClientDisconnected bob /\
  CallManager.is_party (demo_state 5) call1 dave = true.
Proof.
  intros HO. assert (cm_wf (demo_state 5)) as H by (apply demo_wf; lia).
  destruct (refreshed_update_is_current (demo_state 5) dave (SM_ClientDisconnected bob) H) as [H1 H2].
  split; [exact H1|]. apply H2. right. vm_compute. eexists. reflexivity.
Defined.
