(* ===== verification/Controllers.v ===== *)
(** Controllers: the controllers of the VATSIM network as the data feed and the
    slurper report them, [vacs-vatsim/src/lib.rs]: facility types, their
    spellings and their order, and the choice of one connection per client. *)
From stdpp Require Import prelude gmap strings list.
From Stdlib Require Import NArith Ascii.
From S2P Require Import Prelude Protocol.

(** ** Strings *)

(** [str::starts_with] *)
Definition starts_with (s prefix : string) : bool := String.prefix prefix s.

(** [str::ends_with] *)
Definition ends_with (s suffix : string) : bool :=
  (String.length suffix <=? String.length s)
  && String.eqb (String.substring (String.length s - String.length suffix) (String.length suffix) s)
       suffix.

(** [s.split('_').next_back()]: what follows the last underscore. *)
Fixpoint last_segment_from (segment s : string) : string :=
  match s with
  | EmptyString => segment
  | String c s =>
    if Ascii.eqb c "_"%char then last_segment_from EmptyString s
    else last_segment_from (segment +:+ String c EmptyString) s
  end.
Definition last_segment (s : string) : string := last_segment_from EmptyString s.

(** ** Facility types *)

Inductive FacilityType :=
| FT_Unknown
| TrafficFlow
| Radio
| Ramp
| Delivery
| Ground
| Tower
| Approach
| Departure
| Enroute
| FlightServiceStation.

#[export] Instance FacilityType_eq_dec : EqDecision FacilityType.
Proof. solve_decision. Defined.

(** The derived [Ord]: the position in the declaration. *)
Definition facility_index (f : FacilityType) : N :=
  match f with
  | FT_Unknown => 0 | TrafficFlow => 1 | Radio => 2 | Ramp => 3 | Delivery => 4 | Ground => 5
  | Tower => 6 | Approach => 7 | Departure => 8 | Enroute => 9 | FlightServiceStation => 10
  end%N.

(** [FacilityType::ALL] *)
Definition facility_ALL : list FacilityType :=
  [Ramp; Delivery; Ground; Tower; Approach; Departure; Enroute; FlightServiceStation; Radio;
   TrafficFlow].

Definition facility_as_str (f : FacilityType) : string :=
  match f with
  | Ramp => "RMP"
  | Delivery => "DEL"
  | Ground => "GND"
  | Tower => "TWR"
  | Approach => "APP"
  | Departure => "DEP"
  | Enroute => "CTR"
  | FlightServiceStation => "FSS"
  | Radio => "RDO"
  | TrafficFlow => "FMP"
  | FT_Unknown => "UNKNOWN"
  end.

Definition facility_of_suffix (suffix : string) : Result FacilityType string :=
  if bool_decide (suffix ∈ ["RMP"; "RAMP"]) then Ok Ramp
  else if bool_decide (suffix ∈ ["DEL"; "DELIVERY"]) then Ok Delivery
  else if bool_decide (suffix ∈ ["GND"; "GROUND"]) then Ok Ground
  else if bool_decide (suffix ∈ ["TWR"; "TOWER"]) then Ok Tower
  else if bool_decide (suffix ∈ ["APP"; "APPROACH"]) then Ok Approach
  else if bool_decide (suffix ∈ ["DEP"; "DEPARTURE"]) then Ok Departure
  else if bool_decide (suffix ∈ ["CTR"; "CENTER"; "ENROUTE"]) then Ok Enroute
  else if bool_decide (suffix ∈ ["FSS"; "FLIGHTSERVICESTATION"]) then Ok FlightServiceStation
  else if bool_decide (suffix ∈ ["RDO"; "RADIO"]) then Ok Radio
  else if bool_decide
    (suffix ∈ ["TMU"; "TRAFFICMANAGEMENTUNIT"; "FMP"; "FLOWMANAGEMENTPOSITION"; "TRAFFICFLOW"])
  then Ok TrafficFlow
  else Err suffix.

(** [FacilityType::from_str]; the error is the unknown suffix. *)
Definition facility_from_str (s : string) : Result FacilityType string :=
  facility_of_suffix (last_segment (to_ascii_uppercase s)).

(** [From<&str>]: an unknown suffix is the default. *)
Definition facility_from (s : string) : FacilityType :=
  match facility_from_str s with Ok f => f | Err _ => FT_Unknown end.

(** [TryFrom<u8>] *)
Definition facility_try_from_u8 (value : N) : Result FacilityType N :=
  match value with
  | 1 => Ok FlightServiceStation
  | 2 => Ok Delivery
  | 3 => Ok Ground
  | 4 => Ok Tower
  | 5 => Ok Approach
  | 6 => Ok Enroute
  | other => Err other
  end%N.

Definition from_vatsim_facility (facility : N) : FacilityType :=
  match facility_try_from_u8 facility with Ok f => f | Err _ => FT_Unknown end.

(** ** Controllers *)

Record ControllerInfo := mkControllerInfo {
  cid : ClientId;
  callsign : string;
  frequency : string;
  facility_type : FacilityType;
  visual_range : option N
}.

#[export] Instance ControllerInfo_eq_dec : EqDecision ControllerInfo.
Proof. solve_decision. Defined.

Definition facility_class (f : FacilityType) : N :=
  match f with
  | FT_Unknown => 0
  | TrafficFlow | Radio => 1
  | Ramp | Delivery | Ground | Tower | Approach | Departure | Enroute | FlightServiceStation => 2
  end%N.

Definition range_class (range : option N) : N :=
  match range with Some 0 => 0 | None => 1 | Some _ => 2 end%N.

Definition Rank : Type := N * N * N * string.

Definition rank (c : ControllerInfo) : Rank :=
  (facility_class (facility_type c), range_class (visual_range c),
   facility_index (facility_type c), callsign c).

(** The order of tuples: by the first component that differs. *)
Definition rank_cmp (a b : Rank) : comparison :=
  let '(a1, a2, a3, a4) := a in
  let '(b1, b2, b3, b4) := b in
  match N.compare a1 b1 with
  | Eq => match N.compare a2 b2 with
          | Eq => match N.compare a3 b3 with
                  | Eq => String.compare a4 b4
                  | o => o
                  end
          | o => o
          end
  | o => o
  end.

Definition rank_gtb (a b : Rank) : bool := match rank_cmp a b with Gt => true | _ => false end.

(** One step of the loop over the feed. *)
Definition index_controller (by_cid : gmap ClientId ControllerInfo) (controller : ControllerInfo) :
    gmap ClientId ControllerInfo :=
  if ends_with (callsign controller) "_SUP" then by_cid
  else
    match by_cid !! cid controller with
    | Some held =>
      if rank_gtb (rank controller) (rank held) then <[cid controller := controller]> by_cid
      else by_cid
    | None => <[cid controller := controller]> by_cid
    end.

Definition index_by_cid (controllers : list ControllerInfo) : gmap ClientId ControllerInfo :=
  foldl index_controller ∅ controllers.

(** ** Facts *)

Lemma rank_cmp_refl a : rank_cmp a a = Eq.
Proof. destruct a as [[[? ?] ?] ?]. cbn. by rewrite !N.compare_refl, str_compare_refl. Qed.

Lemma rank_cmp_eq a b : rank_cmp a b = Eq -> a = b.
Proof.
  destruct a as [[[a1 a2] a3] a4], b as [[[b1 b2] b3] b4]. cbn.
  destruct (N.compare_spec a1 b1), (N.compare_spec a2 b2), (N.compare_spec a3 b3); try done.
  intros ->%str_compare_eq. by subst.
Qed.

Lemma rank_cmp_antisym a b : rank_cmp a b = CompOpp (rank_cmp b a).
Proof.
  destruct a as [[[a1 a2] a3] a4], b as [[[b1 b2] b3] b4]. cbn.
  rewrite (N.compare_antisym b1), (N.compare_antisym b2), (N.compare_antisym b3),
    (str_compare_antisym a4).
  by repeat match goal with |- context [N.compare ?x ?y] => destruct (N.compare x y) end.
Qed.

Lemma rank_cmp_trans a b c : rank_cmp a b = Lt -> rank_cmp b c = Lt -> rank_cmp a c = Lt.
Proof.
  destruct a as [[[a1 a2] a3] a4], b as [[[b1 b2] b3] b4], c as [[[c1 c2] c3] c4]. cbn.
  destruct (N.compare_spec a1 b1), (N.compare_spec b1 c1), (N.compare_spec a1 c1);
    try done; try lia;
  destruct (N.compare_spec a2 b2), (N.compare_spec b2 c2), (N.compare_spec a2 c2);
    try done; try lia;
  destruct (N.compare_spec a3 b3), (N.compare_spec b3 c3), (N.compare_spec a3 c3);
    try done; try lia; apply str_compare_trans_lt.
Qed.

(** At least as high a rank. *)
Definition rank_le (a b : Rank) : Prop := rank_cmp a b <> Gt.

#[export] Instance rank_le_preorder : PreOrder rank_le.
Proof.
  split.
  - intros a. unfold rank_le. by rewrite rank_cmp_refl.
  - intros a b c. unfold rank_le.
    destruct (rank_cmp a b) eqn:E1; [|destruct (rank_cmp b c) eqn:E2|done]; try done.
    + by apply rank_cmp_eq in E1 as ->.
    + intros _ _. apply rank_cmp_eq in E2 as ->. by rewrite E1.
    + intros _ _. by rewrite (rank_cmp_trans a b c).
Qed.

Lemma rank_le_antisym a b : rank_le a b -> rank_le b a -> a = b.
Proof.
  unfold rank_le. rewrite (rank_cmp_antisym b a). destruct (rank_cmp a b) eqn:E; [|done..].
  intros _ _. by apply rank_cmp_eq.
Qed.

Lemma rank_gtb_spec a b : if rank_gtb a b then rank_le b a else rank_le a b.
Proof.
  unfold rank_gtb, rank_le. rewrite (rank_cmp_antisym b a).
  by destruct (rank_cmp a b).
Qed.

(** An entry of the feed that can be indexed for a client. *)
Definition candidate (c : ClientId) (i : ControllerInfo) : Prop :=
  cid i = c /\ ends_with (callsign i) "_SUP" = false.

#[export] Instance candidate_dec c i : Decision (candidate c i).
Proof. unfold candidate. apply _. Defined.

(** What the index holds for a client after some entries: one of the entries
    with the highest rank, if there is any. *)
Definition best (l : list ControllerInfo) (c : ClientId) (held : option ControllerInfo) : Prop :=
  match held with
  | Some i => i ∈ l /\ candidate c i /\
      forall j, j ∈ l -> candidate c j -> rank_le (rank j) (rank i)
  | None => forall j, j ∈ l -> ~ candidate c j
  end.

Lemma best_skip l c held i : ~ candidate c i -> best l c held -> best (l ++ [i]) c held.
Proof.
  unfold best. destruct held as [h|].
  - intros Hi (Hin & Hc & Hmax). split; [set_solver|]. split; [done|].
    intros j [Hj| ->%list_elem_of_singleton]%elem_of_app; [by auto|done].
  - intros Hi H j [Hj| ->%list_elem_of_singleton]%elem_of_app; [by auto|done].
Qed.

Lemma best_step l m i :
  (forall c, best l c (m !! c)) -> forall c, best (l ++ [i]) c (index_controller m i !! c).
Proof.
  intros Hm c. specialize (Hm c). unfold index_controller.
  destruct (ends_with (callsign i) "_SUP") eqn:Esup.
  { apply best_skip; [|done]. unfold candidate. intros [_ ?]. congruence. }
  destruct (decide (cid i = c)) as [<-|Hne]; last first.
  { destruct (m !! cid i); [case_match|]; rewrite ?lookup_insert_ne by done;
      (apply best_skip; [|done]); by intros [? _]. }
  assert (candidate (cid i) i) as Hc by done.
  destruct (m !! cid i) as [h|] eqn:Eh; cbn in Hm.
  - destruct Hm as (Hin & Hch & Hmax).
    pose proof (rank_gtb_spec (rank i) (rank h)) as Hgt.
    destruct (rank_gtb (rank i) (rank h)).
    + rewrite lookup_insert_eq. cbn. split; [set_solver|]. split; [done|].
      intros j [Hj| ->%list_elem_of_singleton]%elem_of_app Hcj; [|reflexivity].
      etransitivity; [by apply Hmax|done].
    + rewrite Eh. cbn. split; [set_solver|]. split; [done|].
      intros j [Hj| ->%list_elem_of_singleton]%elem_of_app Hcj; [by apply Hmax|done].
  - rewrite lookup_insert_eq. cbn. split; [set_solver|]. split; [done|].
    intros j [Hj| ->%list_elem_of_singleton]%elem_of_app Hcj; [|reflexivity].
    by destruct (Hm j).
Qed.

Lemma index_by_cid_best l c : best l c (index_by_cid l !! c).
Proof.
  unfold index_by_cid. revert c. induction l as [|i l IH] using rev_ind; intros c.
  - cbn. rewrite lookup_empty. intros j Hj. by apply not_elem_of_nil in Hj.
  - rewrite foldl_app. cbn. by apply best_step.
Qed.

(** Two best entries have the same rank, and the rank has the callsign and the
    facility type in it. *)
Lemma best_unique l c i j : best l c (Some i) -> best l c (Some j) -> rank i = rank j.
Proof. intros (Hi & Hci & Hmi) (Hj & Hcj & Hmj). apply rank_le_antisym; auto. Qed.

Lemma best_perm l l' c held : l ≡ₚ l' -> best l c held -> best l' c held.
Proof.
  intros Hp. unfold best. destruct held; setoid_rewrite Hp; done.
Qed.

Lemma rank_callsign i j : rank i = rank j -> callsign i = callsign j.
Proof. unfold rank. by intros [= _ _ _ ?]. Qed.

Lemma last_segment_from_app seg s t :
  last_segment_from seg (s +:+ String "_"%char t) = last_segment t.
Proof.
  revert seg. induction s as [|c s IH]; intros seg; [done|].
  change (String c s +:+ String "_"%char t) with (String c (s +:+ String "_"%char t)).
  cbn [last_segment_from]. by destruct (Ascii.eqb c "_"%char); apply IH.
Qed.

Lemma to_ascii_uppercase_app s t :
  to_ascii_uppercase (s +:+ t) = to_ascii_uppercase s +:+ to_ascii_uppercase t.
Proof.
  induction s as [|c s IH]; [done|].
  change (String (ascii_uppercase c) (to_ascii_uppercase (s +:+ t))
    = String (ascii_uppercase c) (to_ascii_uppercase s +:+ to_ascii_uppercase t)).
  by rewrite IH.
Qed.

(** ** Properties *)

(** Of the connections a client has, the index keeps one of the highest
    rank, it never keeps a supervisor, and a client without any other
    connection is not in it. When no client has two connections with the same
    callsign, the index does not depend on the order of the feed. *)
Theorem index_by_cid_spec l l' :
  (forall i j, i ∈ l -> j ∈ l -> cid i = cid j -> callsign i = callsign j -> i = j) ->
  (forall c, best l c (index_by_cid l !! c)) /\
  (l ≡ₚ l' -> index_by_cid l = index_by_cid l').
Proof.
  intros Huniq. split; [intros c; apply index_by_cid_best|]. intros Hp.
  apply map_eq. intros c. pose proof (index_by_cid_best l c) as H1.
  pose proof (best_perm _ _ _ _ (Permutation_sym Hp) (index_by_cid_best l' c)) as H2.
  destruct (index_by_cid l !! c) as [i|] eqn:E1, (index_by_cid l' !! c) as [j|] eqn:E2.
  - pose proof (best_unique _ _ _ _ H1 H2) as Hr%rank_callsign.
    destruct H1 as (Hi & [Hci _] & _), H2 as (Hj & [Hcj _] & _).
    f_equal. apply Huniq; congruence.
  - destruct H1 as (Hi & Hci & _). by destruct (H2 i).
  - destruct H2 as (Hj & Hcj & _). by destruct (H1 j).
  - done.
Qed.

Definition feed_example : list ControllerInfo :=
  let c := ClientId_from "1000000" in
  [mkControllerInfo c "LOWW_OBS" "199.998" FT_Unknown (Some 40%N);
   mkControllerInfo c "LOWW_SUP" "199.998" FT_Unknown (Some 300%N);
   mkControllerInfo c "LOWW_TWR" "119.400" Tower (Some 50%N);
   mkControllerInfo c "LOWW_APP" "134.675" Approach (Some 0%N)].

Lemma index_by_cid_spec_witness :
  index_by_cid feed_example = index_by_cid (reverse feed_example) /\
  (callsign <$> (index_by_cid feed_example !! ClientId_from "1000000")) = Some "LOWW_TWR"%string.
Proof.
  split; [|vm_compute; reflexivity].
  apply (index_by_cid_spec feed_example (reverse feed_example)); [|by rewrite reverse_Permutation].
  assert (forall i j, In i feed_example -> In j feed_example -> callsign i = callsign j -> i = j)
    as H by (intros i j Hi Hj Hij; cbn in Hi, Hj; intuition (subst; done)).
  intros i j Hi%list_elem_of_In Hj%list_elem_of_In _ Hij. by apply H.
Defined.

(** Two connections with one callsign: the rank leaves out the frequency, and
    the first entry of the feed wins. *)
Theorem index_by_cid_order_dependent :
  exists l l', l ≡ₚ l' /\ index_by_cid l <> index_by_cid l'.
Proof.
  pose (i := mkControllerInfo (ClientId_from "1000000") "LOWW_TWR" "119.400" Tower None).
  pose (j := mkControllerInfo (ClientId_from "1000000") "LOWW_TWR" "199.998" Tower None).
  exists [i; j], [j; i]. split; [constructor|].
  intros H%(f_equal (λ m, frequency <$> (m !! ClientId_from "1000000"))). vm_compute in H. done.
Qed.

(** The suffix of a callsign, in whatever case, determines the facility
    type: what follows the last underscore is read back to the type it is the
    spelling of, whatever comes before it. *)
Theorem facility_from_callsign f callsign_prefix suffix :
  f <> FT_Unknown -> to_ascii_uppercase suffix = facility_as_str f ->
  facility_from_str suffix = Ok f /\
  facility_from_str (callsign_prefix +:+ "_" +:+ suffix) = Ok f /\
  facility_from (callsign_prefix +:+ "_" +:+ suffix) = f.
Proof.
  intros Hf Hs. unfold facility_from, facility_from_str.
  rewrite !to_ascii_uppercase_app, Hs.
  change (to_ascii_uppercase "_" +:+ facility_as_str f) with (String "_"%char (facility_as_str f)).
  unfold last_segment at 2 3. rewrite last_segment_from_app.
  by destruct f; [done|..]; vm_compute.
Qed.

Lemma facility_from_callsign_witness :
  facility_from_str "LOWW_1_Twr" = Ok Tower.
Proof.
  destruct (facility_from_callsign Tower "LOWW_1" "Twr") as (_ & H & _); [done|reflexivity|].
  exact H.
Defined.
