(* ===== verification/CoverageErrors.v ===== *)
(** CoverageErrors: the errors met while a network is loaded
    ([vacs-vatsim/src/coverage.rs]) and the fallible iterations of the standard
    library that the loading code uses.

    A [reason] that the code renders from another error with [to_string] is
    kept here as that error, and a [value] as what was rendered. *)
From stdpp Require Import prelude strings list.
From Stdlib Require Import NArith.
From Stdlib Require Import SpecFloat.
From S2P Require Import Prelude.

(** [f64], with the arithmetic of IEEE 754 *)
Abbreviation float := spec_float.
Definition zero : float := S754_zero false.

(** What is shown in the [value] of an error. *)
Inductive Shown :=
| ShownText (text : string)
| ShownFloat (value : float)
| ShownNumber (value : N)
| ShownLines (lines : list string).

Inductive ValidationError :=
| InvalidFormat (field value reason : string)
| InvalidValue (field : string) (value : Shown) (reason : string)
| OutOfRange (field : string) (value min : Shown)
| Empty (field : string)
| MissingReference (field ref_id : string)
| EmptyCoverage (station : string)
| CycleDetected (chain : list string)
| MissingParent (station parent : string)
| MutuallyExclusive (fields : list string).

Inductive IoError :=
| IO_Read (path reason : string)
| IO_Parse (path reason : string)
| IO_ReadEntry (reason : string).

Inductive CoverageError :=
| Validation (error : ValidationError)
| Io (error : IoError)
| SE_Duplicate (entity id : string)
| SE_Load (entity id : string) (reason : CoverageError)
| InContext (location : string) (error : CoverageError).

(** [CoverageError::context] *)
Definition context (error : CoverageError) (location : string) : CoverageError :=
  InContext location error.

Section iterate.
Context {A B E : Type}.

(** [for x in xs { f(x)?; } Ok(())] *)
Definition each (f : A -> Result () E) : list A -> Result () E :=
  fix each l :=
    match l with
    | [] => Ok ()
    | x :: l => match f x with Ok _ => each l | Err e => Err e end
    end.

(** [xs.into_iter().map(f).collect::<Result<Vec<_>, _>>()] *)
Definition collect (f : A -> Result B E) : list A -> Result (list B) E :=
  fix collect l :=
    match l with
    | [] => Ok []
    | x :: l =>
      match f x with
      | Ok y => match collect l with Ok l => Ok (y :: l) | Err e => Err e end
      | Err e => Err e
      end
    end.

Lemma each_ok (f : A -> Result () E) l : (each f l = Ok ()) <-> Forall (λ x, f x = Ok ()) l.
Proof.
  induction l as [|x l IH]; [split; constructor|]. cbn. rewrite Forall_cons, <- IH.
  destruct (f x) as [[]|e]; [tauto|]. split; [done|]. by intros [? _].
Qed.

Lemma each_err (f : A -> Result () E) l e : each f l = Err e -> exists x, x ∈ l /\ f x = Err e.
Proof.
  induction l as [|x l IH]; cbn; [done|]. destruct (f x) as [[]|e'] eqn:Ex.
  - intros (y & ? & ?)%IH. exists y. split; [by right|done].
  - intros [= ->]. exists x. split; [left|done].
Qed.

Lemma collect_ok (f : A -> Result B E) (g : A -> B) l :
  Forall (λ x, f x = Ok (g x)) l -> collect f l = Ok (map g l).
Proof. induction 1 as [|x l Hx _ IH]; cbn; [done|]. by rewrite Hx, IH. Qed.
End iterate.
