(* ===== verification/Profile.v ===== *)
(** Profile: the layouts a controller chooses from,
    [vacs-vatsim/src/coverage/profile.rs] with the data of
    [vacs-protocol/src/profile]: checking a layout as it was read from a file,
    copying it, collecting the stations it mentions and checking that they
    exist. Reading files and the two formats are not modelled; the pattern a
    size has to match is a parameter, as the matching is a library's. *)
From stdpp Require Import prelude gmap strings list.
From Stdlib Require Import NArith.
From Stdlib Require Import SpecFloat.
From S2P Require Import Prelude Protocol CoverageErrors.

(** [^\d+(\.\d{1,5})?(%|rem)$] *)
Class SizePattern := size_is_match : string -> bool.

(** ** Data

    The source has two copies of every type: as read ([GeoPageContainerRaw],
    ...) and checked ([GeoPageContainer], ...), with the same fields. *)
Inductive Stage := Raw | Checked.

Inductive FrequencyDisplayMode := HideAll | ShowAll.
Inductive ClientGroupMode := GroupNone | GroupFir | GroupIcao | GroupFirAndIcao.
Record ClientPageConfig := mkClientPageConfig {
  include : list string;
  exclude : list string;
  priority : list string;
  frequencies : FrequencyDisplayMode;
  grouping : ClientGroupMode
}.

Inductive CustomButtonColor :=
| Clay | Blush | Lilac | Mint | Lavender | Taupe | Cadet | Steel | Umber | Lagoon | Snow | Azure.
Inductive JustifyContent :=
| JustifyStart | JustifyEnd | SpaceBetween | SpaceAround | SpaceEvenly | JustifyCenter.
Inductive AlignItems := AlignStart | AlignEnd | AlignCenter.
Inductive FlexDirection := Row | Col.
Inductive GeoPageDividerOrientation := Horizontal | Vertical.
Inductive ProfileView := Page | Split | Cycle.

#[export] Instance ProfileView_eq_dec : EqDecision ProfileView.
Proof. solve_decision. Defined.

Inductive DirectAccessPage {stage : Stage} :=
| mkPage (rows : N) (content : DirectAccessPageContent)
with DirectAccessPageContent {stage : Stage} :=
| Keys (keys : list DirectAccessKey)
| ClientPage (client_page : ClientPageConfig)
with DirectAccessKey {stage : Stage} :=
| mkKey (label : list string) (color : option CustomButtonColor) (station_id : option StationId)
    (page : option DirectAccessPage).
Arguments DirectAccessPage stage : clear implicits.
Arguments DirectAccessPageContent stage : clear implicits.
Arguments DirectAccessKey stage : clear implicits.

Record Tab {stage : Stage} := mkTab { tab_label : list string; tab_page : DirectAccessPage stage }.
Arguments Tab stage : clear implicits.
Arguments mkTab {stage}.

Record GeoPageButton {stage : Stage} := mkButton {
  button_label : list string;
  button_size : float;
  button_color : option CustomButtonColor;
  button_page : option (DirectAccessPage stage);
  button_station_id : option StationId
}.
Arguments GeoPageButton stage : clear implicits.
Arguments mkButton {stage}.

Record GeoPageDivider {stage : Stage} := mkDivider {
  orientation : GeoPageDividerOrientation;
  thickness : float;
  divider_color : string;
  oversize : option float
}.
Arguments GeoPageDivider stage : clear implicits.
Arguments mkDivider {stage}.

Inductive GeoPageContainer {stage : Stage} :=
| mkContainer (height width : option string)
    (padding padding_left padding_right padding_top padding_bottom gap : option float)
    (justify_content : option JustifyContent) (align_items : option AlignItems)
    (direction : FlexDirection) (children : list GeoNode)
with GeoNode {stage : Stage} :=
| Container (container : GeoPageContainer)
| Button (button : GeoPageButton stage)
| Divider (divider : GeoPageDivider stage).
Arguments GeoPageContainer stage : clear implicits.
Arguments GeoNode stage : clear implicits.

Inductive ProfileType {stage : Stage} :=
| Geo (container : GeoPageContainer stage)
| Tabbed (tabs : list (Tab stage)).
Arguments ProfileType stage : clear implicits.

Record ProfileRaw := mkProfileRaw {
  raw_id : ProfileId;
  raw_view : ProfileView;
  raw_type : ProfileType Raw
}.

Record Profile := mkProfile {
  profile_id : ProfileId;
  profile_view : ProfileView;
  profile_type : ProfileType Checked;
  relevant_station_ids : gset StationId
}.

Definition view_to_string (view : ProfileView) : string :=
  match view with Page => "Page" | Split => "Split" | Cycle => "Cycle" end.

(** ** Collecting the stations ([StationIdCollector]) *)

Fixpoint page_collect {stage} (page : DirectAccessPage stage) (ids : gset StationId) :
    gset StationId :=
  match page with mkPage _ content => content_collect content ids end
with content_collect {stage} (content : DirectAccessPageContent stage) (ids : gset StationId) :
    gset StationId :=
  match content with
  | Keys keys => fold_left (λ ids key, key_collect key ids) keys ids
  | ClientPage _ => ids
  end
with key_collect {stage} (key : DirectAccessKey stage) (ids : gset StationId) : gset StationId :=
  match key with
  | mkKey _ _ station_id page =>
    let ids := match station_id with Some station_id => {[station_id]} ∪ ids | None => ids end in
    match page with Some page => page_collect page ids | None => ids end
  end.

Definition tab_collect {stage} (tab : Tab stage) (ids : gset StationId) : gset StationId :=
  page_collect (tab_page tab) ids.

Definition button_collect {stage} (button : GeoPageButton stage) (ids : gset StationId) :
    gset StationId :=
  let ids := match button_page button with Some page => page_collect page ids | None => ids end in
  match button_station_id button with Some station_id => {[station_id]} ∪ ids | None => ids end.

Fixpoint container_collect {stage} (container : GeoPageContainer stage) (ids : gset StationId) :
    gset StationId :=
  match container with
  | mkContainer _ _ _ _ _ _ _ _ _ _ _ children =>
    fold_left (λ ids child, node_collect child ids) children ids
  end
with node_collect {stage} (node : GeoNode stage) (ids : gset StationId) : gset StationId :=
  match node with
  | Container c => container_collect c ids
  | Button b => button_collect b ids
  | Divider _ => ids
  end.

Definition type_collect {stage} (t : ProfileType stage) (ids : gset StationId) : gset StationId :=
  match t with
  | Geo container => container_collect container ids
  | Tabbed tabs => fold_left (λ ids tab, tab_collect tab ids) tabs ids
  end.

(** ** Checking the stations ([ReferenceValidator<StationId>]) *)

Definition missing_station (field : string) (station_id : StationId) : CoverageError :=
  Validation (MissingReference field (station_id_str station_id)).

Section references.
Context (stations : gset StationId).

Definition station_exists (station_id : option StationId) : Result () CoverageError :=
  match station_id with
  | Some station_id =>
    if negb (bool_decide (station_id ∈ stations)) then
      Err (missing_station "station_id" station_id)
    else Ok ()
  | None => Ok ()
  end.

(** The subpage of a key is not looked at. *)
Definition key_references {stage} (key : DirectAccessKey stage) : Result () CoverageError :=
  match key with mkKey _ _ station_id _ => station_exists station_id end.

Definition content_references {stage} (content : DirectAccessPageContent stage) :
    Result () CoverageError :=
  match content with
  | Keys keys => each key_references keys
  | ClientPage _ => Ok ()
  end.

Definition page_references {stage} (page : DirectAccessPage stage) : Result () CoverageError :=
  match page with mkPage _ content => content_references content end.

Definition button_references {stage} (button : GeoPageButton stage) : Result () CoverageError :=
  match
    match button_page button with Some page => page_references page | None => Ok () end
  with
  | Ok _ => station_exists (button_station_id button)
  | Err e => Err e
  end.

Fixpoint container_references {stage} (container : GeoPageContainer stage) :
    Result () CoverageError :=
  match container with
  | mkContainer _ _ _ _ _ _ _ _ _ _ _ children => each node_references children
  end
with node_references {stage} (node : GeoNode stage) : Result () CoverageError :=
  match node with
  | Container c => container_references c
  | Button b => button_references b
  | Divider _ => Ok ()
  end.

Definition tab_references {stage} (tab : Tab stage) : Result () CoverageError :=
  page_references (tab_page tab).

Definition type_references {stage} (t : ProfileType stage) : Result () CoverageError :=
  match t with
  | Geo container => container_references container
  | Tabbed tabs => each tab_references tabs
  end.

Definition profile_validate_references (profile : Profile) : Result () CoverageError :=
  type_references (profile_type profile).
End references.

(** ** Checking a layout ([Validator]) *)

Definition label_of_3_lines (label : list string) : Result () CoverageError :=
  if 3 <? length label then
    Err (Validation (InvalidValue "label" (ShownLines label) "cannot have more than 3 lines"))
  else Ok ().

Definition station_or_page {A : Type} (station_id : option StationId) (page : option A) :
    Result () CoverageError :=
  match station_id, page with
  | Some _, Some _ => Err (Validation (MutuallyExclusive ["station_id"; "page"]))
  | _, _ => Ok ()
  end.

(** One check after the other, up to the first error. *)
Definition and_then {A B E : Type} (a : Result A E) (b : Result B E) : Result B E :=
  match a with Ok _ => b | Err e => Err e end.
Notation "a ?; b" := (and_then a b) (at level 100, b at level 200, right associativity) : vacs_scope.

(** [ClientPageConfig::validate] *)
Definition client_page_validate (client_page : ClientPageConfig) : Result () CoverageError := Ok ().

Fixpoint page_validate (page : DirectAccessPage Raw) : Result () CoverageError :=
  match page with
  | mkPage rows content =>
    if (rows =? 0)%N then Err (Validation (OutOfRange "rows" (ShownNumber rows) (ShownNumber 1)))
    else content_validate content
  end
with content_validate (content : DirectAccessPageContent Raw) : Result () CoverageError :=
  match content with
  | Keys keys => each key_validate keys
  | ClientPage client_page => client_page_validate client_page
  end
with key_validate (key : DirectAccessKey Raw) : Result () CoverageError :=
  match key with
  | mkKey label _ station_id page =>
    label_of_3_lines label ?;
    station_or_page station_id page ?;
    match page with Some page => page_validate page | None => Ok () end
  end.

Definition tab_validate (tab : Tab Raw) : Result () CoverageError :=
  if forallb (λ s, bool_decide (s = EmptyString)) (tab_label tab) then
    Err (Validation (Empty "label"))
  else label_of_3_lines (tab_label tab) ?; page_validate (tab_page tab).

Definition button_validate (button : GeoPageButton Raw) : Result () CoverageError :=
  if bool_decide (button_label button = []) then Err (Validation (Empty "label"))
  else
    label_of_3_lines (button_label button) ?;
    if SFltb (button_size button) zero then
      Err (Validation (OutOfRange "size" (ShownFloat (button_size button)) (ShownFloat zero)))
    else
      station_or_page (button_station_id button) (button_page button) ?;
      match button_page button with Some page => page_validate page | None => Ok () end.

Definition divider_validate (divider : GeoPageDivider Raw) : Result () CoverageError :=
  if SFleb (thickness divider) zero then
    Err (Validation (OutOfRange "thickness" (ShownFloat (thickness divider)) (ShownFloat zero)))
  else if bool_decide (divider_color divider = EmptyString) then
    Err (Validation (Empty "color"))
  else Ok ().

Definition not_negative (field : string) (value : option float) : Result () CoverageError :=
  match value with
  | Some value =>
    if SFltb value zero then
      Err (Validation (OutOfRange field (ShownFloat value) (ShownFloat zero)))
    else Ok ()
  | None => Ok ()
  end.

Section sizes.
Context {SP : SizePattern}.

Definition size_format (field : string) (value : option string) : Result () CoverageError :=
  match value with
  | Some value =>
    if size_is_match value then Ok ()
    else Err (Validation
      (InvalidFormat field value "must either be provided as percentage or rem"))
  | None => Ok ()
  end.

Fixpoint container_validate (container : GeoPageContainer Raw) : Result () CoverageError :=
  match container with
  | mkContainer height width padding padding_left padding_right padding_top padding_bottom gap
      _ _ _ children =>
    size_format "height" height ?;
    size_format "width" width ?;
    not_negative "padding" padding ?;
    not_negative "padding_left" padding_left ?;
    not_negative "padding_right" padding_right ?;
    not_negative "padding_top" padding_top ?;
    not_negative "padding_bottom" padding_bottom ?;
    not_negative "gap" gap ?;
    if bool_decide (length children = 0) then Err (Validation (Empty "children"))
    else each node_validate children
  end
with node_validate (node : GeoNode Raw) : Result () CoverageError :=
  match node with
  | Container c => container_validate c
  | Button b => button_validate b
  | Divider d => divider_validate d
  end.

Definition type_validate (t : ProfileType Raw) : Result () CoverageError :=
  match t with
  | Geo container => container_validate container
  | Tabbed [] => Err (Validation (Empty "tabs"))
  | Tabbed tabs => each tab_validate tabs
  end.

Definition profile_validate (raw : ProfileRaw) : Result () CoverageError :=
  if bool_decide (profile_id_str (raw_id raw) = EmptyString) then Err (Validation (Empty "id"))
  else
    match raw_type raw with
    | Geo _ =>
      if negb (bool_decide (raw_view raw = Page)) then
        Err (Validation (InvalidValue "view" (ShownText (view_to_string (raw_view raw)))
          "geo profiles only support the page view"))
      else Ok ()
    | Tabbed _ => Ok ()
    end ?;
    type_validate (raw_type raw).
End sizes.

(** ** Copying a layout ([FromRaw], [TryFrom<DirectAccessKeyRaw>]) *)

(** [Option::map(f).transpose()?] *)
Definition transpose {A B E : Type} (f : A -> Result B E) (x : option A) : Result (option B) E :=
  match x with
  | Some x => match f x with Ok y => Ok (Some y) | Err e => Err e end
  | None => Ok None
  end.

(** [Ok(f(x?))] *)
Definition map_ok {A B E : Type} (f : A -> B) (x : Result A E) : Result B E :=
  match x with Ok x => Ok (f x) | Err e => Err e end.

Fixpoint page_from_raw (raw : DirectAccessPage Raw) :
    Result (DirectAccessPage Checked) CoverageError :=
  match raw with mkPage rows content => map_ok (mkPage rows) (content_from_raw content) end
with content_from_raw (raw : DirectAccessPageContent Raw) :
    Result (DirectAccessPageContent Checked) CoverageError :=
  match raw with
  | Keys keys => map_ok Keys (collect key_try_from keys)
  | ClientPage client_page => Ok (ClientPage client_page)
  end
with key_try_from (raw : DirectAccessKey Raw) : Result (DirectAccessKey Checked) CoverageError :=
  key_validate raw ?;
  match raw with
  | mkKey label color station_id page =>
    map_ok (mkKey label color station_id) (transpose page_from_raw page)
  end.

Definition tab_from_raw (raw : Tab Raw) : Result (Tab Checked) CoverageError :=
  tab_validate raw ?; map_ok (mkTab (tab_label raw)) (page_from_raw (tab_page raw)).

Definition button_from_raw (raw : GeoPageButton Raw) :
    Result (GeoPageButton Checked) CoverageError :=
  button_validate raw ?;
  map_ok
    (λ page, mkButton (button_label raw) (button_size raw) (button_color raw) page
      (button_station_id raw))
    (transpose page_from_raw (button_page raw)).

Definition divider_from_raw (raw : GeoPageDivider Raw) :
    Result (GeoPageDivider Checked) CoverageError :=
  divider_validate raw ?;
  Ok (mkDivider (orientation raw) (thickness raw) (divider_color raw) (oversize raw)).

Section from_raw.
Context {SP : SizePattern}.

Fixpoint container_from_raw (raw : GeoPageContainer Raw) :
    Result (GeoPageContainer Checked) CoverageError :=
  container_validate raw ?;
  match raw with
  | mkContainer height width padding padding_left padding_right padding_top padding_bottom gap
      justify_content align_items direction children =>
    map_ok
      (mkContainer height width padding padding_left padding_right padding_top padding_bottom gap
        justify_content align_items direction)
      (collect node_from_raw children)
  end
with node_from_raw (raw : GeoNode Raw) : Result (GeoNode Checked) CoverageError :=
  match raw with
  | Container c => map_ok Container (container_from_raw c)
  | Button b => map_ok Button (button_from_raw b)
  | Divider d => map_ok Divider (divider_from_raw d)
  end.

Definition type_from_raw (raw : ProfileType Raw) : Result (ProfileType Checked) CoverageError :=
  match raw with
  | Geo container => map_ok Geo (container_from_raw container)
  | Tabbed tabs => map_ok Tabbed (collect tab_from_raw tabs)
  end.

Definition profile_from_raw (raw : ProfileRaw) : Result Profile CoverageError :=
  profile_validate raw ?;
  map_ok (λ profile_type,
      mkProfile (raw_id raw) (raw_view raw) profile_type (type_collect profile_type ∅))
    (type_from_raw (raw_type raw)).
End from_raw.

(** ** Induction over the layouts *)

Lemma nothing_is_not_some {A : Type} (x : A) : None = Some x -> False.
Proof. done. Qed.

Section page_induction.
Context {stage : Stage}.
Context (P : DirectAccessPage stage -> Prop) (K : DirectAccessKey stage -> Prop).
Context (page_keys : forall rows keys, Forall K keys -> P (mkPage rows (Keys keys))).
Context (page_client : forall rows client_page, P (mkPage rows (ClientPage client_page))).
Context (key : forall label color station_id page,
  (forall p, page = Some p -> P p) -> K (mkKey label color station_id page)).

Fixpoint page_induct (p : DirectAccessPage stage) : P p :=
  match p with
  | mkPage rows content =>
    match content with
    | Keys keys =>
      page_keys rows keys
        ((fix go l : Forall K l :=
            match l with
            | [] => Forall_nil_2 K
            | k :: l => Forall_cons_2 K k l (key_induct k) (go l)
            end) keys)
    | ClientPage client_page => page_client rows client_page
    end
  end
with key_induct (k : DirectAccessKey stage) : K k :=
  match k with
  | mkKey label color station_id page =>
    key label color station_id page
      match page with
      | Some p => λ p' H, eq_ind p P (page_induct p) p' (Some_inj p p' H)
      | None => λ p' H, False_ind (P p') (nothing_is_not_some p' H)
      end
  end.

Lemma pages_ind : (forall p, P p) /\ (forall k, K k).
Proof. split; [apply page_induct|apply key_induct]. Qed.
End page_induction.

Section container_induction.
Context {stage : Stage}.
Context (P : GeoPageContainer stage -> Prop) (N : GeoNode stage -> Prop).
Context (of_children : forall height width padding padding_left padding_right padding_top
  padding_bottom gap justify_content align_items direction children, Forall N children ->
  P (mkContainer height width padding padding_left padding_right padding_top padding_bottom gap
       justify_content align_items direction children)).
Context (of_container : forall c, P c -> N (Container c)).
Context (of_button : forall b, N (Button b)).
Context (of_divider : forall d, N (Divider d)).

Fixpoint container_induct (c : GeoPageContainer stage) : P c :=
  match c with
  | mkContainer height width padding padding_left padding_right padding_top padding_bottom gap
      justify_content align_items direction children =>
    of_children height width padding padding_left padding_right padding_top padding_bottom gap
      justify_content align_items direction children
      ((fix go l : Forall N l :=
          match l with
          | [] => Forall_nil_2 N
          | n :: l => Forall_cons_2 N n l (node_induct n) (go l)
          end) children)
  end
with node_induct (n : GeoNode stage) : N n :=
  match n with
  | Container c => of_container c (container_induct c)
  | Button b => of_button b
  | Divider d => of_divider d
  end.

Lemma containers_ind : (forall c, P c) /\ (forall n, N n).
Proof. split; [apply container_induct|apply node_induct]. Qed.
End container_induction.
