(* ===== verification/ProfileProperties.v ===== *)
(** ProfileProperties: what checking and copying a layout amounts to, and which
    stations a loaded profile may refer to. *)
From stdpp Require Import prelude gmap strings list.
From Stdlib Require Import NArith.
From Stdlib Require Import SpecFloat.
From S2P Require Import Prelude Protocol CoverageErrors Profile.

(** ** Specification: the same layout, and the stations it mentions *)

Fixpoint page_copy (p : DirectAccessPage Raw) : DirectAccessPage Checked :=
  match p with mkPage rows content => mkPage rows (content_copy content) end
with content_copy (c : DirectAccessPageContent Raw) : DirectAccessPageContent Checked :=
  match c with
  | Keys keys => Keys (map key_copy keys)
  | ClientPage client_page => ClientPage client_page
  end
with key_copy (k : DirectAccessKey Raw) : DirectAccessKey Checked :=
  match k with
  | mkKey label color station_id page => mkKey label color station_id (option_map page_copy page)
  end.

Definition tab_copy (t : Tab Raw) : Tab Checked := mkTab (tab_label t) (page_copy (tab_page t)).

Definition button_copy (b : GeoPageButton Raw) : GeoPageButton Checked :=
  mkButton (button_label b) (button_size b) (button_color b) (option_map page_copy (button_page b))
    (button_station_id b).

Definition divider_copy (d : GeoPageDivider Raw) : GeoPageDivider Checked :=
  mkDivider (orientation d) (thickness d) (divider_color d) (oversize d).

Fixpoint container_copy (c : GeoPageContainer Raw) : GeoPageContainer Checked :=
  match c with
  | mkContainer h w p pl pr pt pb g j a d children =>
    mkContainer h w p pl pr pt pb g j a d (map node_copy children)
  end
with node_copy (n : GeoNode Raw) : GeoNode Checked :=
  match n with
  | Container c => Container (container_copy c)
  | Button b => Button (button_copy b)
  | Divider d => Divider (divider_copy d)
  end.

Definition type_copy (t : ProfileType Raw) : ProfileType Checked :=
  match t with
  | Geo c => Geo (container_copy c)
  | Tabbed tabs => Tabbed (map tab_copy tabs)
  end.

(** The stations of a page. [deep] tells whether those on the subpages that
    open from a key count. *)
Fixpoint page_mentions {stage} (deep : bool) (p : DirectAccessPage stage) : list StationId :=
  match p with mkPage _ content => content_mentions deep content end
with content_mentions {stage} (deep : bool) (c : DirectAccessPageContent stage) :
    list StationId :=
  match c with
  | Keys keys => concat (map (key_mentions deep) keys)
  | ClientPage _ => []
  end
with key_mentions {stage} (deep : bool) (k : DirectAccessKey stage) : list StationId :=
  match k with
  | mkKey _ _ station_id page =>
    option_list station_id ++
    match page with Some p => if deep then page_mentions deep p else [] | None => [] end
  end.

Definition button_mentions {stage} (deep : bool) (b : GeoPageButton stage) : list StationId :=
  match button_page b with Some p => page_mentions deep p | None => [] end
  ++ option_list (button_station_id b).

Fixpoint container_mentions {stage} (deep : bool) (c : GeoPageContainer stage) : list StationId :=
  match c with
  | mkContainer _ _ _ _ _ _ _ _ _ _ _ children => concat (map (node_mentions deep) children)
  end
with node_mentions {stage} (deep : bool) (n : GeoNode stage) : list StationId :=
  match n with
  | Container c => container_mentions deep c
  | Button b => button_mentions deep b
  | Divider _ => []
  end.

Definition type_mentions {stage} (deep : bool) (t : ProfileType stage) : list StationId :=
  match t with
  | Geo c => container_mentions deep c
  | Tabbed tabs => concat (map (λ tab, page_mentions deep (tab_page tab)) tabs)
  end.

(** ** Collecting is the set of the stations mentioned *)

Lemma fold_collect {A} (f : A -> gset StationId -> gset StationId) (g : A -> list StationId) l ids :
  Forall (λ x, forall ids, f x ids = list_to_set (g x) ∪ ids) l ->
  fold_left (λ ids x, f x ids) l ids = list_to_set (concat (map g l)) ∪ ids.
Proof.
  intros H. revert ids. induction H as [|x l Hx _ IH]; intros ids; cbn.
  - set_solver.
  - rewrite IH, Hx, list_to_set_app_L. set_solver.
Qed.

Lemma pages_collect {stage} :
  (forall (p : DirectAccessPage stage) ids,
     page_collect p ids = list_to_set (page_mentions true p) ∪ ids) /\
  (forall (k : DirectAccessKey stage) ids,
     key_collect k ids = list_to_set (key_mentions true k) ∪ ids).
Proof.
  apply pages_ind.
  - intros rows keys Hkeys ids. cbn. by apply fold_collect.
  - intros rows cp ids. cbn. set_solver.
  - intros label color sid page IH ids. cbn.
    destruct page as [p|]; [rewrite (IH p) by done|]; destruct sid; cbn;
      rewrite ?list_to_set_app_L; set_solver.
Qed.

Lemma button_collect_spec {stage} (b : GeoPageButton stage) ids :
  button_collect b ids = list_to_set (button_mentions true b) ∪ ids.
Proof.
  unfold button_collect, button_mentions. rewrite list_to_set_app_L.
  destruct (button_page b), (button_station_id b); cbn;
    rewrite ?(proj1 pages_collect); set_solver.
Qed.

Lemma containers_collect {stage} :
  (forall (c : GeoPageContainer stage) ids,
     container_collect c ids = list_to_set (container_mentions true c) ∪ ids) /\
  (forall (n : GeoNode stage) ids,
     node_collect n ids = list_to_set (node_mentions true n) ∪ ids).
Proof.
  apply containers_ind.
  - intros. cbn. by apply fold_collect.
  - done.
  - intros b ids. apply button_collect_spec.
  - intros d ids. cbn. set_solver.
Qed.

Lemma type_collect_spec {stage} (t : ProfileType stage) ids :
  type_collect t ids = list_to_set (type_mentions true t) ∪ ids.
Proof.
  destruct t as [c|tabs]; [apply (proj1 containers_collect)|]. cbn.
  apply (fold_collect tab_collect). apply Forall_true. intros tab ids'.
  apply (proj1 pages_collect).
Qed.

(** ** Copying *)

Lemma concat_map_copy {A B} (f : A -> list StationId) (g : B -> list StationId) (copy : A -> B) l :
  Forall (λ x, g (copy x) = f x) l -> concat (map g (map copy l)) = concat (map f l).
Proof. induction 1 as [|x l Hx _ IH]; cbn; [done|]. by rewrite Hx, IH. Qed.

Lemma pages_copy_mentions deep :
  (forall p, page_mentions deep (page_copy p) = page_mentions deep p) /\
  (forall k, key_mentions deep (key_copy k) = key_mentions deep k).
Proof.
  apply pages_ind.
  - intros rows keys H. cbn. by apply concat_map_copy.
  - done.
  - intros label color sid [p|] IH; cbn; [|done]. by rewrite IH.
Qed.

Lemma containers_copy_mentions deep :
  (forall c, container_mentions deep (container_copy c) = container_mentions deep c) /\
  (forall n, node_mentions deep (node_copy n) = node_mentions deep n).
Proof.
  apply containers_ind.
  - intros. cbn. by apply concat_map_copy.
  - done.
  - intros [? ? ? [p|] ?]; cbn; [|done]. unfold button_mentions. cbn.
    by rewrite (proj1 (pages_copy_mentions deep)).
  - done.
Qed.

Lemma type_copy_mentions deep t : type_mentions deep (type_copy t) = type_mentions deep t.
Proof.
  destruct t as [c|tabs]; cbn; [apply containers_copy_mentions|].
  apply concat_map_copy, Forall_true. intros tab. apply pages_copy_mentions.
Qed.

(** What was checked is copied without a further error. *)
Lemma each_Forall {A} (f : A -> Result () CoverageError) {B} (g : A -> Result B CoverageError)
    (copy : A -> B) l :
  Forall (λ x, f x = Ok () -> g x = Ok (copy x)) l -> each f l = Ok () ->
  collect g l = Ok (map copy l).
Proof.
  intros H Hl%each_ok. apply collect_ok. rewrite Forall_forall in *. eauto.
Qed.

Lemma and_then_ok {A E} (a : Result () E) (b : Result A E) x :
  and_then a b = Ok x -> a = Ok () /\ b = Ok x.
Proof. by destruct a as [[]|]. Qed.

Lemma pages_from_raw :
  (forall p, page_validate p = Ok () -> page_from_raw p = Ok (page_copy p)) /\
  (forall k, key_validate k = Ok () -> key_try_from k = Ok (key_copy k)).
Proof.
  apply pages_ind.
  - intros rows keys H. cbn. destruct (rows =? 0)%N; [done|]. intros Hk.
    by rewrite (each_Forall _ _ key_copy _ H Hk).
  - done.
  - intros label color sid page IH Hk. unfold key_try_from; fold page_from_raw. rewrite Hk. cbn in Hk |- *.
    apply and_then_ok in Hk as [_ [_ Hp]%and_then_ok].
    destruct page as [p|]; cbn; [|done]. by rewrite IH.
Qed.

Lemma tab_from_raw_ok t : tab_validate t = Ok () -> tab_from_raw t = Ok (tab_copy t).
Proof.
  intros H. unfold tab_from_raw. rewrite H. cbn. unfold tab_validate in H.
  case_match; [done|]. apply and_then_ok in H as [_ H].
  by rewrite (proj1 pages_from_raw) by done.
Qed.

Lemma button_from_raw_ok b : button_validate b = Ok () -> button_from_raw b = Ok (button_copy b).
Proof.
  intros H. unfold button_from_raw. rewrite H. cbn. unfold button_validate in H.
  case_match; [done|]. apply and_then_ok in H as [_ H]. case_match; [done|].
  apply and_then_ok in H as [_ H]. unfold button_copy.
  destruct (button_page b); cbn; [|done]. by rewrite (proj1 pages_from_raw).
Qed.

Lemma containers_from_raw {SP : SizePattern} :
  (forall c, container_validate c = Ok () -> container_from_raw c = Ok (container_copy c)) /\
  (forall n, node_validate n = Ok () -> node_from_raw n = Ok (node_copy n)).
Proof.
  apply containers_ind.
  - intros h w p pl pr pt pb g j a d children H Hv.
    unfold container_from_raw; fold node_from_raw. rewrite Hv. cbn in Hv |- *.
    repeat (apply and_then_ok in Hv as [_ Hv]). case_match; [done|].
    by rewrite (each_Forall _ _ node_copy _ H Hv).
  - intros c IH Hv. cbn. by rewrite IH.
  - intros b Hv. cbn. by rewrite button_from_raw_ok.
  - intros d Hv. cbn in *. unfold divider_from_raw. by rewrite Hv.
Qed.

Lemma type_from_raw_ok {SP : SizePattern} t :
  type_validate t = Ok () -> type_from_raw t = Ok (type_copy t).
Proof.
  destruct t as [c|tabs]; cbn.
  - intros H. by rewrite (proj1 containers_from_raw).
  - intros H. rewrite (each_Forall tab_validate tab_from_raw tab_copy); [done| |by destruct tabs].
    apply Forall_true. apply tab_from_raw_ok.
Qed.

(** ** References *)

(** The outcome of checking a list of stations. *)
Definition checks (stations : gset StationId) (l : list StationId) (r : Result () CoverageError) :
    Prop :=
  match r with
  | Ok _ => forall s, s ∈ l -> s ∈ stations
  | Err e => exists s, s ∈ l /\ s ∉ stations /\ e = missing_station "station_id" s
  end.

Lemma each_checks {A} stations (f : A -> Result () CoverageError) (g : A -> list StationId) l :
  Forall (λ x, checks stations (g x) (f x)) l -> checks stations (concat (map g l)) (each f l).
Proof.
  induction 1 as [|x l Hx _ IH]; cbn; [intros s Hs; by apply not_elem_of_nil in Hs|].
  destruct (f x) as [[]|e]; cbn in Hx.
  - destruct (each f l) as [[]|e]; cbn in *; [|set_solver].
    intros s [?|?]%elem_of_app; auto.
  - destruct Hx as (s & ? & ? & ?). exists s. set_solver.
Qed.

Lemma checks_app stations l1 l2 r1 r2 :
  checks stations l1 r1 -> checks stations l2 r2 ->
  checks stations (l1 ++ l2) match r1 with Ok _ => r2 | Err e => Err e end.
Proof.
  destruct r1 as [[]|e]; cbn; [destruct r2 as [[]|e]; cbn|]; set_solver.
Qed.

Lemma station_exists_checks stations sid :
  checks stations (option_list sid) (station_exists stations sid).
Proof.
  destruct sid as [s|]; cbn; [|set_solver]. case_bool_decide; cbn; set_solver.
Qed.

Lemma page_references_checks {stage} stations (p : DirectAccessPage stage) :
  checks stations (page_mentions false p) (page_references stations p).
Proof.
  destruct p as [rows [keys|cp]]; cbn; [|set_solver]. apply each_checks, Forall_true.
  intros [label color sid page]. cbn.
  replace (match page with Some _ => [] | None => [] end) with (@nil StationId) by (by destruct page).
  rewrite app_nil_r. apply station_exists_checks.
Qed.

Lemma containers_references_checks {stage} stations :
  (forall (c : GeoPageContainer stage),
     checks stations (container_mentions false c) (container_references stations c)) /\
  (forall (n : GeoNode stage),
     checks stations (node_mentions false n) (node_references stations n)).
Proof.
  apply containers_ind.
  - intros. by apply each_checks.
  - done.
  - intros b. cbn. unfold button_references, button_mentions. apply checks_app.
    + destruct (button_page b); [apply page_references_checks|set_solver].
    + apply station_exists_checks.
  - intros d. cbn. set_solver.
Qed.

Lemma type_references_checks {stage} stations (t : ProfileType stage) :
  checks stations (type_mentions false t) (type_references stations t).
Proof.
  destruct t as [c|tabs]; cbn; [apply containers_references_checks|].
  apply each_checks, Forall_true. intros tab. apply page_references_checks.
Qed.

(** ** Properties *)

Definition key_of (station_id : option StationId) (page : option (DirectAccessPage Raw)) :
    DirectAccessKey Raw :=
  mkKey ["Tower"%string] None station_id page.

Definition tabbed_of (keys : list (DirectAccessKey Raw)) : ProfileRaw :=
  mkProfileRaw (ProfileId_from "LOWW") Page (Tabbed [mkTab ["Main"%string] (mkPage 6 (Keys keys))]).

Definition some_station : StationId := StationId_from "LOWW_TWR".

(** C13: loading a profile is checking it and, if it passes the check, copying
    it unchanged: nothing that was checked once is refused on the way. Its
    relevant stations are exactly those mentioned anywhere in its layout. *)
Theorem profile_from_raw_spec {SP : SizePattern} raw :
  profile_from_raw raw =
    match profile_validate raw with
    | Ok _ => Ok (mkProfile (raw_id raw) (raw_view raw) (type_copy (raw_type raw))
        (list_to_set (type_mentions true (raw_type raw))))
    | Err e => Err e
    end.
Proof.
  unfold profile_from_raw. destruct (profile_validate raw) as [[]|e] eqn:Hv; cbn; [|done].
  unfold profile_validate in Hv. case_match; [done|]. apply and_then_ok in Hv as [_ Hv].
  rewrite type_from_raw_ok by done. cbn. by rewrite type_collect_spec, type_copy_mentions,
    (right_id_L ∅ (∪)).
Qed.

(** The references of a profile pass the check exactly if every station
    it mentions, those on the subpages of keys left aside, exists, and the
    error names one that does not. A profile whose subpages mention nothing
    else has therefore only existing relevant stations. *)
Theorem profile_references_spec {SP : SizePattern} stations raw p :
  profile_from_raw raw = Ok p ->
  match profile_validate_references stations p with
  | Ok _ => forall s, s ∈ type_mentions false (raw_type raw) -> s ∈ stations
  | Err e => exists s, s ∈ type_mentions false (raw_type raw) /\ s ∉ stations /\
      e = missing_station "station_id" s
  end /\
  (type_mentions true (raw_type raw) ⊆ type_mentions false (raw_type raw) ->
   profile_validate_references stations p = Ok () -> relevant_station_ids p ⊆ stations).
Proof.
  rewrite profile_from_raw_spec. destruct (profile_validate raw); [|done]. intros [= <-].
  pose proof (type_references_checks stations (type_copy (raw_type raw))) as H.
  rewrite type_copy_mentions in H. unfold profile_validate_references. cbn. split; [exact H|].
  intros Hflat Hok. rewrite Hok in H. cbn in H. intros s Hs%elem_of_list_to_set. auto.
Qed.

Lemma profile_references_spec_witness :
  exists p, @profile_from_raw (λ _, true) (tabbed_of [key_of (Some some_station) None]) = Ok p /\
    relevant_station_ids p ⊆ {[some_station]}.
Proof.
  eexists. split; [reflexivity|].
  eapply (@profile_references_spec (λ _, true) {[some_station]}
    (tabbed_of [key_of (Some some_station) None])).
  - reflexivity.
  - intros s Hs. exact Hs.
  - vm_compute. reflexivity.
Defined.

(** The subpages of keys are collected and not checked: a profile may pass the
    check with a relevant station that does not exist. *)
Theorem subpage_station_unchecked {SP : SizePattern} :
  exists raw p, profile_from_raw raw = Ok p /\ profile_validate_references ∅ p = Ok () /\
    relevant_station_ids p = {[some_station]}.
Proof.
  exists (tabbed_of [key_of None (Some (mkPage 6 (Keys [key_of (Some some_station) None])))]).
  eexists. split; [reflexivity|]. split; vm_compute; reflexivity.
Qed.
