(* ===== verification/Coverage.v ===== *)
(** Coverage: the network of positions and stations and who covers what,
    [vacs-vatsim/src/coverage]: stations inherit the positions that cover them
    from their parents, a network is built from the regions that were read and
    cross-checked, and the coverage is computed from the positions that are
    online.

    Building starts from the regions as they were read and from the errors met while
    reading them; Loading reads them. The pattern of a frequency is a parameter, as the
    matching is a library's. *)
From stdpp Require Import prelude gmap strings list sorting.
From Stdlib Require Import NArith Ascii.
From S2P Require Import Prelude Protocol Controllers CoverageErrors Profile.

(** [^\d{3}\.\d{3}$] *)
Class FrequencyPattern := frequency_is_match : string -> bool.

(** ** Data *)

Record FlightInformationRegionId := mkFirId { fir_id_str : string }.

#[export] Instance FirId_eq_dec : EqDecision FlightInformationRegionId.
Proof. solve_decision. Defined.
#[export] Instance FirId_countable : Countable FlightInformationRegionId.
Proof. by apply (inj_countable' fir_id_str mkFirId); intros []. Defined.

Definition FirId_from (value : string) : FlightInformationRegionId :=
  mkFirId (to_ascii_uppercase value).

Record StationRaw := mkStationRaw {
  sr_id : StationId;
  sr_parent_id : option StationId;
  sr_controlled_by : list PositionId
}.

Record Station := mkStation {
  st_id : StationId;
  st_parent_id : option StationId;
  st_controlled_by : list PositionId;
  st_fir_id : FlightInformationRegionId
}.

Record PositionRaw := mkPositionRaw {
  pr_id : PositionId;
  pr_prefixes : gset string;
  pr_frequency : string;
  pr_facility_type : FacilityType;
  pr_profile_id : option ProfileId;
  pr_default_call_sources : list StationId
}.

Record Position := mkPosition {
  ps_id : PositionId;
  ps_prefixes : gset string;
  ps_frequency : string;
  ps_facility_type : FacilityType;
  ps_profile_id : option ProfileId;
  ps_default_call_sources : list StationId;
  ps_fir_id : FlightInformationRegionId;
  ps_controlled_stations : gset StationId
}.

Record FlightInformationRegionRaw := mkFirRaw {
  fr_id : FlightInformationRegionId;
  fr_stations : list StationRaw;
  fr_positions : list PositionRaw;
  fr_profiles : gmap ProfileId Profile
}.

Record FlightInformationRegion := mkFir {
  fi_id : FlightInformationRegionId;
  fi_stations : gset StationId;
  fi_positions : gset PositionId;
  fi_profiles : gset ProfileId
}.

Record Network := mkNetwork {
  firs : gmap FlightInformationRegionId FlightInformationRegion;
  positions : gmap PositionId Position;
  stations : gmap StationId Station;
  profiles : gmap ProfileId Profile
}.

Inductive RelevantStations := RelevantAll | Subset (ids : gset StationId) | RelevantNone.

Record CoveredStation := mkCoveredStation { cs_station : Station; cs_is_self_controlled : bool }.

(** ** Stations ([station.rs]) *)

(** [StationRaw::validate] *)
Definition station_validate (station : StationRaw) : Result () CoverageError :=
  if bool_decide (station_id_str (sr_id station) = EmptyString) then Err (Validation (Empty "id"))
  else Ok ().

(** [ReferenceValidator<PositionId> for StationRaw] *)
Definition station_validate_references (positions : gset PositionId) (station : StationRaw) :
    Result () CoverageError :=
  match list_find (λ p, p ∉ positions) (sr_controlled_by station) with
  | Some (_, position_id) =>
    Err (Validation (MissingReference "position_id" (position_id_str position_id)))
  | None => Ok ()
  end.

(** [.iter().filter(|pos| seen_positions.insert(pos))]: the positions not seen
    before, and the seen ones afterwards. *)
Fixpoint take_unseen (seen : gset PositionId) (l : list PositionId) :
    list PositionId * gset PositionId :=
  match l with
  | [] => ([], seen)
  | pos :: l =>
    if bool_decide (pos ∈ seen) then take_unseen seen l
    else let (new, seen) := take_unseen ({[pos]} ∪ seen) l in (pos :: new, seen)
  end.

(** The loop of [StationRaw::resolve_controlled_by]; [None] when the fuel runs
    out. It answers the positions and the errors. *)
Fixpoint resolve_loop (all_stations : gmap StationId StationRaw) (self_id : StationId)
    (fuel : nat) (current : option StationRaw) (controlled_by : list PositionId)
    (visited_stations : gset StationId) (visited_stations_order : list StationId)
    (seen_positions : gset PositionId) : option (list PositionId * list CoverageError) :=
  match fuel with
  | O => None
  | S fuel =>
    match current with
    | None => Some (controlled_by, [])
    | Some station =>
      let order := visited_stations_order ++ [sr_id station] in
      if bool_decide (sr_id station ∈ visited_stations) then
        Some (controlled_by, [Validation (CycleDetected (map station_id_str order))])
      else
        let (new, seen_positions) := take_unseen seen_positions (sr_controlled_by station) in
        let controlled_by := controlled_by ++ new in
        let visited_stations := {[sr_id station]} ∪ visited_stations in
        match sr_parent_id station with
        | None =>
          resolve_loop all_stations self_id fuel None controlled_by visited_stations order
            seen_positions
        | Some id =>
          match all_stations !! id with
          | None =>
            '(controlled_by, errors) ←
              resolve_loop all_stations self_id fuel None controlled_by visited_stations order
                seen_positions;
            Some (controlled_by,
              Validation (MissingParent (station_id_str self_id) (station_id_str id)) :: errors)
          | Some parent =>
            resolve_loop all_stations self_id fuel (Some parent) controlled_by visited_stations
              order seen_positions
          end
        end
    end
  end.

(** Each turn visits another station, so this is fuel enough
    ([resolve_enough_fuel]). *)
Definition resolve_fuel (all_stations : gmap StationId StationRaw) : nat := size all_stations + 3.

Definition resolve_controlled_by (all_stations : gmap StationId StationRaw) (self : StationRaw) :
    Result (list PositionId) (list CoverageError) :=
  match
    resolve_loop all_stations (sr_id self) (resolve_fuel all_stations) (Some self) [] ∅ [] ∅
  with
  | Some (controlled_by, []) => Ok controlled_by
  | Some (_, errors) => Err errors
  | None => Err []
  end.

(** [Station::from_raw] *)
Definition station_from_raw (all_stations : gmap StationId StationRaw) (raw : StationRaw)
    (fir_id : FlightInformationRegionId) : Result Station (list CoverageError) :=
  match station_validate raw with
  | Err err => Err [err]
  | Ok _ =>
    match resolve_controlled_by all_stations raw with
    | Err errs => Err errs
    | Ok controlled_by => Ok (mkStation (sr_id raw) (sr_parent_id raw) controlled_by fir_id)
    end
  end.

(** ** Positions ([position.rs]) *)

(** The first station that is listed twice. *)
Fixpoint find_duplicate (seen : gset StationId) (l : list StationId) : option StationId :=
  match l with
  | [] => None
  | x :: l => if bool_decide (x ∈ seen) then Some x else find_duplicate ({[x]} ∪ seen) l
  end.

(** [PositionRaw::validate] *)
Definition position_validate {FP : FrequencyPattern} (position : PositionRaw) :
    Result () CoverageError :=
  if bool_decide (position_id_str (pr_id position) = EmptyString) then
    Err (Validation (Empty "id"))
  else if bool_decide (pr_prefixes position = ∅) || bool_decide (EmptyString ∈ pr_prefixes position)
  then Err (Validation (Empty "prefixes"))
  else if bool_decide (pr_frequency position = EmptyString) then
    Err (Validation (Empty "frequency"))
  else if negb (frequency_is_match (pr_frequency position)) then
    Err (Validation (InvalidFormat "frequency" (pr_frequency position)
      "must match pattern XXX.XXX"))
  else if bool_decide (pr_facility_type position = FT_Unknown) then
    Err (Validation (InvalidValue "facility_type" (ShownText "Unknown") "must not be Unknown"))
  else
    match facility_from_str (position_id_str (pr_id position)) with
    | Ok id_facility_type =>
      if negb (bool_decide (id_facility_type = pr_facility_type position)) then
        Err (Validation (InvalidValue "facility_type"
          (ShownText (facility_as_str (pr_facility_type position)))
          ("id `" +:+ position_id_str (pr_id position) +:+ "` implies `"
            +:+ facility_as_str id_facility_type +:+ "`")))
      else Ok ()
    | Err _ => Ok ()
    end ?;
    if bool_decide (option_map profile_id_str (pr_profile_id position) = Some EmptyString) then
      Err (Validation (Empty "profile_id"))
    else
      match find_duplicate ∅ (pr_default_call_sources position) with
      | Some station_id =>
        Err (Validation (InvalidValue "default_call_sources"
          (ShownText (station_id_str station_id)) "duplicate entry"))
      | None => Ok ()
      end.

(** [ReferenceValidator<ProfileId> for PositionRaw] *)
Definition position_validate_profile (profiles : gset ProfileId) (position : PositionRaw) :
    Result () CoverageError :=
  match pr_profile_id position with
  | Some profile_id =>
    if negb (bool_decide (profile_id ∈ profiles)) then
      Err (Validation (MissingReference "profile_id" (profile_id_str profile_id)))
    else Ok ()
  | None => Ok ()
  end.

(** [ReferenceValidator<StationId> for PositionRaw] *)
Definition position_validate_stations (stations : gset StationId) (position : PositionRaw) :
    Result () CoverageError :=
  each (λ station_id,
    if negb (bool_decide (station_id ∈ stations)) then
      Err (missing_station "default_call_sources" station_id)
    else Ok ()) (pr_default_call_sources position).

(** [Position::from_raw] *)
Definition position_from_raw {FP : FrequencyPattern} (raw : PositionRaw)
    (fir_id : FlightInformationRegionId) : Result Position CoverageError :=
  position_validate raw ?;
  Ok (mkPosition (pr_id raw) (pr_prefixes raw) (pr_frequency raw) (pr_facility_type raw)
    (pr_profile_id raw) (pr_default_call_sources raw) fir_id ∅).

(** ** Regions ([flight_information_region.rs]) *)

Definition fir_validate (fir : FlightInformationRegionRaw) : Result () CoverageError :=
  if bool_decide (fir_id_str (fr_id fir) = EmptyString) then Err (Validation (Empty "id"))
  else if bool_decide (length (fr_stations fir) = 0) then Err (Validation (Empty "stations"))
  else if bool_decide (length (fr_positions fir) = 0) then Err (Validation (Empty "positions"))
  else Ok ().

(** [TryFrom<FlightInformationRegionRaw>] *)
Definition fir_try_from (value : FlightInformationRegionRaw) :
    Result FlightInformationRegion CoverageError :=
  fir_validate value ?;
  Ok (mkFir (fr_id value) (list_to_set (map sr_id (fr_stations value)))
    (list_to_set (map pr_id (fr_positions value))) (dom (fr_profiles value))).

(** ** Building a network ([Network::load_from_dir], after reading) *)

(** The local variables of the function. *)
Record Build := mkBuild {
  b_errors : list CoverageError;
  b_firs : gmap FlightInformationRegionId FlightInformationRegion;
  b_positions : gmap PositionId Position;
  b_stations : gmap StationId Station;
  b_profiles : gmap ProfileId Profile
}.

Definition push (errors : list CoverageError) (b : Build) : Build :=
  mkBuild (b_errors b ++ errors) (b_firs b) (b_positions b) (b_stations b) (b_profiles b).

(** The error of a check, with the entity and the region it was met in. *)
Definition located (entity : string) (fir : FlightInformationRegionRaw)
    (r : Result () CoverageError) : list CoverageError :=
  match r with
  | Ok _ => []
  | Err err => [context (context err entity) (fir_id_str (fr_id fir))]
  end.

Definition in_fir (fir : FlightInformationRegionRaw) (err : CoverageError) : CoverageError :=
  context err (fir_id_str (fr_id fir)).

Section build.
Context {HO : HashOrder} {FP : FrequencyPattern}.

(** The first three loops over a region: its references. *)
Definition fir_reference_errors (all_station_ids : gset StationId)
    (all_position_ids : gset PositionId) (all_profile_ids : gset ProfileId)
    (fir : FlightInformationRegionRaw) : list CoverageError :=
  mjoin (map (λ station,
    located (station_id_str (sr_id station)) fir
      (station_validate_references all_position_ids station)) (fr_stations fir))
  ++ mjoin (map (λ position,
    located (position_id_str (pr_id position)) fir
      (position_validate_profile all_profile_ids position)
    ++ located (position_id_str (pr_id position)) fir
      (position_validate_stations all_station_ids position)) (fr_positions fir))
  ++ mjoin (map (λ profile,
    located (profile_id_str (profile_id profile)) fir
      (profile_validate_references all_station_ids profile)) (map_values (fr_profiles fir))).

Definition add_position (fir : FlightInformationRegionRaw) (b : Build) (raw : PositionRaw) : Build :=
  if bool_decide (is_Some (b_positions b !! pr_id raw)) then
    push [in_fir fir (SE_Duplicate "Position" (position_id_str (pr_id raw)))] b
  else
    match position_from_raw raw (fr_id fir) with
    | Ok position =>
      mkBuild (b_errors b) (b_firs b) (<[ps_id position := position]> (b_positions b))
        (b_stations b) (b_profiles b)
    | Err err => push [in_fir fir (SE_Load "Position" (position_id_str (pr_id raw)) err)] b
    end.

Definition add_station (all_stations : gmap StationId StationRaw)
    (fir : FlightInformationRegionRaw) (b : Build) (raw : StationRaw) : Build :=
  if bool_decide (is_Some (b_stations b !! sr_id raw)) then
    push [in_fir fir (SE_Duplicate "Station" (station_id_str (sr_id raw)))] b
  else
    match station_from_raw all_stations raw (fr_id fir) with
    | Err errs =>
      push (map (λ err, in_fir fir (SE_Load "Station" (station_id_str (sr_id raw)) err)) errs) b
    | Ok station =>
      if bool_decide (st_controlled_by station = []) then
        push [in_fir fir (Validation (EmptyCoverage (station_id_str (st_id station))))] b
      else
        mkBuild (b_errors b) (b_firs b) (b_positions b)
          (<[st_id station := station]> (b_stations b)) (b_profiles b)
    end.

Definition add_profile (fir : FlightInformationRegionRaw) (b : Build)
    (entry : ProfileId * Profile) : Build :=
  if bool_decide (is_Some (b_profiles b !! entry.1)) then
    push [in_fir fir (SE_Duplicate "Profile" (profile_id_str entry.1))] b
  else
    mkBuild (b_errors b) (b_firs b) (b_positions b) (b_stations b)
      (<[entry.1 := entry.2]> (b_profiles b)).

(** One turn of the loop over the regions. *)
Definition add_fir (all_stations : gmap StationId StationRaw) (all_position_ids : gset PositionId)
    (all_profile_ids : gset ProfileId) (b : Build) (fir_raw : FlightInformationRegionRaw) : Build :=
  let b :=
    push (fir_reference_errors (dom all_stations) all_position_ids all_profile_ids fir_raw) b in
  if bool_decide (is_Some (b_firs b !! fr_id fir_raw)) then
    push [SE_Duplicate "FIR" (fir_id_str (fr_id fir_raw))] b
  else
    match fir_try_from fir_raw with
    | Err err => push [SE_Load "FIR" (fir_id_str (fr_id fir_raw)) err] b
    | Ok fir =>
      let b := mkBuild (b_errors b) (<[fi_id fir := fir]> (b_firs b)) (b_positions b)
        (b_stations b) (b_profiles b) in
      let b := foldl (add_position fir_raw) b (fr_positions fir_raw) in
      let b := foldl (add_station all_stations fir_raw) b (fr_stations fir_raw) in
      foldl (add_profile fir_raw) b (map_iter (fr_profiles fir_raw))
    end.

(** The last loop: every position learns the stations it controls. *)
Definition control_station (station : Station) (b : Build) (position_id : PositionId) : Build :=
  match b_positions b !! position_id with
  | Some position =>
    mkBuild (b_errors b) (b_firs b)
      (<[position_id := mkPosition (ps_id position) (ps_prefixes position) (ps_frequency position)
          (ps_facility_type position) (ps_profile_id position) (ps_default_call_sources position)
          (ps_fir_id position) ({[st_id station]} ∪ ps_controlled_stations position)]>
        (b_positions b))
      (b_stations b) (b_profiles b)
  | None =>
    push [context (context (Validation (MissingReference "position_id"
        (position_id_str position_id))) (station_id_str (st_id station)))
      (fir_id_str (st_fir_id station))] b
  end.

Definition control_stations (b : Build) (station : Station) : Build :=
  foldl (control_station station) b (st_controlled_by station).

Definition all_stations_of (raw_firs : list FlightInformationRegionRaw) :
    gmap StationId StationRaw :=
  map_collect (map (λ s, (sr_id s, s)) (mjoin (map fr_stations raw_firs))).

(** [errors]: those met while the regions were read. *)
Definition build_network (errors : list CoverageError)
    (raw_firs : list FlightInformationRegionRaw) : Result Network (list CoverageError) :=
  let all_stations := all_stations_of raw_firs in
  let all_position_ids : gset PositionId :=
    list_to_set (map pr_id (mjoin (map fr_positions raw_firs))) in
  let all_profile_ids : gset ProfileId :=
    ⋃ (map (λ fir, dom (fr_profiles fir)) raw_firs) in
  let b := foldl (add_fir all_stations all_position_ids all_profile_ids)
    (mkBuild errors ∅ ∅ ∅ ∅) raw_firs in
  let b := foldl control_stations b (map_values (b_stations b)) in
  match b_errors b with
  | [] => Ok (mkNetwork (b_firs b) (b_positions b) (b_stations b) (b_profiles b))
  | errors => Err errors
  end.

(** ** Looking up ([network.rs]) *)

Definition get_profile (n : Network) (id : ProfileId) : option Profile := profiles n !! id.
Definition get_position (n : Network) (id : PositionId) : option Position := positions n !! id.

(** [str::replace("__", "_")] *)
Fixpoint replace_double (s : string) : string :=
  match s with
  | String a (String b s' as rest) =>
    if Ascii.eqb a "_"%char && Ascii.eqb b "_"%char then String "_"%char (replace_double s')
    else String a (replace_double rest)
  | s => s
  end.

Definition position_le (p q : Position) : Prop := position_leb (ps_id p) (ps_id q) = true.
#[export] Instance position_le_dec : RelDecision position_le.
Proof. intros p q. unfold position_le. apply _. Defined.

Definition tuned_to (frequency : string) (facility_type : FacilityType) (p : Position) : bool :=
  bool_decide (ps_frequency p = frequency) && bool_decide (ps_facility_type p = facility_type).

Definition find_positions (n : Network) (callsign frequency : string)
    (facility_type : FacilityType) : list Position :=
  let callsign := to_ascii_uppercase (replace_double callsign) in
  let matches := tuned_to frequency facility_type in
  let by_prefix :=
    merge_sort position_le
      (filter
        (λ p, matches p && existsb (λ pre, starts_with callsign pre) (set_iter (ps_prefixes p)))
        (map_values (positions n))) in
  match positions n !! mkPositionId callsign with
  | Some position => if matches position then [position] else by_prefix
  | None => by_prefix
  end.

Definition controlling_position (n : Network) (station_id : StationId)
    (online_positions : gset PositionId) : option Position :=
  station ← stations n !! station_id;
  list_find_map (λ pos_id,
    if bool_decide (pos_id ∈ online_positions) then positions n !! pos_id else None)
    (st_controlled_by station).

Definition covered_le (a b : CoveredStation) : Prop :=
  station_leb (st_id (cs_station a)) (st_id (cs_station b)) = true.
#[export] Instance covered_le_dec : RelDecision covered_le.
Proof. intros a b. unfold covered_le. apply _. Defined.

Definition covered_stations (n : Network) (client_position_id : option PositionId)
    (online_positions : gset PositionId) : list CoveredStation :=
  merge_sort covered_le
    (omap (λ station,
      option_map (λ position,
          mkCoveredStation station (bool_decide (client_position_id = Some (ps_id position))))
        (controlling_position n (st_id station) online_positions))
      (map_values (stations n))).

(** The body of the loop over the candidate stations. *)
Definition station_change (station : Station) (before after : option Position) :
    option StationChange :=
  if bool_decide (ps_id <$> before = ps_id <$> after) then None
  else
    match before, after with
    | None, Some new_pos => Some (Online (st_id station) (ps_id new_pos))
    | Some old_pos, None => Some (Offline (st_id station))
    | Some old_pos, Some new_pos => Some (Handoff (st_id station) (ps_id old_pos) (ps_id new_pos))
    | None, None => None
    end.

Definition coverage_diff (n : Network) (from_online_positions to_online_positions : gset PositionId) :
    list StationChange :=
  let changed_positions :=
    (from_online_positions ∖ to_online_positions) ∪ (to_online_positions ∖ from_online_positions) in
  if bool_decide (changed_positions = ∅) then []
  else
    let candidate_stations : gset StationId :=
      ⋃ (map ps_controlled_stations (omap (λ id, positions n !! id) (set_iter changed_positions))) in
    merge_sort station_change_le
      (omap (λ station_id,
        station ← stations n !! station_id;
        station_change station (controlling_position n (st_id station) from_online_positions)
          (controlling_position n (st_id station) to_online_positions))
        (set_iter candidate_stations)).

Definition coverage_changes (n : Network) (from_position_id to_position_id : option PositionId)
    (online_positions : gset PositionId) : list StationChange :=
  let '(changed, updated_positions) :=
    match from_position_id, to_position_id with
    | Some from, Some to =>
      if bool_decide (from = to) then
        (negb (bool_decide (to ∈ online_positions)), {[to]} ∪ online_positions)
      else
        let removed := bool_decide (from ∈ online_positions) in
        let remaining := online_positions ∖ {[from]} in
        (removed || negb (bool_decide (to ∈ remaining)), {[to]} ∪ remaining)
    | Some from, None =>
      (bool_decide (from ∈ online_positions), online_positions ∖ {[from]})
    | None, Some to => (negb (bool_decide (to ∈ online_positions)), {[to]} ∪ online_positions)
    | None, None => (false, online_positions)
    end in
  if negb changed then [] else coverage_diff n online_positions updated_positions.

Definition relevant_stations (n : Network) (selection : ActiveProfile ProfileId) :
    RelevantStations :=
  match selection with
  | Specific profile_id =>
    match profiles n !! profile_id with
    | None => RelevantNone
    | Some profile => Subset (relevant_station_ids profile)
    end
  | Custom => RelevantAll
  | NoProfile => RelevantNone
  end.
End build.
