(* ===== verification/CoverageLookup.v ===== *)
(** CoverageLookup: what a network promises about who covers what. The coverage
    is a map from stations to positions, a function of the positions that are
    online; the changes reported between two sets of positions lead from the
    one coverage to the other. *)
From stdpp Require Import prelude gmap strings list sorting.
From Stdlib Require Import NArith.
From S2P Require Import Prelude Protocol Controllers CoverageErrors Profile Coverage.

(** ** Well-formed networks

    What building a network guarantees ([CoverageProperties.built_wf]). *)
Record network_wf (n : Network) : Prop := {
  nw_station_id : forall id s, stations n !! id = Some s -> st_id s = id;
  nw_position_id : forall id p, positions n !! id = Some p -> ps_id p = id;
  nw_covered : forall id s, stations n !! id = Some s ->
    st_controlled_by s <> [] /\ NoDup (st_controlled_by s);
  nw_controlled_by : forall id s pos_id, stations n !! id = Some s ->
    pos_id ∈ st_controlled_by s ->
    exists p, positions n !! pos_id = Some p /\ id ∈ ps_controlled_stations p;
  nw_controls : forall id p pos_id, positions n !! pos_id = Some p ->
    id ∈ ps_controlled_stations p ->
    exists s, stations n !! id = Some s /\ pos_id ∈ st_controlled_by s
}.

(** ** Specification *)

(** The first of the positions of a station that is online. *)
Definition first_online (online : gset PositionId) (s : Station) : option PositionId :=
  head (filter (λ pos_id, pos_id ∈ online) (st_controlled_by s)).

Definition coverage (n : Network) (online : gset PositionId) : gmap StationId PositionId :=
  omap (first_online online) (stations n).

Definition change_between (id : StationId) (before after : option PositionId) :
    option StationChange :=
  if decide (before = after) then None
  else
    match before, after with
    | None, Some p => Some (Online id p)
    | Some _, None => Some (Offline id)
    | Some p, Some q => Some (Handoff id p q)
    | None, None => None
    end.

Definition apply_change (m : gmap StationId PositionId) (c : StationChange) :
    gmap StationId PositionId :=
  match c with
  | Online id p => <[id := p]> m
  | Handoff id _ p => <[id := p]> m
  | Offline id => delete id m
  end.

Definition apply_changes : gmap StationId PositionId -> list StationChange ->
    gmap StationId PositionId := foldl apply_change.

(** ** Applying changes *)

Lemma change_between_id id a b c : change_between id a b = Some c -> change_station_id c = id.
Proof. unfold change_between. case_decide; [done|]. destruct a, b; intros; by simplify_eq. Qed.

Lemma change_between_same id a : change_between id a a = None.
Proof. unfold change_between. by rewrite decide_True. Qed.

Lemma apply_change_between m id a b c :
  change_between id a b = Some c -> apply_change m c !! id = b.
Proof.
  unfold change_between. case_decide; [done|].
  destruct a, b; intros [= <-]; cbn; by rewrite ?lookup_insert_eq, ?lookup_delete_eq.
Qed.

Lemma apply_change_ne m c id : change_station_id c <> id -> apply_change m c !! id = m !! id.
Proof. destruct c; cbn; intros; by rewrite ?lookup_insert_ne, ?lookup_delete_ne. Qed.

Lemma apply_changes_not_in m l id :
  id ∉ map change_station_id l -> apply_changes m l !! id = m !! id.
Proof.
  revert m. induction l as [|c l IH]; intros m Hid; cbn; [done|].
  cbn in Hid. apply not_elem_of_cons in Hid as [Hne Hid].
  change (apply_changes (apply_change m c) l !! id = m !! id).
  rewrite IH by done. by apply apply_change_ne.
Qed.

Lemma apply_changes_in m l id a b c :
  NoDup (map change_station_id l) -> c ∈ l -> change_between id a b = Some c ->
  apply_changes m l !! id = b.
Proof.
  revert m. induction l as [|c' l IH]; intros m Hnd Hin Hc; [by apply not_elem_of_nil in Hin|].
  cbn in Hnd. apply NoDup_cons in Hnd as [Hnin Hnd].
  change (apply_changes (apply_change m c') l !! id = b).
  apply elem_of_cons in Hin as [<-|Hin]; [|by apply IH].
  rewrite apply_changes_not_in.
  - by eapply apply_change_between.
  - by rewrite <- (change_between_id _ _ _ _ Hc).
Qed.

(** A list of changes, one at most for every station, that says of each station
    how the two maps differ there, leads from the one to the other. *)
Lemma apply_changes_between m m' l :
  NoDup (map change_station_id l) ->
  (forall c, c ∈ l <-> exists id, change_between id (m !! id) (m' !! id) = Some c) ->
  apply_changes m l = m'.
Proof.
  intros Hnd Hl. apply map_eq. intros id.
  destruct (change_between id (m !! id) (m' !! id)) as [c|] eqn:Hc.
  - eapply apply_changes_in; [done| |done]. apply Hl. eauto.
  - assert (m !! id = m' !! id) as <-.
    { revert Hc. unfold change_between. case_decide; [done|].
      by destruct (m !! id), (m' !! id). }
    apply apply_changes_not_in. intros (c & Hid & Hin)%list_elem_of_fmap.
    apply Hl in Hin as [id' Hc']. pose proof (change_between_id _ _ _ _ Hc') as Hid'.
    assert (id' = id) by congruence. subst. congruence.
Qed.

(** ** Sorting *)

Lemma merge_sort_in {A} (R : relation A) `{!RelDecision R} (l : list A) x :
  x ∈ merge_sort R l <-> x ∈ l.
Proof. by rewrite merge_sort_Permutation. Qed.

(** Lists with the same elements, none of them twice, sort to the same list. *)
Lemma merge_sort_unique {A} (R : relation A) `{!RelDecision R, !Transitive R, !Total R, !AntiSymm (=) R}
    (l k : list A) :
  NoDup l -> NoDup k -> (forall x, x ∈ l <-> x ∈ k) -> merge_sort R l = merge_sort R k.
Proof.
  intros Hl Hk Hlk. apply (StronglySorted_unique R); [by apply StronglySorted_merge_sort..|].
  rewrite !merge_sort_Permutation. by apply NoDup_Permutation.
Qed.

#[export] Instance covered_le_trans : Transitive covered_le.
Proof. intros a b c. apply str_leb_trans. Qed.
#[export] Instance covered_le_total : Total covered_le.
Proof. intros a b. apply str_leb_total. Qed.
#[export] Instance position_le_trans : Transitive position_le.
Proof. intros a b c. apply str_leb_trans. Qed.
#[export] Instance position_le_total : Total position_le.
Proof. intros a b. apply str_leb_total. Qed.

(** ** Who controls a station *)

Section lookup.
Context {HO : HashOrder} (n : Network) (Hwf : network_wf n).

Lemma lookup_coverage online id :
  coverage n online !! id = stations n !! id ≫= first_online online.
Proof. unfold coverage. by rewrite lookup_omap. Qed.

Lemma find_first_online (online : gset PositionId) (l : list PositionId) :
  (forall pos_id, pos_id ∈ l -> is_Some (positions n !! pos_id)) ->
  ps_id <$> list_find_map (λ pos_id,
    if bool_decide (pos_id ∈ online) then positions n !! pos_id else None) l
  = head (filter (λ pos_id, pos_id ∈ online) l).
Proof.
  induction l as [|pos_id l IH]; intros Hl; [done|]. cbn [list_find_map].
  rewrite filter_cons. case_bool_decide as Hon.
  - rewrite decide_True by done. destruct (Hl pos_id) as [p Hp]; [by left|].
    rewrite Hp. cbn. by rewrite (nw_position_id n Hwf pos_id p).
  - rewrite decide_False by done. apply IH. intros. apply Hl. by right.
Qed.

Lemma controlling_position_id id online :
  ps_id <$> controlling_position n id online = coverage n online !! id.
Proof.
  rewrite lookup_coverage. unfold controlling_position.
  destruct (stations n !! id) as [s|] eqn:Es; cbn; [|done]. apply find_first_online.
  intros pos_id Hin. destruct (nw_controlled_by n Hwf id s pos_id Es Hin) as (p & Hp & _). eauto.
Qed.

Lemma controlling_position_lookup id online p :
  controlling_position n id online = Some p -> positions n !! ps_id p = Some p.
Proof.
  unfold controlling_position. destruct (stations n !! id) as [s|]; cbn; [|done].
  intros (pos_id & _ & Hf)%list_find_map_Some. case_bool_decide; [|done].
  by rewrite (nw_position_id n Hwf pos_id p).
Qed.

Lemma station_change_between id s from to :
  stations n !! id = Some s ->
  station_change s (controlling_position n (st_id s) from) (controlling_position n (st_id s) to)
  = change_between id (coverage n from !! id) (coverage n to !! id).
Proof.
  intros Hs. rewrite (nw_station_id n Hwf id s Hs).
  rewrite <- !controlling_position_id. unfold station_change, change_between.
  rewrite (nw_station_id n Hwf id s Hs).
  case_bool_decide as H; case_decide as H'; try done.
  by destruct (controlling_position n id from), (controlling_position n id to).
Qed.

(** If the coverage of a station changes, one of its positions went online or
    offline. *)
Lemma first_online_changed s (from to : gset PositionId) :
  first_online from s <> first_online to s ->
  exists pos_id, pos_id ∈ st_controlled_by s /\ pos_id ∈ (from ∖ to) ∪ (to ∖ from).
Proof.
  unfold first_online. induction (st_controlled_by s) as [|p l IH]; [done|].
  rewrite !filter_cons. intros Hne.
  destruct (decide (p ∈ from)), (decide (p ∈ to)); [done| | |].
  - exists p. set_solver.
  - exists p. set_solver.
  - destruct (IH Hne) as (q & ? & ?). exists q. set_solver.
Qed.

(** ** The changes *)

(** The changes before they are sorted. *)
Definition raw_diff (from to : gset PositionId) : list StationChange :=
  omap (λ id,
    station ← stations n !! id;
    station_change station (controlling_position n (st_id station) from)
      (controlling_position n (st_id station) to))
    (set_iter (⋃ (map ps_controlled_stations
      (omap (λ id, positions n !! id) (set_iter ((from ∖ to) ∪ (to ∖ from)))))
      : gset StationId)).

Lemma raw_diff_in from to c :
  c ∈ raw_diff from to <->
  exists id, change_between id (coverage n from !! id) (coverage n to !! id) = Some c.
Proof.
  unfold raw_diff. rewrite list_elem_of_omap. split.
  - intros (id & _ & Hc). destruct (stations n !! id) as [s|] eqn:Hs; cbn in Hc; [|done].
    exists id. by rewrite (station_change_between id) in Hc.
  - intros (id & Hc). exists id.
    assert (coverage n from !! id <> coverage n to !! id) as Hne.
    { intros Heq. by rewrite Heq, change_between_same in Hc. }
    rewrite !lookup_coverage in Hne. destruct (stations n !! id) as [s|] eqn:Hs; [|done].
    cbn in Hne |- *. rewrite (station_change_between id s) by done. split; [|done].
    apply first_online_changed in Hne as (pos_id & Hin & Hch).
    destruct (nw_controlled_by n Hwf id s pos_id Hs Hin) as (p & Hp & Hid).
    apply elem_of_set_iter, elem_of_union_list. exists (ps_controlled_stations p). split; [|done].
    apply list_elem_of_fmap. exists p. split; [done|]. apply list_elem_of_omap. exists pos_id.
    split; [by apply elem_of_set_iter|done].
Qed.

Lemma omap_change_ids (f : StationId -> option StationChange) l :
  NoDup l -> (forall id c, f id = Some c -> change_station_id c = id) ->
  NoDup (map change_station_id (omap f l)).
Proof.
  intros Hnd Hf. induction Hnd as [|id l Hid _ IH]; cbn; [constructor|].
  destruct (f id) as [c|] eqn:Hc; cbn; [|done]. constructor; [|done].
  rewrite (Hf _ _ Hc). intros (c' & -> & (id' & Hin & Hc')%list_elem_of_omap)%list_elem_of_fmap.
  by rewrite (Hf _ _ Hc') in Hid.
Qed.

Lemma raw_diff_NoDup from to : NoDup (map change_station_id (raw_diff from to)).
Proof.
  apply omap_change_ids; [apply NoDup_set_iter|]. intros id c Hc.
  destruct (stations n !! id) as [s|] eqn:Hs; cbn in Hc; [|done].
  rewrite (station_change_between id) in Hc by done. by eapply change_between_id.
Qed.

Lemma coverage_diff_raw from to :
  coverage_diff n from to = merge_sort station_change_le (raw_diff from to).
Proof.
  unfold coverage_diff. case_bool_decide as He; [|done]. unfold raw_diff. rewrite He.
  replace (set_iter (∅ : gset PositionId)) with (@nil PositionId) by (by symmetry; apply set_iter_nil).
  cbn. replace (set_iter (∅ : gset StationId)) with (@nil StationId) by (by symmetry; apply set_iter_nil).
  done.
Qed.

Lemma coverage_diff_in from to c :
  c ∈ coverage_diff n from to <->
  exists id, change_between id (coverage n from !! id) (coverage n to !! id) = Some c.
Proof. by rewrite coverage_diff_raw, merge_sort_in, raw_diff_in. Qed.

Lemma coverage_diff_NoDup from to : NoDup (map change_station_id (coverage_diff n from to)).
Proof.
  rewrite coverage_diff_raw. eapply NoDup_Permutation_proper; [|apply raw_diff_NoDup].
  apply Permutation_map, merge_sort_Permutation.
Qed.

Lemma coverage_diff_applied from to :
  apply_changes (coverage n from) (coverage_diff n from to) = coverage n to.
Proof. apply apply_changes_between; [apply coverage_diff_NoDup|apply coverage_diff_in]. Qed.

Lemma coverage_diff_sorted from to :
  StronglySorted station_change_le (coverage_diff n from to).
Proof. rewrite coverage_diff_raw. apply (StronglySorted_merge_sort _). Qed.
End lookup.

(** Two iteration orders give the same changes in the same order. *)
Lemma coverage_diff_order (HO1 HO2 : HashOrder) n from to :
  network_wf n -> @coverage_diff HO1 n from to = @coverage_diff HO2 n from to.
Proof.
  intros Hwf. rewrite !coverage_diff_raw. apply (merge_sort_unique _).
  - eapply (NoDup_fmap_1 change_station_id), raw_diff_NoDup; done.
  - eapply (NoDup_fmap_1 change_station_id), raw_diff_NoDup; done.
  - intros c. by rewrite !raw_diff_in.
Qed.

(** ** Changes of position *)

(** Membership in sets built from one or two positions, by cases. *)
Ltac member_cases :=
  let x := fresh "x" in
  intros x;
  repeat match goal with
  | p : PositionId |- _ =>
    lazymatch p with x => fail | _ => idtac end;
    lazymatch goal with
    | _ : x = p |- _ => fail
    | _ : x <> p |- _ => fail
    | _ => destruct (decide (x = p))
    end
  end; set_solver.

Lemma coverage_diff_same {HO : HashOrder} n (o o' : gset PositionId) :
  (forall x, x ∈ o <-> x ∈ o') -> coverage_diff n o o' = [].
Proof.
  intros H%set_eq. subst. unfold coverage_diff. rewrite bool_decide_true by set_solver. done.
Qed.

Lemma coverage_diff_ext {HO : HashOrder} n (o o1 o2 : gset PositionId) :
  (forall x, x ∈ o1 <-> x ∈ o2) -> coverage_diff n o o1 = coverage_diff n o o2.
Proof. by intros ->%set_eq. Qed.

Lemma coverage_changes_diff {HO : HashOrder} n from to online :
  coverage_changes n from to online =
  coverage_diff n online
    (online ∖ list_to_set (option_list from) ∪ list_to_set (option_list to)).
Proof.
  unfold coverage_changes.
  destruct from as [from|], to as [to|]; cbn -[coverage_diff]; repeat case_bool_decide;
    cbn -[coverage_diff]; subst;
    first [apply coverage_diff_ext; by member_cases
          |symmetry; apply coverage_diff_same; by member_cases].
Qed.

(** ** The covered stations *)

Lemma head_filter_spec (online : gset PositionId) l p :
  head (filter (λ q, q ∈ online) l) = Some p <->
  exists before after, l = before ++ p :: after /\ p ∈ online /\
    forall q, q ∈ before -> q ∉ online.
Proof.
  induction l as [|x l IH]; [split; [done|intros (b & ? & H & _); by destruct b]|].
  rewrite filter_cons. case_decide as Hx.
  - split.
    + intros [= ->]. exists [], l. split; [done|]. split; [done|].
      intros q Hq. by apply not_elem_of_nil in Hq.
    + intros ([|y b] & a & H & Hp & Hb); simplify_eq/=; [done|].
      destruct (Hb y); [by left|done].
  - rewrite IH. split.
    + intros (b & a & -> & Hp & Hb). exists (x :: b), a. split; [done|]. split; [done|].
      intros q [->|Hq]%elem_of_cons; [done|by apply Hb].
    + intros ([|y b] & a & H & Hp & Hb); simplify_eq/=; [done|].
      exists b, a. split; [done|]. split; [done|]. intros q Hq. apply Hb. by right.
Qed.

Lemma first_online_spec n online (id : StationId) p :
  stations n !! id ≫= first_online online = Some p <->
  exists s before after, stations n !! id = Some s /\ st_controlled_by s = before ++ p :: after /\
    p ∈ online /\ forall q, q ∈ before -> q ∉ online.
Proof.
  destruct (stations n !! id) as [s|]; cbn; [|naive_solver].
  unfold first_online. rewrite head_filter_spec. naive_solver.
Qed.

Section covered.
Context {HO : HashOrder} (n : Network) (Hwf : network_wf n).

Lemma covered_of_station self online s :
  stations n !! st_id s = Some s ->
  option_map (λ position,
      mkCoveredStation s (bool_decide (self = Some (ps_id position))))
    (controlling_position n (st_id s) online)
  = (λ p, mkCoveredStation s (bool_decide (self = Some p))) <$> coverage n online !! st_id s.
Proof.
  intros Hs. rewrite <- (controlling_position_id n Hwf).
  by destruct (controlling_position n (st_id s) online).
Qed.

Lemma covered_stations_in self online c :
  c ∈ covered_stations n self online <->
  exists id p, stations n !! id = Some (cs_station c) /\ coverage n online !! id = Some p /\
    cs_is_self_controlled c = bool_decide (self = Some p).
Proof.
  unfold covered_stations. rewrite merge_sort_in, list_elem_of_omap.
  setoid_rewrite elem_of_map_values. split.
  - intros (s & [id Hs] & Hc). pose proof (nw_station_id n Hwf id s Hs) as <-.
    rewrite covered_of_station in Hc by done. apply fmap_Some in Hc as (p & Hp & ->). eauto.
  - intros (id & p & Hs & Hp & Hself). pose proof (nw_station_id n Hwf id _ Hs) as <-.
    exists (cs_station c). split; [eauto|]. rewrite covered_of_station, Hp by done. cbn.
    rewrite <- Hself. by destruct c.
Qed.

Lemma station_ids_NoDup : NoDup (map st_id (map_values (stations n))).
Proof.
  assert (map st_id (map_values (stations n)) = map_keys (stations n)) as ->.
  { change (map st_id (map snd (map_iter (stations n))) = map fst (map_iter (stations n))).
    rewrite map_map. apply map_ext_in.
    intros [id s] Hin%list_elem_of_In%elem_of_map_iter. by apply (nw_station_id n Hwf). }
  apply NoDup_fst_map_iter.
Qed.

Lemma covered_stations_NoDup self online :
  NoDup (map (λ c, st_id (cs_station c)) (covered_stations n self online)).
Proof.
  unfold covered_stations. rewrite merge_sort_Permutation.
  pose proof station_ids_NoDup as Hnd. revert Hnd. generalize (map_values (stations n)) as l.
  intros l. induction l as [|s l IH]; cbn; [constructor|]. intros [Hs Hl]%NoDup_cons.
  destruct (controlling_position n (st_id s) online) as [p|]; cbn; [|by apply IH].
  apply NoDup_cons. split; [|by apply IH].
  intros (c & Hc & Hin)%list_elem_of_fmap. apply Hs. apply list_elem_of_fmap.
  apply list_elem_of_omap in Hin as (s' & Hs' & Hin). exists s'. split; [|done]. rewrite Hc.
  by destruct (controlling_position n (st_id s') online); simplify_eq/=.
Qed.
End covered.

(** ** Positions for a callsign *)

Section find.
Context {HO : HashOrder} (n : Network) (Hwf : network_wf n).

Lemma position_ids_NoDup : NoDup (map ps_id (map_values (positions n))).
Proof.
  assert (map ps_id (map_values (positions n)) = map_keys (positions n)) as ->.
  { change (map ps_id (map snd (map_iter (positions n))) = map fst (map_iter (positions n))).
    rewrite map_map. apply map_ext_in.
    intros [id s] Hin%list_elem_of_In%elem_of_map_iter. by apply (nw_position_id n Hwf). }
  apply NoDup_fst_map_iter.
Qed.

Lemma elem_of_positions p : p ∈ map_values (positions n) <-> positions n !! ps_id p = Some p.
Proof.
  rewrite elem_of_map_values. split; [|eauto]. intros [id Hp].
  by rewrite (nw_position_id n Hwf id p).
Qed.

Lemma filter_ids_NoDup (P : Position -> Prop) `{!forall x, Decision (P x)} l :
  NoDup (map ps_id l) -> NoDup (map ps_id (filter P l)).
Proof.
  induction l as [|p l IH]; [done|]. cbn [map]. intros [Hp Hl]%NoDup_cons.
  rewrite filter_cons. case_decide; [|by apply IH]. cbn [map]. apply NoDup_cons.
  split; [|by apply IH]. intros (q & Hq & [_ Hin]%list_elem_of_filter)%list_elem_of_fmap.
  apply Hp, list_elem_of_fmap. by exists q.
Qed.
End find.
