(* ===== verification/CoverageResolve.v ===== *)
(** CoverageResolve: the positions a station inherits from its parents. The
    loop ends whatever the parents are, and it answers exactly one of the three
    outcomes of the climb: the root was reached, a parent is missing, or a
    station was met twice. *)
From stdpp Require Import prelude gmap strings list.
From Stdlib Require Import NArith.
From S2P Require Import Prelude Protocol Controllers CoverageErrors Profile Coverage.

(** ** Specification *)

(** The list without its later duplicates. *)
Definition add_occurrence (acc : list PositionId) (x : PositionId) : list PositionId :=
  if decide (x ∈ acc) then acc else acc ++ [x].

Definition first_occurrences (l : list PositionId) : list PositionId := foldl add_occurrence [] l.

(** From [s], through the stations of the list, up to a station. *)
Inductive ascent (all : gmap StationId StationRaw) (s : StationRaw) :
    list StationRaw -> StationRaw -> Prop :=
| ascent_here : ascent all s [] s
| ascent_up l t id p :
    ascent all s l t -> sr_parent_id t = Some id -> all !! id = Some p ->
    ascent all s (l ++ [t]) p.

Definition inherited (chain : list StationRaw) : list PositionId :=
  first_occurrences (mjoin (map sr_controlled_by chain)).

(** Where a climb ends that has met no station twice before. *)
Inductive climb_result (all : gmap StationId StationRaw) (s : StationRaw) (l : list StationRaw)
    (t : StationRaw) : Result (list PositionId) (list CoverageError) -> Prop :=
| climb_root :
    sr_id t ∉ map sr_id l -> sr_parent_id t = None ->
    climb_result all s l t (Ok (inherited (l ++ [t])))
| climb_missing id :
    sr_id t ∉ map sr_id l -> sr_parent_id t = Some id -> all !! id = None ->
    climb_result all s l t
      (Err [Validation (MissingParent (station_id_str (sr_id s)) (station_id_str id))])
| climb_cycle :
    sr_id t ∈ map sr_id l ->
    climb_result all s l t
      (Err [Validation (CycleDetected (map station_id_str (map sr_id (l ++ [t]))))]).

(** ** First occurrences *)

Lemma take_unseen_spec l acc seen :
  seen = list_to_set acc ->
  let (new, seen') := take_unseen seen l in
  acc ++ new = foldl add_occurrence acc l /\ seen' = list_to_set (acc ++ new).
Proof.
  revert acc seen. induction l as [|x l IH]; intros acc seen ->; cbn.
  - by rewrite app_nil_r.
  - unfold add_occurrence at 2. case_bool_decide as Hx.
    + rewrite decide_True by (by apply elem_of_list_to_set in Hx). by apply IH.
    + rewrite decide_False by (by rewrite elem_of_list_to_set in Hx).
      specialize (IH (acc ++ [x]) ({[x]} ∪ list_to_set acc)).
      destruct (take_unseen _ l) as [new seen']. rewrite <- app_assoc in IH. apply IH.
      rewrite list_to_set_app_L. cbn. set_solver.
Qed.

Lemma add_occurrences_spec l acc :
  NoDup acc ->
  NoDup (foldl add_occurrence acc l) /\
  forall x, x ∈ foldl add_occurrence acc l <-> x ∈ acc \/ x ∈ l.
Proof.
  revert acc. induction l as [|x l IH]; intros acc Hnd; cbn.
  - split; [done|]. intros x. by rewrite elem_of_nil, (right_id False or).
  - unfold add_occurrence at 2 4. case_decide as Hx.
    + destruct (IH acc Hnd) as [? H]. split; [done|]. intros y. rewrite H, elem_of_cons.
      naive_solver.
    + destruct (IH (acc ++ [x])) as [? H].
      { apply NoDup_app. split; [done|]. split; [set_solver|apply NoDup_singleton]. }
      split; [done|]. intros y. rewrite H, elem_of_cons, elem_of_app, list_elem_of_singleton.
      naive_solver.
Qed.

Lemma inherited_NoDup chain : NoDup (inherited chain).
Proof. apply add_occurrences_spec. constructor. Qed.

Lemma elem_of_inherited chain x :
  x ∈ inherited chain <-> exists s, s ∈ chain /\ x ∈ sr_controlled_by s.
Proof.
  unfold inherited, first_occurrences. rewrite (proj2 (add_occurrences_spec _ [] (NoDup_nil_2))).
  rewrite elem_of_nil, (left_id False or), list_elem_of_join.
  setoid_rewrite list_elem_of_fmap. naive_solver.
Qed.

Lemma inherited_snoc l t :
  inherited (l ++ [t]) = foldl add_occurrence (inherited l) (sr_controlled_by t).
Proof.
  unfold inherited, first_occurrences. rewrite map_app, join_app, foldl_app. cbn.
  by rewrite app_nil_r.
Qed.

(** ** The climb *)

Section resolve.
Context (all : gmap StationId StationRaw).
Context (Hkey : forall id s, all !! id = Some s -> sr_id s = id).

Lemma ascent_ids s l t :
  ascent all s l t -> forall x, x ∈ map sr_id (l ++ [t]) -> x ∈ {[sr_id s]} ∪ dom all.
Proof.
  induction 1 as [|l t id p _ IH Hid Hp]; intros x.
  - cbn. set_solver.
  - rewrite map_app, elem_of_app. intros [Hx|Hx]; [by apply IH|]. cbn in Hx.
    apply list_elem_of_singleton in Hx as ->. rewrite (Hkey _ _ Hp).
    apply elem_of_union_r, elem_of_dom. eauto.
Qed.

(** A climb without a repetition is no longer than the number of stations. *)
Lemma ascent_length s l t :
  ascent all s l t -> NoDup (map sr_id l) -> length l <= S (size all).
Proof.
  intros Ha Hnd. rewrite <- (length_map sr_id).
  pose proof (size_list_to_set (C := gset StationId) (map sr_id l) Hnd) as <-.
  transitivity (size ({[sr_id s]} ∪ dom all : gset StationId)).
  - apply subseteq_size. intros x Hx%elem_of_list_to_set. apply (ascent_ids s l t Ha).
    rewrite map_app. apply elem_of_app. by left.
  - rewrite size_union_alt, size_singleton.
    transitivity (1 + size (dom all)); [apply Nat.add_le_mono_l, subseteq_size; set_solver|].
    by rewrite size_dom.
Qed.

Definition result_of (o : list PositionId * list CoverageError) :
    Result (list PositionId) (list CoverageError) :=
  match o with (controlled_by, []) => Ok controlled_by | (_, errors) => Err errors end.

(** The loop, at a station reached by a climb without a repetition. *)
Lemma resolve_loop_spec s fuel l t :
  ascent all s l t -> NoDup (map sr_id l) -> size all + 3 <= fuel + length l ->
  exists o l' t', resolve_loop all (sr_id s) fuel (Some t) (inherited l)
      (list_to_set (map sr_id l)) (map sr_id l) (list_to_set (inherited l)) = Some o /\
    ascent all s l' t' /\ NoDup (map sr_id l') /\ climb_result all s l' t' (result_of o).
Proof.
  revert l t. induction fuel as [|fuel IH]; intros l t Ha Hnd Hfuel.
  { pose proof (ascent_length s l t Ha Hnd). lia. }
  destruct fuel as [|fuel]; [pose proof (ascent_length s l t Ha Hnd); lia|].
  cbn [resolve_loop]. case_bool_decide as Hv.
  { rewrite elem_of_list_to_set in Hv. eexists _, l, t. split; [done|]. split; [done|].
    split; [done|]. cbn. replace (map sr_id l ++ [sr_id t]) with (map sr_id (l ++ [t])) by
      (by rewrite map_app). by constructor. }
  rewrite elem_of_list_to_set in Hv.
  pose proof (take_unseen_spec (sr_controlled_by t) (inherited l) _ eq_refl) as Hnew.
  destruct (take_unseen _ _) as [new seen]. destruct Hnew as [Hnew ->].
  rewrite <- inherited_snoc in Hnew. rewrite Hnew.
  replace (map sr_id l ++ [sr_id t]) with (map sr_id (l ++ [t])) by (by rewrite map_app).
  replace ({[sr_id t]} ∪ list_to_set (map sr_id l)) with
    (list_to_set (map sr_id (l ++ [t])) : gset StationId)
    by (rewrite map_app, list_to_set_app_L; cbn; set_solver).
  destruct (sr_parent_id t) as [id|] eqn:Hid.
  - destruct (all !! id) as [p|] eqn:Hp.
    + apply IH; [by eapply ascent_up| |rewrite length_app; cbn; lia].
      rewrite map_app. cbn. apply NoDup_app. split; [done|].
      split; [set_solver|apply NoDup_singleton].
    + cbn [mbind option_bind resolve_loop]. eexists _, l, t. split; [done|]. split; [done|]. split; [done|].
      cbn. by apply climb_missing.
  - eexists _, l, t. split; [done|]. split; [done|]. split; [done|]. cbn. by constructor.
Qed.

Lemma resolve_spec s :
  exists l t, ascent all s l t /\ NoDup (map sr_id l) /\
    climb_result all s l t (resolve_controlled_by all s).
Proof.
  destruct (resolve_loop_spec s (resolve_fuel all) [] s) as (o & l & t & Ho & Ha & Hnd & Hr).
  { constructor. } { constructor. } { unfold resolve_fuel. cbn. lia. }
  exists l, t. split; [done|]. split; [done|]. unfold resolve_controlled_by. cbn in Ho.
  rewrite Ho. by destruct o as [? []].
Qed.

(** The fuel never runs out. *)
Lemma resolve_enough_fuel s :
  is_Some (resolve_loop all (sr_id s) (resolve_fuel all) (Some s) [] ∅ [] ∅).
Proof.
  destruct (resolve_loop_spec s (resolve_fuel all) [] s) as (o & l & t & Ho & _).
  { constructor. } { constructor. } { unfold resolve_fuel. cbn. lia. }
  by eexists.
Qed.
End resolve.

Lemma all_stations_keyed {HO : HashOrder} raw_firs id s :
  all_stations_of raw_firs !! id = Some s -> sr_id s = id.
Proof. intros (s' & [= -> ->] & _)%map_collect_lookup%list_elem_of_fmap. done. Qed.
