(* ===== verification/CoverageBuild.v ===== *)
(** CoverageBuild: what building a network accepts, and what it guarantees of
    the network that is built. *)
From stdpp Require Import prelude gmap strings list.
From Stdlib Require Import NArith.
From S2P Require Import Prelude Protocol Controllers CoverageErrors Profile.
From S2P Require Import Coverage CoverageLookup CoverageResolve.

(** ** Filling a table

    The loops over positions, stations and profiles have one shape: an entry
    whose key is taken or that is refused adds errors, any other is inserted. *)
Section fits.
Context {X K V : Type} `{!EqDecision K, !Countable K}.
Implicit Types (key : X -> K) (make : X -> option V) (m : gmap K V) (l : list X).

(** The entries can be added one after the other. *)
Definition fits key make m l : Prop :=
  NoDup (map key l) /\ forall x, x ∈ l -> m !! key x = None /\ is_Some (make x).

(** The table after they are added. *)
Definition filled key make m l (m' : gmap K V) : Prop :=
  forall k v, m' !! k = Some v <->
    m !! k = Some v \/ exists x, x ∈ l /\ key x = k /\ make x = Some v.

Lemma fits_nil key make m : fits key make m [].
Proof. split; [constructor|]. intros x Hx. by apply not_elem_of_nil in Hx. Qed.

Lemma filled_nil key make m : filled key make m [] m.
Proof.
  intros k v. split; [by left|]. intros [?|(x & Hx & _)]; [done|]. by apply not_elem_of_nil in Hx.
Qed.

Lemma filled_app key make m l1 l2 m1 m2 :
  filled key make m l1 m1 -> filled key make m1 l2 m2 -> filled key make m (l1 ++ l2) m2.
Proof.
  intros H1 H2 k v. rewrite (H2 k v), (H1 k v). setoid_rewrite elem_of_app. naive_solver.
Qed.

Lemma fits_app key make m l1 l2 m1 :
  (fits key make m l1 -> filled key make m l1 m1) ->
  fits key make m (l1 ++ l2) <-> fits key make m l1 /\ fits key make m1 l2.
Proof.
  intros Hfill. unfold fits. rewrite map_app, NoDup_app. setoid_rewrite elem_of_app. split.
  - intros [(Hnd1 & Hdis & Hnd2) H]. assert (fits key make m l1) as Hf1 by (split; auto).
    split; [done|]. split; [done|]. intros x Hx. destruct (H x) as [Hn Hm]; [by right|].
    split; [|done]. apply eq_None_not_Some. intros [v Hv].
    apply Hfill in Hv as [Hv|(y & Hy & Hk & _)]; [congruence| |done].
    apply (Hdis (key y)); [by apply list_elem_of_fmap; exists y|].
    apply list_elem_of_fmap. by exists x.
  - intros [[Hnd1 H1] [Hnd2 H2]]. assert (filled key make m l1 m1) as Hf by (apply Hfill; by split).
    split; [split; [done|]; split; [|done]|].
    + intros k (y & -> & Hy)%list_elem_of_fmap (x & Hk & Hx)%list_elem_of_fmap.
      destruct (H1 y Hy) as [_ [v Hv]], (H2 x Hx) as [Hn _].
      assert (m1 !! key x = Some v) by (apply Hf; right; eauto). congruence.
    + intros x [Hx|Hx]; [by apply H1|]. destruct (H2 x Hx) as [Hn ?]. split; [|done].
      apply eq_None_not_Some. intros [v Hv]. assert (m1 !! key x = Some v) by (apply Hf; by left).
      congruence.
Qed.

Lemma fits_one key make m x : fits key make m [x] <-> m !! key x = None /\ is_Some (make x).
Proof.
  unfold fits. split.
  - intros [_ H]. apply H. by left.
  - intros H. split; [apply NoDup_singleton|]. by intros y ->%list_elem_of_singleton.
Qed.

Lemma filled_one key make m x v :
  make x = Some v -> filled key make m [x] (<[key x := v]> m) <-> m !! key x = None \/ m !! key x = Some v.
Proof.
  intros Hm. unfold filled. split.
  - intros H. destruct (m !! key x) as [w|] eqn:Hw; [|by left]. right.
    assert (<[key x := v]> m !! key x = Some w) as Hi by (apply H; by left).
    by rewrite lookup_insert_eq in Hi.
  - intros Hk k w. setoid_rewrite list_elem_of_singleton. destruct (decide (key x = k)) as [<-|Hne].
    + rewrite lookup_insert_eq. naive_solver congruence.
    + rewrite lookup_insert_ne by done. naive_solver.
Qed.
End fits.

Lemma fits_map {Y X K V : Type} `{!EqDecision K, !Countable K} (f : Y -> X) (key : X -> K)
    (make : X -> option V) (m : gmap K V) (l : list Y) :
  fits key make m (map f l) <-> fits (λ y, key (f y)) (λ y, make (f y)) m l.
Proof.
  unfold fits. rewrite map_map. setoid_rewrite list_elem_of_fmap. naive_solver.
Qed.

Lemma filled_map {Y X K V : Type} `{!EqDecision K, !Countable K} (f : Y -> X) (key : X -> K)
    (make : X -> option V) (m m' : gmap K V) (l : list Y) :
  filled (λ y, key (f y)) (λ y, make (f y)) m l m' -> filled key make m (map f l) m'.
Proof. intros H k v. rewrite (H k v). setoid_rewrite list_elem_of_fmap. naive_solver. Qed.

Section fill.
Context {B E X K V : Type} `{!EqDecision K, !Countable K}.
Context (errors : B -> list E) (table : B -> gmap K V) (key : X -> K) (make : X -> option V)
  (step : B -> X -> B).
Context (step_adds : forall b x v, table b !! key x = None -> make x = Some v ->
  errors (step b x) = errors b /\ table (step b x) = <[key x := v]> (table b)).
Context (step_refuses : forall b x, is_Some (table b !! key x) \/ make x = None ->
  exists e es, errors (step b x) = errors b ++ e :: es).

Lemma fill_errors b l :
  (errors (foldl step b l) = [] <-> errors b = [] /\ fits key make (table b) l) /\
  (fits key make (table b) l -> filled key make (table b) l (table (foldl step b l))).
Proof.
  revert b. induction l as [|x l IH]; intros b; cbn [foldl].
  { split; [|intros _; apply filled_nil]. pose proof (fits_nil key make (table b)). tauto. }
  destruct (IH (step b x)) as [IHe IHt]. change (x :: l) with ([x] ++ l).
  assert (fits key make (table b) [x] -> errors (step b x) = errors b /\
    filled key make (table b) [x] (table (step b x))) as Hadd.
  { intros [Hk [v Hv]]%fits_one. destruct (step_adds b x v) as [He ->]; [done..|].
    split; [done|]. apply filled_one; [done|]. by left. }
  rewrite (fits_app _ _ _ _ _ (table (step b x))) by (intros H; by apply Hadd).
  destruct (decide (table b !! key x = None /\ is_Some (make x))) as [Hx|Hx].
  - apply fits_one in Hx. destruct (Hadd Hx) as [He Hf]. rewrite IHe, He. split; [tauto|].
    intros [_ Hl]. eapply filled_app; [done|]. by apply IHt.
  - assert (is_Some (table b !! key x) \/ make x = None) as Hr.
    { destruct (table b !! key x); [left; eauto|]. destruct (make x); [|by right].
      destruct Hx. eauto. }
    destruct (step_refuses b x Hr) as (e & es & He). rewrite fits_one. split; [|tauto].
    split; [|tauto]. intros [H _]%IHe. rewrite He in H. by destruct (errors b).
Qed.
End fill.

(** What no step touches. *)
Lemma fill_keeps {B X C} (f : B -> C) (step : B -> X -> B) b l :
  (forall b x, f (step b x) = f b) -> f (foldl step b l) = f b.
Proof. intros H. revert b. induction l as [|x l IH]; intros b; cbn; [done|]. by rewrite IH. Qed.

(** ** The entries of a region *)

Section build.
Context {HO : HashOrder} {FP : FrequencyPattern}.

Definition make_position (fir : FlightInformationRegionRaw) (raw : PositionRaw) : option Position :=
  match position_from_raw raw (fr_id fir) with Ok p => Some p | Err _ => None end.

Definition make_station (all : gmap StationId StationRaw) (fir : FlightInformationRegionRaw)
    (raw : StationRaw) : option Station :=
  match station_from_raw all raw (fr_id fir) with
  | Ok s => if bool_decide (st_controlled_by s = []) then None else Some s
  | Err _ => None
  end.

Lemma position_from_raw_id raw fid p : position_from_raw raw fid = Ok p -> ps_id p = pr_id raw.
Proof. unfold position_from_raw. by destruct (position_validate raw); intros; simplify_eq/=. Qed.

Lemma station_from_raw_ok all raw fid s :
  station_from_raw all raw fid = Ok s ->
  st_id s = sr_id raw /\ resolve_controlled_by all raw = Ok (st_controlled_by s).
Proof.
  unfold station_from_raw. destruct (station_validate raw); [|done].
  destruct (resolve_controlled_by all raw) as [cb|]; [|done]. by intros [= <-].
Qed.

Lemma resolve_err_cons all (Hkey : forall id s, all !! id = Some s -> sr_id s = id) raw errs :
  resolve_controlled_by all raw = Err errs -> errs <> [].
Proof.
  destruct (resolve_spec all Hkey raw) as (l & t & _ & _ & Hr). intros He. rewrite He in Hr.
  by inversion Hr.
Qed.

Lemma station_from_raw_err all (Hkey : forall id s, all !! id = Some s -> sr_id s = id) raw fid errs :
  station_from_raw all raw fid = Err errs -> errs <> [].
Proof.
  unfold station_from_raw. destruct (station_validate raw); [|by intros [= <-]].
  destruct (resolve_controlled_by all raw) as [cb|errs'] eqn:Hr; [done|]. intros [= <-].
  by eapply resolve_err_cons.
Qed.

Lemma add_positions fir b l :
  let b' := foldl (add_position fir) b l in
  (b_errors b' = [] <-> b_errors b = [] /\ fits pr_id (make_position fir) (b_positions b) l) /\
  (fits pr_id (make_position fir) (b_positions b) l ->
   filled pr_id (make_position fir) (b_positions b) l (b_positions b')).
Proof.
  apply (fill_errors b_errors b_positions).
  - intros b0 x v Hk. unfold make_position, add_position. rewrite Hk.
    rewrite bool_decide_false by (by intros [? ?]).
    destruct (position_from_raw x (fr_id fir)) as [p|] eqn:Hp; [|done]. intros [= ->]. cbn.
    by rewrite (position_from_raw_id _ _ _ Hp).
  - intros b0 x Hx. unfold add_position. case_bool_decide as Hk; [cbn; eauto|].
    destruct Hx as [?|Hx]; [done|]. unfold make_position in Hx.
    destruct (position_from_raw x (fr_id fir)); [done|]. cbn. eauto.
Qed.

Lemma add_stations all (Hkey : forall id s, all !! id = Some s -> sr_id s = id) fir b l :
  let b' := foldl (add_station all fir) b l in
  (b_errors b' = [] <-> b_errors b = [] /\ fits sr_id (make_station all fir) (b_stations b) l) /\
  (fits sr_id (make_station all fir) (b_stations b) l ->
   filled sr_id (make_station all fir) (b_stations b) l (b_stations b')).
Proof.
  apply (fill_errors b_errors b_stations).
  - intros b0 x v Hk. unfold make_station, add_station. rewrite Hk.
    rewrite bool_decide_false by (by intros [? ?]).
    destruct (station_from_raw all x (fr_id fir)) as [s|] eqn:Hs; [|done].
    case_bool_decide; [done|]. intros [= ->]. cbn.
    by destruct (station_from_raw_ok _ _ _ _ Hs) as [-> _].
  - intros b0 x Hx. unfold add_station. case_bool_decide as Hk; [cbn; eauto|].
    destruct Hx as [?|Hx]; [done|]. unfold make_station in Hx.
    destruct (station_from_raw all x (fr_id fir)) as [s|errs] eqn:Hs.
    + case_bool_decide; [cbn; eauto|done].
    + pose proof (station_from_raw_err all Hkey _ _ _ Hs). destruct errs; [done|]. cbn. eauto.
Qed.

Lemma add_profiles fir b l :
  let b' := foldl (add_profile fir) b l in
  (b_errors b' = [] <-> b_errors b = [] /\ fits fst (λ kv, Some kv.2) (b_profiles b) l) /\
  (fits fst (λ kv, Some kv.2) (b_profiles b) l ->
   filled fst (λ kv, Some kv.2) (b_profiles b) l (b_profiles b')).
Proof.
  apply (fill_errors b_errors b_profiles).
  - intros b0 x v Hk [= <-]. unfold add_profile. rewrite Hk.
    by rewrite bool_decide_false by (by intros [? ?]).
  - intros b0 x [Hx|Hx]; [|done]. unfold add_profile. rewrite bool_decide_true by done. cbn. eauto.
Qed.

(** What the three loops over a region leave alone. *)
Lemma add_positions_keeps fir b l :
  let b' := foldl (add_position fir) b l in
  b_firs b' = b_firs b /\ b_stations b' = b_stations b /\ b_profiles b' = b_profiles b.
Proof.
  cbn. rewrite !(fill_keeps _ (add_position fir)); [done|..];
    intros b0 x; unfold add_position; by repeat case_match.
Qed.

Lemma add_stations_keeps all fir b l :
  let b' := foldl (add_station all fir) b l in
  b_firs b' = b_firs b /\ b_positions b' = b_positions b /\ b_profiles b' = b_profiles b.
Proof.
  cbn. rewrite !(fill_keeps _ (add_station all fir)); [done|..];
    intros b0 x; unfold add_station; by repeat case_match.
Qed.

Lemma add_profiles_keeps fir b l :
  let b' := foldl (add_profile fir) b l in
  b_firs b' = b_firs b /\ b_positions b' = b_positions b /\ b_stations b' = b_stations b.
Proof.
  cbn. rewrite !(fill_keeps _ (add_profile fir)); [done|..];
    intros b0 x; unfold add_profile; by repeat case_match.
Qed.

(** ** The loop over the regions *)

Definition make_fir (fir : FlightInformationRegionRaw) : option FlightInformationRegion :=
  match fir_try_from fir with Ok f => Some f | Err _ => None end.

(** The entries of the regions, each with its region. *)
Definition of_firs {X} (f : FlightInformationRegionRaw -> list X)
    (l : list FlightInformationRegionRaw) : list (FlightInformationRegionRaw * X) :=
  mjoin (map (λ fir, map (pair fir) (f fir)) l).

Lemma of_firs_app {X} (f : FlightInformationRegionRaw -> list X) l1 l2 :
  of_firs f (l1 ++ l2) = of_firs f l1 ++ of_firs f l2.
Proof. unfold of_firs. by rewrite map_app, join_app. Qed.

Lemma of_firs_one {X} (f : FlightInformationRegionRaw -> list X) fir :
  of_firs f [fir] = map (pair fir) (f fir).
Proof. apply app_nil_r. Qed.

Lemma elem_of_of_firs {X} (f : FlightInformationRegionRaw -> list X) l fir x :
  (fir, x) ∈ of_firs f l <-> fir ∈ l /\ x ∈ f fir.
Proof.
  unfold of_firs. rewrite list_elem_of_join. setoid_rewrite list_elem_of_fmap. split.
  - intros (xs & Hx & fir' & -> & Hfir). apply list_elem_of_fmap in Hx as (y & [= -> ->] & Hy). done.
  - intros [Hfir Hx]. eexists. split; [|by exists fir]. apply list_elem_of_fmap. by exists x.
Qed.

Section regions.
Context (all : gmap StationId StationRaw) (position_ids : gset PositionId)
  (profile_ids : gset ProfileId).
Context (Hkey : forall id s, all !! id = Some s -> sr_id s = id).

Record fits_all (b : Build) (l : list FlightInformationRegionRaw) : Prop := {
  fit_references : forall fir, fir ∈ l ->
    fir_reference_errors (dom all) position_ids profile_ids fir = [];
  fit_firs : fits fr_id make_fir (b_firs b) l;
  fit_positions : fits (λ e, pr_id e.2) (λ e, make_position e.1 e.2) (b_positions b)
    (of_firs fr_positions l);
  fit_stations : fits (λ e, sr_id e.2) (λ e, make_station all e.1 e.2) (b_stations b)
    (of_firs fr_stations l);
  fit_profiles : fits (λ e, e.2.1) (λ e, Some e.2.2) (b_profiles b)
    (of_firs (λ fir, map_iter (fr_profiles fir)) l)
}.

Record filled_all (b : Build) (l : list FlightInformationRegionRaw) (b' : Build) : Prop := {
  fill_firs : filled fr_id make_fir (b_firs b) l (b_firs b');
  fill_positions : filled (λ e, pr_id e.2) (λ e, make_position e.1 e.2) (b_positions b)
    (of_firs fr_positions l) (b_positions b');
  fill_stations : filled (λ e, sr_id e.2) (λ e, make_station all e.1 e.2) (b_stations b)
    (of_firs fr_stations l) (b_stations b');
  fill_profiles : filled (λ e, e.2.1) (λ e, Some e.2.2) (b_profiles b)
    (of_firs (λ fir, map_iter (fr_profiles fir)) l) (b_profiles b')
}.

Lemma fits_prefix {X K V : Type} `{!EqDecision K, !Countable K} (key : X -> K)
    (make : X -> option V) (m : gmap K V) (l1 l2 : list X) :
  fits key make m (l1 ++ l2) -> fits key make m l1.
Proof.
  unfold fits. rewrite map_app. intros [[Hnd _]%NoDup_app H]. split; [done|].
  intros x Hx. apply H, elem_of_app. by left.
Qed.

Lemma fits_all_app b l1 l2 b1 :
  (fits_all b l1 -> filled_all b l1 b1) ->
  fits_all b (l1 ++ l2) <-> fits_all b l1 /\ fits_all b1 l2.
Proof.
  intros Hfill. split.
  - intros [Hr Hf Hp Hs Ho]. rewrite of_firs_app in Hp. rewrite of_firs_app in Hs. rewrite of_firs_app in Ho.
    assert (fits_all b l1) as H1.
    { constructor; [|by eapply fits_prefix..]. intros fir Hfir. apply Hr, elem_of_app. by left. }
    destruct (Hfill H1) as [Ff Fp Fs Fo]. split; [done|]. constructor.
    + intros fir Hfir. apply Hr, elem_of_app. by right.
    + by eapply (fits_app fr_id make_fir (b_firs b) l1 l2).
    + by eapply (fits_app (λ e, pr_id e.2) (λ e, make_position e.1 e.2)) in Hp as [_ ?].
    + by eapply (fits_app (λ e, sr_id e.2) (λ e, make_station all e.1 e.2)) in Hs as [_ ?].
    + by eapply (fits_app (λ e, e.2.1) (λ e, Some e.2.2)) in Ho as [_ ?].
  - intros [H1 H2]. destruct (Hfill H1) as [Ff Fp Fs Fo].
    destruct H1 as [R1 F1 P1 S1 O1], H2 as [R2 F2 P2 S2 O2].
    constructor; rewrite ?of_firs_app; [|by eapply fits_app..].
    intros fir [?|?]%elem_of_app; auto.
Qed.

Lemma filled_all_app b l1 l2 b1 b2 :
  filled_all b l1 b1 -> filled_all b1 l2 b2 -> filled_all b (l1 ++ l2) b2.
Proof.
  intros [] []. constructor; rewrite ?of_firs_app; by eapply filled_app.
Qed.

Lemma filled_all_nil b : filled_all b [] b.
Proof. constructor; apply filled_nil. Qed.

Lemma fits_all_nil b : fits_all b [].
Proof. constructor; [|apply fits_nil..]. intros fir Hfir. by apply not_elem_of_nil in Hfir. Qed.
Lemma fits_all_one b fir :
  fits_all b [fir] <->
  fir_reference_errors (dom all) position_ids profile_ids fir = [] /\
  (b_firs b !! fr_id fir = None /\ is_Some (make_fir fir)) /\
  fits pr_id (make_position fir) (b_positions b) (fr_positions fir) /\
  fits sr_id (make_station all fir) (b_stations b) (fr_stations fir) /\
  fits fst (λ kv, Some kv.2) (b_profiles b) (map_iter (fr_profiles fir)).
Proof.
  split.
  - intros [Hr Hf Hp Hs Ho]. rewrite of_firs_one, fits_map in Hp. rewrite of_firs_one, fits_map in Hs.
    rewrite of_firs_one, fits_map in Ho.
    rewrite fits_one in Hf. split; [apply Hr; by left|done].
  - intros (Hr & Hf & Hp & Hs & Ho). constructor; rewrite ?of_firs_one, ?fits_map, ?fits_one; try done.
    by intros fir' ->%list_elem_of_singleton.
Qed.

(** The region after its references are checked and it has its own entry. *)
Definition with_fir (b : Build) (fir : FlightInformationRegionRaw) (f : FlightInformationRegion) :
    Build :=
  mkBuild (b_errors b ++ fir_reference_errors (dom all) position_ids profile_ids fir)
    (<[fi_id f := f]> (b_firs b)) (b_positions b) (b_stations b) (b_profiles b).

Lemma fir_try_from_id fir f : fir_try_from fir = Ok f -> fi_id f = fr_id fir.
Proof. unfold fir_try_from. by destruct (fir_validate fir); intros; simplify_eq/=. Qed.

Lemma add_fir_spec b fir :
  let b' := add_fir all position_ids profile_ids b fir in
  (b_errors b' = [] <-> b_errors b = [] /\ fits_all b [fir]) /\
  (fits_all b [fir] -> filled_all b [fir] b').
Proof.
  cbn zeta. rewrite fits_all_one. unfold add_fir. cbn [b_firs push].
  case_bool_decide as Hk.
  { split; [|intros (_ & [Hn _] & _); by rewrite Hn in Hk; destruct Hk].
    split; [|intros (_ & _ & [Hn _] & _); by rewrite Hn in Hk; destruct Hk].
    cbn. intros [_ ?]%app_nil. done. }
  unfold make_fir. destruct (fir_try_from fir) as [f|e] eqn:Hf.
  2:{ split; [|intros (_ & [_ [? ?]] & _); done]. split; [|intros (_ & _ & [_ [? ?]] & _); done].
      cbn. intros [_ ?]%app_nil. done. }
  cbn [push b_errors b_firs b_positions b_stations b_profiles].
  change (mkBuild _ _ _ _ _) with (with_fir b fir f).
  set (b1 := with_fir b fir f). set (b2 := foldl (add_position fir) b1 (fr_positions fir)).
  set (b3 := foldl (add_station all fir) b2 (fr_stations fir)).
  destruct (add_positions fir b1 (fr_positions fir)) as [Ep Fp].
  destruct (add_stations all Hkey fir b2 (fr_stations fir)) as [Es Fs].
  destruct (add_profiles fir b3 (map_iter (fr_profiles fir))) as [Eo Fo].
  destruct (add_positions_keeps fir b1 (fr_positions fir)) as (K1 & K2 & K3).
  destruct (add_stations_keeps all fir b2 (fr_stations fir)) as (K4 & K5 & K6).
  destruct (add_profiles_keeps fir b3 (map_iter (fr_profiles fir))) as (K7 & K8 & K9).
  fold b2 in Ep, Fp, K1, K2, K3. fold b3 in Es, Fs, K4, K5, K6.
  set (b4 := foldl (add_profile fir) b3 (map_iter (fr_profiles fir))) in *.
  rewrite K2 in Es, Fs. rewrite K6, K3 in Eo, Fo.
  change (b_positions b1) with (b_positions b) in *. change (b_stations b1) with (b_stations b) in *.
  change (b_profiles b1) with (b_profiles b) in *.
  assert (b_firs b !! fr_id fir = None) as Hn by (by apply eq_None_not_Some).
  split.
  - rewrite Eo, Es, Ep. subst b1. cbn [with_fir b_errors].
    assert (forall A (l k : list A), l ++ k = [] <-> l = [] /\ k = []) as Happ.
    { intros A l k. split; [apply app_nil|by intros [-> ->]]. }
    rewrite Happ. assert (is_Some (Some f)) by done. tauto.
  - intros (_ & _ & Hp & Hs & Ho). specialize (Fp Hp). specialize (Fs Hs). specialize (Fo Ho).
    constructor; rewrite ?of_firs_one.
    + rewrite K7, K4, K1. cbn. rewrite (fir_try_from_id _ _ Hf). apply filled_one; [|by left].
      unfold make_fir. by rewrite Hf.
    + apply filled_map. by rewrite K8, K5.
    + apply filled_map. by rewrite K9.
    + apply filled_map. done.
Qed.

Lemma add_firs_spec b l :
  let b' := foldl (add_fir all position_ids profile_ids) b l in
  (b_errors b' = [] <-> b_errors b = [] /\ fits_all b l) /\
  (fits_all b l -> filled_all b l b').
Proof.
  revert b. induction l as [|fir l IH]; intros b; cbn [foldl].
  { split; [|intros _; apply filled_all_nil]. pose proof (fits_all_nil b). tauto. }
  destruct (add_fir_spec b fir) as [He Hf].
  destruct (IH (add_fir all position_ids profile_ids b fir)) as [IHe IHf].
  change (fir :: l) with ([fir] ++ l). rewrite (fits_all_app _ _ _ _ Hf), IHe, He.
  split; [tauto|]. intros [H1 H2]. eapply filled_all_app; [by apply Hf|by apply IHf].
Qed.
End regions.
End build.

(** ** The last loop *)

Definition with_controlled (ids : gset StationId) (p : Position) : Position :=
  mkPosition (ps_id p) (ps_prefixes p) (ps_frequency p) (ps_facility_type p) (ps_profile_id p)
    (ps_default_call_sources p) (ps_fir_id p) (ids ∪ ps_controlled_stations p).

(** The loop over the stations and their positions, as one loop over pairs. *)
Definition control_pairs (l : list Station) : list (Station * PositionId) :=
  mjoin (map (λ s, map (pair s) (st_controlled_by s)) l).

Definition control_pair (b : Build) (sp : Station * PositionId) : Build :=
  control_station sp.1 b sp.2.

Lemma control_stations_pairs b l :
  foldl control_stations b l = foldl control_pair b (control_pairs l).
Proof.
  revert b. induction l as [|s l IH]; intros b; [done|]. unfold control_pairs. cbn.
  rewrite foldl_app. fold (control_pairs l). rewrite <- IH. f_equal. unfold control_stations.
  generalize (st_controlled_by s) as cb. intros cb. revert b.
  induction cb as [|p cb IHcb]; intros b; [done|]. cbn. by rewrite IHcb.
Qed.

(** The stations paired with a position. *)
Definition paired (l : list (Station * PositionId)) (id : PositionId) : gset StationId :=
  list_to_set (map (λ sp, st_id sp.1) (filter (λ sp, sp.2 = id) l)).

Arguments paired : simpl never.

Lemma elem_of_paired l id s : s ∈ paired l id <-> exists st, (st, id) ∈ l /\ st_id st = s.
Proof.
  unfold paired. rewrite elem_of_list_to_set, list_elem_of_fmap.
  setoid_rewrite list_elem_of_filter. split.
  - intros ([st p] & -> & [Hp Hin]). cbn in *. subst. eauto.
  - intros (st & Hin & <-). by exists (st, id).
Qed.

Lemma paired_cons s (p : PositionId) (l : list (Station * PositionId)) id x :
  (exists st, (st, id) ∈ (s, p) :: l /\ st_id st = x) <->
  (p = id /\ st_id s = x) \/ exists st, (st, id) ∈ l /\ st_id st = x.
Proof.
  split.
  - intros (st & [[= -> ->]|Hin]%elem_of_cons & <-); [by left|right; eauto].
  - intros [[-> <-]|(st & Hin & <-)]; [exists s|exists st]; (split; [|done]); [left|by right].
Qed.

Lemma control_pairs_spec b l :
  let b' := foldl control_pair b l in
  b_firs b' = b_firs b /\ b_stations b' = b_stations b /\ b_profiles b' = b_profiles b /\
  (b_errors b' = [] <-> b_errors b = [] /\ forall sp, sp ∈ l -> is_Some (b_positions b !! sp.2)) /\
  (forall id, b_positions b' !! id = with_controlled (paired l id) <$> b_positions b !! id).
Proof.
  revert b. induction l as [|[s p] l IH]; intros b; cbn [foldl].
  { repeat (split; [done|]). split; [split; [|tauto]|].
    - intros H. split; [done|]. intros sp Hsp. by apply not_elem_of_nil in Hsp.
    - intros id. destruct (b_positions b !! id) as [[]|]; [|done]. unfold with_controlled, paired. cbn.
      by rewrite (left_id_L ∅ (∪)). }
  destruct (IH (control_pair b (s, p))) as (-> & -> & -> & He & Hp).
  unfold control_pair, control_station in *. cbn [fst snd] in *.
  destruct (b_positions b !! p) as [q|] eqn:Hq; cbn [b_firs b_stations b_profiles b_errors b_positions push] in *.
  - repeat (split; [done|]). split.
    + rewrite He. apply and_iff_compat_l. setoid_rewrite elem_of_cons. split.
      * intros H sp [->|Hsp]; [eauto|]. specialize (H sp Hsp). by apply lookup_insert_is_Some in H as [<-|[_ ?]]; [eexists|].
      * intros H sp Hsp. specialize (H sp (or_intror Hsp)).
        apply lookup_insert_is_Some. destruct (decide (p = sp.2)); [by left|by right].
    + intros id. rewrite Hp. destruct (decide (p = id)) as [<-|Hne].
      * rewrite lookup_insert_eq, Hq. cbn. f_equal. unfold with_controlled. cbn. f_equal.
        apply set_eq. intros x. rewrite !elem_of_union, !elem_of_paired, elem_of_singleton, paired_cons. naive_solver.
      * rewrite lookup_insert_ne by done. f_equal. f_equal. apply set_eq. intros x.
        rewrite !elem_of_paired, paired_cons. naive_solver.
  - repeat (split; [done|]). split.
    + rewrite He. split; [intros [[_ ?]%app_nil _]; done|].
      intros [_ H]. destruct (H (s, p)) as [? Hs]; [by left|]. cbn in Hs. congruence.
    + intros id. rewrite Hp. destruct (b_positions b !! id) as [q|] eqn:Hid; [|done]. cbn. f_equal.
      f_equal. apply set_eq. intros x. rewrite !elem_of_paired, paired_cons. naive_solver congruence.
Qed.

(** ** What building accepts *)

Definition raw_stations (raw_firs : list FlightInformationRegionRaw) : list StationRaw :=
  mjoin (map fr_stations raw_firs).
Definition raw_positions (raw_firs : list FlightInformationRegionRaw) : list PositionRaw :=
  mjoin (map fr_positions raw_firs).
Definition raw_position_ids (raw_firs : list FlightInformationRegionRaw) : gset PositionId :=
  list_to_set (map pr_id (raw_positions raw_firs)).
Definition raw_profile_ids (raw_firs : list FlightInformationRegionRaw) : gset ProfileId :=
  ⋃ (map (λ fir, dom (fr_profiles fir)) raw_firs).

(** Nothing refers to what is not there. *)
Record references_ok {HO : HashOrder} (raw_firs : list FlightInformationRegionRaw) : Prop := {
  ref_stations : forall s p, s ∈ raw_stations raw_firs -> p ∈ sr_controlled_by s ->
    p ∈ raw_position_ids raw_firs;
  ref_profiles : forall p id, p ∈ raw_positions raw_firs -> pr_profile_id p = Some id ->
    id ∈ raw_profile_ids raw_firs;
  ref_sources : forall p s, p ∈ raw_positions raw_firs -> s ∈ pr_default_call_sources p ->
    s ∈ dom (all_stations_of raw_firs);
  ref_layouts : forall fir id pr, fir ∈ raw_firs -> fr_profiles fir !! id = Some pr ->
    profile_validate_references (dom (all_stations_of raw_firs)) pr = Ok ()
}.

(** The regions a network can be built from. *)
Record raw_ok {HO : HashOrder} {FP : FrequencyPattern}
    (raw_firs : list FlightInformationRegionRaw) : Prop := {
  ok_firs : NoDup (map fr_id raw_firs) /\
    forall fir, fir ∈ raw_firs -> fir_validate fir = Ok ();
  ok_positions : NoDup (map pr_id (raw_positions raw_firs)) /\
    forall p, p ∈ raw_positions raw_firs -> position_validate p = Ok ();
  ok_stations : NoDup (map sr_id (raw_stations raw_firs)) /\
    forall s, s ∈ raw_stations raw_firs -> station_validate s = Ok () /\
      exists cb, resolve_controlled_by (all_stations_of raw_firs) s = Ok cb /\ cb <> [];
  ok_profiles : NoDup (mjoin (map (λ fir, map_keys (fr_profiles fir)) raw_firs));
  ok_references : references_ok raw_firs
}.

Lemma of_firs_snd {X Y} (f : FlightInformationRegionRaw -> list X) (g : X -> Y) l :
  map (λ e, g e.2) (of_firs f l) = map g (mjoin (map f l)).
Proof.
  unfold of_firs. induction l as [|fir l IH]; [done|]. cbn. rewrite !map_app, map_map. f_equal. exact IH.
Qed.

Lemma elem_of_raw {X} (f : FlightInformationRegionRaw -> list X) l x :
  x ∈ mjoin (map f l) <-> exists fir, (fir, x) ∈ of_firs f l.
Proof.
  setoid_rewrite elem_of_of_firs. rewrite list_elem_of_join. setoid_rewrite list_elem_of_fmap.
  naive_solver.
Qed.

Lemma fits_of_firs {X K V : Type} `{!EqDecision K, !Countable K}
    (f : FlightInformationRegionRaw -> list X) (key : X -> K)
    (make : FlightInformationRegionRaw -> X -> option V) l (ok : X -> Prop) :
  (forall fir x, is_Some (make fir x) <-> ok x) ->
  fits (λ e, key e.2) (λ e, make e.1 e.2) (∅ : gmap K V) (of_firs f l) <->
  NoDup (map key (mjoin (map f l))) /\ forall x, x ∈ mjoin (map f l) -> ok x.
Proof.
  intros Hok. unfold fits. rewrite of_firs_snd. apply and_iff_compat_l. split.
  - intros H x [fir Hx]%elem_of_raw. by apply H in Hx as [_ ?%Hok].
  - intros H [fir x] Hx. rewrite lookup_empty. split; [done|]. apply Hok, H, elem_of_raw. eauto.
Qed.

Section accepts.
Context {HO : HashOrder} {FP : FrequencyPattern}.

Lemma make_position_ok fir x : is_Some (make_position fir x) <-> position_validate x = Ok ().
Proof.
  unfold make_position, position_from_raw. destruct (position_validate x) as [[]|]; cbn.
  - by split.
  - split; [by intros [? ?]|done].
Qed.

Lemma make_station_ok all fir s :
  is_Some (make_station all fir s) <-> station_validate s = Ok () /\
    exists cb, resolve_controlled_by all s = Ok cb /\ cb <> [].
Proof.
  unfold make_station, station_from_raw. destruct (station_validate s) as [[]|]; cbn.
  2:{ split; [by intros [? ?]|by intros [? _]]. }
  destruct (resolve_controlled_by all s) as [cb|]; cbn.
  2:{ split; [by intros [? ?]|by intros (_ & ? & ? & _)]. }
  case_bool_decide as Hcb.
  - split; [by intros [? ?]|]. intros (_ & cb' & [= <-] & ?). done.
  - split; [|done]. intros _. eauto.
Qed.

Lemma make_fir_ok fir : is_Some (make_fir fir) <-> fir_validate fir = Ok ().
Proof.
  unfold make_fir, fir_try_from. destruct (fir_validate fir) as [[]|]; cbn.
  - by split.
  - split; [by intros [? ?]|done].
Qed.

Lemma located_nil entity fir (r : Result () CoverageError) :
  located entity fir r = [] <-> r = Ok ().
Proof. by destruct r as [[]|]. Qed.

Lemma app_nil_iff {A} (l k : list A) : l ++ k = [] <-> l = [] /\ k = [].
Proof. split; [apply app_nil|by intros [-> ->]]. Qed.

Lemma mjoin_map_nil {A B} (f : A -> list B) l : mjoin (map f l) = [] <-> forall x, x ∈ l -> f x = [].
Proof.
  induction l as [|x l IH]; cbn.
  - split; [|done]. intros _ x Hx. by apply not_elem_of_nil in Hx.
  - rewrite app_nil_iff, IH. setoid_rewrite elem_of_cons. naive_solver.
Qed.

Lemma station_references_ok ids s :
  station_validate_references ids s = Ok () <-> forall p, p ∈ sr_controlled_by s -> p ∈ ids.
Proof.
  unfold station_validate_references.
  destruct (list_find _ _) as [[i p]|] eqn:Hf.
  - apply list_find_Some in Hf as (Hi & Hp & _). split; [done|]. intros H. destruct Hp.
    apply H. by eapply list_elem_of_lookup_2.
  - apply list_find_None in Hf. rewrite Forall_forall in Hf. split; [|done].
    intros _ p Hin. apply Hf in Hin. by apply dec_stable in Hin.
Qed.

Lemma position_profile_ok ids p :
  position_validate_profile ids p = Ok () <-> forall id, pr_profile_id p = Some id -> id ∈ ids.
Proof.
  unfold position_validate_profile. destruct (pr_profile_id p) as [id|]; [|done].
  case_bool_decide; cbn; naive_solver.
Qed.

Lemma position_sources_ok ids p :
  position_validate_stations ids p = Ok () <-> forall s, s ∈ pr_default_call_sources p -> s ∈ ids.
Proof.
  unfold position_validate_stations. rewrite each_ok, Forall_forall.
  split; intros H s Hs; specialize (H s Hs); case_bool_decide; done.
Qed.

Lemma fir_references_nil sids pids prids fir :
  fir_reference_errors sids pids prids fir = [] <->
  (forall s p, s ∈ fr_stations fir -> p ∈ sr_controlled_by s -> p ∈ pids) /\
  (forall p id, p ∈ fr_positions fir -> pr_profile_id p = Some id -> id ∈ prids) /\
  (forall p s, p ∈ fr_positions fir -> s ∈ pr_default_call_sources p -> s ∈ sids) /\
  (forall id pr, fr_profiles fir !! id = Some pr -> profile_validate_references sids pr = Ok ()).
Proof.
  unfold fir_reference_errors. rewrite !app_nil_iff, !mjoin_map_nil.
  setoid_rewrite app_nil_iff. setoid_rewrite located_nil.
  setoid_rewrite station_references_ok. setoid_rewrite position_profile_ok.
  setoid_rewrite position_sources_ok. setoid_rewrite elem_of_map_values. naive_solver.
Qed.

Lemma references_nil raw_firs :
  (forall fir, fir ∈ raw_firs -> fir_reference_errors (dom (all_stations_of raw_firs))
     (raw_position_ids raw_firs) (raw_profile_ids raw_firs) fir = []) <-> references_ok raw_firs.
Proof.
  setoid_rewrite fir_references_nil. split.
  - intros H. constructor.
    + intros s p [fir [Hf Hs]%elem_of_of_firs]%elem_of_raw. by apply (H fir).
    + intros p id [fir [Hf Hs]%elem_of_of_firs]%elem_of_raw. by apply (H fir).
    + intros p s [fir [Hf Hs]%elem_of_of_firs]%elem_of_raw. by apply (H fir).
    + intros fir id pr Hf. by apply (H fir).
  - intros [H1 H2 H3 H4] fir Hf. repeat split.
    + intros s p Hs. apply H1, elem_of_raw. exists fir. by apply elem_of_of_firs.
    + intros p id Hs. apply H2, elem_of_raw. exists fir. by apply elem_of_of_firs.
    + intros p s Hs. apply H3, elem_of_raw. exists fir. by apply elem_of_of_firs.
    + intros id pr. by apply H4.
Qed.

Lemma fits_profiles raw_firs :
  fits (λ e : _ * (ProfileId * Profile), e.2.1) (λ e, Some e.2.2) (∅ : gmap ProfileId Profile)
    (of_firs (λ fir, map_iter (fr_profiles fir)) raw_firs) <->
  NoDup (mjoin (map (λ fir, map_keys (fr_profiles fir)) raw_firs)).
Proof.
  rewrite (fits_of_firs _ fst (λ _ x, Some x.2) _ (λ _, True)) by (intros; split; [done|eauto]).
  assert (map fst (mjoin (map (λ fir, map_iter (fr_profiles fir)) raw_firs))
    = mjoin (map (λ fir, map_keys (fr_profiles fir)) raw_firs)) as ->; [|naive_solver].
  induction raw_firs as [|fir l IH]; [done|]. cbn. rewrite map_app. f_equal. exact IH.
Qed.

(** What the loop over the regions accepts, starting from nothing. *)
Lemma fits_all_raw_ok errors raw_firs :
  fits_all (all_stations_of raw_firs) (raw_position_ids raw_firs) (raw_profile_ids raw_firs)
    (mkBuild errors ∅ ∅ ∅ ∅) raw_firs <-> raw_ok raw_firs.
Proof.
  assert (fits fr_id make_fir (∅ : gmap _ _) raw_firs <-> NoDup (map fr_id raw_firs) /\
    forall fir, fir ∈ raw_firs -> fir_validate fir = Ok ()) as Hfirs.
  { unfold fits. setoid_rewrite make_fir_ok. setoid_rewrite lookup_empty. naive_solver. }
  pose proof (fits_of_firs fr_positions pr_id make_position raw_firs _ make_position_ok) as Hp.
  pose proof (fits_of_firs fr_stations sr_id (make_station (all_stations_of raw_firs)) raw_firs _
    (make_station_ok _)) as Hs.
  split.
  - intros [R F P S O]. constructor; [by apply Hfirs|by apply Hp|by apply Hs| |].
    + by apply fits_profiles.
    + by apply references_nil.
  - intros [F P S O R]. constructor; [by apply references_nil|by apply Hfirs|by apply Hp|by apply Hs|].
    by apply fits_profiles.
Qed.
End accepts.
