(* ===== verification/CoverageProperties.v ===== *)
(** CoverageProperties: the theorems about networks and coverage, and a small
    network on which they are tried. *)
From stdpp Require Import prelude gmap strings list sorting.
From Stdlib Require Import NArith.
From S2P Require Import Prelude Protocol Controllers CoverageErrors Profile ProfileProperties.
From S2P Require Import Coverage CoverageLookup CoverageResolve CoverageBuild.

(** ** What was built *)

Section built.
Context {HO : HashOrder} {FP : FrequencyPattern}.

Lemma all_stations_lookup raw_firs id s :
  all_stations_of raw_firs !! id = Some s -> s ∈ raw_stations raw_firs.
Proof. intros (s' & [= -> ->] & Hin)%map_collect_lookup%list_elem_of_fmap. done. Qed.

(** Every station of a climb was read from one of the regions. *)
Lemma ascent_raw raw_firs s l t :
  s ∈ raw_stations raw_firs -> ascent (all_stations_of raw_firs) s l t ->
  forall x, x ∈ l ++ [t] -> x ∈ raw_stations raw_firs.
Proof.
  intros Hs. induction 1 as [|l t id p _ IH Hid Hp]; intros x.
  - by intros ->%list_elem_of_singleton.
  - intros [Hx| ->%list_elem_of_singleton]%elem_of_app; [by apply IH|].
    by eapply all_stations_lookup.
Qed.

Lemma resolved_positions raw_firs s cb p :
  references_ok raw_firs -> s ∈ raw_stations raw_firs ->
  resolve_controlled_by (all_stations_of raw_firs) s = Ok cb ->
  NoDup cb /\ (p ∈ cb -> p ∈ raw_position_ids raw_firs).
Proof.
  intros Hok Hs Hr.
  destruct (resolve_spec _ (all_stations_keyed raw_firs) s) as (l & t & Ha & _ & H).
  rewrite Hr in H. inversion H; subst. split; [apply inherited_NoDup|].
  intros (x & Hx & Hin)%elem_of_inherited. eapply ref_stations; [done| |done].
  by eapply ascent_raw.
Qed.

Definition empty_build (errors : list CoverageError) : Build := mkBuild errors ∅ ∅ ∅ ∅.

(** The state after the loop over the regions. *)
Definition read_firs (errors : list CoverageError) (raw_firs : list FlightInformationRegionRaw) :
    Build :=
  foldl (add_fir (all_stations_of raw_firs) (raw_position_ids raw_firs) (raw_profile_ids raw_firs))
    (empty_build errors) raw_firs.

Lemma read_firs_spec errors raw_firs :
  (b_errors (read_firs errors raw_firs) = [] <-> errors = [] /\ raw_ok raw_firs) /\
  (raw_ok raw_firs ->
   filled_all (all_stations_of raw_firs) (empty_build errors) raw_firs (read_firs errors raw_firs)).
Proof.
  destruct (add_firs_spec (all_stations_of raw_firs) (raw_position_ids raw_firs)
    (raw_profile_ids raw_firs) (all_stations_keyed raw_firs) (empty_build errors) raw_firs) as [He Hf].
  unfold empty_build in *. rewrite fits_all_raw_ok in He, Hf. done.
Qed.

Section read.
Context (errors : list CoverageError) (raw_firs : list FlightInformationRegionRaw).
Context (Hok : raw_ok raw_firs).

Lemma read_station id s :
  b_stations (read_firs errors raw_firs) !! id = Some s <->
  exists fir raw, fir ∈ raw_firs /\ raw ∈ fr_stations fir /\ sr_id raw = id /\
    station_from_raw (all_stations_of raw_firs) raw (fr_id fir) = Ok s.
Proof.
  destruct (proj2 (read_firs_spec errors raw_firs) Hok) as [_ _ Fs _].
  rewrite (Fs id s). cbn. rewrite lookup_empty. split.
  - intros [?|([fir raw] & [Hf Hr]%elem_of_of_firs & <- & Hm)]; [done|]. exists fir, raw.
    repeat (split; [done|]). cbn in Hm. unfold make_station in Hm.
    destruct (station_from_raw _ _ _); [|done]. case_bool_decide; [done|]. congruence.
  - intros (fir & raw & Hf & Hr & <- & Hm). right. exists (fir, raw).
    split; [by apply elem_of_of_firs|]. split; [done|]. cbn. unfold make_station. rewrite Hm.
    rewrite bool_decide_false; [done|]. intros Hcb.
    destruct (ok_stations _ Hok) as [_ H]. destruct (H raw) as (_ & cb & Hcb' & Hne).
    { apply elem_of_raw. exists fir. by apply elem_of_of_firs. }
    apply station_from_raw_ok in Hm as [_ Hm]. congruence.
Qed.

Lemma read_position id p :
  b_positions (read_firs errors raw_firs) !! id = Some p <->
  exists fir raw, fir ∈ raw_firs /\ raw ∈ fr_positions fir /\ pr_id raw = id /\
    position_from_raw raw (fr_id fir) = Ok p.
Proof.
  destruct (proj2 (read_firs_spec errors raw_firs) Hok) as [_ Fp _ _].
  rewrite (Fp id p). cbn. rewrite lookup_empty. unfold make_position. split.
  - intros [?|([fir raw] & [Hf Hr]%elem_of_of_firs & <- & Hm)]; [done|]. exists fir, raw. cbn in Hm.
    destruct (position_from_raw _ _); naive_solver.
  - intros (fir & raw & Hf & Hr & <- & Hm). right. exists (fir, raw). cbn. rewrite Hm.
    split; [by apply elem_of_of_firs|done].
Qed.

Lemma read_profile id pr :
  b_profiles (read_firs errors raw_firs) !! id = Some pr <->
  exists fir, fir ∈ raw_firs /\ fr_profiles fir !! id = Some pr.
Proof.
  destruct (proj2 (read_firs_spec errors raw_firs) Hok) as [_ _ _ Fo].
  rewrite (Fo id pr). cbn. rewrite lookup_empty. split.
  - intros [?|([fir [k v]] & [Hf Hr]%elem_of_of_firs & <- & [= ->])]; [done|]. exists fir.
    split; [done|]. by apply elem_of_map_iter in Hr.
  - intros (fir & Hf & Hr). right. exists (fir, (id, pr)). split; [|done].
    apply elem_of_of_firs. split; [done|]. by apply elem_of_map_iter.
Qed.

(** Every position a station was given exists. *)
Lemma read_controlled_by id s p :
  b_stations (read_firs errors raw_firs) !! id = Some s ->
  NoDup (st_controlled_by s) /\ st_controlled_by s <> [] /\ st_id s = id /\
  (p ∈ st_controlled_by s -> is_Some (b_positions (read_firs errors raw_firs) !! p)).
Proof.
  intros (fir & raw & Hf & Hr & <- & Hm)%read_station.
  assert (raw ∈ raw_stations raw_firs) as Hin.
  { apply elem_of_raw. exists fir. by apply elem_of_of_firs. }
  destruct (station_from_raw_ok _ _ _ _ Hm) as [-> Hres].
  destruct (resolved_positions raw_firs raw _ p (ok_references _ Hok) Hin Hres) as [Hnd Hp].
  split; [done|]. split.
  { destruct (ok_stations _ Hok) as [_ H]. destruct (H raw Hin) as (_ & cb & Hcb & Hne). congruence. }
  split; [done|]. intros (x & -> & Hx)%Hp%elem_of_list_to_set%list_elem_of_fmap.
  apply elem_of_raw in Hx as [fir' Hx]. pose proof Hx as [Hf' Hx']%elem_of_of_firs.
  destruct (position_from_raw x (fr_id fir')) as [q|] eqn:Hq.
  - exists q. apply read_position. by exists fir', x.
  - destruct (ok_positions _ Hok) as [_ H]. unfold position_from_raw in Hq.
    rewrite H in Hq; [done|]. apply elem_of_raw. eauto.
Qed.

Lemma controlled_pairs_read st id :
  (st, id) ∈ control_pairs (map_values (b_stations (read_firs errors raw_firs))) <->
  b_stations (read_firs errors raw_firs) !! st_id st = Some st /\ id ∈ st_controlled_by st.
Proof.
  unfold control_pairs. rewrite list_elem_of_join. setoid_rewrite list_elem_of_fmap. split.
  - intros (xs & Hx & s & -> & [k Hk]%elem_of_map_values).
    apply list_elem_of_fmap in Hx as (y & [= -> ->] & Hy). split; [|done].
    by destruct (read_controlled_by _ _ y Hk) as (_ & _ & -> & _).
  - intros [Hs Hin]. eexists. split; [|exists st; split; [done|]].
    + apply list_elem_of_fmap. by exists id.
    + apply elem_of_map_values. eauto.
Qed.
End read.

(** The network that is built from the tables after the loop. *)
Definition network_of (b : Build) : Network :=
  mkNetwork (b_firs b)
    (map_imap (λ id p, Some (with_controlled
        (paired (control_pairs (map_values (b_stations b))) id) p)) (b_positions b))
    (b_stations b) (b_profiles b).

Lemma build_network_eq errors raw_firs n :
  build_network errors raw_firs = Ok n <->
  errors = [] /\ raw_ok raw_firs /\ n = network_of (read_firs errors raw_firs).
Proof.
  unfold build_network. change (mkBuild errors ∅ ∅ ∅ ∅) with (empty_build errors).
  change (foldl (add_fir _ _ _) (empty_build errors) raw_firs) with (read_firs errors raw_firs).
  set (b := read_firs errors raw_firs). rewrite control_stations_pairs.
  destruct (control_pairs_spec b (control_pairs (map_values (b_stations b))))
    as (E1 & E2 & E3 & He & Hp).
  set (b' := foldl control_pair b _) in *.
  assert (positions (network_of b) = b_positions b') as Hpos.
  { apply map_eq. intros id. rewrite Hp. cbn. rewrite map_lookup_imap.
    by destruct (b_positions b !! id). }
  assert (b_errors b' = [] <-> errors = [] /\ raw_ok raw_firs) as Herr.
  { rewrite He. unfold b. rewrite (proj1 (read_firs_spec errors raw_firs)). split; [tauto|].
    intros [H1 H2]. split; [done|]. intros [st id] [Hs Hin]%controlled_pairs_read; [|done].
    by eapply read_controlled_by. }
  assert (mkNetwork (b_firs b') (b_positions b') (b_stations b') (b_profiles b') = network_of b)
    as ->.
  { unfold network_of in *. cbn in Hpos. by rewrite E1, E2, E3, <- Hpos. }
  destruct (b_errors b') as [|e es] eqn:Hb.
  - split; [|intros (_ & _ & ->); done]. intros [= <-]. by destruct (proj1 Herr eq_refl).
  - split; [done|]. intros (H1 & H2 & _). by discriminate (proj2 Herr (conj H1 H2)).
Qed.
End built.

(** ** What a built network guarantees *)

Section guarantees.
Context {HO : HashOrder} {FP : FrequencyPattern}.
Context (errors : list CoverageError) (raw_firs : list FlightInformationRegionRaw) (n : Network).
Context (Hn : build_network errors raw_firs = Ok n).

Lemma built_wf : network_wf n.
Proof.
  apply build_network_eq in Hn as (_ & Hok & ->).
  assert (forall id p, positions (network_of (read_firs errors raw_firs)) !! id = Some p <->
    exists q, b_positions (read_firs errors raw_firs) !! id = Some q /\
      p = with_controlled (paired (control_pairs
        (map_values (b_stations (read_firs errors raw_firs)))) id) q) as Hpos.
  { intros id p. cbn. rewrite map_lookup_imap.
    destruct (b_positions (read_firs errors raw_firs) !! id) as [q|]; cbn; naive_solver. }
  constructor.
  - intros id s Hs. by eapply (read_controlled_by errors raw_firs Hok id s (mkPositionId "")).
  - intros id p (q & Hq & ->)%Hpos. cbn.
    apply read_position in Hq as (fir & raw & _ & _ & <- & Hq); [|done].
    by eapply position_from_raw_id.
  - intros id s Hs.
    by destruct (read_controlled_by errors raw_firs Hok id s (mkPositionId "") Hs) as (? & ? & _).
  - intros id s p Hs Hp.
    destruct (read_controlled_by errors raw_firs Hok id s p Hs) as (_ & _ & Hid & Hex).
    destruct (Hex Hp) as [q Hq]. eexists. split; [by apply Hpos; eauto|]. cbn.
    apply elem_of_union_l, elem_of_paired. exists s. split; [|done].
    apply controlled_pairs_read; [done|]. by rewrite Hid.
  - intros id p pos_id (q & Hq & ->)%Hpos [Hin|Hin]%elem_of_union.
    + apply elem_of_paired in Hin as (s & Hs & <-).
      apply controlled_pairs_read in Hs as [Hs Hin]; [|done]. eauto.
    + apply read_position in Hq as (fir & raw & _ & _ & <- & Hq); [|done].
      unfold position_from_raw in Hq. destruct (position_validate raw); simplify_eq/=. set_solver.
Qed.

Lemma built_stations id s :
  stations n !! id = Some s <->
  exists fir raw, fir ∈ raw_firs /\ raw ∈ fr_stations fir /\ sr_id raw = id /\
    resolve_controlled_by (all_stations_of raw_firs) raw = Ok (st_controlled_by s) /\
    s = mkStation (sr_id raw) (sr_parent_id raw) (st_controlled_by s) (fr_id fir).
Proof.
  apply build_network_eq in Hn as (_ & Hok & ->). cbn. rewrite read_station by done.
  split; intros (fir & raw & Hf & Hr & Hid & H); exists fir, raw; (do 3 (split; [done|])).
  - unfold station_from_raw in H. destruct (station_validate raw); [|done].
    destruct (resolve_controlled_by _ raw); [|done]. by simplify_eq/=.
  - destruct H as [Hres Hs]. unfold station_from_raw. rewrite Hres.
    destruct (ok_stations _ Hok) as [_ Hv]. destruct (Hv raw) as [-> _].
    { apply elem_of_raw. exists fir. by apply elem_of_of_firs. }
    by rewrite <- Hs.
Qed.

Lemma built_positions id :
  is_Some (positions n !! id) <-> id ∈ raw_position_ids raw_firs.
Proof.
  apply build_network_eq in Hn as (_ & Hok & ->). cbn. rewrite map_lookup_imap.
  unfold raw_position_ids. rewrite elem_of_list_to_set, list_elem_of_fmap. split.
  - intros [p Hp]. destruct (b_positions (read_firs errors raw_firs) !! id) as [q|] eqn:Hq; [|done].
    apply read_position in Hq as (fir & raw & Hf & Hr & <- & _); [|done]. exists raw.
    split; [done|]. apply elem_of_raw. exists fir. by apply elem_of_of_firs.
  - intros (raw & -> & Hr). pose proof Hr as [fir Hf]%elem_of_raw.
    apply elem_of_of_firs in Hf as [Hf Hin].
    assert (exists q, b_positions (read_firs errors raw_firs) !! pr_id raw = Some q) as [q ->].
    { eexists. apply read_position; [done|]. exists fir, raw. repeat (split; [done|]).
      unfold position_from_raw. by rewrite (proj2 (ok_positions _ Hok) raw Hr). }
    by eexists.
Qed.

Lemma built_profiles id pr :
  profiles n !! id = Some pr <-> exists fir, fir ∈ raw_firs /\ fr_profiles fir !! id = Some pr.
Proof. apply build_network_eq in Hn as (_ & Hok & ->). cbn. by apply read_profile. Qed.
End guarantees.

(** ** A small network *)

Definition any_frequency : FrequencyPattern := λ _, true.

Definition demo_station (id : string) (parent : option string) (by_ : list string) : StationRaw :=
  mkStationRaw (StationId_from id) (StationId_from <$> parent) (PositionId_from <$> by_).

Definition demo_position (id frequency : string) (facility : FacilityType) : PositionRaw :=
  mkPositionRaw (PositionId_from id) {["LO"%string]} frequency facility None [].

(** A tower that the approach and the centre take over when it is closed. *)
Definition demo_fir : FlightInformationRegionRaw :=
  mkFirRaw (FirId_from "LOVV")
    [demo_station "LOWW_TWR" (Some "LOWW_APP"%string) ["LOWW_TWR"%string];
     demo_station "LOWW_APP" (Some "LOVV_CTR"%string) ["LOWW_APP"%string];
     demo_station "LOVV_CTR" None ["LOVV_CTR"%string]]
    [demo_position "LOWW_TWR" "119.400" Tower; demo_position "LOWW_APP" "134.675" Approach;
     demo_position "LOVV_CTR" "132.600" Enroute]
    ∅.

Definition demo_network : Network :=
  match @build_network listed_order any_frequency [] [demo_fir] with
  | Ok n => n
  | Err _ => mkNetwork ∅ ∅ ∅ ∅
  end.

Lemma demo_built : @build_network listed_order any_frequency [] [demo_fir] = Ok demo_network.
Proof. vm_compute. reflexivity. Qed.

Lemma demo_network_wf : network_wf demo_network.
Proof. exact (@built_wf listed_order any_frequency _ _ _ demo_built). Qed.

Definition twr : PositionId := PositionId_from "LOWW_TWR".
Definition app : PositionId := PositionId_from "LOWW_APP".
Definition ctr : PositionId := PositionId_from "LOVV_CTR".
Definition twr_station : StationId := StationId_from "LOWW_TWR".
Definition app_station : StationId := StationId_from "LOWW_APP".

(** A position on the frequency, of the facility type. *)
Definition tuned (frequency : string) (facility : FacilityType) (p : Position) : Prop :=
  ps_frequency p = frequency /\ ps_facility_type p = facility.

(** ** Properties *)

(** C14: which regions a network is built from. No error was met while they
    were read, and they pass every check: no identifier is declared twice, every
    entry is valid by itself, every station inherits at least one position
    through an acyclic chain of existing parents, and nothing refers to a
    position, profile or station that is not there. *)
Theorem build_network_accepts {HO : HashOrder} {FP : FrequencyPattern} errors raw_firs :
  (exists n, build_network errors raw_firs = Ok n) <-> errors = [] /\ raw_ok raw_firs.
Proof.
  setoid_rewrite build_network_eq. split; [naive_solver|]. intros [? ?]. eauto.
Qed.



(** C16: the changes reported between two sets of online positions are exactly
    the differences between the two coverages: each station whose controller
    differs is listed once, as it came online, went offline or was handed off;
    applied to the first coverage they give the second. They are sorted, and
    the order in which hash tables are iterated does not show. *)
Theorem coverage_diff_spec {HO : HashOrder} n from to :
  network_wf n ->
  apply_changes (coverage n from) (coverage_diff n from to) = coverage n to /\
  (forall c, c ∈ coverage_diff n from to <->
     exists id, change_between id (coverage n from !! id) (coverage n to !! id) = Some c) /\
  NoDup (map change_station_id (coverage_diff n from to)) /\
  StronglySorted station_change_le (coverage_diff n from to) /\
  (forall HO' : HashOrder, @coverage_diff HO' n from to = coverage_diff n from to).
Proof.
  intros Hwf. split; [by apply coverage_diff_applied|]. split; [by apply coverage_diff_in|].
  split; [by apply coverage_diff_NoDup|]. split; [by apply coverage_diff_sorted|].
  intros HO'. by apply coverage_diff_order.
Qed.

Lemma coverage_diff_spec_witness :
  apply_changes (coverage demo_network {[app; ctr]})
    (@coverage_diff listed_order demo_network {[app; ctr]} {[twr; ctr]})
  = coverage demo_network {[twr; ctr]} /\
  @coverage_diff listed_order demo_network {[app; ctr]} {[twr; ctr]}
  = [Handoff app_station app ctr; Handoff twr_station app twr].
Proof.
  split; [|vm_compute; reflexivity].
  apply (@coverage_diff_spec listed_order demo_network {[app; ctr]} {[twr; ctr]}).
  exact demo_network_wf.
Defined.

(** When one client changes its position, the changes are those between
    the positions that were online and the same without its old position and
    with its new one, whether or not these were online before. *)
Theorem coverage_changes_spec {HO : HashOrder} n from to online :
  coverage_changes n from to online =
  coverage_diff n online
    (online ∖ list_to_set (option_list from) ∪ list_to_set (option_list to)).
Proof. apply coverage_changes_diff. Qed.

(** The station of a coverage is controlled by the first position of its
    list that is online, and the covered stations are those that have such a
    position, sorted by identifier, each marked by whether it is the position of
    the client. *)
Theorem covered_stations_spec {HO : HashOrder} n self online :
  network_wf n ->
  (forall id p, coverage n online !! id = Some p <->
     exists s before after, stations n !! id = Some s /\ st_controlled_by s = before ++ p :: after /\
       p ∈ online /\ forall q, q ∈ before -> q ∉ online) /\
  (forall c, c ∈ covered_stations n self online <->
     exists id p, stations n !! id = Some (cs_station c) /\ coverage n online !! id = Some p /\
       cs_is_self_controlled c = bool_decide (self = Some p)) /\
  StronglySorted covered_le (covered_stations n self online) /\
  NoDup (map (λ c, st_id (cs_station c)) (covered_stations n self online)).
Proof.
  intros Hwf. split; [intros id p; rewrite lookup_coverage; apply first_online_spec|].
  split; [intros c; by apply covered_stations_in|].
  split; [apply (StronglySorted_merge_sort _)|by apply covered_stations_NoDup].
Qed.

Lemma covered_stations_spec_witness :
  coverage demo_network {[app; ctr]} !! twr_station = Some app /\
  map (λ c, (st_id (cs_station c), cs_is_self_controlled c))
    (@covered_stations listed_order demo_network (Some app) {[app]})
  = [(app_station, true); (twr_station, true)].
Proof.
  split; [|vm_compute; reflexivity].
  apply (@covered_stations_spec listed_order demo_network None {[app; ctr]} demo_network_wf).
  eexists _, [twr], [ctr]. split; [vm_compute; reflexivity|]. split; [vm_compute; reflexivity|].
  split; [vm_compute; reflexivity|]. intros q ->%list_elem_of_singleton.
  apply (bool_decide_unpack (twr ∉ ({[app; ctr]} : gset PositionId))). vm_compute. exact I.
Defined.

(** The positions a controller may be working. The callsign is normalised
    first. If there is a position of that very name, on the frequency and of the
    facility type, it is the only answer; otherwise the answers are all the
    positions on the frequency and of the facility type one of whose prefixes
    the callsign begins with, each once, sorted by identifier. *)
Theorem find_positions_spec {HO : HashOrder} n callsign frequency facility :
  network_wf n ->
  let name := to_ascii_uppercase (replace_double callsign) in
  let found := find_positions n callsign frequency facility in
  (forall p, p ∈ found -> positions n !! ps_id p = Some p /\ tuned frequency facility p) /\
  (forall p, positions n !! mkPositionId name = Some p -> tuned frequency facility p ->
     found = [p]) /\
  ((forall p, positions n !! mkPositionId name = Some p -> ~ tuned frequency facility p) ->
     forall p, p ∈ found <-> positions n !! ps_id p = Some p /\ tuned frequency facility p /\
       exists pre, pre ∈ ps_prefixes p /\ starts_with name pre = true) /\
  StronglySorted position_le found /\ NoDup (map ps_id found).
Proof.
  intros Hwf name. unfold find_positions. fold name. cbn zeta.
  assert (forall p, tuned_to frequency facility p = true <-> tuned frequency facility p) as Hm.
  { intros p. unfold tuned_to, tuned. rewrite andb_true_iff, !bool_decide_eq_true. done. }
  set (l := merge_sort position_le _).
  assert (forall p, p ∈ l <-> positions n !! ps_id p = Some p /\ tuned frequency facility p /\
    exists pre, pre ∈ ps_prefixes p /\ starts_with name pre = true) as Hl.
  { intros p. unfold l. rewrite merge_sort_in, list_elem_of_filter, elem_of_positions by done.
    rewrite Is_true_true, andb_true_iff, Hm, existsb_exists.
    setoid_rewrite <- list_elem_of_In. setoid_rewrite elem_of_set_iter. tauto. }
  assert (StronglySorted position_le l /\ NoDup (map ps_id l)) as [Hs Hnd].
  { split; [apply (StronglySorted_merge_sort _)|]. unfold l. rewrite merge_sort_Permutation.
    by apply filter_ids_NoDup, position_ids_NoDup. }
  clearbody l. destruct (positions n !! mkPositionId name) as [q|] eqn:Hq.
  2:{ split; [intros p Hp%Hl; tauto|]. split; [done|]. split; [done|]. by split. }
  destruct (tuned_to frequency facility q) eqn:Hmq.
  - apply Hm in Hmq. split.
    { intros p ->%list_elem_of_singleton. by rewrite (nw_position_id n Hwf _ q Hq). }
    split; [by intros p [= <-]|]. split; [intros H; by destruct (H q)|].
    split; [repeat constructor|apply NoDup_singleton].
  - split; [intros p Hp%Hl; tauto|]. split.
    { intros p [= <-] Ht%Hm. congruence. }
    split; [done|]. by split.
Qed.

Lemma find_positions_spec_witness :
  exists p, positions demo_network !! twr = Some p /\
    @find_positions listed_order demo_network "loww__twr" "119.400" Tower = [p].
Proof.
  eexists. split; [vm_compute; reflexivity|].
  apply (@find_positions_spec listed_order demo_network "loww__twr" "119.400" Tower
    demo_network_wf); vm_compute; tauto.
Defined.

(** C17: the positions a station inherits. Whatever the parents are, the climb
    ends. It passes no station twice before it stops, and answers the positions
    of all the stations it passed, nearest first and each once, if it stopped
    at a station without a parent; the missing parent, if there is none under
    the name; and the whole chain, if it came back to a station. *)
Theorem resolve_controlled_by_spec {HO : HashOrder} raw_firs s :
  let all := all_stations_of raw_firs in
  is_Some (resolve_loop all (sr_id s) (resolve_fuel all) (Some s) [] ∅ [] ∅) /\
  exists l t, ascent all s l t /\ NoDup (map sr_id l) /\
    climb_result all s l t (resolve_controlled_by all s).
Proof.
  split; [apply resolve_enough_fuel, all_stations_keyed|].
  apply resolve_spec, all_stations_keyed.
Qed.
