(* ===== verification/Clients.v ===== *)
(** Clients: the registry of the connected clients, their positions and the
    stations they cover, [vacs-server/src/state/clients/manager.rs] and the
    data of a session, [session.rs].

    Every operation answers the messages it sends as a list of events, in
    order, and the new state. The locks are not modelled: an operation is one
    step. The data feed and the time are arguments. *)
From stdpp Require Import prelude gmap strings list sorting.
From Stdlib Require Import NArith.
From S2P Require Import Prelude Protocol Calls Controllers CoverageErrors Profile Coverage.

#[export] Instance ActiveProfile_countable : Countable (ActiveProfile ProfileId).
Proof.
  by apply (inj_countable'
    (λ p, match p with Specific id => Some (Some id) | Custom => Some None | NoProfile => None end)
    (λ o, match o with Some (Some id) => Specific id | Some None => Custom | None => NoProfile end));
  intros [].
Defined.

(** ** Sessions ([session.rs]) *)

Record ClientSession := mkClientSession {
  client_info : ClientInfo;
  active_profile : ActiveProfile ProfileId;
  connected_at : Instant;
  pending_disconnect : bool
}.

Module ClientSession.
Definition new (info : ClientInfo) (profile : ActiveProfile ProfileId) (now : Instant) :
    ClientSession :=
  mkClientSession info profile now false.

Definition id (s : ClientSession) : ClientId := info_id (client_info s).
Definition position_id (s : ClientSession) : option PositionId := info_position_id (client_info s).

(** [connected_at.elapsed() < *grace_period] *)
Definition is_within_position_grace_period (s : ClientSession) (grace_period : Duration)
    (now : Instant) : bool :=
  (duration_since now (connected_at s) <? grace_period)%N.

Definition with_pending (s : ClientSession) (pending : bool) : ClientSession :=
  mkClientSession (client_info s) (active_profile s) (connected_at s) pending.

Definition mark_pending_disconnect (s : ClientSession) : ClientSession := with_pending s true.

Definition take_pending_disconnect (s : ClientSession) : bool * ClientSession :=
  (pending_disconnect s, with_pending s false).

Definition with_info (s : ClientSession) (info : ClientInfo) : ClientSession :=
  mkClientSession info (active_profile s) (connected_at s) (pending_disconnect s).

Definition update_client_info (s : ClientSession) (controller : ControllerInfo) :
    bool * ClientSession :=
  let info := client_info s in
  let renamed := negb (bool_decide (display_name info = callsign controller)) in
  let info := if renamed then mkClientInfo (info_id info) (callsign controller)
    (info_frequency info) (info_position_id info) else info in
  let retuned := negb (bool_decide (info_frequency info = frequency controller)) in
  let info := if retuned then mkClientInfo (info_id info) (display_name info)
    (frequency controller) (info_position_id info) else info in
  (renamed || retuned, with_info s info).

Definition set_position_id (s : ClientSession) (position_id : option PositionId) : ClientSession :=
  let info := client_info s in
  with_info s (mkClientInfo (info_id info) (display_name info) (info_frequency info) position_id).

Definition with_profile (s : ClientSession) (profile : ActiveProfile ProfileId) : ClientSession :=
  mkClientSession (client_info s) profile (connected_at s) (pending_disconnect s).

Definition update_active_profile (s : ClientSession) (new_profile_id : option ProfileId)
    (network : Network) : SessionProfile * ClientSession :=
  let change profile := (Changed profile, with_profile s profile) in
  match active_profile s, new_profile_id with
  | Custom, _ => (Unchanged, s)
  | NoProfile, None => (Unchanged, s)
  | old, Some new_profile_id =>
    if bool_decide (old = Specific new_profile_id) then (Unchanged, s)
    else
      match get_profile network new_profile_id with
      | Some _ => change (Specific new_profile_id)
      | None => change NoProfile
      end
  | _, None => change NoProfile
  end.
End ClientSession.

(** ** State *)

Record ClientManager := mkClientManager {
  position_grace_period : Duration;
  cm_max_conf_size : N;
  network : Network;
  clients : gmap ClientId ClientSession;
  online_positions : gmap PositionId (gset ClientId);
  vatsim_only_positions : gmap PositionId (gset ClientId);
  online_stations : gmap StationId PositionId
}.

(** What an operation sends: to one session, to every session through the
    broadcast channel, or the order to a session to end. *)
Inductive Event :=
| ToClient (client_id : ClientId) (message : ServerMessage)
| ToAll (message : ServerMessage)
| Disconnect (client_id : ClientId) (reason : option DisconnectReason).

(** [coverage.rs] of the manager: what the API reports *)
Record StationCoverage := mkStationCoverage {
  sc_station_id : StationId;
  sc_controlling_position_id : PositionId;
  sc_controller_ids : gset ClientId;
  sc_vatsim_only : bool
}.

Record PositionCoverage := mkPositionCoverage {
  pc_position_id : PositionId;
  pc_controller_ids : gset ClientId;
  pc_vatsim_only : bool
}.

Definition with_clients (cm : ClientManager) x : ClientManager :=
  mkClientManager (position_grace_period cm) (cm_max_conf_size cm) (network cm) x
    (online_positions cm) (vatsim_only_positions cm) (online_stations cm).
Definition with_online (cm : ClientManager) x : ClientManager :=
  mkClientManager (position_grace_period cm) (cm_max_conf_size cm) (network cm) (clients cm)
    x (vatsim_only_positions cm) (online_stations cm).
Definition with_vatsim_only (cm : ClientManager) x : ClientManager :=
  mkClientManager (position_grace_period cm) (cm_max_conf_size cm) (network cm) (clients cm)
    (online_positions cm) x (online_stations cm).
Definition with_stations (cm : ClientManager) x : ClientManager :=
  mkClientManager (position_grace_period cm) (cm_max_conf_size cm) (network cm) (clients cm)
    (online_positions cm) (vatsim_only_positions cm) x.
Definition with_network (cm : ClientManager) x : ClientManager :=
  mkClientManager (position_grace_period cm) (cm_max_conf_size cm) x (clients cm)
    (online_positions cm) (vatsim_only_positions cm) (online_stations cm).

(** [online_positions.keys().chain(vatsim_only.keys()).collect()] *)
Definition all_online_positions (cm : ClientManager) : gset PositionId :=
  dom (online_positions cm) ∪ dom (vatsim_only_positions cm).

(** Who is on each position *)
Abbreviation OnlinePositions := (gmap PositionId (gset ClientId)).

Module ClientManager.
Section manager.
Context {HO : HashOrder}.

Definition new (network : Network) (position_grace_period : Duration) (max_conf_size : N) :
    ClientManager :=
  mkClientManager position_grace_period max_conf_size network ∅ ∅ ∅ ∅.

(** ** Queries *)

Definition clients_for_position (cm : ClientManager) (position_id : PositionId) : gset ClientId :=
  default ∅ (online_positions cm !! position_id).

Definition clients_for_station (cm : ClientManager) (station_id : StationId) : gset ClientId :=
  match online_stations cm !! station_id with
  | None => ∅
  | Some position_id => clients_for_position cm position_id
  end.

Definition get_client (cm : ClientManager) (client_id : ClientId) : option ClientSession :=
  clients cm !! client_id.

Definition is_client_connected (cm : ClientManager) (client_id : ClientId) : bool :=
  bool_decide (is_Some (clients cm !! client_id)).

Definition is_empty (cm : ClientManager) : bool := bool_decide (clients cm = ∅).

Definition info_le (a b : ClientInfo) : Prop := client_leb (info_id a) (info_id b) = true.
#[export] Instance info_le_dec : RelDecision info_le.
Proof. intros a b. unfold info_le. apply _. Defined.

Definition list_clients (cm : ClientManager) (self_client_id : option ClientId) : list ClientInfo :=
  merge_sort info_le
    (map client_info
      (filter (λ c, self_client_id <> Some (ClientSession.id c)) (map_values (clients cm)))).

Definition station_info_le (a b : StationInfo) : Prop :=
  station_leb (station_info_id a) (station_info_id b) = true.
#[export] Instance station_info_le_dec : RelDecision station_info_le.
Proof. intros a b. unfold station_info_le. apply _. Defined.

Definition list_stations (cm : ClientManager) (profile : ActiveProfile ProfileId)
    (self_position_id : option PositionId) : list StationInfo :=
  let listed (id : StationId) (controller : PositionId) :=
    if bool_decide (is_Some (online_positions cm !! controller)) then
      Some (mkStationInfo id (bool_decide (self_position_id = Some controller)))
    else None in
  match relevant_stations (network cm) profile with
  | RelevantNone => []
  | RelevantAll =>
    merge_sort station_info_le (omap (λ kv, listed kv.1 kv.2) (map_iter (online_stations cm)))
  | Subset ids =>
    merge_sort station_info_le
      (omap (λ id, online_stations cm !! id ≫= listed id) (set_iter ids))
  end.

(** The controllers of a position: the table of VATSIM-only positions is looked
    at first. *)
Definition controllers_of (cm : ClientManager) (pid : PositionId) : gset ClientId * bool :=
  match vatsim_only_positions cm !! pid with
  | Some cids => (cids, true)
  | None => (default ∅ (online_positions cm !! pid), false)
  end.

Definition station_coverage (cm : ClientManager) (station_id : StationId) :
    option StationCoverage :=
  pid ← online_stations cm !! station_id;
  let (controller_ids, is_vatsim_only) := controllers_of cm pid in
  Some (mkStationCoverage station_id pid controller_ids is_vatsim_only).

Definition position_coverage_le (a b : PositionCoverage) : Prop :=
  position_leb (pc_position_id a) (pc_position_id b) = true.
#[export] Instance position_coverage_le_dec : RelDecision position_coverage_le.
Proof. intros a b. unfold position_coverage_le. apply _. Defined.
Definition station_coverage_le (a b : StationCoverage) : Prop :=
  station_leb (sc_station_id a) (sc_station_id b) = true.
#[export] Instance station_coverage_le_dec : RelDecision station_coverage_le.
Proof. intros a b. unfold station_coverage_le. apply _. Defined.

Definition coverage_snapshot (cm : ClientManager) : list PositionCoverage * list StationCoverage :=
  (merge_sort position_coverage_le
     (map (λ kv, mkPositionCoverage kv.1 kv.2 false) (map_iter (online_positions cm))
      ++ map (λ kv, mkPositionCoverage kv.1 kv.2 true) (map_iter (vatsim_only_positions cm))),
   merge_sort station_coverage_le
     (map (λ kv,
        let (controller_ids, vatsim_only) := controllers_of cm kv.2 in
        mkStationCoverage kv.1 kv.2 controller_ids vatsim_only) (map_iter (online_stations cm)))).

Definition pending_disconnect_count (cm : ClientManager) : nat :=
  length (filter (λ s, pending_disconnect s = true) (map_values (clients cm))).

(** ** Changes of stations *)

Definition client_visible_change (from_online_positions to_online_positions : gset PositionId)
    (change : StationChange) : option StationChange :=
  match change with
  | Online _ position_id =>
    if bool_decide (position_id ∈ to_online_positions) then Some change else None
  | Handoff station_id from_position_id to_position_id =>
    match bool_decide (from_position_id ∈ from_online_positions),
          bool_decide (to_position_id ∈ to_online_positions) with
    | true, true => Some change
    | true, false => Some (Offline station_id)
    | false, true => Some (Online station_id to_position_id)
    | false, false => None
    end
  | Offline _ => Some change
  end.

Definition client_visible_changes (changes : list StationChange)
    (from_online_positions to_online_positions : gset PositionId) : list StationChange :=
  omap (client_visible_change from_online_positions to_online_positions) changes.

Definition update_online_stations (cm : ClientManager) (changes : list StationChange) :
    ClientManager :=
  with_stations cm
    (foldl (λ stations change,
      match change with
      | Online station_id position_id => <[station_id := position_id]> stations
      | Offline station_id => delete station_id stations
      | Handoff station_id _ to_position_id => <[station_id := to_position_id]> stations
      end) (online_stations cm) changes).

Definition compute_station_diff (old new : gmap StationId PositionId) : list StationChange :=
  merge_sort station_change_le
    (omap (λ kv,
       match new !! kv.1 with
       | None => Some (Offline kv.1)
       | Some new_pos_id =>
         if negb (bool_decide (new_pos_id = kv.2)) then Some (Handoff kv.1 kv.2 new_pos_id)
         else None
       end) (map_iter old)
     ++ omap (λ kv,
       if negb (bool_decide (is_Some (old !! kv.1))) then Some (Online kv.1 kv.2) else None)
       (map_iter new)).

(** The changes a profile is concerned with. *)
Definition relevant_changes (network : Network) (profile : ActiveProfile ProfileId)
    (changes : list StationChange) : list StationChange :=
  match relevant_stations network profile with
  | RelevantAll => changes
  | RelevantNone => []
  | Subset ids =>
    if bool_decide (ids = ∅) then []
    else filter (λ change, change_station_id change ∈ ids) changes
  end.

(** The loop over the sessions, with its cache of filtered changes. *)
Fixpoint broadcast_loop (network : Network) (changes : list StationChange)
    (sessions : list ClientSession)
    (cache : gmap (ActiveProfile ProfileId) (list StationChange)) : list Event :=
  match sessions with
  | [] => []
  | client :: sessions =>
    let profile := active_profile client in
    let '(changes_to_send, cache) :=
      match cache !! profile with
      | Some cached_changes => (cached_changes, cache)
      | None =>
        let filtered_changes := relevant_changes network profile changes in
        (filtered_changes, <[profile := filtered_changes]> cache)
      end in
    match changes_to_send with
    | [] => broadcast_loop network changes sessions cache
    | _ :: _ =>
      ToClient (ClientSession.id client) (SM_StationChanges changes_to_send)
        :: broadcast_loop network changes sessions cache
    end
  end.

Definition broadcast_station_changes (cm : ClientManager) (changes : list StationChange) :
    list Event :=
  match changes with
  | [] => []
  | _ :: _ => broadcast_loop (network cm) changes (map_values (clients cm)) ∅
  end.

(** The stations a position controls, as changes of one kind. *)
Definition stations_of (cm : ClientManager) (position_id : PositionId)
    (change : StationId -> StationChange) : list StationChange :=
  map (λ kv, change kv.1)
    (filter (λ kv, kv.2 = position_id) (map_iter (online_stations cm))).

(** ** Connecting and disconnecting *)

(** The changes of the second half of [add_client], and the state after it. *)
Definition go_online (cm : ClientManager) (client_id : ClientId) (position_id : PositionId) :
    list StationChange * ClientManager :=
  let present := default ∅ (online_positions cm !! position_id) in
  if negb (bool_decide (present = ∅)) then
    ([], with_online cm (<[position_id := {[client_id]} ∪ present]> (online_positions cm)))
  else if bool_decide (is_Some (vatsim_only_positions cm !! position_id)) then
    let cm := with_vatsim_only cm (delete position_id (vatsim_only_positions cm)) in
    let cm := with_online cm (<[position_id := {[client_id]}]> (online_positions cm)) in
    (stations_of cm position_id (λ station_id, Online station_id position_id), cm)
  else
    let all_changes :=
      coverage_changes (network cm) None (Some position_id) (all_online_positions cm) in
    let cm := with_online cm (<[position_id := {[client_id]}]> (online_positions cm)) in
    let cm := update_online_stations cm all_changes in
    let pos_keys := dom (online_positions cm) in
    (client_visible_changes all_changes pos_keys pos_keys, cm).

(** The error is [ClientManagerError::DuplicateClient]. *)
Definition add_client (cm : ClientManager) (info : ClientInfo) (profile : ActiveProfile ProfileId)
    (now : Instant) : Result (list Event) string * ClientManager :=
  if bool_decide (is_Some (clients cm !! info_id info)) then
    (Err (client_id_str (info_id info)), cm)
  else
    let client := ClientSession.new info profile now in
    let cm := with_clients cm (<[info_id info := client]> (clients cm)) in
    let (changes, cm) :=
      match ClientSession.position_id client with
      | Some position_id => go_online cm (info_id info) position_id
      | None => ([], cm)
      end in
    (Ok (ToAll (SM_ClientConnected info) :: broadcast_station_changes cm changes), cm).

(** The positions of the controllers that are no clients. *)
Definition rebuild_vatsim_only (network : Network) (controllers : gmap ClientId ControllerInfo)
    (vacs_client_ids : gset ClientId) (online : gmap PositionId (gset ClientId)) :
    gmap PositionId (gset ClientId) :=
  foldl (λ new_vatsim_only kv,
    let '(cid, controller) := kv in
    if bool_decide (facility_type controller = FT_Unknown) || bool_decide (cid ∈ vacs_client_ids)
    then new_vatsim_only
    else
      match
        find_positions network (callsign controller) (frequency controller)
          (facility_type controller)
      with
      | [position] =>
        if negb (bool_decide (is_Some (online !! ps_id position))) then
          <[ps_id position := {[cid]} ∪ default ∅ (new_vatsim_only !! ps_id position)]>
            new_vatsim_only
        else new_vatsim_only
      | _ => new_vatsim_only
      end) ∅ (map_iter controllers).

(** The second half of [remove_client]. [feed]: what the data feed answers, if
    it does. *)
Definition go_offline (cm : ClientManager) (client_id : ClientId) (position_id : PositionId)
    (feed : option (list ControllerInfo)) : list StationChange * ClientManager :=
  match online_positions cm !! position_id with
  | None => ([], cm)
  | Some present =>
    if bool_decide (size present = 1) then
      let vatsim_controllers :=
        controllers ← feed;
        rebuild_vatsim_only (network cm) (index_by_cid controllers) (dom (clients cm))
          (delete position_id (online_positions cm)) !! position_id in
      match vatsim_controllers with
      | Some cids =>
        let cm := with_vatsim_only cm (<[position_id := cids]> (vatsim_only_positions cm)) in
        let changes := stations_of cm position_id Offline in
        (changes, with_online cm (delete position_id (online_positions cm)))
      | None =>
        let before_all := all_online_positions cm in
        let all_changes := coverage_diff (network cm) before_all (before_all ∖ {[position_id]}) in
        let cm := update_online_stations cm all_changes in
        let pos_keys := dom (online_positions cm) in
        (client_visible_changes all_changes pos_keys pos_keys,
         with_online cm (delete position_id (online_positions cm)))
      end
    else
      ([], with_online cm (<[position_id := present ∖ {[client_id]}]> (online_positions cm)))
  end.

Definition remove_client (cm : ClientManager) (client_id : ClientId)
    (disconnect_reason : option DisconnectReason) (feed : option (list ControllerInfo)) :
    list Event * ClientManager :=
  match clients cm !! client_id with
  | None => ([], cm)
  | Some client =>
    let cm := with_clients cm (delete client_id (clients cm)) in
    let (changes, cm) :=
      match ClientSession.position_id client with
      | Some position_id => go_offline cm client_id position_id feed
      | None => ([], cm)
      end in
    let events := [Disconnect client_id disconnect_reason; ToAll (SM_ClientDisconnected client_id)] in
    if bool_decide (clients cm = ∅) then (events, with_stations (with_vatsim_only cm ∅) ∅)
    else (events ++ broadcast_station_changes cm changes, cm)
  end.

(** ** Following the VATSIM network ([sync_vatsim_state]) *)

(** [ClientPositionSync]. Where the source keeps a copy of a session to send to
    it, its identifier is kept. *)
Record ClientPositionSync := mkClientPositionSync {
  disconnected_clients : list (ClientId * DisconnectReason);
  session_info_updates : list (ClientId * SessionInfo);
  station_list_updates : list (ClientId * ActiveProfile ProfileId * option PositionId);
  client_info_updates : list ServerMessage;
  self_handoff_clients : list (ClientId * PositionId);
  departure_handoff_clients : list (ClientId * PositionId);
  positions_changed : bool;
  marked_pending_disconnect : nat
}.

Definition no_sync : ClientPositionSync := mkClientPositionSync [] [] [] [] [] [] false 0.

Definition sync_disconnect (r : ClientPositionSync) (cid : ClientId) (reason : DisconnectReason) :=
  mkClientPositionSync (disconnected_clients r ++ [(cid, reason)]) (session_info_updates r)
    (station_list_updates r) (client_info_updates r) (self_handoff_clients r)
    (departure_handoff_clients r) (positions_changed r) (marked_pending_disconnect r).
Definition sync_marked (r : ClientPositionSync) :=
  mkClientPositionSync (disconnected_clients r) (session_info_updates r)
    (station_list_updates r) (client_info_updates r) (self_handoff_clients r)
    (departure_handoff_clients r) (positions_changed r) (S (marked_pending_disconnect r)).
Definition sync_info (r : ClientPositionSync) (message : ServerMessage) :=
  mkClientPositionSync (disconnected_clients r) (session_info_updates r)
    (station_list_updates r) (client_info_updates r ++ [message]) (self_handoff_clients r)
    (departure_handoff_clients r) (positions_changed r) (marked_pending_disconnect r).
Definition sync_moved (r : ClientPositionSync) (cid : ClientId) (info : SessionInfo)
    (profile : ActiveProfile ProfileId) (position : option PositionId) :=
  mkClientPositionSync (disconnected_clients r) (session_info_updates r ++ [(cid, info)])
    (station_list_updates r ++ [(cid, profile, position)]) (client_info_updates r)
    (self_handoff_clients r) (departure_handoff_clients r) (positions_changed r)
    (marked_pending_disconnect r).
Definition sync_changed (r : ClientPositionSync) :=
  mkClientPositionSync (disconnected_clients r) (session_info_updates r)
    (station_list_updates r) (client_info_updates r) (self_handoff_clients r)
    (departure_handoff_clients r) true (marked_pending_disconnect r).
Definition sync_departed (r : ClientPositionSync) (cid : ClientId) (position : PositionId) :=
  mkClientPositionSync (disconnected_clients r) (session_info_updates r)
    (station_list_updates r) (client_info_updates r) (self_handoff_clients r)
    (departure_handoff_clients r ++ [(cid, position)]) (positions_changed r)
    (marked_pending_disconnect r).
Definition sync_joined (r : ClientPositionSync) (cid : ClientId) (position : PositionId) :=
  mkClientPositionSync (disconnected_clients r) (session_info_updates r)
    (station_list_updates r) (client_info_updates r) (self_handoff_clients r ++ [(cid, position)])
    (departure_handoff_clients r) (positions_changed r) (marked_pending_disconnect r).

Definition disconnect_or_mark_pending (cid : ClientId) (session : ClientSession)
    (grace_period : Duration) (now : Instant) (result : ClientPositionSync) :
    ClientSession * ClientPositionSync :=
  if ClientSession.is_within_position_grace_period session grace_period now then (session, result)
  else
    let (was_pending, session) := ClientSession.take_pending_disconnect session in
    if was_pending then (session, sync_disconnect result cid NoActiveVatsimConnection)
    else (ClientSession.mark_pending_disconnect session, sync_marked result).

(** The client leaves its old position. *)
Definition leave_position (cid : ClientId) (old_position_id : option PositionId)
    (online : OnlinePositions) (result : ClientPositionSync) :
    OnlinePositions * ClientPositionSync :=
  match old_position_id with
  | None => (online, result)
  | Some old =>
    match online !! old with
    | None => (online, result)
    | Some present =>
      if size present <=? 1 then (delete old online, sync_changed result)
      else (<[old := present ∖ {[cid]}]> online, sync_departed result cid old)
    end
  end.

(** The client joins its new position. *)
Definition join_position (cid : ClientId) (new_position_id : option PositionId)
    (online : OnlinePositions) (result : ClientPositionSync) :
    OnlinePositions * ClientPositionSync :=
  match new_position_id with
  | None => (online, result)
  | Some new =>
    let before := default ∅ (online !! new) in
    let present := {[cid]} ∪ before in
    let result :=
      if negb (bool_decide (cid ∈ before)) && bool_decide (size present = 1)
      then sync_changed result else result in
    (<[new := present]> online,
     if 1 <? size present then sync_joined result cid new else result)
  end.

(** The turn of a client whose callsign or frequency changed. *)
Definition sync_updated (cm : ClientManager) (cid : ClientId) (session : ClientSession)
    (controller : ControllerInfo) (online : OnlinePositions) (result : ClientPositionSync) :
    ClientSession * OnlinePositions * ClientPositionSync :=
  let old_position_id := ClientSession.position_id session in
  let new_positions :=
    find_positions (network cm) (callsign controller) (frequency controller)
      (facility_type controller) in
  if 1 <? length new_positions then
    (session, online, sync_disconnect result cid (AmbiguousVatsimPosition (map ps_id new_positions)))
  else
    let new_position := head new_positions in
    let new_position_id := ps_id <$> new_position in
    let new_default_call_sources := from_option ps_default_call_sources [] new_position in
    let '(session, online, result) :=
      if negb (bool_decide (old_position_id = new_position_id)) then
        let session := ClientSession.set_position_id session new_position_id in
        let (online, result) := leave_position cid old_position_id online result in
        let (online, result) := join_position cid new_position_id online result in
        let (session_profile, session) :=
          ClientSession.update_active_profile session (new_position ≫= ps_profile_id) (network cm) in
        (session, online,
         sync_moved result cid
           (mkSessionInfo (client_info session) session_profile new_default_call_sources
             (Some (cm_max_conf_size cm)))
           (active_profile session) new_position_id)
      else (session, online, result) in
    (session, online, sync_info result (SM_ClientInfo (client_info session))).

(** One turn of the loop over the clients. *)
Definition sync_client (cm : ClientManager) (controllers : gmap ClientId ControllerInfo)
    (require_active_connection : bool) (now : Instant) (cid : ClientId) (session : ClientSession)
    (online : OnlinePositions) (result : ClientPositionSync) :
    ClientSession * OnlinePositions * ClientPositionSync :=
  let grace_period := position_grace_period cm in
  let missing :=
    if require_active_connection then
      let (session, result) := disconnect_or_mark_pending cid session grace_period now result in
      (session, online, result)
    else (session, online, result) in
  match controllers !! cid with
  | None => missing
  | Some controller =>
    if bool_decide (facility_type controller = FT_Unknown) then missing
    else
      let (_, session) := ClientSession.take_pending_disconnect session in
      if ClientSession.is_within_position_grace_period session grace_period now then
        (session, online, result)
      else
        let (updated, session) := ClientSession.update_client_info session controller in
        if updated then sync_updated cm cid session controller online result
        else (session, online, result)
  end.

Definition sync_turn (cm : ClientManager) (controllers : gmap ClientId ControllerInfo)
    (require_active_connection : bool) (now : Instant)
    (acc : gmap ClientId ClientSession * OnlinePositions * ClientPositionSync)
    (kv : ClientId * ClientSession) :
    gmap ClientId ClientSession * OnlinePositions * ClientPositionSync :=
  let '(cs, online, result) := acc in
  let '(session, online, result) :=
    sync_client cm controllers require_active_connection now kv.1 kv.2 online result in
  (<[kv.1 := session]> cs, online, result).

Definition sync_client_positions (cm : ClientManager) (controllers : gmap ClientId ControllerInfo)
    (require_active_connection : bool) (now : Instant) :
    gmap ClientId ClientSession * OnlinePositions * ClientPositionSync :=
  foldl (sync_turn cm controllers require_active_connection now)
    (clients cm, online_positions cm, no_sync) (map_iter (clients cm)).

Definition compute_self_handoffs (cm : ClientManager)
    (handoff_clients : list (ClientId * PositionId)) (changes : list StationChange) :
    list (ClientId * list StationChange) :=
  let changed_station_ids : gset StationId := list_to_set (map change_station_id changes) in
  let all_online := all_online_positions cm in
  omap (λ cp,
    let '(cid, new_pos_id) := cp in
    position ← get_position (network cm) new_pos_id;
    let self_handoffs :=
      merge_sort station_change_le
        (omap (λ station_id,
          controller ← controlling_position (network cm) station_id all_online;
          if bool_decide (ps_id controller = new_pos_id) then
            Some (Handoff station_id new_pos_id new_pos_id)
          else None)
        (filter (λ station_id, station_id ∉ changed_station_ids)
          (set_iter (ps_controlled_stations position)))) in
    match self_handoffs with [] => None | _ :: _ => Some (cid, self_handoffs) end)
    handoff_clients.

(** The stations that stay with their position while it moves between the
    clients and the controllers without the program. *)
Definition moved_stations (cm : ClientManager) (start_online_keys : gset PositionId)
    (changed_station_ids : gset StationId) : list StationChange :=
  omap (λ kv,
    let '(station_id, position_id) := kv in
    if bool_decide (station_id ∈ changed_station_ids) then None
    else
      match bool_decide (position_id ∈ start_online_keys),
            bool_decide (is_Some (online_positions cm !! position_id)) with
      | true, false => Some (Offline station_id)
      | false, true => Some (Online station_id position_id)
      | _, _ => None
      end) (map_iter (online_stations cm)).

(** What happens while the locks are held: the result of the loop, the changes
    for everybody, and the state. *)
Definition sync_state (cm : ClientManager) (controllers : gmap ClientId ControllerInfo)
    (require_active_connection : bool) (now : Instant) :
    ClientPositionSync * list StationChange * ClientManager :=
  let start_all := all_online_positions cm in
  let start_online_keys := dom (online_positions cm) in
  let '(cs, online, sync) := sync_client_positions cm controllers require_active_connection now in
  let new_vatsim_only := rebuild_vatsim_only (network cm) controllers (dom cs) online in
  let sync :=
    if negb (bool_decide (vatsim_only_positions cm = new_vatsim_only)) then sync_changed sync
    else sync in
  let cm := with_vatsim_only (with_online (with_clients cm cs) online) new_vatsim_only in
  if positions_changed sync then
    let all_changes := coverage_diff (network cm) start_all (all_online_positions cm) in
    let cm := update_online_stations cm all_changes in
    let changed_station_ids : gset StationId := list_to_set (map change_station_id all_changes) in
    (sync,
     client_visible_changes all_changes start_online_keys (dom (online_positions cm))
       ++ moved_stations cm start_online_keys changed_station_ids,
     cm)
  else (sync, [], cm).

Definition sync_vatsim_state (cm : ClientManager) (controllers : gmap ClientId ControllerInfo)
    (require_active_connection : bool) (now : Instant) :
    list (ClientId * DisconnectReason) * list Event * ClientManager :=
  let '(sync, changes, cm) := sync_state cm controllers require_active_connection now in
  let per_client_changes :=
    compute_self_handoffs cm (self_handoff_clients sync ++ departure_handoff_clients sync) changes in
  (disconnected_clients sync,
   map (λ ci, ToClient ci.1 (SM_SessionInfo ci.2)) (session_info_updates sync)
   ++ map (λ cpp, ToClient cpp.1.1 (SM_StationList (list_stations cm cpp.1.2 cpp.2)))
        (station_list_updates sync)
   ++ map (λ cc, ToClient cc.1 (SM_StationChanges cc.2)) per_client_changes
   ++ map ToAll (client_info_updates sync)
   ++ broadcast_station_changes cm changes,
   cm).

(** ** Another network ([replace_network]) *)

Definition session_update (cm : ClientManager) (session : ClientSession) (profile : SessionProfile)
    (sources : list StationId) : Event :=
  ToClient (ClientSession.id session)
    (SM_SessionInfo (mkSessionInfo (client_info session) profile sources
      (Some (cm_max_conf_size cm)))).

(** A position that is gone is taken from one of its clients. *)
Definition clear_client (acc : list Event * ClientManager) (client_id : ClientId) :
    list Event * ClientManager :=
  let '(updates, cm) := acc in
  match clients cm !! client_id with
  | None => (updates, cm)
  | Some session =>
    let session := ClientSession.set_position_id session None in
    let (session_profile, session) :=
      ClientSession.update_active_profile session None (network cm) in
    (updates ++ [session_update cm session session_profile []],
     with_clients cm (<[client_id := session]> (clients cm)))
  end.

Definition clear_position (acc : list Event * ClientManager) (stale_pos_id : PositionId) :
    list Event * ClientManager :=
  let '(updates, cm) := acc in
  match online_positions cm !! stale_pos_id with
  | None => (updates, cm)
  | Some client_ids =>
    foldl clear_client (updates, with_online cm (delete stale_pos_id (online_positions cm)))
      (set_iter client_ids)
  end.

(** A client of a position that is still there gets its profile again. *)
Definition refresh_client (new_profile_id : option ProfileId)
    (new_default_call_sources : list StationId) (acc : list Event * ClientManager)
    (client_id : ClientId) : list Event * ClientManager :=
  let '(updates, cm) := acc in
  match clients cm !! client_id with
  | None => (updates, cm)
  | Some session =>
    let (tracked, session) :=
      ClientSession.update_active_profile session new_profile_id (network cm) in
    let cm := with_clients cm (<[client_id := session]> (clients cm)) in
    let session_profile :=
      match tracked with
      | Changed _ => Some tracked
      | Unchanged =>
        match active_profile session with
        | Specific profile_id =>
          match get_profile (network cm) profile_id with
          | Some profile => Some (Changed (Specific profile_id))
          | None => Some (Changed NoProfile)
          end
        | _ => None
        end
      end in
    match session_profile with
    | Some session_profile =>
      (updates ++ [session_update cm session session_profile new_default_call_sources], cm)
    | None => (updates, cm)
    end
  end.

Definition refresh_position (acc : list Event * ClientManager)
    (entry : PositionId * gset ClientId) : list Event * ClientManager :=
  let position := get_position (network acc.2) entry.1 in
  foldl
    (refresh_client (position ≫= ps_profile_id) (from_option ps_default_call_sources [] position))
    acc (set_iter entry.2).

Definition fresh_online_stations (cm : ClientManager) : gmap StationId PositionId :=
  let all_online_pos_ids := all_online_positions cm in
  foldl (λ new_online_stations covered_station,
    match
      controlling_position (network cm) (st_id (cs_station covered_station)) all_online_pos_ids
    with
    | Some controlling_pos =>
      <[st_id (cs_station covered_station) := ps_id controlling_pos]> new_online_stations
    | None => new_online_stations
    end) ∅ (covered_stations (network cm) None all_online_pos_ids).

Definition is_stale (cm : ClientManager) (pos_id : PositionId) : Prop :=
  get_position (network cm) pos_id = None.
#[export] Instance is_stale_dec cm pos_id : Decision (is_stale cm pos_id).
Proof. unfold is_stale. destruct (get_position (network cm) pos_id); [by right|by left]. Defined.

(** The changes for everybody, and the state. *)
Definition replace_state (cm : ClientManager) (new_network : Network) :
    list Event * list StationChange * ClientManager :=
  let cm := with_network cm new_network in
  let old_online_stations := online_stations cm in
  let '(session_updates, cm) :=
    foldl clear_position ([], cm) (filter (is_stale cm) (map_keys (online_positions cm))) in
  let cm := with_vatsim_only cm
    (foldl (λ m stale_pos_id, delete stale_pos_id m) (vatsim_only_positions cm)
      (filter (is_stale cm) (map_keys (vatsim_only_positions cm)))) in
  let '(session_updates, cm) :=
    foldl refresh_position (session_updates, cm) (map_iter (online_positions cm)) in
  let all_changes := compute_station_diff old_online_stations (fresh_online_stations cm) in
  let cm := update_online_stations cm all_changes in
  let pos_keys := dom (online_positions cm) in
  (session_updates, client_visible_changes all_changes pos_keys pos_keys, cm).

Definition replace_network (cm : ClientManager) (new_network : Network) :
    list Event * ClientManager :=
  let '(session_updates, station_changes, cm) := replace_state cm new_network in
  (session_updates ++ broadcast_station_changes cm station_changes, cm).
End manager.
End ClientManager.
