(* ===== verification/ClientInvariant.v ===== *)
(** ClientInvariant: the tables of the registry agree. A position is online
    with exactly the clients that are on it, no position is both a client's and
    VATSIM-only, and the table of stations is the coverage of all the positions
    that are online. *)
From stdpp Require Import prelude gmap strings list sorting.
From Stdlib Require Import NArith.
From S2P Require Import Prelude Protocol Calls Controllers CoverageErrors Profile.
From S2P Require Import Coverage CoverageLookup Clients.
Import ClientManager.

(** ** Who is where *)

Abbreviation Sessions := (gmap ClientId ClientSession).

Definition clients_at (cs : Sessions) (p : PositionId) : gset ClientId :=
  dom (filter (λ kv, ClientSession.position_id kv.2 = Some p) cs).

(** A table has no entry for an empty set. *)
Definition inhabited (s : gset ClientId) : option (gset ClientId) :=
  if decide (s = ∅) then None else Some s.

Definition online_ok (cs : Sessions) (online : gmap PositionId (gset ClientId)) : Prop :=
  forall p, online !! p = inhabited (clients_at cs p).

Definition ids_ok (cs : Sessions) : Prop := forall c s, cs !! c = Some s -> ClientSession.id s = c.

Record manager_ok (cm : ClientManager) : Prop := {
  mo_network : network_wf (network cm);
  mo_ids : ids_ok (clients cm);
  mo_online : online_ok (clients cm) (online_positions cm);
  mo_disjoint : dom (online_positions cm) ## dom (vatsim_only_positions cm);
  mo_stations : online_stations cm = coverage (network cm) (all_online_positions cm)
}.

Lemma elem_of_clients_at cs p c :
  c ∈ clients_at cs p <-> exists s, cs !! c = Some s /\ ClientSession.position_id s = Some p.
Proof.
  unfold clients_at. rewrite elem_of_dom. split.
  - intros [s [Hs Hp]%map_lookup_filter_Some]. eauto.
  - intros (s & Hs & Hp). exists s. by apply map_lookup_filter_Some.
Qed.

Lemma clients_at_insert cs c s p :
  clients_at (<[c := s]> cs) p =
    (if decide (ClientSession.position_id s = Some p) then {[c]} else ∅) ∪ clients_at cs p ∖ {[c]}.
Proof.
  apply set_eq. intros x.
  rewrite elem_of_union, elem_of_difference, elem_of_singleton, !elem_of_clients_at.
  destruct (decide (x = c)) as [->|Hne].
  - rewrite lookup_insert_eq. case_decide; set_solver.
  - rewrite lookup_insert_ne by done. case_decide; set_solver.
Qed.

Lemma clients_at_delete cs c p : clients_at (delete c cs) p = clients_at cs p ∖ {[c]}.
Proof.
  apply set_eq. intros x. rewrite elem_of_difference, elem_of_singleton, !elem_of_clients_at.
  destruct (decide (x = c)) as [->|Hne].
  - rewrite lookup_delete_eq. naive_solver.
  - rewrite lookup_delete_ne by done. naive_solver.
Qed.

(** Only the position of a session matters. *)
Lemma clients_at_same cs c s s' p :
  cs !! c = Some s -> ClientSession.position_id s' = ClientSession.position_id s ->
  clients_at (<[c := s']> cs) p = clients_at cs p.
Proof.
  intros Hc Hs. rewrite clients_at_insert, Hs. apply set_eq. intros x.
  rewrite elem_of_union, elem_of_difference, elem_of_singleton. case_decide as Hp.
  - assert (c ∈ clients_at cs p) by (apply elem_of_clients_at; eauto).
    destruct (decide (x = c)); set_solver.
  - assert (c ∉ clients_at cs p) by (rewrite elem_of_clients_at; naive_solver).
    set_solver.
Qed.

Lemma inhabited_Some s t : inhabited s = Some t <-> s = t /\ s <> ∅.
Proof. unfold inhabited. case_decide; naive_solver. Qed.

Lemma inhabited_None s : inhabited s = None <-> s = ∅.
Proof. unfold inhabited. by case_decide. Qed.

Lemma default_inhabited s : default ∅ (inhabited s) = s.
Proof. unfold inhabited. by case_decide. Qed.

Lemma inhabited_not_empty s : s <> ∅ -> inhabited s = Some s.
Proof. intros H. unfold inhabited. by rewrite decide_False. Qed.

Lemma online_dom cs online p :
  online_ok cs online -> p ∈ dom online <-> clients_at cs p <> ∅.
Proof.
  intros H. rewrite elem_of_dom, H. unfold inhabited. case_decide as He.
  - split; [by intros [? ?]|done].
  - split; [done|eauto].
Qed.

(** ** The table of stations *)

Lemma update_online_stations_apply cm changes :
  online_stations (update_online_stations cm changes) = apply_changes (online_stations cm) changes.
Proof.
  unfold update_online_stations, apply_changes. cbn. generalize (online_stations cm) as m.
  induction changes as [|[] changes IH]; intros m; cbn; [done|apply IH..].
Qed.

(** The changes between two tables. *)
Lemma station_diff_in {HO : HashOrder} old new c :
  c ∈ compute_station_diff old new <->
  exists id, change_between id (old !! id) (new !! id) = Some c.
Proof.
  unfold compute_station_diff. rewrite merge_sort_in, elem_of_app, !list_elem_of_omap.
  setoid_rewrite elem_of_map_iter'. unfold change_between. split.
  - intros [([id p] & Hp & Hc)|([id p] & Hp & Hc)]; exists id; cbn in *; rewrite Hp.
    + destruct (new !! id) as [q|]; [|by case_decide].
      case_bool_decide; [done|]. case_decide; [congruence|done].
    + destruct (old !! id); [rewrite bool_decide_true in Hc by done; done|].
      by case_decide.
  - intros (id & Hc). case_decide as Hne; [done|].
    destruct (old !! id) as [p|] eqn:Ho, (new !! id) as [q|] eqn:Hn; [| | |done].
    + left. exists (id, p). cbn. rewrite Hn, bool_decide_false by congruence. done.
    + left. exists (id, p). cbn. by rewrite Hn.
    + right. exists (id, q). cbn. rewrite Ho, bool_decide_false; [done|]. by intros [? ?].
Qed.

Lemma omap_keys_NoDup {HO : HashOrder} (m : gmap StationId PositionId)
    (f : StationId * PositionId -> option StationChange) :
  (forall kv c, f kv = Some c -> change_station_id c = kv.1) ->
  NoDup (map change_station_id (omap f (map_iter m))).
Proof.
  intros Hf. pose proof (NoDup_fst_map_iter m) as Hnd. induction (map_iter m) as [|kv l IH].
  - constructor.
  - rewrite fmap_cons in Hnd. apply NoDup_cons in Hnd as [Hnin Hnd]. cbn.
    destruct (f kv) as [c|] eqn:Hc; [|by apply IH]. cbn. apply NoDup_cons. split; [|by apply IH].
    rewrite (Hf _ _ Hc). intros (c' & Hid & Hin)%list_elem_of_fmap.
    apply list_elem_of_omap in Hin as (kv' & Hin & Hc'). apply Hnin, list_elem_of_fmap.
    exists kv'. split; [|done]. by rewrite Hid, (Hf _ _ Hc').
Qed.

Lemma station_diff_NoDup {HO : HashOrder} old new :
  NoDup (map change_station_id (compute_station_diff old new)).
Proof.
  unfold compute_station_diff. rewrite merge_sort_Permutation, map_app. apply NoDup_app.
  split; [|split].
  - apply omap_keys_NoDup. intros [id p] c. cbn. destruct (new !! id); [case_bool_decide|];
      cbn; intros; by simplify_eq.
  - intros id (c & -> & Hc)%list_elem_of_fmap (c' & Hid & Hc')%list_elem_of_fmap.
    apply list_elem_of_omap in Hc as ([k p] & Hk%elem_of_map_iter' & Hc).
    apply list_elem_of_omap in Hc' as ([k' p'] & Hk'%elem_of_map_iter' & Hc'). cbn in *.
    case_bool_decide as Hold; [done|]. simplify_eq/=.
    assert (change_station_id c = k) as Hck by
      (destruct (new !! k) as [q|]; [case_bool_decide|]; by simplify_eq/=).
    apply Hold. rewrite Hck. eauto.
  - apply omap_keys_NoDup. intros [id p] c. cbn. case_bool_decide; cbn; intros; by simplify_eq.
Qed.

Lemma station_diff_applied {HO : HashOrder} old new :
  apply_changes old (compute_station_diff old new) = new.
Proof. apply apply_changes_between; [apply station_diff_NoDup|apply station_diff_in]. Qed.

(** Copying the entries of a table under some keys. *)
Definition copy_entry (a m : gmap StationId PositionId) (id : StationId) :
    gmap StationId PositionId :=
  match a !! id with Some p => <[id := p]> m | None => m end.

Lemma copy_entries_lookup a l m id :
  foldl (copy_entry a) m l !! id =
    if decide (id ∈ l) then match a !! id with Some p => Some p | None => m !! id end
    else m !! id.
Proof.
  revert m. induction l as [|x l IH]; intros m; cbn [foldl].
  - by rewrite decide_False by apply not_elem_of_nil.
  - rewrite IH. unfold copy_entry. destruct (decide (id = x)) as [->|Hne].
    + rewrite (decide_True (P := x ∈ x :: l)) by left.
      destruct (a !! x); rewrite ?lookup_insert_eq; by case_decide.
    + assert (id ∈ x :: l <-> id ∈ l) by (rewrite elem_of_cons; naive_solver).
      destruct (a !! x); rewrite ?lookup_insert_ne by done;
        (destruct (decide (id ∈ l)); [rewrite decide_True by tauto|rewrite decide_False by tauto]);
        done.
Qed.

Lemma fresh_online_stations_coverage {HO : HashOrder} cm :
  network_wf (network cm) ->
  fresh_online_stations cm = coverage (network cm) (all_online_positions cm).
Proof.
  intros Hwf. unfold fresh_online_stations. set (all := all_online_positions cm).
  set (a := coverage (network cm) all). set (l := covered_stations _ _ _).
  transitivity (foldl (copy_entry a) ∅ (map (λ cs, st_id (cs_station cs)) l)).
  { generalize (∅ : gmap StationId PositionId) as m. clearbody l.
    induction l as [|cs l IH]; intros m; [done|]. cbn. rewrite <- IH. f_equal.
    unfold copy_entry, a. rewrite <- (controlling_position_id _ Hwf).
    by destruct (controlling_position (network cm) (st_id (cs_station cs)) all). }
  apply map_eq. intros id. rewrite copy_entries_lookup, lookup_empty.
  destruct (a !! id) as [p|] eqn:Hp; [|by case_decide]. rewrite decide_True; [done|].
  pose proof Hp as Hp'. unfold a in Hp'. rewrite lookup_coverage in Hp'.
  destruct (stations (network cm) !! id) as [s|] eqn:Hs; [|done].
  apply list_elem_of_fmap. exists (mkCoveredStation s (bool_decide (None = Some p))). cbn.
  split; [by rewrite (nw_station_id _ Hwf id s)|]. apply covered_stations_in; [done|].
  by exists id, p.
Qed.
