(* ===== verification/ClientSteps.v ===== *)
(** ClientSteps: every operation of the registry keeps its tables in agreement
    ([manager_ok]). *)
From stdpp Require Import prelude gmap strings list sorting.
From Stdlib Require Import NArith.
From S2P Require Import Prelude Protocol Calls Controllers CoverageErrors Profile.
From S2P Require Import Coverage CoverageLookup Clients ClientInvariant.
Import ClientManager.

Section steps.
Context {HO : HashOrder}.

(** ** Tables of who is where *)

(** A client that had no position takes one. *)
Lemma online_join cs online c s p :
  online_ok cs online -> cs !! c = None -> ClientSession.position_id s = Some p ->
  online_ok (<[c := s]> cs) (<[p := {[c]} ∪ default ∅ (online !! p)]> online).
Proof.
  intros Hon Hc Hs q. rewrite clients_at_insert.
  assert (c ∉ clients_at cs q) by (rewrite elem_of_clients_at; naive_solver).
  destruct (decide (q = p)) as [->|Hne].
  - rewrite lookup_insert_eq, decide_True by done. rewrite Hon, default_inhabited.
    rewrite inhabited_not_empty by set_solver. f_equal. set_solver.
  - rewrite lookup_insert_ne, decide_False by congruence. rewrite Hon. f_equal. set_solver.
Qed.

Lemma online_insert_None cs online c s :
  online_ok cs online -> cs !! c = None -> ClientSession.position_id s = None ->
  online_ok (<[c := s]> cs) online.
Proof.
  intros Hon Hc Hs q. rewrite clients_at_insert, decide_False, Hon by congruence. f_equal.
  assert (c ∉ clients_at cs q) by (rewrite elem_of_clients_at; naive_solver). set_solver.
Qed.

Lemma online_same cs online c s s' :
  online_ok cs online -> cs !! c = Some s ->
  ClientSession.position_id s' = ClientSession.position_id s ->
  online_ok (<[c := s']> cs) online.
Proof. intros Hon Hc Hs q. by rewrite (clients_at_same _ _ _ _ _ Hc Hs). Qed.

(** A client leaves its position: the entry goes with the last client. *)
Definition table_leave (online : OnlinePositions) (p : PositionId) (c : ClientId) :
    OnlinePositions :=
  match online !! p with
  | None => online
  | Some present =>
    if decide (present ∖ {[c]} = ∅) then delete p online else <[p := present ∖ {[c]}]> online
  end.

Lemma online_leave cs online c s p :
  online_ok cs online -> cs !! c = Some s -> ClientSession.position_id s = Some p ->
  online_ok (delete c cs) (table_leave online p c).
Proof.
  intros Hon Hc Hs q. unfold table_leave. rewrite clients_at_delete.
  assert (c ∈ clients_at cs p) by (apply elem_of_clients_at; eauto).
  assert (online !! p = Some (clients_at cs p)) as -> by (rewrite Hon; apply inhabited_not_empty; set_solver).
  destruct (decide (q = p)) as [->|Hne].
  - unfold inhabited. case_decide; by rewrite ?lookup_delete_eq, ?lookup_insert_eq.
  - assert (c ∉ clients_at cs q).
    { rewrite elem_of_clients_at. intros (s' & ? & ?). congruence. }
    replace (clients_at cs q ∖ {[c]}) with (clients_at cs q) by set_solver.
    rewrite <- (Hon q). case_decide; by rewrite ?lookup_delete_ne, ?lookup_insert_ne by done.
Qed.

Lemma online_leave_None cs online c s :
  online_ok cs online -> cs !! c = Some s -> ClientSession.position_id s = None ->
  online_ok (delete c cs) online.
Proof.
  intros Hon Hc Hs q. rewrite clients_at_delete, Hon. f_equal.
  assert (c ∉ clients_at cs q); [|set_solver].
  rewrite elem_of_clients_at. intros (s' & ? & ?). congruence.
Qed.

Lemma online_entry cs online c s p :
  online_ok cs online -> cs !! c = Some s -> ClientSession.position_id s = Some p ->
  exists present, online !! p = Some present /\ c ∈ present /\ present = clients_at cs p.
Proof.
  intros Hon Hc Hs. assert (c ∈ clients_at cs p) by (apply elem_of_clients_at; eauto).
  exists (clients_at cs p). rewrite Hon, inhabited_not_empty by set_solver. done.
Qed.

Lemma size_1_of (X : gset ClientId) c : c ∈ X -> size X <= 1 <-> X ∖ {[c]} = ∅.
Proof.
  intros Hc. rewrite <- leibniz_equiv_iff, <- size_empty_iff, size_difference, size_singleton by set_solver. lia.
Qed.

Lemma size_1_in (X : gset ClientId) c : c ∈ X -> size X = 1 <-> X ∖ {[c]} = ∅.
Proof.
  intros Hc. rewrite <- (size_1_of X c Hc).
  assert (size X <> 0) by (rewrite size_empty_iff, leibniz_equiv_iff; set_solver). lia.
Qed.

Lemma ids_insert cs c s : ids_ok cs -> ClientSession.id s = c -> ids_ok (<[c := s]> cs).
Proof.
  intros Hids Hs c' s' H. apply lookup_insert_Some in H as [[<- <-]|[_ H]]; [done|]. by apply Hids.
Qed.

Lemma ids_delete cs c : ids_ok cs -> ids_ok (delete c cs).
Proof. intros Hids c' s' [_ H]%lookup_delete_Some. by apply Hids. Qed.
(** ** The table of stations *)

Lemma stations_updated cm o :
  network_wf (network cm) -> online_stations cm = coverage (network cm) (all_online_positions cm) ->
  online_stations (update_online_stations cm
    (coverage_diff (network cm) (all_online_positions cm) o)) = coverage (network cm) o.
Proof.
  intros Hwf Hst. rewrite update_online_stations_apply, Hst. by apply coverage_diff_applied.
Qed.

Lemma coverage_nothing n : coverage n ∅ = ∅.
Proof.
  apply map_eq. intros id. rewrite lookup_coverage, lookup_empty.
  destruct (stations n !! id) as [s|]; [|done]. cbn. unfold first_online.
  replace (filter _ _) with (@nil PositionId); [done|]. symmetry.
  induction (st_controlled_by s) as [|p l IH]; [done|]. rewrite filter_cons_False; set_solver.
Qed.

Lemma new_ok n grace max : network_wf n -> manager_ok (new n grace max).
Proof.
  intros Hwf. split; cbn; [done|done| |set_solver|].
  - intros p. unfold clients_at. by rewrite map_filter_empty, dom_empty_L.
  - unfold all_online_positions. cbn. rewrite !dom_empty_L, union_empty_l_L.
    by rewrite coverage_nothing.
Qed.

(** ** Connecting *)

Lemma go_online_frame cm c p :
  network (go_online cm c p).2 = network cm /\ clients (go_online cm c p).2 = clients cm.
Proof. unfold go_online. by repeat case_bool_decide. Qed.

Lemma go_online_ok cm cs c s p :
  manager_ok (with_clients cm cs) -> cs !! c = None -> ClientSession.id s = c ->
  ClientSession.position_id s = Some p -> clients cm = <[c := s]> cs ->
  manager_ok (go_online cm c p).2.
Proof.
  intros [Hwf Hids Hon Hdis Hst] Hc Hid Hs Hcs. cbn in *.
  pose proof (online_join _ _ _ _ _ Hon Hc Hs) as Hjoin.
  pose proof (ids_insert _ _ _ Hids Hid) as Hids'. rewrite <- Hcs in Hids', Hjoin.
  pose proof (online_dom _ _ p Hon) as Hdom. rewrite (Hon p), default_inhabited in Hjoin.
  unfold all_online_positions in Hst. cbn in Hst.
  unfold go_online. rewrite (Hon p), default_inhabited.
  case_bool_decide as He; cbn [negb]; [case_bool_decide as Hv|]; cbn [snd].
  - (* from VATSIM-only *)
    apply elem_of_dom in Hv. rewrite He, union_empty_r_L in Hjoin.
    split; [done..| |]; cbn; [set_solver|]. rewrite Hst. f_equal. unfold all_online_positions.
    cbn. rewrite dom_insert_L, dom_delete_L. apply set_eq. intros q.
    destruct (decide (q = p)); set_solver.
  - (* a position nobody was on *)
    rewrite He, union_empty_r_L in Hjoin. rewrite coverage_changes_diff.
    assert (p ∉ dom (vatsim_only_positions cm)) by (by rewrite elem_of_dom).
    split; [done..| |]; cbn [update_online_stations]; [cbn; set_solver|].
    etransitivity; [by apply (stations_updated cm)|]. f_equal.
    unfold all_online_positions. cbn. rewrite dom_insert_L. set_solver.
  - (* a position others are on *)
    split; [done..| |]; cbn.
    + rewrite dom_insert_L. set_solver.
    + rewrite Hst. f_equal. unfold all_online_positions. cbn. rewrite dom_insert_L. set_solver.
Qed.

Lemma add_client_ok cm info profile now :
  manager_ok cm -> manager_ok (add_client cm info profile now).2.
Proof.
  intros Hok. unfold add_client. case_bool_decide as Hc; [done|].
  apply eq_None_not_Some in Hc. destruct (ClientSession.position_id _) as [p|] eqn:Hp.
  - destruct (go_online _ _ _) as [changes cm'] eqn:Hgo. cbn.
    change cm' with (changes, cm').2. rewrite <- Hgo.
    eapply (go_online_ok _ (clients cm)); [by destruct cm|done| |done|done]. done.
  - destruct Hok as [Hwf Hids Hon Hdis Hst]. split; cbn; try done.
    + by apply ids_insert.
    + by apply online_insert_None.
Qed.

(** ** Disconnecting *)

Lemma go_offline_ok cm cs c s p feed :
  manager_ok (with_clients cm cs) -> cs !! c = Some s -> ClientSession.position_id s = Some p ->
  clients cm = delete c cs -> manager_ok (go_offline cm c p feed).2.
Proof.
  intros [Hwf Hids Hon Hdis Hst] Hc Hs Hcs. cbn in *.
  pose proof (online_leave _ _ _ _ _ Hon Hc Hs) as Hleave. rewrite <- Hcs in Hleave.
  pose proof (ids_delete _ c Hids) as Hids'. rewrite <- Hcs in Hids'.
  destruct (online_entry _ _ _ _ _ Hon Hc Hs) as (present & Hp & Hin & _).
  assert (p ∈ dom (online_positions cm)) as Hdom by (apply elem_of_dom; eauto).
  unfold all_online_positions in Hst. cbn in Hst.
  unfold table_leave in Hleave. rewrite Hp in Hleave. unfold go_offline. rewrite Hp.
  case_bool_decide as Hsize; rewrite (size_1_in _ c Hin) in Hsize.
  - rewrite decide_True in Hleave by done. destruct (mbind _ feed) as [cids|]; cbn [snd].
    + split; [done..| |]; cbn; [set_solver|]. rewrite Hst. f_equal. unfold all_online_positions.
      cbn. rewrite dom_insert_L, dom_delete_L. apply set_eq. intros q.
      destruct (decide (q = p)); set_solver.
    + split; [done..| |]; cbn [update_online_stations]; [cbn; set_solver|].
      etransitivity; [by apply (stations_updated cm)|]. f_equal.
      unfold all_online_positions. cbn. rewrite dom_delete_L. set_solver.
  - rewrite decide_False in Hleave by done. split; [done..| |]; cbn.
    + rewrite dom_insert_L. set_solver.
    + rewrite Hst. f_equal. unfold all_online_positions. cbn. rewrite dom_insert_L. set_solver.
Qed.

Lemma go_offline_clients cm c p feed : clients (go_offline cm c p feed).2 = clients cm.
Proof.
  unfold go_offline. destruct (_ !! p); [|done]. case_bool_decide; [|done].
  by destruct (mbind _ _).
Qed.

(** Nobody is online once the last client is gone. *)
Lemma last_client_ok cm :
  manager_ok cm -> clients cm = ∅ -> manager_ok (with_stations (with_vatsim_only cm ∅) ∅).
Proof.
  intros [Hwf Hids Hon Hdis Hst] He.
  assert (dom (online_positions cm) = ∅) as Hd.
  { apply set_eq. intros p. rewrite (online_dom _ _ p Hon), He. unfold clients_at.
    rewrite map_filter_empty, dom_empty_L. set_solver. }
  split; cbn; [done..| |]; unfold all_online_positions; cbn; rewrite dom_empty_L, ?Hd; [set_solver|].
  by rewrite union_empty_l_L, coverage_nothing.
Qed.

Lemma remove_client_ok cm c reason feed :
  manager_ok cm -> manager_ok (remove_client cm c reason feed).2.
Proof.
  intros Hok. unfold remove_client. destruct (clients cm !! c) as [s|] eqn:Hc; [|done].
  set (cm0 := with_clients cm _).
  assert (exists changes cm1,
    match ClientSession.position_id s with
    | Some p => go_offline cm0 c p feed
    | None => ([], cm0)
    end = (changes, cm1) /\ manager_ok cm1) as (changes & cm1 & -> & Hok1).
  { destruct (ClientSession.position_id s) as [p|] eqn:Hp.
    - destruct (go_offline _ _ _ _) as [changes cm'] eqn:Hgo. exists changes, cm'.
      split; [done|]. change cm' with (changes, cm').2. rewrite <- Hgo.
      eapply (go_offline_ok _ (clients cm)); [by destruct cm|done..].
    - exists [], cm0. split; [done|]. destruct Hok as [Hwf Hids Hon Hdis Hst].
      split; cbn; try done; [by apply ids_delete|by eapply online_leave_None]. }
  case_bool_decide; [by apply last_client_ok|done].
Qed.
(** ** Following the network *)

(** What one turn of the loop over the clients keeps. *)
Record turn_ok (cs : Sessions) (c : ClientId) (online : OnlinePositions) (r : ClientPositionSync)
    (turn : ClientSession * OnlinePositions * ClientPositionSync) : Prop := {
  turn_id : ClientSession.id turn.1.1 = c;
  turn_online : online_ok (<[c := turn.1.1]> cs) turn.1.2;
  turn_changed : positions_changed turn.2 = false ->
    positions_changed r = false /\ dom turn.1.2 = dom online
}.

(** A turn that leaves the positions alone. *)
Lemma turn_stays cs c s online r s' r' :
  ids_ok cs -> online_ok cs online -> cs !! c = Some s ->
  ClientSession.id s' = ClientSession.id s ->
  ClientSession.position_id s' = ClientSession.position_id s ->
  positions_changed r' = positions_changed r ->
  turn_ok cs c online r (s', online, r').
Proof.
  intros Hids Hon Hc Hid Hp Hr. split; cbn.
  - rewrite Hid. by apply Hids.
  - by eapply online_same.
  - by rewrite Hr.
Qed.

Lemma update_client_info_position s controller :
  ClientSession.position_id (ClientSession.update_client_info s controller).2
    = ClientSession.position_id s /\
  ClientSession.id (ClientSession.update_client_info s controller).2 = ClientSession.id s.
Proof.
  unfold ClientSession.update_client_info, ClientSession.position_id, ClientSession.id.
  by repeat case_bool_decide.
Qed.

Lemma update_active_profile_info s profile n :
  client_info (ClientSession.update_active_profile s profile n).2 = client_info s.
Proof.
  unfold ClientSession.update_active_profile.
  destruct (active_profile s), profile; cbn; try done; repeat case_bool_decide; cbn; try done;
    by case_match.
Qed.

Lemma leave_position_spec cs c s online r p :
  online_ok cs online -> cs !! c = Some s -> ClientSession.position_id s = Some p ->
  exists r', leave_position c (Some p) online r = (table_leave online p c, r') /\
    (positions_changed r' = false ->
      positions_changed r = false /\ dom (table_leave online p c) = dom online).
Proof.
  intros Hon Hc Hs. destruct (online_entry _ _ _ _ _ Hon Hc Hs) as (present & Hp & Hin & _).
  unfold leave_position, table_leave. rewrite Hp.
  destruct (Nat.leb_spec (size present) 1) as [Hle|Hlt].
  - rewrite (size_1_of _ c Hin) in Hle. rewrite decide_True by done. eexists. split; [done|]. done.
  - rewrite decide_False by (rewrite <- (size_1_of _ c Hin); lia). eexists. split; [done|].
    cbn. intros Hr. split; [done|]. rewrite dom_insert_L.
    assert (p ∈ dom online) by (apply elem_of_dom; eauto). set_solver.
Qed.

Lemma join_position_spec cs c online r p :
  online_ok cs online -> cs !! c = None ->
  exists r', join_position c (Some p) online r =
      (<[p := {[c]} ∪ default ∅ (online !! p)]> online, r') /\
    (positions_changed r' = false -> positions_changed r = false /\
      dom (<[p := {[c]} ∪ default ∅ (online !! p)]> online) = dom online).
Proof.
  intros Hon Hc. unfold join_position. eexists. split; [done|].
  assert (c ∉ clients_at cs p) as Hnin by (rewrite elem_of_clients_at; naive_solver).
  pose proof (online_dom _ _ p Hon) as Hdom.
  rewrite (Hon p), default_inhabited, bool_decide_false by done. cbn [negb andb].
  set (r1 := if bool_decide _ then _ else _).
  assert (positions_changed (if 1 <? size ({[c]} ∪ clients_at cs p) then sync_joined r1 c p else r1)
    = positions_changed r1) as -> by (by destruct (1 <? _)).
  subst r1. case_bool_decide as Hsize; [done|]. intros Hr. split; [done|].
  rewrite dom_insert_L. assert (clients_at cs p <> ∅); [|set_solver].
  intros He. rewrite He, union_empty_r_L, size_singleton in Hsize. done.
Qed.

(** The positions of a client that moves, or stays, without the registry of
    the others changing. *)
Lemma move_ok cs c s online r q :
  online_ok cs online -> cs !! c = Some s ->
  let (online1, r1) := leave_position c (ClientSession.position_id s) online r in
  let (online2, r2) := join_position c q online1 r1 in
  (forall s', ClientSession.position_id s' = q -> online_ok (<[c := s']> cs) online2) /\
  (positions_changed r2 = false -> positions_changed r = false /\ dom online2 = dom online).
Proof.
  intros Hon Hc.
  assert (exists online1 r1, leave_position c (ClientSession.position_id s) online r = (online1, r1)
    /\ online_ok (delete c cs) online1 /\ (positions_changed r1 = false ->
      positions_changed r = false /\ dom online1 = dom online)) as (online1 & r1 & -> & Hon1 & Hr1).
  { destruct (ClientSession.position_id s) as [p|] eqn:Hp.
    - destruct (leave_position_spec _ _ _ _ r _ Hon Hc Hp) as (r1 & -> & Hr1).
      eexists _, r1. split; [done|]. split; [|done]. by eapply online_leave.
    - eexists _, r. split; [done|]. split; [|done]. by eapply online_leave_None. }
  assert (delete c cs !! c = None) as Hnone by apply lookup_delete_eq.
  destruct q as [q|].
  - destruct (join_position_spec _ _ _ r1 q Hon1 Hnone) as (r2 & -> & Hr2).
    split; [|naive_solver congruence]. intros s' Hs'. rewrite <- insert_delete_eq.
    by apply online_join.
  - cbn. split; [|done]. intros s' Hs'. rewrite <- insert_delete_eq.
    by apply online_insert_None.
Qed.

Lemma sync_updated_ok cm cs c s online r controller s1 :
  ids_ok cs -> online_ok cs online -> cs !! c = Some s ->
  ClientSession.id s1 = ClientSession.id s ->
  ClientSession.position_id s1 = ClientSession.position_id s ->
  turn_ok cs c online r (sync_updated cm c s1 controller online r).
Proof.
  intros Hids Hon Hc Hid Hp. unfold sync_updated.
  destruct (1 <? _); [by eapply turn_stays|]. rewrite Hp.
  set (new_position := head _). set (q := ps_id <$> new_position).
  case_bool_decide as Hq; cbn [negb]; [by eapply turn_stays|].
  pose proof (move_ok _ _ _ _ r q Hon Hc) as Hmove.
  destruct (leave_position _ _ _ _) as [online1 r1], (join_position _ _ _ _) as [online2 r2].
  destruct Hmove as [Hon2 Hr2].
  pose proof (update_active_profile_info (ClientSession.set_position_id s1 q)
    (new_position ≫= ps_profile_id) (network cm)) as Hinfo.
  destruct (ClientSession.update_active_profile _ _ _) as [profile s2]. cbn in Hinfo.
  split; cbn; [|apply Hon2|done]; unfold ClientSession.id, ClientSession.position_id in *;
    rewrite Hinfo; [|done]. cbn. rewrite Hid. by apply Hids.
Qed.

Lemma sync_client_ok cm cs c s online r controllers require now :
  ids_ok cs -> online_ok cs online -> cs !! c = Some s ->
  turn_ok cs c online r (sync_client cm controllers require now c s online r).
Proof.
  intros Hids Hon Hc. unfold sync_client.
  set (missing := if require then _ else _).
  assert (turn_ok cs c online r missing) as Hmissing.
  { subst missing. destruct require; [|by eapply turn_stays].
    unfold disconnect_or_mark_pending.
    destruct (ClientSession.is_within_position_grace_period _ _ _); [by eapply turn_stays|].
    cbn. destruct (pending_disconnect s); by eapply turn_stays. }
  destruct (controllers !! c) as [controller|]; [|done].
  case_bool_decide; [done|]. cbn [ClientSession.take_pending_disconnect].
  destruct (ClientSession.is_within_position_grace_period _ _ _); [by eapply turn_stays|].
  destruct (update_client_info_position (ClientSession.with_pending s false) controller)
    as [Hp Hid].
  destruct (ClientSession.update_client_info _ _) as [updated s1]. cbn in Hp, Hid.
  destruct updated; [by eapply sync_updated_ok|by eapply turn_stays].
Qed.

Lemma sync_loop_ok cm controllers require now l cs online r :
  ids_ok cs -> online_ok cs online -> NoDup l.*1 -> (forall kv, kv ∈ l -> cs !! kv.1 = Some kv.2) ->
  let '(cs', online', r') := foldl (sync_turn cm controllers require now) (cs, online, r) l in
  ids_ok cs' /\ online_ok cs' online' /\ dom cs' = dom cs /\
  (positions_changed r' = false -> positions_changed r = false /\ dom online' = dom online).
Proof.
  revert cs online r. induction l as [|[c s] l IH]; intros cs online r Hids Hon Hnd Hl; [done|].
  cbn [foldl sync_turn fst snd]. assert (cs !! c = Some s) as Hc by (apply (Hl (c, s)); left).
  destruct (sync_client_ok cm cs c s online r controllers require now Hids Hon Hc) as [Hid' Hon' Hr'].
  destruct (sync_client cm controllers require now c s online r) as [[s' online'] r'].
  cbn in *. apply NoDup_cons in Hnd as [Hnin Hnd].
  specialize (IH (<[c := s']> cs) online' r'). destruct (foldl _ _ l) as [[cs2 online2] r2].
  destruct IH as (? & ? & Hdom & Hr); [by apply ids_insert|done|done| |].
  - intros [c' s''] Hin. cbn. rewrite lookup_insert_ne; [by apply (Hl (c', s'')); right|].
    intros ->. apply Hnin, list_elem_of_fmap. by exists (c', s'').
  - split; [done|]. split; [done|]. split.
    + rewrite Hdom, dom_insert_L. assert (c ∈ dom cs) by (apply elem_of_dom; eauto). set_solver.
    + intros [H1 ->]%Hr. apply Hr' in H1 as [? ->]. done.
Qed.

Lemma sync_client_positions_ok cm controllers require now :
  ids_ok (clients cm) -> online_ok (clients cm) (online_positions cm) ->
  let '(cs, online, r) := sync_client_positions cm controllers require now in
  ids_ok cs /\ online_ok cs online /\ dom cs = dom (clients cm) /\
  (positions_changed r = false -> dom online = dom (online_positions cm)).
Proof.
  intros Hids Hon. unfold sync_client_positions.
  pose proof (sync_loop_ok cm controllers require now (map_iter (clients cm)) (clients cm)
    (online_positions cm) no_sync Hids Hon (NoDup_fst_map_iter _)) as H.
  destruct (foldl _ _ _) as [[cs online] r].
  destruct H as (? & ? & ? & Hr); [intros [c s]; apply elem_of_map_iter|].
  split; [done|]. split; [done|]. split; [done|]. by intros [_ ?]%Hr.
Qed.

(** A VATSIM-only position is no client's. *)
Lemma rebuild_vatsim_only_disjoint n controllers ids online :
  dom online ## dom (rebuild_vatsim_only n controllers ids online).
Proof.
  unfold rebuild_vatsim_only.
  assert (dom online ## dom (∅ : OnlinePositions)) as Hinv by (rewrite dom_empty_L; set_solver).
  revert Hinv. generalize (∅ : OnlinePositions) as m.
  induction (map_iter controllers) as [|[c controller] l IH]; intros m Hm; cbn [foldl]; [done|].
  apply IH. destruct (_ || _); [done|]. destruct (find_positions _ _ _ _) as [|position []]; try done.
  case_bool_decide as Hp; cbn [negb]; [done|]. rewrite dom_insert_L.
  rewrite <- elem_of_dom in Hp. set_solver.
Qed.

Lemma sync_state_ok cm controllers require now :
  manager_ok cm -> manager_ok (sync_state cm controllers require now).2.
Proof.
  intros [Hwf Hids Hon Hdis Hst]. unfold sync_state.
  pose proof (sync_client_positions_ok cm controllers require now Hids Hon) as H.
  destruct (sync_client_positions _ _ _ _) as [[cs online] r].
  destruct H as (Hids' & Hon' & Hdom & Hr). cbv zeta.
  pose proof (rebuild_vatsim_only_disjoint (network cm) controllers (dom cs) online) as Hdis'.
  set (vatsim := rebuild_vatsim_only _ _ _ _) in *. set (r2 := if negb _ then _ else _).
  destruct (positions_changed r2) eqn:Hr2; cbn [snd].
  - split; cbn [update_online_stations]; [done..|].
    etransitivity; [|done]. rewrite update_online_stations_apply. cbn. rewrite Hst.
    by apply coverage_diff_applied.
  - split; [done..|]. cbn. rewrite Hst. f_equal. unfold all_online_positions. cbn. subst r2.
    case_bool_decide as Hv; cbn [negb] in Hr2; [|done]. by rewrite Hv, Hr.
Qed.
(** ** Another network *)

Lemma with_clients_same cm : with_clients cm (clients cm) = cm.
Proof. by destruct cm. Qed.

(** The loops of [replace_network] only touch the sessions. *)
Lemma clear_clients_spec l : forall updates cm,
  ids_ok (clients cm) ->
  exists updates' cs, foldl clear_client (updates, cm) l = (updates', with_clients cm cs) /\
    ids_ok cs /\ dom cs = dom (clients cm) /\
    forall q, clients_at cs q = clients_at (clients cm) q ∖ list_to_set l.
Proof.
  induction l as [|c l IH]; intros updates cm Hids.
  { exists updates, (clients cm). rewrite with_clients_same. split; [done|]. split; [done|].
    split; [done|]. intros q. cbn. set_solver. }
  cbn [foldl clear_client]. destruct (clients cm !! c) as [s|] eqn:Hc.
  - pose proof (update_active_profile_info (ClientSession.set_position_id s None) None (network cm))
      as Hinfo.
    destruct (ClientSession.update_active_profile _ _ _) as [profile s']. cbn in Hinfo.
    set (cm1 := with_clients cm _).
    assert (ids_ok (clients cm1)) as Hids1.
    { apply ids_insert; [done|]. unfold ClientSession.id. rewrite Hinfo. cbn. by apply Hids. }
    match goal with |- context [foldl clear_client (?u, cm1) l] =>
      destruct (IH u cm1 Hids1) as (updates' & cs & Hf & Hids' & Hdom & Hat) end.
    exists updates', cs. rewrite Hf. split; [done|]. split; [done|]. split.
    + rewrite Hdom. cbn. rewrite dom_insert_L.
      assert (c ∈ dom (clients cm)) by (apply elem_of_dom; eauto). set_solver.
    + intros q. rewrite Hat. cbn. rewrite clients_at_insert. unfold ClientSession.position_id.
      rewrite Hinfo. cbn. set_solver.
  - destruct (IH updates cm Hids) as (updates' & cs & Hf & Hids' & Hdom & Hat).
    exists updates', cs. rewrite Hf. split; [done|]. split; [done|]. split; [done|].
    intros q. rewrite Hat. cbn.
    assert (c ∉ clients_at (clients cm) q) by (rewrite elem_of_clients_at; naive_solver). set_solver.
Qed.

Lemma refresh_clients_spec profile sources l : forall updates cm,
  ids_ok (clients cm) ->
  exists updates' cs,
    foldl (refresh_client profile sources) (updates, cm) l = (updates', with_clients cm cs) /\
    ids_ok cs /\ dom cs = dom (clients cm) /\
    forall q, clients_at cs q = clients_at (clients cm) q.
Proof.
  induction l as [|c l IH]; intros updates cm Hids.
  { exists updates, (clients cm). by rewrite with_clients_same. }
  cbn [foldl]. assert (exists u cs, refresh_client profile sources (updates, cm) c =
    (u, with_clients cm cs) /\ ids_ok cs /\ dom cs = dom (clients cm) /\
    forall q, clients_at cs q = clients_at (clients cm) q) as (u & cs1 & -> & Hids1 & Hdom1 & Hat1).
  { unfold refresh_client. destruct (clients cm !! c) as [s|] eqn:Hc.
    2:{ exists updates, (clients cm). by rewrite with_clients_same. }
    pose proof (update_active_profile_info s profile (network cm)) as Hinfo.
    destruct (ClientSession.update_active_profile _ _ _) as [tracked s']. cbn in Hinfo.
    assert (forall b : option SessionProfile, exists u cs,
      match b with
      | Some session_profile =>
        (updates ++ [session_update (with_clients cm (<[c := s']> (clients cm))) s' session_profile
           sources], with_clients cm (<[c := s']> (clients cm)))
      | None => (updates, with_clients cm (<[c := s']> (clients cm)))
      end = (u, with_clients cm cs) /\ ids_ok cs /\ dom cs = dom (clients cm) /\
      forall q, clients_at cs q = clients_at (clients cm) q) as Hall; [|apply Hall].
    intros b. exists (match b with Some session_profile => updates ++
      [session_update (with_clients cm (<[c := s']> (clients cm))) s' session_profile sources]
      | None => updates end), (<[c := s']> (clients cm)).
    split; [by destruct b|]. split; [|split].
    - apply ids_insert; [done|]. unfold ClientSession.id. rewrite Hinfo. by apply Hids.
    - rewrite dom_insert_L. assert (c ∈ dom (clients cm)) by (apply elem_of_dom; eauto). set_solver.
    - intros q. eapply clients_at_same; [done|]. unfold ClientSession.position_id. by rewrite Hinfo. }
  destruct (IH u (with_clients cm cs1) Hids1) as (u' & cs & Hf & Hids' & Hdom & Hat).
  exists u', cs. rewrite Hf. split; [done|]. split; [done|]. split; [by rewrite Hdom|].
  intros q. by rewrite Hat.
Qed.

(** What the clearing and refreshing of positions keeps. *)
Record cleared (stale : gset PositionId) (cm cm' : ClientManager) : Prop := {
  cl_frame : exists cs online, cm' = with_online (with_clients cm cs) online;
  cl_ids : ids_ok (clients cm');
  cl_online : online_ok (clients cm') (online_positions cm');
  cl_clients : dom (clients cm') = dom (clients cm);
  cl_positions : dom (online_positions cm') = dom (online_positions cm) ∖ stale
}.

Lemma with_online_clients_twice cm cs online cs' online' :
  with_online (with_clients (with_online (with_clients cm cs) online) cs') online' =
  with_online (with_clients cm cs') online'.
Proof. done. Qed.

Lemma cleared_refl cm :
  ids_ok (clients cm) -> online_ok (clients cm) (online_positions cm) -> cleared ∅ cm cm.
Proof.
  intros Hids Hon. split; try done; [|set_solver].
  exists (clients cm), (online_positions cm). by destruct cm.
Qed.

Lemma cleared_trans s1 s2 cm1 cm2 cm3 :
  cleared s1 cm1 cm2 -> cleared s2 cm2 cm3 -> cleared (s1 ∪ s2) cm1 cm3.
Proof.
  intros [(cs & online & ->) H2 H3 H4 H5] [(cs' & online' & ->) K2 K3 K4 K5].
  split; [by exists cs', online'|done|done|cbn in *; congruence|].
  cbn in *. set_solver.
Qed.

Lemma clear_position_ok updates cm p :
  ids_ok (clients cm) -> online_ok (clients cm) (online_positions cm) ->
  cleared {[p]} cm (clear_position (updates, cm) p).2.
Proof.
  intros Hids Hon. cbn. destruct (online_positions cm !! p) as [present|] eqn:Hp; cbn.
  2:{ destruct (cleared_refl cm Hids Hon). split; try done.
      apply not_elem_of_dom in Hp. set_solver. }
  set (cm0 := with_online cm _).
  destruct (clear_clients_spec (set_iter present) updates cm0 Hids)
    as (u & cs & -> & Hids' & Hdom & Hat). cbn [snd].
  rewrite Hon in Hp. apply inhabited_Some in Hp as [Hp _].
  split; [by exists cs, (delete p (online_positions cm))|done| |done|].
  - intros q. cbn. rewrite Hat. destruct (decide (q = p)) as [->|Hne].
    + rewrite lookup_delete_eq. symmetry. apply inhabited_None. cbn.
      apply set_eq. intros c. rewrite elem_of_difference, elem_of_list_to_set, elem_of_set_iter.
      rewrite Hp. set_solver.
    + rewrite lookup_delete_ne, Hon by done. f_equal. cbn. apply set_eq. intros c.
      rewrite elem_of_difference, elem_of_list_to_set, elem_of_set_iter, <- Hp.
      rewrite !elem_of_clients_at. naive_solver congruence.
  - cbn. by rewrite dom_delete_L.
Qed.

Lemma clear_positions_ok l : forall updates cm,
  ids_ok (clients cm) -> online_ok (clients cm) (online_positions cm) ->
  cleared (list_to_set l) cm (foldl clear_position (updates, cm) l).2.
Proof.
  induction l as [|p l IH]; intros updates cm Hids Hon; [by apply cleared_refl|].
  pose proof (clear_position_ok updates cm p Hids Hon) as H1. cbn [foldl].
  destruct (clear_position (updates, cm) p) as [u cm1]. cbn in H1.
  eapply cleared_trans; [done|]. by apply IH; destruct H1.
Qed.

Lemma refresh_positions_ok l : forall updates cm,
  ids_ok (clients cm) -> online_ok (clients cm) (online_positions cm) ->
  cleared ∅ cm (foldl refresh_position (updates, cm) l).2.
Proof.
  induction l as [|[p present] l IH]; intros updates cm Hids Hon; [by apply cleared_refl|].
  cbn [foldl]. unfold refresh_position at 2. cbn [fst snd].
  match goal with |- context [foldl (refresh_client ?a ?b) _ _] =>
    destruct (refresh_clients_spec a b (set_iter present) updates cm Hids)
      as (u & cs & -> & Hids' & Hdom & Hat) end.
  assert (online_ok cs (online_positions cm)) as Hon' by (intros q; by rewrite Hat).
  replace (∅ : gset PositionId) with (∅ ∪ ∅ : gset PositionId) by set_solver.
  eapply cleared_trans; [|by apply IH].
  split; [by exists cs, (online_positions cm)|done..|set_solver].
Qed.
Lemma foldl_delete_dom l : forall m : OnlinePositions,
  dom (foldl (λ m p, delete p m) m l) ⊆ dom m.
Proof.
  induction l as [|p l IH]; intros m; cbn; [done|]. rewrite IH, dom_delete_L. set_solver.
Qed.

Lemma replace_state_ok cm n :
  manager_ok cm -> network_wf n -> manager_ok (replace_state cm n).2.
Proof.
  intros [_ Hids Hon Hdis _] Hwf. unfold replace_state. set (cm0 := with_network cm n).
  set (stale := filter _ (map_keys (online_positions cm0))).
  pose proof (clear_positions_ok stale [] cm0 Hids Hon) as H1.
  destruct (foldl clear_position ([], cm0) stale) as [u1 cm1]. cbn [snd] in H1.
  destruct H1 as [(cs1 & on1 & ->) Hids1 Hon1 _ Hdom1].
  set (vatsim := foldl _ (vatsim_only_positions _) _). set (cm2 := with_vatsim_only _ vatsim).
  pose proof (refresh_positions_ok (map_iter (online_positions cm2)) u1 cm2 Hids1 Hon1) as H2.
  destruct (foldl refresh_position _ _) as [u2 cm3]. cbn [snd] in H2.
  destruct H2 as [(cs2 & on2 & ->) Hids2 Hon2 _ Hdom2]. cbn [snd].
  set (changes := compute_station_diff _ _).
  split; cbn [update_online_stations]; [done..| |].
  - cbn in *. rewrite Hdom2, Hdom1. intros q [[Hq _]%elem_of_difference _]%elem_of_difference Hv.
    apply (Hdis q Hq). eapply elem_of_weaken; [exact Hv|apply foldl_delete_dom].
  - rewrite update_online_stations_apply. cbn [online_stations with_online with_clients].
    subst changes. etransitivity; [apply station_diff_applied|].
    exact (fresh_online_stations_coverage (with_online (with_clients cm2 cs2) on2) Hwf).
Qed.
End steps.
