(* ===== verification/ClientView.v ===== *)
(** ClientView: what a client is told about the stations. A client may call the
    stations whose position another client is on; the changes it is sent lead
    from what it could call before an operation to what it can call after. *)
From stdpp Require Import prelude gmap strings list sorting.
From Stdlib Require Import NArith.
From S2P Require Import Prelude Protocol Calls Controllers CoverageErrors Profile.
From S2P Require Import Coverage CoverageLookup Clients ClientInvariant ClientSteps.
Import ClientManager.

(** ** The stations a client may call *)

Abbreviation Stations := (gmap StationId PositionId).

Definition shown (F : gset PositionId) (m : Stations) : Stations := filter (λ kv, kv.2 ∈ F) m.

Definition visible (cm : ClientManager) : Stations :=
  shown (dom (online_positions cm)) (online_stations cm).

Definition relevant (n : Network) (profile : ActiveProfile ProfileId) (id : StationId) : Prop :=
  match relevant_stations n profile with
  | RelevantAll => True
  | Subset ids => id ∈ ids
  | RelevantNone => False
  end.

#[export] Instance relevant_dec n profile id : Decision (relevant n profile id).
Proof. unfold relevant. destruct (relevant_stations n profile); apply _. Defined.

(** What the client with this profile shows. *)
Definition client_view (cm : ClientManager) (profile : ActiveProfile ProfileId) : Stations :=
  filter (λ kv, relevant (network cm) profile kv.1) (visible cm).

(** What it makes of the messages it gets, if it makes [f view changes] of changes. *)
Definition hear_by {V : Type} (f : V -> list StationChange -> V) (c : ClientId) (view : V)
    (event : Event) : V :=
  match event with
  | ToClient c' (SM_StationChanges changes) => if decide (c' = c) then f view changes else view
  | _ => view
  end.

Definition hear_all_by {V : Type} (f : V -> list StationChange -> V) (c : ClientId) :
    V -> list Event -> V := foldl (hear_by f c).

Definition hear_all : ClientId -> Stations -> list Event -> Stations := hear_all_by apply_changes.

(** A change that can be made to a view *)
Definition fits (m : Stations) (c : StationChange) : Prop :=
  match c with
  | Online id _ => m !! id = None
  | Handoff id _ _ => is_Some (m !! id)
  | Offline _ => True
  end.

(** Changes of different stations, each of which can be made, lead to a view. *)
Record leads (m : Stations) (l : list StationChange) (m' : Stations) : Prop := {
  leads_ids : NoDup (map change_station_id l);
  leads_fit : forall c, c ∈ l -> fits m c;
  leads_to : apply_changes m l = m'
}.

Lemma leads_nil m : leads m [] m.
Proof. split; [constructor|by intros c ?%not_elem_of_nil|done]. Qed.

(** ** Visible changes *)

Lemma lookup_shown F m id :
  shown F m !! id = m !! id ≫= λ q, if decide (q ∈ F) then Some q else None.
Proof.
  unfold shown. rewrite map_lookup_filter. destruct (m !! id) as [q|]; [|done]. cbn.
  case_decide; [by rewrite option_guard_True|by rewrite option_guard_False].
Qed.

Definition change_target (c : StationChange) : option PositionId :=
  match c with Online _ p => Some p | Handoff _ _ p => Some p | Offline _ => None end.

Lemma apply_changes_lookup m l c :
  NoDup (map change_station_id l) -> c ∈ l ->
  apply_changes m l !! change_station_id c = change_target c.
Proof.
  revert m. induction l as [|c' l IH]; intros m Hnd Hin; [by apply not_elem_of_nil in Hin|].
  cbn in Hnd. apply NoDup_cons in Hnd as [Hnin Hnd]. unfold apply_changes in *. cbn [foldl].
  apply elem_of_cons in Hin as [<-|Hin]; [|by apply IH].
  etransitivity; [by apply apply_changes_not_in|].
  destruct c; cbn; by rewrite ?lookup_insert_eq, ?lookup_delete_eq.
Qed.

Lemma visible_change_id F T c c' :
  client_visible_change F T c = Some c' -> change_station_id c' = change_station_id c.
Proof.
  destruct c; cbn; repeat case_bool_decide; intros; by simplify_eq.
Qed.

Lemma omap_ids_NoDup (f : StationChange -> option StationChange) l :
  (forall c c', f c = Some c' -> change_station_id c' = change_station_id c) ->
  NoDup (map change_station_id l) -> NoDup (map change_station_id (omap f l)).
Proof.
  intros Hf. induction l as [|c l IH]; intros Hnd; cbn; [constructor|].
  cbn in Hnd. apply NoDup_cons in Hnd as [Hnin Hnd].
  destruct (f c) as [c'|] eqn:Hc; [|by apply IH]. cbn. apply NoDup_cons. split; [|by apply IH].
  rewrite (Hf _ _ Hc). intros (d & Hid & (e & He & Hd)%list_elem_of_omap)%list_elem_of_fmap.
  apply Hnin, list_elem_of_fmap. exists e. split; [|done]. by rewrite Hid, (Hf _ _ Hd).
Qed.

(** The stations that change hands between the clients and the others, their
    position staying the same. *)
Definition moved_between (m m' : Stations) (F T : gset PositionId) (c : StationChange) : Prop :=
  exists id q, m !! id = Some q /\ m' !! id = Some q /\
    (q ∈ F /\ q ∉ T /\ c = Offline id \/ q ∉ F /\ q ∈ T /\ c = Online id q).

Lemma visible_target F T id a b c c' :
  change_between id a b = Some c -> client_visible_change F T c = Some c' ->
  change_target c' = b ≫= λ q, if decide (q ∈ T) then Some q else None.
Proof.
  unfold change_between. case_decide; [done|].
  destruct a, b; intros [= <-]; cbn; repeat case_bool_decide; intros; simplify_eq/=;
    rewrite ?decide_True, ?decide_False by done; done.
Qed.

Lemma visible_None F T id a b c :
  change_between id a b = Some c -> client_visible_change F T c = None ->
  (a ≫= λ q, if decide (q ∈ F) then Some q else None) = None /\
  (b ≫= λ q, if decide (q ∈ T) then Some q else None) = None.
Proof.
  unfold change_between. case_decide; [done|].
  destruct a, b; intros [= <-]; cbn; repeat case_bool_decide; intros; simplify_eq/=;
    rewrite ?decide_False by done; done.
Qed.

Lemma visible_fits F T id a b c d (m : Stations) :
  change_between id a b = Some c -> client_visible_change F T c = Some d ->
  m !! id = (a ≫= λ q, if decide (q ∈ F) then Some q else None) -> fits m d.
Proof.
  unfold change_between. case_decide; [done|].
  destruct a, b; intros [= <-]; cbn; repeat case_bool_decide; intros [= <-] Hm;
    cbn in *; rewrite ?Hm; first [done | by case_decide; eauto].
Qed.

Section shown_changed.
Context (m m' : Stations) (F T : gset PositionId) (l extra : list StationChange).
Context (l_ids : NoDup (map change_station_id l)).
Context (l_in : forall c, c ∈ l <-> exists id, change_between id (m !! id) (m' !! id) = Some c).
Context (extra_ids : NoDup (map change_station_id extra)).
Context (extra_in : forall c, c ∈ extra <-> moved_between m m' F T c).

Let L := client_visible_changes l F T ++ extra.

Lemma visible_in d :
  d ∈ client_visible_changes l F T <-> exists c,
    change_between (change_station_id d) (m !! change_station_id d) (m' !! change_station_id d)
      = Some c /\ client_visible_change F T c = Some d.
Proof.
  unfold client_visible_changes. rewrite list_elem_of_omap. split.
  - intros (c & [id Hc]%l_in & Hd). exists c. split; [|done].
    by rewrite (visible_change_id _ _ _ _ Hd), (change_between_id _ _ _ _ Hc).
  - intros (c & Hc & Hd). exists c. split; [|done]. apply l_in. eauto.
Qed.

Lemma moved_same d :
  moved_between m m' F T d -> m !! change_station_id d = m' !! change_station_id d.
Proof. intros (id & q & H1 & H2 & [(_ & _ & ->)|(_ & _ & ->)]); cbn; congruence. Qed.

Lemma all_ids : NoDup (map change_station_id L).
Proof.
  unfold L. rewrite map_app. apply NoDup_app. split; [|split; [|done]].
  - apply omap_ids_NoDup; [apply visible_change_id|done].
  - intros id (d & -> & Hd)%list_elem_of_fmap (e & Hid & He%extra_in%moved_same)%list_elem_of_fmap.
    apply visible_in in Hd as (c & Hc & _). rewrite Hid, He, change_between_same in Hc. done.
Qed.

Lemma all_in d : d ∈ L -> apply_changes (shown F m) L !! change_station_id d = change_target d.
Proof. apply apply_changes_lookup, all_ids. Qed.

Lemma all_not_in id :
  (forall d, d ∈ L -> change_station_id d <> id) ->
  apply_changes (shown F m) L !! id = shown F m !! id.
Proof. intros H. apply apply_changes_not_in. intros (d & -> & Hd)%list_elem_of_fmap. by apply (H d). Qed.

Lemma shown_where_changed id c :
  change_between id (m !! id) (m' !! id) = Some c ->
  apply_changes (shown F m) L !! id = shown T m' !! id.
Proof.
  intros Hc. pose proof (change_between_id _ _ _ _ Hc) as Hid. rewrite (lookup_shown T).
  destruct (client_visible_change F T c) as [c'|] eqn:Hv.
  - pose proof (visible_change_id _ _ _ _ Hv) as Hid'.
    rewrite <- (visible_target _ _ _ _ _ _ _ Hc Hv), <- Hid, <- Hid'.
    apply all_in, elem_of_app. left. apply visible_in. exists c. split; [|done].
    by rewrite Hid', Hid.
  - destruct (visible_None _ _ _ _ _ _ Hc Hv) as [Hm ->]. rewrite <- Hm, <- lookup_shown.
    apply all_not_in. intros d [Hd|Hd]%elem_of_app <-.
    + apply visible_in in Hd as (c2 & Hc2 & Hd). rewrite Hc in Hc2. congruence.
    + apply extra_in, moved_same in Hd. rewrite Hd, change_between_same in Hc. done.
Qed.

Lemma shown_where_same id :
  m !! id = m' !! id -> apply_changes (shown F m) L !! id = shown T m' !! id.
Proof.
  intros Hsame.
  assert (forall d, d ∈ L -> change_station_id d = id -> moved_between m m' F T d) as Hmoved.
  { intros d [Hd|Hd]%elem_of_app Hid; [|by apply extra_in].
    apply visible_in in Hd as (c & Hc & _). rewrite Hid, Hsame, change_between_same in Hc. done. }
  rewrite (lookup_shown T), <- Hsame. destruct (m !! id) as [q|] eqn:Hm; cbn.
  - destruct (decide (q ∈ F)) as [HF|HF], (decide (q ∈ T)) as [HT|HT].
    2:{ apply (all_in (Offline id)), elem_of_app. right. apply extra_in. exists id, q. eauto 10. }
    2:{ apply (all_in (Online id q)), elem_of_app. right. apply extra_in. exists id, q. eauto 10. }
    all: rewrite all_not_in; [rewrite lookup_shown, Hm; cbn; by case_decide|].
    all: intros d Hd Hid; destruct (Hmoved d Hd Hid) as (id' & q' & H1 & H2 & Hd').
    all: assert (id' = id) as -> by (destruct Hd' as [(_ & _ & ->)|(_ & _ & ->)]; done).
    all: naive_solver.
  - rewrite all_not_in; [by rewrite lookup_shown, Hm|].
    intros d Hd Hid. destruct (Hmoved d Hd Hid) as (id' & q' & H1 & H2 & Hd').
    assert (id' = id) as -> by (destruct Hd' as [(_ & _ & ->)|(_ & _ & ->)]; done). congruence.
Qed.

Lemma all_fit d : d ∈ L -> fits (shown F m) d.
Proof.
  intros [(c & Hc & Hd)%visible_in|(id & q & Hq & _ & Hd)%extra_in]%elem_of_app.
  - eapply visible_fits; [exact Hc|exact Hd|]. by rewrite lookup_shown.
  - destruct Hd as [(_ & _ & ->)|(Hn & _ & ->)]; [done|]. cbn. rewrite lookup_shown, Hq. cbn.
    by rewrite decide_False.
Qed.

Lemma shown_changed : leads (shown F m) L (shown T m').
Proof.
  split; [apply all_ids|apply all_fit|].
  apply map_eq. intros id.
  destruct (change_between id (m !! id) (m' !! id)) as [c|] eqn:Hc.
  - by eapply shown_where_changed.
  - apply shown_where_same. revert Hc. unfold change_between. case_decide; [done|].
    by destruct (m !! id), (m' !! id).
Qed.
End shown_changed.

(** ** Operations *)

Section views.
Context {HO : HashOrder}.

Lemma coverage_online n o id q : coverage n o !! id = Some q -> q ∈ o.
Proof. rewrite lookup_coverage, first_online_spec. by intros (s & b & a & _ & _ & Hq & _). Qed.

(** The positions a change of coverage speaks of *)
Lemma coverage_diff_ends n o1 o2 c :
  network_wf n -> c ∈ coverage_diff n o1 o2 ->
  match c with
  | Online _ q => q ∈ o2
  | Handoff _ p q => p ∈ o1 /\ q ∈ o2
  | Offline _ => True
  end.
Proof.
  intros Hwf [id Hc]%coverage_diff_in; [|done]. revert Hc. unfold change_between.
  case_decide; [done|].
  destruct (coverage n o1 !! id) eqn:H1, (coverage n o2 !! id) eqn:H2; intros [= <-];
    eauto using coverage_online.
Qed.

Lemma omap_ext_in {A B} (f g : A -> option B) (l : list A) :
  (forall x, x ∈ l -> f x = g x) -> omap f l = omap g l.
Proof.
  induction l as [|x l IH]; intros H; cbn; [done|]. rewrite (H x) by left.
  rewrite IH; [done|]. intros y Hy. apply H. by right.
Qed.

(** Only the positions that go offline or online matter for what is visible. *)
Lemma visible_changes_ext n o1 o2 (F F' T T' : gset PositionId) :
  network_wf n ->
  (forall p, p ∈ o1 -> p ∈ F <-> p ∈ F') -> (forall p, p ∈ o2 -> p ∈ T <-> p ∈ T') ->
  client_visible_changes (coverage_diff n o1 o2) F T =
  client_visible_changes (coverage_diff n o1 o2) F' T'.
Proof.
  intros Hwf HF HT. apply omap_ext_in. intros c Hc. pose proof (coverage_diff_ends _ _ _ _ Hwf Hc) as H.
  destruct c as [id q|id p q|id]; cbn; [| |done].
  - by rewrite (bool_decide_ext _ _ (HT q H)).
  - destruct H as [Hp Hq]. by rewrite (bool_decide_ext _ _ (HF p Hp)), (bool_decide_ext _ _ (HT q Hq)).
Qed.

Lemma stations_of_in cm p f c :
  c ∈ stations_of cm p f <-> exists id, online_stations cm !! id = Some p /\ c = f id.
Proof.
  unfold stations_of. rewrite list_elem_of_fmap. split.
  - intros ([id q] & -> & [Hq Hin%elem_of_map_iter]%list_elem_of_filter). cbn in *. subst. eauto.
  - intros (id & Hid & ->). exists (id, p). split; [done|]. apply list_elem_of_filter.
    split; [done|]. by apply elem_of_map_iter.
Qed.

Lemma stations_of_ids cm p f :
  (forall id, change_station_id (f id) = id) -> NoDup (map change_station_id (stations_of cm p f)).
Proof.
  intros Hf. unfold stations_of. rewrite map_map.
  rewrite (map_ext _ fst) by (intros [? ?]; apply Hf).
  pose proof (NoDup_fst_map_iter (online_stations cm)) as Hnd. revert Hnd.
  induction (map_iter (online_stations cm)) as [|kv l IH]; intros Hnd; [done|].
  rewrite fmap_cons in Hnd. apply NoDup_cons in Hnd as [Hnin Hnd].
  rewrite filter_cons. case_decide; [|by apply IH]. cbn. apply NoDup_cons. split; [|by apply IH].
  intros (kv' & Hid & [_ Hin]%list_elem_of_filter)%list_elem_of_fmap.
  apply Hnin, list_elem_of_fmap. eauto.
Qed.

(** The coverage changes with nothing that moves between clients and others. *)
Lemma shown_coverage n o1 o2 (F T : gset PositionId) :
  network_wf n -> (forall q, q ∈ o1 -> q ∈ o2 -> q ∈ F <-> q ∈ T) ->
  leads (shown F (coverage n o1)) (client_visible_changes (coverage_diff n o1 o2) F T)
    (shown T (coverage n o2)).
Proof.
  intros Hwf Hsame. rewrite <- (app_nil_r (client_visible_changes _ _ _)). apply shown_changed.
  - by apply coverage_diff_NoDup.
  - by apply coverage_diff_in.
  - constructor.
  - intros c. split; [by intros Hc%not_elem_of_nil|]. intros (id & q & H1 & H2 & Hc).
    apply coverage_online in H1, H2. specialize (Hsame q H1 H2). naive_solver.
Qed.

(** A position that moves between the clients and the others. *)
Lemma shown_moved cm p (F T : gset PositionId) f :
  (forall id, change_station_id (f id) = id) ->
  (forall q, q <> p -> q ∈ F <-> q ∈ T) ->
  (p ∈ F /\ p ∉ T /\ f = Offline \/ p ∉ F /\ p ∈ T /\ f = λ id, Online id p) ->
  leads (shown F (online_stations cm)) (stations_of cm p f) (shown T (online_stations cm)).
Proof.
  intros Hf Hsame Hp. rewrite <- (app_nil_l (stations_of _ _ _)).
  change [] with (client_visible_changes [] F T). apply shown_changed.
  - constructor.
  - intros c. split; [by intros Hc%not_elem_of_nil|]. intros [id Hc].
    by rewrite change_between_same in Hc.
  - by apply stations_of_ids.
  - intros c. rewrite stations_of_in. split.
    + intros (id & Hid & ->). exists id, p. naive_solver.
    + intros (id & q & Hid & _ & Hq). exists id.
      assert (q = p) as -> by (destruct (decide (q = p)); [done|]; naive_solver). naive_solver.
Qed.

Lemma go_online_visible cm c p :
  network_wf (network cm) -> online_positions cm !! p <> Some ∅ ->
  dom (online_positions cm) ## dom (vatsim_only_positions cm) ->
  online_stations cm = coverage (network cm) (all_online_positions cm) ->
  leads (visible cm) (go_online cm c p).1 (visible (go_online cm c p).2).
Proof.
  intros Hwf Hp Hdis Hst. unfold go_online, visible.
  assert (default ∅ (online_positions cm !! p) = ∅ -> p ∉ dom (online_positions cm)) as Hdom.
  { intros He. apply not_elem_of_dom. destruct (_ !! p); [|done]. cbn in He. congruence. }
  case_bool_decide as He; cbn [negb]; [case_bool_decide as Hv|]; cbn [fst snd].
  - specialize (Hdom He). apply (shown_moved cm p); [done|..]; cbn; rewrite dom_insert_L; [set_solver|].
    right. set_solver.
  - specialize (Hdom He). rewrite <- elem_of_dom in Hv. rewrite coverage_changes_diff.
    set (o2 := _ ∖ _ ∪ _). set (cm1 := update_online_stations _ _).
    assert (online_stations cm1 = coverage (network cm) o2) as -> by (by apply (stations_updated cm)).
    replace (dom (online_positions cm1)) with ({[p]} ∪ dom (online_positions cm))
      by (cbn; by rewrite dom_insert_L).
    rewrite Hst. rewrite (visible_changes_ext _ _ _ _ (dom (online_positions cm)) _
      ({[p]} ∪ dom (online_positions cm)) Hwf); [|unfold all_online_positions; set_solver|done].
    apply shown_coverage; [done|]. unfold all_online_positions. set_solver.
  - cbn. rewrite dom_insert_L. replace (_ ∪ _) with (dom (online_positions cm)); [apply leads_nil|].
    assert (p ∈ dom (online_positions cm)); [|set_solver].
    apply elem_of_dom. destruct (_ !! p); [eauto|done].
Qed.

Lemma go_offline_visible cm c p feed :
  network_wf (network cm) ->
  dom (online_positions cm) ## dom (vatsim_only_positions cm) ->
  online_stations cm = coverage (network cm) (all_online_positions cm) ->
  leads (visible cm) (go_offline cm c p feed).1 (visible (go_offline cm c p feed).2).
Proof.
  intros Hwf Hdis Hst. unfold go_offline, visible.
  destruct (online_positions cm !! p) as [present|] eqn:Hp; [|apply leads_nil].
  assert (p ∈ dom (online_positions cm)) as Hdom by (apply elem_of_dom; eauto).
  case_bool_decide as Hsize; [destruct (mbind _ feed) as [cids|]|]; cbn [fst snd].
  - apply (shown_moved cm p); [done|..]; cbn; rewrite dom_delete_L; [set_solver|]. left. set_solver.
  - set (o2 := _ ∖ {[p]}). set (cm1 := update_online_stations _ _).
    assert (online_stations (with_online cm1 (delete p (online_positions cm1))) = coverage (network cm) o2)
      as -> by (by apply (stations_updated cm)).
    cbn [online_positions with_online]. rewrite dom_delete_L.
    change (online_positions cm1) with (online_positions cm). rewrite Hst.
    rewrite (visible_changes_ext _ _ _ _ (dom (online_positions cm)) _
      (dom (online_positions cm) ∖ {[p]}) Hwf); [|done|set_solver].
    apply shown_coverage; [done|]. set_solver.
  - cbn. rewrite dom_insert_L. replace (_ ∪ _) with (dom (online_positions cm)) by set_solver.
    apply leads_nil.
Qed.

(** *** Following the network *)

Lemma diff_ids n o1 o2 id :
  network_wf n ->
  id ∉ map change_station_id (coverage_diff n o1 o2) <-> coverage n o1 !! id = coverage n o2 !! id.
Proof.
  intros Hwf. split.
  - intros Hid. destruct (decide (coverage n o1 !! id = coverage n o2 !! id)) as [|Hne]; [done|].
    destruct Hid. apply list_elem_of_fmap.
    destruct (change_between id (coverage n o1 !! id) (coverage n o2 !! id)) as [c|] eqn:Hc.
    + exists c. split; [symmetry; by eapply change_between_id|]. apply coverage_diff_in; eauto.
    + exfalso. revert Hc. unfold change_between. rewrite decide_False by done.
      by destruct (coverage n o1 !! id), (coverage n o2 !! id).
  - intros Hsame (c & -> & [k Hc]%coverage_diff_in)%list_elem_of_fmap; [|done].
    rewrite (change_between_id _ _ _ _ Hc) in Hsame. rewrite Hsame, change_between_same in Hc. done.
Qed.

Lemma moved_stations_in cm F changed c :
  c ∈ moved_stations cm F changed <-> exists id q,
    online_stations cm !! id = Some q /\ id ∉ changed /\
    (q ∈ F /\ q ∉ dom (online_positions cm) /\ c = Offline id \/
     q ∉ F /\ q ∈ dom (online_positions cm) /\ c = Online id q).
Proof.
  unfold moved_stations. rewrite list_elem_of_omap. setoid_rewrite elem_of_map_iter'.
  setoid_rewrite elem_of_dom. split.
  - intros ([id q] & Hid & Hc). exists id, q. cbn in Hid. revert Hc.
    repeat case_bool_decide; intros; simplify_eq; eauto 10.
  - intros (id & q & Hid & Hch & Hc). exists (id, q). split; [done|]. rewrite bool_decide_false by done.
    destruct Hc as [(H1 & H2 & ->)|(H1 & H2 & ->)]; by repeat case_bool_decide.
Qed.

Lemma moved_stations_ids cm F changed : NoDup (map change_station_id (moved_stations cm F changed)).
Proof.
  apply omap_keys_NoDup. intros [id q] c. repeat case_bool_decide; intros; by simplify_eq.
Qed.

Lemma sync_state_visible cm controllers require now :
  manager_ok cm ->
  leads (visible cm) (sync_state cm controllers require now).1.2
    (visible (sync_state cm controllers require now).2).
Proof.
  intros [Hwf Hids Hon Hdis Hst]. unfold sync_state.
  pose proof (sync_client_positions_ok cm controllers require now Hids Hon) as H.
  destruct (sync_client_positions _ _ _ _) as [[cs online] r].
  destruct H as (_ & _ & _ & Hr). cbv zeta.
  set (vatsim := rebuild_vatsim_only _ _ _ _) in *. set (r2 := if negb _ then _ else _).
  destruct (positions_changed r2) eqn:Hr2; cbn [fst snd].
  - set (cm1 := with_vatsim_only _ vatsim). set (o2 := all_online_positions cm1).
    change (network cm1) with (network cm). set (cm2 := update_online_stations cm1 _).
    assert (online_stations cm2 = coverage (network cm) o2) as Hst2.
    { unfold cm2. rewrite update_online_stations_apply. change (online_stations cm1) with (online_stations cm).
      rewrite Hst. by apply coverage_diff_applied. }
    unfold visible. rewrite Hst, Hst2. apply shown_changed.
    + by apply coverage_diff_NoDup.
    + by apply coverage_diff_in.
    + apply moved_stations_ids.
    + intros c. rewrite moved_stations_in, Hst2. unfold moved_between.
      setoid_rewrite elem_of_list_to_set. setoid_rewrite diff_ids; [|done].
      split; intros (id & q & H1 & H2 & H3); exists id, q; (split; [congruence|]);
        (split; [congruence|exact H3]).
  - cbn. unfold visible. cbn. subst r2.
    case_bool_decide; cbn [negb] in Hr2; [|done]. rewrite Hr by done. apply leads_nil.
Qed.

(** ** Who is told *)

Lemma broadcast_loop_spec n changes l : forall cache,
  (forall profile cached, cache !! profile = Some cached ->
    cached = relevant_changes n profile changes) ->
  broadcast_loop n changes l cache =
  omap (λ s, match relevant_changes n (active_profile s) changes with
             | [] => None
             | told => Some (ToClient (ClientSession.id s) (SM_StationChanges told))
             end) l.
Proof.
  induction l as [|s l IH]; intros cache Hcache; cbn; [done|].
  destruct (cache !! active_profile s) as [cached|] eqn:Hc.
  - rewrite (Hcache _ _ Hc), IH by done. by destruct (relevant_changes n (active_profile s) changes).
  - rewrite IH; [by destruct (relevant_changes n (active_profile s) changes)|].
    intros profile cached Hl. apply lookup_insert_Some in Hl as [[<- <-]|[_ Hl]]; [done|].
    by apply Hcache.
Qed.

Lemma filter_keep {A} (P : A -> Prop) `{!forall x, Decision (P x)} (l : list A) :
  (forall x, P x) -> filter P l = l.
Proof. intros Hall. induction l as [|x l IH]; [done|]. by rewrite filter_cons_True, IH. Qed.

Lemma filter_drop {A} (P : A -> Prop) `{!forall x, Decision (P x)} (l : list A) :
  (forall x, ~ P x) -> filter P l = [].
Proof. intros Hall. induction l as [|x l IH]; [done|]. by rewrite filter_cons_False. Qed.

Lemma relevant_changes_filter n profile changes :
  relevant_changes n profile changes = filter (λ c, relevant n profile (change_station_id c)) changes.
Proof.
  assert (forall id, relevant n profile id = match relevant_stations n profile with
    RelevantAll => True | Subset ids => id ∈ ids | RelevantNone => False end) as H by done.
  unfold relevant_changes. destruct (relevant_stations n profile) as [|ids|].
  - symmetry. apply filter_keep. intros c. by rewrite H.
  - case_bool_decide as He.
    + symmetry. apply filter_drop. intros c. rewrite H, He. set_solver.
    + apply list_filter_iff. intros c. by rewrite H.
  - symmetry. apply filter_drop. intros c. rewrite H. tauto.
Qed.

Lemma apply_changes_filter (P : StationId -> Prop) `{!forall id, Decision (P id)} m l :
  apply_changes (filter (λ kv, P kv.1) m) (filter (λ c, P (change_station_id c)) l) =
  filter (λ kv, P kv.1) (apply_changes m l).
Proof.
  revert m. induction l as [|c l IH]; intros m; [done|]. rewrite filter_cons.
  unfold apply_changes in *. cbn [foldl]. rewrite <- IH. case_decide as Hc; cbn [foldl]; f_equal.
  - apply map_eq. intros id. destruct (decide (id = change_station_id c)) as [->|Hne].
    + destruct c; cbn in *; rewrite map_lookup_filter;
        repeat first [rewrite lookup_insert_eq|rewrite lookup_delete_eq]; cbn;
        by rewrite ?option_guard_True.
    + rewrite apply_change_ne by done. rewrite !map_lookup_filter. by rewrite apply_change_ne.
  - apply map_eq. intros id. rewrite !map_lookup_filter.
    destruct (decide (id = change_station_id c)) as [->|Hne]; [|by rewrite apply_change_ne].
    destruct (m !! _), (apply_change m c !! _); cbn; by rewrite ?option_guard_False.
Qed.

Lemma hear_omap {V} (h : V -> list StationChange -> V) c (f : ClientSession -> option Event)
    (m : Sessions) view :
  hear_all_by h c view (omap f (map_values m)) =
  foldl (λ view kv, from_option (hear_by h c view) view (f kv.2)) view (map_iter m).
Proof.
  unfold map_values, hear_all_by. revert view.
  induction (map_iter m) as [|[k v] l IH]; intros view; cbn; [done|]. by destruct (f v); cbn.
Qed.

(** Every client hears the changes that concern its profile, and no others. *)
Lemma hear_broadcast {V} (h : V -> list StationChange -> V) cm changes c s view :
  h view [] = view -> ids_ok (clients cm) -> clients cm !! c = Some s ->
  hear_all_by h c view (broadcast_station_changes cm changes) =
  h view (relevant_changes (network cm) (active_profile s) changes).
Proof.
  intros Hh Hids Hc. unfold broadcast_station_changes.
  assert (relevant_changes (network cm) (active_profile s) [] = []) as Hnil
    by (by rewrite relevant_changes_filter).
  destruct changes as [|c0 changes0]; [by rewrite Hnil|]. set (changes := c0 :: changes0).
  rewrite broadcast_loop_spec by done. rewrite hear_omap, (foldl_map_iter_single _ _ _ c s Hc).
  - cbn. rewrite (Hids _ _ Hc).
    destruct (relevant_changes (network cm) _ changes); [by symmetry|]. cbn. by rewrite decide_True.
  - intros k v view' Hk Hne. cbn. rewrite (Hids _ _ Hk).
    destruct (relevant_changes (network cm) _ changes); [done|]. cbn. by rewrite decide_False.
Qed.

Lemma client_view_changed cm cm' profile changes :
  network cm' = network cm -> leads (visible cm) changes (visible cm') ->
  leads (client_view cm profile) (relevant_changes (network cm') profile changes)
    (client_view cm' profile).
Proof.
  intros Hn [Hids Hfit Hv]. unfold client_view. rewrite Hn, relevant_changes_filter. split.
  - revert Hids. clear. induction changes as [|c l IH]; intros Hids; [constructor|].
    cbn in Hids. apply NoDup_cons in Hids as [Hnin Hids]. rewrite filter_cons.
    case_decide; [|by apply IH]. cbn. apply NoDup_cons. split; [|by apply IH].
    intros (d & Hd & [_ Hin]%list_elem_of_filter)%list_elem_of_fmap. apply Hnin, list_elem_of_fmap. eauto.
  - intros c [Hrel Hc]%list_elem_of_filter. specialize (Hfit c Hc). destruct c; cbn in *; [| |done].
    + rewrite map_lookup_filter_None. by left.
    + destruct Hfit as [q Hq]. exists q. by apply map_lookup_filter_Some.
  - rewrite <- Hv. by apply (apply_changes_filter (relevant (network cm) profile)).
Qed.

(** ** Clients that keep their position *)

(** The clients that get messages of their own from [sync_vatsim_state]. *)
Definition own_handoffs (r : ClientPositionSync) : list (ClientId * PositionId) :=
  self_handoff_clients r ++ departure_handoff_clients r.

(** A turn changes the profile, or lists the client, only when it moves. *)
Record turn_quiet (c : ClientId) (s : ClientSession) (r : ClientPositionSync)
    (turn : ClientSession * OnlinePositions * ClientPositionSync) : Prop := {
  quiet_profile : ClientSession.position_id turn.1.1 = ClientSession.position_id s ->
    active_profile turn.1.1 = active_profile s;
  quiet_told : forall x, x ∈ own_handoffs turn.2 -> x ∈ own_handoffs r \/
    (x.1 = c /\ ClientSession.position_id turn.1.1 <> ClientSession.position_id s)
}.

Lemma turn_quiet_same c s online r s' r' :
  active_profile s' = active_profile s -> own_handoffs r' = own_handoffs r ->
  turn_quiet c s r (s', online, r').
Proof. intros Hs Hr. split; cbn; [done|]. rewrite Hr. auto. Qed.

Lemma leave_position_told c q online r x :
  x ∈ own_handoffs (leave_position c q online r).2 -> x ∈ own_handoffs r \/ x.1 = c.
Proof.
  unfold leave_position, own_handoffs. destruct q as [q|]; [|auto].
  destruct (online !! q) as [present|]; [|auto]. destruct (size present <=? 1); cbn; [auto|].
  rewrite !elem_of_app, list_elem_of_singleton. intros [Hx|[Hx|Hx]]; subst; auto.
Qed.

Lemma join_position_told c q online r x :
  x ∈ own_handoffs (join_position c q online r).2 -> x ∈ own_handoffs r \/ x.1 = c.
Proof.
  unfold join_position, own_handoffs. destruct q as [q|]; [|auto]. cbv zeta. cbn [snd].
  set (r1 := if _ && _ then _ else _).
  assert (self_handoff_clients r1 = self_handoff_clients r /\
    departure_handoff_clients r1 = departure_handoff_clients r) as [H1 H2]
    by (by subst r1; destruct (_ && _)).
  destruct (1 <? size ({[c]} ∪ default ∅ (online !! q))); cbn; rewrite ?H1, ?H2; [|auto].
  rewrite !elem_of_app, list_elem_of_singleton. intros [[Hx|Hx]|Hx]; subst; auto.
Qed.

Lemma update_client_info_profile s controller :
  active_profile (ClientSession.update_client_info s controller).2 = active_profile s.
Proof. unfold ClientSession.update_client_info. by repeat case_bool_decide. Qed.

Lemma sync_updated_quiet cm c s s1 online r controller :
  active_profile s1 = active_profile s ->
  ClientSession.position_id s1 = ClientSession.position_id s ->
  turn_quiet c s r (sync_updated cm c s1 controller online r).
Proof.
  intros Hprofile Hp. unfold sync_updated. destruct (1 <? _); [by apply turn_quiet_same|].
  set (new_position := head _). set (q := ps_id <$> new_position).
  case_bool_decide as Hq; cbn [negb]; [by apply turn_quiet_same|].
  pose proof (leave_position_told c (ClientSession.position_id s1) online r) as H1.
  destruct (leave_position _ _ _ _) as [online1 r1].
  pose proof (join_position_told c q online1 r1) as H2.
  destruct (join_position _ _ _ _) as [online2 r2].
  pose proof (update_active_profile_info (ClientSession.set_position_id s1 q)
    (new_position ≫= ps_profile_id) (network cm)) as Hinfo.
  destruct (ClientSession.update_active_profile _ _ _) as [profile s2]. cbn in Hinfo.
  assert (ClientSession.position_id s2 = q) as Hs2 by (unfold ClientSession.position_id; by rewrite Hinfo).
  split; cbn; [congruence|]. intros x Hx. rewrite Hs2.
  destruct (H2 x Hx) as [Hx1|]; [destruct (H1 x Hx1) as [|]|]; auto; right; split; congruence.
Qed.

Lemma sync_client_quiet cm c s online r controllers require now :
  turn_quiet c s r (sync_client cm controllers require now c s online r).
Proof.
  unfold sync_client. set (missing := if require then _ else _).
  assert (turn_quiet c s r missing) as Hmissing.
  { subst missing. destruct require; [|by apply turn_quiet_same].
    unfold disconnect_or_mark_pending.
    destruct (ClientSession.is_within_position_grace_period _ _ _); [by apply turn_quiet_same|].
    cbn. destruct (pending_disconnect s); by apply turn_quiet_same. }
  destruct (controllers !! c) as [controller|]; [|done].
  case_bool_decide; [done|]. cbn [ClientSession.take_pending_disconnect].
  destruct (ClientSession.is_within_position_grace_period _ _ _); [by apply turn_quiet_same|].
  pose proof (update_client_info_position (ClientSession.with_pending s false) controller) as [Hp _].
  pose proof (update_client_info_profile (ClientSession.with_pending s false) controller) as Hpr.
  destruct (ClientSession.update_client_info _ _) as [updated s1]. cbn in Hp, Hpr.
  destruct updated; [by apply sync_updated_quiet|by apply turn_quiet_same].
Qed.

Lemma sync_loop_quiet cm controllers require now l : forall cs online r,
  NoDup l.*1 -> (forall kv, kv ∈ l -> cs !! kv.1 = Some kv.2) ->
  let '(cs', _, r') := foldl (sync_turn cm controllers require now) (cs, online, r) l in
  (forall c, c ∉ l.*1 -> cs' !! c = cs !! c) /\
  forall c s s', cs !! c = Some s -> cs' !! c = Some s' ->
    ClientSession.position_id s' = ClientSession.position_id s ->
    active_profile s' = active_profile s /\
    forall x, x ∈ own_handoffs r' -> x.1 = c -> x ∈ own_handoffs r.
Proof.
  induction l as [|[k v] l IH]; intros cs online r Hnd Hl.
  { cbn. split; [done|]. intros. simplify_eq. auto. }
  cbn [foldl sync_turn fst snd]. assert (cs !! k = Some v) as Hk by (apply (Hl (k, v)); left).
  destruct (sync_client_quiet cm k v online r controllers require now) as [Hprofile Htold].
  destruct (sync_client cm controllers require now k v online r) as [[v' online'] r'].
  cbn in Hprofile, Htold. rewrite fmap_cons in Hnd. apply NoDup_cons in Hnd as [Hnin Hnd].
  specialize (IH (<[k := v']> cs) online' r' Hnd). destruct (foldl _ _ l) as [[cs2 online2] r2].
  destruct IH as [Hother Hsame].
  { intros [c s] Hin. cbn. rewrite lookup_insert_ne; [by apply (Hl (c, s)); right|].
    intros ->. apply Hnin, list_elem_of_fmap. by exists (c, s). }
  split.
  - intros c Hc. rewrite fmap_cons, not_elem_of_cons in Hc. destruct Hc as [Hne Hc].
    rewrite Hother by done. by rewrite lookup_insert_ne.
  - intros c s s' Hs Hs' Hpos. destruct (decide (c = k)) as [->|Hne].
    + assert (s = v) as -> by congruence. rewrite Hother, lookup_insert_eq in Hs' by done. simplify_eq.
      split; [by apply Hprofile|]. intros x Hx Hxk.
      destruct (Hsame k s' s') as [_ Hx']; [by rewrite lookup_insert_eq| |done|].
      { by rewrite Hother, lookup_insert_eq. }
      destruct (Htold x (Hx' x Hx Hxk)) as [|[_ ?]]; done.
    + destruct (Hsame c s s') as [H1 H2]; [by rewrite lookup_insert_ne|done|done|].
      split; [done|]. intros x Hx Hxc. destruct (Htold x (H2 x Hx Hxc)) as [|[? _]]; [done|].
      congruence.
Qed.
End views.
