(* ===== verification/ClientRuns.v ===== *)
(** ClientRuns: the runs of the registry, what a client hears during them, what
    it is listed, who has to leave and which positions nobody connected is on:
    the lemmas behind the theorems of ClientProperties. *)
From stdpp Require Import prelude gmap strings list sorting.
From Stdlib Require Import NArith.
From S2P Require Import Prelude Protocol Calls Controllers CoverageErrors Profile.
From S2P Require Import Coverage CoverageLookup CoverageResolve CoverageBuild CoverageProperties.
From S2P Require Import Clients ClientInvariant ClientSteps ClientView.
Import ClientManager.

(** ** Runs *)

(** The operations that change the registry, with what they read from outside:
    the clock, the data feed, the network that is loaded. *)
Inductive Op :=
| OpAdd (info : ClientInfo) (profile : ActiveProfile ProfileId) (now : Instant)
| OpRemove (client_id : ClientId) (reason : option DisconnectReason)
    (feed : option (list ControllerInfo))
| OpSync (controllers : gmap ClientId ControllerInfo) (require_active_connection : bool)
    (now : Instant)
| OpReplace (new_network : Network).

Definition op_ok (op : Op) : Prop :=
  match op with OpReplace n => network_wf n | _ => True end.

Section runs.
Context {HO : HashOrder}.

(** The messages of an operation, and the registry after it. *)
Definition apply_op (cm : ClientManager) (op : Op) : list Event * ClientManager :=
  match op with
  | OpAdd info profile now =>
    let (result, cm) := add_client cm info profile now in
    (match result with Ok events => events | Err _ => [] end, cm)
  | OpRemove client_id reason feed => remove_client cm client_id reason feed
  | OpSync controllers require now =>
    let '(_, events, cm) := sync_vatsim_state cm controllers require now in (events, cm)
  | OpReplace n => replace_network cm n
  end.

Definition run (cm : ClientManager) (ops : list Op) : ClientManager :=
  foldl (λ cm op, (apply_op cm op).2) cm ops.

Lemma apply_op_ok cm op : manager_ok cm -> op_ok op -> manager_ok (apply_op cm op).2.
Proof.
  intros Hok Hop. destruct op as [info profile now|c reason feed|controllers require now|n]; cbn.
  - pose proof (add_client_ok cm info profile now Hok) as H. by destruct (add_client _ _ _ _).
  - by apply remove_client_ok.
  - pose proof (sync_state_ok cm controllers require now Hok) as H. unfold sync_vatsim_state.
    by destruct (sync_state _ _ _ _) as [[sync changes] cm'].
  - pose proof (replace_state_ok cm n Hok Hop) as H. unfold replace_network.
    by destruct (replace_state _ _) as [[updates changes] cm'].
Qed.

Lemma run_ok ops : forall cm, manager_ok cm -> Forall op_ok ops -> manager_ok (run cm ops).
Proof.
  induction ops as [|op ops IH]; intros cm Hok Hops; [done|].
  apply Forall_cons in Hops as [Hop Hops]. apply IH; [by apply apply_op_ok|done].
Qed.

(** ** What a client hears *)

(** Whatever it makes of changes, it is told one list of them that leads from the
    one view to the other. *)
Definition told (c : ClientId) (m : Stations) (events : list Event) (m' : Stations) : Prop :=
  exists changes, leads m changes m' /\
    forall V (h : V -> list StationChange -> V) view, h view [] = view ->
      hear_all_by h c view events = h view changes.

Lemma told_heard c m events m' : told c m events m' -> hear_all c m events = m'.
Proof. intros (changes & [_ _ <-] & H). by apply H. Qed.

Lemma told_nothing c m : told c m [] m.
Proof. exists []. split; [apply leads_nil|]. intros V h view Hh. by symmetry. Qed.

Lemma hear_all_other {V} (h : V -> list StationChange -> V) c view events :
  (forall changes, ToClient c (SM_StationChanges changes) ∉ events) ->
  hear_all_by h c view events = view.
Proof.
  intros H. apply foldl_inert. intros [c' []| |] view' Hin; try done. cbn.
  case_decide; [subst|done]. by destruct (H changes).
Qed.

Lemma hear_all_app {V} (h : V -> list StationChange -> V) c view e1 e2 :
  hear_all_by h c view (e1 ++ e2) = hear_all_by h c (hear_all_by h c view e1) e2.
Proof. apply foldl_app. Qed.

Lemma online_not_empty cs online p : online_ok cs online -> online !! p <> Some ∅.
Proof. intros Hon. rewrite Hon. intros [He Hne]%inhabited_Some. done. Qed.

Lemma add_client_heard cm info profile now c s :
  manager_ok cm -> clients cm !! c = Some s ->
  let (result, cm') := add_client cm info profile now in
  clients cm' !! c = Some s /\
  told c (client_view cm (active_profile s))
    (match result with Ok events => events | Err _ => [] end) (client_view cm' (active_profile s)).
Proof.
  intros Hok Hs. pose proof (add_client_ok cm info profile now Hok) as Hok'.
  unfold add_client in *. case_bool_decide as Hnew; [split; [done|apply told_nothing]|].
  assert (info_id info <> c) as Hne by (intros <-; eauto).
  set (cm0 := with_clients cm _) in *. set (new := ClientSession.new info profile now) in *.
  assert (clients cm0 !! c = Some s) as Hs0 by (cbn; by rewrite lookup_insert_ne).
  assert (exists changes cm1,
    match ClientSession.position_id new with
    | Some p => go_online cm0 (info_id info) p
    | None => ([], cm0)
    end = (changes, cm1) /\ network cm1 = network cm /\ clients cm1 = clients cm0 /\
    leads (visible cm) changes (visible cm1)) as (changes & cm1 & Heq & Hn & Hc & Hv).
  { destruct Hok as [Hwf Hids Hon Hdis Hst]. destruct (ClientSession.position_id new) as [p|].
    - exists (go_online cm0 (info_id info) p).1, (go_online cm0 (info_id info) p).2.
      destruct (go_online_frame cm0 (info_id info) p) as [Hn Hc].
      split; [by destruct (go_online _ _ _)|]. split; [done|]. split; [done|].
      apply (go_online_visible cm0); [done| |done|done]. by eapply online_not_empty.
    - exists [], cm0. split_and!; [done..|exact (leads_nil (visible cm))]. }
  rewrite Heq in *. cbn in Hok'. destruct Hok' as [_ Hids' _ _ _].
  assert (clients cm1 !! c = Some s) as Hs1 by (by rewrite Hc). split; [done|].
  exists (relevant_changes (network cm1) (active_profile s) changes).
  split; [by apply client_view_changed|]. intros V h view Hh.
  unfold hear_all_by. cbn [foldl hear_by]. change (foldl (hear_by h c)) with (hear_all_by h c).
  by apply hear_broadcast.
Qed.

Lemma remove_client_heard cm c0 reason feed c s s' :
  manager_ok cm -> clients cm !! c = Some s ->
  clients (remove_client cm c0 reason feed).2 !! c = Some s' ->
  s' = s /\
  told c (client_view cm (active_profile s)) (remove_client cm c0 reason feed).1
    (client_view (remove_client cm c0 reason feed).2 (active_profile s)).
Proof.
  intros Hok Hs. pose proof (remove_client_ok cm c0 reason feed Hok) as Hok'. revert Hok'.
  unfold remove_client. destruct (clients cm !! c0) as [s0|] eqn:Hc0.
  2:{ cbn. rewrite Hs. intros _ [= ->]. split; [done|apply told_nothing]. }
  set (cm0 := with_clients cm _).
  assert (exists changes cm1,
    match ClientSession.position_id s0 with
    | Some p => go_offline cm0 c0 p feed
    | None => ([], cm0)
    end = (changes, cm1) /\ network cm1 = network cm /\ clients cm1 = clients cm0 /\
    leads (visible cm) changes (visible cm1)) as (changes & cm1 & -> & Hn & Hc & Hv).
  { destruct Hok as [Hwf Hids Hon Hdis Hst]. destruct (ClientSession.position_id s0) as [p|].
    - exists (go_offline cm0 c0 p feed).1, (go_offline cm0 c0 p feed).2.
      split; [by destruct (go_offline _ _ _ _)|].
      split; [|split; [apply go_offline_clients|by apply (go_offline_visible cm0)]].
      unfold go_offline. destruct (_ !! p); [|done]. case_bool_decide; [|done].
      by destruct (mbind _ _).
    - exists [], cm0. split_and!; [done..|exact (leads_nil (visible cm))]. }
  case_bool_decide as Hlast; cbn [fst snd].
  { intros _. cbn. rewrite Hlast, lookup_empty. done. }
  intros [_ Hids' _ _ _] Hs1. pose proof Hs1 as Hs2. rewrite Hc in Hs2. cbn in Hs2.
  apply lookup_delete_Some in Hs2 as [Hne Hs2]. assert (s' = s) as -> by congruence.
  split; [done|]. exists (relevant_changes (network cm1) (active_profile s) changes).
  split; [by apply client_view_changed|]. intros V h view Hh.
  rewrite hear_all_app. etransitivity; [by apply hear_broadcast|done].
Qed.

Lemma compute_self_handoffs_in cm handoffs changes x :
  x ∈ compute_self_handoffs cm handoffs changes -> exists p, (x.1, p) ∈ handoffs.
Proof.
  unfold compute_self_handoffs. intros ([c p] & Hin & Hx)%list_elem_of_omap.
  destruct (get_position (network cm) p) as [position|]; cbn in Hx; [|done].
  destruct (merge_sort _ _); simplify_eq/=. eauto.
Qed.

Lemma sync_state_frame cm controllers require now :
  network (sync_state cm controllers require now).2 = network cm.
Proof.
  unfold sync_state. destruct (sync_client_positions _ _ _ _) as [[cs online] r]. cbv zeta.
  by destruct (positions_changed _).
Qed.

(** A client that keeps its position keeps its profile, and gets no handoffs of
    its own. *)
Lemma sync_state_quiet cm controllers require now c s s' :
  clients cm !! c = Some s ->
  clients (sync_state cm controllers require now).2 !! c = Some s' ->
  ClientSession.position_id s' = ClientSession.position_id s ->
  active_profile s' = active_profile s /\
  forall x, x ∈ own_handoffs (sync_state cm controllers require now).1.1 -> x.1 <> c.
Proof.
  intros Hs. unfold sync_state, sync_client_positions.
  pose proof (sync_loop_quiet cm controllers require now (map_iter (clients cm)) (clients cm)
    (online_positions cm) no_sync (NoDup_fst_map_iter _)) as H.
  destruct (foldl _ _ _) as [[cs online] r].
  destruct H as [_ Hq]; [intros [k v]; apply elem_of_map_iter|]. cbv zeta.
  set (r2 := if negb _ then _ else _). assert (own_handoffs r2 = own_handoffs r) as Hr2
    by (by subst r2; destruct (negb _)).
  intros Hs' Hpos.
  assert (cs !! c = Some s') as Hcs by (by destruct (positions_changed r2)).
  destruct (Hq c s s' Hs Hcs Hpos) as [Hprofile Htold]. split; [done|].
  intros x Hx Hxc.
  assert (x ∈ own_handoffs r) as Hx' by (rewrite <- Hr2; by destruct (positions_changed r2)).
  specialize (Htold x Hx' Hxc). by apply not_elem_of_nil in Htold.
Qed.

Lemma sync_heard cm controllers require now c s s' :
  manager_ok cm -> clients cm !! c = Some s ->
  clients (sync_vatsim_state cm controllers require now).2 !! c = Some s' ->
  ClientSession.position_id s' = ClientSession.position_id s ->
  told c (client_view cm (active_profile s)) (sync_vatsim_state cm controllers require now).1.2
    (client_view (sync_vatsim_state cm controllers require now).2 (active_profile s')).
Proof.
  intros Hok Hs. unfold sync_vatsim_state.
  pose proof (sync_state_ok cm controllers require now Hok) as [_ Hids' _ _ _].
  pose proof (sync_state_visible cm controllers require now Hok) as Hv.
  pose proof (sync_state_frame cm controllers require now) as Hn.
  pose proof (sync_state_quiet cm controllers require now c s s' Hs) as Hq.
  destruct (sync_state _ _ _ _) as [[sync changes] cm']. cbn [fst snd] in *.
  intros Hs' Hpos. destruct (Hq Hs' Hpos) as [Hprofile Htold].
  exists (relevant_changes (network cm') (active_profile s') changes).
  split; [rewrite Hprofile; by apply client_view_changed|]. intros V h view Hh.
  rewrite !app_assoc, hear_all_app. rewrite (hear_all_other h _ _ (_ ++ _)).
  - by apply hear_broadcast.
  - intros l. rewrite !elem_of_app, !list_elem_of_fmap.
    intros [[[(x & Hx & _)|(x & Hx & _)]|(x & Hx & Hin)]|(x & Hx & _)]; simplify_eq.
    apply compute_self_handoffs_in in Hin as [p Hin]. by apply (Htold (x.1, p)).
Qed.
End runs.


(** After every operation but a new network, a client that keeps its position was
    told what leads from its view before to its view after. *)
Lemma op_told {HO : HashOrder} cm op c s s' :
  manager_ok cm -> (forall n, op <> OpReplace n) ->
  clients cm !! c = Some s -> clients (apply_op cm op).2 !! c = Some s' ->
  ClientSession.position_id s' = ClientSession.position_id s ->
  told c (client_view cm (active_profile s)) (apply_op cm op).1
    (client_view (apply_op cm op).2 (active_profile s')).
Proof.
  intros Hok Hop Hs. destruct op as [info profile now|c0 reason feed|controllers require now|n].
  - pose proof (add_client_heard cm info profile now c s Hok Hs) as H. cbn.
    destruct (add_client cm info profile now) as [result cm']. destruct H as [Hs1 Hh]. cbn.
    intros Hs' _. assert (s' = s) as -> by congruence. done.
  - intros Hs' _. by destruct (remove_client_heard cm c0 reason feed c s s' Hok Hs Hs') as [-> ?].
  - pose proof (sync_heard cm controllers require now c s s' Hok Hs) as H. cbn.
    destruct (sync_vatsim_state cm controllers require now) as [[gone events] cm']. exact H.
  - by destruct (Hop n).
Qed.

(** ** Lists *)

Section listing.
Context {HO : HashOrder}.

#[export] Instance station_info_le_trans : Transitive station_info_le.
Proof. intros a b c. apply str_leb_trans. Qed.
#[export] Instance station_info_le_total : Total station_info_le.
Proof. intros a b. apply str_leb_total. Qed.

Lemma client_view_lookup cm profile id q :
  client_view cm profile !! id = Some q <->
  relevant (network cm) profile id /\ online_stations cm !! id = Some q /\
  is_Some (online_positions cm !! q).
Proof.
  unfold client_view, visible, shown. rewrite !map_lookup_filter_Some, elem_of_dom. naive_solver.
Qed.

Definition listed (cm : ClientManager) (self : option PositionId) (id : StationId) :
    option StationInfo :=
  online_stations cm !! id ≫= λ controller,
    if bool_decide (is_Some (online_positions cm !! controller)) then
      Some (mkStationInfo id (bool_decide (self = Some controller)))
    else None.

Lemma listed_Some cm self id info :
  listed cm self id = Some info <-> exists q, online_stations cm !! id = Some q /\
    is_Some (online_positions cm !! q) /\ info = mkStationInfo id (bool_decide (self = Some q)).
Proof.
  unfold listed. destruct (online_stations cm !! id) as [q|]; cbn; [|naive_solver].
  destruct (bool_decide (is_Some _)) eqn:E;
    [apply bool_decide_eq_true in E|apply bool_decide_eq_false in E]; naive_solver.
Qed.

(** The list is the sorted table of the stations that are shown and relevant. *)
Lemma list_stations_eq cm profile self :
  exists ids : list StationId, NoDup ids /\
    (forall id, id ∈ ids -> relevant (network cm) profile id) /\
    (forall id, relevant (network cm) profile id -> is_Some (listed cm self id) -> id ∈ ids) /\
    list_stations cm profile self = merge_sort station_info_le (omap (listed cm self) ids).
Proof.
  unfold list_stations, relevant. destruct (relevant_stations (network cm) profile) as [|ids|].
  - exists (map_keys (online_stations cm)). split; [apply NoDup_fst_map_iter|]. split; [done|].
    split.
    + intros id _ [info (q & Hq & _)%listed_Some]. apply elem_of_map_keys. eauto.
    + f_equal. unfold map_keys.
      assert (forall kv, kv ∈ map_iter (online_stations cm) -> online_stations cm !! kv.1 = Some kv.2)
        as Hl by (intros [k v]; apply elem_of_map_iter).
      induction (map_iter (online_stations cm)) as [|[k v] l IH]; cbn; [done|].
      pose proof (Hl (k, v) (list_elem_of_here _ _)) as Hk. cbn in Hk.
      unfold listed at 1. rewrite Hk. cbn.
      rewrite IH by (intros kv Hkv; apply Hl; by right). by case_bool_decide.
  - exists (set_iter ids). split; [apply NoDup_set_iter|]. split; [by intros id ?%elem_of_set_iter|].
    split; [by intros id ? _; apply elem_of_set_iter|done].
  - exists []. split; [constructor|]. split; [by intros id ?%not_elem_of_nil|]. split; [done|].
    done.
Qed.

Lemma omap_listed_NoDup cm self ids :
  NoDup ids -> NoDup (map station_info_id (omap (listed cm self) ids)).
Proof.
  induction ids as [|id ids IH]; intros Hnd; cbn; [constructor|].
  apply NoDup_cons in Hnd as [Hnin Hnd].
  destruct (listed cm self id) as [info|] eqn:Hi; [|by apply IH]. cbn. apply NoDup_cons.
  split; [|by apply IH]. apply listed_Some in Hi as (q & _ & _ & ->). cbn.
  intros (i & -> & (id' & Hin & (q' & _ & _ & ->)%listed_Some)%list_elem_of_omap)%list_elem_of_fmap.
  done.
Qed.
End listing.

(** ** Who has to leave *)

Section leaving.
Context {HO : HashOrder}.
Context (cm : ClientManager) (controllers : gmap ClientId ControllerInfo).
Context (require_active_connection : bool) (now : Instant).

(** The controller the data feed knows for a client. *)
Definition known_controller (c : ClientId) : option ControllerInfo :=
  controllers !! c ≫= λ controller,
    if bool_decide (facility_type controller = FT_Unknown) then None else Some controller.

Definition in_grace (s : ClientSession) : bool :=
  ClientSession.is_within_position_grace_period s (position_grace_period cm) now.

(** The rule: nobody leaves within the grace period of its connection. A client
    the feed does not know leaves at the second sync that misses it, if active
    connections are required; one the feed knows leaves when its new callsign
    and frequency stand for several positions. *)
Definition has_to_leave (c : ClientId) (s : ClientSession) : option DisconnectReason :=
  if in_grace s then None
  else
    match known_controller c with
    | None =>
      if require_active_connection && pending_disconnect s then Some NoActiveVatsimConnection
      else None
    | Some controller =>
      if bool_decide (display_name (client_info s) = callsign controller)
         && bool_decide (info_frequency (client_info s) = frequency controller) then None
      else
        let positions := find_positions (network cm) (callsign controller) (frequency controller)
          (facility_type controller) in
        if 1 <? length positions then Some (AmbiguousVatsimPosition (map ps_id positions)) else None
    end.

(** The mark of the first miss. *)
Definition missed (c : ClientId) (s : ClientSession) : bool :=
  match known_controller c with
  | Some _ => false
  | None =>
    if require_active_connection && negb (in_grace s) then negb (pending_disconnect s)
    else pending_disconnect s
  end.

Lemma leave_position_disconnected c q online r :
  disconnected_clients (leave_position c q online r).2 = disconnected_clients r.
Proof.
  unfold leave_position. destruct q as [q|]; [|done]. destruct (online !! q) as [present|]; [|done].
  by destruct (size present <=? 1).
Qed.

Lemma join_position_disconnected c q online r :
  disconnected_clients (join_position c q online r).2 = disconnected_clients r.
Proof.
  unfold join_position. destruct q as [q|]; [|done]. cbv zeta. cbn [snd].
  destruct (1 <? size _); [cbn|]; by destruct (_ && _).
Qed.

Lemma update_client_info_updated s controller :
  (ClientSession.update_client_info s controller).1 =
    negb (bool_decide (display_name (client_info s) = callsign controller)
          && bool_decide (info_frequency (client_info s) = frequency controller)) /\
  pending_disconnect (ClientSession.update_client_info s controller).2 = pending_disconnect s.
Proof. unfold ClientSession.update_client_info. by repeat case_bool_decide. Qed.

Lemma update_active_profile_pending s profile n :
  pending_disconnect (ClientSession.update_active_profile s profile n).2 = pending_disconnect s.
Proof.
  unfold ClientSession.update_active_profile.
  destruct (active_profile s), profile; cbn; try done; repeat case_bool_decide; cbn; try done;
    by case_match.
Qed.

Lemma sync_updated_leave c s controller online r :
  let positions := find_positions (network cm) (callsign controller) (frequency controller)
    (facility_type controller) in
  let turn := sync_updated cm c s controller online r in
  disconnected_clients turn.2 = disconnected_clients r ++
    (if 1 <? length positions then [(c, AmbiguousVatsimPosition (map ps_id positions))] else []) /\
  pending_disconnect turn.1.1 = pending_disconnect s.
Proof.
  cbv zeta. unfold sync_updated. set (positions := find_positions _ _ _ _).
  destruct (1 <? length positions); [done|]. rewrite app_nil_r.
  case_bool_decide; cbn [negb]; [done|]. set (s1 := ClientSession.set_position_id s _).
  pose proof (leave_position_disconnected c (ClientSession.position_id s) online r) as H1.
  destruct (leave_position _ _ _ _) as [online1 r1].
  pose proof (join_position_disconnected c (ps_id <$> head positions) online1 r1) as H2.
  destruct (join_position _ _ _ _) as [online2 r2].
  pose proof (update_active_profile_pending s1 (head positions ≫= ps_profile_id) (network cm)) as Hp.
  destruct (ClientSession.update_active_profile _ _ _) as [profile s2]. cbn in *.
  split; [congruence|done].
Qed.

Lemma sync_client_leave c s online r :
  let turn := sync_client cm controllers require_active_connection now c s online r in
  disconnected_clients turn.2 =
    disconnected_clients r ++ option_list (pair c <$> has_to_leave c s) /\
  pending_disconnect turn.1.1 = missed c s.
Proof.
  cbv zeta. unfold sync_client, has_to_leave, missed, in_grace, known_controller.
  set (missing := if require_active_connection then _ else _).
  set (grace := ClientSession.is_within_position_grace_period s (position_grace_period cm) now).
  assert (disconnected_clients missing.2 = disconnected_clients r ++ option_list (pair c <$>
    (if grace then None else if require_active_connection && pending_disconnect s
     then Some NoActiveVatsimConnection else None)) /\
    pending_disconnect missing.1.1 =
      (if require_active_connection && negb grace then negb (pending_disconnect s)
       else pending_disconnect s)) as Hmissing.
  { subst missing grace. unfold disconnect_or_mark_pending.
    destruct require_active_connection; cbn;
      destruct (ClientSession.is_within_position_grace_period _ _ _); cbn; try by rewrite app_nil_r.
    destruct (pending_disconnect s); cbn; [done|by rewrite app_nil_r]. }
  destruct (controllers !! c) as [controller|]; cbn [mbind option_bind]; [|done].
  case_bool_decide; [done|]. cbn [ClientSession.take_pending_disconnect].
  change (ClientSession.is_within_position_grace_period (ClientSession.with_pending s false) _ _)
    with grace.
  destruct grace; [cbn; by rewrite app_nil_r|].
  destruct (update_client_info_updated (ClientSession.with_pending s false) controller) as [Hu Hp].
  destruct (ClientSession.update_client_info _ _) as [updated s1].
  cbn [fst snd ClientSession.with_pending client_info pending_disconnect] in Hu, Hp. rewrite Hu.
  set (same := _ && _) in Hu |- *.
  destruct same; cbn [negb]; [cbn; by rewrite app_nil_r|].
  destruct (sync_updated_leave c s1 controller online r) as [-> ->]. split; [|done].
  by destruct (1 <? length _).
Qed.

Lemma sync_loop_leave l : forall cs online r,
  NoDup l.*1 ->
  let '(cs', _, r') := foldl (sync_turn cm controllers require_active_connection now) (cs, online, r) l in
  disconnected_clients r' =
    disconnected_clients r ++ omap (λ kv, pair kv.1 <$> has_to_leave kv.1 kv.2) l /\
  forall c, if decide (c ∈ l.*1) then
      exists s s', (c, s) ∈ l /\ cs' !! c = Some s' /\ pending_disconnect s' = missed c s
    else cs' !! c = cs !! c.
Proof.
  induction l as [|[k v] l IH]; intros cs online r Hnd.
  { cbn. rewrite app_nil_r. split; [done|]. intros c. by rewrite decide_False by apply not_elem_of_nil. }
  cbn [foldl sync_turn fst snd].
  destruct (sync_client_leave k v online r) as [Hd Hm].
  destruct (sync_client _ _ _ _ k v online r) as [[v' online'] r']. cbn in Hd, Hm.
  rewrite fmap_cons in *. apply NoDup_cons in Hnd as [Hnin Hnd]. cbn [fst] in *.
  specialize (IH (<[k := v']> cs) online' r' Hnd). destruct (foldl _ _ l) as [[cs2 online2] r2].
  destruct IH as [Hd2 Hc]. split.
  - rewrite Hd2, Hd, <- app_assoc. f_equal. cbn. by destruct (has_to_leave k v).
  - intros c. specialize (Hc c). destruct (decide (c = k)) as [->|Hne].
    + rewrite decide_True by left. rewrite decide_False, lookup_insert_eq in Hc by done.
      exists v, v'. split; [left|done].
    + rewrite lookup_insert_ne in Hc by done.
      assert (c ∈ k :: l.*1 <-> c ∈ l.*1) as Hiff by (rewrite elem_of_cons; naive_solver).
      destruct (decide (c ∈ l.*1)) as [Hin|Hin];
        [rewrite decide_True by tauto|rewrite decide_False by tauto]; [|done].
      destruct Hc as (s & s' & Hs & Hs'). exists s, s'. split; [by right|done].
Qed.
End leaving.

(** ** Positions without a client *)

Section vatsim_only.
Context {HO : HashOrder}.
Context (n : Network) (vacs_client_ids : gset ClientId) (online : OnlinePositions).

(** The controller is no client and is on exactly this position, which no
    client is on. *)
Definition works_alone (p : PositionId) (c : ClientId) (controller : ControllerInfo) : Prop :=
  facility_type controller <> FT_Unknown /\ c ∉ vacs_client_ids /\
  (exists position, ps_id position = p /\
    find_positions n (callsign controller) (frequency controller) (facility_type controller)
      = [position]) /\
  p ∉ dom online.

Definition add_alone (table : OnlinePositions) (kv : ClientId * ControllerInfo) : OnlinePositions :=
  let '(c, controller) := kv in
  if bool_decide (facility_type controller = FT_Unknown) || bool_decide (c ∈ vacs_client_ids)
  then table
  else
    match find_positions n (callsign controller) (frequency controller) (facility_type controller)
    with
    | [position] =>
      if negb (bool_decide (is_Some (online !! ps_id position))) then
        <[ps_id position := {[c]} ∪ default ∅ (table !! ps_id position)]> table
      else table
    | _ => table
    end.

Lemma add_alone_spec table c controller :
  (forall p, table !! p <> Some ∅) ->
  (forall p, add_alone table (c, controller) !! p <> Some ∅) /\
  forall p c', c' ∈ default ∅ (add_alone table (c, controller) !! p) <->
    c' ∈ default ∅ (table !! p) \/ c' = c /\ works_alone p c controller.
Proof.
  intros Htable. unfold add_alone, works_alone.
  case_bool_decide; cbn [orb]; [split; [done|naive_solver]|].
  case_bool_decide; cbn [orb]; [split; [done|naive_solver]|].
  destruct (find_positions _ _ _ _) as [|position [|]]; [split; [done|naive_solver]| |
    split; [done|naive_solver]].
  case_bool_decide as Hon; rewrite <- elem_of_dom in Hon; cbn [negb];
    [split; [done|naive_solver]|].
  split; intros p; destruct (decide (p = ps_id position)) as [->|Hne].
  - rewrite lookup_insert_eq. intros [= He]. set_solver.
  - by rewrite lookup_insert_ne.
  - intros c'. rewrite lookup_insert_eq. cbn. rewrite elem_of_union, elem_of_singleton. naive_solver.
  - intros c'. rewrite lookup_insert_ne by done. naive_solver.
Qed.

Lemma rebuild_spec controllers :
  (forall p, rebuild_vatsim_only n controllers vacs_client_ids online !! p <> Some ∅) /\
  forall p c, c ∈ default ∅ (rebuild_vatsim_only n controllers vacs_client_ids online !! p) <->
    exists controller, controllers !! c = Some controller /\ works_alone p c controller.
Proof.
  change (rebuild_vatsim_only n controllers vacs_client_ids online)
    with (foldl add_alone ∅ (map_iter controllers)).
  enough (forall l table, (forall p, table !! p <> Some ∅) ->
    (forall p, foldl add_alone table l !! p <> Some ∅) /\
    forall p c, c ∈ default ∅ (foldl add_alone table l !! p) <-> c ∈ default ∅ (table !! p) \/
      exists controller, (c, controller) ∈ l /\ works_alone p c controller) as H.
  { destruct (H (map_iter controllers) ∅) as [H1 H2]; [intros p; by rewrite lookup_empty|].
    split; [done|]. intros p c. rewrite H2, lookup_empty. setoid_rewrite elem_of_map_iter. set_solver. }
  induction l as [|[k controller] l IH]; intros table Htable; cbn [foldl].
  { split; [done|]. intros p c. setoid_rewrite elem_of_nil. naive_solver. }
  destruct (add_alone_spec table k controller Htable) as [Htable' Hk].
  destruct (IH _ Htable') as [H1 H2]. split; [done|]. intros p c. rewrite H2, Hk.
  setoid_rewrite elem_of_cons. naive_solver.
Qed.
End vatsim_only.
