(* ===== verification/ClientProperties.v ===== *)
(** ClientProperties: the theorems about the registry of the clients, and a
    small registry on which they are tried. *)
From stdpp Require Import prelude gmap strings list sorting.
From Stdlib Require Import NArith.
From S2P Require Import Prelude Protocol Calls Controllers CoverageErrors Profile.
From S2P Require Import Coverage CoverageLookup CoverageResolve CoverageBuild CoverageProperties.
From S2P Require Import Clients ClientInvariant ClientSteps ClientView ClientRuns.
Import ClientManager.

(** ** A small registry *)

Definition anna : ClientId := ClientId_from "1000001".
Definition berta : ClientId := ClientId_from "1000002".

(** Anna is on the centre, Berta connects as the approach. *)
Definition anna_info : ClientInfo := mkClientInfo anna "LOVV_CTR" "132.600" (Some ctr).
Definition berta_info : ClientInfo := mkClientInfo berta "LOWW_APP" "134.675" (Some app).

Definition berta_connects : Op := OpAdd berta_info Custom 50.

Definition anna_session : ClientSession := ClientSession.new anna_info Custom 0.

(** The network says that both work the centre. *)
Definition both_centre : gmap ClientId ControllerInfo :=
  list_to_map
    [(anna, mkControllerInfo anna "LOVV_CTR" "132.600" Enroute None);
     (berta, mkControllerInfo berta "LOVV_1_CTR" "132.600" Enroute None)].

Definition with_anna : ClientManager :=
  @run listed_order (new demo_network 10 5) [OpAdd anna_info Custom 0].

Definition with_both : ClientManager := @run listed_order with_anna [berta_connects].

Lemma with_anna_ok : manager_ok with_anna.
Proof. apply run_ok; [by apply new_ok, demo_network_wf|by repeat constructor]. Qed.

Lemma with_both_ok : manager_ok with_both.
Proof. apply run_ok; [apply with_anna_ok|by repeat constructor]. Qed.

(** ** Properties *)

(** C18: the tables of the registry agree on every run. Whatever the clients,
    the data feed and the clock do, from the start and through every connection,
    disconnection, synchronisation and replaced network: every session is filed
    under its own identifier, a position is online with exactly the clients
    whose session is on it and never with none, no position is both a client's
    and VATSIM-only, and the table of the stations is the coverage of all
    positions that are online. *)
Theorem registry_invariant {HO : HashOrder} n grace max ops :
  network_wf n -> Forall op_ok ops -> manager_ok (run (new n grace max) ops).
Proof. intros Hwf Hops. apply run_ok; [by apply new_ok|done]. Qed.

Lemma registry_invariant_witness :
  manager_ok (@run listed_order (new demo_network 10 5)
    [OpAdd anna_info Custom 0; berta_connects; OpSync both_centre true 100;
     OpRemove anna None (Some []); OpReplace demo_network]).
Proof.
  apply (@registry_invariant listed_order demo_network 10 5).
  - exact demo_network_wf.
  - repeat (apply List.Forall_cons; [first [exact I|exact demo_network_wf]|]). apply List.Forall_nil.
Defined.

(** The stations a client shows follow what it may call. A client that
    shows the stations it may call, and keeps its position, still does after
    somebody connects or disconnects or the positions follow the network, if it
    applies the changes it is sent in their order: stations that a controller
    without the program takes over disappear, and those it gives back return. *)
Theorem station_view_followed {HO : HashOrder} cm op c s s' :
  manager_ok cm -> (forall n, op <> OpReplace n) ->
  clients cm !! c = Some s -> clients (apply_op cm op).2 !! c = Some s' ->
  ClientSession.position_id s' = ClientSession.position_id s ->
  hear_all c (client_view cm (active_profile s)) (apply_op cm op).1 =
  client_view (apply_op cm op).2 (active_profile s').
Proof.
  intros Hok Hop Hs Hs' Hpos. by apply told_heard, op_told.
Qed.

(** Anna loses the approach to Berta, and the tower with it. *)
Lemma station_view_followed_witness :
  hear_all anna (client_view with_anna (active_profile anna_session))
    (@apply_op listed_order with_anna berta_connects).1
    = client_view with_both (active_profile anna_session) /\
  client_view with_anna Custom !! twr_station = Some ctr /\
  client_view with_both Custom !! twr_station = Some app.
Proof.
  split; [|split; vm_compute; reflexivity].
  apply (@station_view_followed listed_order with_anna berta_connects anna anna_session anna_session).
  - exact with_anna_ok.
  - discriminate.
  - vm_compute. reflexivity.
  - vm_compute. reflexivity.
  - reflexivity.
Defined.

(** Who answers for a station. A call to a station goes to the clients
    on a position that may control it and before which the station lists no
    position that is online, whether a client or another controller is on it. *)
Theorem clients_for_station_spec cm st c :
  manager_ok cm ->
  c ∈ clients_for_station cm st <->
  exists station before after p s,
    stations (network cm) !! st = Some station /\ st_controlled_by station = before ++ p :: after /\
    (forall q, q ∈ before -> q ∉ all_online_positions cm) /\
    clients cm !! c = Some s /\ ClientSession.position_id s = Some p.
Proof.
  intros [Hwf Hids Hon Hdis Hst]. unfold clients_for_station, clients_for_position.
  rewrite Hst, lookup_coverage. split.
  - destruct (stations (network cm) !! st ≫= _) as [p|] eqn:Hp; [|set_solver].
    apply first_online_spec in Hp as (station & before & after & Hs & Hby & _ & Hb).
    rewrite Hon, default_inhabited, elem_of_clients_at. intros (s & Hc & Hpos).
    exists station, before, after, p, s. done.
  - intros (station & before & after & p & s & Hs & Hby & Hb & Hc & Hpos).
    assert (c ∈ clients_at (clients cm) p) as Hin by (apply elem_of_clients_at; eauto).
    assert (p ∈ dom (online_positions cm)) as Hp
      by (apply (online_dom _ _ _ Hon); set_solver).
    assert (stations (network cm) !! st ≫= first_online (all_online_positions cm) = Some p) as ->.
    { apply first_online_spec. exists station, before, after. unfold all_online_positions in *.
      set_solver. }
    by rewrite Hon, default_inhabited.
Qed.

Lemma clients_for_station_spec_witness :
  manager_ok with_both /\ berta ∈ clients_for_station with_both twr_station.
Proof.
  split; [exact with_both_ok|].
  apply (clients_for_station_spec with_both twr_station berta with_both_ok).
  exists (mkStation twr_station (Some app_station) [twr; app; ctr] (FirId_from "LOVV")), [twr], [ctr],
    app, (ClientSession.new berta_info Custom 50).
  split; [vm_compute; reflexivity|]. split; [reflexivity|]. split.
  - intros q ->%list_elem_of_singleton. apply (bool_decide_unpack _). vm_compute. exact I.
  - split; [vm_compute; reflexivity|reflexivity].
Defined.

(** The list of the stations. It names, sorted and each once, exactly the
    stations that the profile is concerned with and that another client may be
    called at, and says which of them the client's own position controls. *)
Theorem list_stations_spec {HO : HashOrder} cm profile self :
  let list := list_stations cm profile self in
  StronglySorted station_info_le list /\ NoDup (map station_info_id list) /\
  forall info, info ∈ list <-> exists q,
    client_view cm profile !! station_info_id info = Some q /\
    own info = bool_decide (self = Some q).
Proof.
  cbv zeta. destruct (list_stations_eq cm profile self) as (ids & Hnd & Hrel & Hall & ->).
  split; [apply (StronglySorted_merge_sort _)|]. split.
  { rewrite merge_sort_Permutation. by apply omap_listed_NoDup. }
  intros info. rewrite merge_sort_in, list_elem_of_omap. setoid_rewrite client_view_lookup. split.
  - intros (id & Hid & (q & Hq & Hon & ->)%listed_Some). exists q. cbn. auto.
  - intros (q & (Hr & Hq & Hon) & Hown). exists (station_info_id info).
    assert (listed cm self (station_info_id info) = Some info) as Hl.
    { apply listed_Some. exists q. split; [done|]. split; [done|]. destruct info. cbn in *. by subst. }
    split; [|done]. apply Hall; [done|]. by rewrite Hl.
Qed.

(** The cache of the broadcast is invisible. The clients are sent the
    changes their profile is concerned with, and those for whom there are none
    are sent nothing. *)
Theorem broadcast_station_changes_spec {HO : HashOrder} cm changes :
  broadcast_station_changes cm changes =
  omap (λ s,
    match filter (λ c, relevant (network cm) (active_profile s) (change_station_id c)) changes with
    | [] => None
    | told => Some (ToClient (ClientSession.id s) (SM_StationChanges told))
    end) (map_values (clients cm)).
Proof.
  unfold broadcast_station_changes. destruct changes as [|c changes].
  { induction (map_values (clients cm)) as [|s l IH]; [done|]. by cbn. }
  rewrite broadcast_loop_spec by done. apply omap_ext_in. intros s _. by rewrite relevant_changes_filter.
Qed.

(** Who is disconnected by a synchronisation. The clients that have to
    leave are exactly those the rule names: outside the grace period, missed by
    the network twice in a row where an active connection is required, or on a
    new callsign or frequency that stands for several positions. A miss is marked
    on the session and the mark is taken away as soon as the network knows the
    client again. *)
Theorem sync_disconnects {HO : HashOrder} cm controllers require now :
  let '(disconnected, _, cm') := sync_vatsim_state cm controllers require now in
  disconnected =
    omap (λ kv, pair kv.1 <$> has_to_leave cm controllers require now kv.1 kv.2)
      (map_iter (clients cm)) /\
  forall c s, clients cm !! c = Some s -> exists s', clients cm' !! c = Some s' /\
    pending_disconnect s' = missed cm controllers require now c s.
Proof.
  unfold sync_vatsim_state, sync_state, sync_client_positions.
  pose proof (sync_loop_leave cm controllers require now (map_iter (clients cm)) (clients cm)
    (online_positions cm) no_sync (NoDup_fst_map_iter _)) as H.
  destruct (foldl _ _ _) as [[cs online] r]. destruct H as [Hd Hc]. cbv zeta.
  set (r2 := if negb _ then _ else _).
  assert (disconnected_clients r2 = disconnected_clients r) as Hr2 by (by subst r2; destruct (negb _)).
  cbn in Hd. assert (forall c s, clients cm !! c = Some s -> exists s', cs !! c = Some s' /\
    pending_disconnect s' = missed cm controllers require now c s) as Hmiss.
  { intros c s Hs. specialize (Hc c). rewrite decide_True in Hc.
    - destruct Hc as (s0 & s' & Hin%elem_of_map_iter & Hs' & Hp). exists s'. split; [done|].
      by assert (s0 = s) as <- by congruence.
    - apply list_elem_of_fmap. exists (c, s). split; [done|]. by apply elem_of_map_iter. }
  destruct (positions_changed r2); cbn; (split; [by rewrite Hr2, Hd|exact Hmiss]).
Qed.

(** The VATSIM-only positions. A controller stands in for a position if it
    is no client, its facility is known, its callsign and frequency stand for
    that position alone and no client is on it; no position is listed without
    a controller. *)
Theorem rebuild_vatsim_only_spec {HO : HashOrder} n controllers ids online :
  (forall p, rebuild_vatsim_only n controllers ids online !! p <> Some ∅) /\
  forall p c, c ∈ default ∅ (rebuild_vatsim_only n controllers ids online !! p) <->
    exists controller, controllers !! c = Some controller /\
      works_alone n ids online p c controller.
Proof. apply rebuild_spec. Qed.

(** ** Where a client is left with a station nobody answers *)

Definition carla : ClientId := ClientId_from "1000003".
Definition dora : ClientId := ClientId_from "1000004".

Definition anna_observes : ClientInfo := mkClientInfo anna "LO_OBS" "199.998" None.

(** The approach is closed: its station stays, inherited by the centre. *)
Definition without_approach : FlightInformationRegionRaw :=
  mkFirRaw (FirId_from "LOVV")
    [demo_station "LOWW_TWR" (Some "LOWW_APP"%string) ["LOWW_TWR"%string];
     demo_station "LOWW_APP" (Some "LOVV_CTR"%string) [];
     demo_station "LOVV_CTR" None ["LOVV_CTR"%string]]
    [demo_position "LOWW_TWR" "119.400" Tower; demo_position "LOVV_CTR" "132.600" Enroute]
    ∅.

Definition smaller_network : Network :=
  match @build_network listed_order any_frequency [] [without_approach] with
  | Ok n => n
  | Err _ => mkNetwork ∅ ∅ ∅ ∅
  end.

Definition before_reload : ClientManager :=
  @run listed_order (new demo_network 10 5)
    [OpAdd anna_observes Custom 0; OpAdd berta_info Custom 0;
     OpSync {[carla := mkControllerInfo carla "LOVV_CTR" "132.600" Enroute None]} false 1].

(** [replace_network] looks for the position that held a station among the
    positions left after the stale ones are gone: the station of a client whose
    position is not in the new network, and which a VATSIM-only position
    inherits, is not reported, and the others keep showing it. *)
Theorem replace_network_keeps_ghost :
  client_view before_reload Custom !! app_station = Some app /\
  let (events, after) := @apply_op listed_order before_reload (OpReplace smaller_network) in
  hear_all anna (client_view before_reload Custom) events !! app_station = Some app /\
  client_view after Custom !! app_station = None /\ clients_for_station after app_station = ∅.
Proof. vm_compute. auto. Qed.

(** Anna and Berta share the approach, the tower and the approach are worked by
    others as well. *)
Definition shared_approach : ClientManager :=
  @run listed_order (new demo_network 10 5)
    [OpAdd (mkClientInfo anna "LOWW_APP" "134.675" (Some app)) Custom 0;
     OpAdd berta_info Custom 0;
     OpSync {[carla := mkControllerInfo carla "LOWW_TWR" "119.400" Tower None]} false 1].

Definition both_move : gmap ClientId ControllerInfo :=
  <[dora := mkControllerInfo dora "LOWW_APP" "134.675" Approach None]> both_centre.

(** When all clients leave a position in one synchronisation and it stays online
    without them, the handoff meant for those who stay behind names it
    to one who left: a station that the position has just inherited from another
    VATSIM-only position appears, and nobody can be called there. *)
Theorem departure_handoff_ghost :
  let '(_, events, after) :=
    @sync_vatsim_state listed_order shared_approach both_move false 100 in
  ToClient anna (SM_StationChanges [Handoff twr_station app app]) ∈ events /\
  visible after !! twr_station = None /\ clients_for_station after twr_station = ∅.
Proof.
  vm_compute. split; [|auto]. do 4 apply list_elem_of_further. apply list_elem_of_here.
Qed.
