(* ===== verification/Playback.v ===== *)
(** Playback: recording of what is received on the radio, in
    [vacs-client/src/playback]: the segmentation of the taps into clips
    ([fsm.rs]), the store of the clips ([storage.rs]) and the recorder that
    turns the requests of the first into files of the second ([recorder.rs]).

    Instants, wall-clock times and durations are numbers of nanoseconds. The
    directory of the clips is the set of the names in it. Whether the writer of
    a file can be created, and the length it measured when it is finalized, are
    parameters; samples are the bits of the numbers the source delivers. *)
From stdpp Require Import prelude gmap strings list pretty.
From Stdlib Require Import Ascii NArith.
From S2P Require Import Prelude Calls.

Abbreviation SystemTime := N.
Abbreviation Frequency := N.
Abbreviation Samples := (list N).

Definition U64_MAX : N := 18446744073709551615.
Definition U32_MAX : N := 4294967295.

Definition from_millis (ms : N) : Duration := (ms * 1000000)%N.
Definition from_secs (s : N) : Duration := (s * 1000000000)%N.
Definition as_millis (d : Duration) : N := (d / 1000000)%N.

(** [SystemTime::checked_add]: the seconds are a signed 64-bit number. *)
Definition checked_add (t : SystemTime) (d : Duration) : option SystemTime :=
  if ((t + d) / 1000000000 <? 9223372036854775808)%N then Some (t + d)%N else None.

(** ** Data ([playback.rs]) *)

Inductive TapId := TapFrequency (f : Frequency) | Headset | Speaker | Merged.

#[export] Instance TapId_eq_dec : EqDecision TapId.
Proof. solve_decision. Defined.
#[export] Instance TapId_countable : Countable TapId.
Proof.
  by apply (inj_countable'
    (λ t, match t with
          | TapFrequency f => inl f | Headset => inr 0 | Speaker => inr 1 | Merged => inr 2 end)
    (λ c, match c with
          | inl f => TapFrequency f | inr 0 => Headset | inr 1 => Speaker | inr _ => Merged end));
  intros [].
Defined.

Record Transmitter := mkTransmitter { tm_callsign : string; tm_frequency : Frequency }.

#[export] Instance Transmitter_eq_dec : EqDecision Transmitter.
Proof. solve_decision. Defined.
#[export] Instance Transmitter_countable : Countable Transmitter.
Proof.
  by apply (inj_countable' (λ t, (tm_callsign t, tm_frequency t)) (λ p, mkTransmitter p.1 p.2));
  intros [].
Defined.

Inductive RecordingMode := Mixed | PerTap.

Record PlaybackConfig := mkPlaybackConfig {
  enabled : bool;
  max_clips : nat;
  hangover_ms : N;
  max_clip_duration_s : N
}.

(** [PlaybackConfig::default] *)
Definition default_config : PlaybackConfig := mkPlaybackConfig false 15 250 90.

(** [source.rs] *)
Inductive PlaybackSourceEvent :=
| TapOpened (tap : TapId) (sample_rate channels : N)
| TapClosed (tap : TapId)
| Frame (tap : TapId) (samples : Samples) (captured_at : Instant)
| RxBegin (tap : TapId) (callsign : string) (frequency : Frequency)
| RxEnd (callsign : string) (frequency : Frequency) (active_transmitters : option (list string)).

(** ** Segmentation ([fsm.rs]) *)

Inductive FsmAction :=
| OpenClipAction (clip_id : N) (tap : TapId) (sample_rate channels : N) (callsigns : gset string)
    (frequency : option Frequency) (started_at : SystemTime)
| WriteFrame (clip_id : N) (samples : Samples)
| CloseClip (clip_id : N) (callsigns : gset string) (ended_at : SystemTime) (duration_ms : N).

Record OpenClip := mkOpenClip {
  oc_clip_id : N;
  oc_started_at : Instant;
  oc_started_at_wall : SystemTime;
  oc_last_audio_at : Instant;
  oc_transmitters : gset Transmitter;
  oc_callsigns : gset string;
  oc_frequency : option Frequency
}.

Record TapState := mkTapState {
  ts_sample_rate : N;
  ts_channels : N;
  ts_open : option OpenClip
}.

Record Fsm := mkFsm {
  fsm_mode : RecordingMode;
  hangover : Duration;
  max_clip_duration : Duration;
  taps : gmap TapId TapState;
  next_clip_id : N
}.

Module Fsm.
Definition new (config : PlaybackConfig) (mode : RecordingMode) : Fsm :=
  mkFsm mode (from_millis (hangover_ms config)) (from_secs (max_clip_duration_s config)) ∅ 1.

Definition with_taps (m : Fsm) (t : gmap TapId TapState) : Fsm :=
  mkFsm (fsm_mode m) (hangover m) (max_clip_duration m) t (next_clip_id m).

(** [self.next_clip_id += 1] *)
Definition take_clip_id (m : Fsm) : N * Fsm :=
  (next_clip_id m,
   mkFsm (fsm_mode m) (hangover m) (max_clip_duration m) (taps m) (next_clip_id m + 1)).

Definition map_tap (m : Fsm) (tap : TapId) : TapId :=
  match fsm_mode m with Mixed => Merged | PerTap => tap end.

Definition with_open (entry : TapState) (open : option OpenClip) : TapState :=
  mkTapState (ts_sample_rate entry) (ts_channels entry) open.

Definition close_open_clip (entry : TapState) (now : Instant) (now_wall : SystemTime) :
    list FsmAction * TapState :=
  match ts_open entry with
  | None => ([], entry)
  | Some open =>
    let duration_ms := N.min (as_millis (duration_since now (oc_started_at open))) U64_MAX in
    let ended_at := default now_wall (checked_add (oc_started_at_wall open) (from_millis duration_ms)) in
    ([CloseClip (oc_clip_id open) (oc_callsigns open) ended_at duration_ms], with_open entry None)
  end.

Definition on_tap_opened (m : Fsm) (tap : TapId) (sample_rate channels : N) (now : Instant)
    (now_wall : SystemTime) : list FsmAction * Fsm :=
  let key := map_tap m tap in
  let entry := default (mkTapState sample_rate channels None) (taps m !! key) in
  if negb (bool_decide (ts_sample_rate entry = sample_rate))
     || negb (bool_decide (ts_channels entry = channels)) then
    let (actions, entry) := close_open_clip entry now now_wall in
    (actions, with_taps m (<[key := mkTapState sample_rate channels (ts_open entry)]> (taps m)))
  else ([], with_taps m (<[key := entry]> (taps m))).

Definition on_tap_closed (m : Fsm) (tap : TapId) (now : Instant) (now_wall : SystemTime) :
    list FsmAction * Fsm :=
  let key := map_tap m tap in
  let actions :=
    match taps m !! key with
    | Some entry => (close_open_clip entry now now_wall).1
    | None => []
    end in
  (actions, with_taps m (delete key (taps m))).

Definition on_frame (m : Fsm) (tap : TapId) (samples : Samples) (captured_at : Instant)
    (now_wall : SystemTime) : list FsmAction * Fsm :=
  let key := map_tap m tap in
  match taps m !! key with
  | None => ([], m)
  | Some entry =>
    match ts_open entry with
    | None => ([], m)
    | Some open =>
      let open := mkOpenClip (oc_clip_id open) (oc_started_at open) (oc_started_at_wall open)
        (if negb (bool_decide (oc_transmitters open = ∅)) then captured_at else oc_last_audio_at open)
        (oc_transmitters open) (oc_callsigns open) (oc_frequency open) in
      let entry := with_open entry (Some open) in
      let write := WriteFrame (oc_clip_id open) samples in
      if (max_clip_duration m <=? duration_since captured_at (oc_started_at open))%N then
        let (closed, entry) := close_open_clip entry captured_at now_wall in
        let (clip_id, m) := take_clip_id m in
        let entry := with_open entry (Some
          (mkOpenClip clip_id captured_at now_wall captured_at (oc_transmitters open)
            (oc_callsigns open) (oc_frequency open))) in
        (write :: closed ++
           [OpenClipAction clip_id key (ts_sample_rate entry) (ts_channels entry)
              (oc_callsigns open) (oc_frequency open) now_wall],
         with_taps m (<[key := entry]> (taps m)))
      else ([write], with_taps m (<[key := entry]> (taps m)))
    end
  end.

Definition on_rx_begin (m : Fsm) (tap : TapId) (callsign : string) (frequency : Frequency)
    (now : Instant) (now_wall : SystemTime) : list FsmAction * Fsm :=
  let key := map_tap m tap in
  match taps m !! key with
  | None => ([], m)
  | Some entry =>
    match ts_open entry with
    | Some open =>
      let open := mkOpenClip (oc_clip_id open) (oc_started_at open) (oc_started_at_wall open) now
        ({[mkTransmitter callsign frequency]} ∪ oc_transmitters open)
        ({[callsign]} ∪ oc_callsigns open) (oc_frequency open) in
      ([], with_taps m (<[key := with_open entry (Some open)]> (taps m)))
    | None =>
      let (clip_id, m) := take_clip_id m in
      let open := mkOpenClip clip_id now now_wall now {[mkTransmitter callsign frequency]}
        {[callsign]} (Some frequency) in
      ([OpenClipAction clip_id key (ts_sample_rate entry) (ts_channels entry) {[callsign]}
          (Some frequency) now_wall],
       with_taps m (<[key := with_open entry (Some open)]> (taps m)))
    end
  end.

(** The transmitters a clip is left with when one of them ends. *)
Definition still_active (callsign : string) (frequency : Frequency)
    (active : option (gset string)) (transmitters : gset Transmitter) : gset Transmitter :=
  let rest := transmitters ∖ {[mkTransmitter callsign frequency]} in
  match active with
  | None => rest
  | Some active =>
    filter (λ t, tm_frequency t <> frequency \/ tm_callsign t ∈ active) rest
  end.

Definition on_rx_end (m : Fsm) (callsign : string) (frequency : Frequency)
    (active_transmitters : option (list string)) : Fsm :=
  let active := list_to_set (C := gset string) <$> active_transmitters in
  with_taps m
    ((λ entry,
      with_open entry
        ((λ open, mkOpenClip (oc_clip_id open) (oc_started_at open) (oc_started_at_wall open)
           (oc_last_audio_at open) (still_active callsign frequency active (oc_transmitters open))
           (oc_callsigns open) (oc_frequency open)) <$> ts_open entry)) <$> taps m).

Definition on_event (m : Fsm) (event : PlaybackSourceEvent) (now : Instant) (now_wall : SystemTime) :
    list FsmAction * Fsm :=
  match event with
  | TapOpened tap sample_rate channels => on_tap_opened m tap sample_rate channels now now_wall
  | TapClosed tap => on_tap_closed m tap now now_wall
  | Frame tap samples captured_at => on_frame m tap samples captured_at now_wall
  | RxBegin tap callsign frequency => on_rx_begin m tap callsign frequency now now_wall
  | RxEnd callsign frequency active => ([], on_rx_end m callsign frequency active)
  end.

(** The condition under which [tick] closes the clip of a tap. *)
Definition should_close (m : Fsm) (entry : TapState) (now : Instant) : bool :=
  match ts_open entry with
  | None => false
  | Some open =>
    bool_decide (oc_transmitters open = ∅) && (oc_last_audio_at open + hangover m <=? now)%N
  end.

Definition tick {HO : HashOrder} (m : Fsm) (now : Instant) (now_wall : SystemTime) :
    list FsmAction * Fsm :=
  let (t, actions) :=
    map_retain (λ _ entry actions,
      if should_close m entry now then
        let (closed, entry) := close_open_clip entry now now_wall in
        (Some entry, actions ++ closed)
      else (Some entry, actions)) (taps m) [] in
  (actions, with_taps m t).
End Fsm.

(** ** The store ([storage.rs]) *)

Record ClipMeta := mkClipMeta {
  cm_id : N;
  cm_path : string;
  cm_callsigns : gset string;
  cm_frequency : option Frequency;
  cm_started_at : SystemTime;
  cm_ended_at : SystemTime;
  cm_duration_ms : N
}.

(** The names in the directory of the clips. *)
Abbreviation Files := (gset string).

Record ClipStore := mkClipStore { store_max_clips : nat; clips : list ClipMeta }.

(** [Frequency::as_khz], of the crate the frequencies come from *)
Class FrequencyKhz := as_khz : Frequency -> N.

(** Its value in hertz, [u64::from] *)
Class FrequencyHz := as_hz : Frequency -> N.

Module ClipStore.
Definition filename_token {FK : FrequencyKhz} (tap : TapId) : string :=
  match tap with
  | TapFrequency f => "freq-" +:+ pretty (as_khz f)
  | Headset => "headset"
  | Speaker => "speaker"
  | Merged => "merged"
  end.

(** [format!("{base}-{n}.{ext}")] *)
Definition candidate (base ext : string) (n : N) : string :=
  base +:+ "-" +:+ pretty n +:+ "." +:+ ext.

(** [for n in 1..u32::MAX]: the first candidate that is free. The loop has met
    only names in the directory before, so it needs one turn more than the
    directory has names. *)
Fixpoint first_free (fuel : nat) (files : Files) (base ext : string) (n : N) : option string :=
  match fuel with
  | O => None
  | S fuel =>
    if (n <? U32_MAX)%N then
      if bool_decide (candidate base ext n ∈ files) then first_free fuel files base ext (n + 1)
      else Some (candidate base ext n)
    else None
  end.

Definition unique_path (files : Files) (base ext : string) : string :=
  let first := base +:+ "." +:+ ext in
  if negb (bool_decide (first ∈ files)) then first
  else default first (first_free (S (size files)) files base ext 1).

Definition starts_with_clip (name : string) : bool := String.prefix "clip-" name.
Definition ends_with_wav (name : string) : bool :=
  bool_decide (String.substring (String.length name - 4) 4 name = ".wav").

(** [ClipStore::open]: the clips of an earlier session are deleted. *)
Definition open (files : Files) (max : nat) : ClipStore * Files :=
  (mkClipStore max [], filter (λ name, ~ (starts_with_clip name && ends_with_wav name)) files).

Definition allocate {FK : FrequencyKhz} (files : Files) (tap : TapId) (started_at : SystemTime) :
    string :=
  unique_path files ("clip-" +:+ pretty (as_millis started_at) +:+ "-" +:+ filename_token tap) "wav".

Definition remove_file (files : Files) (meta : ClipMeta) : Files := files ∖ {[cm_path meta]}.

(** [while self.clips.len() > self.max_clips], from the front *)
Fixpoint evict (max : nat) (l : list ClipMeta) (files : Files) (evicted : list ClipMeta) :
    list ClipMeta * Files * list ClipMeta :=
  match l with
  | meta :: rest =>
    if max <? length l then evict max rest (remove_file files meta) (evicted ++ [meta])
    else (l, files, evicted)
  | [] => (l, files, evicted)
  end.

Definition evict_overflow (s : ClipStore) (files : Files) : list ClipMeta * ClipStore * Files :=
  let '(l, files, evicted) := evict (store_max_clips s) (clips s) files [] in
  (evicted, mkClipStore (store_max_clips s) l, files).

Definition commit (s : ClipStore) (files : Files) (meta : ClipMeta) :
    list ClipMeta * ClipStore * Files :=
  evict_overflow (mkClipStore (store_max_clips s) (clips s ++ [meta])) files.

Definition discard (files : Files) (path : string) : Files := files ∖ {[path]}.

Definition list_clips (s : ClipStore) : list ClipMeta := reverse (clips s).

Definition get (s : ClipStore) (id : N) : option ClipMeta :=
  list_find_map (λ c, if bool_decide (cm_id c = id) then Some c else None) (clips s).

Definition latest (s : ClipStore) : option ClipMeta := last (clips s).

(** [position] and [remove]: the first clip of that identifier. *)
Fixpoint take_clip (id : N) (l : list ClipMeta) : option (ClipMeta * list ClipMeta) :=
  match l with
  | [] => None
  | c :: l =>
    if bool_decide (cm_id c = id) then Some (c, l)
    else '(found, rest) ← take_clip id l; Some (found, c :: rest)
  end.

Definition delete_clip (s : ClipStore) (files : Files) (id : N) : bool * ClipStore * Files :=
  match take_clip id (clips s) with
  | None => (false, s, files)
  | Some (meta, l) => (true, mkClipStore (store_max_clips s) l, remove_file files meta)
  end.

Definition clear (s : ClipStore) (files : Files) : ClipStore * Files :=
  (mkClipStore (store_max_clips s) [], foldl remove_file files (clips s)).

(** [{khz:03}] *)
Definition pad3 (n : N) : string :=
  (if n <? 10 then "00" else if n <? 100 then "0" else "")%N +:+ pretty n.

Definition format_frequency_mhz {FH : FrequencyHz} (freq : Frequency) : string :=
  let hz := as_hz freq in
  pretty (hz / 1000000)%N +:+ "." +:+ pad3 ((hz mod 1000000) / 1000)%N.

Definition safe_char (c : ascii) : ascii :=
  let n := nat_of_ascii c in
  if (48 <=? n) && (n <=? 57) || (65 <=? n) && (n <=? 90) || (97 <=? n) && (n <=? 122)
     || (n =? 95) || (n =? 45)
  then c else "_"%char.

(** Characters, in the bytes of UTF-8: the bytes that continue a character are
    part of the underscore its first byte became. *)
Fixpoint sanitize (s : string) : string :=
  match s with
  | EmptyString => EmptyString
  | String c s =>
    let n := nat_of_ascii c in
    if (128 <=? n) && (n <? 192) then sanitize s else String (safe_char c) (sanitize s)
  end.

(** [export]: [saved] are the names in the directory the clip is copied to; the
    answer is the name of the copy and the directory after it. *)
Definition export {HO : HashOrder} {FH : FrequencyHz} (s : ClipStore) (id : N) (saved : Files) :
    option (string * Files) :=
  meta ← get s id;
  let unix_ms := pretty (as_millis (cm_started_at meta)) in
  let callsigns :=
    if bool_decide (cm_callsigns meta = ∅) then "unknown"
    else String.concat "-" (set_iter (cm_callsigns meta)) in
  let safe_callsigns := sanitize callsigns in
  let base :=
    match cm_frequency meta with
    | Some freq =>
      "playback-" +:+ unix_ms +:+ "-" +:+ format_frequency_mhz freq +:+ "-" +:+ safe_callsigns
    | None => "playback-" +:+ unix_ms +:+ "-" +:+ safe_callsigns
    end in
  let target := unique_path saved base "wav" in
  Some (target, {[target]} ∪ saved).
End ClipStore.

(** ** The recorder ([recorder.rs]) *)

(** The file a clip is written to. *)
Record OpenFile := mkOpenFile {
  of_path : string;
  of_callsigns : gset string;
  of_frequency : option Frequency;
  of_started_at : SystemTime;
  of_written : list Samples
}.

Record Recorder := mkRecorder {
  rec_fsm : Fsm;
  rec_open : gmap N OpenFile;
  rec_store : ClipStore;
  rec_files : Files
}.

(** The writer of the files: whether one could be created at a path, and what
    finalizing the one of a clip answers. *)
Class ClipWriter := {
  writer_create : string -> N -> N -> bool;
  writer_finalize : N -> option N
}.

Inductive PlaybackEvent := ClipsModified (recorded : ClipMeta) (evicted : list ClipMeta).

Module Recorder.
Section recorder.
Context {HO : HashOrder} {FK : FrequencyKhz} {CW : ClipWriter}.

Definition finalize (clip : OpenFile) (id : N) (ended_at : option SystemTime)
    (duration_override : option N) : Result ClipMeta string :=
  match writer_finalize id with
  | None => Err (of_path clip)
  | Some actual_ms =>
    let duration_ms :=
      match duration_override with
      | Some d => if negb (d =? 0)%N then d else actual_ms
      | None => actual_ms
      end in
    let ended_at :=
      match ended_at with
      | Some t => t
      | None =>
        default (of_started_at clip) (checked_add (of_started_at clip) (from_millis duration_ms))
      end in
    Ok (mkClipMeta id (of_path clip) (of_callsigns clip) (of_frequency clip) (of_started_at clip)
      ended_at duration_ms)
  end.

(** The end of a clip: it is committed, or discarded when its file is broken. *)
Definition finish_clip (r : Recorder) (result : Result ClipMeta string) :
    list PlaybackEvent * Recorder :=
  match result with
  | Ok meta =>
    let '(evicted, store, files) := ClipStore.commit (rec_store r) (rec_files r) meta in
    ([ClipsModified meta evicted], mkRecorder (rec_fsm r) (rec_open r) store files)
  | Err path =>
    ([], mkRecorder (rec_fsm r) (rec_open r) (rec_store r) (ClipStore.discard (rec_files r) path))
  end.

Definition with_open (r : Recorder) (open : gmap N OpenFile) (files : Files) : Recorder :=
  mkRecorder (rec_fsm r) open (rec_store r) files.

Definition apply_action (r : Recorder) (action : FsmAction) : list PlaybackEvent * Recorder :=
  match action with
  | OpenClipAction clip_id tap sample_rate channels callsigns frequency started_at =>
    let path := ClipStore.allocate (rec_files r) tap started_at in
    if writer_create path sample_rate channels then
      ([], with_open r
        (<[clip_id := mkOpenFile path callsigns frequency started_at []]> (rec_open r))
        ({[path]} ∪ rec_files r))
    else ([], with_open r (rec_open r) (ClipStore.discard (rec_files r) path))
  | WriteFrame clip_id samples =>
    match rec_open r !! clip_id with
    | None => ([], r)
    | Some clip =>
      ([], with_open r
        (<[clip_id := mkOpenFile (of_path clip) (of_callsigns clip) (of_frequency clip)
             (of_started_at clip) (of_written clip ++ [samples])]> (rec_open r)) (rec_files r))
    end
  | CloseClip clip_id callsigns ended_at duration_ms =>
    match rec_open r !! clip_id with
    | None => ([], r)
    | Some clip =>
      let clip := mkOpenFile (of_path clip) callsigns (of_frequency clip) (of_started_at clip)
        (of_written clip) in
      finish_clip (with_open r (delete clip_id (rec_open r)) (rec_files r))
        (finalize clip clip_id (Some ended_at) (Some duration_ms))
    end
  end.

Definition apply_actions (r : Recorder) (actions : list FsmAction) : list PlaybackEvent * Recorder :=
  foldl (λ acc action, let (events, r) := apply_action acc.2 action in (acc.1 ++ events, r))
    ([], r) actions.

Definition with_fsm (r : Recorder) (m : Fsm) : Recorder :=
  mkRecorder m (rec_open r) (rec_store r) (rec_files r).

(** What the task of the recorder, and its user, do. *)
Inductive Input :=
| Event (event : PlaybackSourceEvent) (now : Instant) (now_wall : SystemTime)
| Tick (now : Instant) (now_wall : SystemTime)
| DeleteClip (id : N)
| ClearClips.

Definition step (r : Recorder) (input : Input) : list PlaybackEvent * Recorder :=
  match input with
  | Event event now now_wall =>
    let (actions, m) := Fsm.on_event (rec_fsm r) event now now_wall in
    apply_actions (with_fsm r m) actions
  | Tick now now_wall =>
    let (actions, m) := Fsm.tick (rec_fsm r) now now_wall in
    apply_actions (with_fsm r m) actions
  | DeleteClip id =>
    let '(_, store, files) := ClipStore.delete_clip (rec_store r) (rec_files r) id in
    ([], mkRecorder (rec_fsm r) (rec_open r) store files)
  | ClearClips =>
    let (store, files) := ClipStore.clear (rec_store r) (rec_files r) in
    ([], mkRecorder (rec_fsm r) (rec_open r) store files)
  end.

(** [spawn] and the first lines of [run] *)
Definition start (config : PlaybackConfig) (mode : RecordingMode) (files : Files) : Recorder :=
  let (store, files) := ClipStore.open files (max_clips config) in
  mkRecorder (Fsm.new config mode) ∅ store files.

(** The clips that are open when the task ends *)
Definition shutdown (r : Recorder) : list PlaybackEvent * Recorder :=
  foldl (λ acc kv,
    let (events, r) := finish_clip acc.2 (finalize kv.2 kv.1 None None) in (acc.1 ++ events, r))
    ([], with_open r ∅ (rec_files r)) (map_iter (rec_open r)).

Definition run (r : Recorder) (inputs : list Input) : Recorder :=
  foldl (λ r input, (step r input).2) r inputs.
End recorder.
End Recorder.
