(* ===== verification/PlaybackLogic.v ===== *)
(** PlaybackLogic: the clips the segmentation has open, what its requests do to
    them, and the files the recorder keeps for them. *)
From stdpp Require Import prelude gmap strings list pretty.
From Stdlib Require Import NArith.
From S2P Require Import Prelude Calls Playback.
Import Fsm.

(** ** The open clips *)

Definition open_at (m : Fsm) (key : TapId) : option OpenClip := taps m !! key ≫= ts_open.

Definition ids_of (open : option OpenClip) : gset N :=
  match open with Some c => {[oc_clip_id c]} | None => ∅ end.

Definition open_ids (m : Fsm) : gset N :=
  list_to_set (omap (λ kv, oc_clip_id <$> ts_open kv.2) (map_to_list (taps m))).

(** A clip is open on one tap, and its number was given out. *)
Record fsm_ok (m : Fsm) : Prop := {
  fo_used : forall key c, open_at m key = Some c -> (oc_clip_id c < next_clip_id m)%N;
  fo_once : forall key key' c c', open_at m key = Some c -> open_at m key' = Some c' ->
    oc_clip_id c = oc_clip_id c' -> key = key'
}.

(** What a sequence of requests does to the next number and the set of the open
    clips: a clip is opened under the next number, and only open clips are
    written and closed. *)
Definition Ledger : Type := N * gset N.

Definition replay_action (ledger : Ledger) (action : FsmAction) : option Ledger :=
  let '(next, open) := ledger in
  match action with
  | OpenClipAction id _ _ _ _ _ _ =>
    if bool_decide (id = next) then Some ((next + 1)%N, {[id]} ∪ open) else None
  | WriteFrame id _ => if bool_decide (id ∈ open) then Some (next, open) else None
  | CloseClip id _ _ _ => if bool_decide (id ∈ open) then Some (next, open ∖ {[id]}) else None
  end.

Definition replay (ledger : Ledger) (actions : list FsmAction) : option Ledger :=
  foldl (λ ledger action, ledger ≫= λ ledger, replay_action ledger action) (Some ledger) actions.

Definition ledger_of (m : Fsm) : Ledger := (next_clip_id m, open_ids m).

#[local] Arguments replay : simpl never.

Lemma elem_of_open_ids m id :
  id ∈ open_ids m <-> exists key c, open_at m key = Some c /\ oc_clip_id c = id.
Proof.
  unfold open_ids, open_at. rewrite elem_of_list_to_set, list_elem_of_omap. split.
  - intros ([key entry] & Hin%elem_of_map_to_list & He). cbn in He.
    destruct (ts_open entry) as [c|] eqn:Ho; simplify_eq/=. exists key, c. by rewrite Hin.
  - intros (key & c & Hc & <-). destruct (taps m !! key) as [entry|] eqn:Hk; cbn in Hc; [|done].
    exists (key, entry). split; [by apply elem_of_map_to_list|]. cbn. by rewrite Hc.
Qed.

Lemma elem_of_ids_of o id : id ∈ ids_of o <-> exists c, o = Some c /\ oc_clip_id c = id.
Proof. destruct o as [c|]; cbn; set_solver. Qed.

Lemma replay_app ledger l l' :
  replay ledger (l ++ l') = replay ledger l ≫= λ ledger, replay ledger l'.
Proof.
  unfold replay. rewrite foldl_app. destruct (foldl _ (Some ledger) l) as [o|]; [done|]. cbn.
  induction l' as [|a l' IH]; [done|]. apply IH.
Qed.

Lemma replay_cons ledger action l :
  replay ledger (action :: l) = replay_action ledger action ≫= λ ledger, replay ledger l.
Proof. change (action :: l) with ([action] ++ l). rewrite replay_app. done. Qed.

(** Changing what is open on one tap *)
Record retapped (m m' : Fsm) (key : TapId) (o : option OpenClip) : Prop := {
  rt_here : open_at m' key = o;
  rt_others : forall key', key' <> key -> open_at m' key' = open_at m key';
  rt_next : (next_clip_id m <= next_clip_id m')%N;
  rt_new : forall c, o = Some c ->
    open_at m key = Some c \/
    (exists c', open_at m key = Some c' /\ oc_clip_id c = oc_clip_id c') \/
    (oc_clip_id c = next_clip_id m /\ (next_clip_id m < next_clip_id m')%N)
}.

Lemma retapped_ok m m' key o : fsm_ok m -> retapped m m' key o -> fsm_ok m'.
Proof.
  intros [Hused Honce] [Hhere Hothers Hnext Hnew].
  assert (forall c, o = Some c -> (oc_clip_id c < next_clip_id m')%N /\
    forall key' c', key' <> key -> open_at m key' = Some c' -> oc_clip_id c' <> oc_clip_id c) as Ho.
  { intros c Hc. destruct (Hnew c Hc) as [Hc'|[(c' & Hc' & Hid)|[Hid Hlt]]].
    - specialize (Hused _ _ Hc'). split; [lia|]. intros key' c2 Hne Hc2 He. by apply Hne, (Honce _ _ _ _ Hc2 Hc').
    - specialize (Hused _ _ Hc'). split; [lia|]. intros key' c2 Hne Hc2 He.
      apply Hne, (Honce _ _ _ _ Hc2 Hc'). congruence.
    - split; [lia|]. intros key' c2 Hne Hc2 He. specialize (Hused _ _ Hc2). lia. }
  split.
  - intros k c Hc. destruct (decide (k = key)) as [->|Hne].
    + apply (Ho c). congruence.
    + rewrite Hothers in Hc by done. specialize (Hused _ _ Hc). lia.
  - intros k k' c c' Hc Hc' He.
    destruct (decide (k = key)) as [->|Hne], (decide (k' = key)) as [->|Hne']; [done| | |].
    + rewrite Hothers in Hc' by done. exfalso. apply (proj2 (Ho c ltac:(congruence)) k' c' Hne' Hc'). done.
    + rewrite Hothers in Hc by done. exfalso. by apply (proj2 (Ho c' ltac:(congruence)) k c Hne Hc).
    + rewrite Hothers in Hc, Hc' by done. by eapply Honce.
Qed.

Lemma retapped_ids m m' key o :
  fsm_ok m -> retapped m m' key o -> open_ids m' = open_ids m ∖ ids_of (open_at m key) ∪ ids_of o.
Proof.
  intros [Hused Honce] [Hhere Hothers _ _]. apply set_eq. intros id.
  rewrite elem_of_union, elem_of_difference, !elem_of_ids_of, !elem_of_open_ids. split.
  - intros (k & c & Hc & Hid). destruct (decide (k = key)) as [->|Hne].
    + right. exists c. split; [congruence|done].
    + rewrite Hothers in Hc by done. left. split; [eauto|]. intros (c' & Hc' & Hid').
      apply Hne, (Honce _ _ _ _ Hc Hc'). congruence.
  - intros [[(k & c & Hc & Hid) Hno]|(c & Hc & Hid)].
    + exists k, c. rewrite Hothers; [done|]. intros ->. apply Hno. eauto.
    + exists key, c. split; [congruence|done].
Qed.

Lemma open_at_insert m key entry k :
  open_at (with_taps m (<[key := entry]> (taps m))) k =
    if decide (k = key) then ts_open entry else open_at m k.
Proof.
  unfold open_at. cbn. case_decide as Hk; [subst; by rewrite lookup_insert_eq|].
  by rewrite lookup_insert_ne.
Qed.

Lemma retapped_insert m key entry :
  (forall c, ts_open entry = Some c -> exists c', open_at m key = Some c' /\ oc_clip_id c = oc_clip_id c') ->
  retapped m (with_taps m (<[key := entry]> (taps m))) key (ts_open entry).
Proof.
  intros He. split.
  - by rewrite open_at_insert, decide_True.
  - intros k Hk. by rewrite open_at_insert, decide_False.
  - done.
  - intros c Hc. right. left. eauto.
Qed.

(** Closing what a tap has open *)
Lemma close_open_clip_spec entry now now_wall :
  ts_open (close_open_clip entry now now_wall).2 = None /\
  forall next open, ids_of (ts_open entry) ⊆ open ->
    replay (next, open) (close_open_clip entry now now_wall).1 =
      Some (next, open ∖ ids_of (ts_open entry)).
Proof.
  unfold close_open_clip. destruct (ts_open entry) as [c|] eqn:Ho; cbn.
  - split; [done|]. intros next open Hin. unfold replay. cbn.
    rewrite bool_decide_true by set_solver. done.
  - split; [done|]. intros next open _. unfold replay, ledger_of. cbn. do 2 f_equal. set_solver.
Qed.

Lemma put_back (X Y : gset N) : X ⊆ Y -> Y = Y ∖ X ∪ X.
Proof. intros H. rewrite (union_comm_L _ X). by apply union_difference_L. Qed.

Lemma ids_of_open m key : ids_of (open_at m key) ⊆ open_ids m.
Proof. intros id (c & Hc & Hid)%elem_of_ids_of. apply elem_of_open_ids. eauto. Qed.

(** ** Every event *)

(** The machine stays sound and its requests lead from the clips it had open
    to those it has open now. *)
Definition stepped (m : Fsm) (step : list FsmAction * Fsm) : Prop :=
  fsm_ok step.2 /\ replay (ledger_of m) step.1 = Some (ledger_of step.2).

Lemma retapped_stepped m m' key o actions :
  fsm_ok m -> retapped m m' key o ->
  replay (ledger_of m) actions =
    Some (next_clip_id m', open_ids m ∖ ids_of (open_at m key) ∪ ids_of o) ->
  stepped m (actions, m').
Proof.
  intros Hok Hr Ha. split; [by eapply retapped_ok|]. unfold ledger_of. cbn [fst snd].
  by rewrite (retapped_ids _ _ _ _ Hok Hr).
Qed.

Lemma on_tap_opened_ok m tap rate channels now now_wall :
  fsm_ok m -> stepped m (on_tap_opened m tap rate channels now now_wall).
Proof.
  intros Hok. unfold on_tap_opened. set (key := map_tap m tap).
  set (entry := default (mkTapState rate channels None) (taps m !! key)).
  assert (ts_open entry = open_at m key) as He
    by (unfold entry, open_at; by destruct (taps m !! key)).
  destruct (_ || _).
  - pose proof (close_open_clip_spec entry now now_wall) as [Hnone Hreplay].
    destruct (close_open_clip _ _ _) as [actions entry']. cbn in Hnone, Hreplay |- *.
    assert (retapped m (with_taps m (<[key := mkTapState rate channels (ts_open entry')]> (taps m))) key None) as Hr.
    { rewrite Hnone. apply (retapped_insert m key (mkTapState rate channels None)). done. }
    apply (retapped_stepped _ _ _ _ _ Hok Hr).
    unfold ledger_of. rewrite Hreplay, He by (rewrite He; apply ids_of_open). do 2 f_equal. set_solver.
  - assert (retapped m (with_taps m (<[key := entry]> (taps m))) key (ts_open entry)) as Hr.
    { apply retapped_insert. intros c Hc. exists c. by rewrite <- He. }
    apply (retapped_stepped _ _ _ _ _ Hok Hr). rewrite He.
    unfold replay, ledger_of. cbn. do 2 f_equal. apply put_back, ids_of_open.
Qed.

Lemma on_tap_closed_ok m tap now now_wall :
  fsm_ok m -> stepped m (on_tap_closed m tap now now_wall).
Proof.
  intros Hok. unfold on_tap_closed. set (key := map_tap m tap).
  set (m' := with_taps m (delete key (taps m))).
  assert (retapped m m' key None) as Hr.
  { split; [|intros k Hk|done|done]; unfold open_at, m'; cbn.
    - by rewrite lookup_delete_eq.
    - by rewrite lookup_delete_ne. }
  apply (retapped_stepped _ _ _ _ _ Hok Hr).
  assert (open_at m key = taps m !! key ≫= ts_open) as He by done.
  pose proof (ids_of_open m key) as Hin. destruct (taps m !! key) as [entry|]; cbn in He.
  - rewrite He in Hin |- *. unfold ledger_of.
    rewrite (proj2 (close_open_clip_spec entry now now_wall)) by done. do 2 f_equal. set_solver.
  - rewrite He. unfold replay, ledger_of. cbn. do 2 f_equal. set_solver.
Qed.

Lemma replay_open next open tap rate channels callsigns frequency wall :
  replay (next, open) [OpenClipAction next tap rate channels callsigns frequency wall] =
    Some ((next + 1)%N, {[next]} ∪ open).
Proof. unfold replay. cbn. by rewrite bool_decide_true. Qed.

Lemma replay_write next open id samples l :
  id ∈ open -> replay (next, open) (WriteFrame id samples :: l) = replay (next, open) l.
Proof. intros Hid. unfold replay. cbn. by rewrite bool_decide_true. Qed.

Lemma next_not_open m : fsm_ok m -> next_clip_id m ∉ open_ids m.
Proof. intros [Hused _] (key & c & Hc & Hid)%elem_of_open_ids. specialize (Hused _ _ Hc). lia. Qed.

Lemma retapped_fresh m key entry c :
  ts_open entry = Some c -> oc_clip_id c = next_clip_id m ->
  retapped m (with_taps (take_clip_id m).2 (<[key := entry]> (taps m))) key (ts_open entry).
Proof.
  intros Hc Hid. split.
  - unfold open_at. cbn. by rewrite lookup_insert_eq.
  - intros k Hk. unfold open_at. cbn. by rewrite lookup_insert_ne.
  - cbn. lia.
  - intros c' Hc'. right. right. assert (c' = c) as -> by congruence. cbn. split; [done|lia].
Qed.

Lemma on_rx_begin_ok m tap callsign frequency now now_wall :
  fsm_ok m -> stepped m (on_rx_begin m tap callsign frequency now now_wall).
Proof.
  intros Hok. unfold on_rx_begin. set (key := map_tap m tap).
  assert (open_at m key = taps m !! key ≫= ts_open) as He by done.
  destruct (taps m !! key) as [entry|] eqn:Hk; [|by split].
  cbn in He. destruct (ts_open entry) as [c|].
  - match goal with |- stepped m ([], with_taps m (<[key := ?e]> _)) =>
      assert (retapped m (with_taps m (<[key := e]> (taps m))) key (ts_open e)) as Hr end.
    { apply retapped_insert. intros c' [= <-]. exists c. done. }
    apply (retapped_stepped _ _ _ _ _ Hok Hr). rewrite He.
    unfold replay, ledger_of. cbn. do 2 f_equal. apply put_back. pose proof (ids_of_open m key) as Hin.
    by rewrite He in Hin.
  - cbn [take_clip_id]. match goal with |- stepped m (_, with_taps ?m1 (<[key := ?e]> _)) =>
      assert (retapped m (with_taps m1 (<[key := e]> (taps m))) key (ts_open e)) as Hr end.
    { by eapply retapped_fresh. }
    apply (retapped_stepped _ _ _ _ _ Hok Hr). rewrite He.
    unfold ledger_of. rewrite replay_open. cbn. do 2 f_equal. set_solver.
Qed.

Lemma on_frame_ok m tap samples captured_at now_wall :
  fsm_ok m -> stepped m (on_frame m tap samples captured_at now_wall).
Proof.
  intros Hok. unfold on_frame. set (key := map_tap m tap).
  assert (open_at m key = taps m !! key ≫= ts_open) as He by done.
  destruct (taps m !! key) as [entry|] eqn:Hk; [|by split].
  cbn in He. destruct (ts_open entry) as [c|]; [|by split].
  assert (oc_clip_id c ∈ open_ids m) as Hin by (apply elem_of_open_ids; eauto).
  destruct (_ <=? _)%N.
  - set (entry1 := Fsm.with_open entry _). pose proof (close_open_clip_spec entry1 captured_at now_wall) as [_ Hreplay].
    destruct (close_open_clip _ _ _) as [closed entry2]. cbn [fst snd take_clip_id] in *.
    match goal with |- stepped m (_, with_taps ?m1 (<[key := ?e]> _)) =>
      assert (retapped m (with_taps m1 (<[key := e]> (taps m))) key (ts_open e)) as Hr end.
    { by eapply retapped_fresh. }
    apply (retapped_stepped _ _ _ _ _ Hok Hr). rewrite He.
    unfold ledger_of. rewrite replay_write by exact Hin. rewrite replay_app, Hreplay by (cbn; set_solver).
    cbn [mbind option_bind]. rewrite replay_open. cbn. do 2 f_equal. set_solver.
  - match goal with |- stepped m (_, with_taps m (<[key := ?e]> _)) =>
      assert (retapped m (with_taps m (<[key := e]> (taps m))) key (ts_open e)) as Hr end.
    { apply retapped_insert. intros c' [= <-]. by exists c. }
    apply (retapped_stepped _ _ _ _ _ Hok Hr). rewrite He.
    unfold ledger_of. rewrite replay_write by exact Hin. unfold replay, ledger_of. cbn. do 2 f_equal.
    apply put_back. set_solver.
Qed.

(** *** The end of a transmission *)

Definition end_clip (callsign : string) (frequency : Frequency) (active : option (gset string))
    (c : OpenClip) : OpenClip :=
  mkOpenClip (oc_clip_id c) (oc_started_at c) (oc_started_at_wall c) (oc_last_audio_at c)
    (still_active callsign frequency active (oc_transmitters c)) (oc_callsigns c) (oc_frequency c).

Lemma open_at_rx_end m callsign frequency active key :
  open_at (on_rx_end m callsign frequency active) key =
  end_clip callsign frequency (list_to_set <$> active) <$> open_at m key.
Proof.
  unfold open_at, on_rx_end. cbn. rewrite lookup_fmap.
  by destruct (taps m !! key) as [entry|]; cbn; [destruct (ts_open entry)|].
Qed.

(** Machines with the same clips open on the same taps *)
Lemma same_clips_ok m m' :
  fsm_ok m -> next_clip_id m' = next_clip_id m ->
  (forall key, oc_clip_id <$> open_at m' key = oc_clip_id <$> open_at m key) ->
  fsm_ok m' /\ open_ids m' = open_ids m.
Proof.
  intros [Hused Honce] Hn Hsame.
  assert (forall key c', open_at m' key = Some c' ->
    exists c, open_at m key = Some c /\ oc_clip_id c = oc_clip_id c') as Hto.
  { intros key c' Hc'. specialize (Hsame key). rewrite Hc' in Hsame. cbn in Hsame.
    destruct (open_at m key) as [c|]; simplify_eq/=. eauto. }
  assert (forall key c, open_at m key = Some c ->
    exists c', open_at m' key = Some c' /\ oc_clip_id c' = oc_clip_id c) as Hfrom.
  { intros key c Hc. specialize (Hsame key). rewrite Hc in Hsame. cbn in Hsame.
    destruct (open_at m' key) as [c'|]; simplify_eq/=. eauto. }
  split.
  - split.
    + intros key c' (c & Hc & <-)%Hto. rewrite Hn. by eapply Hused.
    + intros key key' c1 c2 (c & Hc & Hid)%Hto (c' & Hc' & Hid')%Hto He. eapply Honce; [done..|congruence].
  - apply set_eq. intros id. rewrite !elem_of_open_ids. split.
    + intros (key & c' & (c & Hc & Hid')%Hto & Hid). exists key, c. split; [done|congruence].
    + intros (key & c & (c' & Hc & Hid')%Hfrom & Hid). exists key, c'. split; [done|congruence].
Qed.

Lemma on_event_ok m event now now_wall : fsm_ok m -> stepped m (on_event m event now now_wall).
Proof.
  intros Hok. destruct event as [tap rate channels|tap|tap samples captured_at
    |tap callsign frequency|callsign frequency active]; cbn.
  - by apply on_tap_opened_ok.
  - by apply on_tap_closed_ok.
  - by apply on_frame_ok.
  - by apply on_rx_begin_ok.
  - destruct (same_clips_ok m (on_rx_end m callsign frequency active) Hok) as [Hok' Hids]; [done| |].
    { intros key. rewrite open_at_rx_end. by destruct (open_at m key). }
    split; [done|]. unfold ledger_of. cbn [fst snd]. by rewrite Hids.
Qed.

(** *** Time *)

Section ticks.
Context {HO : HashOrder}.

Definition after_tick (m : Fsm) (now : Instant) (now_wall : SystemTime) (entry : TapState) : TapState :=
  if should_close m entry now then (close_open_clip entry now now_wall).2 else entry.

Definition tick_actions (m : Fsm) (now : Instant) (now_wall : SystemTime) (entry : TapState) :
    list FsmAction :=
  if should_close m entry now then (close_open_clip entry now now_wall).1 else [].

Lemma tick_taps m now now_wall key :
  taps (tick m now now_wall).2 !! key = after_tick m now now_wall <$> taps m !! key.
Proof.
  unfold tick. match goal with |- context [map_retain ?f ?t ?a] =>
    pose proof (map_retain_lookup f (λ _ entry, Some (after_tick m now now_wall entry)) t a key) as H;
    destruct (map_retain f t a) as [t' actions] end. cbn in H |- *.
  rewrite H; [by destruct (taps m !! key)|]. intros k entry l. unfold after_tick.
  destruct (should_close m entry now); [|done]. by destruct (close_open_clip entry now now_wall).
Qed.

Lemma foldl_concat {A B} (g : A -> list B) (l : list A) acc :
  foldl (λ acc x, acc ++ g x) acc l = acc ++ concat (map g l).
Proof.
  revert acc. induction l as [|x l IH]; intros acc; cbn; [by rewrite app_nil_r|].
  by rewrite IH, <- app_assoc.
Qed.

Lemma tick_requests m now now_wall :
  (tick m now now_wall).1 = concat (map (λ kv, tick_actions m now now_wall kv.2) (map_iter (taps m))).
Proof.
  unfold tick. match goal with |- context [map_retain ?f ?t ?a] =>
    pose proof (map_retain_acc f (λ _ entry acc, acc ++ tick_actions m now now_wall entry) t a) as H;
    destruct (map_retain f t a) as [t' actions] end. cbn in H |- *.
  rewrite H; [by rewrite foldl_concat|]. intros k entry l. unfold tick_actions.
  destruct (should_close m entry now); [|by rewrite app_nil_r].
  by destruct (close_open_clip entry now now_wall).
Qed.

Lemma should_close_spec m entry now :
  should_close m entry now = true <->
  exists c, ts_open entry = Some c /\ oc_transmitters c = ∅ /\ (oc_last_audio_at c + hangover m <= now)%N.
Proof.
  unfold should_close. destruct (ts_open entry) as [c|]; [|naive_solver].
  rewrite andb_true_iff, bool_decide_eq_true, N.leb_le. naive_solver.
Qed.

Lemma open_at_tick m now now_wall key :
  open_at (tick m now now_wall).2 key =
    c ← open_at m key;
    if decide (oc_transmitters c = ∅ /\ (oc_last_audio_at c + hangover m <= now)%N) then None
    else Some c.
Proof.
  unfold open_at at 1. rewrite tick_taps. unfold open_at.
  destruct (taps m !! key) as [entry|]; cbn; [|done]. unfold after_tick.
  destruct (should_close m entry now) eqn:Hs.
  - apply should_close_spec in Hs as (c & Hc & Ht & Hle).
    rewrite (proj1 (close_open_clip_spec _ _ _)), Hc. cbn. by rewrite decide_True.
  - destruct (ts_open entry) as [c|] eqn:Hc; cbn; [|done]. rewrite decide_False; [done|].
    intros H. apply not_true_iff_false in Hs. apply Hs, should_close_spec. eauto.
Qed.

Lemma replay_tick m now now_wall next l : forall open,
  (forall kv, kv ∈ l -> ids_of (ts_open kv.2) ⊆ open) ->
  (forall k k' e e' c c', (k, e) ∈ l -> (k', e') ∈ l -> ts_open e = Some c -> ts_open e' = Some c' ->
    oc_clip_id c = oc_clip_id c' -> k = k') -> NoDup l.*1 ->
  replay (next, open) (concat (map (λ kv : TapId * TapState, tick_actions m now now_wall kv.2) l)) =
  Some (next, open ∖ list_to_set (omap (λ kv : TapId * TapState,
    if should_close m kv.2 now then oc_clip_id <$> ts_open kv.2 else None) l)).
Proof.
  induction l as [|[k entry] l IH]; intros open Hin Honce Hnd; cbn.
  { unfold replay, ledger_of. cbn. do 2 f_equal. set_solver. }
  rewrite fmap_cons in Hnd. apply NoDup_cons in Hnd as [Hk Hnd]. cbn in Hk.
  assert (ids_of (ts_open entry) ⊆ open) as Hentry by (apply (Hin (k, entry)); left).
  unfold tick_actions at 1. destruct (should_close m entry now) eqn:Hs.
  - apply should_close_spec in Hs as (c & Hc & _ & _). rewrite replay_app.
    rewrite (proj2 (close_open_clip_spec entry now now_wall)) by done. rewrite Hc in *. cbn in *.
    rewrite IH; [|clear IH|by intros; eapply Honce; [right|right|..]|done].
    + do 2 f_equal. set_solver.
    + intros [k' e'] Hl id Hid. cbn in Hid. pose proof (Hin (k', e') ltac:(by right) id Hid) as Hid'.
      apply elem_of_difference. split; [done|]. rewrite elem_of_singleton. intros ->.
      apply elem_of_ids_of in Hid as (c' & Hc' & Hid).
      apply Hk, list_elem_of_fmap. exists (k', e'). split; [|done]. cbn.
      by apply (Honce k k' entry e' c c'); [left|right|..].
  - cbn [app]. apply IH; [|by intros; eapply Honce; [right|right|..]|done].
    intros kv Hkv. apply Hin. by right.
Qed.

Lemma tick_ok m now now_wall : fsm_ok m -> stepped m (tick m now now_wall).
Proof.
  intros Hok. pose proof Hok as [Hused Honce].
  assert (next_clip_id (tick m now now_wall).2 = next_clip_id m) as Hnext
    by (unfold tick; by destruct (map_retain _ _ _)). split.
  - split.
    + intros key c. rewrite open_at_tick, Hnext. destruct (open_at m key) as [c0|] eqn:Hc; cbn; [|done].
      case_decide; [done|]. intros [= <-]. by eapply Hused.
    + intros key key' c c'. rewrite !open_at_tick.
      destruct (open_at m key) eqn:H1, (open_at m key') eqn:H2; cbn; try done;
        repeat case_decide; try done; intros [= <-] [= <-]; by eapply Honce.
  - rewrite tick_requests. unfold ledger_of. rewrite Hnext.
    assert (forall k e c, (k, e) ∈ map_iter (taps m) -> ts_open e = Some c -> open_at m k = Some c) as Hl.
    { intros k e c He%elem_of_map_iter Hc. unfold open_at. by rewrite He. }
    rewrite replay_tick.
    + do 2 f_equal. apply set_eq. intros id.
      rewrite elem_of_difference, elem_of_list_to_set, list_elem_of_omap, !elem_of_open_ids.
      setoid_rewrite open_at_tick. split.
      * intros [(key & c & Hc & Hid) Hno]. exists key, c. split; [|exact Hid]. rewrite Hc. cbn.
        rewrite decide_False; [reflexivity|]. intros Hcl. apply Hno. unfold open_at in Hc. destruct (taps m !! key) as [e|] eqn:He; [|done].
        exists (key, e). split; [by apply elem_of_map_iter|]. cbn in Hc |- *.
        assert (should_close m e now = true) as -> by (apply should_close_spec; eauto).
        by rewrite Hc; cbn; f_equal.
      * intros (key & c & Hc & Hid). destruct (open_at m key) as [c0|] eqn:Hc0; cbn in Hc; [|done].
        case_decide as Hcl; [done|]. simplify_eq. split; [eauto|].
        intros ([k e] & He & Hs). cbn in Hs. destruct (should_close m e now) eqn:Hse; [|done].
        apply should_close_spec in Hse as (c1 & Hc1 & H1 & H2). rewrite Hc1 in Hs. simplify_eq/=.
        pose proof (Hl _ _ _ He Hc1) as Hk. assert (k = key) as -> by (by eapply Honce).
        rewrite Hc0 in Hk. simplify_eq. by apply Hcl.
    + intros [k e] He id (c & Hc & Hid)%elem_of_ids_of. apply elem_of_open_ids. eauto.
    + intros k k' e e' c c' He He' Hc Hc'. apply Honce; eauto.
    + apply NoDup_fst_map_iter.
Qed.
End ticks.
