(* ===== verification/PlaybackFiles.v ===== *)
(** PlaybackFiles: the names of the clips' files, the store that evicts the
    oldest of them, and the recorder that keeps both. *)
From stdpp Require Import prelude gmap strings list pretty.
From Stdlib Require Import NArith.
From S2P Require Import Prelude Calls Playback PlaybackLogic.
Import Fsm.

(** ** A free name *)

Lemma cons_string_app x (a b : string) : String x a +:+ b = String x (a +:+ b).
Proof. reflexivity. Qed.

Lemma length_string_app (a b : string) :
  String.length (a +:+ b) = String.length a + String.length b.
Proof. induction a as [|x a IH]; [done|]. rewrite cons_string_app. cbn. by rewrite IH. Qed.

Lemma string_app_inv_tail (a b s : string) : a +:+ s = b +:+ s -> a = b.
Proof.
  intros H. assert (String.length a = String.length b) as Hlen.
  { apply (f_equal String.length) in H. rewrite !length_string_app in H. lia. }
  revert b H Hlen. induction a as [|x a IH]; intros [|y b] H Hlen; try done.
  rewrite !cons_string_app in H. injection H as -> H. f_equal. apply IH; [done|]. by injection Hlen.
Qed.

Lemma candidate_inj base ext n n' :
  ClipStore.candidate base ext n = ClipStore.candidate base ext n' -> n = n'.
Proof.
  unfold ClipStore.candidate. intros H%(inj _)%(inj _).
  apply string_app_inv_tail in H. by apply (inj pretty) in H.
Qed.

(** The names tried by [fuel] turns of the loop *)
Definition candidates (base ext : string) (n : N) (fuel : nat) : list string :=
  map (λ i, ClipStore.candidate base ext (n + N.of_nat i)) (seq 0 fuel).

Lemma candidates_NoDup base ext n fuel : NoDup (candidates base ext n fuel).
Proof.
  apply NoDup_fmap_2; [|apply NoDup_seq]. intros i j H%candidate_inj. lia.
Qed.

Lemma first_free_spec files base ext fuel : forall n,
  (n + N.of_nat fuel <= U32_MAX)%N ->
  match ClipStore.first_free fuel files base ext n with
  | Some c => c ∉ files
  | None => forall c, c ∈ candidates base ext n fuel -> c ∈ files
  end.
Proof.
  induction fuel as [|fuel IH]; intros n Hn; cbn [ClipStore.first_free].
  { intros c Hc. by apply not_elem_of_nil in Hc. }
  destruct (N.ltb_spec n U32_MAX) as [_|]; [|lia].
  case_bool_decide as Hc; [|done]. specialize (IH (n + 1)%N ltac:(lia)).
  destruct (ClipStore.first_free fuel files base ext (n + 1)); [done|].
  intros c Hin. unfold candidates in Hin. cbn [seq map] in Hin.
  apply elem_of_cons in Hin as [->|Hin]; [by rewrite N.add_0_r|].
  apply IH. rewrite <- seq_shift, map_map in Hin. unfold candidates.
  erewrite map_ext; [exact Hin|]. intros i. cbn beta. f_equal. lia.
Qed.

Lemma unique_path_fresh files base ext :
  (N.of_nat (size files) + 2 <= U32_MAX)%N -> ClipStore.unique_path files base ext ∉ files.
Proof.
  intros Hsize. unfold ClipStore.unique_path. case_bool_decide as Hfirst; cbn [negb]; [|done].
  pose proof (first_free_spec files base ext (S (size files)) 1 ltac:(lia)) as H.
  destruct (ClipStore.first_free _ _ _ _ _) as [c|]; [done|]. exfalso.
  pose proof (candidates_NoDup base ext 1 (S (size files))) as Hnd.
  assert (list_to_set (candidates base ext 1 (S (size files))) ⊆ files) as Hsub
    by (intros c Hc%elem_of_list_to_set; by apply H).
  apply subseteq_size in Hsub. rewrite size_list_to_set in Hsub by done.
  unfold candidates in Hsub. rewrite length_map, length_seq in Hsub. lia.
Qed.

(** ** The store *)

Lemma evict_spec max l : forall files evicted,
  let k := length l - max in
  ClipStore.evict max l files evicted =
    (drop k l, files ∖ list_to_set (map cm_path (take k l)), evicted ++ take k l).
Proof.
  induction l as [|meta l IH]; intros files evicted; cbn [ClipStore.evict].
  { cbn. rewrite app_nil_r. do 2 f_equal. set_solver. }
  destruct (Nat.ltb_spec max (length (meta :: l))) as [Hlt|Hle]; cbn zeta.
  - rewrite IH. cbn zeta.
    assert (length (meta :: l) - max = S (length l - max)) as -> by (cbn in *; lia).
    cbn. rewrite <- app_assoc. cbn. do 2 f_equal. unfold ClipStore.remove_file. set_solver.
  - assert (length (meta :: l) - max = 0) as -> by (cbn in *; lia). cbn. rewrite app_nil_r.
    do 2 f_equal. set_solver.
Qed.

(** ** What the recorder keeps *)

(** Relative to the ledger of the open clips: the files that are written belong
    to open clips, the stored clips are closed, every clip has a file of its own
    and a number of its own. *)
Record disk_ok (ledger : Ledger) (r : Recorder) : Prop := {
  do_open : dom (rec_open r) ⊆ ledger.2;
  do_below : forall id, id ∈ ledger.2 -> (id < ledger.1)%N;
  do_stored : forall c, c ∈ clips (rec_store r) -> (cm_id c < ledger.1)%N /\ cm_id c ∉ ledger.2;
  do_ids : NoDup (map cm_id (clips (rec_store r)));
  do_open_files : forall id f, rec_open r !! id = Some f -> of_path f ∈ rec_files r;
  do_stored_files : forall c, c ∈ clips (rec_store r) -> cm_path c ∈ rec_files r;
  do_paths : NoDup (map cm_path (clips (rec_store r)));
  do_open_paths : forall id id' f f', rec_open r !! id = Some f -> rec_open r !! id' = Some f' ->
    of_path f = of_path f' -> id = id';
  do_apart : forall id f c, rec_open r !! id = Some f -> c ∈ clips (rec_store r) ->
    of_path f <> cm_path c
}.

Definition room (s : ClipStore) : Prop := length (clips s) <= store_max_clips s.

Lemma sublist_map {A B} (f : A -> B) (l k : list A) : sublist l k -> sublist (map f l) (map f k).
Proof. induction 1; cbn; by constructor. Qed.

(** Storing fewer clips, and forgetting files that belong to none of those left. *)
Lemma disk_ok_shrink ledger r open' l' files' :
  disk_ok ledger r -> open' ⊆ rec_open r -> sublist l' (clips (rec_store r)) ->
  (forall id f, open' !! id = Some f -> of_path f ∈ files') ->
  (forall c, c ∈ l' -> cm_path c ∈ files') ->
  disk_ok ledger (mkRecorder (rec_fsm r) open'
    (mkClipStore (store_max_clips (rec_store r)) l') files').
Proof.
  intros [] Ho Hl Hof Hsf.
  assert (forall c, c ∈ l' -> c ∈ clips (rec_store r)) as Hin by (intros c; eauto using elem_of_sublist).
  split; cbn; try done.
  - transitivity (dom (rec_open r)); [by apply subseteq_dom|done].
  - intros c Hc. auto.
  - eapply sublist_NoDup; [exact do_ids0|]. by apply sublist_map.
  - eapply sublist_NoDup; [exact do_paths0|]. by apply sublist_map.
  - intros id id' f f' Hf Hf'. eapply do_open_paths0; eapply lookup_weaken; eauto.
  - intros id f c Hf Hc. eapply do_apart0; [eapply lookup_weaken; eauto|auto].
Qed.

(** A finished clip moves from the open files to the store. *)
Lemma disk_ok_store next open id f meta r :
  disk_ok (next, open) r -> rec_open r !! id = Some f -> cm_id meta = id -> cm_path meta = of_path f ->
  disk_ok (next, open ∖ {[id]}) (mkRecorder (rec_fsm r) (delete id (rec_open r))
    (mkClipStore (store_max_clips (rec_store r)) (clips (rec_store r) ++ [meta])) (rec_files r)).
Proof.
  intros [] Hf Hid Hpath. cbn in *.
  assert (id ∈ open) as Hin by (apply do_open0, elem_of_dom; eauto).
  split; cbn.
  - rewrite dom_delete_L. set_solver.
  - intros i [Hi _]%elem_of_difference. auto.
  - intros c [Hc| ->%list_elem_of_singleton]%elem_of_app.
    + destruct (do_stored0 c Hc). set_solver.
    + rewrite Hid. set_solver.
  - rewrite map_app. apply NoDup_app. split; [done|]. split; [|apply NoDup_singleton].
    intros i (c & -> & Hc)%list_elem_of_fmap Hi%list_elem_of_singleton.
    destruct (do_stored0 c Hc). cbn in Hi. congruence.
  - intros i f' Hf'%lookup_delete_Some. naive_solver.
  - intros c [Hc| ->%list_elem_of_singleton]%elem_of_app; [auto|]. rewrite Hpath. eauto.
  - rewrite map_app. apply NoDup_app. split; [done|]. split; [|apply NoDup_singleton].
    intros p (c & -> & Hc)%list_elem_of_fmap Hp%list_elem_of_singleton. cbn in Hp.
    apply (do_apart0 id f c Hf Hc). congruence.
  - intros i i' f1 f2 [_ H1]%lookup_delete_Some [_ H2]%lookup_delete_Some. by apply do_open_paths0.
  - intros i f' c [Hne Hf']%lookup_delete_Some [Hc| ->%list_elem_of_singleton]%elem_of_app; [eauto|].
    rewrite Hpath. intros He. apply Hne. by eapply do_open_paths0.
Qed.

(** Taking clips out of the store deletes their files and no others. *)
Lemma disk_ok_evict ledger r l1 l2 :
  disk_ok ledger r -> clips (rec_store r) ≡ₚ l1 ++ l2 -> sublist l2 (clips (rec_store r)) ->
  disk_ok ledger (mkRecorder (rec_fsm r) (rec_open r)
    (mkClipStore (store_max_clips (rec_store r)) l2) (rec_files r ∖ list_to_set (map cm_path l1))).
Proof.
  intros Hok Hl Hsub. apply disk_ok_shrink; [done..| |].
  - intros id f Hf. apply elem_of_difference. split; [by eapply do_open_files|].
    intros (c & Hp & Hc)%elem_of_list_to_set%list_elem_of_fmap.
    apply (do_apart _ _ Hok id f c Hf); [|done]. rewrite Hl. apply elem_of_app. by left.
  - intros c Hc. assert (c ∈ clips (rec_store r)) as Hin by (rewrite Hl; apply elem_of_app; by right).
    apply elem_of_difference. split; [by eapply do_stored_files|].
    pose proof (do_paths _ _ Hok) as Hnd. rewrite Hl, map_app in Hnd.
    apply NoDup_app in Hnd as (_ & Hnd & _). intros Hp%elem_of_list_to_set.
    apply (Hnd _ Hp), list_elem_of_fmap. eauto.
Qed.

(** Numbers are only given out. *)
Lemma replay_action_mono ledger ledger' action :
  replay_action ledger action = Some ledger' -> (ledger.1 <= ledger'.1)%N.
Proof.
  destruct ledger as [next open], action; cbn; case_bool_decide; intros; simplify_eq/=; lia.
Qed.

Lemma replay_mono actions : forall ledger ledger',
  replay ledger actions = Some ledger' -> (ledger.1 <= ledger'.1)%N.
Proof.
  induction actions as [|action actions IH]; intros ledger ledger' H; [injection H as <-; lia|].
  rewrite replay_cons in H.
  destruct (replay_action ledger action) as [ledger1|] eqn:Ha; cbn in H; [|done].
  apply replay_action_mono in Ha. apply IH in H. lia.
Qed.

Section recorder.
Context {HO : HashOrder} {FK : FrequencyKhz} {CW : ClipWriter}.

(** The rest of the recorder is as it was. *)
Definition frame (r r' : Recorder) : Prop :=
  rec_fsm r' = rec_fsm r /\ store_max_clips (rec_store r') = store_max_clips (rec_store r).

Lemma commit_ok next open id f meta r :
  disk_ok (next, open) r -> rec_open r !! id = Some f -> cm_id meta = id -> cm_path meta = of_path f ->
  let '(evicted, store, files) := ClipStore.commit (rec_store r) (rec_files r) meta in
  disk_ok (next, open ∖ {[id]}) (mkRecorder (rec_fsm r) (delete id (rec_open r)) store files) /\
  room store /\ store_max_clips store = store_max_clips (rec_store r) /\ files ⊆ rec_files r.
Proof.
  intros Hok Hf Hid Hpath. unfold ClipStore.commit, ClipStore.evict_overflow.
  rewrite evict_spec. cbn [store_max_clips clips app].
  set (all := clips (rec_store r) ++ [meta]). set (k := length all - _).
  pose proof (disk_ok_store _ _ _ _ _ _ Hok Hf Hid Hpath) as Hok1.
  pose proof (disk_ok_evict _ _ (take k all) (drop k all) Hok1) as Hok2. cbn in Hok2.
  split; [apply Hok2|].
  - by rewrite take_drop.
  - apply sublist_drop.
  - unfold room. cbn. rewrite length_drop. split; [lia|]. split; [done|]. set_solver.
Qed.

Lemma discard_ok next open id f r :
  disk_ok (next, open) r -> rec_open r !! id = Some f ->
  disk_ok (next, open ∖ {[id]}) (mkRecorder (rec_fsm r) (delete id (rec_open r)) (rec_store r)
    (ClipStore.discard (rec_files r) (of_path f))).
Proof.
  intros [] Hf. cbn in *. unfold ClipStore.discard. split; cbn; try done.
  - rewrite dom_delete_L. set_solver.
  - intros i [Hi _]%elem_of_difference. auto.
  - intros c Hc. destruct (do_stored0 c Hc). set_solver.
  - intros i f' [Hne Hf']%lookup_delete_Some. apply elem_of_difference. split; [eauto|].
    rewrite elem_of_singleton. intros He. apply Hne. symmetry. by eapply do_open_paths0.
  - intros c Hc. apply elem_of_difference. split; [auto|]. rewrite elem_of_singleton.
    intros He. by apply (do_apart0 id f c).
  - intros i i' f1 f2 [_ H1]%lookup_delete_Some [_ H2]%lookup_delete_Some. by apply do_open_paths0.
  - intros i f' c [_ Hf']%lookup_delete_Some Hc. eauto.
Qed.

Lemma disk_ok_closed next open id r :
  disk_ok (next, open) r -> rec_open r !! id = None -> disk_ok (next, open ∖ {[id]}) r.
Proof.
  intros [] Hid. cbn in *. split; cbn; try done.
  - intros i Hi. apply elem_of_difference. split; [auto|]. rewrite elem_of_singleton. intros ->.
    apply elem_of_dom in Hi as [? ?]. congruence.
  - intros i [Hi _]%elem_of_difference. auto.
  - intros c Hc. destruct (do_stored0 c Hc). set_solver.
Qed.
(** What an action leaves in order. It adds a file only for a number it takes. *)
Definition kept (ledger : Ledger) (r : Recorder) (ledger' : Ledger) (r' : Recorder) : Prop :=
  disk_ok ledger' r' /\ room (rec_store r') /\ frame r r' /\ (ledger.1 <= ledger'.1)%N /\
  (N.of_nat (size (rec_files r')) + ledger.1 <= N.of_nat (size (rec_files r)) + ledger'.1)%N.

Lemma kept_same ledger ledger' r :
  disk_ok ledger' r -> room (rec_store r) -> (ledger.1 <= ledger'.1)%N -> kept ledger r ledger' r.
Proof. intros H1 H2 H3. split; [done|]. split; [done|]. split; [done|]. split; lia. Qed.

Lemma open_action_ok next open r tap rate channels callsigns frequency wall :
  disk_ok (next, open) r -> room (rec_store r) ->
  (N.of_nat (size (rec_files r)) + 2 <= U32_MAX)%N ->
  kept (next, open) r ((next + 1)%N, {[next]} ∪ open)
    (Recorder.apply_action r
      (OpenClipAction next tap rate channels callsigns frequency wall)).2.
Proof.
  intros Hok Hroom Hsize. unfold kept. cbn [fst snd Recorder.apply_action].
  set (path := ClipStore.allocate _ _ _).
  assert (path ∉ rec_files r) as Hfresh by (by apply unique_path_fresh).
  assert (rec_open r !! next = None) as Hnone.
  { destruct (rec_open r !! next) as [f|] eqn:Hf; [|done].
    assert (next ∈ open) as Hin by (apply (do_open _ _ Hok), elem_of_dom; eauto).
    pose proof (do_below _ _ Hok next Hin). cbn in *. lia. }
  destruct (writer_create path rate channels); cbn [snd Recorder.with_open].
  + split; [|split; [done|split; [done|split; [lia|]]]].
    * destruct Hok. cbn in *. split; cbn; try done.
      -- rewrite dom_insert_L. set_solver.
      -- intros i [->%elem_of_singleton|Hi]%elem_of_union; [lia|]. specialize (do_below0 i Hi). lia.
      -- intros c Hc. destruct (do_stored0 c Hc) as [Hlt Hno]. split; [lia|].
         rewrite elem_of_union, elem_of_singleton. intros [?|?]; [lia|done].
      -- intros i f [[<- <-]|[_ Hf]]%lookup_insert_Some; [set_solver|].
         apply elem_of_union. right. eauto.
      -- intros c Hc. apply elem_of_union. right. auto.
      -- intros i i' f f' [[<- <-]|[Hne Hf]]%lookup_insert_Some [[<- <-]|[Hne' Hf']]%lookup_insert_Some He;
           cbn in He; [done| | |eauto].
         ++ exfalso. apply Hfresh. rewrite He. eauto.
         ++ exfalso. apply Hfresh. rewrite <- He. eauto.
      -- intros i f c [[<- <-]|[_ Hf]]%lookup_insert_Some Hc; [|eauto]. cbn. intros He.
         apply Hfresh. rewrite He. auto.
    * cbn. rewrite size_union by set_solver. rewrite size_singleton. lia.
  + assert (ClipStore.discard (rec_files r) path = rec_files r) as ->
      by (unfold ClipStore.discard; set_solver).
    split; [|split; [done|split; [done|split; [lia|cbn; lia]]]].
    destruct Hok. cbn in *. split; cbn; try done.
    * set_solver.
    * intros i [->%elem_of_singleton|Hi]%elem_of_union; [lia|]. specialize (do_below0 i Hi). lia.
    * intros c Hc. destruct (do_stored0 c Hc) as [Hlt Hno]. split; [lia|].
      rewrite elem_of_union, elem_of_singleton. intros [?|?]; [lia|done].
Qed.

Lemma write_action_ok next open r id samples :
  disk_ok (next, open) r -> room (rec_store r) ->
  kept (next, open) r (next, open) (Recorder.apply_action r (WriteFrame id samples)).2.
Proof.
  intros Hok Hroom. unfold kept. cbn [fst snd Recorder.apply_action].
  destruct (rec_open r !! id) as [f|] eqn:Hf; cbn [snd Recorder.with_open].
  2:{ split; [done|]. split; [done|]. split; [done|]. split; lia. }
  split; [|split; [done|split; [done|split; [lia|cbn; lia]]]].
  assert (forall i g, <[id := mkOpenFile (of_path f) (of_callsigns f) (of_frequency f) (of_started_at f)
    (of_written f ++ [samples])]> (rec_open r) !! i = Some g ->
    exists g0, rec_open r !! i = Some g0 /\ of_path g0 = of_path g) as Hsame.
  { intros i g [[<- <-]|[_ Hg]]%lookup_insert_Some; eauto. }
  destruct Hok. cbn in *. split; cbn; try done.
  + rewrite dom_insert_L. intros i [->%elem_of_singleton|Hi]%elem_of_union; apply do_open0; [|done].
    apply elem_of_dom. eauto.
  + intros i g (g0 & Hg & <-)%Hsame. eauto.
  + intros i i' g g' (g0 & Hg & <-)%Hsame (g1 & Hg' & <-)%Hsame. eauto.
  + intros i g c (g0 & Hg & <-)%Hsame. eauto.
Qed.

Lemma close_action_ok next open r id callsigns ended ms :
  disk_ok (next, open) r -> room (rec_store r) ->
  kept (next, open) r (next, open ∖ {[id]})
    (Recorder.apply_action r (CloseClip id callsigns ended ms)).2.
Proof.
  intros Hok Hroom. unfold kept. cbn [fst snd Recorder.apply_action].
  destruct (rec_open r !! id) as [f|] eqn:Hf; cbn [snd].
  2:{ split; [by apply disk_ok_closed|]. split; [done|]. split; [done|]. split; lia. }
  unfold Recorder.finish_clip, Recorder.finalize. destruct (writer_finalize id) as [ms'|].
  + match goal with |- context [ClipStore.commit _ _ ?meta] =>
      pose proof (commit_ok _ _ _ _ meta _ Hok Hf eq_refl eq_refl) as Hc end.
    cbn [rec_store rec_files Recorder.with_open] in *.
    destruct (ClipStore.commit _ _ _) as [[evicted store] files].
    destruct Hc as (Hok' & Hroom' & Hmax & Hfiles). split; [done|]. split; [done|]. split; [done|].
    split; [lia|]. cbn. apply subseteq_size in Hfiles. lia.
  + cbn [snd rec_fsm rec_open rec_store rec_files Recorder.with_open].
    split; [by apply (discard_ok _ _ _ _ _ Hok Hf)|]. split; [done|]. split; [done|]. split; [lia|]. cbn.
    assert (size (ClipStore.discard (rec_files r) (of_path f)) <= size (rec_files r)); [|lia].
    apply subseteq_size. unfold ClipStore.discard. set_solver.
Qed.

Lemma apply_action_ok ledger ledger' r action :
  disk_ok ledger r -> room (rec_store r) -> replay_action ledger action = Some ledger' ->
  (N.of_nat (size (rec_files r)) + 2 <= U32_MAX)%N ->
  kept ledger r ledger' (Recorder.apply_action r action).2.
Proof.
  intros Hok Hroom Ha Hsize. destruct ledger as [next open].
  destruct action; cbn in Ha; case_bool_decide; simplify_eq.
  - by apply open_action_ok.
  - by apply write_action_ok.
  - by apply close_action_ok.
Qed.

Lemma kept_trans l1 l2 l3 r1 r2 r3 : kept l1 r1 l2 r2 -> kept l2 r2 l3 r3 -> kept l1 r1 l3 r3.
Proof.
  intros (_ & _ & [F1 F2] & H1 & H2) (H3 & H4 & [F3 F4] & H5 & H6).
  split; [done|]. split; [done|]. split; [split; congruence|]. split; lia.
Qed.

Lemma apply_actions_ok actions : forall ledger ledger' events r,
  disk_ok ledger r -> room (rec_store r) -> replay ledger actions = Some ledger' ->
  (N.of_nat (size (rec_files r)) + ledger'.1 + 2 <= U32_MAX + ledger.1)%N ->
  kept ledger r ledger'
    (foldl (λ acc action, let (events, r) := Recorder.apply_action acc.2 action in
       (acc.1 ++ events, r)) (events, r) actions).2.
Proof.
  induction actions as [|action actions IH]; intros ledger ledger' events r Hok Hroom Hr Hsize.
  { injection Hr as <-. apply kept_same; [done..|lia]. }
  rewrite replay_cons in Hr.
  destruct (replay_action ledger action) as [ledger1|] eqn:Ha; cbn in Hr; [|done].
  assert (ledger1.1 <= ledger'.1)%N as Hmono by (by eapply replay_mono).
  assert (kept ledger r ledger1 (Recorder.apply_action r action).2) as Hk.
  { apply apply_action_ok; [done..|]. pose proof (replay_action_mono _ _ _ Ha). lia. }
  cbn [foldl snd]. destruct (Recorder.apply_action r action) as [ev r1]. cbn [fst snd] in *.
  eapply kept_trans; [exact Hk|]. destruct Hk as (Hok1 & Hroom1 & _ & Hle & Hs1).
  apply IH; [done..|]. lia.
Qed.
End recorder.
