(* ===== verification/PlaybackProperties.v ===== *)
(** PlaybackProperties: the theorems about the recording of the radio. *)
From stdpp Require Import prelude gmap strings list pretty.
From Stdlib Require Import NArith.
From S2P Require Import Prelude Calls Playback PlaybackLogic PlaybackFiles.
Import Fsm.

(** ** Runs of the recorder *)

Definition recorder_ok (r : Recorder) : Prop :=
  fsm_ok (rec_fsm r) /\ disk_ok (ledger_of (rec_fsm r)) r /\ room (rec_store r).

Lemma disk_ok_fsm ledger r m : disk_ok ledger r -> disk_ok ledger (Recorder.with_fsm r m).
Proof. by intros []. Qed.

Lemma on_event_next m event now now_wall :
  (next_clip_id (on_event m event now now_wall).2 <= next_clip_id m + 1)%N.
Proof.
  destruct event as [tap rate channels|tap|tap samples captured_at
    |tap callsign frequency|callsign frequency active]; cbn; try lia.
  - unfold on_tap_opened. destruct (_ || _); [destruct (close_open_clip _ _ _)|]; cbn; lia.
  - unfold on_frame. destruct (taps m !! _) as [entry|]; [|cbn; lia].
    destruct (ts_open entry) as [c|]; [|cbn; lia]. cbv zeta.
    destruct (_ <=? _)%N; [destruct (close_open_clip _ _ _)|]; cbn; lia.
  - unfold on_rx_begin. destruct (taps m !! _) as [entry|]; [|cbn; lia].
    destruct (ts_open entry) as [c|]; cbn; lia.
Qed.

Section runs.
Context {HO : HashOrder} {FK : FrequencyKhz} {CW : ClipWriter}.

(** A request of the machine, served. *)
Lemma served_ok r step :
  recorder_ok r -> stepped (rec_fsm r) step -> (next_clip_id step.2 <= next_clip_id (rec_fsm r) + 1)%N ->
  (N.of_nat (size (rec_files r)) + 3 <= U32_MAX)%N ->
  let r' := (Recorder.apply_actions (Recorder.with_fsm r step.2) step.1).2 in
  recorder_ok r' /\ (size (rec_files r') <= S (size (rec_files r))).
Proof.
  intros (Hfsm & Hdisk & Hroom) [Hfsm' Hreplay] Hnext Hsize. cbv zeta.
  destruct (apply_actions_ok step.1 _ _ [] (Recorder.with_fsm r step.2)
    (disk_ok_fsm _ _ step.2 Hdisk) Hroom Hreplay) as (Hok & Hr & [Hf _] & _ & Hs).
  { unfold ledger_of. cbn [fst snd rec_files Recorder.with_fsm]. lia. }
  split; [|unfold ledger_of in Hs; cbn [fst snd rec_files Recorder.with_fsm] in Hs; unfold Recorder.apply_actions; lia]. unfold recorder_ok. unfold Recorder.apply_actions.
  by rewrite Hf.
Qed.

Lemma take_clip_spec id l :
  match ClipStore.take_clip id l with
  | None => id ∉ map cm_id l
  | Some (meta, rest) => cm_id meta = id /\ l ≡ₚ [meta] ++ rest /\ sublist rest l
  end.
Proof.
  induction l as [|c l IH]; cbn; [apply not_elem_of_nil|].
  case_bool_decide as Hid; [split; [done|]; split; [done|]; by apply sublist_cons|].
  destruct (ClipStore.take_clip id l) as [[meta rest]|]; cbn.
  - destruct IH as (H1 & H2 & H3). split; [done|]. split; [|by apply sublist_skip].
    rewrite H2. apply perm_swap.
  - rewrite not_elem_of_cons. auto.
Qed.

Lemma foldl_remove_file l : forall files,
  foldl ClipStore.remove_file files l = files ∖ list_to_set (map cm_path l).
Proof.
  induction l as [|c l IH]; intros files; cbn; [set_solver|]. rewrite IH.
  unfold ClipStore.remove_file. set_solver.
Qed.

Lemma step_ok r input :
  recorder_ok r -> (N.of_nat (size (rec_files r)) + 3 <= U32_MAX)%N ->
  recorder_ok (Recorder.step r input).2 /\
  (size (rec_files (Recorder.step r input).2) <= S (size (rec_files r))).
Proof.
  intros Hok Hsize. pose proof Hok as (Hfsm & Hdisk & Hroom).
  destruct input as [event now now_wall|now now_wall|id|]; cbn.
  - pose proof (served_ok r _ Hok (on_event_ok _ event now now_wall Hfsm) (on_event_next _ _ _ _) Hsize) as H.
    by destruct (on_event _ _ _ _).
  - assert (next_clip_id (tick (rec_fsm r) now now_wall).2 <= next_clip_id (rec_fsm r) + 1)%N as Hnext
      by (unfold tick; destruct (map_retain _ _ _); cbn; lia).
    pose proof (served_ok r _ Hok (tick_ok _ now now_wall Hfsm) Hnext Hsize) as H.
    by destruct (tick _ _ _).
  - unfold ClipStore.delete_clip. pose proof (take_clip_spec id (clips (rec_store r))) as H.
    destruct (ClipStore.take_clip id (clips (rec_store r))) as [[meta rest]|]; cbn.
    + destruct H as (_ & Hperm & Hsub). split.
      * split; [done|]. split.
        -- replace (ClipStore.remove_file (rec_files r) meta)
             with (rec_files r ∖ list_to_set (map cm_path [meta]))
             by (unfold ClipStore.remove_file; cbn; set_solver).
           by apply disk_ok_evict.
        -- unfold room in *. cbn. apply sublist_length in Hsub. lia.
      * assert (size (ClipStore.remove_file (rec_files r) meta) <= size (rec_files r)); [|lia].
        apply subseteq_size. unfold ClipStore.remove_file. by apply subseteq_difference_l.
    + split; [|lia]. by destruct r.
  - split.
    + split; [done|]. split; [|unfold room; cbn; lia]. cbn. rewrite foldl_remove_file.
      apply disk_ok_evict; [done|by rewrite app_nil_r|apply sublist_nil_l].
    + rewrite foldl_remove_file.
      assert (size (rec_files r ∖ list_to_set (map cm_path (clips (rec_store r)))) <= size (rec_files r)); [|lia].
      by apply subseteq_size, subseteq_difference_l.
Qed.

Lemma recorder_start_ok config mode files :
  recorder_ok (Recorder.start config mode files) /\
  size (rec_files (Recorder.start config mode files)) <= size files.
Proof.
  split.
  - split; [|split].
    + split; intros ?; intros; done.
    + split; cbn [rec_open rec_store rec_files clips Recorder.start ClipStore.open map].
      * rewrite dom_empty_L. set_solver.
      * intros id (key & c & Hc & _)%elem_of_open_ids. done.
      * by intros c Hc%not_elem_of_nil.
      * constructor.
      * by intros id f Hf%lookup_empty_Some.
      * by intros c Hc%not_elem_of_nil.
      * constructor.
      * by intros id id' f f' Hf%lookup_empty_Some.
      * by intros id f c Hf%lookup_empty_Some.
    + unfold room. cbn. lia.
  - cbn. apply subseteq_size. intros name. by intros [_ H]%elem_of_filter.
Qed.

Lemma recorder_run_ok inputs : forall r,
  recorder_ok r -> (N.of_nat (size (rec_files r) + length inputs) + 3 <= U32_MAX)%N ->
  recorder_ok (Recorder.run r inputs).
Proof.
  induction inputs as [|input inputs IH]; intros r Hok Hsize; [done|].
  cbn [length] in Hsize. destruct (step_ok r input Hok ltac:(lia)) as [Hok' Hs].
  apply IH; [done|]. lia.
Qed.
End runs.

(** ** Silence *)

(** Events that leave a clip of a tap alone: they are no transmission on the
    tap, do not open or close it, and no frame comes after the longest time a
    clip may last. *)
Definition quiet (m : Fsm) (key : TapId) (c : OpenClip) (event : PlaybackSourceEvent) : Prop :=
  match event with
  | TapOpened tap _ _ | TapClosed tap | RxBegin tap _ _ => map_tap m tap <> key
  | Frame tap _ captured_at =>
    map_tap m tap = key -> (duration_since captured_at (oc_started_at c) < max_clip_duration m)%N
  | RxEnd _ _ _ => True
  end.

Lemma quiet_same m m' key c event :
  fsm_mode m' = fsm_mode m -> max_clip_duration m' = max_clip_duration m ->
  quiet m key c event -> quiet m' key c event.
Proof. unfold quiet, map_tap. intros -> ->. by destruct event. Qed.

Lemma still_active_empty callsign frequency active : still_active callsign frequency active ∅ = ∅.
Proof. unfold still_active. destruct active; set_solver. Qed.

Lemma close_open_clip_frame entry now now_wall :
  ts_open (close_open_clip entry now now_wall).2 = None.
Proof. unfold close_open_clip. by destruct (ts_open entry) eqn:H. Qed.

(** A quiet event keeps a silent clip as it is. *)
Lemma quiet_event m key c event now now_wall :
  open_at m key = Some c -> oc_transmitters c = ∅ -> quiet m key c event ->
  let m' := (on_event m event now now_wall).2 in
  open_at m' key = Some c /\ fsm_mode m' = fsm_mode m /\ hangover m' = hangover m /\
  max_clip_duration m' = max_clip_duration m.
Proof.
  intros Hc Hsilent Hq. cbv zeta. destruct event as [tap rate channels|tap|tap samples captured_at
    |tap callsign frequency|callsign frequency active]; cbn in Hq |- *.
  - unfold on_tap_opened. set (entry := default _ _).
    destruct (_ || _); [destruct (close_open_clip _ _ _)|]; cbn [snd];
      (split; [rewrite open_at_insert, decide_False; [done|congruence]|done]).
  - split; [|done]. unfold open_at in *. cbn. by rewrite lookup_delete_ne.
  - unfold on_frame. destruct (taps m !! map_tap m tap) as [entry|] eqn:Hk; [|done].
    destruct (ts_open entry) as [o|] eqn:Ho; [|done]. cbv zeta.
    destruct (decide (map_tap m tap = key)) as [Heq|Hne].
    + assert (o = c) as -> by (unfold open_at in Hc; rewrite <- Heq, Hk in Hc; cbn in Hc; congruence).
      specialize (Hq Heq). cbn [oc_started_at]. destruct (N.leb_spec (max_clip_duration m)
        (duration_since captured_at (oc_started_at c))) as [|_]; [lia|].
      cbn [snd]. split; [|done]. rewrite open_at_insert, decide_True by done. cbn.
      rewrite Hsilent, bool_decide_true by done. cbn. by destruct c; cbn in *; subst.
    + destruct (_ <=? _)%N; [destruct (close_open_clip _ _ _)|]; cbn [snd take_clip_id].
      * split; [|done]. unfold open_at in *. cbn. by rewrite lookup_insert_ne.
      * split; [|done]. by rewrite open_at_insert, decide_False by congruence.
  - unfold on_rx_begin. destruct (taps m !! map_tap m tap) as [entry|] eqn:Hk; [|done].
    destruct (ts_open entry) as [o|]; cbn [snd take_clip_id].
    + split; [|done]. by rewrite open_at_insert, decide_False by congruence.
    + split; [|done]. unfold open_at in *. cbn. by rewrite lookup_insert_ne.
  - split; [|done]. rewrite open_at_rx_end, Hc. cbn. f_equal. unfold end_clip.
    rewrite Hsilent, still_active_empty. by destruct c; cbn in *; subst.
Qed.

Definition feed (m : Fsm) (events : list (PlaybackSourceEvent * Instant * SystemTime)) : Fsm :=
  foldl (λ m e, (on_event m e.1.1 e.1.2 e.2).2) m events.

Lemma quiet_events key c events : forall m,
  open_at m key = Some c -> oc_transmitters c = ∅ ->
  Forall (λ e : PlaybackSourceEvent * Instant * SystemTime, quiet m key c e.1.1) events ->
  open_at (feed m events) key = Some c /\ hangover (feed m events) = hangover m.
Proof.
  induction events as [|[[event now] now_wall] events IH]; intros m Hc Hsilent Hq; [done|].
  apply Forall_cons in Hq as [Hq Hqs]. cbn in Hq.
  destruct (quiet_event m key c event now now_wall Hc Hsilent Hq) as (Hc' & Hmode & Hh & Hmax).
  cbn [feed foldl fst snd]. destruct (IH (on_event m event now now_wall).2) as [H1 H2].
  - done.
  - done.
  - eapply Forall_impl; [exact Hqs|]. intros e He. by eapply quiet_same.
  - split; [exact H1|]. unfold feed in H2. by rewrite H2.
Qed.

(** ** A small recording *)

Definition khz_of_hz : FrequencyKhz := λ f, (f / 1000)%N.

(** Writers that always work and measure the length 1 ms. *)
Definition working_writer : ClipWriter :=
  {| writer_create _ rate channels := (0 <? rate)%N && (0 <? channels)%N; writer_finalize _ := Some 1%N |}.

Definition ms (n : N) : N := (n * 1000000)%N.

Definition demo_inputs : list Recorder.Input :=
  [Recorder.Event (TapOpened Headset 48000 2) 0 0;
   Recorder.Event (RxBegin Headset "DLH4AB" 119400000) (ms 10) (ms 10);
   Recorder.Event (Frame Headset [1%N] (ms 20)) (ms 20) (ms 20);
   Recorder.Event (RxEnd "DLH4AB" 119400000 None) (ms 30) (ms 30);
   Recorder.Tick (ms 300) (ms 300)].

(** ** Properties *)



(** Silence ends a clip. When every transmitter of an open clip has ended
    and nobody else begins on the tap, the first tick no earlier than the
    hangover after the last audio closes the clip, however many silent frames
    the tap goes on delivering, unless the clip reaches its longest duration
    before. *)
Theorem silence_ends_clip {HO : HashOrder} m key c events now now_wall :
  open_at m key = Some c -> oc_transmitters c = ∅ ->
  Forall (λ e : PlaybackSourceEvent * Instant * SystemTime, quiet m key c e.1.1) events ->
  (oc_last_audio_at c + hangover m <= now)%N ->
  open_at (tick (feed m events) now now_wall).2 key = None /\
  exists duration ended,
    CloseClip (oc_clip_id c) (oc_callsigns c) ended duration ∈ (tick (feed m events) now now_wall).1.
Proof.
  intros Hc Hsilent Hq Hnow. destruct (quiet_events key c events m Hc Hsilent Hq) as [Hc' Hh].
  split.
  - rewrite open_at_tick, Hc'. cbn. rewrite decide_True; [done|]. by rewrite Hh.
  - rewrite tick_requests. unfold open_at in Hc'.
    destruct (taps (feed m events) !! key) as [entry|] eqn:Hk; [|done]. cbn in Hc'.
    eexists _, _. apply list_elem_of_In, in_concat.
    exists (tick_actions (feed m events) now now_wall entry). split.
    + apply in_map_iff. exists (key, entry). split; [done|].
      by apply list_elem_of_In, elem_of_map_iter.
    + apply list_elem_of_In. unfold tick_actions.
      assert (should_close (feed m events) entry now = true) as ->
        by (apply should_close_spec; exists c; by rewrite Hh).
      unfold close_open_clip. rewrite Hc'. cbn. apply list_elem_of_here.
Qed.

Definition demo_fsm : Fsm :=
  feed (Fsm.new default_config PerTap)
    [(TapOpened Headset 48000 2, 0, 0); (RxBegin Headset "DLH4AB" 119400000, ms 10, ms 10);
     (RxEnd "DLH4AB" 119400000 None, ms 30, ms 30)]%N.

Definition demo_clip : OpenClip :=
  mkOpenClip 1 (ms 10) (ms 10) (ms 10) ∅ {["DLH4AB"]} (Some 119400000%N).

Lemma silence_ends_clip_witness :
  open_at (@tick listed_order (feed demo_fsm [(Frame Headset [0%N] (ms 200), ms 200, ms 200)])
    (ms 260) (ms 260)).2 Headset = None.
Proof.
  apply (@silence_ends_clip listed_order demo_fsm Headset demo_clip).
  - vm_compute. reflexivity.
  - reflexivity.
  - apply List.Forall_cons; [|apply List.Forall_nil]. intros _. vm_compute. reflexivity.
  - vm_compute. discriminate.
Defined.
