(* ===== verification/Keybinds.v ===== *)
(** Keybinds: the keys of the desktop client, in
    [vacs-client/src/keybinds.rs] and [keybinds/engine.rs]: which trigger drives
    what, and the engine that opens the microphone, keys the radio and controls
    calls.

    An operation answers its effects in order and the new engine; the flags the
    engine shares with its task are atomic, and an event is one step. The
    platform, the listener's view of the bindings of the desktop and whether
    listeners start are arguments. *)
From stdpp Require Import prelude strings list.
From Stdlib Require Import NArith.
From S2P Require Import Prelude Protocol.

(** ** Inputs and triggers ([keybinds.rs]) *)

(** A key is known by the name of its code. *)
Record JoystickButton := mkJoystickButton {
  device : string;
  button : N;
  button_name : option string
}.

Inductive InputCode := Key (code : string) | Button (b : JoystickButton).

Inductive PortalAction :=
| PA_PushToTalk | PA_PushToMute | PA_RadioPushToTalk | PA_CallControl | PA_ToggleRadioPrio
| PA_SayAgain.

Inductive Trigger := Input (code : InputCode) | Portal (action : PortalAction).

#[export] Instance PortalAction_eq_dec : EqDecision PortalAction.
Proof. solve_decision. Defined.

(** The name of a button is for display and does not count. *)
Definition button_eqb (a b : JoystickButton) : bool :=
  bool_decide (device a = device b) && (button a =? button b)%N.

Definition input_eqb (a b : InputCode) : bool :=
  match a, b with
  | Key a, Key b => bool_decide (a = b)
  | Button a, Button b => button_eqb a b
  | _, _ => false
  end.

Definition trigger_eqb (a b : Trigger) : bool :=
  match a, b with
  | Input a, Input b => input_eqb a b
  | Portal a, Portal b => bool_decide (a = b)
  | _, _ => false
  end.

(** [option == Some(trigger)] *)
Definition is_trigger (configured : option Trigger) (trigger : Trigger) : bool :=
  match configured with Some t => trigger_eqb t trigger | None => false end.

Definition same_trigger (a b : option Trigger) : bool :=
  match a, b with
  | Some a, Some b => trigger_eqb a b
  | None, None => true
  | _, _ => false
  end.

(** A configured button replaces the shortcut of the desktop. *)
Definition compose_wayland_trigger (portal : option PortalAction) (configured : option InputCode) :
    option Trigger :=
  match configured with
  | Some (Button b) => Some (Input (Button b))
  | _ => Portal <$> portal
  end.

Inductive CallMicMode := VoiceActivation | PushToTalk | PushToMute.

#[export] Instance CallMicMode_eq_dec : EqDecision CallMicMode.
Proof. solve_decision. Defined.

Record TransmitConfig := mkTransmitConfig {
  tc_call_mic_mode : CallMicMode;
  push_to_talk : option InputCode;
  push_to_mute : option InputCode;
  radio_push_to_talk : option InputCode;
  was_radio_integration : option bool
}.

Record KeybindsConfig := mkKeybindsConfig {
  accept_call : option InputCode;
  end_call : option InputCode;
  toggle_radio_prio : option InputCode;
  say_again : option InputCode
}.

(** Whether the client runs on Wayland *)
Class Platform := wayland : bool.

Module TransmitConfig.
Section platform.
Context {PF : Platform}.

Definition configured_call_input (c : TransmitConfig) : option InputCode :=
  match tc_call_mic_mode c with
  | VoiceActivation => None
  | PushToTalk => push_to_talk c
  | PushToMute => push_to_mute c
  end.

Definition active_call_trigger (c : TransmitConfig) : option Trigger :=
  if wayland then
    compose_wayland_trigger
      match tc_call_mic_mode c with
      | VoiceActivation => None
      | PushToTalk => Some PA_PushToTalk
      | PushToMute => Some PA_PushToMute
      end (configured_call_input c)
  else Input <$> configured_call_input c.

Definition configured_radio_input (c : TransmitConfig) : option InputCode :=
  match tc_call_mic_mode c with
  | VoiceActivation => radio_push_to_talk c
  | PushToTalk =>
    match radio_push_to_talk c with Some input => Some input | None => push_to_talk c end
  | PushToMute => push_to_mute c
  end.

Definition active_radio_trigger (c : TransmitConfig) (enabled : bool) : option Trigger :=
  if negb enabled then None
  else if wayland then
    compose_wayland_trigger
      match tc_call_mic_mode c with
      | VoiceActivation | PushToTalk => Some PA_RadioPushToTalk
      | PushToMute => Some PA_PushToMute
      end (configured_radio_input c)
  else Input <$> configured_radio_input c.

Definition radio_falls_back_to_call (c : TransmitConfig) (enabled : bool) : bool :=
  if enabled && wayland && bool_decide (tc_call_mic_mode c = PushToTalk) then
    match configured_radio_input c with Some (Button _) => false | _ => true end
  else false.
End platform.

(** The stored configuration, in its present and its older form
    ([TransmitConfigRaw]) *)
Inductive TransmitMode := TM_VoiceActivation | TM_PushToTalk | TM_PushToMute | TM_RadioIntegration.

Record TransmitConfigRaw := mkTransmitConfigRaw {
  raw_call_mic_mode : option CallMicMode;
  raw_mode : option TransmitMode;
  raw_push_to_talk : option InputCode;
  raw_push_to_mute : option InputCode;
  raw_radio_push_to_talk : option InputCode
}.

Definition from_raw (raw : TransmitConfigRaw) : TransmitConfig :=
  match raw_mode raw, raw_call_mic_mode raw with
  | Some mode, _ =>
    let call_mic_mode :=
      match mode with
      | TM_VoiceActivation => VoiceActivation
      | TM_PushToTalk | TM_RadioIntegration => PushToTalk
      | TM_PushToMute => PushToMute
      end in
    let is_radio_integration := match mode with TM_RadioIntegration => true | _ => false end in
    mkTransmitConfig call_mic_mode
      (if is_radio_integration then raw_radio_push_to_talk raw else raw_push_to_talk raw)
      (raw_push_to_mute raw) (raw_radio_push_to_talk raw) (Some is_radio_integration)
  | None, Some call_mic_mode =>
    mkTransmitConfig call_mic_mode (raw_push_to_talk raw) (raw_push_to_mute raw)
      (raw_radio_push_to_talk raw) None
  | None, None => mkTransmitConfig VoiceActivation None None None None
  end.
End TransmitConfig.

(** ** The engine ([engine.rs]) *)

Inductive Effect :=
| SetInputMuted (muted : bool)
| RadioTransmit (active : bool)
| EmitImplicitRadioPrio (on : bool)
| EmitRadioPrio (on : bool)
| EmitSayAgain
| ControlKey (trigger : Trigger).

Record KeybindEngine := mkKeybindEngine {
  call_mic_mode : CallMicMode;
  call_trigger : option Trigger;
  radio_trigger : option Trigger;
  accept_call_trigger : option Trigger;
  end_call_trigger : option Trigger;
  toggle_radio_prio_trigger : option Trigger;
  say_again_trigger : option Trigger;
  running : bool;
  radio_portal_fallback : bool;
  radio_follows_call : bool;
  call_pressed : bool;
  radio_pressed : bool;
  call_active : bool;
  radio_prio : bool;
  implicit_radio_prio : bool;
  radio_transmitting : bool;
  (** [HeldControls::held], of the task *)
  held : list Trigger
}.

Section setters.
Context (e : KeybindEngine).
Let mk run follows cp rp act prio impl tx h :=
  mkKeybindEngine (call_mic_mode e) (call_trigger e) (radio_trigger e) (accept_call_trigger e)
    (end_call_trigger e) (toggle_radio_prio_trigger e) (say_again_trigger e) run
    (radio_portal_fallback e) follows cp rp act prio impl tx h.
Definition with_running x := mk x (radio_follows_call e) (call_pressed e) (radio_pressed e)
  (call_active e) (radio_prio e) (implicit_radio_prio e) (radio_transmitting e) (held e).
Definition with_follows x := mk (running e) x (call_pressed e) (radio_pressed e)
  (call_active e) (radio_prio e) (implicit_radio_prio e) (radio_transmitting e) (held e).
Definition with_pressed x y := mk (running e) (radio_follows_call e) x y
  (call_active e) (radio_prio e) (implicit_radio_prio e) (radio_transmitting e) (held e).
Definition with_call_active x := mk (running e) (radio_follows_call e) (call_pressed e)
  (radio_pressed e) x (radio_prio e) (implicit_radio_prio e) (radio_transmitting e) (held e).
Definition with_prio x y := mk (running e) (radio_follows_call e) (call_pressed e)
  (radio_pressed e) (call_active e) x y (radio_transmitting e) (held e).
Definition with_transmitting x := mk (running e) (radio_follows_call e) (call_pressed e)
  (radio_pressed e) (call_active e) (radio_prio e) (implicit_radio_prio e) x (held e).
Definition with_held x := mk (running e) (radio_follows_call e) (call_pressed e)
  (radio_pressed e) (call_active e) (radio_prio e) (implicit_radio_prio e) (radio_transmitting e) x.
End setters.

Definition controls (e : KeybindEngine) : list Trigger :=
  omap id [accept_call_trigger e; end_call_trigger e; toggle_radio_prio_trigger e;
           say_again_trigger e].

(** [HeldControls::transition] *)
Definition transition (cs hs : list Trigger) (trigger : Trigger) (down : bool) : bool * list Trigger :=
  if negb (existsb (λ t, trigger_eqb t trigger) cs) then (false, hs)
  else if down then
    if existsb (λ t, trigger_eqb t trigger) hs then (false, hs) else (true, hs ++ [trigger])
  else (false, base.filter (λ t, ~ trigger_eqb t trigger) hs).

Definition classify_trigger (trigger : Trigger) (call radio : option Trigger) (follows : bool) :
    bool * bool :=
  let is_call_key := is_trigger call trigger in
  (is_call_key, if follows then is_call_key else is_trigger radio trigger).

(** [bound]: whether the listener is there and a key is bound to the radio
    shortcut of the desktop. *)
Definition refresh_radio_follows_call (e : KeybindEngine) (bound : bool) : KeybindEngine :=
  if negb (radio_portal_fallback e) || call_pressed e || radio_pressed e then e
  else with_follows e (negb bound).

Definition attach_input_muted (mode : CallMicMode) (call_pressed radio_pressed radio_prio : bool)
    (separate_keys : bool) : bool :=
  match mode with
  | VoiceActivation => radio_prio
  | PushToTalk =>
    if separate_keys then negb call_pressed else negb call_pressed || (radio_pressed && radio_prio)
  | PushToMute => call_pressed || radio_prio
  end.

Module KeybindEngine.
Section engine.
Context {PF : Platform}.

(** [select_*_trigger] *)
Definition select_trigger (portal : PortalAction) (configured : option InputCode) : option Trigger :=
  if wayland then compose_wayland_trigger (Some portal) configured else Input <$> configured.

(** The part of the configuration that [new] and [set_config] share. *)
Definition configure (t : TransmitConfig) (k : KeybindsConfig) (radio_enabled : bool)
    (call_pressed radio_pressed call_active radio_prio implicit radio_transmitting : bool) :
    KeybindEngine :=
  let fallback := TransmitConfig.radio_falls_back_to_call t radio_enabled in
  mkKeybindEngine (tc_call_mic_mode t) (TransmitConfig.active_call_trigger t)
    (TransmitConfig.active_radio_trigger t radio_enabled)
    (select_trigger PA_CallControl (accept_call k)) (select_trigger PA_CallControl (end_call k))
    (select_trigger PA_ToggleRadioPrio (toggle_radio_prio k))
    (select_trigger PA_SayAgain (say_again k)) false fallback fallback
    call_pressed radio_pressed call_active radio_prio implicit radio_transmitting [].

Definition new (t : TransmitConfig) (k : KeybindsConfig) (radio_enabled : bool) : KeybindEngine :=
  configure t k radio_enabled false false false false false false.

Definition any_button_trigger (e : KeybindEngine) : bool :=
  existsb (λ t, match t with Some (Input (Button _)) => true | _ => false end)
    [call_trigger e; radio_trigger e; accept_call_trigger e; end_call_trigger e;
     toggle_radio_prio_trigger e; say_again_trigger e].

(** [keyboard_ok], [joystick_ok]: whether the two listeners start; [bound] as
    above. The answer says whether starting failed. *)
Definition start (e : KeybindEngine) (keyboard_ok joystick_ok bound : bool) : bool * KeybindEngine :=
  if running e then (true, e)
  else
    let has_controls := negb (bool_decide (controls e = [])) in
    let is_none (t : option Trigger) := match t with None => true | Some _ => false end in
    if is_none (call_trigger e) && is_none (radio_trigger e) && negb has_controls then (true, e)
    else if negb keyboard_ok && negb (any_button_trigger e) then (true, e)
    else if any_button_trigger e && negb joystick_ok && negb keyboard_ok then (false, e)
    else (true, with_held (with_running (refresh_radio_follows_call e (keyboard_ok && bound)) true) []).

Definition radio_shares_call_trigger (e : KeybindEngine) : bool :=
  match radio_trigger e with
  | None => false
  | Some _ => same_trigger (radio_trigger e) (call_trigger e) || radio_follows_call e
  end.

Definition reset_input_state (e : KeybindEngine) : list Effect * KeybindEngine :=
  let effects := if radio_transmitting e then [RadioTransmit false] else [] in
  let muted := match call_mic_mode e with PushToTalk => true | _ => false end in
  (effects ++ [SetInputMuted muted], with_transmitting (with_pressed e false false) false).

Definition stop (e : KeybindEngine) : list Effect * KeybindEngine :=
  if running e then reset_input_state (with_running e false) else ([], e).

Definition set_config (e : KeybindEngine) (t : TransmitConfig) (k : KeybindsConfig)
    (radio_enabled keyboard_ok joystick_ok bound : bool) : list Effect * KeybindEngine :=
  let (stopped, e) := stop e in
  let e := configure t k radio_enabled (call_pressed e) (radio_pressed e) (call_active e)
    (radio_prio e) (implicit_radio_prio e) (radio_transmitting e) in
  let (effects, e) := reset_input_state e in
  (stopped ++ effects, (start e keyboard_ok joystick_ok bound).2).

Definition set_call_active (e : KeybindEngine) (active : bool) : list Effect * KeybindEngine :=
  let e := with_call_active e active in
  if active then
    if radio_shares_call_trigger e && radio_pressed e && radio_transmitting e
       && negb (radio_prio e) && negb (bool_decide (call_mic_mode e = VoiceActivation))
    then ([EmitImplicitRadioPrio true], with_prio e true true)
    else ([], e)
  else ([EmitImplicitRadioPrio false], with_prio e false false).

Definition set_radio_prio (e : KeybindEngine) (prio : bool) : list Effect * KeybindEngine :=
  let prev_prio := radio_prio e in
  let e := with_prio e prio
    (if negb prio && prev_prio && radio_pressed e then true else implicit_radio_prio e) in
  match call_mic_mode e, call_pressed e with
  | VoiceActivation, _ | PushToMute, false => ([SetInputMuted prio], e)
  | _, _ => ([], e)
  end.

(** [radio_prio] of the source: the explicit or the implicit one. *)
Definition any_radio_prio (e : KeybindEngine) : bool := radio_prio e || implicit_radio_prio e.

Definition should_attach_input_muted (e : KeybindEngine) : bool :=
  attach_input_muted (call_mic_mode e) (call_pressed e) (radio_pressed e) (radio_prio e)
    (match radio_trigger e with Some _ => negb (radio_shares_call_trigger e) | None => false end).

(** The part of the event loop after the flags of the keys. *)
Definition dispatch_key (e : KeybindEngine) (is_call_key is_radio_key down : bool) :
    list Effect * KeybindEngine :=
  let effective_prio := radio_prio e && negb (implicit_radio_prio e) in
  let separate := xorb is_call_key is_radio_key in
  let transmits := is_radio_key && (separate || negb (call_active e) || radio_prio e
    || negb (bool_decide (call_mic_mode e = PushToTalk))) in
  let transmit := if transmits then [RadioTransmit down] else [] in
  let e := if transmits then with_transmitting e down else e in
  let mic :=
    if call_active e then
      match call_mic_mode e, is_call_key, effective_prio with
      | VoiceActivation, _, _ => []
      | PushToTalk, true, false => [SetInputMuted (negb down)]
      | PushToTalk, true, true => [SetInputMuted true]
      | PushToMute, _, false => [SetInputMuted down]
      | _, _, _ => []
      end
    else [] in
  let (cleanup, e) :=
    if negb down && is_radio_key && implicit_radio_prio e then
      if radio_prio e then ([EmitImplicitRadioPrio false], with_prio e false false)
      else ([RadioTransmit false], with_transmitting (with_prio e false false) false)
    else ([], e) in
  (transmit ++ mic ++ cleanup, e).

(** One turn of the event loop. [room]: whether the channel of the control keys
    has room. *)
Definition key_event (e : KeybindEngine) (trigger : Trigger) (down bound room : bool) :
    list Effect * KeybindEngine :=
  if negb (running e) then ([], e)
  else
    let (fires, hs) := transition (controls e) (held e) trigger down in
    let control := if fires && room then [ControlKey trigger] else [] in
    let e := refresh_radio_follows_call (with_held e hs) bound in
    let (is_call_key, is_radio_key) :=
      classify_trigger trigger (call_trigger e) (radio_trigger e) (radio_follows_call e) in
    if negb is_call_key && negb is_radio_key then (control, e)
    else if is_call_key && Bool.eqb (call_pressed e) down then (control, e)
    else
      let e := with_pressed e (if is_call_key then down else call_pressed e) (radio_pressed e) in
      if is_radio_key && Bool.eqb (radio_pressed e) down then (control, e)
      else
        let e := with_pressed e (call_pressed e) (if is_radio_key then down else radio_pressed e) in
        let (effects, e) := dispatch_key e is_call_key is_radio_key down in
        (control ++ effects, e).

(** What a control key asks for: the toggling of the radio priority is the only
    part that concerns the engine. *)
Inductive ControlAction :=
| EndOrAcceptCall | AcceptCall | EndCall | ToggleRadioPrio | SayAgain | NoControl.

Definition control_action (e : KeybindEngine) (trigger : Trigger) : ControlAction :=
  let is_accept := is_trigger (accept_call_trigger e) trigger in
  let is_end := is_trigger (end_call_trigger e) trigger in
  if is_accept && is_end then EndOrAcceptCall
  else if is_accept then AcceptCall
  else if is_end then EndCall
  else if is_trigger (toggle_radio_prio_trigger e) trigger then ToggleRadioPrio
  else if is_trigger (say_again_trigger e) trigger then SayAgain
  else NoControl.

Definition handle_control_event (e : KeybindEngine) (trigger : Trigger) :
    list Effect * KeybindEngine :=
  match control_action e trigger with
  | ToggleRadioPrio =>
    if call_active e then
      let prio := negb (any_radio_prio e) in
      let (effects, e) := set_radio_prio e prio in
      (effects ++ [EmitRadioPrio prio], e)
    else ([], e)
  | SayAgain => ([EmitSayAgain], e)
  | _ => ([], e)
  end.
End engine.
End KeybindEngine.
