(* ===== verification/KeybindProperties.v ===== *)
(** KeybindProperties: the theorems about the keys of the client: the radio and
    the microphone are open only while a key is held. *)
From stdpp Require Import prelude strings list.
From Stdlib Require Import NArith.
From S2P Require Import Prelude Protocol Keybinds.
Import KeybindEngine.

(** ** Triggers *)

(** What counts of a trigger *)
Definition trigger_id (t : Trigger) : string + string * N + PortalAction :=
  match t with
  | Input (Key code) => inl (inl code)
  | Input (Button b) => inl (inr (device b, button b))
  | Portal action => inr action
  end.

Lemma trigger_eqb_id a b : trigger_eqb a b = true <-> trigger_id a = trigger_id b.
Proof.
  destruct a as [[|[d n nm]]|], b as [[|[d' n' nm']]|]; cbn; unfold button_eqb; cbn;
    rewrite ?andb_true_iff, ?bool_decide_eq_true, ?N.eqb_eq; try (split; intros; congruence);
    (split; [intros [-> ->]|intros [= -> ->]]; done).
Qed.

(** One trigger is both the call key and the radio key. *)
Definition shared (e : KeybindEngine) : bool :=
  match call_trigger e with
  | None => false
  | Some t => if radio_follows_call e then true else is_trigger (radio_trigger e) t
  end.

Lemma is_trigger_id configured t :
  is_trigger configured t = true <-> exists t', configured = Some t' /\ trigger_id t' = trigger_id t.
Proof.
  unfold is_trigger. destruct configured as [t'|]; [|naive_solver].
  rewrite trigger_eqb_id. naive_solver.
Qed.

(** Classified both ways, or neither way, when the key is shared; at most one
    way when it is not. *)
Lemma classify_shared e t c r :
  (radio_follows_call e = true -> is_Some (call_trigger e)) ->
  classify_trigger t (call_trigger e) (radio_trigger e) (radio_follows_call e) = (c, r) ->
  if shared e then c = r else c && r = false.
Proof.
  intros Hf. unfold classify_trigger, shared. intros [= <- <-].
  destruct (call_trigger e) as [ct|] eqn:Hc; cbn.
  - destruct (radio_follows_call e); [done|].
    destruct (is_trigger (radio_trigger e) ct) eqn:Hr.
    + apply is_trigger_id in Hr as (rt & -> & Hid). cbn. apply eq_true_iff_eq.
      rewrite !trigger_eqb_id. rewrite Hid. done.
    + destruct (trigger_eqb ct t) eqn:H1; [|done]. cbn. apply not_true_iff_false.
      apply not_true_iff_false in Hr. intros H2. apply Hr.
      apply is_trigger_id in H2 as (rt & -> & Hid). apply trigger_eqb_id in H1.
      cbn. apply trigger_eqb_id. congruence.
  - destruct (radio_follows_call e); [|done]. by destruct (Hf eq_refl).
Qed.

(** ** Runs *)

(** The engine, what the radio was last told, and the input of the call, if one
    is attached, with its mute. *)
Record Cockpit := mkCockpit {
  engine : KeybindEngine;
  radio_keyed : bool;
  mic_muted : option bool
}.

Definition perform (radio : bool) (mic : option bool) (effect : Effect) : bool * option bool :=
  match effect with
  | RadioTransmit active => (active, mic)
  | SetInputMuted muted => (radio, (λ _, muted) <$> mic)
  | _ => (radio, mic)
  end.

Definition performed (effects : list Effect) (radio : bool) (mic : option bool) :
    bool * option bool :=
  foldl (λ s effect, perform s.1 s.2 effect) (radio, mic) effects.

(** What happens to the cockpit. [PeerConnected] attaches the input of a call
    ([webrtc.rs], where a peer whose input cannot be attached fails);
    [InputDetached] takes it away. *)
Inductive Happening :=
| KeyEvent (trigger : Trigger) (down bound room : bool)
| ControlEvent (trigger : Trigger)
| RadioPrioCommand (prio : bool)
| PeerConnected
| CallEnded
| InputDetached
| Configured (t : TransmitConfig) (k : KeybindsConfig)
    (radio_enabled keyboard_ok joystick_ok bound : bool)
| Stopped.

Section runs.
Context {PF : Platform}.

Definition after (s : Cockpit) (step : list Effect * KeybindEngine) : Cockpit :=
  let (radio, mic) := performed step.1 (radio_keyed s) (mic_muted s) in
  mkCockpit step.2 radio mic.

Definition happen (s : Cockpit) (h : Happening) : Cockpit :=
  let e := engine s in
  match h with
  | KeyEvent trigger down bound room => after s (key_event e trigger down bound room)
  | ControlEvent trigger => after s (handle_control_event e trigger)
  | RadioPrioCommand prio => after s (set_radio_prio e prio)
  | PeerConnected =>
    let s := after s (set_call_active e true) in
    mkCockpit (engine s) (radio_keyed s) (Some (should_attach_input_muted (engine s)))
  | CallEnded => after s (set_call_active e false)
  | InputDetached => mkCockpit e (radio_keyed s) None
  | Configured t k radio_enabled keyboard_ok joystick_ok bound =>
    after s (set_config e t k radio_enabled keyboard_ok joystick_ok bound)
  | Stopped => after s (stop e)
  end.

Definition fly (s : Cockpit) (hs : list Happening) : Cockpit := foldl happen s hs.

Definition cold (t : TransmitConfig) (k : KeybindsConfig) (radio_enabled : bool) : Cockpit :=
  mkCockpit (new t k radio_enabled) false None.

(** ** What holds of the engine *)

Record engine_ok (e : KeybindEngine) : Prop := {
  eo_follows : radio_follows_call e = true -> radio_portal_fallback e = true;
  eo_fallback : radio_portal_fallback e = true ->
    is_Some (radio_trigger e) /\ is_Some (call_trigger e);
  eo_shared : shared e = true -> call_pressed e = radio_pressed e;
  eo_held : radio_transmitting e = true -> radio_pressed e = true;
  eo_released : radio_transmitting e = true -> shared e = true -> call_mic_mode e = PushToTalk ->
    call_active e = true -> radio_prio e || implicit_radio_prio e = true
}.

Record cockpit_ok (s : Cockpit) : Prop := {
  co_engine : engine_ok (engine s);
  co_radio : radio_keyed s = radio_transmitting (engine s);
  co_mic : call_mic_mode (engine s) = PushToTalk -> call_active (engine s) = true ->
    mic_muted s = Some false -> call_pressed (engine s) = true
}.

Lemma compose_wayland_Some portal configured :
  is_Some (compose_wayland_trigger (Some portal) configured).
Proof. destruct configured as [[]|]; by eexists. Qed.

Lemma configure_fallback t k enabled cp rp act prio impl tx :
  let e := configure t k enabled cp rp act prio impl tx in
  radio_portal_fallback e = true -> is_Some (radio_trigger e) /\ is_Some (call_trigger e).
Proof.
  cbn. unfold TransmitConfig.radio_falls_back_to_call, TransmitConfig.active_radio_trigger,
    TransmitConfig.active_call_trigger.
  destruct enabled; cbn; [|done]. destruct wayland; [|done]. cbn.
  case_bool_decide as Hm; [|done]. rewrite Hm. intros _. split; apply compose_wayland_Some.
Qed.

(** Engines without a key held *)
Lemma engine_ok_idle e :
  (radio_follows_call e = true -> radio_portal_fallback e = true) ->
  (radio_portal_fallback e = true -> is_Some (radio_trigger e) /\ is_Some (call_trigger e)) ->
  call_pressed e = false -> radio_pressed e = false -> radio_transmitting e = false -> engine_ok e.
Proof. intros H1 H2 H3 H4 H5. split; try done; congruence. Qed.

Lemma refresh_idle e bound :
  (radio_follows_call e = true -> radio_portal_fallback e = true) ->
  radio_follows_call (refresh_radio_follows_call e bound) = true ->
  radio_portal_fallback (refresh_radio_follows_call e bound) = true.
Proof.
  intros H. unfold refresh_radio_follows_call. destruct (radio_portal_fallback e) eqn:Hf; cbn; [|by rewrite Hf].
  destruct (call_pressed e || radio_pressed e); cbn; [|done]. by rewrite Hf.
Qed.

Lemma refresh_ok e bound : engine_ok e -> engine_ok (refresh_radio_follows_call e bound).
Proof.
  intros [H1 H2 H3 H4 H5]. unfold refresh_radio_follows_call.
  destruct (radio_portal_fallback e) eqn:Hf; cbn; [|by split; rewrite ?Hf].
  destruct (call_pressed e) eqn:Hc, (radio_pressed e) eqn:Hr; cbn; try by split; rewrite ?Hf, ?Hc, ?Hr.
  apply engine_ok_idle; cbn; [by intros _|by rewrite Hf|done..|].
  destruct (radio_transmitting e); [|done]. by discriminate H4.
Qed.

Lemma reset_idle e :
  let e' := (reset_input_state e).2 in
  call_pressed e' = false /\ radio_pressed e' = false /\ radio_transmitting e' = false.
Proof. done. Qed.

Lemma reset_ok e : engine_ok e -> engine_ok (reset_input_state e).2.
Proof. intros []. by apply engine_ok_idle. Qed.

Lemma performed_app l1 l2 radio mic :
  performed (l1 ++ l2) radio mic = performed l2 (performed l1 radio mic).1 (performed l1 radio mic).2.
Proof. unfold performed. rewrite foldl_app. by destruct (foldl _ _ l1). Qed.

Lemma reset_performed e mic :
  performed (reset_input_state e).1 (radio_transmitting e) mic =
    (false, (λ _, bool_decide (call_mic_mode e = PushToTalk)) <$> mic).
Proof.
  unfold reset_input_state. cbn. destruct (radio_transmitting e), (call_mic_mode e), mic; done.
Qed.

Lemma start_frame e keyboard_ok joystick_ok bound :
  let e' := (start e keyboard_ok joystick_ok bound).2 in
  call_pressed e' = call_pressed e /\ radio_pressed e' = radio_pressed e /\
  radio_transmitting e' = radio_transmitting e /\ call_mic_mode e' = call_mic_mode e /\
  call_active e' = call_active e.
Proof.
  cbv zeta. unfold start. destruct (running e); [done|]. destruct (_ && _); [done|].
  destruct (_ && _); [done|]. destruct (_ && _ && _); [done|]. cbn.
  unfold refresh_radio_follows_call. by destruct (_ || _).
Qed.

Lemma start_ok e keyboard_ok joystick_ok bound :
  engine_ok e -> engine_ok (start e keyboard_ok joystick_ok bound).2.
Proof.
  intros Hok. unfold start. destruct (running e); [done|]. destruct (_ && _); [done|].
  destruct (_ && _); [done|]. destruct (_ && _ && _); [done|]. cbn.
  by destruct (refresh_ok e (keyboard_ok && bound) Hok).
Qed.

(** ** Every operation keeps it *)

(** The part of a key event after its flags are set: [c] and [r] say what the key
    is, [down] where it went. *)
Lemma dispatch_ok (s : Cockpit) e c r down :
  (radio_follows_call e = true -> radio_portal_fallback e = true) ->
  (radio_portal_fallback e = true -> is_Some (radio_trigger e) /\ is_Some (call_trigger e)) ->
  (shared e = true -> call_pressed e = radio_pressed e) ->
  (if shared e then c = r else c && r = false) ->
  (c = true -> call_pressed e = down) -> (r = true -> radio_pressed e = down) ->
  (radio_transmitting e = true -> if r then down = false else radio_pressed e = true) ->
  (radio_transmitting e = true -> shared e = true -> call_mic_mode e = PushToTalk ->
    call_active e = true -> radio_prio e || implicit_radio_prio e = true) ->
  radio_keyed s = radio_transmitting e ->
  (call_mic_mode e = PushToTalk -> call_active e = true -> mic_muted s = Some false ->
    if c then True else call_pressed e = true) ->
  cockpit_ok (after s (dispatch_key e c r down)).
Proof.
  destruct s as [e0 radio mic], e as [mode ct rt t1 t2 t3 t4 run fb fo cp rp act pr im tx hd].
  unfold shared; cbn [radio_follows_call radio_portal_fallback radio_trigger call_trigger call_pressed
    radio_pressed radio_transmitting call_mic_mode call_active radio_prio implicit_radio_prio
    radio_keyed mic_muted].
  intros H1 H2 H3 Hcr Hc Hr Htx Hrel -> Hmic.
  set (sh := match ct with Some t => _ | None => false end) in *.
  assert (Hsh : forall e, call_trigger e = ct -> radio_trigger e = rt -> radio_follows_call e = fo ->
    shared e = sh) by (intros e Ha Hb Hc'; unfold shared; by rewrite Ha, Hb, Hc').
  clearbody sh.
  assert (Hok : forall e radio mic', call_trigger e = ct -> radio_trigger e = rt ->
    radio_follows_call e = fo -> radio_portal_fallback e = fb -> call_pressed e = cp ->
    radio_pressed e = rp -> call_mic_mode e = mode -> call_active e = act ->
    radio = radio_transmitting e -> (radio_transmitting e = true -> rp = true) ->
    (radio_transmitting e = true -> sh = true -> mode = PushToTalk -> act = true ->
      radio_prio e || implicit_radio_prio e = true) ->
    (mode = PushToTalk -> act = true -> mic' = Some false -> cp = true) ->
    cockpit_ok (mkCockpit e radio mic')).
  { intros e radio mic' E1 E2 E3 E4 E5 E6 E7 E8 -> ???.
    split; [split|done|]; cbn; rewrite ?(Hsh e E1 E2 E3), ?E1, ?E2, ?E3, ?E4, ?E5, ?E6, ?E7, ?E8; done. }
  clear H1 H2. unfold after, dispatch_key. cbn.
  destruct c, r; [specialize (Hc eq_refl); specialize (Hr eq_refl)|specialize (Hc eq_refl); clear Hr
    |specialize (Hr eq_refl); clear Hc|]; destruct sh; try discriminate Hcr; subst;
  destruct mode, act, pr, im, tx, down; cbn in *;
  try discriminate (Htx eq_refl); try (rewrite (H3 eq_refl) in * );
  try discriminate (Hrel eq_refl eq_refl eq_refl eq_refl);
  (apply Hok; cbn; try done; try (by intros; auto); destruct mic as [[]|]; cbn; try done; by intros; auto).
Qed.

Lemma cockpit_quiet s e :
  engine_ok e -> radio_transmitting e = radio_transmitting (engine s) ->
  (call_mic_mode e = PushToTalk -> call_active e = true -> mic_muted s = Some false ->
    call_pressed e = true) ->
  cockpit_ok s -> cockpit_ok (mkCockpit e (radio_keyed s) (mic_muted s)).
Proof. intros He Ht Hm [_ Hr _]. split; cbn; [done|by rewrite Ht|done]. Qed.

Lemma key_event_ok s trigger down bound room :
  cockpit_ok s -> cockpit_ok (after s (key_event (engine s) trigger down bound room)).
Proof.
  intros Hs. unfold key_event. destruct (running (engine s)); cbn [negb]; [|by destruct s].
  destruct (transition _ _ _ _) as [fires hs].
  set (e1 := refresh_radio_follows_call (with_held (engine s) hs) bound).
  assert (Hs1 : cockpit_ok (mkCockpit e1 (radio_keyed s) (mic_muted s))).
  { destruct Hs as [He Hr Hm].
    assert (He1 : engine_ok e1) by (apply refresh_ok; by destruct He).
    subst e1. revert He1. unfold refresh_radio_follows_call. by destruct (_ || _). }
  clearbody e1. set (ctl := if fires && room then [ControlKey trigger] else []).
  assert (Hctl : forall effects e', after s (ctl ++ effects, e') =
    after (mkCockpit e1 (radio_keyed s) (mic_muted s)) (effects, e')).
  { intros effects e'. unfold after. cbn [fst snd radio_keyed mic_muted].
    rewrite performed_app. subst ctl. by destruct (fires && room). }
  assert (Hnone : forall e', after s (ctl, e') = mkCockpit e' (radio_keyed s) (mic_muted s)).
  { intros e'. rewrite <- (app_nil_r ctl). by rewrite Hctl. }
  clearbody ctl. destruct (classify_trigger _ _ _ _) as [c r] eqn:Hcr.
  apply (classify_shared e1 trigger) in Hcr;
    [|intros Hf; destruct Hs1 as [[F1 F2] _ _]; apply F2, F1, Hf].
  destruct (negb c && negb r) eqn:Hany; [by rewrite Hnone|].
  destruct (c && Bool.eqb (call_pressed e1) down) eqn:Hskip; [by rewrite Hnone|].
  destruct (r && Bool.eqb (radio_pressed _) down) eqn:Hskip2.
  - rewrite Hnone. destruct Hs1 as [[] ? Hmic]; cbn in *.
    destruct c, r; try discriminate; cbn in *.
    + destruct (shared e1); [|done]. rewrite eo_shared0 in Hskip by done. congruence.
    + by split; [split|..].
  - destruct (dispatch_key _ _ _ _) as [effects e2] eqn:Hd. rewrite Hctl, <- Hd.
    destruct Hs1 as [[F1 F2 F3 F4 F5] F6 F7]; cbn [engine radio_keyed mic_muted] in *.
    apply dispatch_ok; cbn; try done.
    + intros Hsh. change (shared e1 = true) in Hsh. rewrite Hsh in Hcr. rewrite F3 by done.
      by subst r; destruct c.
    + by intros ->.
    + by intros ->.
    + intros Htx. specialize (F4 Htx). destruct r; [|done]. rewrite F4 in Hskip2. by destruct down.
    + destruct c; [done|]. by apply F7.
Qed.

Lemma set_radio_prio_ok s prio :
  cockpit_ok s -> cockpit_ok (after s (set_radio_prio (engine s) prio)).
Proof.
  intros [[F1 F2 F3 F4 F5] F6 F7]. unfold set_radio_prio.
  assert (Hrel : forall prio', radio_transmitting (engine s) = true -> shared (engine s) = true ->
    call_mic_mode (engine s) = PushToTalk -> call_active (engine s) = true ->
    prio' || (if negb prio' && radio_prio (engine s) && radio_pressed (engine s) then true
              else implicit_radio_prio (engine s)) = true).
  { intros prio' H1 H2 H3 H4. specialize (F5 H1 H2 H3 H4). rewrite (F4 H1).
    destruct prio', (radio_prio (engine s)); cbn in *; auto. }
  destruct (call_mic_mode (engine s)) eqn:Hmode, (call_pressed (engine s)) eqn:Hc; cbn;
    rewrite ?Hmode, ?Hc; cbn; (split; [split|..]); cbn; rewrite ?Hmode, ?Hc in *; try done;
    intros; by eapply Hrel.
Qed.

Lemma set_call_active_ok s active :
  cockpit_ok s ->
  (active = true -> call_mic_mode (engine s) = PushToTalk -> mic_muted s = Some false ->
    call_pressed (engine s) = true) ->
  cockpit_ok (after s (set_call_active (engine s) active)).
Proof.
  intros [[F1 F2 F3 F4 F5] F6 F7] Hmic. unfold set_call_active. destruct active.
  - destruct (_ && _ && _ && _ && _) eqn:Hset; cbn.
    + split; [split|..]; cbn; try done; intros; by apply Hmic.
    + split; [split|..]; cbn; try done; [|intros; by apply Hmic].
      intros H1 H2 H3 _. change (shared (engine s) = true) in H2.
      assert (Hsh : radio_shares_call_trigger (with_call_active (engine s) true) = true).
      { unfold radio_shares_call_trigger, same_trigger. cbn. revert H2. unfold shared.
        destruct (call_trigger (engine s)) as [ct|]; [|done].
        destruct (radio_follows_call (engine s)) eqn:Hfo.
        - destruct (F2 (F1 eq_refl)) as [[rt ->] _]. by rewrite orb_true_r.
        - destruct (radio_trigger (engine s)) as [rt|]; cbn; [|done]. by intros ->. }
      rewrite Hsh in Hset. cbn in Hset. rewrite (F4 H1), H1, H3 in Hset.
      by destruct (radio_prio (engine s)).
  - by split; [split|..]; cbn.
Qed.

Lemma stop_ok s : cockpit_ok s -> cockpit_ok (after s (stop (engine s))).
Proof.
  intros [He Hr Hm]. unfold stop. destruct (running (engine s)); [|by destruct s].
  unfold after. rewrite Hr. change (radio_transmitting (engine s)) with
    (radio_transmitting (with_running (engine s) false)).
  rewrite reset_performed. split; cbn; [|done|].
  - by apply reset_ok; destruct He.
  - intros -> _. by destruct (mic_muted s).
Qed.

Lemma set_config_ok s t k enabled keyboard_ok joystick_ok bound :
  cockpit_ok s ->
  cockpit_ok (after s (set_config (engine s) t k enabled keyboard_ok joystick_ok bound)).
Proof.
  intros Hs. apply stop_ok in Hs. unfold set_config.
  destruct (stop (engine s)) as [stopped e1]. set (e2 := configure _ _ _ _ _ _ _ _ _).
  destruct (reset_input_state e2) as [effects e3] eqn:Hreset.
  unfold after in *. cbn [fst snd] in *. rewrite performed_app.
  destruct (performed stopped _ _) as [radio mic]. cbn [fst snd].
  destruct Hs as [He Hr Hm]. cbn in Hr. subst radio.
  change effects with (effects, e3).1. change (radio_transmitting e1) with (radio_transmitting e2).
  rewrite <- Hreset, reset_performed.
  destruct (start_frame e3 keyboard_ok joystick_ok bound) as (S1 & S2 & S3 & S4 & S5).
  assert (He3 : e3 = (reset_input_state e2).2) by by rewrite Hreset.
  split; cbn.
  - apply start_ok. rewrite He3. apply engine_ok_idle; try done. apply configure_fallback.
  - by rewrite S3, He3.
  - rewrite S4, S5, He3. cbn. intros -> _. by destruct mic.
Qed.

Lemma control_ok s trigger :
  cockpit_ok s -> cockpit_ok (after s (handle_control_event (engine s) trigger)).
Proof.
  intros Hs. unfold handle_control_event.
  destruct (control_action _ _); try by destruct s. destruct (call_active _); [|by destruct s].
  assert (Hp := set_radio_prio_ok s (negb (any_radio_prio (engine s))) Hs).
  destruct (set_radio_prio _ _) as [effects e]. unfold after in *. cbn [fst snd] in *.
  rewrite performed_app. by destruct (performed effects _ _).
Qed.

Lemma happen_ok s h : cockpit_ok s -> cockpit_ok (happen s h).
Proof.
  intros Hs. destruct h; cbn [happen].
  - by apply key_event_ok.
  - by apply control_ok.
  - by apply set_radio_prio_ok.
  - (** the input is attached after the call is marked active *)
    assert (Hd : cockpit_ok (after (mkCockpit (engine s) (radio_keyed s) None)
      (set_call_active (engine s) true))).
    { apply (set_call_active_ok (mkCockpit (engine s) (radio_keyed s) None)); [|done].
      by destruct Hs; split. }
    revert Hd. unfold after. destruct (set_call_active _ _) as [effects e] eqn:Hset. cbn [fst snd].
    assert (Hradio : forall mic, (performed effects (radio_keyed s) mic).1 = radio_keyed s).
    { intros mic. revert Hset. unfold set_call_active. destruct (_ && _); by intros [= <- _]. }
    assert (Hmic : forall mic, performed effects (radio_keyed s) mic =
      ((performed effects (radio_keyed s) mic).1, (performed effects (radio_keyed s) mic).2))
      by (intros; by destruct (performed _ _ _)).
    cbn [radio_keyed mic_muted]. rewrite (Hmic None), (Hmic (mic_muted s)), !Hradio.
    intros [H1 H2 _]. cbn [engine radio_keyed] in *. split; cbn; [done..|].
    unfold should_attach_input_muted, attach_input_muted. intros -> _ [= Hatt].
    destruct (call_pressed e); [done|]. by destruct (match radio_trigger e with Some _ => _ | _ => _ end).
  - by apply set_call_active_ok.
  - by destruct Hs; split.
  - by apply set_config_ok.
  - by apply stop_ok.
Qed.

Lemma fly_ok hs s : cockpit_ok s -> cockpit_ok (fly s hs).
Proof. revert s. induction hs as [|h hs IH]; intros s Hs; [done|]. by apply IH, happen_ok. Qed.

Lemma cold_ok t k enabled : cockpit_ok (cold t k enabled).
Proof. split; try done. apply engine_ok_idle; try done. apply configure_fallback. Qed.

(** ** The keys themselves *)

(** Whether a key is down after a sequence of presses and releases *)
Definition down (events : list (Trigger * bool)) (t : Trigger) : bool :=
  foldl (λ held event, if trigger_eqb t event.1 then event.2 else held) false events.

Definition key_down (events : list (Trigger * bool)) (key : option Trigger) : bool :=
  match key with Some t => down events t | None => false end.

Definition key_events (hs : list Happening) : list (Trigger * bool) :=
  omap (λ h, match h with KeyEvent t d _ _ => Some (t, d) | _ => None end) hs.

(** The key of the radio: the call key while the radio follows it *)
Definition radio_key (e : KeybindEngine) : option Trigger :=
  if radio_follows_call e then call_trigger e else radio_trigger e.

Lemma key_down_snoc events t d key :
  key_down (events ++ [(t, d)]) key = if is_trigger key t then d else key_down events key.
Proof. destruct key as [x|]; [|done]. cbn. unfold down. by rewrite foldl_app. Qed.

Record keys_ok (events : list (Trigger * bool)) (e : KeybindEngine) : Prop := {
  ko_stopped : running e = false -> call_pressed e = false /\ radio_pressed e = false;
  ko_call : call_pressed e = true -> key_down events (call_trigger e) = true;
  ko_radio : radio_pressed e = true -> key_down events (radio_key e) = true
}.

(** Operations that leave the keys alone *)
Definition same_keys (e e' : KeybindEngine) : Prop :=
  running e' = running e /\ call_trigger e' = call_trigger e /\
  radio_trigger e' = radio_trigger e /\ radio_follows_call e' = radio_follows_call e /\
  call_pressed e' = call_pressed e /\ radio_pressed e' = radio_pressed e.

Lemma same_keys_ok events e e' : same_keys e e' -> keys_ok events e -> keys_ok events e'.
Proof.
  intros (H1 & H2 & H3 & H4 & H5 & H6) [K1 K2 K3].
  split; unfold radio_key; rewrite ?H1, ?H2, ?H3, ?H4, ?H5, ?H6; done.
Qed.

Lemma idle_keys_ok events e :
  call_pressed e = false -> radio_pressed e = false -> keys_ok events e.
Proof. intros H1 H2. split; [done|congruence..]. Qed.

Lemma set_radio_prio_keys e prio : same_keys e (set_radio_prio e prio).2.
Proof. unfold set_radio_prio. cbn. by destruct (call_mic_mode e), (call_pressed e). Qed.

Lemma set_call_active_keys e active : same_keys e (set_call_active e active).2.
Proof. unfold set_call_active. destruct active; [|done]. by destruct (_ && _). Qed.

Lemma control_keys e trigger : same_keys e (handle_control_event e trigger).2.
Proof.
  unfold handle_control_event. destruct (control_action _ _); try done.
  destruct (call_active _); [|done].
  assert (H := set_radio_prio_keys e (negb (any_radio_prio e))). by destruct (set_radio_prio _ _).
Qed.

Lemma dispatch_keys e c r d : same_keys e (dispatch_key e c r d).2.
Proof.
  destruct e as [mode ? ? ? ? ? ? ? ? ? ? ? act pr im ? ?].
  by destruct c, r, d, mode, act, pr, im.
Qed.

Lemma key_event_keys events e t d bound room :
  engine_ok e -> keys_ok events e ->
  keys_ok (events ++ [(t, d)]) (key_event e t d bound room).2.
Proof.
  intros He Hk. unfold key_event. destruct (running e) eqn:Hrun; cbn [negb].
  2: { destruct Hk as [[] _ _]; [done|]. by apply idle_keys_ok. }
  destruct (transition _ _ _ _) as [fires hs].
  set (e1 := refresh_radio_follows_call (with_held e hs) bound).
  assert (He1 : engine_ok e1) by (apply refresh_ok; by destruct He).
  assert (Hk1 : keys_ok events e1 /\ running e1 = true).
  { subst e1. unfold refresh_radio_follows_call. destruct (radio_portal_fallback _); [|by destruct Hk].
    destruct (call_pressed (with_held e hs)) eqn:Hc; [by destruct Hk|].
    destruct (radio_pressed (with_held e hs)) eqn:Hr; [by destruct Hk|]. cbn.
    split; [|done]. by apply idle_keys_ok. }
  clearbody e1. clear He Hk Hrun. destruct Hk1 as [[K1 K2 K3] Hrun].
  destruct (classify_trigger _ _ _ _) as [c r] eqn:Hcr.
  assert (Hkey : c = is_trigger (call_trigger e1) t /\ r = is_trigger (radio_key e1) t).
  { revert Hcr. unfold classify_trigger, radio_key. intros [= <- <-].
    by destruct (radio_follows_call e1). }
  apply (classify_shared e1 t) in Hcr;
    [|intros Hf; destruct He1 as [F1 F2 _ _ _]; apply F2, F1, Hf].
  assert (Hsh : c = true -> r = true -> call_pressed e1 = radio_pressed e1).
  { intros -> ->. destruct (shared e1) eqn:Hsh; [|done]. by apply He1. }
  assert (Hstep : forall e' cp rp, same_keys (with_pressed e1 cp rp) e' ->
    (cp = true -> if c then d = true else call_pressed e1 = true) ->
    (rp = true -> if r then d = true else radio_pressed e1 = true) ->
    keys_ok (events ++ [(t, d)]) e').
  { intros e' cp rp Hsame Hcp Hrp. eapply same_keys_ok; [exact Hsame|].
    destruct Hkey as [Hc Hr]. split; cbn.
    - by rewrite Hrun.
    - intros H. specialize (Hcp H). rewrite key_down_snoc, <- Hc. destruct c; auto.
    - intros H. specialize (Hrp H). rewrite key_down_snoc.
      change (radio_key (with_pressed e1 cp rp)) with (radio_key e1). rewrite <- Hr. destruct r; auto. }
  destruct (negb c && negb r) eqn:Hany.
  { apply (Hstep _ (call_pressed e1) (radio_pressed e1)); [done|by destruct c, r..]. }
  destruct (c && Bool.eqb (call_pressed e1) d) eqn:Hskip.
  { apply (Hstep _ (call_pressed e1) (radio_pressed e1)); [done|..];
      destruct c; try done; apply eqb_prop in Hskip; [by subst d|].
    destruct r; [|done]. rewrite <- (Hsh eq_refl eq_refl). by subst d. }
  destruct (r && Bool.eqb (radio_pressed _) d) eqn:Hskip2; cbn [snd].
  { apply (Hstep _ (if c then d else call_pressed e1) (radio_pressed e1)); [done|by destruct c|].
    destruct r; [|done]. apply eqb_prop in Hskip2. cbn in Hskip2. by subst d. }
  assert (Hd := dispatch_keys
    (with_pressed (with_pressed e1 (if c then d else call_pressed e1) (radio_pressed e1))
       (if c then d else call_pressed e1) (if r then d else radio_pressed e1)) c r d).
  match goal with |- keys_ok _ (let (_, _) := ?step in _).2 => destruct step as [effects e2] eqn:Hdis end.
  apply (Hstep _ (if c then d else call_pressed e1) (if r then d else radio_pressed e1));
    [|by destruct c|by destruct r].
  change (same_keys (with_pressed e1 (if c then d else call_pressed e1)
    (if r then d else radio_pressed e1)) (effects, e2).2).
  rewrite <- Hdis. exact Hd.
Qed.

Lemma stop_idle events e : keys_ok events e -> keys_ok events (stop e).2.
Proof. intros Hk. unfold stop. destruct (running e); [|done]. by apply idle_keys_ok. Qed.

Lemma happen_keys events s h :
  engine_ok (engine s) -> keys_ok events (engine s) ->
  keys_ok (events ++ key_events [h]) (engine (happen s h)).
Proof.
  intros He Hk.
  assert (Hafter : forall s step, engine (after s step) = step.2)
    by (intros; unfold after; by destruct (performed _ _ _)).
  destruct h; cbn [happen key_events omap list_omap]; rewrite ?app_nil_r, ?Hafter; cbn [engine].
  - by apply key_event_keys.
  - eapply same_keys_ok; [apply control_keys|done].
  - eapply same_keys_ok; [apply set_radio_prio_keys|done].
  - eapply same_keys_ok; [apply set_call_active_keys|done].
  - eapply same_keys_ok; [apply set_call_active_keys|done].
  - done.
  - unfold set_config. destruct (stop _) as [stopped e1]. set (e2 := configure _ _ _ _ _ _ _ _ _).
    destruct (reset_input_state e2) as [effects e3] eqn:Hreset. cbn [snd].
    destruct (start_frame e3 keyboard_ok joystick_ok bound) as (S1 & S2 & _).
    assert (He3 : e3 = (reset_input_state e2).2) by by rewrite Hreset.
    by apply idle_keys_ok; rewrite ?S1, ?S2, He3.
  - by apply stop_idle.
Qed.

Lemma fly_keys hs s events :
  cockpit_ok s -> keys_ok events (engine s) ->
  keys_ok (events ++ key_events hs) (engine (fly s hs)).
Proof.
  revert s events. induction hs as [|h hs IH]; intros s events Hs Hk; [by rewrite app_nil_r|].
  assert (Hsplit : key_events (h :: hs) = key_events [h] ++ key_events hs).
  { unfold key_events. cbn. by destruct h. }
  rewrite Hsplit, app_assoc. apply IH; [by apply happen_ok|].
  apply happen_keys; [|done]. by destruct Hs.
Qed.

Lemma cold_keys t k enabled hs : keys_ok (key_events hs) (engine (fly (cold t k enabled) hs)).
Proof. apply (fly_keys hs (cold t k enabled) []); [apply cold_ok|by apply idle_keys_ok]. Qed.

(** C20: whatever keys are pressed and released, calls set up and ended, priorities
    toggled and settings changed, in any order: the radio transmits only while
    the key it is bound to is down. *)
Theorem radio_only_while_held t k enabled hs :
  let s := fly (cold t k enabled) hs in
  radio_keyed s = true -> key_down (key_events hs) (radio_key (engine s)) = true.
Proof.
  cbv zeta. intros Hkeyed. destruct (fly_ok hs _ (cold_ok t k enabled)) as [He Hr _].
  apply (cold_keys t k enabled hs), He. by rewrite <- Hr.
Qed.

(** In push-to-talk the microphone of a call is open only while the
    push-to-talk key is down, on every such run: an input attached in the middle
    of a call, a new configuration or the radio priority never opens it. *)
Theorem mic_only_while_held t k enabled hs :
  let s := fly (cold t k enabled) hs in
  call_mic_mode (engine s) = PushToTalk -> call_active (engine s) = true ->
  mic_muted s = Some false -> key_down (key_events hs) (call_trigger (engine s)) = true.
Proof.
  cbv zeta. intros H1 H2 H3. destruct (fly_ok hs _ (cold_ok t k enabled)) as [_ _ Hm].
  apply (cold_keys t k enabled hs). by apply Hm.
Qed.

(** Out of a call, with no key held, the press of the radio key keys the
    radio, on every run. *)
Theorem radio_key_works t k enabled hs trigger bound room :
  let s := fly (cold t k enabled) hs in
  let e := refresh_radio_follows_call (engine s) bound in
  running (engine s) = true -> call_active (engine s) = false ->
  call_pressed (engine s) = false -> radio_pressed (engine s) = false ->
  is_trigger (radio_key e) trigger = true ->
  radio_keyed (happen s (KeyEvent trigger true bound room)) = true.
Proof.
  cbv zeta. set (s := fly _ _). clearbody s. intros Hrun Hact Hcp Hrp Hkey.
  cbn [happen]. unfold key_event. rewrite Hrun. cbn [negb].
  destruct (transition _ _ _ _) as [fires held']. set (ctl := if fires && room then _ else _).
  revert Hkey. unfold refresh_radio_follows_call. cbn [radio_portal_fallback with_held call_pressed
    radio_pressed]. rewrite Hcp, Hrp, !orb_false_r.
  assert (Hstep : forall e, radio_keyed (after s (ctl ++ [RadioTransmit true], e)) = true).
  { intros e. unfold after. cbn [fst snd]. rewrite performed_app. cbn.
    by destruct (performed ctl (radio_keyed s) (mic_muted s)). }
  destruct s as [[mode ct rt t1 t2 t3 t4 run fb fo cp rp act pr im tx hd] radio mic].
  cbn in Hcp, Hrp, Hact, Hrun. subst cp rp act.
  unfold classify_trigger, radio_key. cbn [engine radio_portal_fallback].
  destruct fb; cbn [negb].
  - destruct bound; cbn; intros Hkey; rewrite Hkey; cbn; rewrite ?andb_false_r; cbn.
    + destruct (is_trigger ct trigger); cbn; apply Hstep.
    + apply Hstep.
  - destruct fo; cbn; intros Hkey; rewrite Hkey; cbn; rewrite ?andb_false_r; cbn.
    + apply Hstep.
    + destruct (is_trigger ct trigger); cbn; apply Hstep.
Qed.
End runs.

(** ** Witnesses and a counterexample *)

Definition ptt_config : TransmitConfig :=
  mkTransmitConfig PushToTalk (Some (Key "Space")) None (Some (Key "F8")) None.
Definition no_controls : KeybindsConfig := mkKeybindsConfig None None None None.
Definition on_desktop : Platform := false.
Definition space : Trigger := Input (Key "Space").
Definition f8 : Trigger := Input (Key "F8").

(** In a call, both keys are pressed after the configuration was set. *)
Definition talking : list Happening :=
  [Configured ptt_config no_controls true true true false; PeerConnected;
   KeyEvent space true false true; KeyEvent f8 true false true].

Lemma radio_only_while_held_witness :
  let s := fly (PF := on_desktop) (cold (PF := on_desktop) ptt_config no_controls true) talking in
  radio_keyed s = true /\ key_down (key_events talking) (radio_key (engine s)) = true.
Proof.
  split; [by vm_compute|]. apply (radio_only_while_held (PF := on_desktop)). by vm_compute.
Defined.

Lemma mic_only_while_held_witness :
  let s := fly (PF := on_desktop) (cold (PF := on_desktop) ptt_config no_controls true) talking in
  mic_muted s = Some false /\ key_down (key_events talking) (call_trigger (engine s)) = true.
Proof.
  split; [by vm_compute|]. by apply (mic_only_while_held (PF := on_desktop)); vm_compute.
Defined.

Lemma radio_key_works_witness :
  let hs := [Configured ptt_config no_controls true true true false] in
  let s := fly (PF := on_desktop) (cold (PF := on_desktop) ptt_config no_controls true) hs in
  radio_keyed s = false /\
  radio_keyed (happen (PF := on_desktop) s (KeyEvent f8 true false true)) = true.
Proof.
  split; [by vm_compute|]. by apply (radio_key_works (PF := on_desktop)); vm_compute.
Defined.

Definition voice_config : TransmitConfig := mkTransmitConfig VoiceActivation None None None None.

(** The radio priority mutes the microphone of a call in voice activation; a new
    configuration opens it again and leaves the priority on. *)
Theorem set_config_lifts_prio_mute :
  let s := fly (PF := on_desktop) (cold (PF := on_desktop) voice_config no_controls true)
    [PeerConnected; RadioPrioCommand true] in
  let s' := happen (PF := on_desktop) s
    (Configured voice_config no_controls true true true false) in
  mic_muted s = Some true /\ mic_muted s' = Some false /\
  call_active (engine s') = true /\ any_radio_prio (engine s') = true /\
  should_attach_input_muted (engine s') = true.
Proof. by vm_compute. Qed.

(** ** The control keys *)

(** The keys held after a sequence of events *)
Definition held_after (cs : list Trigger) (events : list (Trigger * bool)) : list Trigger :=
  foldl (λ hs event, (transition cs hs event.1 event.2).2) [] events.

Lemma trigger_eqb_comm a b : trigger_eqb a b = trigger_eqb b a.
Proof. apply eq_true_iff_eq. rewrite !trigger_eqb_id. done. Qed.

Lemma existsb_filter_not t t' (hs : list Trigger) :
  existsb (λ x, trigger_eqb x t) (base.filter (λ x, ~ trigger_eqb x t') hs) =
    negb (trigger_eqb t t') && existsb (λ x, trigger_eqb x t) hs.
Proof.
  induction hs as [|x hs IH]; [by rewrite andb_false_r|].
  rewrite filter_cons. cbn [existsb].
  destruct (trigger_eqb x t') eqn:Hx; destruct (decide _) as [Hd|Hd];
    [by destruct Hd| |cbn [existsb]|by destruct Hd; intros []]; rewrite IH.
  - destruct (trigger_eqb t t') eqn:Ht; [done|]. cbn. destruct (trigger_eqb x t) eqn:Hxt; [|done].
    apply trigger_eqb_id in Hx, Hxt. apply not_true_iff_false in Ht. destruct Ht.
    apply trigger_eqb_id. congruence.
  - destruct (trigger_eqb t t') eqn:Ht; cbn; [|by destruct (trigger_eqb x t)].
    destruct (trigger_eqb x t) eqn:Hxt; [|done]. apply trigger_eqb_id in Ht, Hxt.
    apply not_true_iff_false in Hx. destruct Hx. apply trigger_eqb_id. congruence.
Qed.

Lemma existsb_ext_id (hs : list Trigger) t t' : trigger_id t = trigger_id t' ->
  existsb (λ x, trigger_eqb x t) hs = existsb (λ x, trigger_eqb x t') hs.
Proof.
  intros Hid. induction hs as [|x hs IH]; [done|]. cbn. rewrite IH. f_equal.
  apply eq_true_iff_eq. rewrite !trigger_eqb_id. by rewrite Hid.
Qed.

Lemma held_after_down cs events t :
  existsb (λ x, trigger_eqb x t) (held_after cs events) =
    existsb (λ x, trigger_eqb x t) cs && down events t.
Proof.
  induction events as [|[t' d] events IH] using rev_ind; [by rewrite andb_false_r|].
  unfold held_after, down in *. rewrite !foldl_app. cbn. set (hs := foldl _ [] events) in *.
  unfold transition. destruct (existsb (λ x, trigger_eqb x t') cs) eqn:Hc; cbn.
  2: { rewrite IH. destruct (trigger_eqb t t') eqn:Ht; [|done].
       apply trigger_eqb_id in Ht. by rewrite (existsb_ext_id cs t t' Ht), Hc. }
  destruct (trigger_eqb t t') eqn:Ht.
  - apply trigger_eqb_id in Ht. rewrite (existsb_ext_id cs t t' Ht), Hc. destruct d; cbn.
    + rewrite (existsb_ext_id _ t t' Ht).
      destruct (existsb (λ x, trigger_eqb x t') hs) eqn:Hh; cbn; [done|].
      rewrite existsb_app. cbn. rewrite Hh. cbn. rewrite orb_false_r. by apply trigger_eqb_id.
    + rewrite existsb_filter_not. apply trigger_eqb_id in Ht. by rewrite Ht.
  - destruct d; cbn.
    + destruct (existsb (λ x, trigger_eqb x t') hs); cbn; [done|].
      rewrite existsb_app, IH. cbn. rewrite trigger_eqb_comm, Ht. cbn. by rewrite orb_false_r.
    + by rewrite existsb_filter_not, Ht, IH.
Qed.

(** A control key fires at its press and not again before it was released,
    however often the system repeats the press; no other key fires. *)
Theorem control_fires_once cs events t d :
  (transition cs (held_after cs events) t d).1 =
    existsb (λ x, trigger_eqb x t) cs && d && negb (down events t).
Proof.
  unfold transition. destruct (existsb _ cs) eqn:Hc; cbn; [|done]. destruct d; cbn; [|done].
  rewrite held_after_down, Hc. cbn. by destruct (down events t).
Qed.
