(* ===== verification/SignalingErrors.v ===== *)
(** SignalingErrors: the errors of the connection to the server,
    [vacs-signaling/src/error.rs]: which end the session, and which of those are
    answered with a reconnect. *)
From stdpp Require Import prelude strings.
From Stdlib Require Import NArith.
From S2P Require Import Prelude Protocol Calls.

Inductive TransportFailureReason :=
| TransportSend (message : string)
| TransportReceive (message : string)
| TransportClose (message : string).

Inductive ReconnectFailureReason :=
| RF_Connection
| RF_Login (reason : LoginFailureReason)
| RF_Other (reason : string).

Inductive SignalingRuntimeError :=
| RE_Disconnected (reason : option DisconnectReason)
| RE_ReconnectFailed (reason : ReconnectFailureReason)
| RE_ReconnectSuppressed (until : Instant)
| RE_ServerError (reason : ErrorReason)
| RE_Transport (reason : TransportFailureReason)
| RE_SerializationError (message : string)
| RE_RateLimited (until : Instant).

Definition can_reconnect (e : SignalingRuntimeError) : bool :=
  match e with
  | RE_Disconnected None | RE_ServerError _ | RE_Transport _ => true
  | _ => false
  end.

Definition needs_session_terminate (e : SignalingRuntimeError) : bool :=
  match e with
  | RE_Disconnected None | RE_Transport _ => true
  | _ => false
  end.

Definition is_fatal (e : SignalingRuntimeError) : bool :=
  match e with
  | RE_Disconnected _ | RE_ReconnectFailed _ | RE_ReconnectSuppressed _ | RE_ServerError _
  | RE_Transport _ => true
  | RE_SerializationError _ | RE_RateLimited _ => false
  end.

Inductive SignalingError :=
| SE_LoginError (reason : LoginFailureReason)
| SE_Transport
| SE_ProtocolError (reason : string)
| SE_Timeout (reason : string)
| SE_Runtime (error : SignalingRuntimeError)
| SE_Other (reason : string).

(** [From<SignalingError> for ReconnectFailureReason]; [None] where the source
    panics ([unreachable!]). *)
Definition reconnect_failure_reason (e : SignalingError) : option ReconnectFailureReason :=
  match e with
  | SE_LoginError reason => Some (RF_Login reason)
  | SE_Transport => Some RF_Connection
  | SE_ProtocolError reason | SE_Timeout reason | SE_Other reason => Some (RF_Other reason)
  | SE_Runtime (RE_Disconnected _) | SE_Runtime (RE_ServerError _)
  | SE_Runtime (RE_SerializationError _) => Some RF_Connection
  | SE_Runtime _ => None
  end.
