(* ===== verification/AppState.v ===== *)
(** AppState: the state the desktop client keeps of its calls,
    [vacs-client/src/app/state.rs] and [app/state/calls.rs], and what it does with
    the connections to the other participants, [app/state/webrtc.rs].

    An operation is a function of the state and of the effects so far: messages
    to the server, events of the user interface, sounds and the flag of the
    keybind engine. The environment ([Env]) says which sends succeed, what the
    WebRTC library answers and what time it is. A task of the source that waits is a step of its own
    ([AppEvents]); a peer carries the number of its task, so that events of a
    peer that was replaced are told apart. *)
From stdpp Require Import prelude gmap strings list.
From Stdlib Require Import NArith.
From S2P Require Import Prelude Protocol Calls.

(** ** Errors ([error.rs]) *)

(** What the calls distinguish of the errors of the client. *)
Inductive ClientError :=
| ErrUnauthorized
| ErrAudioDevice
| ErrCallActive
| ErrNoCallActive
| ErrWebrtcOther
| ErrSignaling
| ErrOther.

Definition into_call_error_reason (e : ClientError) (own_client_id : ClientId) : CallErrorReason :=
  match e with
  | ErrAudioDevice => AudioFailure own_client_id
  | ErrCallActive | ErrNoCallActive => CallFailure
  | ErrWebrtcOther => WebrtcFailure own_client_id
  | _ => CE_Other
  end.

(** [.context(..)?] of [anyhow]: whatever the error was, it is an [Other] now. *)
Definition with_context {A : Type} (r : Result A ClientError) : Result A ClientError :=
  match r with Ok a => Ok a | Err _ => Err ErrOther end.

Inductive CallErrorOrigin :=
| OriginClient (id : ClientId)
| OriginTargets (targets : gset CallTarget)
| OriginCall.

(** ** Calls ([app/state/calls.rs], [WebrtcPeer], [WebrtcCall]) *)

Record WebrtcPeer := mkWebrtcPeer {
  (** the task that handles its events *)
  peer_task : N;
  audio_source_id : option N;
  connected : bool;
  established : bool;
  created : Instant;
  reconnected : bool;
  peer_supports_reconnect : bool
}.

Record WebrtcCall := mkWebrtcCall {
  peers : gmap ClientId WebrtcPeer;
  last_call_start_sound : option Instant
}.

Record Call := mkCall {
  call_id : CallId;
  webrtc : WebrtcCall;
  invited_targets : gset CallTarget;
  joined_participants : CallParticipants;
  conference_leader : option ClientId
}.

(** [any] over the entries of a map, in whatever order *)
Definition any_entry {K V : Type} `{Countable K} (P : K * V -> Prop) `{!forall kv, Decision (P kv)}
    (m : gmap K V) : bool :=
  negb (bool_decide (filter P m = ∅)).

(** Another participant than this client and the peer has joined. *)
Definition is_conference_link (own_client_id : ClientId) (joined : CallParticipants)
    (peer_id : ClientId) : bool :=
  any_entry (λ kv, kv.1 <> own_client_id /\ kv.1 <> peer_id) joined.

Module WebrtcPeer.
Definition new (task : N) (supports_reconnect : bool) (now : Instant) : WebrtcPeer :=
  mkWebrtcPeer task None false false now false supports_reconnect.

Definition with_reconnect (p : WebrtcPeer) : WebrtcPeer :=
  mkWebrtcPeer (peer_task p) (audio_source_id p) true (established p) (created p) true
    (peer_supports_reconnect p).

Definition set_link (p : WebrtcPeer) (source : option N) (conn est : bool) : WebrtcPeer :=
  mkWebrtcPeer (peer_task p) source conn est (created p) (reconnected p) (peer_supports_reconnect p).

Definition set_supports (p : WebrtcPeer) (supports : bool) : WebrtcPeer :=
  mkWebrtcPeer (peer_task p) (audio_source_id p) (connected p) (established p) (created p)
    (reconnected p) supports.
End WebrtcPeer.

Module WebrtcCall.
Definition new : WebrtcCall := mkWebrtcCall ∅ None.
Definition with_peers (c : WebrtcCall) (m : gmap ClientId WebrtcPeer) : WebrtcCall :=
  mkWebrtcCall m (last_call_start_sound c).
Definition was_connected (c : WebrtcCall) : bool := any_entry (λ kv, connected kv.2 = true) (peers c).
Definition is_empty (c : WebrtcCall) : bool := bool_decide (peers c = ∅).
Definition has_other_connected_peer (c : WebrtcCall) (peer_id : ClientId) : bool :=
  any_entry (λ kv, kv.1 <> peer_id /\ connected kv.2 = true) (peers c).
End WebrtcCall.

Module Call.
Definition from_invite (invite : CallInvite) : Call :=
  mkCall (invite_call_id invite) WebrtcCall.new (invite_targets invite) ∅ None.

Definition from_invitation (invitation : CallInvitation) : Call :=
  mkCall (inv_call_id invitation) WebrtcCall.new (inv_invited_targets invitation)
    (inv_joined_participants invitation) (inv_conference_leader invitation).

Definition with_webrtc (c : Call) (w : WebrtcCall) : Call :=
  mkCall (call_id c) w (invited_targets c) (joined_participants c) (conference_leader c).

Definition with_invited (c : Call) (targets : gset CallTarget) : Call :=
  mkCall (call_id c) (webrtc c) targets (joined_participants c) (conference_leader c).

Definition add_invited_targets (c : Call) (targets : gset CallTarget) : Call :=
  with_invited c (invited_targets c ∪ targets).

Definition remove_invited_targets (c : Call) (targets : gset CallTarget) : Call :=
  with_invited c (invited_targets c ∖ targets).

Definition is_active (c : Call) (own_client_id : ClientId) : bool :=
  bool_decide (is_Some (joined_participants c !! own_client_id)).

Definition is_empty (c : Call) : bool :=
  bool_decide (joined_participants c = ∅) && bool_decide (invited_targets c = ∅).

(** The participants to connect to, those that left, and the call. *)
Definition update (c : Call) (own_client_id : ClientId) (invited : gset CallTarget)
    (joined : CallParticipants) (leader : option ClientId) :
    CallParticipants * gset ClientId * Call :=
  let '(added, removed) :=
    if bool_decide (is_Some (joined !! own_client_id)) then
      if is_active c own_client_id then
        (filter (λ kv, joined_participants c !! kv.1 = None) joined,
         filter (λ id, joined !! id = None) (dom (joined_participants c)))
      else (filter (λ kv, kv.1 <> own_client_id) joined, ∅)
    else (∅, ∅) in
  (added, removed, mkCall (call_id c) (webrtc c) invited joined leader).

(** [CallUpdate::from(&Call)] *)
Definition to_update (c : Call) : CallUpdate :=
  mkCallUpdate (call_id c) (invited_targets c) (joined_participants c) (conference_leader c).
End Call.

(** ** The state ([app/state.rs]) *)

Inductive ConnectionState := Disconnected | Connecting | Connected.

(** The part of the configuration the calls use ([config.client]) *)
Record ClientConfig := mkClientConfig {
  ignored : gset ClientId;
  auto_hangup_seconds : N;
  force_relay : bool;
  enable_priority_calls : bool;
  end_active_call_on_accept : bool;
  enable_call_start_sound : bool;
  enable_call_end_sound : bool;
  enable_participant_joined_sound : bool;
  enable_participant_left_sound : bool
}.

(** The retry task of a link ([LinkLimboGuard], [link_retry_task]): the call it
    is for, whether it has reported the link, and whether it waits. *)
Record LinkLimbo := mkLinkLimbo { ll_call_id : CallId; ll_reported : bool; ll_waiting : bool }.

Record AppStateInner := mkAppState {
  config : ClientConfig;
  (** the call the timer of an invited target is for *)
  unanswered_call_guards : gmap CallTarget CallId;
  establishment_guard : option CallId;
  link_limbo_guards : gmap ClientId LinkLimbo;
  current_call : option Call;
  incoming_calls : gmap CallId Call;
  client_id : option ClientId;
  connection_state : ConnectionState;
  session_info : option SessionInfo;
  default_call_sources : list StationId;
  stations : list StationInfo;
  clients : list ClientInfo;
  (** the tasks spawned so far *)
  next_task : N
}.

Section setters.
Context (s : AppStateInner).
Let mk guards establishment limbo current incoming task :=
  mkAppState (config s) guards establishment limbo current incoming (client_id s)
    (connection_state s) (session_info s) (default_call_sources s) (stations s) (clients s) task.
Definition with_guards x := mk x (establishment_guard s) (link_limbo_guards s) (current_call s)
  (incoming_calls s) (next_task s).
Definition with_establishment x := mk (unanswered_call_guards s) x (link_limbo_guards s)
  (current_call s) (incoming_calls s) (next_task s).
Definition with_limbo x := mk (unanswered_call_guards s) (establishment_guard s) x
  (current_call s) (incoming_calls s) (next_task s).
Definition with_current x := mk (unanswered_call_guards s) (establishment_guard s)
  (link_limbo_guards s) x (incoming_calls s) (next_task s).
Definition with_incoming x := mk (unanswered_call_guards s) (establishment_guard s)
  (link_limbo_guards s) (current_call s) x (next_task s).
Definition with_next_task x := mk (unanswered_call_guards s) (establishment_guard s)
  (link_limbo_guards s) (current_call s) (incoming_calls s) x.

Definition with_session connection info sources stations clients :=
  mkAppState (config s) (unanswered_call_guards s) (establishment_guard s) (link_limbo_guards s)
    (current_call s) (incoming_calls s) (client_id s) connection info sources stations clients
    (next_task s).
Definition with_client_id x :=
  mkAppState (config s) (unanswered_call_guards s) (establishment_guard s) (link_limbo_guards s)
    (current_call s) (incoming_calls s) x (connection_state s) (session_info s)
    (default_call_sources s) (stations s) (clients s) (next_task s).
End setters.

Definition AppState_new (config : ClientConfig) : AppStateInner :=
  mkAppState config ∅ None ∅ None ∅ None Disconnected None [] [] [] 0.

(** ** Effects *)

Inductive SourceType :=
| Ring | PriorityRing | Ringback | CallStart | CallEndSound | ParticipantJoined | ParticipantLeft.

#[export] Instance SourceType_eq_dec : EqDecision SourceType.
Proof. solve_decision. Defined.

Inductive WebrtcUpdateKind := CallConnected | CallDisconnected | CallReconnecting | CallDegraded.

Inductive FrontendEvent :=
| EvDisconnected
| EvReconnecting
| EvConnected (info : SessionInfo)
| EvAmbiguousPosition (positions : list PositionId)
| EvAddIncomingToCallList (call_id : CallId) (source : CallSource)
| EvCallInvitation (invitation : CallInvitation)
| EvOutgoingCall (invite : CallInvite)
| EvAcceptIncomingCall (call_id : CallId)
| EvCallUpdate (update : CallUpdate)
| EvCallEnd (call_id : CallId)
| EvForceCallEnd (call_id : CallId)
| EvCallReject (call_id : CallId) (targets : gset CallTarget)
| EvCallError (call_id : CallId) (is_local : bool) (origin : CallErrorOrigin)
    (reason : CallErrorReason) (call_ended : bool)
| EvWebrtc (kind : WebrtcUpdateKind) (call_id : CallId) (peer_id : ClientId)
| EvClientConnected (client : ClientInfo)
| EvClientDisconnected (client_id : ClientId)
| EvClientList (clients : list ClientInfo)
| EvStationList (stations : list StationInfo)
| EvStationChanges (changes : list StationChange)
| EvClientNotFound (client_id : ClientId)
| EvError (reason : ErrorReason)
| EvSignalingError.

Inductive Effect :=
| Send (message : ClientMessage) (sent : bool)
| Emit (event : FrontendEvent)
| RestartSound (source : SourceType)
| StopSound (source : SourceType)
| SetCallActive (active : bool)
| AttachOutput (id : N)
| DetachOutput (id : N)
| DetachAllOutputs
| AttachInput
| DetachInput
| DisconnectServer.

(** ** The monad *)

Record World := mkWorld { app : AppStateInner; effects : list Effect }.
Definition App (A : Type) : Type := World -> A * World.
#[export] Instance app_ret : MRet App := λ A a w, (a, w).
#[export] Instance app_bind : MBind App := λ A B f m w, let (a, w) := m w in f a w.

Definition read {A : Type} (f : AppStateInner -> A) : App A := λ w, (f (app w), w).
Definition modify (f : AppStateInner -> AppStateInner) : App () :=
  λ w, ((), mkWorld (f (app w)) (effects w)).
Definition perform (e : Effect) : App () := λ w, ((), mkWorld (app w) (effects w ++ [e])).
Definition emit (e : FrontendEvent) : App () := perform (Emit e).

Fixpoint for_all {A : Type} (l : list A) (f : A -> App ()) : App () :=
  match l with
  | [] => mret ()
  | x :: l => f x ;; for_all l f
  end.

Definition when (b : bool) (m : App ()) : App () := if b then m else mret ().

Record Env := mkEnv {
  env_now : Instant;
  (** the sends that succeed, after the effects so far *)
  send_ok : list Effect -> ClientMessage -> bool;
  (** the description a new connection offers, or answers an offer with *)
  create_sdp : ClientId -> option string -> bool -> Result string ClientError;
  answer_accepted : ClientId -> string -> bool;
  (** attaching a call to the audio devices, and starting the connection *)
  attach_output : Result N ClientError;
  attach_input : Result () ClientError;
  start_peer : Result () ClientError;
  (** the identifier of a call that starts *)
  fresh_call_id : CallId
}.

(** The descriptions are JSON, read and written by a library. *)
Class SessionDescriptions := {
  has_reconnect_capability : string -> bool;
  tag_reconnect_capability : string -> string
}.

Section app.
Context {HO : HashOrder} {SD : SessionDescriptions} (env : Env).

(** ** Messages and small steps ([signaling.rs]) *)

Definition send_signaling_message (msg : ClientMessage) : App (Result () ClientError) := λ w,
  let sent := send_ok env (effects w) msg in
  (if sent then Ok () else Err ErrSignaling, mkWorld (app w) (effects w ++ [Send msg sent])).

(** Send, log a failure and go on. *)
Definition try_send (msg : ClientMessage) : App () := send_signaling_message msg ;; mret ().

Definition try_send_call_error (call_id : CallId) (reason : CallErrorReason) : App () :=
  try_send (CM_CallError (mkCallError call_id reason None)).

Definition current_call_of (s : AppStateInner) (id : CallId) : option Call :=
  match current_call s with
  | Some c => if bool_decide (call_id c = id) then Some c else None
  | None => None
  end.

(** [current_call_mut(id)]: a change of the current call, if it is that one. *)
Definition change_current (id : CallId) (f : Call -> Call) (s : AppStateInner) : AppStateInner :=
  match current_call_of s id with
  | Some c => with_current s (Some (f c))
  | None => s
  end.

Definition change_peers (id : CallId)
    (f : gmap ClientId WebrtcPeer -> gmap ClientId WebrtcPeer) : AppStateInner -> AppStateInner :=
  change_current id
    (λ c, Call.with_webrtc c (WebrtcCall.with_peers (webrtc c) (f (peers (webrtc c))))).

Definition webrtc_peer (s : AppStateInner) (id : CallId) (peer_id : ClientId) : option WebrtcPeer :=
  c ← current_call_of s id; peers (webrtc c) !! peer_id.

Definition no_peers (s : AppStateInner) (id : CallId) : bool :=
  match current_call_of s id with Some c => WebrtcCall.is_empty (webrtc c) | None => false end.

Definition has_link_limbo (s : AppStateInner) (id : CallId) (peer_id : ClientId) : bool :=
  match link_limbo_guards s !! peer_id with
  | Some l => bool_decide (ll_call_id l = id)
  | None => false
  end.

Definition has_pending_link_retries (s : AppStateInner) (id : CallId) : bool :=
  any_entry (λ kv, ll_call_id kv.2 = id) (link_limbo_guards s).

Definition cancel_unanswered_call_timers_for_targets (targets : gset CallTarget)
    (s : AppStateInner) : AppStateInner :=
  with_guards s (filter (λ kv, kv.1 ∉ targets) (unanswered_call_guards s)).

Definition start_unanswered_call_timer_for_targets (id : CallId) (targets : gset CallTarget)
    (s : AppStateInner) : AppStateInner :=
  let s := cancel_unanswered_call_timers_for_targets targets s in
  if (auto_hangup_seconds (config s) =? 0)%N then s
  else with_guards s (gset_to_gmap id targets ∪ unanswered_call_guards s).

Definition start_call_establishment_timer (id : CallId) (s : AppStateInner) : AppStateInner :=
  if has_pending_link_retries s id || bool_decide (is_Some (establishment_guard s)) then s
  else with_establishment s (Some id).

Definition cancel_link_retry (id : CallId) (peer_id : ClientId) (s : AppStateInner) :
    AppStateInner :=
  if has_link_limbo s id peer_id then with_limbo s (delete peer_id (link_limbo_guards s)) else s.

Definition cancel_all_link_retries (id : CallId) (s : AppStateInner) : AppStateInner :=
  with_limbo s (filter (λ kv, ll_call_id kv.2 <> id) (link_limbo_guards s)).

Definition start_link_retry (id : CallId) (peer_id : ClientId) (s : AppStateInner) : AppStateInner :=
  with_limbo s (<[peer_id := mkLinkLimbo id false false]> (link_limbo_guards s)).

Definition stop_ringing_if_no_incoming_calls : App () :=
  none ← read (λ s, bool_decide (incoming_calls s = ∅));
  when none (perform (StopSound Ring) ;; perform (StopSound PriorityRing)).

Definition stop_ringback_if_no_invited_targets (id : CallId) : App () :=
  none ← read (λ s,
    match current_call_of s id with Some c => bool_decide (invited_targets c = ∅) | None => false end);
  when none (perform (StopSound Ringback)).

Definition remove_incoming_call (id : CallId) : App bool :=
  found ← read (λ s, bool_decide (is_Some (incoming_calls s !! id)));
  modify (λ s, with_incoming s (delete id (incoming_calls s))) ;;
  stop_ringing_if_no_incoming_calls ;; mret found.

Definition emit_call_error (id : CallId) (is_local : bool) (origin : CallErrorOrigin)
    (reason : CallErrorReason) : App () :=
  emit (EvCallError id is_local origin reason false).

(** ** Sounds ([webrtc.rs]) *)

(** 200 ms, in nanoseconds *)
Definition START_SOUND_THRESHOLD : Duration := 200000000.
(** 10 s *)
Definition LINK_RETRY_ESTABLISH_TIMEOUT : Duration := 10000000000.

Definition other_peer_connected (s : AppStateInner) (id : CallId) (peer_id : ClientId) : bool :=
  match current_call_of s id with
  | Some c => WebrtcCall.has_other_connected_peer (webrtc c) peer_id
  | None => false
  end.

Definition peer_joined_sound (s : AppStateInner) (id : CallId) (peer_id : ClientId) :
    option SourceType :=
  if has_pending_link_retries s id || other_peer_connected s id peer_id then
    let just_started :=
      match current_call_of s id ≫= (λ c, last_call_start_sound (webrtc c)) with
      | Some last_start_sound => (env_now env <? last_start_sound + START_SOUND_THRESHOLD)%N
      | None => false
      end in
    if just_started then None
    else if enable_participant_joined_sound (config s) then Some ParticipantJoined else None
  else if enable_call_start_sound (config s) then Some CallStart else None.

Definition peer_left_sound (s : AppStateInner) (id : CallId) (peer_id : ClientId) :
    option SourceType :=
  if has_pending_link_retries s id || other_peer_connected s id peer_id then
    if enable_participant_left_sound (config s) then Some ParticipantLeft else None
  else if enable_call_end_sound (config s) then Some CallEndSound else None.

Definition restart (sound : option SourceType) : App () :=
  match sound with Some sound => perform (RestartSound sound) | None => mret () end.

Definition detach_output (id : option N) : App () :=
  match id with Some id => perform (DetachOutput id) | None => mret () end.

(** ** Teardown *)

Definition take_webrtc_peer (id : CallId) (peer_id : ClientId) : App (option (WebrtcPeer * bool)) :=
  found ← read (λ s, webrtc_peer s id peer_id);
  match found with
  | None => mret None
  | Some peer =>
    modify (change_peers id (delete peer_id)) ;;
    last ← read (λ s, no_peers s id);
    mret (Some (peer, last))
  end.

Definition cleanup_call_peer (id : CallId) (peer_id : ClientId) : App bool :=
  taken ← take_webrtc_peer id peer_id;
  match taken with
  | None => mret false
  | Some (peer, last) =>
    pending ← read (λ s, has_pending_link_retries s id);
    when (last && negb pending) (perform (SetCallActive false)) ;;
    perform DetachInput ;;
    left_sound ← read (λ s, if connected peer then peer_left_sound s id peer_id else None);
    detach_output (audio_source_id peer) ;;
    restart left_sound ;;
    mret true
  end.

Definition cleanup_current_call (id : CallId) : App bool :=
  found ← read (λ s, current_call_of s id);
  match found with
  | None => mret false
  | Some call =>
    modify (λ s, cancel_all_link_retries id
      (with_establishment (with_guards (with_current s None) ∅) None)) ;;
    perform (SetCallActive false) ;;
    perform DetachInput ;;
    perform (StopSound Ringback) ;;
    end_sound ← read (λ s, enable_call_end_sound (config s));
    when (end_sound && WebrtcCall.was_connected (webrtc call)) (perform (RestartSound CallEndSound)) ;;
    for_all (omap audio_source_id (map_values (peers (webrtc call))))
      (λ source, perform (DetachOutput source)) ;;
    mret true
  end.

Definition end_call_if_no_peers (id : CallId) : App bool :=
  over ← read (λ s,
    match current_call_of s id with
    | Some c => bool_decide (invited_targets c = ∅) && WebrtcCall.is_empty (webrtc c)
    | None => false
    end);
  if (over : bool) then cleanup_current_call id ;; mret true else mret false.

(** A link that is retried: its peer goes without sounds. *)
Definition remove_link_peer_quiet (id : CallId) (peer_id : ClientId) : App () :=
  taken ← take_webrtc_peer id peer_id;
  match taken with
  | None => mret ()
  | Some (peer, _) => detach_output (audio_source_id peer) ;; perform DetachInput
  end.

(** ** Failures *)

Definition in_conference (s : AppStateInner) (id : CallId) (peer_id : ClientId) : bool :=
  match client_id s, current_call_of s id with
  | Some own_client_id, Some c => is_conference_link own_client_id (joined_participants c) peer_id
  | _, _ => false
  end.

Definition is_link_failure (s : AppStateInner) (id : CallId) (peer_id : ClientId)
    (reason : CallErrorReason) : bool :=
  in_conference s id peer_id &&
  match reason with WebrtcFailure _ | SignalingFailure _ => true | _ => false end.

(** Its last attempt is less than ten seconds old. *)
Definition is_young (s : AppStateInner) (id : CallId) (peer_id : ClientId) : bool :=
  match webrtc_peer s id peer_id with
  | Some peer => (duration_since (env_now env) (created peer) <? LINK_RETRY_ESTABLISH_TIMEOUT)%N
  | None => false
  end.

Definition fail_link (id : CallId) (peer_id : ClientId) : App () :=
  young ← read (λ s, is_young s id peer_id);
  when (negb young)
    (remove_link_peer_quiet id peer_id ;;
     emit (EvWebrtc CallDisconnected id peer_id) ;;
     limbo ← read (λ s, has_link_limbo s id peer_id);
     when (negb limbo) (modify (start_link_retry id peer_id))).

Definition fail_call (id : CallId) (reason : CallErrorReason) : App () :=
  try_send_call_error id reason ;;
  emit_call_error id true OriginCall reason ;;
  cleanup_current_call id ;;
  emit (EvForceCallEnd id).

Definition fail_peer (id : CallId) (peer_id : ClientId) (reason : CallErrorReason) : App () :=
  cleanup_call_peer id peer_id ;;
  try_send_call_error id reason ;;
  emit_call_error id true (OriginClient peer_id) reason ;;
  ended ← end_call_if_no_peers id;
  when ended (emit (EvForceCallEnd id)).

Definition handle_conference_peer_failure (id : CallId) (peer_id : ClientId)
    (reason : CallErrorReason) : App bool :=
  link ← read (λ s, is_link_failure s id peer_id reason);
  conference ← read (λ s, in_conference s id peer_id);
  if (link : bool) then fail_link id peer_id ;; mret true
  else if (conference : bool) then fail_call id reason ;; mret true
  else mret false.

Definition handle_peer_failure (id : CallId) (peer_id : ClientId) (reason : CallErrorReason) :
    App () :=
  handled ← handle_conference_peer_failure id peer_id reason;
  when (negb handled) (fail_peer id peer_id reason).

(** ** Negotiation *)

(** [create_peer] and [negotiate_peer]; the description to send. *)
Definition negotiate_peer (id : CallId) (peer_id : ClientId) (offer_sdp : option string) :
    App (Result string ClientError) :=
  s ← read (λ s, s);
  match current_call s with
  | None => mret (Err ErrNoCallActive)
  | Some call =>
    if negb (bool_decide (call_id call = id)) then mret (Err ErrCallActive) else
    let replaced := peers (webrtc call) !! peer_id in
    let replacing := bool_decide (is_Some replaced) in
    let limbo := has_link_limbo s id peer_id in
    let relay := force_relay (config s)
      || (replacing && bool_decide (offer_sdp = None)) || limbo in
    when replacing (emit (EvWebrtc CallReconnecting id peer_id)) ;;
    match with_context (create_sdp env peer_id offer_sdp relay) with
    | Err err => mret (Err err)
    | Ok sdp =>
      let supports := match offer_sdp with Some o => has_reconnect_capability o | None => false end in
      let peer := WebrtcPeer.new (next_task s) supports (env_now env) in
      let peer := if replacing || limbo then WebrtcPeer.with_reconnect peer else peer in
      let peer :=
        if limbo && negb replacing
        then WebrtcPeer.set_link peer (audio_source_id peer) false (established peer) else peer in
      modify (λ s, with_next_task s (next_task s + 1)) ;;
      modify (change_peers id (<[peer_id := peer]>)) ;;
      match replaced with
      | Some old_peer => perform DetachInput ;; detach_output (audio_source_id old_peer)
      | None => mret ()
      end ;;
      modify (λ s, with_establishment s None) ;;
      mret (Ok (tag_reconnect_capability sdp))
    end
  end.

Definition accept_call_answer (id : CallId) (peer_id : ClientId) (answer_sdp : string) :
    App (Result () ClientError) :=
  found ← read (λ s, webrtc_peer s id peer_id);
  match found with
  | None => mret (Err ErrNoCallActive)
  | Some peer =>
    modify (change_peers id
      (<[peer_id := WebrtcPeer.set_supports peer (has_reconnect_capability answer_sdp)]>)) ;;
    mret (if answer_accepted env peer_id answer_sdp then Ok () else Err ErrWebrtcOther)
  end.

Definition on_peer_connected (id : CallId) (peer_id : ClientId) : App (Result () ClientError) :=
  found ← read (λ s, webrtc_peer s id peer_id);
  match found with
  | None => mret (Ok ())
  | Some peer =>
    joined_sound ← read (λ s, if reconnected peer then None else peer_joined_sound s id peer_id);
    perform (SetCallActive true) ;;
    match attach_output env with
    | Err err => mret (Err err)
    | Ok source =>
      perform (AttachOutput source) ;;
      match attach_input env with
      | Err err => perform (DetachOutput source) ;; mret (Err err)
      | Ok _ =>
        perform AttachInput ;;
        restart joined_sound ;;
        when (bool_decide (joined_sound = Some CallStart))
          (modify (change_current id (λ c, Call.with_webrtc c
             (mkWebrtcCall (peers (webrtc c)) (Some (env_now env)))))) ;;
        match start_peer env with
        | Err err => perform (DetachOutput source) ;; perform DetachInput ;; mret (Err err)
        | Ok _ =>
          modify (change_peers id (<[peer_id := WebrtcPeer.set_link peer (Some source) true true]>)) ;;
          modify (cancel_link_retry id peer_id) ;;
          emit (EvWebrtc CallConnected id peer_id) ;;
          mret (Ok ())
        end
      end
    end
  end.

Definition try_relay_reconnect (id : CallId) (peer_id : ClientId) :
    App (Result (option string) ClientError) :=
  found ← read (λ s, webrtc_peer s id peer_id);
  relay ← read (λ s, force_relay (config s));
  match found with
  | None => mret (Ok None)
  | Some peer =>
    if reconnected peer || relay then emit (EvWebrtc CallDegraded id peer_id) ;; mret (Ok None)
    else if negb (peer_supports_reconnect peer) then
      emit (EvWebrtc CallDegraded id peer_id) ;; mret (Ok None)
    else
      res ← negotiate_peer id peer_id None;
      mret (match res with Ok sdp => Ok (Some sdp) | Err err => Err err end)
  end.

Definition send_offer (id : CallId) (peer_id own_client_id : ClientId) (sdp : string) :
    App (Result () ClientError) :=
  send_signaling_message (CM_WebrtcOffer (mkWebrtcOffer id own_client_id peer_id sdp)).
End app.
