(* ===== verification/AppEvents.v ===== *)
(** AppEvents: what the desktop client does with the messages of the server, the
    commands of its user, its timers and the events of its connections,
    [vacs-client/src/app/state/signaling.rs] and the tasks of
    [app/state/webrtc.rs].

    A handler runs under the lock of the state and is one step. *)
From stdpp Require Import prelude gmap strings list.
From Stdlib Require Import NArith.
From S2P Require Import Prelude Protocol Calls SignalingErrors AppState.

Definition INCOMING_CALLS_LIMIT : nat := 5.

Section events.
Context {HO : HashOrder} {SD : SessionDescriptions} (env : Env).

(** ** Commands of the user *)

Definition clear_session_cache (s : AppStateInner) : AppStateInner :=
  with_session s Disconnected None (default_call_sources s) [] [].

Definition cleanup_signaling : App () :=
  modify (λ s, clear_session_cache (with_incoming s ∅)) ;;
  current ← read (λ s, call_id <$> current_call s);
  match current with Some id => cleanup_current_call id ;; mret () | None => mret () end ;;
  perform (StopSound Ring) ;; perform (StopSound PriorityRing) ;; perform (StopSound Ringback) ;;
  perform DetachAllOutputs ;; perform DetachInput ;;
  perform (SetCallActive false).

Definition disconnect_signaling : App () :=
  cleanup_signaling ;; emit EvDisconnected ;; perform DisconnectServer.

Definition handle_signaling_connection_closed : App () :=
  cleanup_signaling ;; emit EvDisconnected.

Definition end_call (id : CallId) : App (Result bool ClientError) :=
  own ← read client_id;
  match own with
  | None => mret (Err ErrUnauthorized)
  | Some own_client_id =>
    res ← send_signaling_message env (CM_CallEnd (mkCallEnd id own_client_id));
    match res with
    | Err err => mret (Err err)
    | Ok _ => found ← cleanup_current_call id; emit (EvForceCallEnd id) ;; mret (Ok found)
    end
  end.

(** The part of [accept_call] after another call was ended *)
Definition accept_incoming (id : CallId) (own_client_id : ClientId) : App (Result bool ClientError) :=
  incoming ← read (λ s, incoming_calls s !! id);
  match incoming with
  | None => mret (Ok false)
  | Some call =>
    modify (λ s, with_incoming s (delete id (incoming_calls s))) ;;
    res ← send_signaling_message env (CM_CallAccept (mkCallAccept id own_client_id));
    match res with
    | Err err =>
      modify (λ s, with_incoming s (<[id := call]> (incoming_calls s))) ;; mret (Err err)
    | Ok _ =>
      modify (λ s, start_call_establishment_timer id (with_current s (Some call))) ;;
      stop_ringing_if_no_incoming_calls ;;
      emit (EvAcceptIncomingCall id) ;;
      mret (Ok true)
    end
  end.

Definition accept_call (id : option CallId) (end_active_call : bool) : App (Result bool ClientError) :=
  s ← read (λ s, s);
  match client_id s with
  | None => mret (Err ErrUnauthorized)
  | Some own_client_id =>
    match (match id with Some id => Some id | None => head (map_keys (incoming_calls s)) end) with
    | None => mret (Ok false)
    | Some id =>
      if negb (bool_decide (is_Some (incoming_calls s !! id))) then mret (Ok false) else
      match current_call s with
      | None => accept_incoming id own_client_id
      | Some current =>
        if negb end_active_call || negb (Call.is_active current own_client_id)
        then mret (Err ErrCallActive)
        else
          res ← end_call (call_id current);
          match res with
          | Err err => mret (Err err)
          | Ok _ => accept_incoming id own_client_id
          end
      end
    end
  end.

Definition invite_to_call (source : CallSource) (targets : gset CallTarget) (prio : bool) :
    App (Result CallId ClientError) :=
  current ← read current_call;
  let id := match current with Some c => call_id c | None => fresh_call_id env end in
  let invite := mkCallInvite id source targets prio in
  res ← send_signaling_message env (CM_CallInvite invite);
  match res with
  | Err err => mret (Err err)
  | Ok _ =>
    modify (λ s, with_current s (Some
      match current with
      | Some c => Call.add_invited_targets c targets
      | None => Call.from_invite invite
      end)) ;;
    emit (EvOutgoingCall invite) ;;
    modify (start_unanswered_call_timer_for_targets id targets) ;;
    perform (RestartSound Ringback) ;;
    mret (Ok id)
  end.

Definition drop_target (id : CallId) (target : CallTarget) : App (Result () ClientError) :=
  current ← read (λ s, current_call_of s id);
  match current with
  | None => mret (Err ErrNoCallActive)
  | Some call =>
    let is_invited := bool_decide (target ∈ invited_targets call) in
    res ← send_signaling_message env (CM_CallDropTarget (mkCallDropTarget id target Requested));
    match res with
    | Err err => mret (Err err)
    | Ok _ =>
      when is_invited
        (modify (λ s, change_current id (λ c, Call.remove_invited_targets c {[target]})
           (cancel_unanswered_call_timers_for_targets {[target]} s)) ;;
         stop_ringback_if_no_invited_targets id) ;;
      mret (Ok ())
    end
  end.

(** ** Timers *)

(** The timer of an invited target expires. *)
Definition unanswered_call_timer_expired (target : CallTarget) : App () :=
  guard ← read (λ s, unanswered_call_guards s !! target);
  match guard with
  | None => mret ()
  | Some id =>
    try_send env (CM_CallDropTarget (mkCallDropTarget id target AutoHangup)) ;;
    modify (λ s, with_guards s (delete target (unanswered_call_guards s))) ;;
    emit_call_error id false (OriginTargets {[target]}) CE_AutoHangup ;;
    modify (change_current id (λ c, Call.remove_invited_targets c {[target]}))
  end.

Definition call_establishment_timer_expired : App () :=
  guard ← read establishment_guard;
  match guard with
  | None => mret ()
  | Some id =>
    modify (λ s, with_establishment s None) ;;
    waiting ← read (λ s, no_peers s id);
    own ← read client_id;
    when waiting
      (match own with
       | Some own_client_id => try_send env (CM_CallEnd (mkCallEnd id own_client_id))
       | None => mret ()
       end ;;
       emit_call_error id true OriginCall CallFailure ;;
       cleanup_current_call id ;;
       emit (EvForceCallEnd id))
  end.

(** ** Messages of the server *)

Definition handle_call_invitation (msg : CallInvitation) : App () :=
  s ← read (λ s, s);
  let caller_id := source_client_id (inv_source msg) in
  if bool_decide (caller_id ∈ ignored (config s)) then mret () else
  match client_id s with
  | None => mret ()
  | Some own_client_id =>
    emit (EvAddIncomingToCallList (inv_call_id msg) (inv_source msg)) ;;
    if INCOMING_CALLS_LIMIT <=? size (incoming_calls s) then
      try_send env (CM_CallReject (mkCallReject (inv_call_id msg) own_client_id Busy))
    else
      modify (λ s, with_incoming s
        (<[inv_call_id msg := Call.from_invitation msg]> (incoming_calls s))) ;;
      emit (EvCallInvitation msg) ;;
      perform (RestartSound
        (if inv_prio msg && enable_priority_calls (config s) then PriorityRing else Ring))
  end.

(** The offers to the participants that joined; answers how many were attempted. *)
Fixpoint offer_to_joined (id : CallId) (own_client_id : ClientId)
    (newly_joined : list (ClientId * CallTarget)) : App nat :=
  match newly_joined with
  | [] => mret 0
  | (peer_id, target) :: rest =>
    if client_leb peer_id own_client_id then offer_to_joined id own_client_id rest
    else
      res ← negotiate_peer env id peer_id None;
      match res with
      | Ok sdp =>
        sent ← send_offer env id peer_id own_client_id sdp;
        match sent with
        | Ok _ => mret ()
        | Err _ =>
          modify (cancel_link_retry id peer_id) ;;
          cleanup_call_peer id peer_id ;;
          try_send_call_error env id (SignalingFailure own_client_id)
        end
      | Err err =>
        let reason := into_call_error_reason err own_client_id in
        handled ← handle_conference_peer_failure env id peer_id reason;
        when (negb handled)
          (try_send_call_error env id reason ;;
           emit_call_error id true (OriginTargets {[target]}) reason)
      end ;;
      attempted ← offer_to_joined id own_client_id rest;
      mret (S attempted)
  end.

(** The part of a call update after the call was updated *)
Definition follow_call_update (msg : CallUpdate) (own_client_id : ClientId)
    (newly_joined : CallParticipants) (departed : gset ClientId) (is_active : bool) : App () :=
  let id := cu_call_id msg in
  (if bool_decide (cu_invited_targets msg = ∅) then
     modify (λ s, with_guards s ∅) ;; perform (StopSound Ringback)
   else modify (cancel_unanswered_call_timers_for_targets
     (list_to_set (map_values newly_joined)))) ;;
  for_all (set_iter departed) (λ peer_id,
    modify (cancel_link_retry id peer_id) ;; cleanup_call_peer id peer_id ;; mret ()) ;;
  attempted_peers ← offer_to_joined id own_client_id (map_iter newly_joined);
  over ← (if 0 <? attempted_peers then end_call_if_no_peers id else mret false);
  if (over : bool) then emit (EvForceCallEnd id)
  else
    modify (λ s,
      if is_active
         && match current_call_of s id with
            | Some call => any_entry (λ kv, kv.1 <> own_client_id) (joined_participants call)
            | None => false
            end
         && no_peers s id
      then start_call_establishment_timer id s else s) ;;
    emit (EvCallUpdate msg).

Definition handle_call_update (msg : CallUpdate) : App () :=
  s ← read (λ s, s);
  let id := cu_call_id msg in
  match client_id s with
  | None => mret ()
  | Some own_client_id =>
    match incoming_calls s !! id with
    | Some incoming_call =>
      let '(_, _, call) := Call.update incoming_call own_client_id (cu_invited_targets msg)
        (cu_joined_participants msg) (cu_conference_leader msg) in
      modify (λ s, with_incoming s (<[id := call]> (incoming_calls s))) ;;
      emit (EvCallUpdate msg)
    | None =>
      match current_call_of s id with
      | None => mret ()
      | Some current =>
        let was_active := Call.is_active current own_client_id in
        let '(newly_joined, departed, call) := Call.update current own_client_id
          (cu_invited_targets msg) (cu_joined_participants msg) (cu_conference_leader msg) in
        let is_active := Call.is_active call own_client_id in
        modify (λ s, with_current s (Some call)) ;;
        if bool_decide (cu_invited_targets msg = ∅) && bool_decide (cu_joined_participants msg = ∅)
           || (was_active && negb is_active)
        then cleanup_current_call id ;; emit (EvForceCallEnd id)
        else follow_call_update msg own_client_id newly_joined departed is_active
      end
    end
  end.

Definition handle_webrtc_offer (msg : WebrtcOffer) : App () :=
  s ← read (λ s, s);
  let id := offer_call_id msg in
  let from_client_id := offer_from msg in
  match client_id s with
  | None => mret ()
  | Some own_client_id =>
    if has_link_limbo s id from_client_id && negb (client_leb from_client_id own_client_id)
    then mret ()
    else
      res ← negotiate_peer env id from_client_id (Some (offer_sdp msg));
      match res with
      | Ok sdp =>
        try_send env (CM_WebrtcAnswer (mkWebrtcAnswer id own_client_id from_client_id sdp))
      | Err err =>
        let reason := into_call_error_reason err own_client_id in
        handled ← handle_conference_peer_failure env id from_client_id reason;
        when (negb handled)
          (emit_call_error id true (OriginClient from_client_id) reason ;;
           try_send_call_error env id reason)
      end
  end.

Definition handle_webrtc_answer (msg : WebrtcAnswer) : App () :=
  s ← read (λ s, s);
  let id := answer_call_id msg in
  match client_id s, webrtc_peer s id (answer_from msg) with
  | Some own_client_id, Some _ =>
    res ← accept_call_answer env id (answer_from msg) (answer_sdp msg);
    match res with
    | Ok _ => mret ()
    | Err err =>
      let reason := into_call_error_reason err own_client_id in
      handled ← handle_conference_peer_failure env id (answer_from msg) reason;
      when (negb handled) (try_send_call_error env id reason)
    end
  | _, _ => mret ()
  end.

Definition handle_call_end (msg : CallEnd) : App () :=
  cleanup_current_call (ce_call_id msg) ;;
  remove_incoming_call (ce_call_id msg) ;;
  emit (EvCallEnd (ce_call_id msg)).

(** Targets that will not answer; whether nothing is left of the call, or [None]
    if it is not the current one. *)
Definition drop_invited (id : CallId) (targets : gset CallTarget) : App (option bool) :=
  current ← read (λ s, current_call_of s id);
  match current with
  | None => mret None
  | Some call =>
    modify (change_current id (λ c, Call.remove_invited_targets c targets)) ;;
    mret (Some (Call.is_empty (Call.remove_invited_targets call targets)))
  end.

Definition cancel_timers (targets : gset CallTarget) : App () :=
  modify (cancel_unanswered_call_timers_for_targets targets).

(** ... and the error that says so *)
Definition lose_targets (id : CallId) (targets : gset CallTarget) (event : FrontendEvent) : App () :=
  dropped ← drop_invited id targets;
  match dropped with
  | None => mret ()
  | Some empty =>
    when empty (cleanup_current_call id ;; mret ()) ;;
    cancel_timers targets ;;
    stop_ringback_if_no_invited_targets id ;;
    emit event
  end.

Definition error_event (id : CallId) (origin : CallErrorOrigin) (reason : CallErrorReason) :
    FrontendEvent :=
  EvCallError id false origin reason false.

Definition handle_call_error (msg : CallError) : App () :=
  let id := cerr_call_id msg in
  let reason := cerr_reason msg in
  match reason with
  | TargetsNotFound targets | MaxConferenceSizeReached targets =>
    dropped ← drop_invited id targets;
    match dropped with
    | None => mret ()
    | Some empty =>
      (if (empty : bool) then cleanup_current_call id ;; mret () else cancel_timers targets) ;;
      stop_ringback_if_no_invited_targets id ;;
      emit (error_event id (OriginTargets targets) reason)
    end
  | CallActive | CE_NotParticipant | CE_CallNotFound | CallFailure | CE_Other =>
    cleanup_current_call id ;;
    remove_incoming_call id ;;
    emit (error_event id OriginCall reason)
  | CE_Unknown _ => emit (error_event id OriginCall reason)
  | WebrtcFailure client | AudioFailure client | SignalingFailure client =>
    current ← read (λ s, current_call_of s id);
    match current with
    | None => mret ()
    | Some _ => emit (error_event id (OriginClient client) reason)
    end
  | CE_NotConferenceLeader target | CE_AlreadyParticipant target =>
    lose_targets id {[target]} (error_event id (OriginTargets {[target]}) reason)
  | PeerConnectionFailed peer_id =>
    found ← cleanup_current_call id;
    when found (emit (EvCallError id false (OriginClient peer_id) reason true))
  | CE_AutoHangup => mret ()
  end.

Definition handle_call_cancelled (msg : CallCancelled) : App () :=
  let id := cc_call_id msg in
  let targets := cc_targets msg in
  match cc_reason msg with
  | AnsweredElsewhere _ | CallerCancelled | Errored CE_AutoHangup =>
    cleanup_current_call id ;;
    remove_incoming_call id ;;
    emit (EvCallEnd id)
  | CC_Disconnected | CC_Unknown _ =>
    found ← remove_incoming_call id;
    if (found : bool) then emit (EvCallEnd id)
    else
      dropped ← drop_invited id targets;
      match dropped with
      | None => mret ()
      | Some true => cleanup_current_call id ;; emit (EvForceCallEnd id)
      | Some false =>
        update ← read (λ s, Call.to_update <$> current_call_of s id);
        cancel_timers targets ;;
        stop_ringback_if_no_invited_targets id ;;
        match update with Some update => emit (EvCallUpdate update) | None => mret () end
      end
  | CC_Rejected _ => lose_targets id targets (EvCallReject id targets)
  | Errored reason => lose_targets id targets (error_event id (OriginTargets targets) reason)
  end.

(** The list of the stations, as the changes leave it *)
Definition apply_station_change (own_position_id : option PositionId) (l : list StationInfo)
    (change : StationChange) : list StationInfo :=
  let is_own position_id := bool_decide (own_position_id = Some position_id) in
  match change with
  | Online station_id position_id => l ++ [mkStationInfo station_id (is_own position_id)]
  | Handoff station_id _ to_position_id =>
    match list_find (λ s, station_info_id s = station_id) l with
    | Some (i, s) => <[i := mkStationInfo (station_info_id s) (is_own to_position_id)]> l
    | None => l
    end
  | Offline station_id => filter (λ s, station_info_id s <> station_id) l
  end.

Definition apply_station_changes (s : AppStateInner) (changes : list StationChange) :
    list StationInfo :=
  let own_position_id := session_info s ≫= (λ info, info_position_id (si_client info)) in
  foldl (apply_station_change own_position_id) (stations s) changes.

Definition set_stations (l : list StationInfo) (s : AppStateInner) : AppStateInner :=
  with_session s (connection_state s) (session_info s) (default_call_sources s) l (clients s).
Definition set_clients (l : list ClientInfo) (s : AppStateInner) : AppStateInner :=
  with_session s (connection_state s) (session_info s) (default_call_sources s) (stations s) l.
Definition set_session_info (info : SessionInfo) (s : AppStateInner) : AppStateInner :=
  with_session s (connection_state s) (Some info) (default_call_sources s) (stations s) (clients s).
Definition set_connection_state (c : ConnectionState) (s : AppStateInner) : AppStateInner :=
  with_session s c (session_info s) (default_call_sources s) (stations s) (clients s).

(** The first entry of that client is replaced, or the client is added. *)
Definition upsert_client (info : ClientInfo) (l : list ClientInfo) : list ClientInfo :=
  match list_find (λ c, info_id c = info_id info) l with
  | Some (i, _) => <[i := info]> l
  | None => l ++ [info]
  end.

Definition handle_rate_limited (call : option CallId) (targets : gset CallTarget) : App () :=
  match call with
  | None => emit EvSignalingError
  | Some id =>
    remove_incoming_call id ;;
    dropped ← drop_invited id targets;
    match dropped with
    | None => mret ()
    | Some empty =>
      (if (empty : bool) then cleanup_current_call id ;; emit (EvForceCallEnd id)
       else
         update ← read (λ s, Call.to_update <$> current_call_of s id);
         match update with Some update => emit (EvCallUpdate update) | None => mret () end ;;
         cancel_timers targets) ;;
      stop_ringback_if_no_invited_targets id ;;
      emit EvSignalingError
    end
  end.

Definition handle_error (msg : Error) : App () :=
  match error_reason msg with
  | MalformedMessage | Internal _ | UnexpectedMessage _ | PeerConnection | ErrorUnknown _ =>
    emit (EvError (error_reason msg))
  | RateLimited targets _ => handle_rate_limited (error_call_id msg) targets
  | ClientNotFound =>
    emit (EvClientNotFound (default (ClientId_from "") (error_client_id msg)))
  end.

(** A candidate is handed to the connection, if there is one; the state stays. *)
Definition handle_signaling_message (msg : ServerMessage) : App () :=
  match msg with
  | SM_CallInvitation invitation => handle_call_invitation invitation
  | SM_CallUpdate update => handle_call_update update
  | SM_WebrtcOffer offer => handle_webrtc_offer offer
  | SM_WebrtcAnswer answer => handle_webrtc_answer answer
  | SM_CallEnd call_end => handle_call_end call_end
  | SM_CallError error => handle_call_error error
  | SM_CallCancelled cancelled => handle_call_cancelled cancelled
  | SM_WebrtcIceCandidate _ => mret ()
  | SM_ClientConnected client =>
    modify (λ s, set_clients (clients s ++ [client]) s) ;; emit (EvClientConnected client)
  | SM_ClientDisconnected client_id =>
    modify (λ s, set_clients (filter (λ c, info_id c <> client_id) (clients s)) s) ;;
    emit (EvClientDisconnected client_id)
  | SM_ClientList clients => modify (set_clients clients) ;; emit (EvClientList clients)
  | SM_ClientInfo info =>
    modify (λ s, set_clients (upsert_client info (clients s)) s) ;; emit (EvClientConnected info)
  | SM_SessionInfo info => modify (set_session_info info) ;; emit (EvConnected info)
  | SM_StationList stations => modify (set_stations stations) ;; emit (EvStationList stations)
  | SM_StationChanges changes =>
    modify (λ s, set_stations (apply_station_changes s changes) s) ;;
    emit (EvStationChanges changes)
  | SM_Error error => handle_error error
  | SM_Disconnected _ | SM_LoginFailure _ | SM_Unknown => mret ()
  end.

(** ** The connection to the server ([handle_signaling_event]) *)

Definition handle_connected (client_info : ClientInfo) (profile : ActiveProfile ProfileId)
    (sources : list StationId) (max_conf_size : option N) : App () :=
  let info := mkSessionInfo client_info (Changed profile) sources max_conf_size in
  modify (λ s, with_session s Connected (Some info) sources (stations s) (clients s)) ;;
  emit (EvConnected info).

Definition handle_runtime_error (error : SignalingRuntimeError) : App () :=
  when (is_fatal error)
    (handle_signaling_connection_closed ;;
     match error with
     | RE_Disconnected (Some (AmbiguousVatsimPosition positions)) =>
       emit (EvAmbiguousPosition positions)
     | _ =>
       if can_reconnect error
       then modify (set_connection_state Connecting) ;; emit EvReconnecting
       else emit EvSignalingError
     end).

(** ** The retry of a link ([link_retry_task]) *)

Definition peer_joined (s : AppStateInner) (id : CallId) (peer_id : ClientId) : bool :=
  match current_call_of s id with
  | Some c => bool_decide (is_Some (joined_participants c !! peer_id))
  | None => false
  end.

Definition is_established (s : AppStateInner) (id : CallId) (peer_id : ClientId) : bool :=
  match webrtc_peer s id peer_id with Some peer => established peer | None => false end.

Definition attempt_link_retry (id : CallId) (peer_id own_client_id : ClientId) : App () :=
  s ← read (λ s, s);
  if negb (peer_joined s id peer_id) || is_established s id peer_id || is_young env s id peer_id
  then mret ()
  else
    when (bool_decide (webrtc_peer s id peer_id = None))
      (emit (EvWebrtc CallReconnecting id peer_id)) ;;
    res ← negotiate_peer env id peer_id None;
    match res with
    | Ok sdp => send_offer env id peer_id own_client_id sdp ;; mret ()
    | Err _ => mret ()
    end.

Definition set_limbo (peer_id : ClientId) (l : LinkLimbo) (s : AppStateInner) : AppStateInner :=
  with_limbo s (<[peer_id := l]> (link_limbo_guards s)).

(** The task attempts the link, and waits. *)
Definition link_retry_attempt (peer_id own_client_id : ClientId) : App () :=
  limbo ← read (λ s, link_limbo_guards s !! peer_id);
  match limbo with
  | Some (mkLinkLimbo id reported false) =>
    attempt_link_retry id peer_id own_client_id ;;
    modify (set_limbo peer_id (mkLinkLimbo id reported true))
  | _ => mret ()
  end.

(** It wakes: the link is healed or gone, dead with the whole call, reported, or
    attempted again. *)
Definition link_retry_wake (peer_id own_client_id : ClientId) : App () :=
  s ← read (λ s, s);
  match link_limbo_guards s !! peer_id with
  | Some (mkLinkLimbo id reported true) =>
    if is_established s id peer_id || negb (peer_joined s id peer_id)
    then modify (cancel_link_retry id peer_id)
    else
      let young := is_young env s id peer_id in
      when (negb young) (remove_link_peer_quiet id peer_id) ;;
      alone ← read (λ s, no_peers s id);
      if negb young && alone then
        modify (cancel_link_retry id peer_id) ;;
        fail_call env id (WebrtcFailure own_client_id)
      else
        when (reported || negb young) (try_send_call_error env id (PeerConnectionFailed peer_id)) ;;
        when (negb young)
          (modify (set_limbo peer_id
             (if reported then mkLinkLimbo id true false else mkLinkLimbo id true true)))
  | _ => mret ()
  end.

(** ** Events of a connection ([spawn_peer_events_task]) *)

Inductive PeerEvent :=
| PE_Connected
| PE_Disconnected
| PE_Failed
| PE_Closed
| PE_IceCandidate (candidate : string)
| PE_NoInboundMedia.

Definition peer_disconnected (id : CallId) (peer_id : ClientId) (peer : WebrtcPeer) : App () :=
  modify (change_peers id (<[peer_id := WebrtcPeer.set_link peer None false false]>)) ;;
  detach_output (audio_source_id peer) ;;
  left_sound ← read (λ s, if connected peer then peer_left_sound s id peer_id else None);
  restart left_sound ;;
  emit (EvWebrtc CallDisconnected id peer_id) ;;
  perform DetachInput.

Definition peer_failed (id : CallId) (peer_id own_client_id : ClientId) (peer : WebrtcPeer) :
    App () :=
  modify (change_peers id
    (<[peer_id := WebrtcPeer.set_link peer (audio_source_id peer) (connected peer) false]>)) ;;
  conference ← read (λ s, in_conference s id peer_id);
  if (conference : bool) then
    emit (EvWebrtc CallDisconnected id peer_id) ;;
    limbo ← read (λ s, has_link_limbo s id peer_id);
    if (limbo : bool) then
      young ← read (λ s, is_young env s id peer_id);
      when (negb young) (remove_link_peer_quiet id peer_id)
    else modify (start_link_retry id peer_id)
  else fail_peer env id peer_id (WebrtcFailure own_client_id).

Definition peer_without_media (id : CallId) (peer_id own_client_id : ClientId) : App () :=
  res ← try_relay_reconnect env id peer_id;
  match res with
  | Ok (Some sdp) => send_offer env id peer_id own_client_id sdp ;; mret ()
  | Ok None => mret ()
  | Err _ =>
    conference ← read (λ s, in_conference s id peer_id);
    if (conference : bool) then emit (EvWebrtc CallDegraded id peer_id)
    else fail_peer env id peer_id (WebrtcFailure own_client_id)
  end.

(** An event of the task [task], which is cancelled when its peer goes. *)
Definition handle_peer_event (task : N) (id : CallId) (peer_id own_client_id : ClientId)
    (event : PeerEvent) : App () :=
  found ← read (λ s, webrtc_peer s id peer_id);
  match found with
  | Some peer =>
    if negb (bool_decide (peer_task peer = task)) then mret () else
    match event with
    | PE_Connected =>
      res ← on_peer_connected env id peer_id;
      match res with
      | Ok _ => mret ()
      | Err err =>
        handle_peer_failure env id peer_id (into_call_error_reason err own_client_id)
      end
    | PE_Disconnected => peer_disconnected id peer_id peer
    | PE_Failed => peer_failed id peer_id own_client_id peer
    | PE_Closed =>
      cleanup_call_peer id peer_id ;;
      over ← end_call_if_no_peers id;
      when over (emit (EvCallEnd id))
    | PE_IceCandidate candidate =>
      try_send env (CM_WebrtcIceCandidate (mkWebrtcIceCandidate id own_client_id peer_id candidate))
    | PE_NoInboundMedia => peer_without_media id peer_id own_client_id
    end
  | None => mret ()
  end.

(** [end_call_on_stream_failure] of [audio/manager.rs] *)
Definition end_call_on_stream_failure : App () :=
  s ← read (λ s, s);
  match current_call s with
  | None => mret ()
  | Some call =>
    cleanup_current_call (call_id call) ;;
    match client_id s with
    | Some own => try_send_call_error env (call_id call) (AudioFailure own)
    | None => mret ()
    end ;;
    emit (EvForceCallEnd (call_id call))
  end.

(** ** Steps and runs *)

Inductive Step :=
| OnMessage (msg : ServerMessage)
| OnConnected (client_info : ClientInfo) (profile : ActiveProfile ProfileId)
    (sources : list StationId) (max_conf_size : option N)
| OnRuntimeError (error : SignalingRuntimeError)
| OnPeerEvent (task : N) (id : CallId) (peer_id own_client_id : ClientId) (event : PeerEvent)
| OnUnanswered (target : CallTarget)
| OnEstablishmentTimeout
| OnRetryAttempt (peer_id own_client_id : ClientId)
| OnRetryWake (peer_id own_client_id : ClientId)
| OnStreamFailure
| DoInvite (source : CallSource) (targets : gset CallTarget) (prio : bool)
| DoAccept (id : option CallId) (end_active_call : bool)
| DoDropTarget (id : CallId) (target : CallTarget)
| DoEndCall (id : CallId)
| DoDisconnect
| DoSetClientId (id : option ClientId).

Definition take_step (h : Step) : App () :=
  match h with
  | OnMessage msg => handle_signaling_message msg
  | OnConnected info profile sources size => handle_connected info profile sources size
  | OnRuntimeError error => handle_runtime_error error
  | OnPeerEvent task id peer_id own event => handle_peer_event task id peer_id own event
  | OnUnanswered target => unanswered_call_timer_expired target
  | OnEstablishmentTimeout => call_establishment_timer_expired
  | OnRetryAttempt peer_id own => link_retry_attempt peer_id own
  | OnRetryWake peer_id own => link_retry_wake peer_id own
  | OnStreamFailure => end_call_on_stream_failure
  | DoInvite source targets prio => invite_to_call source targets prio ;; mret ()
  | DoAccept id end_active => accept_call id end_active ;; mret ()
  | DoDropTarget id target => drop_target id target ;; mret ()
  | DoEndCall id => end_call id ;; mret ()
  | DoDisconnect => disconnect_signaling
  | DoSetClientId id => modify (λ s, with_client_id s id)
  end.
End events.

(** A run: steps, each in its environment *)
Definition run {HO : HashOrder} {SD : SessionDescriptions} (w : World) (steps : list (Env * Step)) :
    World :=
  foldl (λ w step, (take_step step.1 step.2 w).2) w steps.

Definition started (config : ClientConfig) : World := mkWorld (AppState_new config) [].
