(* ===== verification/AppLogic.v ===== *)
(** AppLogic: what holds of the state of the desktop client, and that every
    operation keeps it: [keeps] for the operations that stay in their call,
    [safe] for those that may end it. *)
From stdpp Require Import prelude gmap strings list.
From Stdlib Require Import NArith.
From S2P Require Import Prelude Protocol Calls SignalingErrors AppState AppEvents.

(** ** What was last asked of the other components *)

(** The flag of the keybind engine *)
Definition told_active (l : list Effect) : bool :=
  foldl (λ b e, match e with SetCallActive active => active | _ => b end) false l.

(** Whether a sound that repeats is on *)
Definition sounding (source : SourceType) (l : list Effect) : bool :=
  foldl (λ b e,
    match e with
    | RestartSound x => if bool_decide (x = source) then true else b
    | StopSound x => if bool_decide (x = source) then false else b
    | _ => b
    end) false l.

Definition effect_neutral (e : Effect) : Prop :=
  match e with
  | SetCallActive active => active = false
  | RestartSound x => x <> Ring /\ x <> PriorityRing /\ x <> Ringback
  | _ => True
  end.

Lemma told_active_snoc l e :
  told_active (l ++ [e]) = match e with SetCallActive active => active | _ => told_active l end.
Proof. unfold told_active. by rewrite foldl_app. Qed.

Lemma sounding_snoc source l e :
  sounding source (l ++ [e]) =
    match e with
    | RestartSound x => if bool_decide (x = source) then true else sounding source l
    | StopSound x => if bool_decide (x = source) then false else sounding source l
    | _ => sounding source l
    end.
Proof. unfold sounding. by rewrite foldl_app. Qed.

(** ** The invariant *)

Definition cur (s : AppStateInner) : option CallId := call_id <$> current_call s.

(** [R]: whether the ringing counts. It is left out for a moment by the
    operations that take incoming calls away before they stop the sound. *)
Record state_ok (R : Prop) (w : World) : Prop := {
  ao_timers : forall t id, unanswered_call_guards (app w) !! t = Some id -> cur (app w) = Some id;
  ao_watch : forall id, establishment_guard (app w) = Some id ->
    cur (app w) = Some id /\ no_peers (app w) id = true;
  ao_limbo : forall p l, link_limbo_guards (app w) !! p = Some l ->
    cur (app w) = Some (ll_call_id l);
  ao_incoming : forall id c, incoming_calls (app w) !! id = Some c ->
    call_id c = id /\ peers (webrtc c) = ∅;
  ao_tasks : forall c p peer, current_call (app w) = Some c -> peers (webrtc c) !! p = Some peer ->
    (peer_task peer < next_task (app w))%N;
  ao_active : told_active (effects w) = true -> is_Some (current_call (app w));
  ao_ringing : R -> sounding Ring (effects w) || sounding PriorityRing (effects w) = true ->
    incoming_calls (app w) <> ∅;
  ao_ringback : sounding Ringback (effects w) = true -> is_Some (current_call (app w))
}.

Section combinators.
Context (R : Prop).
#[local] Abbreviation app_ok := (state_ok R).

Definition safe {A : Type} (m : App A) : Prop := forall w, app_ok w -> app_ok (m w).2.
Definition keeps {A : Type} (m : App A) : Prop :=
  forall w, app_ok w -> app_ok (m w).2 /\ cur (app (m w).2) = cur (app w).

Lemma keeps_safe {A} (m : App A) : keeps m -> safe m.
Proof. intros H w Hw. by apply H. Qed.

Lemma read_bind {A B} (f : AppStateInner -> A) (k : A -> App B) w :
  (read f ≫= k) w = k (f (app w)) w.
Proof. done. Qed.

Lemma perform_bind {B} e (k : () -> App B) w :
  (perform e ≫= k) w = k () (mkWorld (app w) (effects w ++ [e])).
Proof. done. Qed.

Lemma modify_bind {B} f (k : () -> App B) w :
  (modify f ≫= k) w = k () (mkWorld (f (app w)) (effects w)).
Proof. done. Qed.

Lemma emit_bind {B} e (k : () -> App B) w :
  (emit e ≫= k) w = k () (mkWorld (app w) (effects w ++ [Emit e])).
Proof. done. Qed.

Lemma ret_bind {A B} (a : A) (k : A -> App B) w : (mret a ≫= k) w = k a w.
Proof. done. Qed.

Lemma bind_bind {A B C} (m : App A) (f : A -> App B) (g : B -> App C) w :
  ((m ≫= f) ≫= g) w = (m ≫= λ a, f a ≫= g) w.
Proof. unfold mbind, app_bind. by destruct (m w). Qed.

Lemma keeps_mret {A} (a : A) : keeps (mret a).
Proof. by intros w Hw. Qed.

Lemma keeps_mbind {A B} (m : App A) (k : A -> App B) :
  keeps m -> (forall a, keeps (k a)) -> keeps (m ≫= k).
Proof.
  intros Hm Hk w Hw. unfold mbind, app_bind. destruct (Hm w Hw) as [Hw1 Hc1].
  destruct (m w) as [a w1]. cbn in *. destruct (Hk a w1 Hw1) as [Hw2 Hc2]. split; [done|congruence].
Qed.

Lemma safe_bind {A B} (m : App A) (k : A -> App B) :
  safe m -> (forall a, safe (k a)) -> safe (m ≫= k).
Proof.
  intros Hm Hk w Hw. unfold mbind, app_bind. specialize (Hm w Hw). destruct (m w) as [a w1]. by apply Hk.
Qed.

Lemma keeps_reading {A B} (f : AppStateInner -> A) (k : A -> App B) :
  (forall s, keeps (k (f s))) -> keeps (read f ≫= k).
Proof. intros Hk w Hw. by apply Hk. Qed.

Lemma safe_read {A B} (f : AppStateInner -> A) (k : A -> App B) :
  (forall s, safe (k (f s))) -> safe (read f ≫= k).
Proof. intros Hk w Hw. by apply Hk. Qed.

(** Reading that is used: what was read holds of the state the rest starts in. *)
Lemma keeps_read_at {A B} (f : AppStateInner -> A) (k : A -> App B) :
  (forall w, app_ok w -> app_ok (k (f (app w)) w).2 /\ cur (app (k (f (app w)) w).2) = cur (app w)) ->
  keeps (read f ≫= k).
Proof. intros Hk w Hw. by apply Hk. Qed.

Lemma keeps_when b (m : App ()) : keeps m -> keeps (when b m).
Proof. intros H. destruct b; [done|apply keeps_mret]. Qed.

Lemma safe_when b (m : App ()) : safe m -> safe (when b m).
Proof. intros H. destruct b; [done|apply keeps_safe, keeps_mret]. Qed.

Lemma keeps_for_all {A} (l : list A) (f : A -> App ()) :
  (forall x, x ∈ l -> keeps (f x)) -> keeps (for_all l f).
Proof.
  induction l as [|x l IH]; intros H; [apply keeps_mret|].
  apply keeps_mbind; [apply H; left|]. intros _. apply IH. intros y Hy. apply H. by right.
Qed.

Lemma app_ok_effect w e :
  effect_neutral e -> app_ok w -> app_ok (mkWorld (app w) (effects w ++ [e])).
Proof.
  intros He [H1 H2 H3 H4 H5 H6 H7 H8]. split;
    cbn [app effects]; rewrite ?told_active_snoc, ?sounding_snoc; try done.
  - destruct e; try exact H6. cbn in He. by subst.
  - destruct e; try exact H7; cbn in He.
    + destruct He as (Hr & Hp & _). by rewrite !bool_decide_false.
    + intros HR [H|H]%orb_true_iff; apply (H7 HR); rewrite orb_true_iff; revert H;
        case_bool_decide; try done; [by left|by right].
  - destruct e; try exact H8; cbn in He.
    + destruct He as (_ & _ & Hb). by rewrite bool_decide_false.
    + by case_bool_decide.
Qed.

Lemma keeps_perform e : effect_neutral e -> keeps (perform e).
Proof. intros He w Hw. split; [|done]. by apply app_ok_effect. Qed.

Lemma keeps_emit e : keeps (emit e).
Proof. by apply keeps_perform. Qed.

End combinators.

Create HintDb app.
#[export] Hint Resolve keeps_mret keeps_emit keeps_when safe_when : app.
#[export] Hint Extern 1 (keeps _ (perform _)) => apply keeps_perform; cbn; repeat split; done : app.

(** Runs what can be run of an operation at a state. *)
Ltac app_run :=
  repeat first [rewrite read_bind | rewrite perform_bind | rewrite modify_bind
    | rewrite emit_bind | rewrite ret_bind | rewrite bind_bind];
  cbn [app effects].

(** The steps of a proof that an operation is safe *)
Ltac app_step :=
  match goal with
  | |- keeps _ (read _ ≫= _) => apply keeps_reading; intros ?
  | |- safe _ (read _ ≫= _) => apply safe_read; intros ?
  | |- keeps _ (_ ≫= _) => apply keeps_mbind; [|intros ?]
  | |- safe _ (_ ≫= _) => apply safe_bind; [|intros ?]
  | |- keeps _ (when _ _) => apply keeps_when
  | |- safe _ (when _ _) => apply safe_when
  | |- keeps _ (match ?x with _ => _ end) => destruct x
  | |- safe _ (match ?x with _ => _ end) => destruct x
  | |- safe _ (mret _) => apply keeps_safe
  | |- safe _ (emit _) => apply keeps_safe
  | |- safe _ (perform _) => apply keeps_safe
  | |- _ => solve [auto with app]
  | |- safe _ _ => solve [apply keeps_safe; auto with app]
  end.
Ltac app_steps := repeat app_step.

(** ** Small steps *)

Section logic.
Context (R : Prop).
#[local] Abbreviation app_ok := (state_ok R).
#[local] Abbreviation keeps := (keeps R).
#[local] Abbreviation safe := (safe R).

Context {HO : HashOrder} {SD : SessionDescriptions} (env : Env).

Lemma keeps_send msg : keeps (send_signaling_message env msg).
Proof. intros w Hw. split; [|done]. by apply app_ok_effect. Qed.

Lemma keeps_try_send msg : keeps (try_send env msg).
Proof. unfold try_send. apply keeps_mbind; [apply keeps_send|intros ?; apply keeps_mret]. Qed.

Lemma keeps_try_send_call_error id reason : keeps (try_send_call_error env id reason).
Proof. apply keeps_try_send. Qed.

Lemma keeps_emit_call_error id is_local origin reason :
  keeps (emit_call_error id is_local origin reason).
Proof. apply keeps_emit. Qed.

Lemma keeps_restart_sound sound :
  (forall x, sound = Some x -> effect_neutral (RestartSound x)) -> keeps (restart sound).
Proof. intros H. destruct sound; [by apply keeps_perform, H|apply keeps_mret]. Qed.

Lemma keeps_detach_output source : keeps (detach_output source).
Proof. destruct source; [by apply keeps_perform|apply keeps_mret]. Qed.

Lemma current_call_of_Some s id c :
  current_call_of s id = Some c <-> current_call s = Some c /\ call_id c = id.
Proof. unfold current_call_of. destruct (current_call s); [case_bool_decide|]; naive_solver. Qed.

Lemma current_call_of_cur s id : is_Some (current_call_of s id) <-> cur s = Some id.
Proof.
  unfold cur. split.
  - intros [c [Hc Hid]%current_call_of_Some]. rewrite Hc. cbn. by f_equal.
  - destruct (current_call s) as [c|] eqn:Hc; [|done]. intros [= Hid]. exists c.
    by apply current_call_of_Some.
Qed.

Lemma no_peers_cur s id : no_peers s id = true -> cur s = Some id.
Proof.
  unfold no_peers. destruct (current_call_of s id) eqn:Hc; [|done]. intros _.
  by apply current_call_of_cur.
Qed.

(** Changes of the state that leave the calls alone *)
Lemma keeps_modify_guards (f : AppStateInner -> AppStateInner) :
  (forall s, exists g, (forall t id, g !! t = Some id -> unanswered_call_guards s !! t = Some id) /\
    f s = with_guards s g) -> keeps (modify f).
Proof.
  intros Hf w [H1 H2 H3 H4 H5 H6 H7 H8]. unfold modify. cbn.
  destruct (Hf (app w)) as (g & Hg & ->). split; [|done]. split; cbn; try done. eauto.
Qed.

Lemma keeps_cancel_timers targets :
  keeps (modify (cancel_unanswered_call_timers_for_targets targets)).
Proof.
  apply keeps_modify_guards. intros s. eexists. split; [|done].
  intros t id. by rewrite map_lookup_filter_Some => - [? _].
Qed.

Lemma keeps_no_timers : keeps (modify (λ s, with_guards s ∅)).
Proof. apply keeps_modify_guards. intros s. by exists ∅. Qed.

Lemma keeps_cancel_link_retry id p : keeps (modify (cancel_link_retry id p)).
Proof.
  intros w [H1 H2 H3 H4 H5 H6 H7 H8]. unfold modify, cancel_link_retry. cbn.
  destruct (has_link_limbo (app w) id p); split; try done. split; cbn; try done.
  intros q l. rewrite lookup_delete_Some => - [_ ?]. eauto.
Qed.

(** Another state of the current call takes its place. *)
Lemma with_current_ok w c c' :
  current_call (app w) = Some c -> call_id c' = call_id c ->
  (peers (webrtc c) = ∅ -> peers (webrtc c') = ∅) ->
  (forall p peer, peers (webrtc c') !! p = Some peer -> (peer_task peer < next_task (app w))%N) ->
  app_ok w ->
  app_ok (mkWorld (with_current (app w) (Some c')) (effects w)) /\
  cur (with_current (app w) (Some c')) = cur (app w).
Proof.
  intros Hc Hid Hp Ht [H1 H2 H3 H4 H5 H6 H7 H8].
  assert (Hcur : cur (with_current (app w) (Some c')) = cur (app w))
    by (unfold cur; cbn; by rewrite Hc, Hid).
  split; [|done]. split; cbn [app effects]; rewrite ?Hcur; try done; try by eexists.
  - intros id' Hid'. destruct (H2 _ Hid') as [Hx Hy]. split; [done|]. revert Hy.
    unfold no_peers, current_call_of. cbn. rewrite Hc, Hid. case_bool_decide; [|done].
    unfold WebrtcCall.is_empty. rewrite !bool_decide_eq_true. done.
  - intros c'' p peer [= <-]. apply Ht.
Qed.

(** The current call changes, not its identifier nor its connections. *)
Lemma keeps_change_current id (f : Call -> Call) :
  (forall c, call_id (f c) = call_id c) -> (forall c, peers (webrtc (f c)) = peers (webrtc c)) ->
  keeps (modify (change_current id f)).
Proof.
  intros Hid Hp w Hw. unfold modify, change_current. cbn.
  destruct (current_call_of (app w) id) as [c|] eqn:Hc; [|by destruct w].
  apply current_call_of_Some in Hc as [Hc _].
  apply (with_current_ok w c); try done; rewrite Hp; [done|]. intros p peer. exact (ao_tasks R w Hw c p peer Hc).
Qed.

Lemma keeps_remove_invited id targets :
  keeps (modify (change_current id (λ c, Call.remove_invited_targets c targets))).
Proof. by apply keeps_change_current. Qed.

(** Connections go. *)
Lemma keeps_change_peers id (f : gmap ClientId WebrtcPeer -> gmap ClientId WebrtcPeer) :
  f ∅ = ∅ ->
  (forall m p peer n, (forall q x, m !! q = Some x -> (peer_task x < n)%N) ->
    f m !! p = Some peer -> (peer_task peer < n)%N) ->
  keeps (modify (change_peers id f)).
Proof.
  intros H0 Hf w Hw. unfold modify, change_peers, change_current. cbn.
  destruct (current_call_of (app w) id) as [c|] eqn:Hc; [|by destruct w].
  apply current_call_of_Some in Hc as [Hc _].
  apply (with_current_ok w c); cbn; try done; [by intros ->|].
  intros p peer. apply Hf. intros q x. exact (ao_tasks R w Hw c q x Hc).
Qed.

Lemma keeps_delete_peer id p : keeps (modify (change_peers id (delete p))).
Proof.
  apply keeps_change_peers; [apply delete_empty|]. intros m q peer n Hm. rewrite lookup_delete_Some.
  intros [_ ?]. by eapply Hm.
Qed.

Lemma update_peer_ok w id p peer peer' :
  webrtc_peer (app w) id p = Some peer -> (peer_task peer' < next_task (app w))%N -> app_ok w ->
  let w' := (modify (change_peers id (<[p := peer']>)) w).2 in
  app_ok w' /\ cur (app w') = cur (app w).
Proof.
  intros Hp Ht Hw. unfold modify, change_peers, change_current. cbn.
  unfold webrtc_peer in Hp. destruct (current_call_of (app w) id) as [c|] eqn:Hc; [|by destruct w].
  cbn in Hp. apply current_call_of_Some in Hc as [Hc _].
  apply (with_current_ok w c); cbn; try done; [intros He; by rewrite He in Hp|].
  intros q x. rewrite lookup_insert_Some. intros [[<- <-]|[_ Hx]]; [done|].
  by apply (ao_tasks R w Hw c q x Hc).
Qed.

Lemma peer_task_ok w id p peer :
  webrtc_peer (app w) id p = Some peer -> app_ok w -> (peer_task peer < next_task (app w))%N.
Proof.
  unfold webrtc_peer. destruct (current_call_of (app w) id) as [c|] eqn:Hc; [|done]. cbn.
  intros Hp Hw. apply current_call_of_Some in Hc as [Hc _]. by eapply ao_tasks.
Qed.

Lemma webrtc_peer_cur s id p peer : webrtc_peer s id p = Some peer -> cur s = Some id.
Proof.
  unfold webrtc_peer. destruct (current_call_of s id) eqn:Hc; [|done]. intros _.
  by apply current_call_of_cur.
Qed.

(** A bind at a state *)
Lemma at_bind {A B} (m : App A) (k : A -> App B) w (P : B * World -> Prop) :
  keeps m -> app_ok w ->
  (forall a w', app_ok w' -> cur (app w') = cur (app w) -> P (k a w')) -> P ((m ≫= k) w).
Proof.
  intros Hm Hw H. unfold mbind, app_bind. destruct (Hm w Hw) as [H1 H2]. destruct (m w). by apply H.
Qed.

Lemma keeps_take_peer id p : keeps (take_webrtc_peer id p).
Proof. unfold take_webrtc_peer. app_steps; apply keeps_delete_peer. Qed.

Lemma keeps_restart_left (b : bool) s id p :
  keeps (restart (if b then peer_left_sound s id p else None)).
Proof.
  apply keeps_restart_sound. intros x. destruct b; [|done]. unfold peer_left_sound.
  intros Hx. repeat case_match; simplify_eq; by repeat split.
Qed.

Lemma keeps_restart_joined (b : bool) s id p :
  keeps (restart (if b then None else peer_joined_sound env s id p)).
Proof.
  apply keeps_restart_sound. intros x. destruct b; [done|]. unfold peer_joined_sound.
  intros Hx. repeat case_match; simplify_eq; by repeat split.
Qed.

Hint Resolve keeps_send keeps_try_send keeps_try_send_call_error keeps_emit_call_error
  keeps_detach_output keeps_cancel_timers keeps_no_timers keeps_cancel_link_retry
  keeps_remove_invited keeps_delete_peer keeps_take_peer keeps_restart_left keeps_restart_joined
  : app.

Lemma keeps_cleanup_call_peer id p : keeps (cleanup_call_peer id p).
Proof. unfold cleanup_call_peer. app_steps. Qed.

Lemma keeps_remove_link_peer_quiet id p : keeps (remove_link_peer_quiet id p).
Proof. unfold remove_link_peer_quiet. app_steps. Qed.

Lemma for_all_perform {A} (l : list A) (g : A -> Effect) w :
  for_all l (λ x, perform (g x)) w = ((), mkWorld (app w) (effects w ++ map g l)).
Proof.
  revert w. induction l as [|x l IH]; intros [s es]; cbn; [by rewrite app_nil_r|].
  unfold mbind, app_bind. cbn. rewrite IH. cbn. by rewrite <- app_assoc.
Qed.

Lemma app_ok_effects s es l :
  Forall effect_neutral l -> app_ok (mkWorld s es) -> app_ok (mkWorld s (es ++ l)).
Proof.
  intros Hl. revert es. induction Hl as [|e l He Hl IH]; intros es Hw; [by rewrite app_nil_r|].
  replace (es ++ e :: l) with ((es ++ [e]) ++ l) by by rewrite <- app_assoc.
  apply IH. by apply (app_ok_effect R (mkWorld s es)).
Qed.

(** What is left of the state when the current call ends *)
Definition call_ended (s : AppStateInner) : AppStateInner :=
  with_limbo (with_establishment (with_guards (with_current s None) ∅) None) ∅.

Lemma cancel_all_ended w id :
  app_ok w -> cur (app w) = Some id ->
  cancel_all_link_retries id
    (with_establishment (with_guards (with_current (app w) None) ∅) None) = call_ended (app w).
Proof.
  intros Hw Hc. unfold cancel_all_link_retries, call_ended. cbn. f_equal.
  apply map_empty. intros p. rewrite map_lookup_filter_None. right. intros l Hl.
  apply (ao_limbo R w Hw) in Hl. rewrite Hc in Hl. injection Hl as Hid. cbn. congruence.
Qed.

Lemma call_ended_ok w :
  app_ok w ->
  app_ok (mkWorld (call_ended (app w))
    (effects w ++ [SetCallActive false; DetachInput; StopSound Ringback])).
Proof.
  intros [H1 H2 H3 H4 H5 H6 H7 H8].
  replace (effects w ++ _) with
    (((effects w ++ [SetCallActive false]) ++ [DetachInput]) ++ [StopSound Ringback])
    by by rewrite <- !app_assoc.
  split; cbn [app effects]; rewrite ?told_active_snoc, ?sounding_snoc; cbn; done.
Qed.

(** The current call ends: nothing of it is left. *)
Lemma cleanup_current_call_spec id w :
  app_ok w -> cur (app w) = Some id ->
  let r := cleanup_current_call id w in
  r.1 = true /\ app r.2 = call_ended (app w) /\ app_ok r.2.
Proof.
  intros Hw Hc. cbv zeta. pose proof (proj2 (current_call_of_cur _ _) Hc) as [c Hcall].
  unfold cleanup_current_call, mbind, app_bind. cbn. rewrite Hcall. cbn.
  rewrite (cancel_all_ended w id Hw Hc).
  set (es := ((effects w ++ _) ++ _) ++ _).
  assert (Hes : es = effects w ++ [SetCallActive false; DetachInput; StopSound Ringback])
    by (subst es; by rewrite <- !app_assoc). rewrite Hes. clear es Hes.
  assert (Hok := call_ended_ok w Hw).
  destruct (enable_call_end_sound _ && _); cbn; rewrite for_all_perform; cbn.
  - split; [done|]. split; [done|].
    apply app_ok_effects; [|by apply (app_ok_effects _ _ [_]); [repeat constructor|]].
    apply Forall_forall. by intros x (? & -> & _)%list_elem_of_fmap.
  - split; [done|]. split; [done|]. apply app_ok_effects; [|done].
    apply Forall_forall. by intros x (? & -> & _)%list_elem_of_fmap.
Qed.

Lemma cleanup_current_call_other id w :
  cur (app w) <> Some id -> cleanup_current_call id w = (false, w).
Proof.
  intros Hc. unfold cleanup_current_call, mbind, app_bind. cbn.
  destruct (current_call_of (app w) id) eqn:Hcall; [|done].
  destruct Hc. apply current_call_of_cur. by eexists.
Qed.

Lemma safe_cleanup_current_call id : safe (cleanup_current_call id).
Proof.
  intros w Hw. destruct (decide (cur (app w) = Some id)) as [Hc|Hc].
  - by apply cleanup_current_call_spec.
  - by rewrite cleanup_current_call_other.
Qed.

Hint Resolve keeps_cleanup_call_peer keeps_remove_link_peer_quiet safe_cleanup_current_call : app.

Lemma safe_end_call_if_no_peers id : safe (end_call_if_no_peers id).
Proof. unfold end_call_if_no_peers. app_steps. Qed.

Hint Resolve safe_end_call_if_no_peers : app.

Lemma safe_fail_call id reason : safe (fail_call env id reason).
Proof. unfold fail_call. app_steps. Qed.

Lemma safe_fail_peer id p reason : safe (fail_peer env id p reason).
Proof. unfold fail_peer. app_steps. Qed.

Lemma start_link_retry_ok w id p :
  cur (app w) = Some id -> app_ok w -> app_ok (modify (start_link_retry id p) w).2.
Proof.
  intros Hc [H1 H2 H3 H4 H5 H6 H7 H8]. split; cbn; try done.
  intros q l. rewrite lookup_insert_Some. intros [[_ <-]|[_ Hl]]; [done|by eapply H3].
Qed.

Lemma set_limbo_ok w p l :
  cur (app w) = Some (ll_call_id l) -> app_ok w -> app_ok (modify (set_limbo p l) w).2.
Proof.
  intros Hc [H1 H2 H3 H4 H5 H6 H7 H8]. split; cbn; try done.
  intros q l'. rewrite lookup_insert_Some. intros [[_ <-]|[_ Hl]]; [done|by eapply H3].
Qed.

Hint Resolve safe_fail_call safe_fail_peer : app.

Lemma in_conference_cur s id p : in_conference s id p = true -> cur s = Some id.
Proof.
  unfold in_conference. destruct (client_id s); [|done].
  destruct (current_call_of s id) eqn:Hc; [|done]. intros _. by apply current_call_of_cur.
Qed.

(** The link of a call is retried. *)
Lemma fail_link_ok id p w :
  cur (app w) = Some id -> app_ok w -> app_ok (fail_link env id p w).2.
Proof.
  intros Hc Hw. unfold fail_link. unfold mbind at 1, app_bind at 1. cbn [read].
  destruct (negb (is_young env (app w) id p)); [|done]. cbn [when].
  apply (at_bind (remove_link_peer_quiet id p) _ w (λ r, app_ok r.2)); [auto with app|done|].
  intros _ w1 Hw1 Hc1. apply (at_bind (emit _) _ w1 (λ r, app_ok r.2)); [auto with app|done|].
  intros _ w2 Hw2 Hc2. unfold mbind, app_bind. cbn [read].
  destruct (negb (has_link_limbo (app w2) id p)); [|done]. cbn [when].
  apply start_link_retry_ok; [congruence|done].
Qed.

Lemma safe_handle_conference_peer_failure id p reason :
  safe (handle_conference_peer_failure env id p reason).
Proof.
  intros w Hw. unfold handle_conference_peer_failure. unfold mbind at 1 2, app_bind at 1 2. cbn [read].
  destruct (is_link_failure (app w) id p reason) eqn:Hl.
  - apply andb_true_iff in Hl as [Hl%in_conference_cur _].
    unfold mbind, app_bind. assert (H := fail_link_ok id p w Hl Hw). by destruct (fail_link env id p w).
  - destruct (in_conference (app w) id p); [|done].
    revert w Hw Hl. intros w Hw _. assert (safe (fail_call env id reason ;; mret true)) as H by app_steps.
    by apply H.
Qed.

Hint Resolve safe_handle_conference_peer_failure : app.

Lemma safe_handle_peer_failure id p reason : safe (handle_peer_failure env id p reason).
Proof. unfold handle_peer_failure. app_steps. Qed.

Hint Resolve safe_handle_peer_failure : app.

(** A new connection: its peer is there, and the timer of the call is off. *)
Lemma new_peer_ok w id p peer :
  cur (app w) = Some id -> peer_task peer = next_task (app w) -> app_ok w ->
  let s := change_peers id (<[p := peer]>) (with_next_task (app w) (next_task (app w) + 1)) in
  app_ok (mkWorld (with_establishment s None) (effects w)) /\ cur s = cur (app w).
Proof.
  intros Hcur Ht [H1 H2 H3 H4 H5 H6 H7 H8]. cbv zeta.
  apply current_call_of_cur in Hcur as [c Hc]. unfold change_peers, change_current.
  change (current_call_of (with_next_task (app w) (next_task (app w) + 1)) id) with
    (current_call_of (app w) id). rewrite Hc.
  apply current_call_of_Some in Hc as [Hc Hcid]. set (c' := Call.with_webrtc _ _).
  assert (Hcid' : call_id c' = call_id c) by done.
  assert (Hpeers : peers (webrtc c') = <[p := peer]> (peers (webrtc c))) by done. clearbody c'.
  assert (Hcur : forall x,
    cur (with_current (with_next_task (app w) (next_task (app w) + 1)) (Some c')) = x <->
    cur (app w) = x).
  { intros x. unfold cur. cbn. by rewrite Hc, Hcid'. }
  split; [|by apply Hcur].
  split; cbn; try done; try by eexists.
  - intros t i Hi. apply Hcur. by eapply H1.
  - intros q l Hl. apply Hcur. by eapply H3.
  - intros c'' q x [= <-]. rewrite Hpeers, lookup_insert_Some.
    intros [[_ <-]|[_ Hx]]; [lia|]. specialize (H5 _ _ _ Hc Hx). lia.
Qed.

Lemma keeps_negotiate_peer id p offer : keeps (negotiate_peer env id p offer).
Proof.
  intros w Hw. unfold negotiate_peer. rewrite read_bind.
  destruct (current_call (app w)) as [c|] eqn:Hc; [|by split].
  case_bool_decide as Hid; cbn [negb]; [|by split].
  assert (Hcur : cur (app w) = Some id) by (unfold cur; rewrite Hc; cbn; by f_equal).
  set (relay := _ || _). destruct (peers (webrtc c) !! p) as [old|].
  - rewrite bool_decide_true by by eexists. cbn [when].
    destruct (with_context _) as [sdp|err]; [|split; [by apply app_ok_effect|done]].
    set (peer := if has_link_limbo _ _ _ && _ then _ else _).
    assert (Ht : peer_task peer = next_task (app w))
      by (subst peer; by destruct (has_link_limbo (app w) id p)).
    destruct (new_peer_ok w id p peer Hcur Ht Hw) as [Hok Hc'].
    destruct (audio_source_id old); cbn [detach_output]; app_run; (split; [|exact Hc']);
      repeat apply (app_ok_effect R (mkWorld _ _)); done.
  - rewrite bool_decide_false by by intros []. cbn [when].
    destruct (with_context _) as [sdp|err]; [|by split].
    set (peer := if has_link_limbo _ _ _ && _ then _ else _).
    assert (Ht : peer_task peer = next_task (app w))
      by (subst peer; by destruct (has_link_limbo (app w) id p)).
    destruct (new_peer_ok w id p peer Hcur Ht Hw) as [Hok Hc']. by split.
Qed.

Hint Resolve keeps_negotiate_peer : app.

Lemma keeps_send_offer id p own sdp : keeps (send_offer env id p own sdp).
Proof. apply keeps_send. Qed.

Lemma keeps_try_relay_reconnect id p : keeps (try_relay_reconnect env id p).
Proof. unfold try_relay_reconnect. app_steps. Qed.

Hint Resolve keeps_send_offer keeps_try_relay_reconnect : app.

Lemma keeps_accept_call_answer id p sdp : keeps (accept_call_answer env id p sdp).
Proof.
  intros w Hw. unfold accept_call_answer. rewrite read_bind.
  destruct (webrtc_peer (app w) id p) as [peer|] eqn:Hp; [|by split].
  unfold mbind, app_bind.
  destruct (update_peer_ok w id p peer (WebrtcPeer.set_supports peer (has_reconnect_capability sdp)) Hp)
    as [Hok Hc]; [exact (peer_task_ok w id p peer Hp Hw)|done|]. by split.
Qed.

(** The flag of the keybind engine is set in a call. *)
Lemma set_active_ok w : is_Some (current_call (app w)) -> app_ok w ->
  app_ok (mkWorld (app w) (effects w ++ [SetCallActive true])).
Proof.
  intros Hc [H1 H2 H3 H4 H5 H6 H7 H8].
  split; cbn [app effects]; rewrite ?told_active_snoc, ?sounding_snoc; done.
Qed.

Lemma webrtc_peer_change_current s id (f : Call -> Call) p :
  (forall c, call_id (f c) = call_id c) -> (forall c, peers (webrtc (f c)) = peers (webrtc c)) ->
  webrtc_peer (change_current id f s) id p = webrtc_peer s id p.
Proof.
  intros Hid Hp. unfold webrtc_peer, change_current.
  destruct (current_call_of s id) as [c|] eqn:Hc; [|by rewrite Hc].
  apply current_call_of_Some in Hc as [Hc Hcid]. unfold current_call_of. cbn.
  rewrite Hid, bool_decide_true by done. cbn. by rewrite Hp.
Qed.

Definition ok_in (c : option CallId) (w : World) : Prop := app_ok w /\ cur (app w) = c.

Lemma keeps_in {A} (m : App A) c w : keeps m -> ok_in c w -> ok_in c (m w).2.
Proof. intros Hm [Hw <-]. by apply Hm. Qed.

Lemma ok_in_effect e c w : effect_neutral e -> ok_in c w ->
  ok_in c (mkWorld (app w) (effects w ++ [e])).
Proof. intros He [Hw Hc]. split; [by apply app_ok_effect|done]. Qed.

(** The connection is started, or taken back. *)
Lemma start_peer_ok id p peer source w c :
  webrtc_peer (app w) id p = Some peer -> ok_in c w ->
  ok_in c ((match start_peer env with
    | Err err => perform (DetachOutput source) ;; perform DetachInput ;; mret (Err err)
    | Ok _ =>
      modify (change_peers id (<[p := WebrtcPeer.set_link peer (Some source) true true]>)) ;;
      modify (cancel_link_retry id p) ;;
      emit (EvWebrtc CallConnected id p) ;;
      mret (Ok () : Result () ClientError)
    end) w).2.
Proof.
  intros Hp Hw. destruct (start_peer env) as [u|err]; [|by apply keeps_in; [app_steps|]].
  destruct Hw as [Hw Hc].
  destruct (update_peer_ok w id p peer (WebrtcPeer.set_link peer (Some source) true true) Hp
    (peer_task_ok w id p peer Hp Hw) Hw) as [Hok Hc'].
  rewrite modify_bind. apply keeps_in; [app_steps|]. split; [exact Hok|]. by rewrite <- Hc.
Qed.

Lemma keeps_on_peer_connected id p : keeps (on_peer_connected env id p).
Proof.
  intros w Hw. unfold on_peer_connected. rewrite read_bind.
  destruct (webrtc_peer (app w) id p) as [peer|] eqn:Hp; [|by split].
  rewrite read_bind.
  set (sound := if reconnected peer then None else peer_joined_sound env (app w) id p).
  assert (Hsound : keeps (restart sound)) by apply keeps_restart_joined. clearbody sound.
  rewrite perform_bind. set (w1 := mkWorld (app w) (effects w ++ [SetCallActive true])).
  assert (Hw1 : ok_in (cur (app w)) w1).
  { split; [|done]. apply set_active_ok; [|done]. pose proof (webrtc_peer_cur _ _ _ _ Hp) as Hc.
    unfold cur in Hc. by destruct (current_call (app w)). }
  change (webrtc_peer (app w1) id p = Some peer) in Hp.
  clearbody w1. set (c := cur (app w)) in *. clearbody c.
  match goal with |- app_ok (?r).2 /\ _ => change (ok_in c r.2) end.
  destruct (attach_output env) as [source|err]; [|done].
  rewrite perform_bind. set (w2 := mkWorld (app w1) (effects w1 ++ [AttachOutput source])).
  assert (Hw2 : ok_in c w2) by by apply ok_in_effect.
  change (webrtc_peer (app w2) id p = Some peer) in Hp. clearbody w2.
  destruct (attach_input env) as [u|err]; [|by apply keeps_in; [app_steps|]].
  rewrite perform_bind. set (w3 := mkWorld (app w2) (effects w2 ++ [AttachInput])).
  assert (Hw3 : ok_in c w3) by by apply ok_in_effect.
  change (webrtc_peer (app w3) id p = Some peer) in Hp. clearbody w3.
  assert (Happ : app (restart sound w3).2 = app w3) by by destruct sound.
  apply (keeps_in (restart sound) c w3 Hsound) in Hw3. rewrite <- Happ in Hp.
  unfold mbind at 1, app_bind at 1. destruct (restart sound w3) as [? w4]. cbn [snd] in *.
  case_bool_decide; cbn [when]; app_run;
    refine (start_peer_ok id p peer source _ c _ _); try done; cbn [app].
  - by rewrite webrtc_peer_change_current.
  - by apply (keeps_in (modify _)); [apply keeps_change_current|].
Qed.

Hint Resolve keeps_accept_call_answer keeps_on_peer_connected : app.
End logic.
