(* ===== verification/AppRuns.v ===== *)
(** AppRuns: every step of the desktop client keeps its state in order. *)
From stdpp Require Import prelude gmap strings list.
From Stdlib Require Import NArith.
From S2P Require Import Prelude Protocol Calls SignalingErrors AppState AppEvents AppLogic.

Abbreviation app_ok := (state_ok True).

Section runs.
Context {HO : HashOrder} {SD : SessionDescriptions} (env : Env).

#[local] Hint Resolve keeps_send keeps_try_send keeps_try_send_call_error keeps_emit_call_error
  keeps_detach_output keeps_cancel_timers keeps_no_timers keeps_cancel_link_retry
  keeps_remove_invited keeps_delete_peer keeps_take_peer keeps_restart_left keeps_restart_joined
  keeps_cleanup_call_peer keeps_remove_link_peer_quiet safe_cleanup_current_call
  safe_end_call_if_no_peers safe_fail_call safe_fail_peer safe_handle_conference_peer_failure
  safe_handle_peer_failure keeps_negotiate_peer keeps_send_offer keeps_try_relay_reconnect
  keeps_accept_call_answer keeps_on_peer_connected : app.

(** ** Changes of the state *)

Section changes.
Context (R : Prop).

(** The parts of the state no call depends on *)
Lemma keeps_modify_session (f : AppStateInner -> AppStateInner) :
  (forall s, unanswered_call_guards (f s) = unanswered_call_guards s /\
    establishment_guard (f s) = establishment_guard s /\
    link_limbo_guards (f s) = link_limbo_guards s /\ current_call (f s) = current_call s /\
    incoming_calls (f s) = incoming_calls s /\ next_task (f s) = next_task s) ->
  keeps R (modify f).
Proof.
  intros Hf w [H1 H2 H3 H4 H5 H6 H7 H8]. destruct (Hf (app w)) as (E1 & E2 & E3 & E4 & E5 & E6).
  unfold modify, cur. cbn. rewrite E4. split; [|done].
  split; unfold cur, no_peers, current_call_of; cbn; rewrite ?E1, ?E2, ?E3, ?E4, ?E5, ?E6; done.
Qed.

Lemma keeps_no_watch : keeps R (modify (λ s, with_establishment s None)).
Proof. intros w [H1 H2 H3 H4 H5 H6 H7 H8]. by split; [split|]. Qed.

Lemma keeps_drop_timer t :
  keeps R (modify (λ s, with_guards s (delete t (unanswered_call_guards s)))).
Proof.
  apply keeps_modify_guards. intros s. eexists. split; [|done].
  intros t' id. by rewrite lookup_delete_Some => - [_ ?].
Qed.

(** The timer of a call that has no connection *)
Lemma start_watch_ok w id :
  no_peers (app w) id = true -> state_ok R w ->
  state_ok R (mkWorld (start_call_establishment_timer id (app w)) (effects w)).
Proof.
  intros Hn [H1 H2 H3 H4 H5 H6 H7 H8]. unfold start_call_establishment_timer.
  destruct (has_pending_link_retries (app w) id || _); [by split|]. split; cbn; try done. intros id' [= <-].
  split; [by apply no_peers_cur|exact Hn].
Qed.

(** An incoming call goes, and the ringing with the last one. *)
Lemma without_incoming_ok w m :
  m ⊆ incoming_calls (app w) -> state_ok R w ->
  state_ok False (mkWorld (with_incoming (app w) m) (effects w)).
Proof.
  intros Hm [H1 H2 H3 H4 H5 H6 H7 H8]. split; cbn; try done.
  intros id c Hc. apply H4. by eapply lookup_weaken.
Qed.
End changes.

Lemma stop_ringing_ok w :
  state_ok False w -> app_ok (stop_ringing_if_no_incoming_calls w).2.
Proof.
  intros [H1 H2 H3 H4 H5 H6 H7 H8]. unfold stop_ringing_if_no_incoming_calls. rewrite read_bind.
  case_bool_decide as Hempty; cbn [when]; [|by split].
  rewrite perform_bind. unfold perform. cbn [app effects snd].
  split; cbn [app effects]; rewrite ?told_active_snoc, ?sounding_snoc; done.
Qed.

Lemma keeps_core R w : state_ok R w -> state_ok False w.
Proof. intros [H1 H2 H3 H4 H5 H6 H7 H8]. by split. Qed.

Lemma safe_remove_incoming_call id : safe True (remove_incoming_call id).
Proof.
  intros w Hw. unfold remove_incoming_call. rewrite read_bind, modify_bind.
  assert (H := stop_ringing_ok (mkWorld (with_incoming (app w) (delete id (incoming_calls (app w))))
    (effects w)) (without_incoming_ok True w _ (delete_subseteq _ _) Hw)).
  unfold mbind, app_bind. by destruct (stop_ringing_if_no_incoming_calls _).
Qed.

Hint Resolve safe_remove_incoming_call : app.

(** ** Commands *)

Lemma keeps_clear_cache R : keeps R (modify clear_session_cache).
Proof. by apply keeps_modify_session. Qed.

Lemma safe_cleanup_signaling : safe True cleanup_signaling.
Proof.
  intros w Hw. unfold cleanup_signaling. rewrite modify_bind.
  set (w1 := mkWorld (clear_session_cache _) _).
  assert (Hw1 : state_ok False w1).
  { apply (keeps_clear_cache False (mkWorld (with_incoming (app w) ∅) (effects w))).
    by apply (without_incoming_ok True); [apply map_empty_subseteq|]. }
  assert (Hin : incoming_calls (app w1) = ∅) by done. clearbody w1. clear Hw w.
  rewrite read_bind.
  set (m := match call_id <$> current_call (app w1) with Some id => _ | None => _ end).
  assert (Hm : state_ok False (m w1).2 /\ incoming_calls (app (m w1).2) = ∅ /\
    current_call (app (m w1).2) = None).
  { subst m. destruct (current_call (app w1)) as [c|] eqn:Hc; cbn.
    - assert (Hcur : cur (app w1) = Some (call_id c)) by (unfold cur; by rewrite Hc).
      destruct (cleanup_current_call_spec False (call_id c) w1 Hw1 Hcur) as (_ & Happ & Hok).
      unfold mbind, app_bind. destruct (cleanup_current_call _ _) as [? w2]. cbn in *.
      rewrite Happ. by split.
    - by rewrite Hc. }
  unfold mbind at 1, app_bind at 1. destruct (m w1) as [? w2]. cbn [snd] in Hm.
  destruct Hm as ([H1 H2 H3 H4 H5 H6 H7 H8] & Hin' & Hcur). clear m.
  app_run. unfold perform. cbn [snd].
  split; cbn [app effects]; rewrite ?told_active_snoc, ?sounding_snoc; try done;
    rewrite ?Hcur; done.
Qed.

Hint Resolve safe_cleanup_signaling : app.

Lemma safe_disconnect_signaling : safe True disconnect_signaling.
Proof. unfold disconnect_signaling. app_steps. Qed.

Lemma safe_connection_closed : safe True handle_signaling_connection_closed.
Proof. unfold handle_signaling_connection_closed. app_steps. Qed.

Lemma safe_end_call id : safe True (end_call env id).
Proof. unfold end_call. app_steps. Qed.

Hint Resolve safe_disconnect_signaling safe_connection_closed safe_end_call : app.

(** A call starts where there was none. *)
Lemma new_current_ok R w c :
  current_call (app w) = None -> peers (webrtc c) = ∅ -> state_ok R w ->
  state_ok R (mkWorld (with_current (app w) (Some c)) (effects w)).
Proof.
  intros Hc Hp [H1 H2 H3 H4 H5 H6 H7 H8].
  assert (Hcur : cur (app w) = None) by (unfold cur; by rewrite Hc).
  split; cbn; try done; try by eexists.
  - intros t id Hid. by rewrite (H1 _ _ Hid) in Hcur.
  - intros id Hid. destruct (H2 _ Hid) as [Hx _]. by rewrite Hx in Hcur.
  - intros p l Hl. by rewrite (H3 _ _ Hl) in Hcur.
  - intros c' p peer [= <-]. by rewrite Hp.
Qed.

Lemma accept_incoming_ok id own w :
  current_call (app w) = None -> app_ok w -> app_ok (accept_incoming env id own w).2.
Proof.
  intros Hc Hw. unfold accept_incoming. rewrite read_bind.
  destruct (incoming_calls (app w) !! id) as [call|] eqn:Hcall; [|done].
  rewrite modify_bind. set (w1 := mkWorld (with_incoming (app w) _) (effects w)).
  assert (Hw1 : state_ok False w1)
    by (apply (without_incoming_ok True); [apply delete_subseteq|done]).
  assert (Hc1 : current_call (app w1) = None) by done.
  destruct (ao_incoming True w Hw id call Hcall) as [Hid Hpeers].
  unfold mbind at 1, app_bind at 1, send_signaling_message.
  destruct (send_ok env (effects w1) _).
  - set (w2 := mkWorld (app w1) _).
    assert (Hw2 : state_ok False w2) by by apply app_ok_effect. change (current_call (app w2) = None) in Hc1.
    clearbody w2. clear Hw1 w1. rewrite modify_bind.
    set (w3 := mkWorld _ (effects w2)).
    assert (Hw3 : state_ok False w3).
    { apply (start_watch_ok False (mkWorld (with_current (app w2) (Some call)) (effects w2)));
        [|by apply new_current_ok].
      unfold no_peers, current_call_of. cbn. rewrite bool_decide_true by done.
      unfold WebrtcCall.is_empty. by rewrite bool_decide_true. }
    clearbody w3. apply stop_ringing_ok in Hw3. unfold mbind at 1, app_bind at 1.
    destruct (stop_ringing_if_no_incoming_calls w3) as [? w4]. rewrite emit_bind.
    by apply app_ok_effect.
  - rewrite modify_bind. cbn.
    rewrite insert_delete_id by done.
    replace (with_incoming _ _) with (app w) by by destruct w as [[] ?].
    by apply app_ok_effect.
Qed.

Lemma end_call_ends w c :
  current_call (app w) = Some c -> app_ok w ->
  match end_call env (call_id c) w with
  | (Ok _, w') => app_ok w' /\ current_call (app w') = None
  | (Err _, w') => app_ok w'
  end.
Proof.
  intros Hc Hw. unfold end_call. rewrite read_bind. destruct (client_id (app w)) as [own|]; [|done].
  unfold mbind at 1, app_bind at 1, send_signaling_message.
  destruct (send_ok env (effects w) _); [|by apply app_ok_effect].
  set (w1 := mkWorld (app w) _). assert (Hw1 : app_ok w1) by by apply app_ok_effect.
  assert (Hcur : cur (app w1) = Some (call_id c)) by (unfold cur; cbn; by rewrite Hc).
  destruct (cleanup_current_call_spec True _ w1 Hw1 Hcur) as (_ & Happ & Hok).
  unfold mbind at 1, app_bind at 1. destruct (cleanup_current_call _ w1) as [found w2].
  cbn [snd] in Happ, Hok. rewrite emit_bind. cbn. split; [by apply app_ok_effect|by rewrite Happ].
Qed.

Lemma safe_accept_call id end_active : safe True (accept_call env id end_active).
Proof.
  intros w Hw. unfold accept_call. rewrite read_bind.
  destruct (client_id (app w)) as [own|]; [|done].
  destruct (match id with Some id => Some id | None => _ end) as [i|]; [|done].
  destruct (negb _); [done|].
  destruct (current_call (app w)) as [c|] eqn:Hc; [|by apply accept_incoming_ok].
  destruct (_ || _); [done|].
  pose proof (end_call_ends w c Hc Hw) as Hend. unfold mbind at 1, app_bind at 1.
  destruct (end_call env (call_id c) w) as [[found|err] w1]; [|done].
  destruct Hend. by apply accept_incoming_ok.
Qed.

Lemma start_timers_ok w id targets :
  cur (app w) = Some id -> app_ok w ->
  app_ok (mkWorld (start_unanswered_call_timer_for_targets id targets (app w)) (effects w)).
Proof.
  intros Hc Hw. apply (keeps_cancel_timers True targets) in Hw as [Hw Hc'].
  revert Hw. unfold start_unanswered_call_timer_for_targets, modify. cbn.
  destruct (auto_hangup_seconds _ =? 0)%N; [done|].
  intros [H1 H2 H3 H4 H5 H6 H7 H8]. split; cbn; try done.
  intros t i. rewrite lookup_union_Some_raw. intros [Ht|[_ Ht]]; [|by eapply H1].
  apply lookup_gset_to_gmap_Some in Ht as [_ <-]. exact Hc.
Qed.

Lemma ringback_ok w : is_Some (current_call (app w)) -> app_ok w ->
  app_ok (mkWorld (app w) (effects w ++ [RestartSound Ringback])).
Proof.
  intros Hc [H1 H2 H3 H4 H5 H6 H7 H8].
  split; cbn [app effects]; rewrite ?told_active_snoc, ?sounding_snoc; done.
Qed.

Lemma safe_invite_to_call source targets prio : safe True (invite_to_call env source targets prio).
Proof.
  intros w Hw. unfold invite_to_call. rewrite read_bind.
  set (cid := match current_call (app w) with Some c => call_id c | None => fresh_call_id env end).
  unfold mbind at 1, app_bind at 1, send_signaling_message.
  destruct (send_ok env (effects w) _); [|by apply app_ok_effect].
  set (w1 := mkWorld (app w) _). assert (Hw1 : app_ok w1) by by apply app_ok_effect.
  assert (Hcid : cid = match current_call (app w1) with Some c => call_id c | None => fresh_call_id env end)
    by done.
  change (current_call (app w)) with (current_call (app w1)). clearbody cid w1.
  rewrite modify_bind. set (c' := match current_call (app w1) with Some c => _ | None => Call.from_invite _ end).
  set (w2 := mkWorld (with_current (app w1) (Some c')) (effects w1)).
  assert (Hw2 : app_ok w2 /\ cur (app w2) = Some cid).
  { subst w2 c' cid. destruct (current_call (app w1)) as [c|] eqn:Hc.
    - destruct (with_current_ok True w1 c (Call.add_invited_targets c targets) Hc) as [Hok Hc'];
        [done|done| |done|].
      + intros p peer. exact (ao_tasks True w1 Hw1 c p peer Hc).
      + split; [done|]. transitivity (cur (app w1)); [exact Hc'|]. unfold cur. by rewrite Hc.
    - split; [|done]. by apply new_current_ok. }
  clearbody w2. destruct Hw2 as [Hw2 Hcur2]. rewrite emit_bind, modify_bind, perform_bind. cbn [app effects snd mret app_ret].
  apply (ringback_ok (mkWorld (start_unanswered_call_timer_for_targets cid targets (app w2))
    (effects w2 ++ [Emit _]))); cbn [app].
  - unfold cur in Hcur2. unfold start_unanswered_call_timer_for_targets.
    destruct (auto_hangup_seconds _ =? 0)%N; cbn; by destruct (current_call (app w2)).
  - apply (start_timers_ok (mkWorld (app w2) (effects w2 ++ [Emit _]))); [done|]. by apply app_ok_effect.
Qed.

Lemma safe_drop_target id target : safe True (drop_target env id target).
Proof.
  assert (Hm : keeps True (modify (λ s, change_current id (λ c, Call.remove_invited_targets c {[target]})
    (cancel_unanswered_call_timers_for_targets {[target]} s)))).
  { intros w Hw. destruct (keeps_cancel_timers True {[target]} w Hw) as [H1 H2].
    destruct (keeps_remove_invited True id {[target]} _ H1) as [H3 H4]. split; [done|]. by rewrite <- H2. }
  unfold drop_target, stop_ringback_if_no_invited_targets. app_steps.
Qed.

(** ** Timers *)

Lemma safe_unanswered target : safe True (unanswered_call_timer_expired env target).
Proof. unfold unanswered_call_timer_expired. app_steps. apply keeps_safe, keeps_drop_timer. Qed.

Lemma safe_establishment : safe True (call_establishment_timer_expired env).
Proof. unfold call_establishment_timer_expired. app_steps. apply keeps_safe, keeps_no_watch. Qed.

(** ** Messages *)

(** An incoming call comes or changes. *)
Lemma with_incoming_ok w i c :
  call_id c = i -> peers (webrtc c) = ∅ -> app_ok w ->
  app_ok (mkWorld (with_incoming (app w) (<[i := c]> (incoming_calls (app w)))) (effects w)).
Proof.
  intros Hid Hp [H1 H2 H3 H4 H5 H6 H7 H8]. split; cbn; try done.
  - intros i' c'. rewrite lookup_insert_Some. intros [[<- <-]|[_ Hc]]; [done|by apply H4].
  - intros _ _. apply insert_non_empty.
Qed.

Lemma ring_ok w x : (x = Ring \/ x = PriorityRing) -> incoming_calls (app w) <> ∅ -> app_ok w ->
  app_ok (mkWorld (app w) (effects w ++ [RestartSound x])).
Proof.
  intros Hx Hin [H1 H2 H3 H4 H5 H6 H7 H8].
  split; cbn [app effects]; rewrite ?told_active_snoc, ?sounding_snoc; try done.
  by destruct Hx as [->| ->].
Qed.

Lemma safe_call_invitation msg : safe True (handle_call_invitation env msg).
Proof.
  intros w Hw. unfold handle_call_invitation. rewrite read_bind.
  case_bool_decide; [done|]. destruct (client_id (app w)) as [own|]; [|done].
  rewrite emit_bind. set (w1 := mkWorld _ _). assert (Hw1 : app_ok w1) by by apply app_ok_effect.
  clearbody w1. destruct (_ <=? _); [by apply keeps_try_send|].
  rewrite modify_bind, emit_bind. unfold perform. cbn [snd app effects].
  match goal with |- state_ok _ (mkWorld ?s (?l ++ [_])) => apply (ring_ok (mkWorld s l)) end.
  - destruct (_ && _); auto.
  - cbn [app]. apply insert_non_empty.
  - match goal with |- state_ok _ (mkWorld ?s (?l ++ [?e])) =>
      apply (app_ok_effect True (mkWorld s l) e) end; [done|]. by apply with_incoming_ok.
Qed.

Lemma safe_offer_to_joined i own l : safe True (offer_to_joined env i own l).
Proof.
  induction l as [|[p target] l IH]; [by apply keeps_safe, keeps_mret|]. cbn [offer_to_joined].
  destruct (client_leb p own); [done|]. app_steps.
Qed.

Hint Resolve safe_offer_to_joined : app.

Lemma keeps_departed i (l : list ClientId) :
  keeps True (for_all l (λ p, modify (cancel_link_retry i p) ;; cleanup_call_peer i p ;; mret ())).
Proof. apply keeps_for_all. intros p _. app_steps. Qed.

Lemma keeps_watch_if (b : AppStateInner -> bool) i :
  (forall s, b s = true -> no_peers s i = true) ->
  keeps True (modify (λ s, if b s then start_call_establishment_timer i s else s)).
Proof.
  intros Hb w Hw. unfold modify. cbn. destruct (b (app w)) eqn:He; [|by destruct w].
  split; [by apply start_watch_ok; [apply Hb|]|].
  unfold start_call_establishment_timer. by destruct (_ || _).
Qed.

Lemma safe_follow_call_update msg own joined departed is_active :
  safe True (follow_call_update env msg own joined departed is_active).
Proof.
  unfold follow_call_update. app_step.
  { case_bool_decide; app_steps. }
  app_step; [apply keeps_safe, keeps_departed|]. app_step; [app_steps|]. app_step; [app_steps|].
  app_step; [app_steps|]. app_step; [|app_steps].
  apply keeps_safe. apply keeps_watch_if. intros s'. by rewrite !andb_true_iff => - [_ ?].
Qed.

Lemma update_fields c own invited joined leader :
  let '(_, _, c') := Call.update c own invited joined leader in
  call_id c' = call_id c /\ webrtc c' = webrtc c.
Proof. unfold Call.update. by repeat case_match; simplify_eq. Qed.

Lemma safe_call_update msg : safe True (handle_call_update env msg).
Proof.
  intros w Hw. unfold handle_call_update. rewrite read_bind.
  destruct (client_id (app w)) as [own|]; [|done].
  destruct (incoming_calls (app w) !! cu_call_id msg) as [c|] eqn:Hin.
  - pose proof (update_fields c own (cu_invited_targets msg) (cu_joined_participants msg)
      (cu_conference_leader msg)) as Hc. destruct (Call.update _ _ _ _ _) as [[? ?] c'].
    destruct Hc as [Hid Hp]. destruct (ao_incoming True w Hw _ _ Hin) as [Hid' Hp'].
    rewrite modify_bind. apply app_ok_effect; [done|].
    apply with_incoming_ok; [congruence|by rewrite Hp|done].
  - destruct (current_call_of (app w) (cu_call_id msg)) as [c|] eqn:Hcur; [|done].
    pose proof (update_fields c own (cu_invited_targets msg) (cu_joined_participants msg)
      (cu_conference_leader msg)) as Hc. destruct (Call.update _ _ _ _ _) as [[joined departed] c'].
    destruct Hc as [Hid Hp]. apply current_call_of_Some in Hcur as [Hcur _].
    rewrite modify_bind. set (w1 := mkWorld _ _).
    assert (Hw1 : app_ok w1).
    { apply (with_current_ok True w c c'); rewrite ?Hp; try done.
      intros p peer. exact (ao_tasks True w Hw c p peer Hcur). }
    destruct (_ || _); [|by apply safe_follow_call_update].
    assert (H : safe True (cleanup_current_call (cu_call_id msg) ;; emit (EvForceCallEnd (cu_call_id msg))))
      by app_steps. by apply H.
Qed.

Lemma safe_webrtc_offer msg : safe True (handle_webrtc_offer env msg).
Proof. unfold handle_webrtc_offer. app_steps. Qed.

Lemma safe_webrtc_answer msg : safe True (handle_webrtc_answer env msg).
Proof. unfold handle_webrtc_answer. app_steps. Qed.

Lemma safe_call_end msg : safe True (handle_call_end msg).
Proof. unfold handle_call_end. app_steps. Qed.

Lemma keeps_stop_ringback i : keeps True (stop_ringback_if_no_invited_targets i).
Proof. unfold stop_ringback_if_no_invited_targets. app_steps. Qed.

Lemma keeps_drop_invited i targets : keeps True (drop_invited i targets).
Proof. unfold drop_invited. app_steps. Qed.

Lemma keeps_cancel targets : keeps True (cancel_timers targets).
Proof. apply keeps_cancel_timers. Qed.

Hint Resolve keeps_stop_ringback keeps_drop_invited keeps_cancel : app.

Lemma safe_lose_targets i targets event : safe True (lose_targets i targets event).
Proof. unfold lose_targets. app_steps. Qed.

Hint Resolve safe_lose_targets : app.

Lemma safe_call_error msg : safe True (handle_call_error msg).
Proof. unfold handle_call_error. destruct (cerr_reason msg); app_steps. Qed.

Lemma safe_call_cancelled msg : safe True (handle_call_cancelled msg).
Proof. unfold handle_call_cancelled. destruct (cc_reason msg); app_steps. Qed.

Lemma safe_error msg : safe True (handle_error msg).
Proof. unfold handle_error, handle_rate_limited. app_steps. Qed.

Hint Resolve safe_call_invitation safe_call_update safe_webrtc_offer safe_webrtc_answer
  safe_call_end safe_call_error safe_call_cancelled safe_error : app.

Lemma safe_message msg : safe True (handle_signaling_message env msg).
Proof.
  destruct msg; cbn [handle_signaling_message]; app_steps; by apply keeps_safe, keeps_modify_session.
Qed.

(** ** The connection, the links and their events *)

Lemma safe_runtime_error error : safe True (handle_runtime_error error).
Proof.
  unfold handle_runtime_error. app_steps; by apply keeps_safe, keeps_modify_session.
Qed.

Lemma peer_joined_cur s i p : peer_joined s i p = true -> cur s = Some i.
Proof.
  unfold peer_joined. destruct (current_call_of s i) eqn:Hc; [|done]. intros _.
  by apply current_call_of_cur.
Qed.

Lemma keeps_attempt_link_retry i p own : keeps True (attempt_link_retry env i p own).
Proof. unfold attempt_link_retry. app_steps. Qed.

Lemma safe_retry_attempt p own : safe True (link_retry_attempt env p own).
Proof.
  intros w Hw. unfold link_retry_attempt. rewrite read_bind.
  destruct (link_limbo_guards (app w) !! p) as [[i reported []]|] eqn:Hl; [done| |done].
  pose proof (ao_limbo True w Hw _ _ Hl) as Hc. cbn in Hc.
  destruct (keeps_attempt_link_retry i p own w Hw) as [Hok Hcur].
  unfold mbind, app_bind. destruct (attempt_link_retry env i p own w) as [u w1]. cbn in Hok, Hcur.
  apply set_limbo_ok; [cbn; congruence|done].
Qed.

Lemma safe_retry_wake p own : safe True (link_retry_wake env p own).
Proof.
  intros w Hw. unfold link_retry_wake. rewrite read_bind.
  destruct (link_limbo_guards (app w) !! p) as [[i reported []]|] eqn:Hl; [|done..].
  pose proof (ao_limbo True w Hw _ _ Hl) as Hc. cbn in Hc.
  destruct (_ || _); [by apply keeps_cancel_link_retry|].
  set (young := is_young env (app w) i p). clearbody young.
  assert (Hq : keeps True (when (negb young) (remove_link_peer_quiet i p))) by app_steps.
  destruct (Hq w Hw) as [Hok Hcur]. unfold mbind at 1, app_bind at 1.
  destruct (when _ _ w) as [u w1]. cbn in Hok, Hcur. rewrite read_bind.
  destruct (negb young && no_peers (app w1) i).
  { assert (H : safe True (modify (cancel_link_retry i p) ;; fail_call env i (WebrtcFailure own)))
      by app_steps. by apply H. }
  assert (Hs : keeps True (when (reported || negb young) (try_send_call_error env i (PeerConnectionFailed p))))
    by app_steps.
  destruct (Hs w1 Hok) as [Hok2 Hcur2]. unfold mbind at 1, app_bind at 1.
  destruct (when _ _ w1) as [u2 w2]. cbn in Hok2, Hcur2.
  destruct (negb young); [|done]. cbn [when]. apply set_limbo_ok; [|done].
  rewrite Hcur2, Hcur, Hc. by destruct reported.
Qed.

Lemma peer_disconnected_ok i p peer w :
  webrtc_peer (app w) i p = Some peer -> app_ok w -> app_ok (peer_disconnected i p peer w).2.
Proof.
  intros Hp Hw. unfold peer_disconnected. rewrite modify_bind.
  destruct (update_peer_ok True w i p peer (WebrtcPeer.set_link peer None false false) Hp
    (peer_task_ok True w i p peer Hp Hw) Hw) as [Hok _].
  match goal with |- state_ok _ (?m ?x).2 => assert (H : keeps True m) by app_steps end.
  by apply H.
Qed.

Lemma peer_failed_ok i p own peer w :
  webrtc_peer (app w) i p = Some peer -> app_ok w -> app_ok (peer_failed env i p own peer w).2.
Proof.
  intros Hp Hw. unfold peer_failed. rewrite modify_bind.
  destruct (update_peer_ok True w i p peer
    (WebrtcPeer.set_link peer (audio_source_id peer) (connected peer) false) Hp
    (peer_task_ok True w i p peer Hp Hw) Hw) as [Hok Hcur].
  set (w1 := mkWorld _ _). change (app_ok w1) in Hok. change (cur (app w1) = cur (app w)) in Hcur.
  rewrite (webrtc_peer_cur _ _ _ _ Hp) in Hcur. clearbody w1. rewrite read_bind.
  destruct (in_conference (app w1) i p); [|by apply safe_fail_peer].
  rewrite emit_bind, read_bind. cbn [app]. destruct (has_link_limbo (app w1) i p).
  - match goal with |- state_ok _ (?m ?x).2 => assert (H : keeps True m) by app_steps end.
    apply H. by apply app_ok_effect.
  - apply start_link_retry_ok; [done|]. by apply app_ok_effect.
Qed.

Lemma safe_without_media i p own : safe True (peer_without_media env i p own).
Proof. unfold peer_without_media. app_steps. Qed.

Lemma safe_peer_event task i p own event : safe True (handle_peer_event env task i p own event).
Proof.
  intros w Hw. unfold handle_peer_event. rewrite read_bind.
  destruct (webrtc_peer (app w) i p) as [peer|] eqn:Hp; [|done].
  destruct (negb _); [done|]. destruct event.
  2: by apply peer_disconnected_ok. 2: by apply peer_failed_ok. 4: by apply safe_without_media.
  all: match goal with |- state_ok _ (?m ?x).2 => assert (H : safe True m) by app_steps end; by apply H.
Qed.

Lemma safe_stream_failure : safe True (end_call_on_stream_failure env).
Proof. unfold end_call_on_stream_failure. app_steps. Qed.

Lemma safe_step h : safe True (take_step env h).
Proof.
  destruct h; cbn [take_step].
  - apply safe_message.
  - unfold handle_connected. app_steps. by apply keeps_safe, keeps_modify_session.
  - apply safe_runtime_error.
  - apply safe_peer_event.
  - apply safe_unanswered.
  - apply safe_establishment.
  - apply safe_retry_attempt.
  - apply safe_retry_wake.
  - apply safe_stream_failure.
  - app_step; [apply safe_invite_to_call|app_steps].
  - app_step; [apply safe_accept_call|app_steps].
  - app_step; [apply safe_drop_target|app_steps].
  - app_step; [apply safe_end_call|app_steps].
  - apply safe_disconnect_signaling.
  - by apply keeps_safe, keeps_modify_session.
Qed.
End runs.

Lemma started_ok config : app_ok (started config).
Proof. by split. Qed.

Lemma app_run_ok {HO : HashOrder} {SD : SessionDescriptions} steps w : app_ok w -> app_ok (run w steps).
Proof.
  revert w. induction steps as [|[env h] steps IH]; intros w Hw; [done|]. by apply IH, safe_step.
Qed.
