(* ===== verification/AppProperties.v ===== *)
(** AppProperties: what makes the calls of the desktop client correct. *)
From stdpp Require Import prelude gmap strings list.
From Stdlib Require Import NArith.
From S2P Require Import Prelude Protocol Calls SignalingErrors AppState AppEvents AppLogic AppRuns.

(** ** What an operation leaves of a call's lists, and the offers it sends *)

Definition book (s : AppStateInner) :
    option (CallId * gset CallTarget * CallParticipants * option ClientId) :=
  (λ c, (call_id c, invited_targets c, joined_participants c, conference_leader c))
    <$> current_call s.

(** The offers among what was done, sent or not *)
Definition offer_of (e : Effect) : option (CallId * ClientId * ClientId) :=
  match e with
  | Send (CM_WebrtcOffer msg) _ => Some (offer_call_id msg, offer_from msg, offer_to msg)
  | _ => None
  end.
Definition offers (l : list Effect) : list (CallId * ClientId * ClientId) := omap offer_of l.

Lemma offers_app l l' : offers (l ++ l') = offers l ++ offers l'.
Proof. apply omap_app. Qed.

Lemma offers_snoc l e :
  offers (l ++ [e]) = offers l ++ match offer_of e with Some o => [o] | None => [] end.
Proof. by rewrite offers_app. Qed.

(** The lists of the call stay as they are, or it ends; no offer is sent. *)
Definition settled {A : Type} (m : App A) : Prop := forall w,
  (book (app (m w).2) = book (app w) \/ book (app (m w).2) = None) /\
  offers (effects (m w).2) = offers (effects w).
(** ... an offer may be sent. *)
Definition listed {A : Type} (m : App A) : Prop := forall w,
  book (app (m w).2) = book (app w) \/ book (app (m w).2) = None.

Lemma settled_listed {A} (m : App A) : settled m -> listed m.
Proof. intros H w. apply H. Qed.

Lemma settled_ret {A} (a : A) : settled (mret a).
Proof. intros w. auto. Qed.

Lemma settled_bind {A B} (m : App A) (k : A -> App B) :
  settled m -> (forall a, settled (k a)) -> settled (m ≫= k).
Proof.
  intros Hm Hk w. unfold mbind, app_bind. specialize (Hm w). destruct (m w) as [a w1]. cbn in Hm.
  specialize (Hk a w1). destruct Hm as [H1 H2], Hk as [H3 H4]. split; [|congruence].
  destruct H3 as [->|]; auto.
Qed.

Lemma listed_bind {A B} (m : App A) (k : A -> App B) :
  listed m -> (forall a, listed (k a)) -> listed (m ≫= k).
Proof.
  intros Hm Hk w. unfold mbind, app_bind. specialize (Hm w). destruct (m w) as [a w1]. cbn in Hm.
  destruct (Hk a w1) as [->|]; auto.
Qed.

Lemma settled_read {A} (f : AppStateInner -> A) : settled (read f).
Proof. intros w. auto. Qed.

Lemma settled_when b (m : App ()) : settled m -> settled (when b m).
Proof. intros H. destruct b; [done|apply settled_ret]. Qed.

Lemma settled_perform e : offer_of e = None -> settled (perform e).
Proof. intros He w. cbn. rewrite offers_snoc, He, app_nil_r. auto. Qed.

Lemma settled_modify f : (forall s, book (f s) = book s \/ book (f s) = None) -> settled (modify f).
Proof. intros Hf w. by split; [apply Hf|]. Qed.

Lemma settled_for_all {A} (l : list A) (f : A -> App ()) : (forall x, settled (f x)) -> settled (for_all l f).
Proof.
  intros H. induction l; [apply settled_ret|]. apply settled_bind; [apply H|auto].
Qed.

Lemma listed_when b (m : App ()) : listed m -> listed (when b m).
Proof. intros H. destruct b; [done|apply settled_listed, settled_ret]. Qed.

Lemma book_change_peers id f s : book (change_peers id f s) = book s.
Proof.
  unfold change_peers, change_current. destruct (current_call_of s id) as [c|] eqn:Hc; [|done].
  apply current_call_of_Some in Hc as [Hc _]. unfold book. cbn. by rewrite Hc.
Qed.

Create HintDb app_book.
#[export] Hint Resolve settled_ret settled_read settled_when settled_for_all listed_when : app_book.
#[export] Hint Extern 1 (settled (perform _)) => apply settled_perform; reflexivity : app_book.
#[export] Hint Extern 1 (settled (emit _)) => apply settled_perform; reflexivity : app_book.
#[export] Hint Extern 2 (settled (modify _)) =>
  apply settled_modify; intros ?; rewrite ?book_change_peers; repeat case_match; by auto : app_book.

Ltac book_step :=
  match goal with
  | |- settled (_ ≫= _) => apply settled_bind; [|intros ?]
  | |- listed (_ ≫= _) => apply listed_bind; [|intros ?]
  | |- settled (match ?x with _ => _ end) => destruct x
  | |- listed (match ?x with _ => _ end) => destruct x
  | |- settled (for_all _ _) => apply settled_for_all; intros ?
  | |- listed (for_all _ _) => apply settled_listed
  | |- settled (when _ _) => apply settled_when
  | |- listed (when _ _) => apply listed_when
  | |- _ => solve [auto with app_book]
  | |- listed _ => solve [apply settled_listed; auto with app_book]
  end.
Ltac book_steps := repeat book_step.

Section properties.
Context {HO : HashOrder} {SD : SessionDescriptions}.

Lemma bind_at {A B} (m : App A) (k : A -> App B) w a w1 : m w = (a, w1) -> (m ≫= k) w = k a w1.
Proof. intros H. unfold mbind, app_bind. by rewrite H. Qed.

Section book.
Context (env : Env).

Lemma settled_send msg :
  (forall o, msg <> CM_WebrtcOffer o) -> settled (send_signaling_message env msg).
Proof.
  intros Hm w. unfold send_signaling_message. cbn. rewrite offers_snoc.
  destruct msg; cbn; rewrite ?app_nil_r; auto. by edestruct Hm.
Qed.

Lemma listed_send msg : listed (send_signaling_message env msg).
Proof. intros w. by left. Qed.

Lemma settled_call_error id reason : settled (try_send_call_error env id reason).
Proof. unfold try_send_call_error, try_send. book_steps. by apply settled_send. Qed.

Lemma settled_take id p : settled (take_webrtc_peer id p).
Proof. unfold take_webrtc_peer. book_steps. Qed.
#[local] Hint Resolve settled_call_error settled_take listed_send : app_book.

Lemma settled_cleanup_peer id p : settled (cleanup_call_peer id p).
Proof. unfold cleanup_call_peer, detach_output, restart, peer_left_sound. book_steps. Qed.

Lemma settled_remove_quiet id p : settled (remove_link_peer_quiet id p).
Proof. unfold remove_link_peer_quiet, detach_output. book_steps. Qed.

Lemma settled_cleanup id : settled (cleanup_current_call id).
Proof.
  unfold cleanup_current_call. book_steps.
Qed.
#[local] Hint Resolve settled_cleanup_peer settled_remove_quiet settled_cleanup : app_book.

Lemma settled_end_if_no_peers id : settled (end_call_if_no_peers id).
Proof. unfold end_call_if_no_peers. book_steps. Qed.

Lemma settled_cancel_link id p : settled (modify (cancel_link_retry id p)).
Proof. apply settled_modify. intros s. unfold cancel_link_retry. case_match; by left. Qed.
#[local] Hint Resolve settled_end_if_no_peers settled_cancel_link : app_book.

Lemma settled_conference_failure id p reason :
  settled (handle_conference_peer_failure env id p reason).
Proof. unfold handle_conference_peer_failure, fail_link, fail_call, emit_call_error. book_steps. Qed.

Lemma settled_negotiate id p offer : settled (negotiate_peer env id p offer).
Proof. unfold negotiate_peer, detach_output. book_steps. Qed.
#[local] Hint Resolve settled_conference_failure settled_negotiate : app_book.

Lemma listed_offer_to_joined id own l : listed (offer_to_joined env id own l).
Proof.
  induction l as [|[p target] l IH]; cbn [offer_to_joined]; [book_steps|].
  destruct (client_leb p own); [done|]. unfold send_offer, emit_call_error. book_steps.
Qed.
#[local] Hint Resolve listed_offer_to_joined : app_book.

(** The current call of a run of follow-up work *)
Definition has_lists (msg : CallUpdate) (s : AppStateInner) : Prop :=
  book s = Some (cu_call_id msg, cu_invited_targets msg, cu_joined_participants msg,
    cu_conference_leader msg).

Lemma listed_follow_up msg own joined departed active :
  listed (follow_call_update env msg own joined departed active).
Proof.
  unfold follow_call_update. book_steps. apply settled_listed, settled_modify. intros s.
  unfold start_call_establishment_timer. repeat case_match; by left.
Qed.

(** ** Offers, when everything works *)

Definition works : Prop :=
  (forall p o relay, exists sdp, create_sdp env p o relay = Ok sdp) /\
  (forall l msg, send_ok env l msg = true).

Definition to_offer (id : CallId) (own : ClientId) (l : list (ClientId * CallTarget)) :
    list (CallId * ClientId * ClientId) :=
  (λ kv, (id, own, kv.1)) <$> filter (λ kv, client_leb kv.1 own = false) l.

(** The connection is there afterwards. *)
Lemma negotiate_connects id p w :
  works -> cur (app w) = Some id ->
  let r := negotiate_peer env id p None w in
  (exists sdp, r.1 = Ok sdp) /\ no_peers (app r.2) id = false.
Proof.
  intros [Hsdp _] Hc. unfold negotiate_peer. rewrite read_bind. unfold cur in Hc.
  destruct (current_call (app w)) as [c|] eqn:Hcall; [|done]. cbn in Hc. injection Hc as Hid.
  rewrite Hid, bool_decide_true by done. cbn [negb].
  set (relay := force_relay _ || _ || _). destruct (Hsdp p None relay) as [sdp ->]. cbn [with_context].
  set (peer := if has_link_limbo _ _ _ && _ then _ else _).
  assert (H : no_peers (change_peers id <[p:=peer]>
    (with_next_task (app w) (next_task (app w) + 1))) id = false).
  { unfold no_peers, change_peers, change_current.
    assert (Hx : current_call_of (app w) id = Some c) by by apply current_call_of_Some.
    change (current_call_of (with_next_task (app w) (next_task (app w) + 1)) id)
      with (current_call_of (app w) id). rewrite Hx. unfold current_call_of. cbn.
    rewrite bool_decide_true by done. apply bool_decide_eq_false. apply insert_non_empty. }
  case_bool_decide; cbn [when]; destruct (peers (webrtc c) !! p) as [old|];
    try (destruct (audio_source_id old)); app_run; split; eauto.
Qed.

Lemma offers_work id own l w :
  works -> ok_in True (Some id) w ->
  let r := offer_to_joined env id own l w in
  ok_in True (Some id) r.2 /\
  offers (effects r.2) = offers (effects w) ++ to_offer id own l /\
  (no_peers (app w) id = false \/ 0 < r.1 -> no_peers (app r.2) id = false).
Proof.
  intros Hworks. revert w. induction l as [|[p target] l IH]; intros w Hw.
  { cbn. rewrite app_nil_r. split_and!; [done..|]. intros [?|?]; [done|lia]. }
  cbn [offer_to_joined]. unfold to_offer. rewrite filter_cons. cbn [fst].
  destruct (client_leb p own) eqn:Hle.
  { rewrite decide_False by done. by apply IH. }
  rewrite decide_True by done. cbn [fmap list_fmap fst].
  pose proof (negotiate_connects id p w Hworks (proj2 Hw)) as Hn.
  pose proof (keeps_in True _ _ w (keeps_negotiate_peer True env id p None) Hw) as Hw1.
  pose proof (proj2 (settled_negotiate id p None w)) as Ho.
  destruct (negotiate_peer env id p None w) as [r w1] eqn:He. cbn in Hn, Hw1, Ho.
  rewrite (bind_at _ _ w _ _ He). destruct Hn as [[sdp ->] Hn].
  set (w2 := mkWorld (app w1)
    (effects w1 ++ [Send (CM_WebrtcOffer (mkWebrtcOffer id own p sdp)) true])).
  assert (He2 : send_offer env id p own sdp w1 = (Ok (), w2))
    by (unfold send_offer, send_signaling_message; by rewrite (proj2 Hworks)).
  rewrite bind_bind, (bind_at _ _ w1 _ _ He2), ret_bind.
  assert (Hw2 : ok_in True (Some id) w2) by by apply (ok_in_effect True).
  destruct (IH w2 Hw2) as (H1 & H2 & H3).
  destruct (offer_to_joined env id own l w2) as [n w3] eqn:He3. rewrite (bind_at _ _ w2 _ _ He3).
  cbn in *. split_and!; [done| |auto]. rewrite H2, offers_snoc, Ho. cbn. by rewrite <- app_assoc.
Qed.

(** An operation that stays in the call and sends no offer *)
Lemma through {A B} (m : App A) (k : A -> App B) c w (P : B * World -> Prop) :
  keeps True m -> settled m -> ok_in True c w ->
  (forall a w', ok_in True c w' -> offers (effects w') = offers (effects w) -> P (k a w')) ->
  P ((m ≫= k) w).
Proof.
  intros Hm Hs Hw H. pose proof (keeps_in True m c w Hm Hw) as H1. pose proof (proj2 (Hs w)) as H2.
  destruct (m w) as [a w1] eqn:He. rewrite (bind_at _ _ _ _ _ He). by apply H.
Qed.

Lemma follow_up_works msg own joined departed active w :
  works -> ok_in True (Some (cu_call_id msg)) w ->
  let w' := (follow_call_update env msg own joined departed active w).2 in
  ok_in True (Some (cu_call_id msg)) w' /\
  offers (effects w') = offers (effects w) ++ to_offer (cu_call_id msg) own (map_iter joined).
Proof.
  intros Hworks Hw. cbv zeta. unfold follow_call_update. set (id := cu_call_id msg) in *.
  set (P := λ r : () * World, ok_in True (Some id) r.2 /\
    offers (effects r.2) = offers (effects w) ++ to_offer id own (map_iter joined)).
  match goal with |- _ (?m w).2 /\ _ => change (P (m w)) end.
  refine (through _ _ (Some id) w P _ _ Hw _); [case_bool_decide; app_steps; [apply keeps_no_timers|apply keeps_cancel_timers]|book_steps|].
  intros _ w1 Hw1 H1. refine (through _ _ (Some id) w1 P (keeps_departed id _) _ Hw1 _); [book_steps|].
  intros _ w2 Hw2 H2. destruct (offers_work id own (map_iter joined) w2 Hworks Hw2) as (Hw3 & H3 & Hn).
  destruct (offer_to_joined env id own (map_iter joined) w2) as [n w3] eqn:He.
  rewrite (bind_at _ _ _ _ _ He). cbn in Hw3, H3, Hn.
  assert (Hover : (if 0 <? n then end_call_if_no_peers id else mret false) w3 = (false, w3)).
  { destruct (0 <? n) eqn:Hlt; [|done]. unfold end_call_if_no_peers. rewrite read_bind.
    specialize (Hn (or_intror (proj1 (Nat.ltb_lt 0 n) Hlt))). unfold no_peers in Hn.
    destruct (current_call_of (app w3) id) as [c|]; [|done]. by rewrite Hn, andb_false_r. }
  rewrite (bind_at _ _ _ _ _ Hover).
  refine (through _ _ (Some id) w3 P _ _ Hw3 _).
  - apply keeps_watch_if. intros s. by rewrite !andb_true_iff => - [_ ?].
  - apply settled_modify. intros s. unfold start_call_establishment_timer. repeat case_match; by left.
  - intros _ w4 Hw4 H4. split; [by apply (ok_in_effect True)|]. cbn. rewrite offers_snoc.
    cbn. by rewrite app_nil_r, H4, H3, H2, H1.
Qed.

(** ** Updates of the current call *)

Definition update_ends (c : Call) (msg : CallUpdate) (own : ClientId) : bool :=
  bool_decide (cu_invited_targets msg = ∅) && bool_decide (cu_joined_participants msg = ∅)
  || Call.is_active c own && negb (bool_decide (is_Some (cu_joined_participants msg !! own))).

(** The participants an update makes a client connect to *)
Definition newly_joined (c : Call) (msg : CallUpdate) (own : ClientId) : CallParticipants :=
  (Call.update c own (cu_invited_targets msg) (cu_joined_participants msg)
    (cu_conference_leader msg)).1.1.

(** An update of the current call, up to what follows *)
Lemma handle_update_current msg own c w :
  client_id (app w) = Some own -> incoming_calls (app w) !! cu_call_id msg = None ->
  current_call_of (app w) (cu_call_id msg) = Some c -> app_ok w ->
  exists w1 departed active,
    ok_in True (Some (cu_call_id msg)) w1 /\ has_lists msg (app w1) /\ effects w1 = effects w /\
    handle_call_update env msg w =
      (if update_ends c msg own
       then cleanup_current_call (cu_call_id msg) ;; emit (EvForceCallEnd (cu_call_id msg))
       else follow_call_update env msg own (newly_joined c msg own) departed active) w1.
Proof.
  intros Hown Hin Hcur Hw. unfold handle_call_update, newly_joined. rewrite read_bind, Hown, Hin, Hcur.
  pose proof (update_fields c own (cu_invited_targets msg) (cu_joined_participants msg)
    (cu_conference_leader msg)) as Hc.
  destruct (Call.update c own _ _ _) as [[joined departed] c'] eqn:Hu. destruct Hc as [Hid Hp].
  assert (Hlists : invited_targets c' = cu_invited_targets msg /\
    joined_participants c' = cu_joined_participants msg /\
    conference_leader c' = cu_conference_leader msg)
    by (revert Hu; unfold Call.update; repeat case_match; intros; by simplify_eq).
  destruct Hlists as (H1 & H2 & H3). apply current_call_of_Some in Hcur as [Hcur Hcid].
  rewrite modify_bind. exists (mkWorld (with_current (app w) (Some c')) (effects w)), departed,
    (Call.is_active c' own).
  destruct (with_current_ok True w c c') as [Hok Hcc]; rewrite ?Hp; try done.
  { intros p peer. exact (ao_tasks True w Hw c p peer Hcur). }
  split_and!; [|unfold has_lists, book; cbn; congruence|done|].
  - split; [done|]. cbn [app]. rewrite Hcc. unfold cur. rewrite Hcur. cbn. congruence.
  - unfold update_ends. cbn [fst]. unfold Call.is_active. by rewrite H2.
Qed.

Lemma cleanup_ends id w :
  ok_in True (Some id) w ->
  let w' := ((cleanup_current_call id ;; emit (EvForceCallEnd id)) w).2 in
  current_call (app w') = None /\ last (effects w') = Some (Emit (EvForceCallEnd id)).
Proof.
  intros [Hw Hc]. destruct (cleanup_current_call_spec True id w Hw Hc) as (_ & H & _).
  destruct (cleanup_current_call id w) as [b w1] eqn:He. rewrite (bind_at _ _ _ _ _ He). cbn in *.
  rewrite H. split; [done|apply last_snoc].
Qed.

Lemma newly_joined_spec c msg own p :
  is_Some (newly_joined c msg own !! p) <->
  is_Some (cu_joined_participants msg !! own) /\ is_Some (cu_joined_participants msg !! p) /\
  if Call.is_active c own then joined_participants c !! p = None else p <> own.
Proof.
  unfold newly_joined, Call.update. case_bool_decide as Ho; [destruct (Call.is_active c own)|]; cbn.
  - unfold is_Some at 1. setoid_rewrite map_lookup_filter_Some. cbn. unfold is_Some in *. naive_solver.
  - unfold is_Some at 1. setoid_rewrite map_lookup_filter_Some. cbn. unfold is_Some in *. naive_solver.
  - rewrite lookup_empty. split; [by intros []|naive_solver].
Qed.
End book.

(** An update of the current call ends it exactly when nobody is left in it, or
    this client was a participant and is none any more; otherwise the call shows
    the invited targets, the participants and the leader of the update, and if it
    does not, it is because a connection that could not be negotiated ended it. *)
Theorem call_update_spec env msg own c w :
  client_id (app w) = Some own -> incoming_calls (app w) !! cu_call_id msg = None ->
  current_call_of (app w) (cu_call_id msg) = Some c -> app_ok w ->
  let w' := (handle_call_update env msg w).2 in
  (update_ends c msg own = true ->
    current_call (app w') = None /\
    last (effects w') = Some (Emit (EvForceCallEnd (cu_call_id msg)))) /\
  (update_ends c msg own = false ->
    (has_lists msg (app w') \/ current_call (app w') = None) /\
    (works env -> has_lists msg (app w'))).
Proof.
  intros Hown Hin Hcur Hw. cbv zeta.
  destruct (handle_update_current env msg own c w Hown Hin Hcur Hw)
    as (w1 & departed & active & Hw1 & Hl & _ & ->). split; intros ->; [by apply cleanup_ends|].
  pose proof (listed_follow_up env msg own (newly_joined c msg own) departed active w1) as Hb.
  assert (Hnone : forall w, book (app w) = None -> current_call (app w) = None)
    by (intros w0; unfold book; by destruct (current_call (app w0))).
  split.
  - destruct Hb as [Hb|Hb]; [left; unfold has_lists; by rewrite Hb|right; by apply Hnone].
  - intros Hworks.
    destruct (follow_up_works env msg own (newly_joined c msg own) departed active w1 Hworks Hw1)
      as [[_ Hc] _]. destruct Hb as [Hb|Hb]; [unfold has_lists; by rewrite Hb|].
    unfold cur in Hc. by rewrite (Hnone _ Hb) in Hc.
Qed.

(** C22: two participants that see each other join connect over exactly one offer:
    the one with the smaller identifier sends it, the other waits for it. *)
Theorem one_side_offers env_a env_b msg a b ca cb wa wb :
  a <> b -> works env_a -> works env_b -> app_ok wa -> app_ok wb ->
  client_id (app wa) = Some a -> client_id (app wb) = Some b ->
  incoming_calls (app wa) !! cu_call_id msg = None ->
  incoming_calls (app wb) !! cu_call_id msg = None ->
  current_call_of (app wa) (cu_call_id msg) = Some ca ->
  current_call_of (app wb) (cu_call_id msg) = Some cb ->
  update_ends ca msg a = false -> update_ends cb msg b = false ->
  is_Some (newly_joined ca msg a !! b) -> is_Some (newly_joined cb msg b !! a) ->
  let sent_a := drop (length (offers (effects wa))) (offers (effects (handle_call_update env_a msg wa).2)) in
  let sent_b := drop (length (offers (effects wb))) (offers (effects (handle_call_update env_b msg wb).2)) in
  (client_leb a b = true -> (cu_call_id msg, a, b) ∈ sent_a /\ (cu_call_id msg, b, a) ∉ sent_b) /\
  (client_leb a b = false -> (cu_call_id msg, a, b) ∉ sent_a /\ (cu_call_id msg, b, a) ∈ sent_b).
Proof.
  assert (Hone : forall env own c w p,
    works env -> app_ok w -> client_id (app w) = Some own ->
    incoming_calls (app w) !! cu_call_id msg = None ->
    current_call_of (app w) (cu_call_id msg) = Some c -> update_ends c msg own = false ->
    is_Some (newly_joined c msg own !! p) ->
    ((cu_call_id msg, own, p) ∈ drop (length (offers (effects w)))
      (offers (effects (handle_call_update env msg w).2))) <-> client_leb p own = false).
  { intros env own c w p Hworks Hw Hown Hin Hcur He [t Hp].
    destruct (handle_update_current env msg own c w Hown Hin Hcur Hw)
      as (w1 & departed & active & Hw1 & _ & Heff & ->). rewrite He.
    destruct (follow_up_works env msg own (newly_joined c msg own) departed active w1 Hworks Hw1)
      as [_ ->]. rewrite Heff, drop_app_length. unfold to_offer. rewrite list_elem_of_fmap. split.
    - intros ([q u] & [= ->] & [Hle _]%list_elem_of_filter). done.
    - intros Hle. exists (p, t). split; [done|]. apply list_elem_of_filter. split; [done|].
      by apply elem_of_map_iter. }
  intros Hab Wa Wb Oa Ob Ia Ib Na Nb Ca Cb Ea Eb Pa Pb.
  pose proof (Hone env_a a ca wa b Wa Oa Ia Na Ca Ea Pa) as Ha.
  pose proof (Hone env_b b cb wb a Wb Ob Ib Nb Cb Eb Pb) as Hb. cbv zeta. rewrite Ha, Hb.
  destruct (client_leb a b) eqn:H1, (client_leb b a) eqn:H2; split; intros ?; try done.
  - destruct Hab. by apply client_leb_antisym.
  - destruct (client_leb_total a b); congruence.
Qed.

(** ** Accepting, waiting and failing *)

(** C21: whatever messages, commands, timers and connection events came, in
    whatever order: without a current call no timer of a call runs, no link is
    retried, the keybind engine is told that no call is active and the ringback is
    off; without incoming calls nothing rings; and the timer that waits for the
    first connection watches the current call, which has none. *)
Theorem no_call_leaves_nothing config steps :
  let w := run (started config) steps in
  (current_call (app w) = None ->
    unanswered_call_guards (app w) = ∅ /\ establishment_guard (app w) = None /\
    link_limbo_guards (app w) = ∅ /\ told_active (effects w) = false /\
    sounding Ringback (effects w) = false) /\
  (incoming_calls (app w) = ∅ ->
    sounding Ring (effects w) = false /\ sounding PriorityRing (effects w) = false) /\
  (forall id, establishment_guard (app w) = Some id ->
    exists c, current_call (app w) = Some c /\ call_id c = id /\ peers (webrtc c) = ∅).
Proof.
  cbv zeta. pose proof (app_run_ok steps _ (started_ok config)) as Hw.
  set (w := run _ steps) in *. clearbody w. destruct Hw as [H1 H2 H3 _ _ H6 H7 H8].
  assert (Hcur : current_call (app w) = None -> cur (app w) = None)
    by (unfold cur; by intros ->).
  split_and!.
  - intros Hn. specialize (Hcur Hn). rewrite Hn in H6, H8. split_and!.
    + apply map_empty. intros t. apply eq_None_not_Some. intros [id Hid].
      by rewrite (H1 _ _ Hid) in Hcur.
    + apply eq_None_not_Some. intros [id Hid]. by rewrite (proj1 (H2 _ Hid)) in Hcur.
    + apply map_empty. intros p. apply eq_None_not_Some. intros [l Hl].
      by rewrite (H3 _ _ Hl) in Hcur.
    + destruct (told_active _); [by destruct H6|done].
    + destruct (sounding Ringback _); [by destruct H8|done].
  - intros Hn. apply orb_false_iff, not_true_iff_false. intros H. by apply (H7 I).
  - intros id Hid. destruct (H2 id Hid) as [_ Hp]. unfold no_peers in Hp.
    destruct (current_call_of (app w) id) as [c|] eqn:Hc; [|done].
    apply current_call_of_Some in Hc as [Hc Hcid]. exists c. split_and!; [done..|].
    by apply bool_decide_eq_true in Hp.
Qed.

Lemma send_signaling_eq env msg w :
  let sent := send_ok env (effects w) msg in
  send_signaling_message env msg w =
    (if sent then Ok () else Err ErrSignaling, mkWorld (app w) (effects w ++ [Send msg sent])).
Proof. done. Qed.

(** The current call ends, with the sounds of its end. *)
Lemma cleanup_current_call_effects id w :
  app_ok w -> cur (app w) = Some id ->
  exists found sounds, cleanup_current_call id w =
    (found, mkWorld (call_ended (app w)) (effects w ++ sounds)).
Proof.
  intros Hw Hc. pose proof (proj2 (current_call_of_cur _ _) Hc) as [c Hcall].
  unfold cleanup_current_call. app_run. rewrite Hcall. app_run.
  rewrite (cancel_all_ended True w id Hw Hc).
  destruct (enable_call_end_sound _ && _); cbn [when]; app_run;
    rewrite (bind_at _ _ _ _ _ (for_all_perform _ _ _)); cbn; do 2 eexists; by rewrite <- !app_assoc.
Qed.

(** A connection that cannot be negotiated: at most the user interface hears of it. *)
Lemma negotiate_fails env id p offer w :
  cur (app w) = Some id -> (forall relay, exists err, create_sdp env p offer relay = Err err) ->
  exists l, negotiate_peer env id p offer w = (Err ErrOther, mkWorld (app w) (effects w ++ l)) /\
    Forall effect_neutral l.
Proof.
  intros Hc Hfail. unfold negotiate_peer. rewrite read_bind. unfold cur in Hc.
  destruct (current_call (app w)) as [c|] eqn:Hcall; [|done]. cbn in Hc. injection Hc as Hid.
  rewrite Hid, bool_decide_true by done. cbn [negb]. set (relay := force_relay _ || _ || _).
  destruct (Hfail relay) as [err ->]. cbn [with_context].
  case_bool_decide; cbn [when]; app_run.
  - eexists [_]. split; [done|]. by repeat constructor.
  - exists []. rewrite app_nil_r. split; [by destruct w|constructor].
Qed.

(** What an accepted call looks like *)
Definition accepted (id : CallId) (call : Call) (w w' : World) : Prop :=
  current_call (app w') = Some call /\ incoming_calls (app w') = delete id (incoming_calls (app w)) /\
  establishment_guard (app w') = Some id /\ unanswered_call_guards (app w') = ∅ /\
  last (effects w') = Some (Emit (EvAcceptIncomingCall id)).

Lemma accept_incoming_spec env id own call w :
  app_ok w -> current_call (app w) = None -> incoming_calls (app w) !! id = Some call ->
  match accept_incoming env id own w with
  | (Ok b, w') => b = true /\ accepted id call w w'
  | (Err err, w') => err = ErrSignaling /\ app w' = app w /\
      ~ (forall l msg, send_ok env l msg = true)
  end.
Proof.
  intros Hw Hc Hcall. unfold accept_incoming. rewrite read_bind, Hcall, modify_bind.
  set (w1 := mkWorld _ (effects w)).
  assert (Hsend := send_signaling_eq env (CM_CallAccept (mkCallAccept id own)) w1).
  destruct (send_ok env (effects w1) (CM_CallAccept (mkCallAccept id own))) eqn:Hsent;
    rewrite (bind_at _ _ _ _ _ Hsend), modify_bind; cbn [app effects w1].
  - assert (Hnone : cur (app w) = None) by (unfold cur; by rewrite Hc).
    assert (He : establishment_guard (app w) = None).
    { apply eq_None_not_Some. intros [i Hi]. by rewrite (proj1 (ao_watch True w Hw i Hi)) in Hnone. }
    assert (Hl : link_limbo_guards (app w) = ∅).
    { apply map_empty. intros p. apply eq_None_not_Some. intros [l Hp].
      by rewrite (ao_limbo True w Hw p l Hp) in Hnone. }
    assert (Hg : unanswered_call_guards (app w) = ∅).
    { apply map_empty. intros t. apply eq_None_not_Some. intros [i Hi].
      by rewrite (ao_timers True w Hw t i Hi) in Hnone. }
    unfold start_call_establishment_timer, has_pending_link_retries. cbn. rewrite He, Hl.
    unfold stop_ringing_if_no_incoming_calls. app_run.
    case_bool_decide; cbn [when orb]; app_run; (split; [done|]); unfold accepted; cbn;
      rewrite last_snoc; done.
  - cbn. split_and!; [done| |intros H; by rewrite H in Hsent].
    rewrite insert_delete_id by done. by destruct w as [[] ?].
Qed.

(** Accepting an incoming call answers with the call made current, its timer
    running and every timer of another call gone; without a current call, or
    with an active one that may be ended, it fails only when a message cannot be
    sent, and then the call still waits to be accepted; a current call that may
    not be ended is left alone. *)
Theorem accept_incoming_call_spec env id own call end_active w :
  app_ok w -> client_id (app w) = Some own -> incoming_calls (app w) !! id = Some call ->
  let r := accept_call env (Some id) end_active w in
  let may_accept := match current_call (app w) with
    | Some c => end_active && Call.is_active c own
    | None => true
    end in
  match r.1 with
  | Ok b => b = true /\ may_accept = true /\ accepted id call w r.2
  | Err ErrCallActive => may_accept = false /\ r.2 = w
  | Err err => err = ErrSignaling /\ may_accept = true /\
      incoming_calls (app r.2) = incoming_calls (app w) /\
      (current_call (app r.2) = current_call (app w) \/ current_call (app r.2) = None) /\
      ~ (forall l msg, send_ok env l msg = true)
  end.
Proof.
  intros Hw Hown Hcall. cbv zeta. unfold accept_call. rewrite read_bind, Hown, Hcall.
  rewrite bool_decide_true by by eexists. cbn [negb].
  destruct (current_call (app w)) as [c|] eqn:Hc.
  - rewrite <- negb_andb. destruct (end_active && Call.is_active c own) eqn:Hmay; cbn [negb]; [|done].
    unfold end_call. rewrite bind_bind, read_bind, Hown, bind_bind.
    assert (Hsend := send_signaling_eq env (CM_CallEnd (mkCallEnd (call_id c) own)) w).
    destruct (send_ok env (effects w) (CM_CallEnd (mkCallEnd (call_id c) own))) eqn:Hsent;
      rewrite (bind_at _ _ _ _ _ Hsend).
    + set (w1 := mkWorld (app w) _) in *. assert (Hw1 : app_ok w1) by by apply app_ok_effect.
      assert (Hcur : cur (app w1) = Some (call_id c)) by (unfold cur; cbn; by rewrite Hc).
      destruct (cleanup_current_call_spec True (call_id c) w1 Hw1 Hcur) as (_ & Happ & Hok).
      destruct (cleanup_current_call (call_id c) w1) as [found w2] eqn:He.
      rewrite bind_bind, (bind_at _ _ _ _ _ He), bind_bind, emit_bind, ret_bind. cbn [snd] in Happ, Hok.
      set (w3 := mkWorld (app w2) _). assert (Hw3 : app_ok w3) by by apply app_ok_effect.
      pose proof (accept_incoming_spec env id own call w3 Hw3) as Hspec. cbn [app w3] in Hspec.
      rewrite Happ in Hspec. specialize (Hspec eq_refl Hcall).
      destruct (accept_incoming env id own w3) as [[b|err] w4].
      * destruct Hspec as [-> Ha]. split_and!; [done..|]. revert Ha. unfold accepted.
        cbn [app w3]. by rewrite Happ.
      * destruct Hspec as (-> & Ha & Hn). cbn [fst snd]. rewrite Ha.
        split_and!; [done..| |done]. by right.
    + cbn. split_and!; [done..|by left|intros H; by rewrite H in Hsent].
  - pose proof (accept_incoming_spec env id own call w Hw Hc Hcall) as Hspec.
    destruct (accept_incoming env id own w) as [[b|err] w4].
    + by destruct Hspec as [-> Ha].
    + destruct Hspec as (-> & Ha & Hn). cbn. rewrite Ha. split_and!; [done..|by left|done].
Qed.

(** C23: the timer of the first connection gives an accepted call up that nobody
    connected to: when it expires the server is told that this client left, the
    user sees the failure, and nothing is left of the call. *)
Theorem unconnected_call_is_given_up env id own w :
  app_ok w -> establishment_guard (app w) = Some id -> client_id (app w) = Some own ->
  exists sent sounds,
    call_establishment_timer_expired env w = ((),
      mkWorld (call_ended (app w))
        (effects w ++ [Send (CM_CallEnd (mkCallEnd id own)) sent;
           Emit (EvCallError id true OriginCall CallFailure false)] ++ sounds ++
           [Emit (EvForceCallEnd id)])).
Proof.
  intros Hw He Hown. destruct (ao_watch True w Hw id He) as [Hcur Hnp].
  unfold call_establishment_timer_expired. rewrite read_bind, He, modify_bind, !read_bind.
  set (w1 := mkWorld (with_establishment (app w) None) (effects w)).
  change (no_peers (app w1) id) with (no_peers (app w) id). rewrite Hnp.
  change (client_id (app w1)) with (client_id (app w)). rewrite Hown. cbn [when].
  unfold try_send. rewrite bind_bind, (bind_at _ _ _ _ _ (send_signaling_eq env _ w1)), ret_bind.
  set (sent := send_ok env _ _). unfold emit_call_error. rewrite emit_bind.
  set (w2 := mkWorld _ _). assert (Hw2 : app_ok w2).
  { apply (app_ok_effect True (mkWorld _ _)); [done|]. apply app_ok_effect; [done|].
    by apply (keeps_no_watch True w Hw). }
  destruct (cleanup_current_call_effects id w2 Hw2) as (found & sounds & Hclean).
  { unfold cur in *. cbn. done. }
  rewrite (bind_at _ _ _ _ _ Hclean). exists sent, sounds. unfold emit, perform. cbn.
  f_equal. f_equal. by rewrite <- !app_assoc.
Qed.

(** A connection of a conference that cannot be negotiated is never a failure
    of its link: one offer this client cannot answer makes it leave the
    conference, and it tells the server that something else went wrong. *)
Theorem failed_negotiation_ends_conference env msg own w :
  app_ok w -> client_id (app w) = Some own ->
  in_conference (app w) (offer_call_id msg) (offer_from msg) = true ->
  has_link_limbo (app w) (offer_call_id msg) (offer_from msg) = false ->
  (forall relay, exists err, create_sdp env (offer_from msg) (Some (offer_sdp msg)) relay = Err err) ->
  let w' := (handle_webrtc_offer env msg w).2 in
  app w' = call_ended (app w) /\
  exists sent, Send (CM_CallError (mkCallError (offer_call_id msg) CE_Other None)) sent ∈ effects w'.
Proof.
  intros Hw Hown Hconf Hlimbo Hfail. cbv zeta. unfold handle_webrtc_offer.
  rewrite read_bind, Hown, Hlimbo. cbn [andb].
  pose proof (in_conference_cur _ _ _ Hconf) as Hcur.
  destruct (negotiate_fails env (offer_call_id msg) (offer_from msg) (Some (offer_sdp msg)) w Hcur Hfail)
    as (l & He & Hl). set (w1 := mkWorld (app w) (effects w ++ l)) in *.
  assert (Hw1 : app_ok w1) by (apply (app_ok_effects True); [done|by destruct w]).
  rewrite (bind_at _ _ _ _ _ He). unfold handle_conference_peer_failure.
  rewrite bind_bind, read_bind, bind_bind, read_bind. cbn [into_call_error_reason].
  unfold is_link_failure. cbn [app w1]. rewrite Hconf. cbn [andb]. unfold fail_call.
  unfold try_send_call_error, try_send.
  rewrite !bind_bind, (bind_at _ _ _ _ _ (send_signaling_eq env _ w1)), ret_bind.
  set (sent := send_ok env _ _). unfold emit_call_error. rewrite bind_bind, emit_bind.
  set (w2 := mkWorld _ _). assert (Hw2 : app_ok w2).
  { by do 2 (apply (app_ok_effect True (mkWorld _ _)); [done|]). }
  destruct (cleanup_current_call_effects (offer_call_id msg) w2 Hw2 Hcur) as (found & sounds & Hclean).
  rewrite !bind_bind, (bind_at _ _ _ _ _ Hclean), emit_bind, ret_bind. cbn.
  split; [done|]. exists sent. set_solver.
Qed.
End properties.

(** ** The properties on concrete runs *)

Section witnesses.
#[local] Existing Instance listed_order.
#[local] Instance plain_descriptions : SessionDescriptions := {|
  has_reconnect_capability _ := true;
  tag_reconnect_capability sdp := sdp
|}.

Let config0 : ClientConfig := mkClientConfig ∅ 30 false true true true true true true.
Let call0 : CallId := mkCallId 7.
Let other_call : CallId := mkCallId 8.
Let ann : ClientId := ClientId_from "1000001".
Let bob : ClientId := ClientId_from "1000002".
Let carl : ClientId := ClientId_from "1000003".
Let all_well (negotiated : Result string ClientError) : Env :=
  mkEnv 1000 (λ _ _, true) (λ _ _ _, negotiated) (λ _ _, true) (Ok 1%N) (Ok ()) (Ok ()) call0.
Let fine : Env := all_well (Ok "sdp").
Let source_of (id : ClientId) : CallSource := mkCallSource id None None.
Let joined_of (ids : list ClientId) : CallParticipants :=
  list_to_map ((λ id, (id, TClient id)) <$> ids).
Let update_of (ids : list ClientId) : CallUpdate := mkCallUpdate call0 ∅ (joined_of ids) (Some ann).
Let invitation_of (id : CallId) : CallInvitation :=
  mkCallInvitation id (source_of carl) (TClient bob) {[TClient bob]} (joined_of [carl]) None false.

(** Ann called somebody; Bob has a call waiting; Bob took it. *)
Let ann_calling : World := run (started config0)
  [(fine, DoSetClientId (Some ann)); (fine, DoInvite (source_of ann) {[TClient bob]} false);
   (fine, OnMessage (SM_CallUpdate (update_of [ann; carl])))].
Let bob_ringing : World := run (started config0)
  [(fine, DoSetClientId (Some bob)); (fine, OnMessage (SM_CallInvitation (invitation_of call0)))].
Let bob_waiting : World := run bob_ringing [(fine, DoAccept None false)].

Let call_of (w : World) : Call :=
  default (mkCall call0 WebrtcCall.new ∅ ∅ None) (current_call (app w)).

Lemma fine_works : works fine.
Proof. split; [by exists "sdp"|done]. Qed.
Lemma ann_calling_ok : app_ok ann_calling.
Proof. apply app_run_ok, started_ok. Qed.
Lemma bob_ringing_ok : app_ok bob_ringing.
Proof. apply app_run_ok, started_ok. Qed.
Lemma bob_waiting_ok : app_ok bob_waiting.
Proof. apply app_run_ok, bob_ringing_ok. Qed.

(** Carl leaves Ann's call for Bob. *)
Lemma call_update_spec_witness :
  update_ends (call_of ann_calling) (update_of [ann; bob]) ann = false /\
  has_lists (update_of [ann; bob])
    (app (handle_call_update fine (update_of [ann; bob]) ann_calling).2).
Proof.
  assert (He : update_ends (call_of ann_calling) (update_of [ann; bob]) ann = false) by by vm_compute.
  split; [done|].
  destruct (call_update_spec fine (update_of [ann; bob]) ann (call_of ann_calling) ann_calling)
    as [_ H]; [by vm_compute..|exact ann_calling_ok|].
  apply (H He), fine_works.
Defined.

Lemma one_side_offers_witness :
  client_leb ann bob = true /\
  (call0, ann, bob) ∈ drop (length (offers (effects ann_calling)))
    (offers (effects (handle_call_update fine (update_of [ann; bob]) ann_calling).2)).
Proof.
  assert (He : client_leb ann bob = true) by by vm_compute. split; [done|].
  destruct (one_side_offers fine fine (update_of [ann; bob]) ann bob (call_of ann_calling)
    (call_of bob_waiting) ann_calling bob_waiting) as [H _];
    [done|exact fine_works|exact fine_works|exact ann_calling_ok|exact bob_waiting_ok
    |by vm_compute..| | |by apply H]; apply newly_joined_spec; (split_and!; [by eexists..|by vm_compute]).
Defined.

Lemma accept_incoming_call_spec_witness :
  accepted call0 (Call.from_invitation (invitation_of call0)) bob_ringing
    (accept_call fine (Some call0) false bob_ringing).2.
Proof.
  pose proof (accept_incoming_call_spec fine call0 bob (Call.from_invitation (invitation_of call0)) false
    bob_ringing bob_ringing_ok) as H. cbv zeta in H.
  assert (Hok : (accept_call fine (Some call0) false bob_ringing).1 = Ok true) by by vm_compute.
  rewrite Hok in H. by apply H; vm_compute.
Defined.

Lemma unconnected_call_is_given_up_witness :
  exists sent sounds,
    call_establishment_timer_expired fine bob_waiting = ((),
      mkWorld (call_ended (app bob_waiting))
        (effects bob_waiting ++ [Send (CM_CallEnd (mkCallEnd call0 bob)) sent;
           Emit (EvCallError call0 true OriginCall CallFailure false)] ++ sounds ++
           [Emit (EvForceCallEnd call0)])).
Proof. apply unconnected_call_is_given_up; [exact bob_waiting_ok|by vm_compute..]. Defined.

(** Ann is in a conference with Bob and Carl; Bob's offer cannot be read. *)
Lemma failed_negotiation_ends_conference_witness :
  let conference := run ann_calling [(fine, OnMessage (SM_CallUpdate (update_of [ann; bob; carl])))] in
  let bad := all_well (Err ErrWebrtcOther) in
  let offer := mkWebrtcOffer call0 bob ann "?" in
  app (handle_webrtc_offer bad offer conference).2 = call_ended (app conference) /\
  exists sent, Send (CM_CallError (mkCallError call0 CE_Other None)) sent ∈
    effects (handle_webrtc_offer bad offer conference).2.
Proof.
  intros conference bad offer.
  apply (failed_negotiation_ends_conference bad offer ann conference).
  - apply app_run_ok, ann_calling_ok.
  - by vm_compute.
  - by vm_compute.
  - by vm_compute.
  - intros relay. by exists ErrWebrtcOther.
Defined.
End witnesses.
