(* ===== verification/AppStations.v ===== *)
(** AppStations: the list of stations of the desktop client and the registry of
    the server together. The server's view is a map from a station to the position
    that controls it; the client keeps a list of the stations with a flag for those
    its own position controls, and changes it in place. *)
From stdpp Require Import prelude gmap strings list sorting.
From Stdlib Require Import NArith.
From S2P Require Import Prelude Protocol Calls Controllers CoverageErrors Profile.
From S2P Require Import Coverage CoverageLookup CoverageResolve CoverageBuild CoverageProperties.
From S2P Require Import Clients ClientInvariant ClientSteps ClientView ClientRuns ClientProperties.
From S2P Require AppState AppEvents.
Import ClientManager.

#[local] Instance StationInfo_eq_dec : EqDecision StationInfo.
Proof. solve_decision. Defined.

(** The list shows exactly the stations of the view, each once. *)
Record shows (own : option PositionId) (l : list StationInfo) (m : Stations) : Prop := {
  shows_once : NoDup (map station_info_id l);
  shows_all : forall id b, mkStationInfo id b ∈ l <->
    exists p, m !! id = Some p /\ b = bool_decide (own = Some p)
}.

Section stations.
Context (own : option PositionId).
#[local] Abbreviation shows := (shows own).

Lemma shows_listed l m id :
  shows l m -> id ∈ map station_info_id l <-> is_Some (m !! id).
Proof.
  intros [_ Hall]. split.
  - intros ([i b] & -> & H)%list_elem_of_fmap. apply Hall in H as (p & Hp & _). by exists p.
  - intros [p Hp]. apply list_elem_of_fmap. exists (mkStationInfo id (bool_decide (own = Some p))).
    split; [done|]. apply Hall. eauto.
Qed.

(** The entry of a station in the list *)
Lemma shows_handoff l m id p q :
  shows l m -> m !! id = Some p ->
  shows (AppEvents.apply_station_change own l (Handoff id p q)) (<[id := q]> m).
Proof.
  intros Hs Hp. pose proof (proj2 (shows_listed l m id Hs) (mk_is_Some _ _ Hp)) as Hin.
  destruct Hs as [Hnd Hall]. cbn.
  destruct (list_find (λ s, station_info_id s = id) l) as [[i s]|] eqn:Hf.
  2:{ apply list_find_None in Hf. rewrite List.Forall_forall in Hf.
      apply list_elem_of_fmap in Hin as (s & -> & Hs). by destruct (Hf s); [apply list_elem_of_In|]. }
  apply list_find_Some in Hf as (Hi & Hid & _). subst id.
  assert (Hids : map station_info_id
    (<[i := mkStationInfo (station_info_id s) (bool_decide (own = Some q))]> l) = map station_info_id l).
  { change (@map StationInfo StationId) with (@fmap list _ StationInfo StationId).
    rewrite list_fmap_insert. apply list_insert_id. by rewrite list_lookup_fmap, Hi. }
  split; [by rewrite Hids|]. intros id b. split.
  - intros [j Hj]%list_elem_of_lookup. apply list_lookup_insert_Some in Hj as
      [(_ & [= <- <-] & _)|(Hne & Hj)].
    + exists q. by rewrite lookup_insert_eq.
    + apply list_elem_of_lookup_2 in Hj as Hl. apply Hall in Hl as (p' & Hp' & ->). exists p'.
      split; [|done]. rewrite lookup_insert_ne; [done|]. intros <-. apply Hne.
      eapply (NoDup_lookup (map station_info_id l)); [done|..];
        change (@map StationInfo StationId) with (@fmap list _ StationInfo StationId);
        rewrite list_lookup_fmap; [by rewrite Hi|by rewrite Hj].
  - intros (p' & Hp' & ->). apply lookup_insert_Some in Hp' as [[<- <-]|[Hne Hp']].
    + apply list_elem_of_lookup. exists i. apply list_lookup_insert_eq.
      by apply lookup_lt_Some in Hi.
    + assert (Hl : mkStationInfo id (bool_decide (own = Some p')) ∈ l) by (apply Hall; eauto).
      apply list_elem_of_lookup in Hl as [j Hj]. apply list_elem_of_lookup. exists j.
      rewrite list_lookup_insert_ne; [done|]. intros ->. rewrite Hi in Hj. injection Hj as ->.
      by apply Hne.
Qed.

Lemma shows_change l m c :
  shows l m -> fits m c -> shows (AppEvents.apply_station_change own l c) (apply_change m c).
Proof.
  intros Hs Hfit. destruct c as [id q|id p q|id].
  - cbn in Hfit. assert (Hnin : id ∉ map station_info_id l)
      by (rewrite (shows_listed l m id Hs), Hfit; by intros []).
    destruct Hs as [Hnd Hall]. split; cbn.
    + rewrite map_app. apply NoDup_app. split; [done|]. split; [|apply NoDup_singleton].
      intros x Hx ->%list_elem_of_singleton. done.
    + intros id' b. rewrite elem_of_app, list_elem_of_singleton, Hall. split.
      * intros [(p & Hp & ->)|[= -> ->]].
        -- exists p. split; [|done]. rewrite lookup_insert_ne; [done|]. intros <-. congruence.
        -- exists q. by rewrite lookup_insert_eq.
      * intros (p & [[<- <-]|[Hne Hp]]%lookup_insert_Some & ->); [by right|left; eauto].
  - destruct Hfit as [p0 Hp0]. by apply (shows_handoff l m id p0 q).
  - destruct Hs as [Hnd Hall]. split; cbn.
    + revert Hnd. clear. induction l as [|s l IH]; intros Hnd; [constructor|].
      cbn in Hnd. apply NoDup_cons in Hnd as [Hnin Hnd]. rewrite filter_cons.
      case_decide; [|by apply IH]. cbn. apply NoDup_cons. split; [|by apply IH].
      intros (d & Hd & [_ Hin]%list_elem_of_filter)%list_elem_of_fmap. apply Hnin, list_elem_of_fmap. eauto.
    + intros id' b. rewrite list_elem_of_filter, Hall. cbn. split.
      * intros [Hne (p & Hp & ->)]. exists p. by rewrite lookup_delete_ne.
      * intros (p & [Hne Hp]%lookup_delete_Some & ->). eauto 6.
Qed.

(** Changes that lead from one view to another lead from a list that shows the
    one to a list that shows the other. *)
Lemma shows_changes l m changes m' :
  shows l m -> leads m changes m' ->
  shows (foldl (AppEvents.apply_station_change own) l changes) m'.
Proof.
  intros Hs [Hnd Hfit <-]. revert l m Hs Hfit.
  induction changes as [|c changes IH]; intros l m Hs Hfit; [done|].
  cbn in Hnd. apply NoDup_cons in Hnd as [Hnin Hnd]. unfold apply_changes in *. cbn [foldl].
  apply (IH Hnd); [apply shows_change; [done|apply Hfit; left]|].
  intros d Hd. assert (Hne : change_station_id d <> change_station_id c)
    by (intros He; apply Hnin, list_elem_of_fmap; eauto).
  pose proof (Hfit d (list_elem_of_further _ _ _ Hd)) as Hfd.
  destruct d; cbn in *; by rewrite ?(apply_change_ne m c).
Qed.
End stations.

(** What a client with that position makes of the messages it is sent *)
Definition stations_after (own : option PositionId) : ClientId -> list StationInfo -> list Event ->
    list StationInfo :=
  hear_all_by (foldl (AppEvents.apply_station_change own)).

Section server.
Context {HO : HashOrder}.

End server.

