(* ===== verification/SignalingClient.v ===== *)
(** SignalingClient: the connection to the server, [vacs-signaling/src/client.rs],
    [matcher.rs] and the receiving half of [transport/tokio.rs]: when a connection
    counts as logged in, what may be sent, and when it is tried again.

    The transport, the token provider, the clock and the random numbers are
    arguments. The tasks (reader, writer, supervisor, user) take turns; a turn is
    one message, event or command. *)
From stdpp Require Import prelude strings list.
From Stdlib Require Import NArith.
From S2P Require Import Prelude Protocol Calls SignalingErrors.

Definition milliseconds (n : N) : Duration := (n * 1000000)%N.
Definition seconds (n : N) : Duration := (n * 1000000000)%N.

(** ** Waiting between attempts *)

Module RetryStrategy.
Definition base : Duration := milliseconds 100.
Definition cap : Duration := seconds 5.

(** [u128::saturating_mul] *)
Definition saturating_mul (a b : N) : N := N.min (a * b) (2 ^ 128 - 1).

Definition max_delay_nanos (attempt : N) : N :=
  N.min (saturating_mul base (N.shiftl 1 (N.min (attempt - 1) 63))) cap.

(** [random_range max] is some number from 0 to [max]. *)
Definition timeout (random_range : N -> N) (attempt : N) : Duration :=
  if (attempt =? 0)%N then 0%N
  else
    let max_delay_nanos := max_delay_nanos attempt in
    let jitter_nanos := if (max_delay_nanos =? 0)%N then 0%N else random_range max_delay_nanos in
    N.min jitter_nanos (2 ^ 64 - 1).
End RetryStrategy.

(** ** How often *)

Record ReconnectGate := mkReconnectGate {
  max_in_window : nat;
  window : Duration;
  cooldown : Duration;
  recent : list Instant;
  suppressed_until : option Instant
}.

Module ReconnectGate.
(** [None]: the assertion fails. *)
Definition new (max_in_window : nat) (window cooldown : Duration) : option ReconnectGate :=
  if 0 <? max_in_window then Some (mkReconnectGate max_in_window window cooldown [] None) else None.

Definition fresh : ReconnectGate := mkReconnectGate 3 (seconds 60) (seconds 120) [] None.

Definition set (g : ReconnectGate) (recent : list Instant) (until : option Instant) : ReconnectGate :=
  mkReconnectGate (max_in_window g) (window g) (cooldown g) recent until.

Fixpoint pruned (window : Duration) (now : Instant) (recent : list Instant) : list Instant :=
  match recent with
  | t :: rest => if (window <? duration_since now t)%N then pruned window now rest else recent
  | [] => []
  end.

Definition prune (g : ReconnectGate) (now : Instant) : ReconnectGate :=
  set g (pruned (window g) now (recent g)) (suppressed_until g).

Definition can_reconnect (g : ReconnectGate) (now : Instant) : Result () Instant * ReconnectGate :=
  let check g :=
    let g := prune g now in
    if max_in_window g <=? length (recent g) then
      let until := (now + cooldown g)%N in
      (Err until, set g (recent g) (Some until))
    else (Ok (), g) in
  match suppressed_until g with
  | Some until => if (now <? until)%N then (Err until, g) else check (set g (recent g) None)
  | None => check g
  end.

Definition on_reconnect (g : ReconnectGate) (now : Instant) : ReconnectGate :=
  prune (set g (recent g ++ [now]) (suppressed_until g)) now.

Definition clear (g : ReconnectGate) : ReconnectGate := set g [] None.
End ReconnectGate.

(** ** Waiters for a message ([ResponseMatcher]) *)

Record MatcherEntry := mkMatcherEntry { predicate : ServerMessage -> bool; responder : nat }.

Module ResponseMatcher.
Definition wait_for (queue : list MatcherEntry) (entry : MatcherEntry) : list MatcherEntry :=
  queue ++ [entry].

(** The first waiter whose predicate holds is answered and leaves the queue. *)
Fixpoint try_match (queue : list MatcherEntry) (msg : ServerMessage) :
    option nat * list MatcherEntry :=
  match queue with
  | [] => (None, [])
  | entry :: rest =>
    if predicate entry msg then (Some (responder entry), rest)
    else let (answered, rest) := try_match rest msg in (answered, entry :: rest)
  end.
End ResponseMatcher.

(** ** What comes over the wire ([TokioReceiver::recv]) *)

Inductive Frame :=
| FText (text : string)
| FClose
| FPing (data : string)
| FPong
| FOther
| FBroken (message : string).

Inductive Received :=
| Delivered (r : Result ServerMessage SignalingRuntimeError)
| StillWaiting.

(** The frames in the order they come, [deserialize] from the JSON library; the
    pongs that were sent. [pong_sent]: the writer takes them. [None] among the
    frames: the heartbeat gave the connection up. *)
Fixpoint receive (deserialize : string -> Result ServerMessage string) (pong_sent : bool)
    (frames : list (option Frame)) (ended : bool) : Received * list string :=
  match frames with
  | [] => (if ended then Delivered (Err (RE_Disconnected None)) else StillWaiting, [])
  | None :: _ => (Delivered (Err (RE_Disconnected None)), [])
  | Some frame :: rest =>
    match frame with
    | FText text =>
      (Delivered
         match deserialize text with
         | Ok (SM_Disconnected reason) => Err (RE_Disconnected (Some reason))
         | Ok msg => Ok msg
         | Err err => Err (RE_SerializationError err)
         end, [])
    | FClose => (Delivered (Err (RE_Disconnected None)), [])
    | FPing data =>
      if pong_sent then
        let (r, pongs) := receive deserialize pong_sent rest ended in (r, data :: pongs)
      else (Delivered (Err (RE_Disconnected None)), [])
    | FPong | FOther => receive deserialize pong_sent rest ended
    | FBroken message => (Delivered (Err (RE_Transport (TransportReceive message))), [])
    end
  end.

Definition HEARTBEAT_PING_INTERVAL : Duration := seconds 15.

Inductive Beat := BeatSkip | BeatAlive | BeatDisconnect.

(** A tick of the heartbeat task; [pinged]: the ping was handed to the writer,
    [answered]: a new pong came before the timeout. *)
Definition heartbeat_tick (delta since_last_rx : Duration) (pinged answered : bool) : Beat :=
  if (HEARTBEAT_PING_INTERVAL * 3 <? delta)%N then BeatDisconnect
  else if (since_last_rx <? HEARTBEAT_PING_INTERVAL / 2)%N then BeatSkip
  else if negb pinged then BeatDisconnect
  else if answered then BeatAlive else BeatDisconnect.

(** ** The client *)

(** [State::Disconnected], [State::Connected] and [State::LoggedIn] *)
Inductive State := StDisconnected | StConnected | StLoggedIn.

#[export] Instance State_eq_dec : EqDecision State.
Proof. solve_decision. Defined.

Inductive SignalingEvent :=
| EConnected (client_info : ClientInfo) (profile : ActiveProfile ProfileId)
    (default_call_sources : list StationId) (max_conf_size : option N)
| EMessage (msg : ServerMessage)
| EError (error : SignalingRuntimeError).

(** What the client did, for its transport and its user *)
Inductive ClientEffect :=
| Opened
| Transmitted (msg : ClientMessage)
| LoggedOn
| OnEvent (event : SignalingEvent)
| TerminateSession
| Slept (delay : Duration)
| Answered (responder : nat) (msg : ServerMessage).

(** [queue]: what was broadcast and the supervisor has not taken yet. *)
Record Client := mkClient {
  login_custom_profile : bool;
  reconnect_max_tries : nat;
  has_terminate_cb : bool;
  state : State;
  send_tx : bool;
  reader : bool;
  writer : bool;
  queue : list SignalingEvent;
  waiters : list MatcherEntry;
  position_id : option PositionId;
  reconnect_gate : ReconnectGate;
  supervised : bool;
  trace : list ClientEffect
}.

Module Client.
Section setters.
Context (c : Client).
Let mk st tx r w q ws p g sup t :=
  mkClient (login_custom_profile c) (reconnect_max_tries c) (has_terminate_cb c) st tx r w q ws p g
    sup t.
Definition with_connection st tx r w := mk st tx r w (queue c) (waiters c) (position_id c)
  (reconnect_gate c) (supervised c) (trace c).
Definition with_queue q := mk (state c) (send_tx c) (reader c) (writer c) q (waiters c)
  (position_id c) (reconnect_gate c) (supervised c) (trace c).
Definition with_waiters ws := mk (state c) (send_tx c) (reader c) (writer c) (queue c) ws
  (position_id c) (reconnect_gate c) (supervised c) (trace c).
Definition with_position p := mk (state c) (send_tx c) (reader c) (writer c) (queue c) (waiters c)
  p (reconnect_gate c) (supervised c) (trace c).
Definition with_gate g := mk (state c) (send_tx c) (reader c) (writer c) (queue c) (waiters c)
  (position_id c) g (supervised c) (trace c).
Definition with_supervised sup := mk (state c) (send_tx c) (reader c) (writer c) (queue c)
  (waiters c) (position_id c) (reconnect_gate c) sup (trace c).
Definition did e := mk (state c) (send_tx c) (reader c) (writer c) (queue c) (waiters c)
  (position_id c) (reconnect_gate c) (supervised c) (trace c ++ [e]).
End setters.

Definition new (custom_profile : bool) (max_tries : nat) (terminate_cb : bool) : Client :=
  mkClient custom_profile max_tries terminate_cb StDisconnected false false false [] [] None
    ReconnectGate.fresh true [].

Definition broadcast (c : Client) (event : SignalingEvent) : Client :=
  with_queue c (queue c ++ [event]).

Definition set_state (c : Client) (st : State) : Client :=
  with_connection c st (send_tx c) (reader c) (writer c).

(** *** Sending and receiving *)

Definition is_login (msg : ClientMessage) : bool :=
  match msg with CM_Login _ => true | _ => false end.

Definition not_connected {A : Type} : Result A SignalingError :=
  Err (SE_Runtime (RE_Disconnected None)).

(** [serialized]: what the JSON library answers. The writer's channel is open
    while the writer runs. *)
Definition send (serialized : Result () string) (msg : ClientMessage) (c : Client) : 
    Result () SignalingError * Client :=
  let transmit :=
    if negb (send_tx c) then (not_connected, c)
    else
      match serialized with
      | Err err => (Err (SE_Runtime (RE_SerializationError err)), c)
      | Ok _ => if writer c then (Ok (), did c (Transmitted msg)) else (not_connected, c)
      end in
  match state c with
  | StDisconnected => (not_connected, c)
  | StConnected => if is_login msg then transmit else (not_connected, c)
  | StLoggedIn => transmit
  end.

Definition emit_task_error (c : Client) (err : SignalingRuntimeError) : Client :=
  if decide (state c = StLoggedIn) then broadcast c (EError err) else c.

(** A turn of [reader_task] *)
Definition reader_turn (r : Result ServerMessage SignalingRuntimeError) (c : Client) : Client :=
  match r with
  | Ok SM_Unknown => c
  | Ok message =>
    let (answered, rest) := ResponseMatcher.try_match (waiters c) message in
    let c := with_waiters c rest in
    let c := match answered with Some responder => did c (Answered responder message) | None => c end in
    broadcast c (EMessage message)
  | Err (RE_SerializationError err) => broadcast c (EError (RE_SerializationError err))
  | Err err =>
    let c := emit_task_error c err in
    with_connection c (state c) (send_tx c) false (writer c)
  end.

(** A failed send of [writer_task] *)
Definition writer_fails (err : SignalingRuntimeError) (c : Client) : Client :=
  let c := emit_task_error c err in
  with_connection c (state c) (send_tx c) (reader c) false.

(** [serialized]: of the logout message *)
Definition disconnect (requested : bool) (serialized : Result () string) (c : Client) : Client :=
  let c := if decide (state c = StDisconnected) then c else (send serialized CM_Logout c).2 in
  let c := with_waiters (with_connection c StDisconnected false false false) [] in
  if requested then with_gate c (ReconnectGate.clear (reconnect_gate c)) else c.

(** *** Logging in *)

(** What an attempt to connect meets: the transport, the token provider, the
    sending of the login message, what the reader gets before the login is
    answered, and how the waiting ends if no message comes. The client subscribes
    to the reader's messages only after it has sent the login, so [incoming] are
    those that come after that. *)
Record Attempt := mkAttempt {
  transport : Result () SignalingError;
  token : Result string SignalingError;
  serialized : Result () string;
  incoming : list (Result ServerMessage SignalingRuntimeError);
  unanswered : SignalingError
}.

(** [unanswered] is a time-out, a shutdown or a lag of the receiver. *)
Definition waiting_error (err : SignalingError) : bool :=
  match err with SE_Timeout _ | SE_Other _ => true | _ => false end.

Fixpoint first_message (incoming : list (Result ServerMessage SignalingRuntimeError)) :
    option ServerMessage :=
  match incoming with
  | [] => None
  | Ok SM_Unknown :: rest | Err (RE_SerializationError _) :: rest => first_message rest
  | Ok msg :: _ => Some msg
  | Err _ :: _ => None
  end.

(** The reader stops at its first error. *)
Fixpoint read_all (incoming : list (Result ServerMessage SignalingRuntimeError)) (c : Client) :
    Client :=
  match incoming with
  | [] => c
  | r :: rest =>
    let c := reader_turn r c in
    match r with
    | Ok _ | Err (RE_SerializationError _) => read_all rest c
    | Err _ => c
    end
  end.

Definition LoginInfo : Type := ClientInfo * ActiveProfile ProfileId * list StationId * option N.

Definition PROTOCOL_VERSION : string := "3.0.0".

Definition login (a : Attempt) (c : Client) : Result LoginInfo SignalingError * Client :=
  match token a with
  | Err err => (Err err, c)
  | Ok token =>
    let msg := CM_Login (mkLogin token PROTOCOL_VERSION (login_custom_profile c) (position_id c)) in
    let (sent, c) := send (serialized a) msg c in
    match sent with
    | Err err => (Err err, c)
    | Ok _ =>
      let c := read_all (incoming a) c in
      (match first_message (incoming a) with
       | None => Err (unanswered a)
       | Some (SM_SessionInfo info) =>
         match si_profile info with
         | Changed profile =>
           Ok (si_client info, profile, si_default_call_sources info, si_max_conf_size info)
         | Unchanged => Err (SE_ProtocolError "Expected active profile after Login")
         end
       | Some (SM_LoginFailure reason) => Err (SE_LoginError reason)
       | Some (SM_Error error) => Err (SE_Runtime (RE_ServerError (error_reason error)))
       | Some _ => Err (SE_ProtocolError "Expected own session info after Login")
       end, c)
    end
  end.

Definition connect (a : Attempt) (c : Client) : Result () SignalingError * Client :=
  match transport a with
  | Err err => (Err err, c)
  | Ok _ =>
    let c := did (with_connection c StConnected true true true) Opened in
    let (logged_in, c) := login a c in
    match logged_in with
    | Ok (client_info, profile, default_call_sources, max_conf_size) =>
      let c := did (set_state c StLoggedIn) LoggedOn in
      (Ok (), broadcast c (EConnected client_info profile default_call_sources max_conf_size))
    | Err err => (Err err, disconnect false (Ok ()) c)
    end
  end.

(** *** Connecting again *)

(** [RPanic]: the error of the last attempt has no reason ([unreachable!]). *)
Inductive Reconnected := ROk | RFailed (reason : ReconnectFailureReason) | RPanic.

(** What happens meanwhile: the attempts by number, the random numbers, whether
    a shutdown interrupts the sleep after an attempt. *)
Record Meanwhile := mkMeanwhile {
  attempts : nat -> Attempt;
  random_range : nat -> N -> N;
  shutdown_during : nat -> bool
}.

(** The attempts from number [attempt] on, [remaining] of them *)
Fixpoint reconnect_loop (m : Meanwhile) (terminate : bool) (remaining attempt : nat)
    (reconnect_error : SignalingError) (c : Client) : Reconnected * Client :=
  match remaining with
  | 0 =>
    (match reconnect_failure_reason reconnect_error with
     | Some reason => RFailed reason
     | None => RPanic
     end, c)
  | S remaining =>
    let c := if terminate && has_terminate_cb c then did c TerminateSession else c in
    match connect (attempts m attempt) c with
    | (Ok _, c) => (ROk, c)
    | (Err err, c) =>
      if 0 <? remaining then
        let delay := RetryStrategy.timeout (random_range m attempt) (N.of_nat attempt) in
        if shutdown_during m attempt then (ROk, c)
        else reconnect_loop m terminate remaining (S attempt) err (did c (Slept delay))
      else reconnect_loop m terminate remaining (S attempt) err c
    end
  end.

Definition reconnect (m : Meanwhile) (terminate : bool) (c : Client) : Reconnected * Client :=
  if reconnect_max_tries c =? 0 then (ROk, c)
  else reconnect_loop m terminate (reconnect_max_tries c) 1 (SE_Other "Unknown") c.

(** *** The supervisor *)

Definition after_fatal (m : Meanwhile) (now later : Instant) (err : SignalingRuntimeError)
    (c : Client) : Client :=
  if negb (can_reconnect err) then c
  else
    match ReconnectGate.can_reconnect (reconnect_gate c) now with
    | (Err until, gate) =>
      with_gate (broadcast c (EError (RE_ReconnectSuppressed until))) (ReconnectGate.clear gate)
    | (Ok _, gate) =>
      let c := with_gate c (ReconnectGate.on_reconnect gate later) in
      match reconnect m (needs_session_terminate err) c with
      | (ROk, c) => c
      | (RFailed reason, c) => broadcast c (EError (RE_ReconnectFailed reason))
      | (RPanic, c) => with_supervised c false
      end
    end.

(** The next event is taken; [now] and [later]: when the gate is asked and told. *)
Definition supervise (m : Meanwhile) (now later : Instant) (c : Client) : Client :=
  match queue c with
  | [] => c
  | event :: rest =>
    if negb (supervised c) then c
    else
      let c := did (with_queue c rest) (OnEvent event) in
      match event with
      | EError err =>
        if is_fatal err then after_fatal m now later err (disconnect false (Ok ()) c) else c
      | _ => c
      end
  end.
End Client.

(** ** Steps and runs *)

Inductive ClientStep :=
| UserConnects (position : option PositionId) (a : Client.Attempt)
| UserDisconnects (serialized : Result () string)
| UserSends (serialized : Result () string) (msg : ClientMessage)
| UserWaits (entry : MatcherEntry)
| ReaderGets (r : Result ServerMessage SignalingRuntimeError)
| WriterFails (err : SignalingRuntimeError)
| SupervisorTurn (m : Client.Meanwhile) (now later : Instant)
| SupervisorLags (skipped : nat).

(** [AppStateSignalingExt::connect_signaling] connects only what is disconnected;
    a task takes a turn only while it runs. *)
Definition client_step (c : Client) (step : ClientStep) : Client :=
  match step with
  | UserConnects position a =>
    if decide (state c = StDisconnected) then
      (Client.connect a (Client.with_position c position)).2
    else c
  | UserDisconnects serialized => Client.disconnect true serialized c
  | UserSends serialized msg => (Client.send serialized msg c).2
  | UserWaits entry => Client.with_waiters c (ResponseMatcher.wait_for (waiters c) entry)
  | ReaderGets r => if reader c then Client.reader_turn r c else c
  | WriterFails err => if writer c then Client.writer_fails err c else c
  | SupervisorTurn m now later => Client.supervise m now later c
  | SupervisorLags skipped => Client.with_queue c (drop skipped (queue c))
  end.

Definition client_run (c : Client) (steps : list ClientStep) : Client := foldl client_step c steps.
