(* ===== verification/SignalingLogic.v ===== *)
(** SignalingLogic: lemmas about the connection to the server: what an attempt
    ends with, what a run keeps, and how often the gate opens. *)
From stdpp Require Import prelude strings list sorting.
From Stdlib Require Import NArith.
From S2P Require Import Prelude Protocol Calls SignalingErrors SignalingClient.
Import Client.

(** ** The invariant *)

(** Between turns a client is logged in or has no connection at all. *)
Record client_ok (c : Client) : Prop := {
  ok_settled : state c <> StConnected;
  ok_send_tx : send_tx c = bool_decide (state c = StLoggedIn);
  ok_reader : reader c = true -> state c = StLoggedIn;
  ok_writer : writer c = true -> state c = StLoggedIn
}.

(** ... and nothing but a login was sent over a connection before it was logged in. *)
Definition phase (logged_on : bool) (e : ClientEffect) : bool :=
  match e with Opened => false | LoggedOn => true | _ => logged_on end.

Definition allowed (logged_on : bool) (e : ClientEffect) : bool :=
  match e with Transmitted msg => logged_on || is_login msg | _ => true end.

Fixpoint disciplined (logged_on : bool) (l : list ClientEffect) : bool :=
  match l with
  | [] => true
  | e :: l => allowed logged_on e && disciplined (phase logged_on e) l
  end.

Definition phase_of (l : list ClientEffect) : bool := foldl phase false l.

Lemma phase_of_snoc l e : phase_of (l ++ [e]) = phase (phase_of l) e.
Proof. unfold phase_of. by rewrite foldl_app. Qed.

Lemma disciplined_snoc l e :
  disciplined false (l ++ [e]) = disciplined false l && allowed (phase_of l) e.
Proof.
  unfold phase_of. generalize false as b. induction l as [|x l IH]; intros b; cbn.
  - by rewrite andb_true_r.
  - by rewrite IH, andb_assoc.
Qed.

(** [st]: the state the client is in; within an attempt it is [StConnected]. *)
Definition orderly (c : Client) : Prop :=
  disciplined false (trace c) = true /\ (state c = StLoggedIn -> phase_of (trace c) = true).

(** What does not matter for the trace *)
Lemma orderly_did c e :
  (forall msg, e <> Transmitted msg) -> e <> Opened -> orderly c -> orderly (did c e).
Proof.
  intros Hm Ho [H1 H2]. split; cbn.
  - rewrite disciplined_snoc, H1. destruct e; try done. by edestruct Hm.
  - intros Hs. rewrite phase_of_snoc, (H2 Hs). by destruct e; try (by destruct Ho).
Qed.

Lemma orderly_same c c' :
  trace c' = trace c -> (state c' = StLoggedIn -> state c = StLoggedIn) -> orderly c -> orderly c'.
Proof. intros Ht Hs [H1 H2]. split; rewrite Ht; auto. Qed.

Lemma orderly_broadcast c e : orderly c -> orderly (broadcast c e).
Proof. by apply orderly_same. Qed.

Lemma orderly_send serialized msg c : orderly c -> orderly (send serialized msg c).2.
Proof.
  intros H. pose proof H as [H1 H2]. unfold send. destruct (state c) eqn:Hs; [done| |].
  - destruct (is_login msg) eqn:Hl; [|done].
    destruct (negb (send_tx c)); [done|]. destruct serialized; [|done].
    destruct (writer c); [|done]. split; cbn.
    + rewrite disciplined_snoc, H1. cbn. by rewrite Hl, orb_true_r.
    + by rewrite Hs.
  - destruct (negb (send_tx c)); [done|]. destruct serialized; [|done].
    destruct (writer c); [|done]. split; cbn.
    + rewrite disciplined_snoc, H1. cbn. by rewrite H2.
    + intros _. rewrite phase_of_snoc. by apply H2.
Qed.

Lemma send_frame serialized msg c :
  let c' := (send serialized msg c).2 in
  state c' = state c /\ send_tx c' = send_tx c /\ reader c' = reader c /\ writer c' = writer c /\
  queue c' = queue c /\ reconnect_gate c' = reconnect_gate c.
Proof. unfold send. by repeat case_match. Qed.

Lemma orderly_reader_turn r c : orderly c -> orderly (reader_turn r c).
Proof.
  intros H.
  assert (Hstop : forall err, orderly (let c := emit_task_error c err in
    with_connection c (state c) (send_tx c) false (writer c))).
  { intros err. cbv zeta. unfold emit_task_error. case_decide; by apply (orderly_same c). }
  assert (Hmsg : forall m, orderly (
    let (answered, rest) := ResponseMatcher.try_match (waiters c) m in
    let c := with_waiters c rest in
    let c := match answered with Some responder => did c (Answered responder m) | None => c end in
    broadcast c (EMessage m))).
  { intros m. destruct (ResponseMatcher.try_match (waiters c) m) as [[responder|] rest].
    - apply orderly_broadcast, orderly_did; [done..|]. by apply (orderly_same c).
    - by apply (orderly_same c). }
  destruct r as [m|err]; [by destruct m; try apply Hmsg|].
  destruct err; try apply Hstop. by apply (orderly_same c).
Qed.

Lemma reader_turn_frame r c :
  let c' := reader_turn r c in
  state c' = state c /\ send_tx c' = send_tx c /\ writer c' = writer c /\
  (reader c' = true -> reader c = true) /\ reconnect_gate c' = reconnect_gate c /\
  exists l, queue c' = queue c ++ l.
Proof.
  assert (Hnil : exists l, queue c = queue c ++ l) by (exists []; by rewrite app_nil_r).
  assert (Hstop : forall err, let c' := (let c := emit_task_error c err in
      with_connection c (state c) (send_tx c) false (writer c)) in
    state c' = state c /\ send_tx c' = send_tx c /\ writer c' = writer c /\
    (reader c' = true -> reader c = true) /\ reconnect_gate c' = reconnect_gate c /\
    exists l, queue c' = queue c ++ l).
  { intros err. cbv zeta. unfold emit_task_error. case_decide; split_and!; try done; by eexists. }
  destruct r as [m|err]; [destruct m|destruct err]; cbn [reader_turn]; try apply Hstop;
    try (destruct (ResponseMatcher.try_match _ _) as [[?|] ?]); split_and!; try done; by eexists.
Qed.

Lemma read_all_frame l c :
  let c' := read_all l c in
  state c' = state c /\ send_tx c' = send_tx c /\ writer c' = writer c /\
  reconnect_gate c' = reconnect_gate c /\ (exists l, queue c' = queue c ++ l) /\
  (orderly c -> orderly c').
Proof.
  revert c. induction l as [|r l IH]; intros c; cbn [read_all].
  { split_and!; try done. exists []. by rewrite app_nil_r. }
  destruct (reader_turn_frame r c) as (H1 & H2 & H3 & H4 & H5 & [l1 H6]).
  pose proof (orderly_reader_turn r c) as Ho.
  destruct (IH (reader_turn r c)) as (G1 & G2 & G3 & G4 & [l2 G5] & G6).
  assert (Hone : let c' := reader_turn r c in
    state c' = state c /\ send_tx c' = send_tx c /\ writer c' = writer c /\
    reconnect_gate c' = reconnect_gate c /\ (exists l, queue c' = queue c ++ l) /\
    (orderly c -> orderly c')) by (split_and!; eauto).
  assert (Hall : let c' := read_all l (reader_turn r c) in
    state c' = state c /\ send_tx c' = send_tx c /\ writer c' = writer c /\
    reconnect_gate c' = reconnect_gate c /\ (exists l, queue c' = queue c ++ l) /\
    (orderly c -> orderly c')).
  { split_and!; try congruence; [|auto]. exists (l1 ++ l2). by rewrite G5, H6, app_assoc. }
  destruct r as [m|err]; [exact Hall|]. destruct err; try exact Hone. exact Hall.
Qed.

(** ** What an attempt ends with *)

(** How often the server was asked to end the old session *)
Fixpoint terminations (l : list ClientEffect) : nat :=
  match l with
  | [] => 0
  | TerminateSession :: l => S (terminations l)
  | _ :: l => terminations l
  end.

Lemma terminations_snoc l e :
  terminations (l ++ [e]) = terminations l + match e with TerminateSession => 1 | _ => 0 end.
Proof. induction l as [|x l IH]; cbn; [by destruct e|]. rewrite IH. destruct x; lia. Qed.

Lemma send_terminations serialized msg c :
  terminations (trace (send serialized msg c).2) = terminations (trace c).
Proof. unfold send. repeat case_match; cbn; rewrite ?terminations_snoc; lia. Qed.

Lemma read_all_terminations l c : terminations (trace (read_all l c)) = terminations (trace c).
Proof.
  revert c. induction l as [|r l IH]; intros c; [done|].
  assert (Ht : terminations (trace (reader_turn r c)) = terminations (trace c)).
  { unfold reader_turn, emit_task_error. repeat case_match; cbn; rewrite ?terminations_snoc; lia. }
  cbn [read_all]. repeat case_match; rewrite ?IH; done.
Qed.

(** The answer to the login, from what is received *)
Definition answer (a : Attempt) : Result LoginInfo SignalingError :=
  match first_message (incoming a) with
  | None => Err (unanswered a)
  | Some (SM_SessionInfo info) =>
    match si_profile info with
    | Changed profile =>
      Ok (si_client info, profile, si_default_call_sources info, si_max_conf_size info)
    | Unchanged => Err (SE_ProtocolError "Expected active profile after Login")
    end
  | Some (SM_LoginFailure reason) => Err (SE_LoginError reason)
  | Some (SM_Error error) => Err (SE_Runtime (RE_ServerError (error_reason error)))
  | Some _ => Err (SE_ProtocolError "Expected own session info after Login")
  end.

Definition login_of (a : Attempt) : Result LoginInfo SignalingError :=
  match transport a, token a, serialized a with
  | Err err, _, _ => Err err
  | _, Err err, _ => Err err
  | _, _, Err err => Err (SE_Runtime (RE_SerializationError err))
  | Ok _, Ok _, Ok _ => answer a
  end.

Definition connected_event (info : LoginInfo) : SignalingEvent :=
  let '(client_info, profile, sources, size) := info in EConnected client_info profile sources size.

(** What an attempt does not touch *)
Record same_setup (c c' : Client) : Prop := {
  same_gate : reconnect_gate c' = reconnect_gate c;
  same_tries : reconnect_max_tries c' = reconnect_max_tries c;
  same_cb : has_terminate_cb c' = has_terminate_cb c;
  same_supervised : supervised c' = supervised c
}.

Lemma same_setup_refl c : same_setup c c.
Proof. by split. Qed.

Lemma same_setup_trans c c' c'' : same_setup c c' -> same_setup c' c'' -> same_setup c c''.
Proof. intros [] []. split; congruence. Qed.

Lemma send_setup serialized msg c : same_setup c (send serialized msg c).2.
Proof. unfold send. by repeat case_match. Qed.

Lemma reader_turn_setup r c : same_setup c (reader_turn r c).
Proof. unfold reader_turn, emit_task_error. by repeat case_match. Qed.

Lemma read_all_setup l c : same_setup c (read_all l c).
Proof.
  revert c. induction l as [|r l IH]; intros c; [done|]. cbn [read_all].
  pose proof (reader_turn_setup r c) as Hr.
  assert (Hall : same_setup c (read_all l (reader_turn r c)))
    by (eapply same_setup_trans; [exact Hr|apply IH]).
  by repeat case_match.
Qed.

(** The client after an attempt *)
Record attempted (a : Attempt) (c c' : Client) : Prop := {
  at_ok : client_ok c';
  at_orderly : orderly c -> orderly c';
  at_setup : same_setup c c';
  at_terminations : terminations (trace c') = terminations (trace c);
  at_queue : exists l, queue c' =
    queue c ++ l ++ match login_of a with Ok info => [connected_event info] | Err _ => [] end;
  at_state : state c' = match login_of a with Ok _ => StLoggedIn | Err _ => StDisconnected end
}.

Lemma login_spec a c :
  state c = StConnected -> send_tx c = true -> writer c = true ->
  let r := login a c in
  (forall u, transport a = Ok u -> r.1 = login_of a) /\
  state r.2 = StConnected /\ send_tx r.2 = true /\ writer r.2 = true /\
  same_setup c r.2 /\ terminations (trace r.2) = terminations (trace c) /\
  (exists l, queue r.2 = queue c ++ l) /\ (orderly c -> orderly r.2).
Proof.
  intros Hs Htx Hw. cbv zeta. unfold login, login_of.
  destruct (token a) as [tok|err].
  2:{ split_and!; try done; [by intros u ->|]. exists []. by rewrite app_nil_r. }
  set (msg := CM_Login _).
  pose proof (orderly_send (serialized a) msg c) as Ho.
  pose proof (send_setup (serialized a) msg c) as Hsetup.
  pose proof (send_terminations (serialized a) msg c) as Ht.
  destruct (send_frame (serialized a) msg c) as (F1 & F2 & _ & F4 & F5 & _).
  assert (Hr : (send (serialized a) msg c).1 =
    match serialized a with Ok _ => Ok () | Err err => Err (SE_Runtime (RE_SerializationError err)) end)
    by (unfold send; rewrite Hs, Htx, Hw; cbn; by destruct (serialized a)).
  destruct (send (serialized a) msg c) as [r c1]. cbn in *. subst r.
  destruct (serialized a) as [u|err].
  - destruct (read_all_frame (incoming a) c1) as (G1 & G2 & G3 & _ & [l G5] & G6). cbn.
    pose proof (read_all_setup (incoming a) c1) as Hsetup2.
    pose proof (read_all_terminations (incoming a) c1) as Ht2.
    split_and!; try congruence; [by intros ? ->|by eapply same_setup_trans| |auto].
    exists l. by rewrite G5, F5.
  - cbn. split_and!; try congruence; [by intros ? ->|exists []; by rewrite app_nil_r|auto].
Qed.

Lemma orderly_opened c : orderly c -> orderly (did (with_connection c StConnected true true true) Opened).
Proof. intros [H1 H2]. split; [|done]. cbn. by rewrite disciplined_snoc, H1. Qed.

Lemma orderly_logged_on c : orderly c -> orderly (did (set_state c StLoggedIn) LoggedOn).
Proof.
  intros [H1 H2]. split; cbn; [by rewrite disciplined_snoc, H1|]. intros _. by rewrite phase_of_snoc.
Qed.

(** The queue, the gate and the trace outlive a connection. *)
Lemma disconnect_spec requested serialized c :
  let c' := disconnect requested serialized c in
  client_ok c' /\ (orderly c -> orderly c') /\ state c' = StDisconnected /\ queue c' = queue c /\
  terminations (trace c') = terminations (trace c) /\
  reconnect_max_tries c' = reconnect_max_tries c /\ has_terminate_cb c' = has_terminate_cb c /\
  supervised c' = supervised c /\
  reconnect_gate c' = if requested then ReconnectGate.clear (reconnect_gate c) else reconnect_gate c.
Proof.
  cbv zeta. unfold disconnect.
  set (c1 := if decide (state c = StDisconnected) then c else (send serialized CM_Logout c).2).
  assert (H1 : same_setup c c1) by (subst c1; case_decide; [done|apply send_setup]).
  assert (H2 : queue c1 = queue c) by (subst c1; case_decide; [done|apply send_frame]).
  assert (H3 : orderly c -> orderly c1) by (subst c1; case_decide; [done|apply orderly_send]).
  assert (H4 : terminations (trace c1) = terminations (trace c))
    by (subst c1; case_decide; [done|apply send_terminations]).
  destruct H1 as [G1 G2 G3 G4]. clearbody c1.
  assert (Ho : orderly c ->
    orderly (with_waiters (with_connection c1 StDisconnected false false false) []))
    by (intros H; apply (orderly_same c1); auto; done).
  destruct requested; cbn; rewrite ?G1; split_and!; try done; by split.
Qed.

(** An attempt succeeds exactly when its login does. *)
Lemma connect_spec a c :
  client_ok c -> state c = StDisconnected ->
  attempted a c (connect a c).2 /\
  (connect a c).1 = match login_of a with Ok _ => Ok () | Err err => Err err end.
Proof.
  intros Hok Hs. unfold connect. destruct (transport a) as [u|err] eqn:Htr.
  2:{ unfold login_of. rewrite Htr. split; [|done]. split; try done.
      - unfold login_of. rewrite Htr. exists []. by rewrite app_nil_r.
      - unfold login_of. by rewrite Htr. }
  set (c1 := did _ Opened).
  pose proof (orderly_opened c) as Ho. change (orderly c -> orderly c1) in Ho.
  assert (Ht1 : terminations (trace c1) = terminations (trace c))
    by (cbn; rewrite terminations_snoc; lia).
  assert (Hs1 : same_setup c c1) by by split.
  assert (Hq1 : queue c1 = queue c) by done.
  destruct (login_spec a c1) as (Hr & H1 & H2 & H3 & H4 & H5 & [l H6] & H7); [done..|].
  destruct (login a c1) as [r c2]. cbn in Hr, H1, H2, H3, H4, H5, H6, H7.
  rewrite (Hr u Htr) in *. clear Hr. destruct (login_of a) as [[[[info profile] sources] size]|err] eqn:Hl.
  - split; [|done]. split; rewrite ?Hl.
    + by split.
    + intros H. apply orderly_broadcast, orderly_logged_on. auto.
    + eapply same_setup_trans; [exact Hs1|]. destruct H4. by split.
    + cbn. rewrite terminations_snoc. cbn in *. lia.
    + exists l. cbn. by rewrite H6, <- app_assoc.
    + done.
  - destruct (disconnect_spec false (Ok ()) c2) as (D1 & D2 & D3 & D4 & D5 & D6 & D7 & D8 & D9).
    split; [|done]. split; rewrite ?Hl; try done.
    + auto.
    + destruct H4 as [K1 K2 K3 K4], Hs1 as [L1 L2 L3 L4].
      change (reconnect_gate (disconnect false (Ok ()) c2) = reconnect_gate c2) in D9.
      split; cbn [snd]; congruence.
    + cbn in *. lia.
    + exists l. cbn [snd]. by rewrite D4, H6, app_nil_r.
Qed.

(** ** Connecting again *)

(** The session is ended before an attempt. *)
Definition before_attempt (terminate : bool) (c : Client) : Client :=
  if terminate && has_terminate_cb c then did c TerminateSession else c.

Lemma before_attempt_spec terminate c :
  client_ok c ->
  let c' := before_attempt terminate c in
  client_ok c' /\ (orderly c -> orderly c') /\ same_setup c c' /\ queue c' = queue c /\
  state c' = state c /\
  terminations (trace c') =
    terminations (trace c) + (if terminate && has_terminate_cb c then 1 else 0).
Proof.
  intros Hok. cbv zeta. unfold before_attempt. destruct (terminate && has_terminate_cb c).
  - split_and!; try done; [destruct Hok; by split|intros Ho; by apply orderly_did|cbn; by rewrite terminations_snoc].
  - split_and!; try done.
Qed.

(** One attempt of the loop *)
Lemma attempt_spec terminate a c :
  client_ok c -> state c = StDisconnected ->
  let r := connect a (before_attempt terminate c) in
  client_ok r.2 /\ (orderly c -> orderly r.2) /\ same_setup c r.2 /\
  (exists l, queue r.2 =
    queue c ++ l ++ match login_of a with Ok info => [connected_event info] | Err _ => [] end) /\
  terminations (trace r.2) =
    terminations (trace c) + (if terminate && has_terminate_cb c then 1 else 0) /\
  state r.2 = match login_of a with Ok _ => StLoggedIn | Err _ => StDisconnected end /\
  r.1 = match login_of a with Ok _ => Ok () | Err err => Err err end.
Proof.
  intros Hok Hs. cbv zeta.
  destruct (before_attempt_spec terminate c Hok) as (B1 & B2 & B3 & B4 & B5 & B6).
  destruct (connect_spec a (before_attempt terminate c)) as [[A1 A2 A3 A4 A5 A6] A7];
    [done|congruence|]. rewrite B4 in A5.
  split_and!; try done; [auto|by eapply same_setup_trans|congruence].
Qed.

Section reconnect.
Context (m : Meanwhile) (terminate : bool).

(** What every course of the loop keeps *)
Record kept (c c' : Client) : Prop := {
  kept_ok : client_ok c';
  kept_orderly : orderly c -> orderly c';
  kept_setup : same_setup c c';
  kept_queue : exists l, queue c' = queue c ++ l
}.

Lemma kept_refl c : client_ok c -> kept c c.
Proof. intros H. split; try done. exists []. by rewrite app_nil_r. Qed.

Lemma still_kept c c' c'' : kept c c' -> kept c' c'' -> kept c c''.
Proof.
  intros [H1 H2 H3 [l H4]] [G1 G2 G3 [l' G4]].
  split; [done|auto|by eapply same_setup_trans|]. exists (l ++ l'). by rewrite G4, H4, app_assoc.
Qed.

Lemma kept_did c e :
  (forall msg, e <> Transmitted msg) -> e <> Opened -> client_ok c -> kept c (did c e).
Proof.
  intros H1 H2 [K1 K2 K3 K4]. split; [by split|by apply orderly_did|done|].
  exists []. by rewrite app_nil_r.
Qed.

Lemma slept_state c d : state (did c (Slept d)) = state c /\
  terminations (trace (did c (Slept d))) = terminations (trace c).
Proof. split; [done|]. cbn. rewrite terminations_snoc. lia. Qed.

Lemma reconnect_loop_eq remaining attempt e c :
  reconnect_loop m terminate (S remaining) attempt e c =
  match connect (attempts m attempt) (before_attempt terminate c) with
  | (Ok _, c) => (ROk, c)
  | (Err err, c) =>
    if 0 <? remaining then
      if shutdown_during m attempt then (ROk, c)
      else reconnect_loop m terminate remaining (S attempt) err
        (did c (Slept (RetryStrategy.timeout (random_range m attempt) (N.of_nat attempt))))
    else reconnect_loop m terminate remaining (S attempt) err c
  end.
Proof. done. Qed.

Lemma reconnect_loop_kept remaining : forall attempt e c,
  client_ok c -> state c = StDisconnected -> kept c (reconnect_loop m terminate remaining attempt e c).2.
Proof.
  induction remaining as [|remaining IH]; intros attempt e c Hok Hs; [by apply kept_refl|].
  rewrite reconnect_loop_eq.
  destruct (attempt_spec terminate (attempts m attempt) c Hok Hs) as (A1 & A2 & A3 & [l A4] & _ & A6 & A7).
  assert (Hk : kept c (connect (attempts m attempt) (before_attempt terminate c)).2)
    by (split; eauto).
  destruct (connect _ _) as [r c1]. cbn [fst snd] in *. subst r.
  destruct (login_of (attempts m attempt)) as [info|err]; [done|].
  destruct (0 <? remaining).
  - destruct (shutdown_during m attempt); [done|]. eapply still_kept; [exact Hk|].
    set (c2 := did c1 _). assert (Hd : kept c1 c2) by by apply kept_did.
    eapply still_kept; [exact Hd|]. apply IH; [apply Hd|done].
  - eapply still_kept; [exact Hk|]. by apply IH.
Qed.

(** The first attempt that is logged in ends the loop. *)
Lemma reconnect_loop_succeeds k : forall remaining attempt e c info,
  client_ok c -> state c = StDisconnected -> k < remaining ->
  (forall i, i < k -> (exists err, login_of (attempts m (attempt + i)) = Err err) /\
    shutdown_during m (attempt + i) = false) ->
  login_of (attempts m (attempt + k)) = Ok info ->
  let r := reconnect_loop m terminate remaining attempt e c in
  r.1 = ROk /\ state r.2 = StLoggedIn /\
  (exists l, queue r.2 = queue c ++ l ++ [connected_event info]) /\
  terminations (trace r.2) =
    terminations (trace c) + (if terminate && has_terminate_cb c then S k else 0).
Proof.
  induction k as [|k IH]; intros remaining attempt e c info Hok Hs Hk Hbad Hgood;
    (destruct remaining as [|remaining]; [lia|]); cbv zeta; rewrite reconnect_loop_eq;
    destruct (attempt_spec terminate (attempts m attempt) c Hok Hs) as (A1 & A2 & A3 & [l A4] & A5 & A6 & A7);
    destruct (connect _ _) as [r c1]; cbn [fst snd] in *; subst r.
  - rewrite Nat.add_0_r in Hgood. rewrite Hgood in *. split_and!; [done..|by eexists|done].
  - destruct (Hbad 0 ltac:(lia)) as [[err Herr] Hsd]. rewrite Nat.add_0_r in Herr, Hsd.
    rewrite Herr in *. rewrite (proj2 (Nat.ltb_lt 0 remaining)) by lia. rewrite Hsd.
    set (c2 := did c1 _). destruct (slept_state c1 (RetryStrategy.timeout (random_range m attempt)
      (N.of_nat attempt))) as [S1 S2]. change (state c2 = state c1) in S1.
    change (terminations (trace c2) = terminations (trace c1)) in S2.
    assert (Hok2 : client_ok c2) by by apply kept_did.
    assert (Hs2 : state c2 = StDisconnected) by congruence.
    assert (Hcb : has_terminate_cb c2 = has_terminate_cb c) by apply A3.
    assert (Hbad2 : forall i, i < k -> (exists err, login_of (attempts m (S attempt + i)) = Err err) /\
      shutdown_during m (S attempt + i) = false).
    { intros i Hi. replace (S attempt + i) with (attempt + S i) by lia. apply Hbad. lia. }
    replace (attempt + S k) with (S attempt + k) in Hgood by lia.
    destruct (IH remaining (S attempt) err c2 info Hok2 Hs2 ltac:(lia) Hbad2 Hgood) as (G1 & G2 & [l' G3] & G4).
    split_and!; [done..| |].
    + exists (l ++ l'). rewrite G3. change (queue c2) with (queue c1). by rewrite A4, app_nil_r, !app_assoc.
    + rewrite G4, S2, A5, Hcb. destruct (terminate && has_terminate_cb c); lia.
Qed.
End reconnect.

(** Without a login the loop fails for the last reason. *)
Lemma reconnect_loop_fails m terminate remaining : forall attempt e c,
  client_ok c -> state c = StDisconnected ->
  (forall i, i < remaining -> (exists err, login_of (attempts m (attempt + i)) = Err err) /\
    shutdown_during m (attempt + i) = false) ->
  exists last,
    (remaining = 0 /\ last = e \/
     exists k, remaining = S k /\ login_of (attempts m (attempt + k)) = Err last) /\
    (reconnect_loop m terminate remaining attempt e c).1 =
      match reconnect_failure_reason last with Some reason => RFailed reason | None => RPanic end /\
    state (reconnect_loop m terminate remaining attempt e c).2 = StDisconnected.
Proof.
  induction remaining as [|remaining IH]; intros attempt e c Hok Hs Hbad.
  { exists e. split_and!; [by left|done..]. }
  rewrite reconnect_loop_eq.
  destruct (attempt_spec terminate (attempts m attempt) c Hok Hs) as (A1 & A2 & A3 & A4 & A5 & A6 & A7).
  destruct (connect _ _) as [r c1]. cbn [fst snd] in *. subst r.
  destruct (Hbad 0 ltac:(lia)) as [[err Herr] Hsd]. rewrite Nat.add_0_r in Herr, Hsd.
  rewrite Herr in *. rewrite Hsd.
  assert (Hnext : forall c2, client_ok c2 -> state c2 = StDisconnected -> exists last,
    (S remaining = 0 /\ last = e \/
     exists k, S remaining = S k /\ login_of (attempts m (attempt + k)) = Err last) /\
    (reconnect_loop m terminate remaining (S attempt) err c2).1 =
      match reconnect_failure_reason last with Some reason => RFailed reason | None => RPanic end /\
    state (reconnect_loop m terminate remaining (S attempt) err c2).2 = StDisconnected).
  { intros c2 Hok2 Hs2. destruct (IH (S attempt) err c2 Hok2 Hs2) as (last & Hl & H1 & H2).
    { intros i Hi. replace (S attempt + i) with (attempt + S i) by lia. apply Hbad. lia. }
    exists last. split_and!; [|done..]. right. exists remaining. split; [done|].
    destruct Hl as [[-> ->]|(k & -> & Hk)]; [by rewrite Nat.add_0_r|].
    by replace (attempt + S k) with (S attempt + k) by lia. }
  destruct (0 <? remaining); [|by apply Hnext].
  apply Hnext; [|done]. by apply (kept_did c1).
Qed.

(** ** The supervisor, steps and runs *)

Lemma reconnect_kept m terminate c :
  client_ok c -> state c = StDisconnected -> kept c (reconnect m terminate c).2.
Proof.
  intros Hok Hs. unfold reconnect. destruct (_ =? 0); [by apply kept_refl|].
  by apply reconnect_loop_kept.
Qed.

(** Changes that concern neither the connection nor the trace *)
Lemma aside_ok c c' :
  state c' = state c -> send_tx c' = send_tx c -> reader c' = reader c -> writer c' = writer c ->
  trace c' = trace c -> client_ok c /\ orderly c -> client_ok c' /\ orderly c'.
Proof.
  intros H1 H2 H3 H4 H5 [[K1 K2 K3 K4] [L1 L2]].
  split; split; rewrite ?H1, ?H2, ?H3, ?H4, ?H5; done.
Qed.

Lemma after_fatal_ok m now later err c :
  client_ok c /\ orderly c -> state c = StDisconnected ->
  client_ok (after_fatal m now later err c) /\ orderly (after_fatal m now later err c).
Proof.
  intros Hc Hs. unfold after_fatal. destruct (negb (can_reconnect err)); [done|].
  destruct (ReconnectGate.can_reconnect _ _) as [[u|until] gate]; [|by apply (aside_ok c)].
  set (c1 := with_gate c _). assert (Hc1 : client_ok c1 /\ orderly c1) by by apply (aside_ok c).
  assert (Hs1 : state c1 = StDisconnected) by done. clearbody c1.
  destruct (reconnect_kept m (needs_session_terminate err) c1 (proj1 Hc1) Hs1) as [K1 K2 _ _].
  destruct (reconnect m _ c1) as [[|reason|] c2]; cbn [snd] in *;
    (eapply aside_ok; [..|split; [exact K1|exact (K2 (proj2 Hc1))]]); done.
Qed.

Lemma supervise_ok m now later c :
  client_ok c /\ orderly c -> client_ok (supervise m now later c) /\ orderly (supervise m now later c).
Proof.
  intros Hc. unfold supervise. destruct (queue c) as [|event rest]; [done|].
  destruct (negb (supervised c)); [done|]. set (c1 := did _ _).
  assert (Hc1 : client_ok c1 /\ orderly c1).
  { assert (H : client_ok (with_queue c rest) /\ orderly (with_queue c rest)) by by apply (aside_ok c).
    split; [destruct H as [[K1 K2 K3 K4] _]; by split|]. apply orderly_did; [done..|apply H]. }
  clearbody c1. destruct event as [| |err]; try done. destruct (is_fatal err); [|done].
  destruct (disconnect_spec false (Ok ()) c1) as (D1 & D2 & D3 & _).
  apply after_fatal_ok; [|done]. split; [done|]. apply D2, Hc1.
Qed.

Lemma emit_ok c err : client_ok c /\ orderly c -> client_ok (emit_task_error c err) /\
  orderly (emit_task_error c err).
Proof. unfold emit_task_error. case_decide; [by apply aside_ok|done]. Qed.

Lemma client_step_ok c step :
  client_ok c /\ orderly c -> client_ok (client_step c step) /\ orderly (client_step c step).
Proof.
  intros Hc. destruct step as [position a|serialized|serialized msg|entry|r|err|m now later|skipped];
    cbn [client_step].
  - case_decide as Hs; [|done]. set (c1 := with_position c position).
    assert (Hc1 : client_ok c1 /\ orderly c1) by by apply (aside_ok c).
    destruct (connect_spec a c1 (proj1 Hc1) Hs) as [[A1 A2 _ _ _ _] _].
    split; [done|]. apply A2, Hc1.
  - destruct (disconnect_spec true serialized c) as (D1 & D2 & _). split; [done|]. apply D2, Hc.
  - destruct (send_frame serialized msg c) as (F1 & F2 & F3 & F4 & _). destruct Hc as [[K1 K2 K3 K4] Ho].
    split; [split; rewrite ?F1, ?F2, ?F3, ?F4; done|]. by apply orderly_send.
  - by apply (aside_ok c).
  - destruct (reader c) eqn:Hr; [|done].
    destruct (reader_turn_frame r c) as (F1 & F2 & F3 & F4 & _). destruct Hc as [[K1 K2 K3 K4] Ho].
    split; [|by apply orderly_reader_turn]. split; rewrite ?F1, ?F2, ?F3; auto.
  - destruct (writer c); [|done]. unfold writer_fails.
    destruct (emit_ok c err Hc) as [[K1 K2 K3 K4] Ho]. split; [by split|]. by eapply orderly_same.
  - by apply supervise_ok.
  - by apply (aside_ok c).
Qed.

Lemma client_run_ok steps : forall c,
  client_ok c /\ orderly c -> client_ok (client_run c steps) /\ orderly (client_run c steps).
Proof.
  induction steps as [|step steps IH]; intros c Hc; [done|]. apply IH. by apply client_step_ok.
Qed.

(** ** The gate *)

Lemma pruned_spec w now l :
  exists gone, l = gone ++ ReconnectGate.pruned w now l /\
    forall t, t ∈ gone -> (w < duration_since now t)%N.
Proof.
  induction l as [|t l (gone & Hl & Hgone)]; cbn.
  { exists []. split; [done|]. by intros t ?%not_elem_of_nil. }
  destruct (w <? duration_since now t)%N eqn:Hw.
  - exists (t :: gone). split; [cbn; by rewrite <- Hl|].
    intros x [->|Hx]%elem_of_cons; [by apply N.ltb_lt|by apply Hgone].
  - exists []. split; [done|]. by intros x ?%not_elem_of_nil.
Qed.

(** The times at which the gate lets a reconnect through, asked and told at the
    times of the list *)
Fixpoint grants (g : ReconnectGate) (asks : list (Instant * Instant)) : list Instant :=
  match asks with
  | [] => []
  | (now, later) :: rest =>
    match ReconnectGate.can_reconnect g now with
    | (Ok _, g) => later :: grants (ReconnectGate.on_reconnect g later) rest
    | (Err _, g) => grants g rest
    end
  end.

Fixpoint forward (from : Instant) (asks : list (Instant * Instant)) : Prop :=
  match asks with
  | [] => True
  | (now, later) :: rest => (from <= now)%N /\ (now <= later)%N /\ forward later rest
  end.

Lemma forward_earlier from now asks : (now <= from)%N -> forward from asks -> forward now asks.
Proof. destruct asks as [|[n l] asks]; [done|]. intros Hle (H1 & H2 & H3). split_and!; [lia|done..]. Qed.

(** Any [S n] of the times span more than [w]. *)
Definition spaced (w : Duration) (n : nat) (l : list Instant) : Prop :=
  forall i t t', l !! i = Some t -> l !! (i + n) = Some t' -> (w < duration_since t' t)%N.

(** The times that are not recent any more are out of the window. *)
Definition gate_after (g : ReconnectGate) (granted : list Instant) (now : Instant) : Prop :=
  exists old, granted = old ++ recent g /\ forall t, t ∈ old -> (window g < duration_since now t)%N.

Lemma gate_after_set g granted now later recent' until :
  gate_after g granted now -> (now <= later)%N ->
  (exists gone, recent g = gone ++ recent' /\ forall t, t ∈ gone -> (window g < duration_since later t)%N) ->
  gate_after (ReconnectGate.set g recent' until) granted later.
Proof.
  intros (old & -> & Hold) Hle (gone & Hr & Hgone). exists (old ++ gone). cbn. split.
  - by rewrite Hr, app_assoc.
  - intros t [Ht|Ht]%elem_of_app; [|by apply Hgone]. specialize (Hold t Ht).
    unfold duration_since in *. lia.
Qed.

Lemma gate_after_prune g granted now later :
  gate_after g granted now -> (now <= later)%N -> gate_after (ReconnectGate.prune g later) granted later.
Proof.
  intros Hg Hle. eapply gate_after_set; [done..|]. apply pruned_spec.
Qed.

Lemma can_reconnect_after g granted from now :
  gate_after g granted from -> (from <= now)%N ->
  let (r, g') := ReconnectGate.can_reconnect g now in
  gate_after g' granted now /\ window g' = window g /\ max_in_window g' = max_in_window g /\
  (r = Ok () -> length (recent g') < max_in_window g).
Proof.
  intros Hg Hle.
  assert (Hsame : forall g0 : ReconnectGate, exists gone, recent g0 = gone ++ recent g0 /\
    forall t, t ∈ gone -> (window g0 < duration_since now t)%N)
    by (intros g0; exists []; split; [done|by intros t ?%not_elem_of_nil]).
  assert (Hcheck : forall g0, gate_after g0 granted from -> window g0 = window g ->
    max_in_window g0 = max_in_window g ->
    let (r, g') := (let g := ReconnectGate.prune g0 now in
      if max_in_window g <=? length (recent g) then
        (Err (now + cooldown g)%N, ReconnectGate.set g (recent g) (Some (now + cooldown g)%N))
      else (Ok (), g)) in
    gate_after g' granted now /\ window g' = window g /\ max_in_window g' = max_in_window g /\
    (r = Ok () -> length (recent g') < max_in_window g)).
  { intros g0 Hg0 Hw Hm. cbv zeta. pose proof (gate_after_prune g0 granted from now Hg0 Hle) as Hp.
    destruct (_ <=? _) eqn:Hlen.
    - split_and!; [|done..]. by eapply gate_after_set; [exact Hp| |apply Hsame].
    - apply Nat.leb_gt in Hlen. split_and!; [done..|]. intros _. by rewrite <- Hm. }
  unfold ReconnectGate.can_reconnect. destruct (suppressed_until g) as [until|].
  - destruct (now <? until)%N; [|apply (Hcheck (ReconnectGate.set g (recent g) None)); done].
    split_and!; try done. destruct Hg as (old & Hgr & Hold). exists old. split; [done|].
    intros t Ht. specialize (Hold t Ht). unfold duration_since in *. lia.
  - by apply Hcheck.
Qed.

Lemma spaced_snoc w n l t :
  spaced w n l -> (forall x, l !! (length l - n) = Some x -> n <= length l -> (w < duration_since t x)%N) ->
  (n = 0 -> False) -> spaced w n (l ++ [t]).
Proof.
  intros Hl Ht Hn i x x' Hi Hi'. destruct (decide (i + n < length l)) as [Hlt|Hge].
  - rewrite lookup_app_l in Hi, Hi' by lia. by apply (Hl i).
  - assert (Hlast : i + n = length l).
    { apply lookup_lt_Some in Hi'. rewrite length_app in Hi'. cbn in Hi'. lia. }
    rewrite Hlast, list_lookup_middle in Hi' by done. injection Hi' as <-.
    rewrite lookup_app_l in Hi by lia. apply Ht; [by replace (length l - n) with i by lia|lia].
Qed.

Lemma grants_spaced asks : forall g granted from,
  gate_after g granted from -> forward from asks -> spaced (window g) (max_in_window g) granted ->
  max_in_window g <> 0 -> spaced (window g) (max_in_window g) (granted ++ grants g asks).
Proof.
  induction asks as [|[now later] asks IH]; intros g granted from Hg Hf Hs Hm; cbn [grants].
  { by rewrite app_nil_r. }
  destruct Hf as (Hnow & Hlater & Hf). pose proof (can_reconnect_after g granted from now Hg Hnow) as Hc.
  destruct (ReconnectGate.can_reconnect g now) as [[[]|until] g'].
  - destruct Hc as (Hg' & Hw & Hmax & Hlen). specialize (Hlen eq_refl).
    replace (granted ++ later :: grants (ReconnectGate.on_reconnect g' later) asks)
      with ((granted ++ [later]) ++ grants (ReconnectGate.on_reconnect g' later) asks)
      by by rewrite <- app_assoc.
    rewrite <- Hw, <- Hmax in *.
    apply (IH (ReconnectGate.on_reconnect g' later) (granted ++ [later]) later); [|done| |done].
    + unfold ReconnectGate.on_reconnect.
      apply (gate_after_prune (ReconnectGate.set g' (recent g' ++ [later]) (suppressed_until g')) _ now);
        [|done].
      destruct Hg' as (old & -> & Hold). exists old. cbn. by rewrite app_assoc.
    + change (spaced (window g') (max_in_window g') (granted ++ [later])).
      apply spaced_snoc; [done| |done]. intros x Hx Hn. destruct Hg' as (old & -> & Hold).
      rewrite length_app in Hx, Hn. rewrite lookup_app_l in Hx by lia.
      apply list_elem_of_lookup_2, Hold in Hx. unfold duration_since in *. lia.
  - destruct Hc as (Hg' & Hw & Hmax & _). rewrite <- Hw, <- Hmax in *. apply (IH g' granted now); try done.
    by eapply forward_earlier.
Qed.

(** What a transport and a token provider may answer *)
Definition sane (a : Attempt) : Prop :=
  match transport a with
  | Err err => is_Some (reconnect_failure_reason err)
  | Ok _ => True
  end /\
  match token a with
  | Err err => is_Some (reconnect_failure_reason err)
  | Ok _ => True
  end /\
  waiting_error (unanswered a) = true.

Lemma sane_login_error a err :
  sane a -> login_of a = Err err -> is_Some (reconnect_failure_reason err).
Proof.
  intros (H1 & H2 & H3). unfold login_of, answer.
  destruct (transport a); [|by intros [= <-]]. destruct (token a); [|by intros [= <-]].
  destruct (serialized a); [|intros [= <-]; by eexists].
  destruct (first_message (incoming a)) as [msg|].
  - destruct msg as [| | | | | | | | | |info| | | | | | | |]; try (by intros [= <-]; eexists).
    destruct (si_profile info); [intros [= <-]; by eexists|done].
  - intros [= <-]. destruct (unanswered a); try done; by eexists.
Qed.
