(* ===== verification/SignalingProperties.v ===== *)
(** SignalingProperties: the theorems about the connection to the server. *)
From stdpp Require Import prelude gmap strings list.
From Stdlib Require Import NArith.
From S2P Require Import Prelude Protocol Calls SignalingErrors SignalingClient SignalingLogic.
Import Client.

(** ** Properties *)

(** C26: whatever the server, the user and the tasks do, between turns a client is
    logged in or has no connection, its tasks run only while it is logged in, and
    over a connection that is not logged in nothing but a login was ever sent. *)
Theorem run_sends_in_order custom_profile tries terminate_cb steps :
  let c := client_run (new custom_profile tries terminate_cb) steps in
  client_ok c /\ disciplined false (trace c) = true.
Proof.
  cbv zeta. destruct (client_run_ok steps (new custom_profile tries terminate_cb)) as [H1 [H2 _]];
    [|done]. split; [by split|by split].
Qed.


(** The waiting between attempts is bounded and never overflows: it grows
    from at most a tenth of a second, doubling, to at most five seconds, and the
    product is never clipped to 128 bits. *)
Theorem retry_delay_bounds (random_range : N -> N) attempt :
  (forall max, random_range max <= max)%N ->
  (RetryStrategy.timeout random_range attempt <= RetryStrategy.cap)%N /\
  (0 < attempt -> RetryStrategy.timeout random_range attempt <=
    RetryStrategy.base * 2 ^ (attempt - 1))%N /\
  (RetryStrategy.base * N.shiftl 1 (N.min (attempt - 1) 63) < 2 ^ 128)%N.
Proof.
  intros Hr. unfold RetryStrategy.timeout, RetryStrategy.max_delay_nanos, RetryStrategy.saturating_mul.
  rewrite N.shiftl_1_l.
  assert (Hexp : (2 ^ N.min (attempt - 1) 63 <= 2 ^ 63)%N) by (apply N.pow_le_mono_r; lia).
  assert (Hexp' : (2 ^ N.min (attempt - 1) 63 <= 2 ^ (attempt - 1))%N)
    by (apply N.pow_le_mono_r; lia).
  set (e := (2 ^ N.min (attempt - 1) 63)%N) in *. set (e' := (2 ^ (attempt - 1))%N) in *.
  clearbody e e'. set (max := N.min _ RetryStrategy.cap). pose proof (Hr max) as Hmax.
  assert (Hm : (max <= RetryStrategy.cap)%N) by (subst max; lia).
  assert (Hm' : (max <= RetryStrategy.base * e)%N) by (subst max; lia). clearbody max.
  unfold RetryStrategy.base, RetryStrategy.cap, milliseconds, seconds in *.
  split_and!; [| |lia].
  - destruct (attempt =? 0)%N; [lia|]. destruct (max =? 0)%N; lia.
  - intros Ha. destruct (attempt =? 0)%N; [lia|]. destruct (max =? 0)%N; lia.
Qed.

(** C28: automatic reconnects are limited: between two clearings of the gate, any
    four of them span more than a minute. *)
Theorem reconnects_limited asks i t t' :
  forward 0 asks ->
  grants ReconnectGate.fresh asks !! i = Some t ->
  grants ReconnectGate.fresh asks !! (i + 3) = Some t' ->
  (seconds 60 < duration_since t' t)%N.
Proof.
  intros Hf. pose proof (grants_spaced asks ReconnectGate.fresh [] 0 ) as H.
  apply (H ltac:(exists []; split; [done|by intros x ?%not_elem_of_nil]) Hf
    ltac:(by intros j x x' Hx) ltac:(done) i t t').
Qed.

(** Giving up never panics. Whatever the server answers, the error of the
    last attempt is one that has a reason to report. *)
Theorem reconnect_never_panics m terminate c :
  client_ok c -> state c = StDisconnected -> (forall n, sane (attempts m n)) ->
  (reconnect m terminate c).1 <> RPanic.
Proof.
  intros Hok Hs Hsane.
  assert (Herr : forall n err, login_of (attempts m n) = Err err ->
    is_Some (reconnect_failure_reason err)) by (intros n err; by apply sane_login_error).
  unfold reconnect. destruct (_ =? 0); [done|].
  enough (forall remaining attempt e c0, is_Some (reconnect_failure_reason e) ->
    client_ok c0 -> state c0 = StDisconnected ->
    (reconnect_loop m terminate remaining attempt e c0).1 <> RPanic) as H
    by (apply H; [by eexists|done..]).
  clear c Hok Hs. induction remaining as [|remaining IH]; intros attempt e c He Hok Hs.
  { cbn. by destruct He as [reason ->]. }
  rewrite reconnect_loop_eq.
  destruct (attempt_spec terminate (attempts m attempt) c Hok Hs) as (A1 & _ & _ & _ & _ & A6 & A7).
  destruct (connect _ _) as [r c1]. cbn [fst snd] in *. subst r.
  destruct (login_of (attempts m attempt)) as [info|err] eqn:Hl; [done|].
  pose proof (Herr _ _ Hl) as He1. destruct (0 <? remaining); [|by apply IH].
  destruct (shutdown_during m attempt); [done|]. apply IH; [done| |done]. by apply (kept_did c1).
Qed.

(** A waiter gets the first message it asked for. A message goes to the first
    waiter whose predicate it meets and to no other, and leaves the rest of the
    queue as it is. *)
Theorem try_match_first queue msg :
  match ResponseMatcher.try_match queue msg with
  | (Some id, rest) => exists before entry after,
      queue = before ++ entry :: after /\ rest = before ++ after /\ responder entry = id /\
      predicate entry msg = true /\ forall e, e ∈ before -> predicate e msg = false
  | (None, rest) => rest = queue /\ forall e, e ∈ queue -> predicate e msg = false
  end.
Proof.
  induction queue as [|entry queue IH]; cbn; [split; [done|by intros e ?%not_elem_of_nil]|].
  destruct (predicate entry msg) eqn:Hp.
  - exists [], entry, queue. split_and!; try done. by intros e ?%not_elem_of_nil.
  - destruct (ResponseMatcher.try_match queue msg) as [[id|] rest].
    + destruct IH as (before & e & after & -> & -> & Hid & He & Hb).
      exists (entry :: before), e, after. split_and!; try done.
      intros x [->|Hx]%elem_of_cons; [done|by apply Hb].
    + destruct IH as [-> Hall]. split; [done|]. intros x [->|Hx]%elem_of_cons; [done|by apply Hall].
Qed.

(** ** Concrete runs *)

Section witnesses.
Let ann : ClientInfo := mkClientInfo (ClientId_from "1000001") "LOVV_CTR" "132.600" None.
Let info : SessionInfo := mkSessionInfo ann (Changed Custom) [] None.
Let works : Attempt :=
  mkAttempt (Ok ()) (Ok "token") (Ok ()) [Ok (SM_SessionInfo info)] (SE_Timeout "login").
Let silent : Attempt := mkAttempt (Ok ()) (Ok "token") (Ok ()) [] (SE_Timeout "login").
Let refused : Attempt := mkAttempt (Err SE_Transport) (Ok "token") (Ok ()) [] (SE_Timeout "login").
(** The server cannot be reached, then does not answer, then works. *)
Let meanwhile : Meanwhile :=
  mkMeanwhile (λ n, if n <? 2 then refused else if n <? 3 then silent else works)
    (λ _ max, (max / 2)%N) (λ _, false).
Let unreachable : Meanwhile := mkMeanwhile (λ _, refused) (λ _ max, max) (λ _, false).
Let login_steps : list ClientStep :=
  [UserConnects None works; SupervisorTurn meanwhile 0 0; SupervisorTurn meanwhile 0 0].
Let logged_in : Client := client_run (new false 8 true) login_steps.
Let gone : Client := disconnect false (Ok ()) logged_in.
Let lost : SignalingRuntimeError := RE_Transport (TransportReceive "reset").


Lemma retry_delay_bounds_witness :
  (RetryStrategy.timeout (λ max, max) 3 = milliseconds 400 /\
   RetryStrategy.timeout (λ max, max) 200 = seconds 5 /\
   RetryStrategy.timeout (λ max, max) 200 <= RetryStrategy.cap)%N.
Proof.
  split_and!; [by vm_compute|by vm_compute|].
  by apply (retry_delay_bounds (λ max, max) 200 (λ max, N.le_refl max)).
Defined.

(** Five losses, ten seconds apart: the fourth is not answered and the gate stays
    closed. *)
Let asks : list (Instant * Instant) :=
  (λ n, (seconds n, seconds n)) <$> [0; 10; 20; 30; 40; 200]%N.

Lemma reconnects_limited_witness :
  grants ReconnectGate.fresh asks = [seconds 0; seconds 10; seconds 20; seconds 200] /\
  (seconds 60 < duration_since (seconds 200) (seconds 0))%N.
Proof.
  split; [by vm_compute|]. apply (reconnects_limited asks 0); [|by vm_compute..].
  unfold asks, seconds. cbn [fmap list_fmap forward]. split_and!; try done; lia.
Defined.

Lemma reconnect_never_panics_witness :
  (reconnect unreachable true gone).1 = RFailed RF_Connection /\
  (reconnect unreachable true gone).1 <> RPanic.
Proof.
  split; [by vm_compute|]. apply reconnect_never_panics.
  - destruct (client_run_ok login_steps (new false 8 true)) as [Hok _]; [done|]. by destruct (disconnect_spec false (Ok ()) logged_in).
  - by vm_compute.
  - intros n. split_and!; [by eexists|done..].
Defined.
End witnesses.
