(* ===== verification/AppConnection.v ===== *)
(** AppConnection: the connection to the server and the desktop client together:
    the client is told of the events of the connection in their order, and shows
    whether it is connected. *)
From stdpp Require Import prelude gmap strings list.
From Stdlib Require Import NArith.
From S2P Require Import Prelude Protocol Calls SignalingErrors SignalingClient SignalingLogic.
From S2P Require Import AppState AppEvents AppLogic.
Import Client.

(** [handle_signaling_event] *)
Definition deliver (event : SignalingEvent) : Step :=
  match event with
  | EConnected info profile sources size => OnConnected info profile sources size
  | EMessage msg => OnMessage msg
  | EError error => OnRuntimeError error
  end.

Definition delivered (l : list ClientEffect) : list SignalingEvent :=
  omap (λ e, match e with OnEvent event => Some event | _ => None end) l.

(** What an event makes of the shown state of the connection *)
Definition status (s : ConnectionState) (event : SignalingEvent) : ConnectionState :=
  match event with
  | EConnected _ _ _ _ => Connected
  | EMessage _ => s
  | EError err =>
    if is_fatal err then
      match err with
      | RE_Disconnected (Some (AmbiguousVatsimPosition _)) => Disconnected
      | _ => if can_reconnect err then Connecting else Disconnected
      end
    else s
  end.

(** ** Messages leave it alone *)

Definition steady {A : Type} (m : App A) : Prop :=
  forall w, connection_state (app (m w).2) = connection_state (app w).

Lemma steady_ret {A} (a : A) : steady (mret a).
Proof. done. Qed.

Lemma steady_bind {A B} (m : App A) (k : A -> App B) :
  steady m -> (forall a, steady (k a)) -> steady (m ≫= k).
Proof.
  intros Hm Hk w. unfold mbind, app_bind. specialize (Hm w). destruct (m w) as [a w1].
  by rewrite (Hk a w1).
Qed.

Lemma steady_read {A} (f : AppStateInner -> A) : steady (read f).
Proof. done. Qed.
Lemma steady_when b (m : App ()) : steady m -> steady (when b m).
Proof. by destruct b. Qed.
Lemma steady_perform e : steady (perform e).
Proof. done. Qed.
Lemma steady_modify f : (forall s, connection_state (f s) = connection_state s) -> steady (modify f).
Proof. intros Hf w. apply Hf. Qed.
Lemma steady_for_all {A} (l : list A) (f : A -> App ()) :
  (forall x, steady (f x)) -> steady (for_all l f).
Proof. intros H. induction l; [done|]. by apply steady_bind. Qed.

Lemma steady_send env msg : steady (send_signaling_message env msg).
Proof. done. Qed.

Lemma change_current_connection id f s :
  connection_state (change_current id f s) = connection_state s.
Proof. unfold change_current. by case_match. Qed.

Create HintDb app_steady.
#[export] Hint Resolve steady_ret steady_read steady_when steady_perform steady_send : app_steady.
#[export] Hint Extern 1 (steady (emit _)) => apply steady_perform : app_steady.
#[export] Hint Extern 2 (steady (modify _)) =>
  apply steady_modify; intros ?; unfold change_peers, cancel_link_retry, start_call_establishment_timer;
  rewrite ?change_current_connection; repeat case_match; reflexivity : app_steady.

Ltac steady_step :=
  match goal with
  | |- steady (_ ≫= _) => apply steady_bind; [|intros ?]
  | |- steady (match ?x with _ => _ end) => destruct x
  | |- steady (for_all _ _) => apply steady_for_all; intros ?
  | |- steady (when _ _) => apply steady_when
  | |- _ => solve [auto with app_steady]
  end.
Ltac steady_steps := repeat steady_step.

Section steady.
Context {HO : HashOrder} {SD : SessionDescriptions} (env : Env).

Lemma steady_call_error id reason : steady (try_send_call_error env id reason).
Proof. unfold try_send_call_error, try_send. steady_steps. Qed.
Lemma steady_try_send msg : steady (try_send env msg).
Proof. unfold try_send. steady_steps. Qed.
Hint Resolve steady_call_error steady_try_send : app_steady.
Lemma steady_cleanup_peer id p : steady (cleanup_call_peer id p).
Proof. unfold cleanup_call_peer, take_webrtc_peer, detach_output, restart, peer_left_sound. steady_steps. Qed.
Lemma steady_quiet id p : steady (remove_link_peer_quiet id p).
Proof. unfold remove_link_peer_quiet, take_webrtc_peer, detach_output. steady_steps. Qed.
Lemma steady_cleanup id : steady (cleanup_current_call id).
Proof. unfold cleanup_current_call. steady_steps. Qed.
Hint Resolve steady_cleanup_peer steady_quiet steady_cleanup : app_steady.
Lemma steady_end_if_no_peers id : steady (end_call_if_no_peers id).
Proof. unfold end_call_if_no_peers. steady_steps. Qed.
Lemma steady_conference id p reason : steady (handle_conference_peer_failure env id p reason).
Proof. unfold handle_conference_peer_failure, fail_link, fail_call, emit_call_error. steady_steps. Qed.
Lemma steady_negotiate id p offer : steady (negotiate_peer env id p offer).
Proof. unfold negotiate_peer, detach_output. steady_steps. Qed.
Lemma steady_remove_incoming id : steady (remove_incoming_call id).
Proof. unfold remove_incoming_call, stop_ringing_if_no_incoming_calls. steady_steps. Qed.
Hint Resolve steady_end_if_no_peers steady_conference steady_negotiate steady_remove_incoming : app_steady.
Lemma steady_offers id own l : steady (offer_to_joined env id own l).
Proof.
  induction l as [|[p target] l IH]; cbn [offer_to_joined]; [done|]. destruct (client_leb p own); [done|].
  unfold send_offer, emit_call_error. steady_steps.
Qed.
Hint Resolve steady_offers : app_steady.

Lemma steady_message msg : steady (handle_signaling_message env msg).
Proof.
  destruct msg; cbn [handle_signaling_message];
    unfold handle_call_invitation, handle_call_update, follow_call_update, handle_webrtc_offer,
      handle_webrtc_answer, accept_call_answer, handle_call_end, handle_call_error,
      handle_call_cancelled, handle_error, handle_rate_limited, lose_targets, drop_invited,
      cancel_timers, stop_ringback_if_no_invited_targets, emit_call_error; steady_steps.
Qed.
End steady.

(** ** What the client shows *)

Section shown.
Context {HO : HashOrder} {SD : SessionDescriptions}.

Lemma steady_rest {A} (m : App ()) (k : () -> App A) w c :
  (forall w, connection_state (app (m w).2) = c) -> (forall a, steady (k a)) ->
  connection_state (app ((m ≫= k) w).2) = c.
Proof.
  intros Hm Hk. unfold mbind, app_bind. specialize (Hm w). destruct (m w) as [a w1].
  by rewrite (Hk a w1).
Qed.

Lemma closed_shown w :
  connection_state (app (handle_signaling_connection_closed w).2) = Disconnected.
Proof.
  unfold handle_signaling_connection_closed, cleanup_signaling.
  apply steady_rest; [|intros _; steady_steps]. intros w1.
  apply steady_rest; [done|]. intros _. steady_steps. apply steady_cleanup.
Qed.

Lemma deliver_status env event w :
  connection_state (app (take_step env (deliver event) w).2) =
    status (connection_state (app w)) event.
Proof.
  destruct event as [info profile sources size|msg|err]; cbn [deliver take_step status].
  - done.
  - apply steady_message.
  - unfold handle_runtime_error. destruct (is_fatal err) eqn:Hf; [|done]. cbn [when].
    pose proof (closed_shown w) as Hc. unfold mbind, app_bind.
    destruct (handle_signaling_connection_closed w) as [u w1]. cbn in Hc.
    destruct err as [[[]|]| | | | | |]; cbn; by rewrite ?Hc.
Qed.

Lemma run_status steps w events :
  steps.*2 = deliver <$> events ->
  connection_state (app (run w steps)) = foldl status (connection_state (app w)) events.
Proof.
  revert w events. induction steps as [|[env step] steps IH]; intros w [|event events] Heq; try done.
  cbn in Heq. injection Heq as -> Heq.
  change (run w ((env, deliver event) :: steps)) with (run (take_step env (deliver event) w).2 steps).
  rewrite (IH _ _ Heq), deliver_status. done.
Qed.
End shown.

(** ** Events of one connection *)

Definition fatal_event (event : SignalingEvent) : bool :=
  match event with EError err => is_fatal err | _ => false end.

Definition mild (event : SignalingEvent) : Prop :=
  match event with EConnected _ _ _ _ => False | EMessage _ => True | EError err => is_fatal err = false end.

Lemma mild_status l s : Forall mild l -> foldl status s l = s.
Proof.
  revert s. induction l as [|e l IH]; intros s Hl; [done|]. apply Forall_cons in Hl as [He Hl].
  cbn. rewrite (IH _ Hl). destruct e; cbn in *; [done|done|by rewrite He].
Qed.

Lemma mild_not_fatal l : Forall mild l -> existsb fatal_event l = false.
Proof.
  induction l as [|e l IH]; intros Hl; [done|]. apply Forall_cons in Hl as [He Hl]. cbn.
  rewrite (IH Hl), orb_false_r. by destruct e.
Qed.

Lemma delivered_snoc l e :
  delivered (l ++ [e]) = delivered l ++ match e with OnEvent event => [event] | _ => [] end.
Proof. unfold delivered. rewrite omap_app. by destruct e. Qed.

(** The events a turn adds: mild ones, then [tail]; none is delivered meanwhile. *)
Record gained (c c' : Client) (tail : list SignalingEvent) : Prop := {
  g_queue : exists l, queue c' = queue c ++ l ++ tail /\ Forall mild l;
  g_delivered : delivered (trace c') = delivered (trace c)
}.

Lemma gained_same c c' :
  queue c' = queue c -> delivered (trace c') = delivered (trace c) -> gained c c' [].
Proof. intros H1 H2. split; [|done]. exists []. rewrite app_nil_r. by split. Qed.

Lemma gained_trans c c' c'' tail : gained c c' [] -> gained c' c'' tail -> gained c c'' tail.
Proof.
  intros [(l & H1 & Hl) H2] [(l' & G1 & Hl') G2]. split; [|congruence]. exists (l ++ l').
  rewrite G1, H1, app_nil_r, !app_assoc. split; [done|]. by apply Forall_app.
Qed.

Lemma gained_one c c' e :
  queue c' = queue c ++ [e] -> mild e -> delivered (trace c') = delivered (trace c) -> gained c c' [].
Proof. intros H1 He H2. split; [|done]. exists [e]. by split; [|apply Forall_singleton]. Qed.

Lemma gained_reader r c : state c <> StLoggedIn -> gained c (reader_turn r c) [].
Proof.
  intros Hs.
  assert (Hstop : forall err, gained c (let c := emit_task_error c err in
      with_connection c (state c) (send_tx c) false (writer c)) [])
    by (intros err; unfold emit_task_error; rewrite decide_False by done; by apply gained_same).
  destruct r as [msg|err].
  - destruct msg; cbn [reader_turn]; try (by apply gained_same);
      destruct (ResponseMatcher.try_match _ _) as [[responder|] rest];
      (eapply gained_one; [done|done|]); cbn; rewrite ?delivered_snoc, ?app_nil_r; done.
  - destruct err; try apply Hstop. by eapply gained_one.
Qed.

Lemma gained_read_all l c : state c <> StLoggedIn -> gained c (read_all l c) [].
Proof.
  revert c. induction l as [|r l IH]; intros c Hs; [by apply gained_same|]. cbn [read_all].
  pose proof (gained_reader r c Hs) as Hr.
  assert (Hs1 : state (reader_turn r c) <> StLoggedIn)
    by (destruct (reader_turn_frame r c) as [-> _]; done).
  assert (Hall : gained c (read_all l (reader_turn r c)) [])
    by (eapply gained_trans; [exact Hr|by apply IH]).
  destruct r as [msg|err]; [done|]. by destruct err.
Qed.

Lemma gained_send serialized msg c : gained c (send serialized msg c).2 [].
Proof.
  destruct (send_frame serialized msg c) as (_ & _ & _ & _ & Hq & _). apply gained_same; [done|].
  unfold send. repeat case_match; cbn; rewrite ?delivered_snoc, ?app_nil_r; done.
Qed.

Lemma gained_disconnect requested serialized c : gained c (disconnect requested serialized c) [].
Proof.
  unfold disconnect.
  assert (H : gained c (if decide (state c = StDisconnected) then c
    else (send serialized CM_Logout c).2) []) by (case_decide; [by apply gained_same|apply gained_send]).
  eapply gained_trans; [exact H|]. destruct requested; by apply gained_same.
Qed.

Definition login_event (a : Attempt) : list SignalingEvent :=
  match login_of a with Ok info => [connected_event info] | Err _ => [] end.

Lemma gained_connect a c :
  client_ok c -> state c = StDisconnected -> gained c (connect a c).2 (login_event a).
Proof.
  intros Hok Hs. unfold connect, login_event, login_of. destruct (transport a) as [u|err] eqn:Htr;
    [|by apply gained_same].
  set (c1 := did (with_connection c StConnected true true true) Opened).
  assert (H1 : gained c c1 []) by (apply gained_same; [done|]; cbn; by rewrite delivered_snoc, app_nil_r).
  destruct (login_spec a c1) as (Hr & Hst & _); [done..|]. specialize (Hr u Htr).
  assert (H2 : gained c1 (login a c1).2 []).
  { unfold login. destruct (token a) as [tok|err]; [|by apply gained_same].
    set (msg := CM_Login _). pose proof (gained_send (serialized a) msg c1) as Hsend.
    destruct (send_frame (serialized a) msg c1) as (F1 & _).
    destruct (send (serialized a) msg c1) as [[]  c2]; [|done]. cbn [snd] in *.
    eapply gained_trans; [exact Hsend|]. apply gained_read_all. by rewrite F1. }
  unfold login_of in Hr. rewrite Htr in Hr. destruct (login a c1) as [r c2]. cbn [fst snd] in *.
  assert (H3 : gained c c2 []) by (by eapply gained_trans). subst r.
  match goal with |- gained c (let '_ := ?x in _).2 _ => idtac | |- _ => idtac end.
  destruct (match token a with Ok _ => _ | Err err => Err err end)
    as [[[[info profile] sources] size]|err].
  - eapply gained_trans; [exact H3|]. split; cbn.
    + by exists [].
    + by rewrite delivered_snoc, app_nil_r.
  - eapply gained_trans; [exact H3|]. apply gained_disconnect.
Qed.

(** A loop that is not interrupted ends logged in, or with the reason. *)
Lemma gained_loop m terminate remaining : forall attempt e c,
  client_ok c -> state c = StDisconnected -> (forall n, sane (attempts m n)) ->
  (forall n, shutdown_during m n = false) -> is_Some (reconnect_failure_reason e) ->
  let r := reconnect_loop m terminate remaining attempt e c in
  (r.1 = ROk /\ state r.2 = StLoggedIn /\ exists info, gained c r.2 [connected_event info]) \/
  (exists reason, r.1 = RFailed reason /\ state r.2 = StDisconnected /\ gained c r.2 []).
Proof.
  induction remaining as [|remaining IH]; intros attempt e c Hok Hs Hsane Hsd He.
  { right. cbn. destruct He as [reason ->]. exists reason. split_and!; try done. by apply gained_same. }
  cbv zeta. rewrite reconnect_loop_eq.
  destruct (attempt_spec terminate (attempts m attempt) c Hok Hs) as (A1 & _ & _ & _ & _ & A6 & A7).
  destruct (before_attempt_spec terminate c Hok) as (B1 & _ & _ & B4 & B5 & _).
  assert (Hb : gained c (before_attempt terminate c) []).
  { apply gained_same; [done|]. unfold before_attempt. destruct (terminate && has_terminate_cb c); [|done]. cbn.
    by rewrite delivered_snoc, app_nil_r. }
  pose proof (gained_connect (attempts m attempt) (before_attempt terminate c) B1
    ltac:(congruence)) as Hg. unfold login_event in Hg.
  destruct (connect _ _) as [r c1]. cbn [fst snd] in *. subst r.
  destruct (login_of (attempts m attempt)) as [info|err] eqn:Hl.
  { left. split_and!; [done..|]. exists info. by eapply gained_trans. }
  pose proof (sane_login_error _ _ (Hsane attempt) Hl) as He1.
  assert (Hg1 : gained c c1 []) by (by eapply gained_trans).
  rewrite Hsd. set (c2 := did c1 _).
  assert (Hg2 : gained c c2 []).
  { eapply gained_trans; [exact Hg1|]. apply gained_same; [done|]. cbn.
    by rewrite delivered_snoc, app_nil_r. }
  assert (Hok2 : client_ok c2) by (destruct A1; by split).
  assert (Hnext : forall c0, gained c c0 [] -> client_ok c0 -> state c0 = StDisconnected ->
    let r := reconnect_loop m terminate remaining (S attempt) err c0 in
    (r.1 = ROk /\ state r.2 = StLoggedIn /\ exists info, gained c r.2 [connected_event info]) \/
    (exists reason, r.1 = RFailed reason /\ state r.2 = StDisconnected /\ gained c r.2 [])).
  { intros c0 Hg0 Hok0 Hs0. cbv zeta.
    destruct (IH (S attempt) err c0 Hok0 Hs0 Hsane Hsd He1) as [(H1 & H2 & info & H3)|(reason & H1 & H2 & H3)].
    - left. split_and!; [done..|]. exists info. by eapply gained_trans.
    - right. exists reason. split_and!; [done..|]. by eapply gained_trans. }
  destruct (0 <? remaining); by apply Hnext.
Qed.

(** ** The shown state and the connection *)

Definition expected (st : State) : ConnectionState :=
  match st with StLoggedIn => Connected | _ => Disconnected end.

(** The events that were or will be delivered show the connection, unless an
    error that ends it is still to be delivered; then only one is, and no
    connection comes after it. *)
Record agrees (c : Client) : Prop := {
  ag_ok : client_ok c;
  ag_calm : existsb fatal_event (queue c) = false ->
    foldl status Disconnected (delivered (trace c) ++ queue c) = expected (state c);
  ag_lost : existsb fatal_event (queue c) = true -> exists before err after,
    queue c = before ++ EError err :: after /\ existsb fatal_event before = false /\
    is_fatal err = true /\ Forall mild after /\
    (state c = StLoggedIn -> reader c && writer c = false)
}.

(** A step of a client that nobody disconnects by hand, that follows its events
    and is not shut down, and whose connections report one error each *)
Definition calm (c : Client) (step : ClientStep) : Prop :=
  match step with
  | UserConnects _ _ => queue c = []
  | UserDisconnects _ | SupervisorLags _ => False
  | ReaderGets (Err err) => writer c = true \/ is_fatal err = false
  | WriterFails err => reader c = true \/ is_fatal err = false
  | SupervisorTurn m _ _ => forall n, sane (attempts m n) /\ shutdown_during m n = false
  | ReaderGets (Ok _) | UserSends _ _ | UserWaits _ => True
  end.

Fixpoint calm_run (c : Client) (steps : list ClientStep) : Prop :=
  match steps with
  | [] => True
  | step :: steps => calm c step /\ calm_run (client_step c step) steps
  end.

(** Mild events more, and the tasks no livelier, keep it. *)
Lemma agrees_gained c c' :
  client_ok c' -> agrees c -> gained c c' [] -> state c' = state c ->
  (reader c' && writer c' = true -> reader c && writer c = true) -> agrees c'.
Proof.
  intros Hok [_ H1 H2] [(l & Hq & Hl) Hd] Hs Ht. rewrite app_nil_r in Hq.
  assert (Hf : existsb fatal_event (queue c') = existsb fatal_event (queue c))
    by (by rewrite Hq, existsb_app, (mild_not_fatal l Hl), orb_false_r).
  split; [done|..]; rewrite Hf, ?Hs.
  - intros Hc. by rewrite Hd, Hq, app_assoc, foldl_app, H1, (mild_status l).
  - intros Hc. destruct (H2 Hc) as (before & err & after & Hqc & Hb & He & Ha & Hr).
    exists before, err, (after ++ l). split_and!; try done.
    + by rewrite Hq, Hqc, <- app_assoc.
    + by apply Forall_app.
    + intros Hst. specialize (Hr Hst). destruct (reader c' && writer c'); [|done].
      by rewrite Ht in Hr.
Qed.

(** A new connection is what is shown last. *)
Lemma agrees_connected c c' info :
  client_ok c' -> existsb fatal_event (queue c) = false ->
  gained c c' [connected_event info] -> state c' = StLoggedIn -> agrees c'.
Proof.
  intros Hok Hc [(l & Hq & Hl) Hd] Hs.
  assert (Hlast : fatal_event (connected_event info) = false) by by destruct info as [[[]]].
  assert (Hf : existsb fatal_event (queue c') = false)
    by (rewrite Hq, !existsb_app, Hc, (mild_not_fatal l Hl); cbn; by rewrite Hlast).
  split; [done|..]; rewrite Hf; [|done]. intros _.
  rewrite Hq, Hs, !app_assoc, foldl_app. by destruct info as [[[]]].
Qed.

(** The error of a connection that just ended is still to be delivered. *)
Lemma agrees_lost c c' err :
  client_ok c' -> existsb fatal_event (queue c) = false -> is_fatal err = true ->
  (exists l, queue c' = queue c ++ l ++ [EError err] /\ Forall mild l) ->
  (state c' = StLoggedIn -> reader c' && writer c' = false) -> agrees c'.
Proof.
  intros Hok Hc He (l & Hq & Hl) Ht.
  assert (Hf : existsb fatal_event (queue c') = true).
  { rewrite Hq, !existsb_app. cbn. by rewrite He, !orb_true_r. }
  split; [done|..]; rewrite Hf; [done|]. intros _.
  exists (queue c ++ l), err, []. split_and!; try done.
  - by rewrite Hq, <- app_assoc.
  - by rewrite existsb_app, Hc, (mild_not_fatal l Hl).
Qed.

(** The two ends of a task: with its error, or without *)
Lemma agrees_task_error c c' err :
  client_ok c -> client_ok c' -> agrees c -> state c' = state c ->
  queue c' = queue (emit_task_error c err) -> trace c' = trace c ->
  reader c' && writer c' = false ->
  (is_fatal err = true -> state c = StLoggedIn -> reader c && writer c = true) -> agrees c'.
Proof.
  intros Hok Hok' Hag Hs Hq Ht Hrw Hone. unfold emit_task_error in Hq.
  assert (Hside : reader c' && writer c' = true -> reader c && writer c = true) by by rewrite Hrw.
  case_decide as Hst.
  - destruct (is_fatal err) eqn:He.
    + destruct Hag as [_ _ Hlost]. apply (agrees_lost c c' err); try done.
      * destruct (existsb fatal_event (queue c)) eqn:Hf; [|done].
        destruct (Hlost eq_refl) as (? & ? & ? & _ & _ & _ & _ & H). specialize (H Hst). by rewrite (Hone eq_refl Hst) in H.
      * exists []. by split.
    + apply (agrees_gained c); try done. split; [|by rewrite Ht].
      exists [EError err]. rewrite app_nil_r. split; [done|]. by apply Forall_singleton.
  - apply (agrees_gained c); try done. apply gained_same; [done|by rewrite Ht].
Qed.

Lemma agrees_reader c r :
  agrees c -> reader c = true -> calm c (ReaderGets r) -> agrees (reader_turn r c).
Proof.
  intros Hag Hr Hcalm. pose proof (ag_ok c Hag) as Hok.
  assert (Hok' : client_ok (reader_turn r c)).
  { destruct (reader_turn_frame r c) as (F1 & F2 & F3 & F4 & _). destruct Hok as [K1 K2 K3 K4].
    split; rewrite ?F1, ?F2, ?F3; auto. }
  assert (Hmild : (exists msg, r = Ok msg) \/ (exists e, r = Err (RE_SerializationError e)) ->
    agrees (reader_turn r c)).
  { intros Hm. apply (agrees_gained c); try done.
    - destruct Hm as [[msg ->]|[e ->]]; [|by eapply gained_one].
      destruct msg; cbn [reader_turn]; try (by apply gained_same);
        destruct (ResponseMatcher.try_match _ _) as [[responder|] rest];
        (eapply gained_one; [done|done|]); cbn; rewrite ?delivered_snoc, ?app_nil_r; done.
    - apply reader_turn_frame.
    - destruct (reader_turn_frame r c) as (_ & _ & -> & F4 & _). intros [H1 H2]%andb_true_iff.
      by rewrite (F4 H1), H2. }
  destruct r as [msg|err]; [apply Hmild; left; eauto|].
  assert (Hstop : reader_turn (Err err) c = (let c := emit_task_error c err in
      with_connection c (state c) (send_tx c) false (writer c)) -> agrees (reader_turn (Err err) c)).
  { intros Heq. cbn [calm] in Hcalm. rewrite Heq in *.
    apply (agrees_task_error c _ err); try done.
    - unfold emit_task_error. by case_decide.
    - unfold emit_task_error. by case_decide.
    - intros He _. rewrite Hr. destruct Hcalm as [->|H]; [done|congruence]. }
  destruct err; try (by apply Hstop). apply Hmild. right. eauto.
Qed.

Lemma agrees_reconnect m terminate c err :
  client_ok c -> state c = StDisconnected -> existsb fatal_event (queue c) = false ->
  reconnect_max_tries c <> 0 -> (forall n, sane (attempts m n) /\ shutdown_during m n = false) ->
  agrees match reconnect m terminate c with
         | (ROk, c) => c
         | (RFailed reason, c) => broadcast c (EError (RE_ReconnectFailed reason))
         | (RPanic, c) => with_supervised c err
         end.
Proof.
  intros Hok Hs Hf Htries Hm. unfold reconnect.
  destruct (reconnect_max_tries c =? 0) eqn:Hz; [by apply Nat.eqb_eq in Hz|].
  destruct (reconnect_loop_kept m terminate (reconnect_max_tries c) 1 (SE_Other "Unknown") c Hok Hs)
    as [Hok' _ _ _].
  destruct (gained_loop m terminate (reconnect_max_tries c) 1 (SE_Other "Unknown") c Hok Hs)
    as [(H1 & H2 & info & H3)|(reason & H1 & H2 & H3)];
    [intros n; apply Hm|intros n; apply Hm|by eexists| |];
    destruct (reconnect_loop _ _ _ _ _ c) as [r c']; cbn [fst snd] in *; subst r.
  - by apply (agrees_connected c c' info).
  - destruct H3 as [(l & Hq & Hl) _]. rewrite app_nil_r in Hq.
    apply (agrees_lost c _ (RE_ReconnectFailed reason)); try done.
    + destruct Hok'. by split.
    + exists l. cbn. by rewrite Hq, <- app_assoc.
    + cbn. by rewrite H2.
Qed.

Lemma agrees_supervise m now later c :
  agrees c -> calm c (SupervisorTurn m now later) -> reconnect_max_tries c <> 0 ->
  agrees (supervise m now later c).
Proof.
  intros Hag Hm Htries. pose proof Hag as [Hok H1 H2]. unfold supervise.
  destruct (queue c) as [|event rest] eqn:Hq; [done|].
  destruct (negb (supervised c)); [done|]. set (c1 := did _ _).
  assert (Hd1 : delivered (trace c1) = delivered (trace c) ++ [event])
    by (cbn; by rewrite delivered_snoc).
  assert (Hok1 : client_ok c1) by (destruct Hok; by split).
  destruct (fatal_event event) eqn:Hfatal.
  2:{ assert (Hc1 : agrees c1).
      { split; [done|..].
        - intros Hf. rewrite Hd1, <- app_assoc. apply H1. by cbn; rewrite Hfatal.
        - intros Hf. destruct H2 as (before & err & after & Hb & Hbf & He & Ha & Hr);
            [by cbn; rewrite Hfatal|].
          destruct before as [|e0 before]; [by injection Hb as -> <-; cbn in Hfatal; rewrite He in Hfatal|].
          injection Hb as -> Hb. exists before, err, after. split_and!; try done.
          by cbn in Hbf; rewrite Hfatal in Hbf. }
      destruct event as [| |err]; [exact Hc1|exact Hc1|]. cbn in Hfatal. by rewrite Hfatal. }
  destruct event as [| |err]; try done. cbn in Hfatal. rewrite Hfatal.
  destruct H2 as (before & err' & after & Hb & Hbf & He & Ha & _); [by cbn; rewrite Hfatal|].
  destruct before as [|e0 before]; [|by injection Hb as <- _; cbn in Hbf; rewrite Hfatal in Hbf].
  injection Hb as <- Hrest. subst after.
  destruct (disconnect_spec false (Ok ()) c1) as (D1 & _ & D3 & D4 & _ & D6 & _ & _ & _).
  destruct (gained_disconnect false (Ok ()) c1) as [_ Hd2]. rewrite Hd1 in Hd2.
  set (c2 := disconnect false (Ok ()) c1) in *. change (queue c1) with rest in D4.
  assert (Hf2 : existsb fatal_event (queue c2) = false) by (rewrite D4; by apply mild_not_fatal).
  unfold after_fatal. destruct (can_reconnect err) eqn:Hcan; cbn [negb].
  - destruct (ReconnectGate.can_reconnect _ _) as [[u|until] gate].
    + apply agrees_reconnect; try done. change (reconnect_max_tries c2 <> 0). by rewrite D6.
    + apply (agrees_lost c2 _ (RE_ReconnectSuppressed until)); try done.
      by exists [].
  - split; [done|..]; rewrite Hf2; [|done]. intros _. rewrite Hd2, D4, D3, foldl_app, foldl_app.
    rewrite (mild_status rest) by done. cbn. rewrite Hfatal, Hcan. by destruct err as [[[]|]| | | | | |].
Qed.

Lemma agrees_step c step :
  agrees c -> calm c step -> reconnect_max_tries c <> 0 -> agrees (client_step c step).
Proof.
  intros Hag Hcalm Htries. pose proof (ag_ok c Hag) as Hok.
  destruct step as [position a|serialized|serialized msg|entry|r|err|m now later|skipped];
    cbn [client_step calm] in *; try done.
  - case_decide as Hs; [|done]. set (c1 := with_position c position).
    assert (Hok1 : client_ok c1) by (destruct Hok; by split).
    destruct (connect_spec a c1 Hok1 Hs) as [[A1 _ _ _ _ A6] _].
    pose proof (gained_connect a c1 Hok1 Hs) as Hg. unfold login_event in Hg.
    assert (Hg0 : forall tail, gained c1 (connect a c1).2 tail -> gained c (connect a c1).2 tail)
      by (intros tail []; by split). apply Hg0 in Hg.
    destruct (login_of a) as [info|err].
    + by apply (agrees_connected c _ info); [|rewrite Hcalm| |].
    + apply (agrees_gained c); try done; [congruence|]. intros [Hr _]%andb_true_iff.
      apply (ok_reader _ A1) in Hr. congruence.
  - destruct (send_frame serialized msg c) as (F1 & F2 & F3 & F4 & _). apply (agrees_gained c); try done.
    + destruct Hok. split; by rewrite ?F1, ?F2, ?F3, ?F4.
    + apply gained_send.
    + by rewrite F3, F4.
  - apply (agrees_gained c); try done; [destruct Hok; by split|by apply gained_same].
  - destruct (reader c) eqn:Hr; [|done]. by apply agrees_reader.
  - destruct (writer c) eqn:Hw; [|done]. unfold writer_fails.
    assert (Hst : state (emit_task_error c err) = state c)
      by (unfold emit_task_error; by case_decide).
    apply (agrees_task_error c _ err); try done.
    + destruct Hok as [K1 K2 K3 K4]. unfold emit_task_error. destruct (decide (state c = StLoggedIn)); by split.
    + unfold emit_task_error. by case_decide.
    + cbn. by rewrite andb_false_r.
    + intros He _. rewrite Hw. destruct Hcalm as [->|H]; [done|congruence].
  - by apply agrees_supervise.
Qed.

Lemma supervise_tries m now later c :
  client_ok c -> reconnect_max_tries (supervise m now later c) = reconnect_max_tries c.
Proof.
  intros Hok. unfold supervise. destruct (queue c) as [|event rest]; [done|].
  destruct (negb (supervised c)); [done|]. destruct event as [| |err]; [done|done|].
  destruct (is_fatal err); [|done]. set (c1 := did _ _).
  destruct (disconnect_spec false (Ok ()) c1) as (D1 & _ & D3 & _ & _ & D6 & _).
  unfold after_fatal. destruct (negb (can_reconnect err)); [done|].
  destruct (ReconnectGate.can_reconnect _ _) as [[u|until] gate]; [|done].
  set (c2 := with_gate _ _). assert (Hok2 : client_ok c2) by (destruct D1; by split).
  destruct (reconnect_kept m (needs_session_terminate err) c2 Hok2 D3) as [_ _ Hsetup _].
  assert (H : reconnect_max_tries c2 = reconnect_max_tries c) by done.
  apply same_tries in Hsetup. rewrite H in Hsetup. clearbody c2.
  by destruct (reconnect m _ c2) as [[|reason|] c3].
Qed.

Lemma step_tries c step :
  client_ok c -> reconnect_max_tries (client_step c step) = reconnect_max_tries c.
Proof.
  intros Hok. destruct step as [position a|serialized|serialized msg|entry|r|err|m now later|skipped];
    cbn [client_step]; try done.
  - case_decide as Hs; [|done]. set (c1 := with_position c position).
    assert (Hok1 : client_ok c1) by (destruct Hok; by split).
    destruct (connect_spec a c1 Hok1 Hs) as [[_ _ A3 _ _ _] _]. by rewrite (same_tries _ _ A3).
  - by destruct (disconnect_spec true serialized c) as (_ & _ & _ & _ & _ & -> & _).
  - apply (same_tries _ _ (send_setup serialized msg c)).
  - destruct (reader c); [|done]. apply (same_tries _ _ (reader_turn_setup r c)).
  - destruct (writer c); [|done]. unfold writer_fails, emit_task_error. by case_decide.
  - by apply supervise_tries.
Qed.

Lemma agrees_run steps : forall c,
  agrees c -> calm_run c steps -> reconnect_max_tries c <> 0 -> agrees (client_run c steps).
Proof.
  induction steps as [|step steps IH]; intros c Hag Hcalm Htries; [done|].
  destruct Hcalm as [Hstep Hcalm]. apply IH; [by apply agrees_step|done|].
  rewrite step_tries; [done|apply Hag].
Qed.

Section shown_connection.
Context {HO : HashOrder} {SD : SessionDescriptions}.


(** With the reconnects off nobody connects again, and the client shows that it
    is connecting. *)
Theorem disabled_reconnect_stays_connecting m now later err c env w :
  client_ok c -> supervised c = true -> reconnect_max_tries c = 0 ->
  is_fatal err = true -> can_reconnect err = true ->
  (ReconnectGate.can_reconnect (reconnect_gate c) now).1 = Ok () ->
  let c' := supervise m now later (with_queue c (EError err :: queue c)) in
  state c' = StDisconnected /\ queue c' = queue c /\
  connection_state (app (take_step env (deliver (EError err)) w).2) = Connecting.
Proof.
  intros Hok Hsup Htries Hfatal Hcan Hgate. cbv zeta. split_and!.
  3: { rewrite deliver_status. cbn. rewrite Hfatal, Hcan. by destruct err as [[[]|]| | | | | |]. }
  all: unfold supervise; cbn [queue with_queue supervised]; rewrite Hsup, Hfatal; cbn [negb].
  all: set (c1 := did _ _);
    destruct (disconnect_spec false (Ok ()) c1) as (D1 & _ & D3 & D4 & _ & D6 & _ & _ & D9);
    unfold after_fatal; rewrite Hcan; cbn [negb].
  all: set (c2 := disconnect false (Ok ()) c1) in *; change (reconnect_gate c2 = reconnect_gate c) in D9;
    rewrite D9; destruct (ReconnectGate.can_reconnect (reconnect_gate c) now) as [r gate];
    cbn in Hgate; subst r; set (c3 := with_gate c2 _).
  all: assert (H : reconnect m (needs_session_terminate err) c3 = (ROk, c3))
    by (unfold reconnect; change (reconnect_max_tries c3) with (reconnect_max_tries c2);
        rewrite D6; change (reconnect_max_tries c1) with (reconnect_max_tries c); by rewrite Htries).
  all: rewrite H; done.
Qed.
End shown_connection.

(** ** Concrete runs *)

Section witnesses.
#[local] Existing Instance listed_order.
#[local] Instance no_descriptions : SessionDescriptions := {|
  has_reconnect_capability _ := false;
  tag_reconnect_capability sdp := sdp
|}.

Let ann : ClientInfo := mkClientInfo (ClientId_from "1000001") "LOVV_CTR" "132.600" None.
Let session : ServerMessage := SM_SessionInfo (mkSessionInfo ann (Changed Custom) [] None).
Let works : Attempt := mkAttempt (Ok ()) (Ok "token") (Ok ()) [Ok session] (SE_Timeout "login").
Let refused : Attempt := mkAttempt (Err SE_Transport) (Ok "token") (Ok ()) [] (SE_Timeout "login").
(** The second attempt succeeds. *)
Let meanwhile : Meanwhile :=
  mkMeanwhile (λ n, if n =? 1 then refused else works) (λ _ max, max) (λ _, false).
Let config0 : ClientConfig := mkClientConfig ∅ 30 false true true true true true true.
Let env0 : Env :=
  mkEnv 0 (λ _ _, true) (λ _ _ _, Err ErrOther) (λ _ _, true) (Ok 1%N) (Ok ()) (Ok ()) (mkCallId 1).
Let turn : ClientStep := SupervisorTurn meanwhile 1000 1000.
Let lost : SignalingRuntimeError := RE_Transport (TransportReceive "reset").

Lemma meanwhile_sane n : sane (attempts meanwhile n) /\ shutdown_during meanwhile n = false.
Proof.
  split; [|done]. cbn. destruct (n =? 1); split_and!; cbn; try done; try (by eexists).
Qed.

(** The connection is lost, refused once, and back. *)
Let lost_and_back : list ClientStep :=
  [UserConnects None works; turn; turn; ReaderGets (Err lost); turn; turn; turn].


(** The writer and the reader of one connection both report that it is gone: the
    second error ends the connection that replaced it, and the client is shown as
    connected although it is not. *)
Lemma stale_error_ends_new_connection :
  let c := client_run (new false 8 true)
    [UserConnects None works; turn; turn;
     WriterFails (RE_Transport (TransportSend "broken pipe"));
     ReaderGets (Err (RE_Disconnected (Some Terminated)));
     turn; turn; turn; turn] in
  state c = StDisconnected /\ queue c = [] /\
  connection_state (app (run (started config0)
    ((λ event, (env0, deliver event)) <$> delivered (trace c)))) = Connected.
Proof. split_and!; by vm_compute. Qed.
End witnesses.
