(* ===== verification/Store.v ===== *)
(** Store: the store of the server, [vacs-server/src/store.rs] and
    [store/memory.rs], the tokens [state.rs] keeps in it, and who a request is
    from ([auth/extractor.rs]).

    The store in memory is modelled; Redis is another service. The JSON library
    and the check of a UUID are parameters, a fresh token is an argument. *)
From stdpp Require Import prelude gmap strings list.
From Stdlib Require Import NArith Ascii.
From S2P Require Import Prelude Protocol Calls.

(** The JSON library on strings, with what is relied on: what was written is read. *)
Class JsonText := {
  to_vec : string -> string;
  from_slice : string -> option string;
  from_to_vec : forall s, from_slice (to_vec s) = Some s
}.

(** [Uuid::try_parse(token).is_ok()] *)
Class UuidSyntax := try_parse_uuid : string -> bool.

Record StoredValue := mkStoredValue { stored_value : string; expires_at : option Instant }.

(** [DashMap] *)
Abbreviation MemoryStore := (gmap string StoredValue).

(** The part of a key before its second dot. *)
Fixpoint before_dot (dots : nat) (key : string) : option string :=
  match key with
  | EmptyString => None
  | String c rest =>
    if Ascii.eqb c "."%char then
      match dots with
      | 0 => Some EmptyString
      | S dots => String c <$> before_dot dots rest
      end
    else String c <$> before_dot dots rest
  end.

Definition key_prefix (key : string) : string := default EmptyString (before_dot 1 key).

Module MemoryStore.
Section store.
Context {JT : JsonText}.

Definition expired (v : StoredValue) (now : Instant) : bool :=
  match expires_at v with Some expires_at => (expires_at <? now)%N | None => false end.

(** The error is that the value cannot be read. *)
Definition get (store : MemoryStore) (key : string) (now : Instant) :
    Result (option string) () * MemoryStore :=
  match store !! key with
  | Some v =>
    if expired v now then (Ok None, delete key store)
    else
      match from_slice (stored_value v) with
      | Some value => (Ok (Some value), store)
      | None => (Err (), store)
      end
  | None => (Ok None, store)
  end.

Definition set (store : MemoryStore) (key value : string) (expiry : option Duration)
    (now : Instant) : MemoryStore :=
  <[key := mkStoredValue (to_vec value) ((λ expiry, (now + expiry)%N) <$> expiry)]> store.

Definition remove (store : MemoryStore) (key : string) : MemoryStore := delete key store.

Definition expire (store : MemoryStore) (key : string) (duration : Duration) (now : Instant) :
    MemoryStore :=
  match store !! key with
  | Some v => <[key := mkStoredValue (stored_value v) (Some (now + duration)%N)]> store
  | None => store
  end.
End store.
End MemoryStore.

(** ** Tokens ([AppState]) *)

Definition ws_key (token : string) : string := "ws.token." +:+ token.
Definition api_key (token : string) : string := "api.token." +:+ token.

Definition WS_TOKEN_EXPIRY : Duration := 30000000000.

Module Tokens.
Section tokens.
Context {JT : JsonText} {US : UuidSyntax}.

(** [token]: the fresh UUID *)
Definition generate_ws_auth_token (store : MemoryStore) (token cid : string) (now : Instant) :
    string * MemoryStore :=
  (token, MemoryStore.set store (ws_key token) cid (Some WS_TOKEN_EXPIRY) now).

Definition verify_ws_auth_token (store : MemoryStore) (token : string) (now : Instant) :
    Result ClientId () * MemoryStore :=
  let (found, store) := MemoryStore.get store (ws_key token) now in
  (match found with Ok (Some cid) => Ok (ClientId_from cid) | _ => Err () end, store).

Definition generate_api_token (store : MemoryStore) (token cid : string) (expiry : Duration)
    (now : Instant) : string * MemoryStore :=
  (token, MemoryStore.set store (api_key token) cid (Some expiry) now).

Definition verify_api_token (store : MemoryStore) (token : string) (expiry : Duration)
    (now : Instant) : Result (option ClientId) () * MemoryStore :=
  if negb (try_parse_uuid token) then (Ok None, store)
  else
    let (found, store) := MemoryStore.get store (api_key token) now in
    match found with
    | Ok (Some cid) =>
      (Ok (Some (ClientId_from cid)), MemoryStore.expire store (api_key token) expiry now)
    | Ok None => (Ok None, store)
    | Err e => (Err e, store)
    end.

Definition revoke_api_token (store : MemoryStore) (token : string) : MemoryStore :=
  MemoryStore.remove store (api_key token).
End tokens.
End Tokens.

(** ** Who a request is from ([AuthenticatedUser]) *)

(** [str::strip_prefix] *)
Fixpoint strip_prefix (prefix s : string) : option string :=
  match prefix, s with
  | EmptyString, s => Some s
  | String a prefix, String b s => if Ascii.eqb a b then strip_prefix prefix s else None
  | String _ _, EmptyString => None
  end.

(** [authorization]: the header, if it is there and readable *)
Definition extract_bearer_token (authorization : option string) : option string :=
  header ← authorization;
  token ← strip_prefix "Bearer " header;
  if bool_decide (token = EmptyString) then None else Some token.

Record AuthenticatedUser := mkAuthenticatedUser { user_cid : ClientId; api_token : option string }.

(** [session_user]: the user of the session cookie. [None]: unauthorized. *)
Definition authenticate {JT : JsonText} {US : UuidSyntax} (store : MemoryStore)
    (authorization : option string) (session_user : option ClientId) (expiry : Duration)
    (now : Instant) : option AuthenticatedUser * MemoryStore :=
  match extract_bearer_token authorization with
  | Some token =>
    let (found, store) := Tokens.verify_api_token store token expiry now in
    (match found with
     | Ok (Some cid) => Some (mkAuthenticatedUser cid (Some token))
     | _ => None
     end, store)
  | None => ((λ cid, mkAuthenticatedUser cid None) <$> session_user, store)
  end.

(** ** Runs of the store *)

Inductive TokenOp :=
| IssueWs (token cid : string) (now : Instant)
| CheckWs (token : string) (now : Instant)
| IssueApi (token cid : string) (now : Instant)
| CheckApi (token : string) (now : Instant)
| Revoke (token : string).

Section runs.
Context {JT : JsonText} {US : UuidSyntax} (expiry : Duration).

Definition token_step (store : MemoryStore) (op : TokenOp) : MemoryStore :=
  match op with
  | IssueWs token cid now => (Tokens.generate_ws_auth_token store token cid now).2
  | CheckWs token now => (Tokens.verify_ws_auth_token store token now).2
  | IssueApi token cid now => (Tokens.generate_api_token store token cid expiry now).2
  | CheckApi token now => (Tokens.verify_api_token store token expiry now).2
  | Revoke token => Tokens.revoke_api_token store token
  end.

Definition token_run (store : MemoryStore) (ops : list TokenOp) : MemoryStore :=
  foldl token_step store ops.
End runs.
