(* ===== verification/TokenProperties.v ===== *)
(** TokenProperties: how long a token is worth something, and to whom. *)
From stdpp Require Import prelude gmap strings list.
From Stdlib Require Import NArith.
From S2P Require Import Prelude Protocol Calls Store.

(** ** Keys *)

#[export] Instance ws_key_inj : Inj (=) (=) ws_key.
Proof. intros a b H. by injection H. Qed.
#[export] Instance api_key_inj : Inj (=) (=) api_key.
Proof. intros a b H. by injection H. Qed.
Lemma ws_api_key a b : ws_key a <> api_key b.
Proof. done. Qed.

Lemma strip_prefix_Some prefix : forall s rest,
  strip_prefix prefix s = Some rest <-> s = prefix +:+ rest.
Proof.
  induction prefix as [|a prefix IH]; intros s rest; [cbn; naive_solver|].
  destruct s as [|b s]; [done|]. cbn [strip_prefix].
  destruct (Ascii.eqb_spec a b) as [->|Hne].
  - rewrite IH. split; [by intros ->|by intros [=]].
  - split; [done|]. by intros [= ->].
Qed.

Lemma bearer_token_Some header token :
  extract_bearer_token (Some header) = Some token <-> header = "Bearer " +:+ token /\ token <> "".
Proof.
  unfold extract_bearer_token. cbn [mbind option_bind]. rewrite <- (strip_prefix_Some "Bearer ").
  destruct (strip_prefix "Bearer " header) as [rest|]; cbn; [case_bool_decide|]; naive_solver.
Qed.

(** ** One operation *)

Section steps.
Context {JT : JsonText} {US : UuidSyntax} (expiry : Duration).

Lemma get_other store key key' now :
  key' <> key -> (MemoryStore.get store key now).2 !! key' = store !! key'.
Proof.
  intros Hne. unfold MemoryStore.get. destruct (store !! key) as [v|]; [|done].
  destruct (MemoryStore.expired v now); [cbn; by rewrite lookup_delete_ne|].
  by destruct (from_slice (stored_value v)).
Qed.

Lemma verify_api_other store token now key :
  key <> api_key token -> (Tokens.verify_api_token store token expiry now).2 !! key = store !! key.
Proof.
  intros Hne. unfold Tokens.verify_api_token. destruct (try_parse_uuid token); [|done]. cbn [negb].
  pose proof (get_other store (api_key token) key now Hne) as H.
  destruct (MemoryStore.get store (api_key token) now) as [[[cid|]|] store']; try done.
  cbn in *. unfold MemoryStore.expire. destruct (store' !! api_key token); [|done].
  by rewrite lookup_insert_ne.
Qed.

Lemma verify_ws_state store token now :
  (Tokens.verify_ws_auth_token store token now).2 = (MemoryStore.get store (ws_key token) now).2.
Proof. unfold Tokens.verify_ws_auth_token. by destruct (MemoryStore.get _ _ _). Qed.

(** What an operation does to a token of a socket and to one of a user *)
Lemma step_ws store token op :
  (forall cid now, op <> IssueWs token cid now) -> (forall now, op <> CheckWs token now) ->
  token_step expiry store op !! ws_key token = store !! ws_key token.
Proof.
  intros Hissue Hcheck. destruct op as [t cid now|t now|t cid now|t now|t]; cbn [token_step].
  - cbn. unfold MemoryStore.set. rewrite lookup_insert_ne; [done|]. intros ->%(inj ws_key).
    by destruct (Hissue cid now).
  - rewrite verify_ws_state. apply get_other. intros <-%(inj ws_key). by destruct (Hcheck now).
  - cbn. unfold MemoryStore.set. by rewrite lookup_insert_ne.
  - by apply verify_api_other.
  - cbn. unfold Tokens.revoke_api_token, MemoryStore.remove. by rewrite lookup_delete_ne.
Qed.

Lemma step_api store token op :
  match op with
  | IssueApi t _ _ | CheckApi t _ | Revoke t => t <> token
  | _ => True
  end ->
  token_step expiry store op !! api_key token = store !! api_key token.
Proof.
  destruct op as [t cid now|t now|t cid now|t now|t]; intros Hne; cbn [token_step].
  - cbn. unfold MemoryStore.set. by rewrite lookup_insert_ne.
  - rewrite verify_ws_state. by apply get_other.
  - cbn. unfold MemoryStore.set. rewrite lookup_insert_ne; [done|]. by intros ?%(inj api_key).
  - apply verify_api_other. by intros ?%(inj api_key).
  - cbn. unfold Tokens.revoke_api_token, MemoryStore.remove. rewrite lookup_delete_ne; [done|].
    by intros ?%(inj api_key).
Qed.

(** A value of a user that lasts until [until] *)
Definition lasting (cid : string) (until : Instant) : StoredValue :=
  mkStoredValue (to_vec cid) (Some until).

Lemma verify_api_at store token cid until now :
  try_parse_uuid token = true -> store !! api_key token = Some (lasting cid until) ->
  Tokens.verify_api_token store token expiry now =
    if (until <? now)%N then (Ok None, delete (api_key token) store)
    else (Ok (Some (ClientId_from cid)), <[api_key token := lasting cid (now + expiry)]> store).
Proof.
  intros Hu Hs. unfold Tokens.verify_api_token, MemoryStore.get. rewrite Hu, Hs. cbn.
  unfold MemoryStore.expired. cbn. destruct (until <? now)%N; [done|].
  rewrite from_to_vec. unfold MemoryStore.expire. by rewrite Hs.
Qed.

Lemma verify_api_none store token now :
  store !! api_key token = None -> Tokens.verify_api_token store token expiry now = (Ok None, store).
Proof.
  intros Hs. unfold Tokens.verify_api_token, MemoryStore.get.
  destruct (try_parse_uuid token); cbn; [by rewrite Hs|done].
Qed.

Lemma token_run_snoc store ops op :
  token_run expiry store (ops ++ [op]) = token_step expiry (token_run expiry store ops) op.
Proof. unfold token_run. by rewrite foldl_app. Qed.

(** ** Until when a token of a user lasts *)

(** The abstract clock of one token: every use in time starts it again. *)
Definition clock_step (token : string) (until : option Instant) (op : TokenOp) : option Instant :=
  match op with
  | IssueApi t _ now => if decide (t = token) then Some (now + expiry)%N else until
  | CheckApi t now =>
    if decide (t = token) then
      until ← until; if (until <? now)%N then None else Some (now + expiry)%N
    else until
  | Revoke t => if decide (t = token) then None else until
  | IssueWs _ _ _ | CheckWs _ _ => until
  end.

Definition clock (token : string) (ops : list TokenOp) : option Instant :=
  foldl (clock_step token) None ops.

(** The user of the last issue *)
Definition owner_step (token : string) (owner : string) (op : TokenOp) : string :=
  match op with IssueApi t cid _ => if decide (t = token) then cid else owner | _ => owner end.

Definition owner (token : string) (ops : list TokenOp) : string := foldl (owner_step token) "" ops.

Lemma api_entry token ops :
  try_parse_uuid token = true ->
  token_run expiry ∅ ops !! api_key token = lasting (owner token ops) <$> clock token ops.
Proof.
  intros Hu. induction ops as [|op ops IH] using rev_ind; [done|].
  unfold clock, owner in *. rewrite token_run_snoc, !foldl_app. cbn [foldl].
  set (store := token_run expiry ∅ ops) in *.
  set (until := foldl (clock_step token) None ops) in *. clearbody store until.
  destruct op as [t cid now|t now|t cid now|t now|t]; cbn [clock_step owner_step].
  - by rewrite step_api.
  - by rewrite step_api.
  - case_decide as Ht; [subst t|by rewrite step_api]. cbn. unfold MemoryStore.set.
    by rewrite lookup_insert_eq.
  - case_decide as Ht; [subst t|by rewrite step_api]. cbn [token_step].
    destruct until as [until|]; cbn in IH |- *.
    + rewrite (verify_api_at _ _ _ _ now Hu IH). destruct (until <? now)%N; cbn.
      * by rewrite lookup_delete_eq.
      * by rewrite lookup_insert_eq.
    + by rewrite (verify_api_none _ _ now IH).
  - case_decide as Ht; [subst t|by rewrite step_api]. cbn. unfold Tokens.revoke_api_token,
      MemoryStore.remove. by rewrite lookup_delete_eq.
Qed.
End steps.

(** ** Properties *)

Section properties.
Context {JT : JsonText} {US : UuidSyntax} (expiry : Duration).

(** An operation between two times that does not issue the token again *)
Definition meanwhile (token : string) (from to : Instant) (op : TokenOp) : Prop :=
  match op with
  | IssueWs t _ _ => t <> token
  | CheckWs _ now => (from <= now)%N /\ (now <= to)%N
  | IssueApi _ _ _ | CheckApi _ _ | Revoke _ => True
  end.

(** C29: the token for a socket names the user it was issued to for thirty seconds
    and nobody afterwards, however often it is checked and whatever else happens
    to the store. *)
Theorem ws_token_lifetime store token cid issued now ops :
  Forall (meanwhile token issued now) ops ->
  let store' := token_run expiry (Tokens.generate_ws_auth_token store token cid issued).2 ops in
  (Tokens.verify_ws_auth_token store' token now).1 =
    if (now <=? issued + WS_TOKEN_EXPIRY)%N then Ok (ClientId_from cid) else Err ().
Proof.
  intros Hops. cbv zeta. set (until := (issued + WS_TOKEN_EXPIRY)%N).
  set (store0 := (Tokens.generate_ws_auth_token store token cid issued).2).
  assert (H0 : store0 !! ws_key token = Some (lasting cid until)).
  { subst store0. cbn. unfold MemoryStore.set. by rewrite lookup_insert_eq. }
  assert (H : token_run expiry store0 ops !! ws_key token = Some (lasting cid until) \/
    token_run expiry store0 ops !! ws_key token = None /\ (until < now)%N).
  { clearbody store0. induction ops as [|op ops IH] using rev_ind; [by left|].
    apply Forall_app in Hops as [Hops Hop]. rewrite Forall_singleton in Hop. rewrite token_run_snoc.
    specialize (IH Hops). set (s := token_run expiry store0 ops) in *. clearbody s.
    destruct op as [t c n|t n| | |]; try (rewrite step_ws; [exact IH|done|done]).
    - rewrite step_ws; [exact IH| |done]. intros ? ? [=]. by apply Hop.
    - destruct (decide (t = token)) as [->|Hne].
      2: { rewrite step_ws; [exact IH|done|]. by intros ? [=]. }
      cbn [token_step]. rewrite verify_ws_state. unfold MemoryStore.get.
      destruct IH as [Hs|[Hs Hlt]]; rewrite Hs; [|by right]. unfold MemoryStore.expired.
      cbn [lasting expires_at]. destruct Hop as [_ Hn]. destruct (N.ltb_spec until n) as [Hlt|Hle].
      + right. cbn. split; [by rewrite lookup_delete_eq|lia].
      + cbn. rewrite from_to_vec. by left. }
  unfold Tokens.verify_ws_auth_token, MemoryStore.get.
  destruct H as [->|[-> Hlt]].
  - unfold MemoryStore.expired. cbn [lasting expires_at].
    destruct (N.ltb_spec until now), (N.leb_spec now until); try lia; [done|].
    cbn. by rewrite from_to_vec.
  - destruct (N.leb_spec now until); [lia|done].
Qed.

(** The token of a user refines a clock that every use in time starts again:
    on every run of the store it names the user it was last issued to exactly
    while the clock has not run out, and a token that was never issued, was
    revoked or ran out names nobody. *)
Theorem api_token_follows_clock ops token now :
  (Tokens.verify_api_token (token_run expiry ∅ ops) token expiry now).1 =
    Ok (until ← clock expiry token ops;
        if try_parse_uuid token && (now <=? until)%N then Some (ClientId_from (owner token ops))
        else None).
Proof.
  destruct (try_parse_uuid token) eqn:Hu.
  2: { unfold Tokens.verify_api_token. rewrite Hu. cbn. by destruct (clock expiry token ops). }
  pose proof (api_entry expiry token ops Hu) as H.
  destruct (clock expiry token ops) as [until|]; cbn in H |- *.
  - rewrite (verify_api_at _ _ _ _ _ now Hu H).
    by destruct (N.ltb_spec until now), (N.leb_spec now until); try lia.
  - by rewrite (verify_api_none _ _ _ now H).
Qed.

(** Whoever a request with a token comes from was issued that token, and it
    was not revoked since. *)
Theorem bearer_was_issued ops header session_user now user token :
  (authenticate (token_run expiry ∅ ops) (Some header) session_user expiry now).1 = Some user ->
  api_token user = Some token ->
  header = "Bearer " +:+ token /\
  exists before cid issued after, ops = before ++ IssueApi token cid issued :: after /\
    user_cid user = ClientId_from cid /\ Revoke token ∉ after.
Proof.
  unfold authenticate. destruct (extract_bearer_token (Some header)) as [t|] eqn:Ht.
  2: { destruct session_user; [|done]. by intros [= <-]. }
  apply bearer_token_Some in Ht as [-> _].
  pose proof (api_token_follows_clock ops t now) as H.
  destruct (Tokens.verify_api_token _ _ _ _) as [found store]. cbn in H. subst found.
  destruct (clock expiry t ops) as [until|] eqn:Hc; [|done]. cbn.
  destruct (try_parse_uuid t && (now <=? until)%N); [|done]. intros [= <-] [= ->].
  split; [done|]. clear now. revert until Hc.
  induction ops as [|op ops IH] using rev_ind; intros lim Hc; [done|].
  unfold clock, owner in *. rewrite foldl_app in Hc. rewrite foldl_app. cbn [foldl] in *.
  destruct (foldl (clock_step expiry token) None ops) as [u|] eqn:Hu.
  - destruct op as [t cid now|t now|t cid now|t now|t]; cbn [clock_step owner_step] in *;
      repeat case_decide; subst; try done;
      try (destruct (IH u eq_refl) as (before & c & issued & after & -> & Hc' & Hr);
           eexists before, c, issued, (after ++ [_]); rewrite <- app_assoc; split_and!;
           [done|done|rewrite not_elem_of_app, list_elem_of_singleton; split; [done|congruence]]).
    exists ops, cid, now, []. split_and!; [done|done|apply not_elem_of_nil].
  - destruct op as [t cid now|t now|t cid now|t now|t]; cbn [clock_step owner_step] in *;
      repeat case_decide; subst; try done.
    exists ops, cid, now, []. split_and!; [done|done|apply not_elem_of_nil].
Qed.

(** What is logged of a key tells nothing of its token. *)
Lemma key_prefix_hides_token token :
  key_prefix (ws_key token) = "ws.token" /\ key_prefix (api_key token) = "api.token".
Proof. done. Qed.
End properties.

(** ** Concrete tokens *)

Section witnesses.
Let quoted : JsonText := {|
  to_vec s := s;
  from_slice s := Some s;
  from_to_vec _ := eq_refl
|}.
Let any_uuid : UuidSyntax := λ _, true.
#[local] Existing Instance quoted.
#[local] Existing Instance any_uuid.

Lemma ws_token_lifetime_witness :
  let store := token_run 60 (Tokens.generate_ws_auth_token ∅ "t1" "1000001" 5).2
    [IssueWs "t2" "1000002" 9; CheckWs "t1" 100; Revoke "t1"] in
  (Tokens.verify_ws_auth_token store "t1" 200).1 = Ok (ClientId_from "1000001").
Proof.
  intros store. apply (ws_token_lifetime 60 ∅ "t1" "1000001" 5 200).
  repeat constructor; cbn; try done; by intros [=].
Defined.

(** Used after 50, 100 and 150 of 60, and not after 211 *)
Example used_token :
  let ops := [IssueApi "t" "1000001" 0; CheckApi "t" 50; CheckApi "t" 100] in
  (Tokens.verify_api_token (token_run 60 ∅ ops) "t" 60 150).1 = Ok (Some (ClientId_from "1000001")) /\
  (Tokens.verify_api_token (token_run 60 ∅ ops) "t" 60 161).1 = Ok None.
Proof. split; reflexivity. Qed.

Lemma bearer_was_issued_witness :
  let ops := [IssueApi "t" "1000001" 0; CheckApi "t" 50] in
  exists before cid issued after, ops = before ++ IssueApi "t" cid issued :: after /\
    ClientId_from "1000001" = ClientId_from cid /\ Revoke "t" ∉ after.
Proof.
  intros ops.
  apply (bearer_was_issued 60 ops "Bearer t" None 100
    (mkAuthenticatedUser (ClientId_from "1000001") (Some "t")) "t"); reflexivity.
Defined.
End witnesses.
