(* ===== verification/Releases.v ===== *)
(** Releases: what the server offers a client as an update,
    [vacs-server/src/release.rs], [release/policy.rs], [release/catalog.rs],
    [catalog/file.rs] and [catalog/github.rs], with the channels of
    [vacs-protocol/src/http/version.rs].

    The versions and their ranges ([semver]), the titles of a release
    ([title_pattern]) and what GitHub or a file answers are parameters. The
    signatures and their cache are not modelled beyond their result. *)
From stdpp Require Import prelude gmap strings list.
From Stdlib Require Import NArith Ascii.
From S2P Require Import Prelude Protocol Calls Controllers.

(** The [semver] crate *)
Class Semver := {
  Version : Type;
  Version_eq_dec :: EqDecision Version;
  Version_countable :: Countable Version;
  version_leb : Version -> Version -> bool;
  version_parse : string -> option Version;
  version_to_string : Version -> string;
  version_pre : Version -> string;
  VersionReq : Type;
  req_parse : string -> option VersionReq;
  req_matches : VersionReq -> Version -> bool;
  has_upper_comparator : VersionReq -> bool
}.

(** Its order is total. *)
Class SemverLaws {SV : Semver} : Prop := {
  version_refl v : version_leb v v = true;
  version_trans u v w : version_leb u v = true -> version_leb v w = true -> version_leb u w = true;
  version_total u v : version_leb u v = true \/ version_leb v u = true;
  version_antisym u v : version_leb u v = true -> version_leb v u = true -> u = v
}.

(** ** Strings *)

(** The characters [char::is_whitespace] knows, in UTF-8 *)
Definition bytes (codes : list N) : string :=
  String.string_of_list_ascii (map ascii_of_N codes).
Definition whitespace : list string :=
  map bytes
    ([[9]; [10]; [11]; [12]; [13]; [32]; [194; 133]; [194; 160]; [225; 154; 128]; [226; 128; 168];
      [226; 128; 169]; [226; 128; 175]; [226; 129; 159]; [227; 128; 128]]
     ++ map (λ n, [226; 128; n]) [128; 129; 130; 131; 132; 133; 134; 135; 136; 137; 138])%N.

Fixpoint drop_bytes (n : nat) (s : string) : string :=
  match n, s with
  | S n, String _ s => drop_bytes n s
  | _, s => s
  end.

(** [fuel]: the length of the string *)
Fixpoint trim_start (fuel : nat) (s : string) : string :=
  match fuel with
  | 0 => s
  | S fuel =>
    match list_find (λ w, starts_with s w = true) whitespace with
    | Some (_, w) => trim_start fuel (drop_bytes (String.length w) s)
    | None => s
    end
  end.

Fixpoint trim_end (fuel : nat) (s : string) : string :=
  match fuel with
  | 0 => s
  | S fuel =>
    match list_find (λ w, ends_with s w = true) whitespace with
    | Some (_, w) => trim_end fuel (String.substring 0 (String.length s - String.length w) s)
    | None => s
    end
  end.

(** [str::trim] *)
Definition trim (s : string) : string :=
  let s := trim_start (String.length s) s in trim_end (String.length s) s.

Definition lowercase_ascii (a : ascii) : ascii :=
  let n := N_of_ascii a in
  if (65 <=? n)%N && (n <=? 90)%N then ascii_of_N (n + 32) else a.

Fixpoint to_ascii_lowercase (s : string) : string :=
  match s with
  | EmptyString => EmptyString
  | String a s => String (lowercase_ascii a) (to_ascii_lowercase s)
  end.

(** [str::contains] *)
Fixpoint contains (s part : string) : bool :=
  starts_with s part || match s with String _ s => contains s part | EmptyString => false end.

(** ** Channels and bundles *)

Inductive ReleaseChannel := Stable | Beta | Rc.

#[export] Instance ReleaseChannel_eq_dec : EqDecision ReleaseChannel.
Proof. solve_decision. Defined.
#[export] Instance ReleaseChannel_countable : Countable ReleaseChannel.
Proof.
  apply (inj_countable' (λ c, match c with Stable => 0 | Beta => 1 | Rc => 2 end)
    (λ n, match n with 0 => Stable | 1 => Beta | _ => Rc end)).
  by intros [].
Defined.

Module ReleaseChannel.
Definition as_str (c : ReleaseChannel) : string :=
  match c with Stable => "stable" | Beta => "beta" | Rc => "rc" end.

Definition from_str (s : string) : option ReleaseChannel :=
  let s := to_ascii_lowercase (trim s) in
  if bool_decide (s = "stable") then Some Stable
  else if bool_decide (s = "beta") then Some Beta
  else if bool_decide (s = "rc") || bool_decide (s = "dev") then Some Rc
  else None.
End ReleaseChannel.

Inductive BundleType := BT_Unknown | AppImage | Deb | Rpm | AppBundle | Msi | Nsis.

#[export] Instance BundleType_eq_dec : EqDecision BundleType.
Proof. solve_decision. Defined.

Module BundleType.
Definition as_str (b : BundleType) : string :=
  match b with
  | BT_Unknown => "unknown"
  | AppImage => "appimage"
  | Deb => "deb"
  | Rpm => "rpm"
  | AppBundle => "app"
  | Msi => "msi"
  | Nsis => "nsis"
  end.

Definition target (b : BundleType) : string :=
  match b with
  | BT_Unknown => "unknown"
  | AppImage | Deb | Rpm => "linux"
  | AppBundle => "darwin"
  | Msi | Nsis => "windows"
  end.

Definition from_str (s : string) : option BundleType :=
  let s := to_ascii_lowercase (trim s) in
  if bool_decide (s = "unknown") then Some BT_Unknown
  else if bool_decide (s = "appimage") then Some AppImage
  else if bool_decide (s = "deb") then Some Deb
  else if bool_decide (s = "rpm") then Some Rpm
  else if bool_decide (s = "app") then Some AppBundle
  else if bool_decide (s = "msi") then Some Msi
  else if bool_decide (s = "nsis") then Some Nsis
  else None.

Definition from_file_name (file_name : string) : option BundleType :=
  let file_name := to_ascii_lowercase file_name in
  if ends_with file_name ".appimage" then Some AppImage
  else if ends_with file_name ".deb" then Some Deb
  else if ends_with file_name ".rpm" then Some Rpm
  else if ends_with file_name ".app.tar.gz" then Some AppBundle
  else if ends_with file_name ".exe" then Some Nsis
  else if ends_with file_name ".msi" then Some Msi
  else None.
End BundleType.

(** ** Releases *)

Record ReleaseAsset := mkReleaseAsset {
  asset_name : string;
  asset_target : string;
  asset_arch : string;
  asset_bundle_type : BundleType;
  asset_url : string;
  asset_signature : option string
}.

#[export] Instance ReleaseAsset_eq_dec : EqDecision ReleaseAsset.
Proof. solve_decision. Defined.

(** [AppError], of which only the kind matters *)
Inductive AppError := NotFound | InternalServerError (message : string).

(** [sort_by]: stable *)
Fixpoint insert_sorted {A : Type} (leb : A -> A -> bool) (x : A) (l : list A) : list A :=
  match l with
  | [] => [x]
  | y :: l => if leb y x then y :: insert_sorted leb x l else x :: y :: l
  end.

Definition sort_by {A : Type} (leb : A -> A -> bool) (l : list A) : list A :=
  foldl (λ sorted x, insert_sorted leb x sorted) [] l.

(** A loop that may return early *)
Fixpoint try_map {A B E : Type} (f : A -> Result B E) (l : list A) : Result (list B) E :=
  match l with
  | [] => Ok []
  | x :: l =>
    match f x with
    | Err e => Err e
    | Ok y => match try_map f l with Err e => Err e | Ok ys => Ok (y :: ys) end
    end
  end.

Record ReleaseMeta {SV : Semver} := mkReleaseMeta {
  rm_id : N;
  rm_version : Version;
  rm_channel : ReleaseChannel;
  rm_required : bool;
  rm_notes : option string;
  rm_pub_date : option string;
  rm_assets : list ReleaseAsset
}.
Arguments mkReleaseMeta {SV}.

Record Release := mkRelease {
  rel_version : string;
  rel_required : bool;
  rel_url : string;
  rel_signature : string;
  rel_notes : option string;
  rel_pub_date : option string
}.

Definition meta_leb {SV : Semver} (a b : ReleaseMeta) : bool := version_leb (rm_version a) (rm_version b).

(** [m.version > *client_version] *)
Definition newer_than {SV : Semver} (v : Version) (m : ReleaseMeta) : bool := negb (version_leb (rm_version m) v).

(** ** The policy *)

Record Policy {SV : Semver} := mkPolicy {
  required_ranges : gmap ReleaseChannel (list VersionReq);
  compatible_protocol_range : VersionReq;
  visibility : gmap ReleaseChannel (list ReleaseChannel)
}.
Arguments mkPolicy {SV}.

Record RawPolicy := mkRawPolicy {
  raw_required_ranges : gmap string (list string);
  raw_compatible_protocol_range : string;
  raw_visibility : gmap string (list string)
}.

Definition or_error {A : Type} (o : option A) (message : string) : Result A AppError :=
  match o with Some a => Ok a | None => Err (InternalServerError message) end.

Definition default_visibility : gmap ReleaseChannel (list ReleaseChannel) :=
  <[Stable := [Stable]]> (<[Beta := [Beta; Stable]]> (<[Rc := [Rc]]> ∅)).

(** The entries of a map of the file, each with its key and values parsed *)
Fixpoint parse_entries {A : Type} (parse : string -> option A) (where_ : string)
    (entries : list (string * list string)) (acc : gmap ReleaseChannel (list A)) :
    Result (gmap ReleaseChannel (list A)) AppError :=
  match entries with
  | [] => Ok acc
  | (k, values) :: entries =>
    match try_map (λ s, or_error (parse s) where_) values with
    | Err e => Err e
    | Ok parsed =>
      match or_error (ReleaseChannel.from_str k) where_ with
      | Err e => Err e
      | Ok channel => parse_entries parse where_ entries (<[channel := parsed]> acc)
      end
    end
  end.

Definition VACS_PROTOCOL_VERSION : string := "3.0.0".

Module Policy.
Section policy.
Context {HO : HashOrder} {SV : Semver}.

(** [raw]: the file, if there is one, as parsed *)
Definition reload (p : Policy) (raw : option (Result RawPolicy AppError)) :
    Result Policy AppError :=
  match raw with
  | None => Ok p
  | Some (Err e) => Err e
  | Some (Ok raw) =>
    match parse_entries req_parse "required_ranges" (map_iter (raw_required_ranges raw)) ∅ with
    | Err e => Err e
    | Ok required_ranges =>
      match or_error (req_parse (raw_compatible_protocol_range raw)) "compatible_protocol_range" with
      | Err e => Err e
      | Ok range =>
        match or_error (version_parse VACS_PROTOCOL_VERSION) "protocol version" with
        | Err e => Err e
        | Ok server_protocol_version =>
          if negb (req_matches range server_protocol_version)
          then Err (InternalServerError "incompatible")
          else if has_upper_comparator range then Err (InternalServerError "upper comparator")
          else
            match
              parse_entries ReleaseChannel.from_str "visibility" (map_iter (raw_visibility raw)) ∅
            with
            | Err e => Err e
            | Ok visibility =>
              Ok (mkPolicy required_ranges range
                (if bool_decide (visibility = ∅) then default_visibility else visibility))
            end
        end
      end
    end
  end.

(** [any]: the range every version is in *)
Definition new (any : VersionReq) (raw : option (Result RawPolicy AppError)) :
    Result Policy AppError :=
  reload (mkPolicy ∅ any ∅) raw.

Definition visible_channels (p : Policy) (channel : ReleaseChannel) : list ReleaseChannel :=
  default [channel] (visibility p !! channel).

Definition is_required (p : Policy) (channel : ReleaseChannel) (version : Version) : bool :=
  existsb (λ ch,
    match required_ranges p !! ch with
    | Some reqs => existsb (λ req, req_matches req version) reqs
    | None => false
    end) (visible_channels p channel).

Definition is_compatible_protocol (p : Policy) (version : Version) : bool :=
  req_matches (compatible_protocol_range p) version.
End policy.
End Policy.

(** ** The catalog in a file *)

Record ManifestRelease {SV : Semver} := mkManifestRelease {
  mr_id : N;
  mr_version : Version;
  mr_required : bool;
  mr_notes : option string;
  mr_pub_date : option string;
  mr_assets : list ReleaseAsset
}.
Arguments mkManifestRelease {SV}.

Record Manifest {SV : Semver} := mkManifest {
  mf_stable : list ManifestRelease;
  mf_beta : list ManifestRelease;
  mf_rc : list ManifestRelease
}.
Arguments mkManifest {SV}.

Record FileCatalog {SV : Semver} := mkFileCatalog {
  fc_stable : list ReleaseMeta;
  fc_beta : list ReleaseMeta;
  fc_rc : list ReleaseMeta
}.
Arguments mkFileCatalog {SV}.

Definition assign_channel {SV : Semver} (ch : ReleaseChannel) (items : list ManifestRelease) : list ReleaseMeta :=
  map (λ r, mkReleaseMeta (mr_id r) (mr_version r) ch (mr_required r) (mr_notes r) (mr_pub_date r)
    (mr_assets r)) items.

Fixpoint duplicate_version {SV : Semver} (l : list ReleaseMeta) : bool :=
  match l with
  | a :: (b :: _) as l' => bool_decide (rm_version a = rm_version b) || duplicate_version l'
  | _ => false
  end.

Definition validate_and_sort {SV : Semver} (v : list ReleaseMeta) : Result (list ReleaseMeta) AppError :=
  let v := sort_by meta_leb v in
  if duplicate_version v then Err (InternalServerError "duplicate version") else Ok v.

Module FileCatalog.
Section catalog.
Context {SV : Semver}.

Definition reload (c : FileCatalog) (manifest : option (Result Manifest AppError)) :
    Result FileCatalog AppError :=
  match manifest with
  | None => Ok c
  | Some (Err e) => Err e
  | Some (Ok manifest) =>
    match validate_and_sort (assign_channel Stable (mf_stable manifest)) with
    | Err e => Err e
    | Ok stable =>
      match validate_and_sort (assign_channel Beta (mf_beta manifest)) with
      | Err e => Err e
      | Ok beta =>
        match validate_and_sort (assign_channel Rc (mf_rc manifest)) with
        | Err e => Err e
        | Ok rc => Ok (mkFileCatalog stable beta rc)
        end
      end
    end
  end.

Definition new (manifest : option (Result Manifest AppError)) : Result FileCatalog AppError :=
  reload (mkFileCatalog [] [] []) manifest.

Definition list_channel (c : FileCatalog) (channel : ReleaseChannel) : list ReleaseMeta :=
  match channel with Stable => fc_stable c | Beta => fc_beta c | Rc => fc_rc c end.

Definition load_signature (asset : ReleaseAsset) : string :=
  default EmptyString (asset_signature asset).
End catalog.
End FileCatalog.

(** ** The update *)

Definition fits (target arch : string) (bundle_type : BundleType) (a : ReleaseAsset) : bool :=
  bool_decide (asset_bundle_type a = bundle_type) && bool_decide (asset_target a = target)
  && bool_decide (asset_arch a = arch).

Section update.
Context {SV : Semver}.

(** The [for] loop over the visible channels; the catalog may fail. *)
Fixpoint newer_releases (catalog : ReleaseChannel -> Result (list ReleaseMeta) AppError)
    (client_version : Version) (fit : ReleaseAsset -> bool) (visible : list ReleaseChannel) :
    Result (list (ReleaseMeta * ReleaseAsset)) AppError :=
  match visible with
  | [] => Ok []
  | ch :: visible =>
    match catalog ch with
    | Err e => Err e
    | Ok releases =>
      let found :=
        omap (λ m, if newer_than client_version m then (λ a, (m, a)) <$> List.find fit (rm_assets m)
                   else None) releases in
      match newer_releases catalog client_version fit visible with
      | Err e => Err e
      | Ok rest => Ok (found ++ rest)
      end
    end
  end.

(** The loop that stops at the first required release *)
Fixpoint any_required (catalog : ReleaseChannel -> Result (list ReleaseMeta) AppError)
    (policy : Policy) (client_version : Version) (fit : ReleaseAsset -> bool)
    (visible : list ReleaseChannel) : Result bool AppError :=
  match visible with
  | [] => Ok false
  | ch :: visible =>
    match catalog ch with
    | Err e => Err e
    | Ok releases =>
      if existsb (λ m, newer_than client_version m && existsb fit (rm_assets m)
                       && (rm_required m || Policy.is_required policy ch (rm_version m))) releases
      then Ok true
      else any_required catalog policy client_version fit visible
    end
  end.

(** [UpdateChecker::check]. The catalog is asked twice; it may have been
    refreshed in between. *)
Definition check (policy : Policy)
    (catalog catalog' : ReleaseChannel -> Result (list ReleaseMeta) AppError)
    (load_signature : ReleaseMeta -> ReleaseAsset -> Result string AppError)
    (channel : ReleaseChannel) (client_version : Version) (target arch : string)
    (bundle_type : BundleType) : Result (option Release) AppError :=
  let visible := Policy.visible_channels policy channel in
  let fit := fits target arch bundle_type in
  match newer_releases catalog client_version fit visible with
  | Err e => Err e
  | Ok newer =>
    match last (sort_by (λ a b, meta_leb a.1 b.1) newer) with
    | None => Ok None
    | Some (meta, asset) =>
      match any_required catalog' policy client_version fit visible with
      | Err e => Err e
      | Ok required =>
        match load_signature meta asset with
        | Err e => Err e
        | Ok signature =>
          Ok (Some (mkRelease (version_to_string (rm_version meta)) required (asset_url asset)
            signature (rm_notes meta) (rm_pub_date meta)))
        end
      end
    end
  end.
End update.

(** ** The catalog of GitHub *)

(** What the patterns of a title and of a version capture *)
Class ReleasePatterns := {
  title_version : string -> option string;
  semver_version : string -> option string
}.

Record GitHubAsset := mkGitHubAsset { ga_name : string; ga_download_url : string }.

Record GitHubRelease := mkGitHubRelease {
  gr_id : N;
  gr_draft : bool;
  gr_prerelease : bool;
  gr_name : option string;
  gr_tag_name : string;
  gr_body : option string;
  gr_published_at : option string;
  gr_assets : list GitHubAsset
}.

Definition REQUIRED_UPDATE_FLAG : string := "## Mandatory Update".
(** "### ⚠ BREAKING CHANGES", in UTF-8 *)
Definition BREAKING_CHANGES_FLAG : string :=
  "### " +:+ bytes [226; 154; 160]%N +:+ " BREAKING CHANGES".

Definition MAX_PAGINATION_PAGES : nat := 10.

(** The releases of the first page and of those that follow, up to the limit *)
Definition fetch_all_releases (first_page : list GitHubRelease)
    (next_pages : list (list GitHubRelease)) : list GitHubRelease :=
  first_page ++ mjoin (take (MAX_PAGINATION_PAGES - 1) next_pages).

Record GitHubCatalog {SV : Semver} := mkGitHubCatalog {
  releases : gmap Version ReleaseMeta;
  releases_updated_at : option Instant;
  release_cache_ttl : Duration;
  stable_versions : list Version;
  beta_versions : list Version;
  rc_versions : list Version
}.
Arguments mkGitHubCatalog {SV}.

Module GitHubCatalog.
Section catalog.
Context {SV : Semver} {RP : ReleasePatterns}.

Definition derive_release_asset_arch (asset_name : string) : option string :=
  let name := to_ascii_lowercase asset_name in
  if contains name "x86_64" || contains name "amd64" || contains name "x64" then Some "x86_64"%string
  else if contains name "aarch64" || contains name "arm64" then Some "aarch64"%string
  else if contains name "armv7" then Some "armv7"%string
  else None.

Definition filter_map_release_asset (asset : GitHubAsset) : option ReleaseAsset :=
  let name := ga_name asset in
  if starts_with name "SHA256SUMS" || ends_with (to_ascii_lowercase name) ".sig" then None
  else
    bundle_type ← BundleType.from_file_name name;
    arch ← derive_release_asset_arch name;
    Some (mkReleaseAsset name (BundleType.target bundle_type) arch bundle_type
      (ga_download_url asset) None).

Definition parse_release_version (title tag : string) : option Version :=
  version ←
    match title_version title with
    | Some version => Some version
    | None =>
      match semver_version title with
      | Some version => Some version
      | None => semver_version tag
      end
    end;
  version_parse version.

Definition derive_release_channel (version : Version) (prerelease : bool) : ReleaseChannel :=
  if prerelease || negb (bool_decide (version_pre version = EmptyString)) then
    if starts_with (to_ascii_lowercase (version_pre version)) "rc" then Rc else Beta
  else Stable.

Definition is_release_required (body : option string) : bool :=
  match body with
  | Some body => contains body REQUIRED_UPDATE_FLAG || contains body BREAKING_CHANGES_FLAG
  | None => false
  end.

Definition filter_map_release (release : GitHubRelease) : option ReleaseMeta :=
  if gr_draft release then None
  else
    name ← gr_name release;
    _ ← title_version name;
    version ← parse_release_version name (gr_tag_name release);
    let channel := derive_release_channel version (gr_prerelease release) in
    let assets := omap filter_map_release_asset (gr_assets release) in
    if bool_decide (assets = []) then None
    else
      Some (mkReleaseMeta (gr_id release) version channel (is_release_required (gr_body release))
        (gr_body release) (gr_published_at release) assets).

Definition versions_of (channel : ReleaseChannel) (l : list ReleaseMeta) : list Version :=
  sort_by version_leb (map rm_version (filter (λ m, rm_channel m = channel) l)).

(** The answer of GitHub is an error or the releases of all the pages. *)
Definition fetch_releases (c : GitHubCatalog) (fetched : Result (list GitHubRelease) AppError)
    (now : Instant) : Result () AppError * GitHubCatalog :=
  match fetched with
  | Err e => (Err e, c)
  | Ok raw_releases =>
    let metas := omap filter_map_release raw_releases in
    (Ok (), mkGitHubCatalog
       (foldl (λ by_version m, <[rm_version m := m]> by_version) ∅ metas) (Some now)
       (release_cache_ttl c) (versions_of Stable metas) (versions_of Beta metas)
       (versions_of Rc metas))
  end.

Definition list_channel (c : GitHubCatalog) (channel : ReleaseChannel)
    (fetched : Result (list GitHubRelease) AppError) (now : Instant) :
    Result (list ReleaseMeta) AppError * GitHubCatalog :=
  let should_update :=
    match releases_updated_at c with
    | Some t => (release_cache_ttl c <? duration_since now t)%N
    | None => true
    end in
  let (updated, c) := if should_update then fetch_releases c fetched now else (Ok (), c) in
  match updated with
  | Err e => (Err e, c)
  | Ok _ =>
    let versions :=
      match channel with
      | Stable => stable_versions c
      | Beta => beta_versions c
      | Rc => rc_versions c
      end in
    (Ok (omap (λ v, releases c !! v) versions), c)
  end.
End catalog.
End GitHubCatalog.
