(* ===== verification/ReleaseProperties.v ===== *)
(** ReleaseProperties: which update a client is offered, and when it has to take
    it. *)
From stdpp Require Import prelude gmap strings list sorting pretty.
From Stdlib Require Import NArith.
From S2P Require Import Prelude Protocol Calls Controllers Releases.

(** ** Sorting *)

Section sorting.
Context {A : Type} (leb : A -> A -> bool).
Hypothesis leb_total : forall x y, leb x y = true \/ leb y x = true.
Hypothesis leb_trans : forall x y z, leb x y = true -> leb y z = true -> leb x z = true.

Abbreviation le := (λ x y, leb x y = true).

Lemma insert_sorted_perm x l : insert_sorted leb x l ≡ₚ x :: l.
Proof.
  induction l as [|y l IH]; [done|]. cbn. destruct (leb y x); [|done].
  rewrite IH. apply perm_swap.
Qed.

Lemma insert_sorted_sorted x l : StronglySorted le l -> StronglySorted le (insert_sorted leb x l).
Proof.
  induction 1 as [|y l Hl IH Hy]; [by repeat constructor|]. cbn. destruct (leb y x) eqn:Hyx.
  - constructor; [done|]. rewrite Forall_forall in Hy |- *. intros z.
    rewrite insert_sorted_perm. intros [->|Hz]%elem_of_cons; [done|by apply Hy].
  - assert (leb x y = true) as Hxy by (destruct (leb_total x y); congruence).
    constructor; [by constructor|]. constructor; [done|]. rewrite Forall_forall in Hy |- *.
    intros z Hz. by eapply leb_trans, Hy.
Qed.

Lemma sort_by_snoc l x : sort_by leb (l ++ [x]) = insert_sorted leb x (sort_by leb l).
Proof. unfold sort_by. by rewrite foldl_app. Qed.

Lemma sort_by_perm l : sort_by leb l ≡ₚ l.
Proof.
  induction l as [|x l IH] using rev_ind; [done|].
  rewrite sort_by_snoc, insert_sorted_perm, IH. by rewrite Permutation_app_comm.
Qed.

Lemma sort_by_sorted l : StronglySorted le (sort_by leb l).
Proof.
  induction l as [|x l IH] using rev_ind; [constructor|].
  rewrite sort_by_snoc. by apply insert_sorted_sorted.
Qed.

(** The last one is the greatest. *)
Lemma sort_by_last l :
  match last (sort_by leb l) with
  | Some x => x ∈ l /\ forall y, y ∈ l -> leb y x = true
  | None => l = []
  end.
Proof.
  pose proof (sort_by_sorted l) as Hs. pose proof (sort_by_perm l) as Hp.
  destruct (last (sort_by leb l)) as [x|] eqn:Hx.
  - apply last_Some in Hx as [l' Hl']. rewrite Hl' in Hs, Hp. split.
    + rewrite <- Hp, elem_of_app, list_elem_of_singleton. by right.
    + intros y Hy. rewrite <- Hp, elem_of_app, list_elem_of_singleton in Hy.
      destruct Hy as [Hy| ->]; [|by destruct (leb_total x x)].
      clear Hp Hl'. induction l' as [|z l' IH]; [by apply not_elem_of_nil in Hy|].
      cbn in Hs. inversion_clear Hs as [|? ? Hl' Hz]. apply elem_of_cons in Hy as [->|Hy].
      * rewrite Forall_forall in Hz. apply Hz. rewrite elem_of_app, list_elem_of_singleton. by right.
      * by apply IH.
  - apply last_None in Hx. rewrite Hx in Hp. by apply Permutation_nil in Hp.
Qed.
End sorting.

Lemma duplicate_version_spec {SV : Semver} {SL : SemverLaws} l :
  StronglySorted (λ a b, meta_leb a b = true) l ->
  duplicate_version l = false <-> NoDup (map rm_version l).
Proof.
  induction 1 as [|a l Hl IH Ha]; [by split; [intros _; constructor|]|].
  destruct l as [|b l].
  - split; [intros _; apply NoDup_singleton|done].
  - cbn [duplicate_version]. cbn [map] in *. rewrite NoDup_cons, <- IH, orb_false_iff, bool_decide_eq_false.
    split; [|set_solver]. intros [Hne Hd]. split; [|done].
    rewrite Forall_forall in Ha. intros [Heq|Hin]%elem_of_cons; [done|].
    rewrite list_elem_of_In, in_map_iff in Hin. destruct Hin as (c & Hc & Hin).
    apply list_elem_of_In in Hin. apply Hne. apply version_antisym.
    + apply (Ha b). left.
    + inversion_clear Hl as [|? ? _ Hb]. rewrite Forall_forall in Hb. rewrite <- Hc. by apply (Hb c).
Qed.

(** ** The two loops *)

Section loops.
Context {SV : Semver} (listing : ReleaseChannel -> list ReleaseMeta) (policy : Policy).
Context (client_version : Version) (fit : ReleaseAsset -> bool) (visible : list ReleaseChannel).

Definition candidate (m : ReleaseMeta) (a : ReleaseAsset) : Prop :=
  (exists ch, ch ∈ visible /\ m ∈ listing ch) /\ newer_than client_version m = true /\
  List.find fit (rm_assets m) = Some a.

(** Some release the client skips or gets is required. *)
Definition demanded : Prop :=
  exists ch m, ch ∈ visible /\ m ∈ listing ch /\ newer_than client_version m = true /\
    (exists a, a ∈ rm_assets m /\ fit a = true) /\
    (rm_required m = true \/ Policy.is_required policy ch (rm_version m) = true).
End loops.

Lemma newer_releases_spec {SV : Semver} listing client_version fit visible :
  exists l, newer_releases (λ ch, Ok (listing ch)) client_version fit visible = Ok l /\
    forall m a, (m, a) ∈ l <-> candidate listing client_version fit visible m a.
Proof.
  induction visible as [|ch visible (l & Hl & IH)].
  - exists []. split; [done|]. intros m a. unfold candidate. set_solver.
  - cbn [newer_releases]. rewrite Hl. eexists. split; [done|]. intros m a.
    rewrite elem_of_app, IH, list_elem_of_omap. unfold candidate. split.
    + intros [(m' & Hm & Hf)|((ch' & Hch & Hm) & Hn & Ha)].
      * destruct (newer_than client_version m') eqn:Hn; [|done].
        apply fmap_Some in Hf as (a' & Ha & [= -> ->]). split_and!; try done.
        exists ch. by split; [left|].
      * split_and!; try done. exists ch'. by split; [right|].
    + intros ((ch' & [->|Hch]%elem_of_cons & Hm) & Hn & Ha).
      * left. exists m. by rewrite Hn, Ha.
      * right. split_and!; eauto.
Qed.

Lemma any_required_spec {SV : Semver} listing policy client_version fit visible :
  exists b, any_required (λ ch, Ok (listing ch)) policy client_version fit visible = Ok b /\
    (b = true <-> demanded listing policy client_version fit visible).
Proof.
  induction visible as [|ch visible (b & Hb & IH)].
  - exists false. split; [done|]. unfold demanded. set_solver.
  - cbn [any_required]. destruct (existsb _ _) eqn:He.
    + exists true. split; [done|]. split; [intros _|done].
      apply existsb_exists in He as (m & Hm & H). rewrite !andb_true_iff, existsb_exists, orb_true_iff in H.
      destruct H as [[Hn (a & Ha & Hf)] Hr]. exists ch, m. apply list_elem_of_In in Hm. apply list_elem_of_In in Ha.
      split_and!; [left|done|done|by exists a|done].
    + exists b. split; [done|]. rewrite IH. split.
      * intros (ch' & m & ? & H). exists ch', m. split; [by right|done].
      * intros (ch' & m & [->|Hch]%elem_of_cons & Hm & Hn & (a & Ha & Hf) & Hr); [|exists ch', m; split_and!; eauto].
        enough (false = true) by done. rewrite <- He. apply existsb_exists. exists m.
        rewrite <- list_elem_of_In, !andb_true_iff, existsb_exists, orb_true_iff. split_and!; try done.
        exists a. by rewrite <- list_elem_of_In.
Qed.

(** ** Properties *)

Section properties.
Context {SV : Semver} {SL : SemverLaws}.

Lemma meta_leb_total {A} (f : A -> ReleaseMeta) x y :
  meta_leb (f x) (f y) = true \/ meta_leb (f y) (f x) = true.
Proof. apply version_total. Qed.
Lemma meta_leb_trans {A} (f : A -> ReleaseMeta) x y z :
  meta_leb (f x) (f y) = true -> meta_leb (f y) (f z) = true -> meta_leb (f x) (f z) = true.
Proof. apply version_trans. Qed.

(** A client is offered the newest release of the channels it sees that is
    newer than its own and has a bundle for it, and nothing when there is none;
    the offer is mandatory exactly if any release in between is, by its own mark
    or by the policy. *)
Theorem update_spec policy listing load_signature channel v target arch bundle_type :
  let visible := Policy.visible_channels policy channel in
  let fit := fits target arch bundle_type in
  let catalog ch := Ok (listing ch) in
  match check policy catalog catalog load_signature channel v target arch bundle_type with
  | Ok None => forall m a, ~ candidate listing v fit visible m a
  | Ok (Some release) => exists m a, candidate listing v fit visible m a /\
      (forall m' a', candidate listing v fit visible m' a' ->
         version_leb (rm_version m') (rm_version m) = true) /\
      load_signature m a = Ok (rel_signature release) /\
      rel_version release = version_to_string (rm_version m) /\ rel_url release = asset_url a /\
      (rel_required release = true <-> demanded listing policy v fit visible)
  | Err e => exists m a, candidate listing v fit visible m a /\ load_signature m a = Err e
  end.
Proof.
  cbv zeta. unfold check.
  destruct (newer_releases_spec listing v (fits target arch bundle_type)
    (Policy.visible_channels policy channel)) as (l & Hl & Hc). rewrite Hl.
  pose proof (sort_by_last (λ x y : ReleaseMeta * ReleaseAsset, meta_leb x.1 y.1)
    (meta_leb_total fst) (meta_leb_trans fst) l) as Hlast.
  destruct (last _) as [[m a]|].
  2: { subst l. intros m a Hm. apply Hc in Hm. by apply not_elem_of_nil in Hm. }
  destruct Hlast as [Hin Hmax]. apply Hc in Hin.
  destruct (any_required_spec listing policy v (fits target arch bundle_type)
    (Policy.visible_channels policy channel)) as (b & Hb & Hd). rewrite Hb.
  destruct (load_signature m a) as [s|e] eqn:Hs; [|by exists m, a].
  exists m, a. cbn. split_and!; try done. intros m' a' H'. by apply (Hmax (m', a')), Hc.
Qed.

(** One update is enough: a client that took the update it was offered is
    offered none until the catalog or the policy changes. *)
Theorem update_once policy listing load_signature channel v target arch bundle_type release v' :
  let catalog ch := Ok (listing ch) in
  check policy catalog catalog load_signature channel v target arch bundle_type =
    Ok (Some release) ->
  (forall u, version_to_string u = rel_version release -> u = v') ->
  check policy catalog catalog load_signature channel v' target arch bundle_type = Ok None.
Proof.
  cbv zeta. intros Hcheck Hv. unfold check in *.
  set (visible := Policy.visible_channels policy channel) in *.
  set (fit := fits target arch bundle_type) in *.
  destruct (newer_releases_spec listing v fit visible) as (l & Hl & Hc). rewrite Hl in Hcheck.
  destruct (newer_releases_spec listing v' fit visible) as (l' & Hl' & Hc'). rewrite Hl'.
  pose proof (sort_by_last (λ x y : ReleaseMeta * ReleaseAsset, meta_leb x.1 y.1)
    (meta_leb_total fst) (meta_leb_trans fst) l) as Hlast.
  destruct (last (sort_by _ l)) as [[m a]|]; [|done]. destruct Hlast as [Hin Hmax].
  destruct (any_required _ _ _ _ _) as [b|]; [|done].
  destruct (load_signature m a) as [s|]; [|done]. injection Hcheck as <-.
  assert (rm_version m = v') as <- by by apply Hv. apply Hc in Hin as (_ & Hn & _).
  enough (l' = []) as -> by done. destruct l' as [|[m' a'] l']; [done|exfalso].
  destruct (Hc' m' a') as [H' _]. destruct H' as (Hm' & Hn' & Ha'); [left|].
  enough (version_leb (rm_version m') (rm_version m) = true) as Hle
    by (unfold newer_than in Hn'; by rewrite Hle in Hn').
  apply (Hmax (m', a')), Hc. split_and!; try done.
  unfold newer_than in *. apply negb_true_iff in Hn, Hn'. apply negb_true_iff.
  destruct (version_leb (rm_version m') v) eqn:Hle; [|done].
  rewrite <- Hn'. symmetry. eapply version_trans; [exact Hle|].
  destruct (version_total v (rm_version m)); [done|congruence].
Qed.

(** A manifest is taken if no channel names a version twice; each channel
    then lists its releases, oldest first, without repeating a version, and
    anything else leaves the catalog as it was. *)
Theorem file_catalog_spec c manifest :
  match FileCatalog.reload c (Some (Ok manifest)) with
  | Ok c' => forall ch, StronglySorted (λ a b, meta_leb a b = true) (FileCatalog.list_channel c' ch) /\
      NoDup (map rm_version (FileCatalog.list_channel c' ch)) /\
      FileCatalog.list_channel c' ch ≡ₚ assign_channel ch
        (match ch with Stable => mf_stable | Beta => mf_beta | Rc => mf_rc end manifest)
  | Err _ => exists ch, ~ NoDup (map mr_version
      (match ch with Stable => mf_stable | Beta => mf_beta | Rc => mf_rc end manifest))
  end.
Proof.
  assert (H : forall ch items,
    match validate_and_sort (assign_channel ch items) with
    | Ok l => StronglySorted (λ a b, meta_leb a b = true) l /\ NoDup (map rm_version l) /\
        l ≡ₚ assign_channel ch items
    | Err _ => ~ NoDup (map mr_version items)
    end).
  { intros ch items. unfold validate_and_sort.
    pose proof (sort_by_perm meta_leb (assign_channel ch items)) as Hp.
    pose proof (sort_by_sorted meta_leb (meta_leb_total id) (meta_leb_trans id)
      (assign_channel ch items)) as Hs.
    pose proof (duplicate_version_spec _ Hs) as Hd.
    destruct (duplicate_version _).
    - intros Hn. enough (true = false) by done. apply Hd.
      assert (map rm_version (sort_by meta_leb (assign_channel ch items)) ≡ₚ map mr_version items) as ->
        by (rewrite Hp; unfold assign_channel; by rewrite map_map). done.
    - split_and!; [done|by apply Hd|done]. }
  unfold FileCatalog.reload.
  pose proof (H Stable (mf_stable manifest)) as H1. destruct (validate_and_sort _) as [l1|]; [|by exists Stable].
  pose proof (H Beta (mf_beta manifest)) as H2. destruct (validate_and_sort _) as [l2|]; [|by exists Beta].
  pose proof (H Rc (mf_rc manifest)) as H3. destruct (validate_and_sort _) as [l3|]; [|by exists Rc].
  by intros [].
Qed.
End properties.

(** The names of a channel and of a bundle can be read back. *)
Lemma channel_from_as_str c : ReleaseChannel.from_str (ReleaseChannel.as_str c) = Some c.
Proof. by destruct c; vm_compute. Qed.
Lemma bundle_from_as_str b : BundleType.from_str (BundleType.as_str b) = Some b.
Proof. by destruct b; vm_compute. Qed.

(** ** A concrete catalog *)

Section witnesses.
(** Versions of one number, ranges "at least" *)
Let numbers : Semver := {|
  Version := N;
  version_leb := N.leb;
  version_parse s := match s with String a EmptyString => Some (Ascii.N_of_ascii a - 48)%N | _ => None end;
  version_to_string n := pretty n;
  version_pre _ := EmptyString;
  VersionReq := N;
  req_parse s := None;
  req_matches r v := (r <=? v)%N;
  has_upper_comparator _ := false
|}.
#[local] Existing Instance numbers.
Let numbers_laws : @SemverLaws numbers.
Proof.
  split; cbn; intros *; rewrite ?N.leb_le; lia.
Qed.
#[local] Existing Instance numbers_laws.

Let bundle : ReleaseAsset := mkReleaseAsset "vacs.deb" "linux" "x86_64" Deb "https://x/vacs.deb" None.
Let release (n : N) (ch : ReleaseChannel) (required : bool) : ReleaseMeta :=
  mkReleaseMeta n n ch required None None [bundle].
Let listing (ch : ReleaseChannel) : list ReleaseMeta :=
  match ch with
  | Stable => [release 1 Stable false; release 2 Stable true; release 3 Stable false]
  | Beta => [release 4 Beta false]
  | Rc => []
  end.
Let policy : Policy := mkPolicy ∅ 0%N default_visibility.
Let signed (m : ReleaseMeta) (a : ReleaseAsset) : Result string AppError := Ok "sig"%string.
Let catalog (ch : ReleaseChannel) : Result (list ReleaseMeta) AppError := Ok (listing ch).

(** From the first version the third is offered, and demanded for the second. *)
Lemma update_spec_witness :
  check policy catalog catalog signed Stable (1 : N) "linux" "x86_64" Deb =
    Ok (Some (mkRelease "3" true "https://x/vacs.deb" "sig" None None)) /\
  demanded listing policy (1 : N) (fits "linux" "x86_64" Deb) [Stable].
Proof.
  assert (check policy catalog catalog signed Stable (1 : N) "linux" "x86_64" Deb =
    Ok (Some (mkRelease "3" true "https://x/vacs.deb" "sig" None None))) as H by by vm_compute.
  split; [done|].
  pose proof (update_spec policy listing signed Stable (1 : N) "linux" "x86_64" Deb) as Hs.
  cbv zeta in Hs. fold catalog in Hs. change (λ ch, Ok (listing ch)) with catalog in Hs.
  rewrite H in Hs. destruct Hs as (m & a & _ & _ & _ & _ & _ & Hr). by apply Hr.
Defined.

Lemma update_once_witness :
  check policy catalog catalog signed Beta (4 : N) "linux" "x86_64" Deb = Ok None.
Proof.
  apply (update_once policy listing signed Beta (1 : N) "linux" "x86_64" Deb
    (mkRelease "4" true "https://x/vacs.deb" "sig" None None)); [by vm_compute|].
  intros u Hu. change (pretty (u : N) = pretty 4%N) in Hu. by apply (inj pretty) in Hu.
Defined.

Lemma file_catalog_spec_witness :
  NoDup (map rm_version (default [] (match
    FileCatalog.reload (mkFileCatalog [] [] []) (Some (Ok (mkManifest
      [mkManifestRelease 1 (2 : N) false None None [bundle];
       mkManifestRelease 2 (1 : N) false None None [bundle]] [] [])))
    with Ok c => Some (FileCatalog.list_channel c Stable) | Err _ => None end))).
Proof.
  pose proof (file_catalog_spec (mkFileCatalog [] [] []) (mkManifest
    [mkManifestRelease 1 (2 : N) false None None [bundle];
     mkManifestRelease 2 (1 : N) false None None [bundle]] [] [])) as H.
  destruct (FileCatalog.reload _ _) as [c|]; [apply (H Stable)|constructor].
Defined.
End witnesses.
