(* ===== verification/Sessions.v ===== *)
(** Sessions: from the socket to the session of a client, [vacs-server/src/ws]:
    what is received ([message.rs]), the login ([auth.rs]), and the tasks of a
    session ([state/clients/session.rs]): reader, writer, pings and the loop that
    serves the client.

    The JSON library, the socket, the clock, the answer of the slurper and the
    policy for versions are arguments. *)
From stdpp Require Import prelude gmap strings list.
From Stdlib Require Import NArith.
From S2P Require Import Prelude Protocol Calls Controllers Coverage Clients Store.

(** ** What is received *)

Inductive MessageResult :=
| ApplicationMessage (message : ClientMessage)
| ControlMessage
| MR_Disconnected
| MR_Error.

Inductive WsFrame :=
| WsText (text : string)
| WsBinary (data : string)
| WsPing
| WsPong
| WsClose.

(** [None]: the stream has ended; an error of the socket is an [Err]. *)
Definition receive_message (deserialize : string -> Result ClientMessage string)
    (next : option (Result WsFrame string)) : MessageResult :=
  match next with
  | Some (Ok (WsText raw_message)) =>
    match deserialize raw_message with
    | Ok message => ApplicationMessage message
    | Err _ => MR_Error
    end
  | Some (Ok WsPing) | Some (Ok WsPong) => ControlMessage
  | Some (Ok WsClose) => MR_Disconnected
  | Some (Ok (WsBinary _)) => MR_Error
  | Some (Err _) => MR_Error
  | None => MR_Disconnected
  end.

(** ** The login *)

Inductive LoginOutcome :=
| LO_Failure (reason : LoginFailureReason)
| LO_Error (reason : ErrorReason)
| LO_Disconnected.

(** What the login asks of the rest of the server: is a version compatible, what
    the store makes of a token, what the slurper answers. *)
Record LoginEnv := mkLoginEnv {
  is_protocol_compatible : string -> bool;
  verify_token : string -> Result ClientId ();
  require_active_connection : bool;
  controller_info : ClientId -> Result (option ControllerInfo) string
}.

Definition profile_of (custom_profile : bool) (position : option Position) :
    ActiveProfile ProfileId :=
  if custom_profile then Custom
  else
    match position ≫= ps_profile_id with
    | Some profile_id => Specific profile_id
    | None => NoProfile
    end.

(** The position of a controller among those that match; the error is the
    refusal of the login. *)
Definition select_position (positions : list Position) (position_id : option PositionId) :
    Result (option Position) LoginFailureReason :=
  match positions with
  | [] => Ok None
  | [position] => Ok (Some position)
  | _ =>
    match position_id with
    | Some target_pid =>
      match List.find (λ p, bool_decide (ps_id p = target_pid)) positions with
      | Some position => Ok (Some position)
      | None => Err InvalidVatsimPosition
      end
    | None => Err (LF_AmbiguousVatsimPosition (map ps_id positions))
    end
  end.

Section login.
Context {HO : HashOrder} (env : LoginEnv) (network : Network).

Definition resolve_vatsim_position (cid : ClientId) (custom_profile : bool)
    (position_id : option PositionId) : Result (ClientInfo * ActiveProfile ProfileId) LoginOutcome :=
  match controller_info env cid with
  | Err _ => Err (LO_Error (Internal "Failed to retrieve VATSIM connection info"))
  | Ok None => Err (LO_Failure LF_NoActiveVatsimConnection)
  | Ok (Some info) =>
    if bool_decide (facility_type info = FT_Unknown)
    then Err (LO_Failure LF_NoActiveVatsimConnection)
    else
      match
        select_position (find_positions network (callsign info) (frequency info)
          (facility_type info)) position_id
      with
      | Err reason => Err (LO_Failure reason)
      | Ok position =>
        Ok (mkClientInfo cid (callsign info) (frequency info) (ps_id <$> position),
            profile_of custom_profile position)
      end
  end.

Definition process_login_request (login : Login) :
    Result (ClientInfo * ActiveProfile ProfileId) LoginOutcome :=
  if negb (is_protocol_compatible env (protocol_version login))
  then Err (LO_Failure IncompatibleProtocolVersion)
  else
    match verify_token env (login_token login) with
    | Err _ => Err (LO_Failure InvalidCredentials)
    | Ok cid =>
      if negb (require_active_connection env) then
        let position := login_position_id login ≫= get_position network in
        Ok (mkClientInfo cid (client_id_str cid) EmptyString (ps_id <$> position),
            profile_of (custom_profile login) position)
      else resolve_vatsim_position cid (custom_profile login) (login_position_id login)
    end.

(** What comes before the time is up; [in_time]: whether the request was
    processed before, too. *)
Fixpoint login_flow (received : list MessageResult) (in_time : bool) :
    Result (ClientInfo * ActiveProfile ProfileId) LoginOutcome :=
  match received with
  | [] => Err (LO_Failure LF_Timeout)
  | ApplicationMessage (CM_Login login) :: _ =>
    if in_time then process_login_request login else Err (LO_Failure LF_Timeout)
  | ApplicationMessage _ :: _ => Err (LO_Failure Unauthorized)
  | ControlMessage :: received => login_flow received in_time
  | MR_Disconnected :: _ | MR_Error :: _ => Err LO_Disconnected
  end.
End login.

(** [handle_login_outcome]: what the client is told *)
Definition login_outcome_message (outcome : LoginOutcome) : option ServerMessage :=
  match outcome with
  | LO_Failure reason => Some (SM_LoginFailure reason)
  | LO_Error reason => Some (SM_Error (Error_new reason))
  | LO_Disconnected => None
  end.

(** ** The tasks of a session *)

Inductive SessionEnd :=
| Closed
| ReceiveError
| PongTimeout
| PingFailed
| LoggedOut
| SE_Disconnected (reason : option DisconnectReason)
| SE_Removed
| ServerShutdown.

#[export] Instance SessionEnd_inhabited : Inhabited SessionEnd := populate Closed.

Definition CLIENT_WEBSOCKET_PING_INTERVAL : Duration := 10000000000.
Definition CLIENT_WEBSOCKET_PONG_TIMEOUT : Duration := 30000000000.

(** What wakes a task, first come first: the [select!]s are biased. *)
Inductive Wake (A : Type) :=
| WakeAppShutdown
| WakeClientShutdown (reason : option DisconnectReason)
| WakeMessage (message : A).
Arguments WakeAppShutdown {A}.
Arguments WakeClientShutdown {A} reason.
Arguments WakeMessage {A} message.

(** What a turn of the reader does *)
Inductive ReaderTurn :=
| Forwarded (message : ClientMessage)
| PongUpdated
| ReaderEnds (end_ : SessionEnd).

(** [inbound_open]: the loop still takes messages. *)
Definition reader_turn (inbound_open : bool) (wake : Wake MessageResult) : ReaderTurn :=
  match wake with
  | WakeAppShutdown => ReaderEnds ServerShutdown
  | WakeClientShutdown reason => ReaderEnds (SE_Disconnected reason)
  | WakeMessage (ApplicationMessage message) =>
    if inbound_open then Forwarded message else ReaderEnds SE_Removed
  | WakeMessage ControlMessage => PongUpdated
  | WakeMessage MR_Disconnected => ReaderEnds Closed
  | WakeMessage MR_Error => ReaderEnds ReceiveError
  end.

(** What a turn of the writer puts on the wire, and whether it goes on. The
    messages are serialised before they reach it. *)
Inductive WireFrame := WireMessage (message : ServerMessage) | WirePing | WireClose.

(** [socket]: whether the socket takes a frame; [None] ends the channel. *)
Definition writer_turn (socket : bool) (serialized : ServerMessage -> bool)
    (wake : Wake (option WireFrame)) : list WireFrame * bool :=
  match wake with
  | WakeAppShutdown => ([WireClose], false)
  | WakeClientShutdown reason =>
    (match reason with
     | Some reason =>
       if serialized (SM_Disconnected reason) then [WireMessage (SM_Disconnected reason)] else []
     | None => []
     end ++ [WireClose], false)
  | WakeMessage (Some frame) => if socket then ([frame], true) else ([WireClose], false)
  | WakeMessage None => ([WireClose], false)
  end.

(** A tick of the ping task; [queue_open]: the writer takes frames. *)
Definition ping_tick (now last_pong : Instant) (queue_open : bool) : option SessionEnd :=
  if (CLIENT_WEBSOCKET_PONG_TIMEOUT <? duration_since now last_pong)%N then Some PongTimeout
  else if queue_open then None else Some PingFailed.

(** The ticks of a session, each with the time of the latest control frame and
    whether the ping could be queued; [Some]: when and how the task ends. *)
Fixpoint ping_task (ticks : list (Instant * Instant * bool)) : option (Instant * SessionEnd) :=
  match ticks with
  | [] => None
  | (now, last_pong, queue_open) :: ticks =>
    match ping_tick now last_pong queue_open with
    | Some end_ => Some (now, end_)
    | None => ping_task ticks
    end
  end.

(** ** What a session starts with *)

Section start.
Context {HO : HashOrder}.

Definition session_profile (cm : ClientManager) (profile : ActiveProfile ProfileId) :
    SessionProfile :=
  match profile with
  | Specific profile_id =>
    match get_profile (network cm) profile_id with
    | Some _ => Changed (Specific profile_id)
    | None => Changed NoProfile
    end
  | Custom => Changed Custom
  | NoProfile => Changed NoProfile
  end.

Definition initial_messages (cm : ClientManager) (max_conf_size : N) (client : ClientSession) :
    list ServerMessage :=
  let info := Clients.client_info client in
  [SM_SessionInfo (mkSessionInfo info (session_profile cm (active_profile client))
     (match ClientSession.position_id client ≫= get_position (network cm) with
      | Some position => ps_default_call_sources position
      | None => []
      end)
     (Some max_conf_size));
   SM_ClientList (ClientManager.list_clients cm (Some (info_id info)));
   SM_StationList
     (ClientManager.list_stations cm (active_profile client) (info_position_id info))].
End start.
