(* ===== verification/Server.v ===== *)
(** Server: the whole server, [vacs-server/src/state.rs], [ws/handler.rs],
    [routes/ws.rs] and the loop of a session ([state/clients/session.rs]): the
    registry of the clients, the calls and the connections together.

    A connection keeps its own copy of the session it was given, as the source
    does ([ClientSession] is cloned). A turn of a connection, of the task that
    follows the VATSIM network, or a request of the API is one step. The rest of
    the world ([Surroundings]) says which queues take a message, what time it is
    and what the data feed answers. *)
From stdpp Require Import prelude gmap strings list.
From Stdlib Require Import NArith.
From S2P Require Import Prelude Protocol Calls CallManager Handlers Controllers Coverage Clients.
From S2P Require Import Sessions.

Record Surroundings := mkSurroundings {
  now : Instant;
  queue_open : list Sent -> ClientId -> bool;
  own_open : list Sent -> bool;
  invite_limiter : option (ClientId -> N -> KeyCheck);
  invite_per_minute_limiter : option (ClientId -> N -> KeyCheck);
  feed : option (list ControllerInfo);
  refetched : ClientId -> option (list ControllerInfo)
}.

Record Server := mkServer {
  registry : ClientManager;
  world : World;
  connections : gmap N ClientSession;
  published : list Event;
  wire : list (N * ServerMessage)
}.

Definition with_registry (sv : Server) (events : list Event) (cm : ClientManager) : Server :=
  mkServer cm (world sv) (connections sv) (published sv ++ events) (wire sv).
Definition with_world (sv : Server) (w : World) : Server :=
  mkServer (registry sv) w (connections sv) (published sv) (wire sv).
Definition with_connections (sv : Server) (cs : gmap N ClientSession) : Server :=
  mkServer (registry sv) (world sv) cs (published sv) (wire sv).
Definition transmit (sv : Server) (conn : N) (messages : list ServerMessage) : Server :=
  mkServer (registry sv) (world sv) (connections sv) (published sv)
    (wire sv ++ map (λ m, (conn, m)) messages).

(** What wakes the loop of a session *)
Inductive LoopWake :=
| LW_AppShutdown
| LW_PingEnd (end_ : option SessionEnd)
| LW_Inbound (message : ClientMessage)
| LW_ReaderEnded (end_ : option SessionEnd)
| LW_Direct (message : ServerMessage)
| LW_DirectClosed (reason : option DisconnectReason)
| LW_Broadcast (message : ServerMessage)
| LW_BroadcastLost.

Inductive ServerStep :=
| Connects (conn : N) (env : LoginEnv) (received : list MessageResult) (in_time : bool)
| Wakes (conn : N) (wake : LoopWake)
| ControllersTick (require_active_connection : bool)
| Terminates (cid : ClientId)
| ReplacesNetwork (network : Network).

Section server.
Context {HO : HashOrder} (max_conf_size : N).

Definition new (network : Network) (grace : Duration) : Server :=
  mkServer (ClientManager.new network grace max_conf_size)
    (mkWorld (CallManager.new max_conf_size) []) ∅ [] [].

(** The registry as the handlers of calls see it *)
Definition directory (cm : ClientManager) : ClientDirectory := {|
  is_client_connected := ClientManager.is_client_connected cm;
  clients_for_position := ClientManager.clients_for_position cm;
  clients_for_station := ClientManager.clients_for_station cm
|}.

(** [AppState::send_message]: the registry finds the queue of the recipient. *)
Definition server_env (sur : Surroundings) (cm : ClientManager) : Env :=
  mkEnv
    (λ sent client_id,
       if ClientManager.is_client_connected cm client_id
       then if queue_open sur sent client_id then Queued else QueueClosed
       else NotConnected)
    (own_open sur) (now sur) (invite_limiter sur) (invite_per_minute_limiter sur).

(** ** Coming and going ([AppState]) *)

Definition unregister_client (sur : Surroundings) (sv : Server)
    (gone : ClientId * option DisconnectReason) : Server :=
  let '(client_id, reason) := gone in
  let (events, cm) :=
    ClientManager.remove_client (registry sv) client_id reason (refetched sur client_id) in
  let sv := with_registry sv events cm in
  with_world sv (disconnect_client (server_env sur cm) client_id (world sv)).2.

Definition update_vatsim_controllers (sur : Surroundings) (require_active_connection : bool)
    (sv : Server) : Server :=
  match feed sur with
  | None => sv
  | Some controllers =>
    let '(gone, events, cm) :=
      ClientManager.sync_vatsim_state (registry sv) (index_by_cid controllers)
        require_active_connection (now sur) in
    foldl (unregister_client sur) (with_registry sv events cm)
      (map (λ cr, (cr.1, Some cr.2)) gone)
  end.

(** [None]: the client is registered already. *)
Definition register_client (sur : Surroundings) (info : ClientInfo)
    (profile : ActiveProfile ProfileId) (sv : Server) : option ClientSession * Server :=
  let sv := if ClientManager.is_empty (registry sv) then update_vatsim_controllers sur false sv
            else sv in
  let (added, cm) := ClientManager.add_client (registry sv) info profile (now sur) in
  match added with
  | Ok events => (Some (ClientSession.new info profile (now sur)), with_registry sv events cm)
  | Err _ => (None, with_registry sv [] cm)
  end.

(** [start_controller_update_task] *)
Definition controllers_tick (sur : Surroundings) (require_active_connection : bool) (sv : Server) :
    Server :=
  if ClientManager.is_empty (registry sv) then sv
  else update_vatsim_controllers sur require_active_connection sv.

(** ** A connection *)

(** [handle_socket], up to the loop *)
Definition handle_socket (sur : Surroundings) (conn : N) (env : LoginEnv)
    (received : list MessageResult) (in_time : bool) (sv : Server) : Server :=
  match login_flow env (network (registry sv)) received in_time with
  | Err outcome =>
    transmit sv conn (match login_outcome_message outcome with Some m => [m] | None => [] end)
  | Ok (info, profile) =>
    let (registered, sv) := register_client sur info profile sv in
    match registered with
    | None => transmit sv conn [SM_LoginFailure DuplicateId]
    | Some client =>
      transmit (with_connections sv (<[conn := client]> (connections sv))) conn
        (initial_messages (registry sv) max_conf_size client)
    end
  end.

(** The end of [handle_socket] *)
Definition end_session (sur : Surroundings) (conn : N) (client : ClientSession) (sv : Server) :
    Server :=
  unregister_client sur (with_connections sv (delete conn (connections sv)))
    (ClientSession.id client, None).

(** A turn of the loop; [Some]: the session ends. *)
Definition loop_turn (sur : Surroundings) (conn : N) (client : ClientSession) (wake : LoopWake)
    (sv : Server) : option SessionEnd * Server :=
  match wake with
  | LW_AppShutdown => (Some ServerShutdown, sv)
  | LW_PingEnd end_ => (Some (default PingFailed end_), sv)
  | LW_Inbound message =>
    let cm := registry sv in
    let (continues, w) :=
      handle_application_message (CD := directory cm) (server_env sur cm)
        (ClientManager.list_clients cm (Some (ClientSession.id client)))
        (ClientManager.list_stations cm (active_profile client) (ClientSession.position_id client))
        (ClientSession.id client) message (world sv) in
    (if continues then None else Some LoggedOut, with_world sv w)
  | LW_ReaderEnded end_ => (Some (default ReceiveError end_), sv)
  | LW_Direct message =>
    (None, transmit sv conn
       [refresh_call_update (calls (world sv)) (ClientSession.id client) message])
  | LW_DirectClosed (Some reason) => (Some (SE_Disconnected (Some reason)), sv)
  | LW_DirectClosed None => (Some SE_Removed, sv)
  | LW_Broadcast message =>
    (None,
     match message with
     | SM_ClientInfo info =>
       if bool_decide (info_id info = ClientSession.id client) then sv
       else transmit sv conn [message]
     | _ => transmit sv conn [message]
     end)
  | LW_BroadcastLost => (None, sv)
  end.

Definition wakes (sur : Surroundings) (conn : N) (wake : LoopWake) (sv : Server) : Server :=
  match connections sv !! conn with
  | None => sv
  | Some client =>
    let (ended, sv) := loop_turn sur conn client wake sv in
    match ended with
    | Some _ => end_session sur conn client sv
    | None => sv
    end
  end.

(** A connection has a number of its own. *)
Definition server_step (sv : Server) (step : Surroundings * ServerStep) : Server :=
  let (sur, step) := step in
  match step with
  | Connects conn env received in_time =>
    if bool_decide (is_Some (connections sv !! conn)) then sv
    else handle_socket sur conn env received in_time sv
  | Wakes conn wake => wakes sur conn wake sv
  | ControllersTick require_active_connection => controllers_tick sur require_active_connection sv
  | Terminates cid => unregister_client sur sv (cid, Some Terminated)
  | ReplacesNetwork network =>
    let (events, cm) := ClientManager.replace_network (registry sv) network in
    with_registry sv events cm
  end.

Definition server_run (sv : Server) (steps : list (Surroundings * ServerStep)) : Server :=
  foldl server_step sv steps.
End server.
