(* ===== verification/ServerInvariant.v ===== *)
(** ServerInvariant: what holds of the server on every run: its registry and its
    calls are in order, and everybody in either has a connection. *)
From stdpp Require Import prelude gmap strings list.
From Stdlib Require Import NArith.
From S2P Require Import Prelude Protocol Calls CallManager CallTables CallInvariant CallLeave.
From S2P Require Import CallJoin CallReach Handlers HandlerLogic Controllers Coverage CoverageLookup.
From S2P Require Import Clients ClientInvariant ClientSteps ClientRuns Sessions Server.

(** ** Who is involved in a call *)

Definition involved (cm : CallManager) (id : CallId) (c : ClientId) : Prop :=
  occupies (ringing_calls cm !! id) (active_calls cm !! id) c \/
  exists t, rings (ringing_calls cm !! id) t c.

(** Everybody involved in a call is among some clients. *)
Definition parties_in (S : ClientId -> Prop) (cm : CallManager) : Prop :=
  forall id c, involved cm id c -> S c.

Lemma involved_effect cm cm' id c : effect cm cm' -> involved cm' id c -> involved cm id c.
Proof.
  intros He. destruct He as [id' r targets' incoming' Hr Hs|id'|id' a c' Ha _ _|id' a x y n Ha];
    unfold involved, after_shrink, close_call, leave_call; cbn.
  - case_bool_decide as Ht; (destruct (decide (id' = id)) as [->|Hne];
      [rewrite ?lookup_delete_eq, ?lookup_insert_eq, Hr
      |by rewrite ?lookup_delete_ne, ?lookup_insert_ne by done]).
    + intros [[H|(r' & [=] & _)]|(t & r' & e & [=] & _)]. left. by left.
    + intros [[H|(r' & [= <-] & <-)]|(t & r' & e & [= <-] & He & Hc)].
      * left. by left.
      * left. right. by exists r.
      * right. destruct (sh_kept _ _ Hs t e He) as (e0 & He0 & _ & Hsub).
        exists t, r, e0. split_and!; [done|done|set_solver].
  - destruct (decide (id' = id)) as [->|Hne]; [|by rewrite !lookup_delete_ne by done].
    rewrite !lookup_delete_eq. intros [[(a & [=] & _)|(r & [=] & _)]|(t & r & e & [=] & _)].
  - destruct (decide (id' = id)) as [->|Hne]; [|by rewrite lookup_insert_ne by done].
    rewrite lookup_insert_eq, Ha. intros [[(a' & [= <-] & Hc)|H]|H]; [|by left; right|by right].
    left. left. exists a. split; [done|]. revert Hc. destruct (leave_entry_fields a c') as (_ & -> & _).
    intros [t [_ Ht]%lookup_delete_Some]. by exists t.
  - destruct (decide (id' = id)) as [->|Hne]; [|by rewrite lookup_insert_ne by done].
    rewrite lookup_insert_eq, Ha. intros [[(a' & [= <-] & Hc)|H]|H]; [|by left; right|by right].
    left. left. exists a. split; [done|]. exact Hc.
Qed.

Lemma parties_effect S cm cm' : rtc effect cm cm' -> parties_in S cm -> parties_in S cm'.
Proof.
  induction 1 as [|cm1 cm2 cm3 He _ IH]; [done|]. intros H. apply IH.
  intros id c Hi. eapply H, involved_effect; done.
Qed.

Lemma involved_tables cm id c :
  cm_wf cm -> involved cm id c <->
  client_active_calls cm !! c = Some id \/
  exists t, incoming_lookup (client_incoming_calls cm) c id = Some t.
Proof.
  intros Hwf. unfold involved. rewrite (wf_markers _ Hwf). by setoid_rewrite (wf_incoming _ Hwf).
Qed.

Section parties.
Context {HO : HashOrder} (max : N) (S : ClientId -> Prop).

(** The calls are in order, and among the clients of [S]. *)
Definition calls_among (cm : CallManager) : Prop := server_ok max cm /\ parties_in S cm.

#[export] Instance calls_among_stable : stable calls_among.
Proof.
  split.
  - intros op cm Hop [Hok Hin]. split; [by apply shrinking_server_ok|].
    eapply parties_effect; [|exact Hin]. apply exec_effect; [done|apply Hok].
  - intros cm id c now [Hok Hin]. pose proof (accept_server_ok max cm id c now Hok) as Hok'.
    split; [done|]. destruct Hok as [Hwf _]. destruct Hok' as [Hwf' _].
    destruct (accept_call_cases cm id c now Hwf) as [->|(r & t & e & Hm & Hr & He & Hc & Heq)]; [done|].
    intros id' c'. rewrite (involved_tables _ _ _ Hwf'), Heq. cbn.
    intros [Hi|[t' Hi]].
    + destruct (decide (c' = c)) as [->|Hne].
      * apply (Hin id). right. by exists t, r, e.
      * rewrite lookup_insert_ne in Hi by done. apply (Hin id'). apply involved_tables; [done|by left].
    + rewrite incoming_lookup_remove_all in Hi. case_decide; [done|].
      apply (Hin id'). apply involved_tables; [done|]. right. by exists t'.
Qed.

Lemma attempt_among cm id source target notified now l :
  calls_among cm -> notified <> ∅ -> source_client_id source ∉ notified ->
  reserve cm id (target :: l) <= N.to_nat max ->
  S (source_client_id source) -> (forall c, c ∈ notified -> S c) ->
  let cm' := (CallManager.attempt_call cm id (source_client_id source) source target notified now).2
  in calls_among cm' /\ reserve cm' id l <= N.to_nat max.
Proof.
  intros [Hok Hin] Hn Hc Hroom HS HSn cm'.
  destruct (attempt_server_ok max cm id source target notified now l Hok Hn Hc Hroom) as [Hok' Hroom'].
  fold cm' in Hok', Hroom'. split; [|done]. split; [done|].
  destruct Hok as [Hwf _]. destruct Hok' as [Hwf' _].
  destruct (CallManager.validate_call_attempt cm id (source_client_id source) target notified)
    as [[]|e] eqn:Hv; subst cm'.
  2: { by rewrite (attempt_call_refused _ _ _ _ _ _ _ e). }
  apply validate_ok in Hv. rewrite attempt_call_state in * by done.
  intros id' c'. rewrite (involved_tables _ _ _ Hwf'). cbn. intros [Hi|[t' Hi]].
  - apply lookup_insert_Some in Hi as [[<- _]|[_ Hi]]; [done|].
    apply (Hin id'). apply involved_tables; [done|by left].
  - rewrite incoming_lookup_insert_all in Hi. case_decide as Hd.
    + destruct Hd as [Hd _]. by apply HSn, elem_of_set_iter.
    + apply (Hin id'). apply involved_tables; [done|]. right. by exists t'.
Qed.

(** Every message of a client of [S] keeps this, when the registry knows only
    clients of [S]. *)
Section messages.
Context {CD : ClientDirectory} (env : Env).
Hypothesis known : forall caller t c, c ∈ target_clients caller t -> S c.

Lemma attempt_targets_among caller invite l acc w :
  source_client_id (invite_source invite) = caller -> S caller ->
  (forall t cs, (t, cs) ∈ l -> cs = target_clients caller t /\ cs <> ∅ /\ caller ∉ cs) ->
  calls_among (calls w) -> reserve (calls w) (invite_call_id invite) l.*1 <= N.to_nat max ->
  calls_among (calls (attempt_targets env caller invite l acc w).2).
Proof.
  intros Hsrc HS. revert acc w. induction l as [|[t cs] l IH]; intros acc w Hl Hok Hroom; [done|].
  destruct (Hl t cs) as (Hcs & Hne & Hnin); [left|].
  destruct (attempt_among (calls w) (invite_call_id invite) (invite_source invite) t cs
    (env_now env) l.*1 Hok Hne) as [Hok' Hroom'];
    [by rewrite Hsrc|done|by rewrite Hsrc|by subst cs; apply known|].
  cbn [attempt_targets]. unfold mbind, handler_bind, with_calls. rewrite Hsrc in Hok', Hroom'.
  destruct (CallManager.attempt_call _ _ _ _ _ _ _) as [[[invited joined]|[]] cm'];
    cbn in Hok', Hroom' |- *; try done;
    (apply IH; [|done|done]; intros t' cs' Hin; apply (Hl t' cs'); by right).
Qed.

Lemma message_among cs ss c m :
  S c -> keeps calls_among (handle_application_message env cs ss c m).
Proof.
  intros HS. apply handle_message_stable; [apply _|]. intros invite _.
  apply (handle_call_invite_attempts env). intros w l Hsrc Hguard Hok.
  apply attempt_targets_among; [done|done| |done|].
  - intros t cs' Hin. by apply (resolve_targets_ok c _ t cs') in Hin.
  - destruct Hok as [(_ & _ & Hmax) _]. rewrite <- Hmax. eapply guard_reserves; [|done].
    subst l. rewrite resolve_targets_fst. apply NoDup_filter, NoDup_set_iter.
Qed.
End messages.
End parties.

(** ** The registry *)

Section registry.
Context {HO : HashOrder}.

Lemma sync_state_dom cm controllers require now :
  manager_ok cm ->
  dom (clients (ClientManager.sync_state cm controllers require now).2) = dom (clients cm).
Proof.
  intros [_ Hids Hon _ _]. unfold ClientManager.sync_state.
  pose proof (sync_client_positions_ok cm controllers require now Hids Hon) as H.
  destruct (ClientManager.sync_client_positions _ _ _ _) as [[cs online] r].
  destruct H as (_ & _ & Hdom & _). cbv zeta. set (r2 := if negb _ then _ else _).
  by destruct (ClientManager.positions_changed r2).
Qed.

Lemma replace_state_dom cm n :
  manager_ok cm -> dom (clients (ClientManager.replace_state cm n).2) = dom (clients cm).
Proof.
  intros [_ Hids Hon _ _]. unfold ClientManager.replace_state. set (cm0 := with_network cm n).
  set (stale := filter _ (map_keys (online_positions cm0))).
  pose proof (clear_positions_ok stale [] cm0 Hids Hon) as H1.
  destruct (foldl ClientManager.clear_position ([], cm0) stale) as [u1 cm1]. cbn [snd] in H1.
  destruct H1 as [(cs1 & on1 & ->) Hids1 Hon1 Hdom1 _].
  set (vatsim := foldl _ (vatsim_only_positions _) _). set (cm2 := with_vatsim_only _ vatsim).
  pose proof (refresh_positions_ok (map_iter (online_positions cm2)) u1 cm2 Hids1 Hon1) as H2.
  destruct (foldl ClientManager.refresh_position _ _) as [u2 cm3]. cbn [snd] in H2.
  destruct H2 as [(cs2 & on2 & ->) _ _ Hdom2 _]. cbn in *. by rewrite Hdom2, Hdom1.
Qed.

Lemma remove_client_clients cm c reason feed :
  clients (ClientManager.remove_client cm c reason feed).2 = delete c (clients cm).
Proof.
  unfold ClientManager.remove_client. destruct (clients cm !! c) as [s|] eqn:Hc.
  2: { by rewrite delete_id. }
  set (cm0 := with_clients cm _).
  assert (clients match ClientSession.position_id s with
    | Some p => ClientManager.go_offline cm0 c p feed
    | None => ([], cm0)
    end.2 = delete c (clients cm)) as H
    by (destruct (ClientSession.position_id s); [by rewrite go_offline_clients|done]).
  destruct (match ClientSession.position_id s with Some _ => _ | None => _ end) as [changes cm1].
  cbn in H. by case_bool_decide.
Qed.

Lemma add_client_clients cm info profile now :
  let (added, cm') := ClientManager.add_client cm info profile now in
  match added with
  | Ok _ => clients cm' = <[info_id info := ClientSession.new info profile now]> (clients cm)
  | Err _ => cm' = cm
  end.
Proof.
  unfold ClientManager.add_client. case_bool_decide; [done|].
  destruct (ClientSession.position_id _) as [p|]; [|done].
  set (cm0 := with_clients cm _).
  assert (clients (ClientManager.go_online cm0 (info_id info) p).2 = clients cm0) as Hgo.
  { unfold ClientManager.go_online. case_bool_decide; cbn [negb]; [|done]. by case_bool_decide. }
  by destruct (ClientManager.go_online cm0 (info_id info) p).
Qed.

(** The handlers find only registered clients. *)
Lemma directory_known cm caller t c :
  manager_ok cm -> c ∈ target_clients (CD := directory cm) caller t -> is_Some (clients cm !! c).
Proof.
  intros [_ _ Hon _ _]. unfold target_clients. rewrite elem_of_filter. intros [_ H].
  assert (forall p, c ∈ ClientManager.clients_for_position cm p -> is_Some (clients cm !! c)) as Hpos.
  { intros p. unfold ClientManager.clients_for_position. rewrite Hon. unfold inhabited.
    case_decide; cbn; [set_solver|]. intros (s & Hs & _)%elem_of_clients_at. by exists s. }
  destruct t as [client_id|p|st]; cbn in H.
  - unfold ClientManager.is_client_connected in H. case_bool_decide; [|set_solver].
    by apply elem_of_singleton in H as ->.
  - by apply Hpos in H.
  - unfold ClientManager.clients_for_station in H. destruct (online_stations cm !! st); [|set_solver].
    by apply Hpos in H.
Qed.
End registry.

(** ** The server *)

(** The registry and the calls are in order, and know only clients of [S]. *)
Record among (max : N) (S : ClientId -> Prop) (sv : Server) : Prop := {
  am_registry : manager_ok (registry sv);
  am_known : forall c, is_Some (clients (registry sv) !! c) -> S c;
  am_calls : calls_among max S (calls (world sv))
}.

(** A connection serves the client. *)
Definition connected (sv : Server) (c : ClientId) : Prop :=
  exists conn s, connections sv !! conn = Some s /\ ClientSession.id s = c.

Definition server_inv (max : N) (sv : Server) : Prop := among max (connected sv) sv.

Lemma among_weaken max (S S' : ClientId -> Prop) sv :
  (forall c, S c -> S' c) -> among max S sv -> among max S' sv.
Proof.
  intros HS [H1 H2 [H3 H4]]. split; [done|naive_solver|].
  split; [done|]. intros id c Hi. by eapply HS, H4.
Qed.

Section server.
Context {HO : HashOrder} (max : N).

Lemma disconnect_client_calls env c w :
  calls (disconnect_client env c w).2 = (CallManager.cleanup_client_calls (calls w) c).2.
Proof.
  unfold disconnect_client, mbind, handler_bind, with_calls.
  destruct (CallManager.cleanup_client_calls (calls w) c) as [actions cm]. cbn.
  assert (only_sends (for_each actions (send_cleanup_action env c))) as H
    by (apply only_sends_for_each; intros a; apply only_sends_cleanup).
  apply (H (mkWorld cm (outbox w))).
Qed.

Lemma unregister_among S sur sv c reason :
  among max S sv -> among max (λ x, S x /\ x <> c) (unregister_client sur sv (c, reason)).
Proof.
  intros [Hreg Hknown [Hok Hin]]. unfold unregister_client.
  pose proof (remove_client_ok (registry sv) c reason (refetched sur c) Hreg) as Hreg'.
  pose proof (remove_client_clients (registry sv) c reason (refetched sur c)) as Hcs.
  destruct (ClientManager.remove_client _ _ _ _) as [events cm]. cbn in Hreg', Hcs. cbn [snd].
  split; cbn.
  - done.
  - intros x. rewrite Hcs. intros [s [Hne Hs]%lookup_delete_Some]. split; [|done].
    apply Hknown. by exists s.
  - rewrite disconnect_client_calls. pose proof (cleanup_client_calls_wf c _ (proj1 Hok)) as (Hwf & Hm & Hr).
    assert (calls_among max S (CallManager.cleanup_client_calls (calls (world sv)) c).2) as [Hok' Hin']
      by by apply (stable_shrinking (OpCleanup c)).
    split; [done|]. intros id x Hi. split; [by eapply Hin'|]. intros ->.
    apply (involved_tables _ _ _ Hwf) in Hi as [Hi|[t Hi]]; [congruence|].
    unfold incoming_lookup in Hi. by rewrite Hr in Hi.
Qed.

Lemma unregister_all_among S sur l : forall sv,
  among max S sv -> among max S (foldl (unregister_client sur) sv l).
Proof.
  induction l as [|[c reason] l IH]; intros sv H; [done|]. apply IH.
  eapply among_weaken; [|by apply unregister_among]. by intros x [].
Qed.

Lemma update_among S sur require sv :
  among max S sv -> among max S (update_vatsim_controllers sur require sv).
Proof.
  intros [Hreg Hknown Hcalls]. unfold update_vatsim_controllers. destruct (feed sur) as [l|]; [|done].
  unfold ClientManager.sync_vatsim_state.
  pose proof (sync_state_ok (registry sv) (index_by_cid l) require (now sur) Hreg) as Hreg'.
  pose proof (sync_state_dom (registry sv) (index_by_cid l) require (now sur) Hreg) as Hdom.
  destruct (ClientManager.sync_state _ _ _ _) as [[sync changes] cm]. cbn in Hreg', Hdom.
  apply unregister_all_among. split; [done| |done].
  intros c Hc. apply Hknown. cbn in Hc. rewrite <- elem_of_dom, Hdom, elem_of_dom in Hc. done.
Qed.

Lemma register_among S sur info profile sv :
  among max S sv ->
  among max (λ c, S c \/ c = info_id info) (register_client sur info profile sv).2 /\
  ((register_client sur info profile sv).1 = None ->
   among max S (register_client sur info profile sv).2).
Proof.
  intros H. unfold register_client. set (sv1 := if ClientManager.is_empty _ then _ else _).
  assert (among max S sv1) as [Hreg Hknown Hcalls]
    by (subst sv1; destruct (ClientManager.is_empty _); [by apply update_among|done]).
  clearbody sv1. clear H.
  pose proof (add_client_ok (registry sv1) info profile (now sur) Hreg) as Hreg'.
  pose proof (add_client_clients (registry sv1) info profile (now sur)) as Hadd.
  destruct (ClientManager.add_client _ _ _ _) as [[events|e] cm]; cbn in Hreg' |- *.
  - split; [|done]. destruct Hcalls as [Hok Hin]. split; cbn; [done| |].
    + intros c. rewrite Hadd. intros [<-|Hc]%lookup_insert_is_Some'; [by right|].
      left. by apply Hknown.
    + split; [done|]. intros id c Hi. left. by eapply Hin.
  - subst cm. split; [|intros _; by split].
    eapply (among_weaken _ S); [|by split]. by left.
Qed.

Lemma turn_among S sur conn client wake sv :
  among max S sv -> S (ClientSession.id client) ->
  among max S (loop_turn sur conn client wake sv).2 /\
  connections (loop_turn sur conn client wake sv).2 = connections sv.
Proof.
  intros [Hreg Hknown Hcalls] HS. destruct wake as [|e|m|e|m|[reason|]|m|]; cbn;
    try (by split; [by split|]).
  - destruct (handle_application_message _ _ _ _ _ _) as [continues w] eqn:Hm. cbn. split; [|done].
    split; [done|done|]. change w with (continues, w).2. rewrite <- Hm.
    apply (message_among max S); [|done|done]. intros caller t c Hc. apply Hknown.
    by apply (directory_known _ caller t).
  - destruct m; try (by split; [by split|]). case_bool_decide; by split; [by split|].
Qed.
End server.

(** ** Steps and runs *)

Definition step_ok (step : Surroundings * ServerStep) : Prop :=
  match step.2 with ReplacesNetwork n => network_wf n | _ => True end.

Section runs.
Context {HO : HashOrder} (max : N).

Lemma update_connections sur require sv :
  connections (update_vatsim_controllers sur require sv) = connections sv.
Proof.
  unfold update_vatsim_controllers. destruct (feed sur) as [l|]; [|done].
  destruct (ClientManager.sync_vatsim_state _ _ _ _) as [[gone events] cm].
  assert (forall l sv, connections (foldl (unregister_client sur) sv l) = connections sv) as ->; [|done].
  clear. induction l as [|[c reason] l IH]; intros sv; [done|]. cbn [foldl]. rewrite IH.
  unfold unregister_client. by destruct (ClientManager.remove_client _ _ _ _).
Qed.

Lemma register_connections sur info profile sv :
  connections (register_client sur info profile sv).2 = connections sv.
Proof.
  unfold register_client. set (sv1 := if ClientManager.is_empty _ then _ else _).
  assert (connections sv1 = connections sv) as H
    by (subst sv1; destruct (ClientManager.is_empty _); [apply update_connections|done]).
  by destruct (ClientManager.add_client _ _ _ _) as [[events|e] cm].
Qed.

Lemma register_session sur info profile sv client :
  (register_client sur info profile sv).1 = Some client -> ClientSession.id client = info_id info.
Proof.
  unfold register_client. destruct (ClientManager.add_client _ _ _ _) as [[events|e] cm]; [|done].
  by intros [= <-].
Qed.

Lemma transmit_among S sv conn l : among max S (transmit sv conn l) <-> among max S sv.
Proof. split; intros []; by split. Qed.

(** The end of a session forgets its client, whatever else serves it. *)
Lemma end_session_among sur conn client sv :
  server_inv max sv -> connections sv !! conn = Some client ->
  among max (λ c, connected (end_session sur conn client sv) c /\ c <> ClientSession.id client)
    (end_session sur conn client sv).
Proof.
  intros Hinv Hc. unfold end_session. set (sv1 := with_connections sv _).
  assert (among max (connected sv) sv1) as H by (destruct Hinv; by split).
  eapply among_weaken; [|by apply unregister_among]. cbn. intros c [(conn' & s & Hs & Hid) Hne].
  split; [|done]. exists conn', s. split; [|done]. unfold unregister_client.
  destruct (ClientManager.remove_client _ _ _ _). cbn. rewrite lookup_delete_ne; [done|]. congruence.
Qed.

Lemma wakes_inv sur conn wake sv : server_inv max sv -> server_inv max (wakes sur conn wake sv).
Proof.
  intros H. unfold wakes. destruct (connections sv !! conn) as [client|] eqn:Hc; [|done].
  destruct (turn_among max (connected sv) sur conn client wake sv H) as [H' Hcs];
    [by exists conn, client|].
  destruct (loop_turn sur conn client wake sv) as [ended sv']. cbn in H', Hcs.
  assert (server_inv max sv') as Hinv.
  { eapply among_weaken; [|exact H']. unfold connected. by rewrite Hcs. }
  destruct ended; [|done]. eapply among_weaken; [|apply end_session_among]; [by intros c []|done|].
  by rewrite Hcs.
Qed.

Lemma handle_socket_inv sur conn env received in_time sv :
  connections sv !! conn = None -> server_inv max sv ->
  server_inv max (handle_socket max sur conn env received in_time sv).
Proof.
  intros Hfree H. unfold handle_socket, server_inv.
  destruct (login_flow _ _ _ _) as [[info profile]|outcome]; [|by apply transmit_among].
  destruct (register_among max (connected sv) sur info profile sv H) as [H1 H2].
  pose proof (register_connections sur info profile sv) as Hcs.
  pose proof (register_session sur info profile sv) as Hid.
  destruct (register_client sur info profile sv) as [[client|] sv']; cbn in H1, H2, Hcs, Hid;
    apply transmit_among.
  - specialize (Hid client eq_refl).
    eapply (among_weaken _ (λ c, connected sv c \/ c = info_id info)).
    2: { destruct H1. by split. }
    intros c [(conn' & s & Hs & <-)| ->].
    + exists conn', s. split; [|done]. cbn. rewrite Hcs, lookup_insert_ne; [done|]. congruence.
    + exists conn, client. split; [apply lookup_insert_eq|done].
  - eapply among_weaken; [|by apply H2]. unfold connected. cbn. by rewrite Hcs.
Qed.

Lemma server_step_inv sv step : server_inv max sv -> step_ok step ->
  server_inv max (server_step max sv step).
Proof.
  intros H Hok. destruct step as [sur [conn env received in_time|conn wake|require|cid|n]]; cbn.
  - case_bool_decide as Hc; [done|]. apply handle_socket_inv; [|done]. by apply eq_None_not_Some.
  - by apply wakes_inv.
  - unfold controllers_tick. destruct (ClientManager.is_empty _); [done|]. unfold server_inv, connected.
    rewrite update_connections. by apply update_among.
  - pose proof (unregister_among max _ sur sv cid (Some Terminated) H) as H'. unfold server_inv.
    eapply among_weaken; [|exact H']. intros c [(conn & s & Hs & Hid) _]. exists conn, s.
    split; [|done]. unfold unregister_client. by destruct (ClientManager.remove_client _ _ _ _).
  - unfold ClientManager.replace_network.
    pose proof (replace_state_ok (registry sv) n (am_registry _ _ _ H) Hok) as Hreg.
    pose proof (replace_state_dom (registry sv) n (am_registry _ _ _ H)) as Hdom.
    destruct (ClientManager.replace_state _ _) as [[updates changes] cm]. cbn in Hreg, Hdom.
    destruct H as [_ Hknown Hcalls]. split; [done| |done]. intros c Hc. apply Hknown.
    cbn in Hc. by rewrite <- elem_of_dom, Hdom, elem_of_dom in Hc.
Qed.

Lemma server_run_inv steps : forall sv,
  server_inv max sv -> Forall step_ok steps -> server_inv max (server_run max sv steps).
Proof.
  induction steps as [|step steps IH]; intros sv H Hok; [done|].
  apply Forall_cons in Hok as [Hs Hok]. apply IH; [by apply server_step_inv|done].
Qed.

Lemma new_inv n grace : network_wf n -> server_inv max (new max n grace).
Proof.
  intros Hn. split.
  - by apply new_ok.
  - cbn. intros c [s Hs]. by rewrite lookup_empty in Hs.
  - split.
    + split; [apply cm_wf_new|]. split; [|done]. intros id. unfold call_weight. cbn.
      rewrite !lookup_empty. cbn. lia.
    + intros id c. unfold involved, occupies, rings. cbn. rewrite !lookup_empty. naive_solver.
Qed.
End runs.
