(* ===== verification/ServerProperties.v ===== *)
(** ServerProperties: the theorems about the server as a whole: its sessions, its
    registry and its calls together, and the login as both sides see it. *)
From stdpp Require Import prelude gmap strings list.
From Stdlib Require Import NArith.
From S2P Require Import Prelude Protocol Calls CallManager CallTables CallInvariant CallLeave.
From S2P Require Import CallJoin CallReach Handlers HandlerLogic Controllers Coverage CoverageLookup.
From S2P Require Import CoverageProperties Clients ClientInvariant ClientSteps ClientRuns.
From S2P Require Import SignalingErrors SignalingClient SignalingLogic Sessions Server ServerInvariant.

(** ** Logins *)

Section login.
Context {HO : HashOrder}.

Lemma select_position_spec positions wanted :
  match select_position positions wanted with
  | Ok (Some p) => p ∈ positions /\ (positions = [p] \/ wanted = Some (ps_id p))
  | Ok None => positions = []
  | Err InvalidVatsimPosition => exists id, wanted = Some id /\ forall p, p ∈ positions -> ps_id p <> id
  | Err (LF_AmbiguousVatsimPosition ids) =>
    wanted = None /\ ids = map ps_id positions /\ 2 <= length positions
  | Err _ => False
  end.
Proof.
  destruct positions as [|p [|q positions]]; [done|cbn; split; [left|by left]|]. cbn [select_position].
  destruct wanted as [id|]; [|cbn; split_and!; [done|done|lia]].
  destruct (List.find _ _) as [r|] eqn:Hf.
  - apply List.find_some in Hf as [Hin Hr%bool_decide_eq_true]. apply list_elem_of_In in Hin.
    split; [done|]. right. by rewrite Hr.
  - exists id. split; [done|]. intros r Hin Hr. apply list_elem_of_In in Hin.
    pose proof (List.find_none _ _ Hf r Hin) as H. cbn in H. apply bool_decide_eq_false in H. done.
Qed.

Lemma login_flow_answer env network received in_time r :
  login_flow env network received in_time = Ok r ->
  exists controls login rest, received = controls ++ ApplicationMessage (CM_Login login) :: rest /\
    Forall (eq ControlMessage) controls /\ process_login_request env network login = Ok r.
Proof.
  induction received as [|m received IH]; [done|]. destruct m as [m| | |]; cbn; try done.
  - destruct m; try done. destruct in_time; [|done]. intros H. by exists [], login, received.
  - intros (controls & login & rest & -> & Hc & H)%IH. exists (ControlMessage :: controls), login, rest.
    split_and!; [done|by constructor|done].
Qed.
End login.

(** C10: nobody logs in unvouched for. Whoever a login makes known sent a login as
    its first message, in a version the policy allows and with a token of its own;
    where an active connection is required, the network knows it as a controller,
    by whose name and frequency it is shown, and its position is one of those
    that match that controller: the only one, or the one it chose. *)
Theorem login_is_vouched_for {HO : HashOrder} env network received in_time info profile :
  login_flow env network received in_time = Ok (info, profile) ->
  exists controls login rest,
    received = controls ++ ApplicationMessage (CM_Login login) :: rest /\
    Forall (eq ControlMessage) controls /\
    is_protocol_compatible env (protocol_version login) = true /\
    verify_token env (login_token login) = Ok (info_id info) /\
    (require_active_connection env = true -> exists controller,
       controller_info env (info_id info) = Ok (Some controller) /\
       facility_type controller <> FT_Unknown /\
       display_name info = callsign controller /\ info_frequency info = frequency controller /\
       let found := find_positions network (callsign controller) (frequency controller)
         (facility_type controller) in
       match info_position_id info with
       | Some id => id ∈ map ps_id found /\ (length found = 1 \/ login_position_id login = Some id)
       | None => found = []
       end).
Proof.
  intros H. apply login_flow_answer in H as (controls & login & rest & -> & Hc & H).
  exists controls, login, rest. split; [done|]. split; [done|]. revert H. unfold process_login_request.
  destruct (is_protocol_compatible _ _); [|done]. cbn [negb].
  destruct (verify_token _ _) as [cid|]; [|done].
  destruct (require_active_connection env); cbn [negb]; [|by intros [= <- <-]].
  unfold resolve_vatsim_position. destruct (controller_info env cid) as [[controller|]|] eqn:Hci; try done.
  case_bool_decide as Hf; [done|].
  pose proof (select_position_spec (find_positions network (callsign controller)
    (frequency controller) (facility_type controller)) (login_position_id login)) as Hsel.
  destruct (select_position _ _) as [position|]; [|done]. intros [= <- <-]. cbn.
  split; [done|]. split; [done|]. intros _. exists controller. split_and!; try done.
  destruct position as [p|]; cbn; [|done]. destruct Hsel as [Hin Hone].
  split; [rewrite list_elem_of_In; by apply in_map, list_elem_of_In|].
  destruct Hone as [Hone|Hone]; [left; by rewrite Hone|by right].
Qed.

(** ** Both sides of a login *)

(** What the server put on the socket of a connection *)
Definition sent_on (sv : Server) (conn : N) : list ServerMessage :=
  omap (λ cm, if decide (cm.1 = conn) then Some cm.2 else None) (wire sv).

Lemma sent_on_transmit sv conn l : sent_on (transmit sv conn l) conn = sent_on sv conn ++ l.
Proof.
  unfold sent_on. cbn. rewrite omap_app. f_equal. induction l as [|m l IH]; [done|]. cbn.
  rewrite decide_True by done. by f_equal.
Qed.

Section wires.
Context {HO : HashOrder}.

Lemma update_wire sur require sv : wire (update_vatsim_controllers sur require sv) = wire sv.
Proof.
  unfold update_vatsim_controllers. destruct (feed sur) as [l|]; [|done].
  destruct (ClientManager.sync_vatsim_state _ _ _ _) as [[gone events] cm].
  assert (forall l sv, wire (foldl (unregister_client sur) sv l) = wire sv) as ->; [|done].
  clear. induction l as [|[c reason] l IH]; intros sv; [done|]. cbn [foldl]. rewrite IH.
  unfold unregister_client. by destruct (ClientManager.remove_client _ _ _ _).
Qed.

Lemma register_wire sur info profile sv : wire (register_client sur info profile sv).2 = wire sv.
Proof.
  unfold register_client. set (sv1 := if ClientManager.is_empty _ then _ else _).
  assert (wire sv1 = wire sv) as H
    by (subst sv1; destruct (ClientManager.is_empty _); [apply update_wire|done]).
  by destruct (ClientManager.add_client _ _ _ _) as [[events|e] cm].
Qed.

(** What a session starts with always carries a profile. *)
Lemma session_profile_changed cm profile : exists p, session_profile cm profile = Changed p.
Proof. destruct profile as [id| |]; cbn; [destruct (get_profile _ _)|..]; eauto. Qed.
End wires.

(** C9: the server and the client agree on a login. When the client gets what the
    server sends on a new connection, its attempt succeeds exactly if the server
    opened a session for it, and then it is told of itself what the session says;
    a refusal reaches it with the reason the server gave. *)
Theorem login_agreed {HO : HashOrder} max sur conn env received in_time sv a tok c :
  connections sv !! conn = None -> sent_on sv conn = [] ->
  let sv' := server_step max sv (sur, Connects conn env received in_time) in
  Client.transport a = Ok () -> Client.token a = Ok tok -> Client.serialized a = Ok () ->
  Client.incoming a = map Ok (sent_on sv' conn) ->
  client_ok c -> state c = StDisconnected ->
  match connections sv' !! conn with
  | Some client => (Client.connect a c).1 = Ok () /\ exists profile sources,
      login_of a = Ok (Clients.client_info client, profile, sources, Some max)
  | None => match sent_on sv' conn with
            | [] => (Client.connect a c).1 = Err (Client.unanswered a)
            | [SM_LoginFailure reason] => (Client.connect a c).1 = Err (SE_LoginError reason)
            | _ => exists e, (Client.connect a c).1 = Err e
            end
  end.
Proof.
  intros Hfree Hw sv' Htr Htok Hser Hinc Hok Hs. destruct (connect_spec a c Hok Hs) as [_ ->].
  unfold login_of. rewrite Htr, Htok, Hser. subst sv'. revert Hinc. cbn [server_step].
  rewrite bool_decide_eq_false_2 by (rewrite Hfree; by intros []). unfold handle_socket.
  destruct (login_flow _ _ _ _) as [[info profile]|outcome].
  - pose proof (register_wire sur info profile sv) as Hwire.
    pose proof (register_connections sur info profile sv) as Hcs.
    destruct (register_client sur info profile sv) as [[client|] sv1]; cbn in Hwire, Hcs.
    + cbn [connections transmit with_connections]. rewrite lookup_insert_eq, sent_on_transmit.
      replace (sent_on _ conn) with ([] : list ServerMessage)
        by (unfold sent_on in *; cbn; by rewrite Hwire).
      cbn. unfold answer. intros ->. cbn.
      destruct (session_profile_changed (registry sv1) (active_profile client)) as [p ->].
      split; [done|]. eexists p, _. done.
    + cbn [connections transmit]. rewrite Hcs, Hfree, sent_on_transmit.
      replace (sent_on _ conn) with ([] : list ServerMessage) by (unfold sent_on in *; by rewrite Hwire).
      cbn. unfold answer. by intros ->.
  - cbn [connections transmit]. rewrite Hfree, sent_on_transmit, Hw. cbn [app].
    destruct outcome as [reason|reason|]; cbn; unfold answer; intros ->; cbn; [done|by eexists|done].
Qed.

(** ** Everybody has a connection *)

(** C8: on every run of the server, whatever the clients send, however they come,
    go and are removed: the registry and the calls are in order, and every client
    that is registered, calls, is called or takes part in a call has a connection.
    Without connections there are no clients, no positions and no calls. *)
Theorem everybody_is_connected {HO : HashOrder} max n grace steps :
  network_wf n -> Forall step_ok steps ->
  let sv := server_run max (new max n grace) steps in
  manager_ok (registry sv) /\ server_ok max (calls (world sv)) /\
  (forall c, is_Some (clients (registry sv) !! c) -> connected sv c) /\
  (forall id c, involved (calls (world sv)) id c -> connected sv c) /\
  (connections sv = ∅ ->
     clients (registry sv) = ∅ /\ online_positions (registry sv) = ∅ /\
     ringing_calls (calls (world sv)) = ∅ /\ active_calls (calls (world sv)) = ∅).
Proof.
  intros Hn Hsteps sv.
  destruct (server_run_inv max steps _ (new_inv max n grace Hn) Hsteps) as [Hreg Hknown [Hok Hin]].
  fold sv in Hreg, Hknown, Hok, Hin. split_and!; [done..|]. intros He.
  assert (forall c, ~ connected sv c) as Hno.
  { intros c (conn & s & Hc & _). by rewrite He, lookup_empty in Hc. }
  assert (clients (registry sv) = ∅) as Hcs.
  { apply map_empty. intros c. apply eq_None_not_Some. intros Hc. by apply (Hno c), Hknown. }
  destruct Hok as [Hwf _]. split_and!; [done|..]; apply map_empty.
  - intros p. rewrite (mo_online _ Hreg). apply inhabited_None.
    unfold clients_at. by rewrite Hcs, map_filter_empty, dom_empty_L.
  - intros id. destruct (ringing_calls _ !! id) as [r|] eqn:Hr; [|done]. exfalso.
    apply (Hno (rce_caller_id r)), (Hin id). left. rewrite Hr. apply occupies_caller.
  - intros id. destruct (active_calls _ !! id) as [a|] eqn:Ha; [|done]. exfalso.
    pose proof (ao_size _ _ (wf_active_ok _ Hwf _ _ Ha)) as Hsize.
    assert (ace_participants a <> ∅) as [c [t Hc]]%map_choose
      by (intros H; by rewrite H, map_size_empty in Hsize; lia).
    apply (Hno c), (Hin id). left. rewrite Ha. apply occupies_participant. by exists t.
Qed.

(** C11: the end of a session forgets its client: when a connection ends, whatever
    ends it, its client is neither registered nor has it anything to do with a
    call. *)
Theorem ended_session_is_forgotten {HO : HashOrder} max n grace steps sur conn client wake :
  network_wf n -> Forall step_ok steps ->
  let sv := server_run max (new max n grace) steps in
  connections sv !! conn = Some client ->
  let sv' := server_step max sv (sur, Wakes conn wake) in
  connections sv' !! conn = None ->
  clients (registry sv') !! ClientSession.id client = None /\
  forall id, ~ involved (calls (world sv')) id (ClientSession.id client).
Proof.
  intros Hn Hsteps sv Hc.
  pose proof (server_run_inv max steps _ (new_inv max n grace Hn) Hsteps) as Hinv. fold sv in Hinv.
  cbn [server_step]. unfold wakes. rewrite Hc.
  destruct (turn_among max (connected sv) sur conn client wake sv Hinv) as [H' Hcs];
    [by exists conn, client|].
  destruct (loop_turn sur conn client wake sv) as [ended sv1]. cbn in H', Hcs.
  destruct ended as [e|]; [|by rewrite Hcs, Hc]. intros _.
  assert (server_inv max sv1) as Hinv1.
  { eapply among_weaken; [|exact H']. unfold connected. by rewrite Hcs. }
  destruct (end_session_among max sur conn client sv1 Hinv1) as [_ Hknown [_ Hin]]; [by rewrite Hcs|].
  split.
  - apply eq_None_not_Some. intros Hs. by destruct (Hknown _ Hs).
  - intros id Hi. by destruct (Hin _ _ Hi).
Qed.

(** ** Silence *)

(** The ticks of the ping task, each at most an interval after the one before *)
Fixpoint paced (from : Instant) (ticks : list (Instant * Instant * bool)) : Prop :=
  match ticks with
  | [] => True
  | (now, _, _) :: ticks => (now <= from + CLIENT_WEBSOCKET_PING_INTERVAL)%N /\ paced now ticks
  end.

(** A client that is silent is dropped: if the last control frame came at
    [silent] and the ping task ticks on, it ends the session at most forty seconds
    later, and never for silence before thirty are over. *)
Theorem silent_client_is_dropped silent from ticks late last_pong open :
  (from <= silent + CLIENT_WEBSOCKET_PONG_TIMEOUT)%N -> paced from ticks ->
  (forall now pong b, (now, pong, b) ∈ ticks -> pong = silent) ->
  (late, last_pong, open) ∈ ticks -> (silent + CLIENT_WEBSOCKET_PONG_TIMEOUT < late)%N ->
  exists at_ end_, ping_task ticks = Some (at_, end_) /\
    (at_ <= silent + 40000000000)%N /\
    (end_ = PongTimeout -> silent + CLIENT_WEBSOCKET_PONG_TIMEOUT < at_)%N.
Proof.
  unfold CLIENT_WEBSOCKET_PONG_TIMEOUT. revert from.
  induction ticks as [|[[now pong] b] ticks IH]; intros from Hfrom Hpaced Hsilent Hin Hlate;
    [by apply not_elem_of_nil in Hin|].
  destruct Hpaced as [Hnow Hpaced]. unfold CLIENT_WEBSOCKET_PING_INTERVAL in *.
  assert (pong = silent) as -> by (apply (Hsilent now pong b); left).
  cbn [ping_task]. unfold ping_tick, CLIENT_WEBSOCKET_PONG_TIMEOUT, duration_since.
  destruct (N.ltb_spec 30000000000 (now - silent)) as [Hlt|Hge].
  - exists now, PongTimeout. split_and!; [done|lia|lia].
  - destruct b.
    + apply (IH now); [lia|done| | |done].
      * intros now' pong' b' H. apply (Hsilent now' pong' b'). by right.
      * apply elem_of_cons in Hin as [Heq|Hin]; [|done]. injection Heq as -> -> ->. lia.
    + exists now, PingFailed. split_and!; [done|lia|done].
Qed.

(** ** A concrete server *)

Section witnesses.
#[local] Existing Instance listed_order.

Let anna_id : ClientId := ClientId_from "1000001".
Let login : Login := mkLogin "t" "3.0.0" false None.
Let vouched : LoginEnv := mkLoginEnv (λ _, true) (λ _, Ok anna_id) true
  (λ _, Ok (Some (mkControllerInfo anna_id "LOVV_CTR" "132.600" Enroute None))).
Let calm : Surroundings :=
  mkSurroundings 100 (λ _ _, true) (λ _, true) None None (Some []) (λ _, Some []).
Let logs_in (conn : N) : Surroundings * ServerStep :=
  (calm, Connects conn vouched [ControlMessage; ApplicationMessage (CM_Login login)] true).
Let empty_server : Server := new 5 demo_network 10.

Lemma login_is_vouched_for_witness :
  let received := [ControlMessage; ApplicationMessage (CM_Login login)] in
  let info := mkClientInfo anna_id "LOVV_CTR" "132.600" (Some ctr) in
  login_flow vouched demo_network received true = Ok (info, NoProfile) /\
  exists controls first rest, received = controls ++ ApplicationMessage (CM_Login first) :: rest /\
    verify_token vouched (login_token first) = Ok anna_id.
Proof.
  intros received info.
  assert (login_flow vouched demo_network received true = Ok (info, NoProfile)) as H by by vm_compute.
  split; [exact H|].
  destruct (login_is_vouched_for vouched demo_network received true info NoProfile H)
    as (controls & first & rest & Heq & _ & _ & Hv & _).
  exists controls, first, rest. split; [exact Heq|exact Hv].
Defined.

Let sees (sv : Server) : Client.Attempt :=
  Client.mkAttempt (Ok ()) (Ok "t"%string) (Ok ()) (map Ok (sent_on sv 1)) (SE_Timeout "login").

Lemma login_agreed_witness :
  let a := sees (server_step 5 empty_server (logs_in 1)) in
  (Client.connect a (Client.new false 8 true)).1 = Ok () /\
  is_Some (connections (server_step 5 empty_server (logs_in 1)) !! 1%N).
Proof.
  intros a.
  assert (is_Some (connections (server_step 5 empty_server (logs_in 1)) !! 1%N)) as Hsome
    by (vm_compute; by eexists).
  split; [|exact Hsome].
  assert (connections empty_server !! 1%N = None) as Hfree by apply lookup_empty.
  assert (sent_on empty_server 1 = []) as Hw by (unfold sent_on; by cbn [wire empty_server new]).
  assert (Client.incoming a = map Ok (sent_on (server_step 5 empty_server (logs_in 1)) 1)) as Hin
    by (unfold a, sees; cbn [Client.incoming]; reflexivity).
  unfold logs_in in Hin.
  pose proof (login_agreed 5 calm 1 vouched [ControlMessage; ApplicationMessage (CM_Login login)] true
    empty_server a "t" (Client.new false 8 true) Hfree Hw eq_refl eq_refl eq_refl Hin
    ltac:(by split) eq_refl) as H.
  cbv beta zeta in H. destruct Hsome as [client Hc]. unfold logs_in in Hc.
  destruct (connections _ !! _) as [s|] in H, Hc; [exact (proj1 H)|discriminate Hc].
Defined.

Let session_runs : list (Surroundings * ServerStep) :=
  [logs_in 1; (calm, Wakes 1 (LW_Inbound CM_ListStations)); (calm, ControllersTick false);
   (calm, Wakes 1 (LW_Inbound CM_Logout))].

Lemma everybody_is_connected_witness :
  let sv := server_run 5 empty_server session_runs in
  connections sv = ∅ /\ clients (registry sv) = ∅ /\ active_calls (calls (world sv)) = ∅.
Proof.
  intros sv. assert (connections sv = ∅) as He by by vm_compute.
  destruct (everybody_is_connected 5 demo_network 10 session_runs demo_network_wf) as (_&_&_&_&H);
    [by repeat constructor|]. destruct (H He) as (H1 & _ & _ & H2). by split_and!.
Defined.

Lemma ended_session_is_forgotten_witness :
  let sv := server_step 5 (server_run 5 empty_server [logs_in 1]) (calm, Wakes 1 (LW_ReaderEnded None)) in
  clients (registry sv) !! anna_id = None.
Proof.
  intros sv. destruct (connections (server_run 5 empty_server [logs_in 1]) !! 1%N) as [client|] eqn:Hc.
  2: { exfalso. by vm_compute in Hc. }
  assert (ClientSession.id client = anna_id) as Hid.
  { vm_compute in Hc. by injection Hc as <-. }
  destruct (ended_session_is_forgotten 5 demo_network 10 [logs_in 1] calm 1 client
    (LW_ReaderEnded None) demo_network_wf) as [H _]; [by repeat constructor|done|by vm_compute|].
  by rewrite Hid in H.
Defined.

Lemma silent_client_is_dropped_witness :
  let ticks := [(10000000000, 5, true); (20000000000, 5, true); (30000000000, 5, true);
                (40000000000, 5, true)]%N in
  exists at_ end_, ping_task ticks = Some (at_, end_) /\ (at_ <= 5 + 40000000000)%N.
Proof.
  intros ticks.
  destruct (silent_client_is_dropped 5 5 ticks 40000000000 5 true) as (at_ & end_ & H1 & H2 & _).
  - by vm_compute.
  - subst ticks. repeat split; unfold CLIENT_WEBSOCKET_PING_INTERVAL; lia.
  - intros now pong b H. subst ticks. repeat (apply elem_of_cons in H as [[=]|H]; [done|]).
    by apply not_elem_of_nil in H.
  - do 3 right. left.
  - by vm_compute.
  - by exists at_, end_.
Defined.

(** ** Findings *)

(** A client ends its old session through the API, as it does before it connects
    again, and logs in anew; the end of the old session, when it comes after that,
    removes the new one. *)
Lemma old_session_removes_new :
  let sv := server_run 5 empty_server [logs_in 1; (calm, Terminates anna_id); logs_in 2] in
  let sv' := server_step 5 sv (calm, Wakes 1 (LW_ReaderEnded (Some (SE_Disconnected (Some Terminated))))) in
  is_Some (clients (registry sv) !! anna_id) /\
  connections sv' !! 2%N = connections sv !! 2%N /\ is_Some (connections sv' !! 2%N) /\
  clients (registry sv') !! anna_id = None.
Proof. vm_compute. split_and!; by try eexists. Qed.

(** The network sees Anna elsewhere; asked for the stations, her session answers
    for the position she logged in with. *)
Let moved : Surroundings :=
  mkSurroundings 100000000000 (λ _ _, true) (λ _, true) None None
    (Some [mkControllerInfo anna_id "LOWW_APP" "134.675" Approach None]) (λ _, None).

Let logs_in_custom : Surroundings * ServerStep :=
  (calm, Connects 1 vouched [ApplicationMessage (CM_Login (mkLogin "t" "3.0.0" true None))] true).

Lemma session_lists_for_old_position :
  let sv := server_run 5 empty_server [logs_in_custom; (moved, ControllersTick true)] in
  let cm := registry sv in
  (ClientSession.position_id <$> clients cm !! anna_id) <>
  (ClientSession.position_id <$> connections sv !! 1%N) /\
  last (outbox (world (server_step 5 sv (moved, Wakes 1 (LW_Inbound CM_ListStations))))) <>
  (λ s, mkSent anna_id (SM_StationList
     (ClientManager.list_stations cm (active_profile s) (ClientSession.position_id s))) true) <$>
    clients cm !! anna_id.
Proof. vm_compute. split; congruence. Qed.
End witnesses.
