(* ===== verification/Radio.v ===== *)
(** Radio: the radio integrations of the desktop client, [vacs-client/src/radio.rs],
    [radio/track_audio.rs] and [radio/push_to_talk.rs]: the state kept of TrackAudio,
    what its events do to it and what the user interface is told, the latch of the
    push-to-talk key, and the key press that stands in for it with other clients.

    TrackAudio's library is third-party code: its events, the answers to requests
    and the errors of commands are arguments. *)
From stdpp Require Import prelude gmap strings list.
From Stdlib Require Import NArith.
From S2P Require Import Prelude.

(** A frequency in Hz *)
Definition Frequency := N.

Inductive TransmissionState := Active | Inactive.

Inductive RadioState :=
| NotConfigured
| Disconnected
| Connected
| VoiceConnected
| RxIdle
| RxActive (frequencies : gset Frequency)
| TxActive
| RadioStateError.

#[export] Instance RadioState_eq_dec : EqDecision RadioState.
Proof. solve_decision. Defined.

Record RadioStation := mkRadioStation {
  rs_callsign : option string;
  rs_frequency : Frequency;
  rs_rx : bool;
  rs_tx : bool;
  rs_xc : bool;
  rs_xca : bool;
  rs_headset : bool;
  rs_output_muted : bool;
  rs_is_available : bool
}.

(** What TrackAudio says of a station; only what is given has changed. *)
Record StationState := mkStationState {
  sst_callsign : option string;
  sst_frequency : option Frequency;
  sst_rx : option bool;
  sst_tx : option bool;
  sst_xc : option bool;
  sst_xca : option bool;
  sst_headset : option bool;
  sst_is_output_muted : option bool;
  sst_is_available : bool
}.

Record StationStateUpdate := mkStationStateUpdate {
  su_rx : option bool;
  su_tx : option bool;
  su_xca : option bool;
  su_headset : option bool;
  su_output_muted : option bool
}.

Definition no_update : StationStateUpdate := mkStationStateUpdate None None None None None.

(** The errors of TrackAudio's library that the code tells apart *)
Inductive TrackAudioError := TE_Send | TE_ClientTaskTerminated | TE_Timeout | TE_Other (message : string).

(** The messages are formatted from the error; the model keeps the error, of
    TrackAudio's library or of the emitter of key presses. *)
Inductive RadioCause := FromTrackAudio (err : TrackAudioError) | FromEmitter (message : string).

Inductive RadioError :=
| Integration (cause : RadioCause)
| Transmit (cause : RadioCause)
| NotSupported.

(** What leaves the radio: events for the user interface, commands for the radio
    client and the recorder that follows its connection *)
Inductive RadioOutput :=
| EmitState (state : RadioState)
| EmitStationAdded (station : RadioStation)
| EmitStationRemoved (frequency : Frequency)
| EmitStationUpdated (station : RadioStation)
| EmitStationsSynced (stations : list RadioStation)
| SendTransmit (active : bool) (result : Result () TrackAudioError)
| SendStationState (frequency : Frequency) (update : StationStateUpdate)
| SendAddStation (callsign : string)
| SendReconnect
| PressKey (down : bool)
| StopPlayingSource
| RecorderStarted (recorder : N)
| RecorderShutdown (recorder : N).

(** ** The state kept of TrackAudio *)

Record TrackAudioState := mkTrackAudioState {
  connected : bool;
  voice_connected : bool;
  transmitting : bool;
  receiving : gset Frequency;
  stations : gmap Frequency RadioStation;
  ptt_active : bool;
  transmit_failures : N
}.

Module TrackAudioState.
Section state.
Context {HO : HashOrder} (fallback_frequency : Frequency).

Definition initial : TrackAudioState := mkTrackAudioState false false false ∅ ∅ false 0.

Definition with_connected (s : TrackAudioState) (b : bool) : TrackAudioState :=
  mkTrackAudioState b (voice_connected s) (transmitting s) (receiving s) (stations s) (ptt_active s)
    (transmit_failures s).
Definition with_transmitting (s : TrackAudioState) (b : bool) : TrackAudioState :=
  mkTrackAudioState (connected s) (voice_connected s) b (receiving s) (stations s) (ptt_active s)
    (transmit_failures s).
Definition with_receiving (s : TrackAudioState) (fs : gset Frequency) : TrackAudioState :=
  mkTrackAudioState (connected s) (voice_connected s) (transmitting s) fs (stations s) (ptt_active s)
    (transmit_failures s).
Definition with_stations (s : TrackAudioState) (m : gmap Frequency RadioStation) : TrackAudioState :=
  mkTrackAudioState (connected s) (voice_connected s) (transmitting s) (receiving s) m (ptt_active s)
    (transmit_failures s).
Definition with_ptt_active (s : TrackAudioState) (b : bool) : TrackAudioState :=
  mkTrackAudioState (connected s) (voice_connected s) (transmitting s) (receiving s) (stations s) b
    (transmit_failures s).
Definition with_transmit_failures (s : TrackAudioState) (n : N) : TrackAudioState :=
  mkTrackAudioState (connected s) (voice_connected s) (transmitting s) (receiving s) (stations s)
    (ptt_active s) n.

(** [TRANSMIT_FAILURE_THRESHOLD] *)
Definition TRANSMIT_FAILURE_THRESHOLD : N := 3.

(** [RadioState::from] *)
Definition radio_state (s : TrackAudioState) : RadioState :=
  if negb (connected s) then Disconnected
  else if negb (voice_connected s) then Connected
  else if (TRANSMIT_FAILURE_THRESHOLD <=? transmit_failures s)%N then RadioStateError
  else if transmitting s then TxActive
  else if bool_decide (receiving s <> ∅) then RxActive (receiving s)
  else if map_any (λ _ st, rs_rx st) (stations s) then RxIdle
  else VoiceConnected.

(** [RadioStation::from] *)
Definition station_from (s : StationState) : RadioStation :=
  mkRadioStation (sst_callsign s) (default fallback_frequency (sst_frequency s))
    (default false (sst_rx s)) (default false (sst_tx s))
    (default false (sst_xc s)) (default false (sst_xca s))
    (default true (sst_headset s)) (default false (sst_is_output_muted s))
    (sst_is_available s).

Definition emit (s : TrackAudioState) : RadioOutput := EmitState (radio_state s).

(** Every operation answers what it emits and the state. *)
Definition clear (s : TrackAudioState) : TrackAudioState :=
  mkTrackAudioState false false false ∅ ∅ false 0.

Definition headset_for_frequency (s : TrackAudioState) (f : Frequency) : option bool :=
  rs_headset <$> stations s !! f.

Definition emitting (outputs : list RadioOutput) (s : TrackAudioState) :
    list RadioOutput * TrackAudioState := (outputs ++ [emit s], s).

Definition set_transmitting (s : TrackAudioState) (active : bool) :=
  emitting [] (with_transmitting s active).

Definition set_receiving (s : TrackAudioState) (f : Frequency) (active : bool) :=
  emitting [] (with_receiving s (if active then {[f]} ∪ receiving s else receiving s ∖ {[f]})).

Definition apply_voice_connected (s : TrackAudioState) (voice : bool) : TrackAudioState :=
  mkTrackAudioState (connected s) voice (transmitting s) (receiving s) (stations s) (ptt_active s) 0.

Definition set_voice_connected (s : TrackAudioState) (voice : bool) :=
  emitting [] (apply_voice_connected s voice).

Definition set_connected (s : TrackAudioState) (b : bool) := emitting [] (with_connected s b).

Definition add_station (s : TrackAudioState) (callsign : string) (f : Frequency) :=
  let station := mkRadioStation (Some callsign) f false false false false false false true in
  emitting [EmitStationAdded station] (with_stations s (<[f := station]> (stations s))).

(** The changes of an update to a station that is there *)
Definition updated_station (existing : RadioStation) (u : StationState) : RadioStation :=
  mkRadioStation
    (match sst_callsign u with Some callsign => Some callsign | None => rs_callsign existing end)
    (rs_frequency existing)
    (default (rs_rx existing) (sst_rx u))
    (default (rs_tx existing) (sst_tx u))
    (default (rs_xc existing) (sst_xc u))
    (default (rs_xca existing) (sst_xca u))
    (default (rs_headset existing) (sst_headset u))
    (default (rs_output_muted existing) (sst_is_output_muted u))
    (rs_is_available existing).

Definition update_station (s : TrackAudioState) (u : StationState) :
    list RadioOutput * TrackAudioState :=
  match sst_frequency u with
  | None => ([], s)
  | Some f =>
    if negb (sst_is_available u) then
      emitting [EmitStationRemoved f]
        (with_receiving (with_stations s (delete f (stations s))) (receiving s ∖ {[f]}))
    else
      match stations s !! f with
      | Some existing =>
        let station := updated_station existing u in
        let fs := if bool_decide (sst_rx u = Some false) then receiving s ∖ {[f]} else receiving s in
        emitting [EmitStationUpdated station]
          (with_receiving (with_stations s (<[f := station]> (stations s))) fs)
      | None =>
        let station := station_from u in
        emitting [EmitStationAdded station] (with_stations s (<[f := station]> (stations s)))
      end
  end.

Definition remove_station (s : TrackAudioState) (f : Frequency) :=
  emitting [EmitStationRemoved f]
    (with_receiving (with_stations s (delete f (stations s))) (receiving s ∖ {[f]})).

(** The available stations that have a frequency; a later one replaces an earlier
    one of the same frequency. *)
Definition synced_stations (l : list StationState) : gmap Frequency RadioStation :=
  map_collect (omap (λ u,
    if sst_is_available u then f ← sst_frequency u; Some (f, station_from u) else None) l).

Definition sync_stations (s : TrackAudioState) (l : list StationState) :=
  let m := synced_stations l in
  emitting [EmitStationsSynced (map_values m)]
    (with_receiving (with_stations s m) (filter (λ f, is_Some (m !! f)) (receiving s))).

Definition listed (s : TrackAudioState) : list RadioStation := map_values (stations s).
End state.
End TrackAudioState.

(** ** The radio of TrackAudio and the recorder that follows its connection *)

Record TrackAudioRadio := mkTrackAudioRadio {
  ta_state : TrackAudioState;
  ta_recorder : option N
}.

Inductive ConnectionState :=
| CS_Connected
| CS_Connecting
| CS_Reconnecting
| CS_Disconnected
| CS_ReconnectFailed.

Inductive TrackAudioEvent :=
| TxBegin
| TxEnd
| RxBegin (frequency : Frequency)
| RxEnd (frequency : Frequency) (active_transmitters : option (list string))
| VoiceConnectedState (voice_connected : bool)
| ConnectionStateChanged (state : ConnectionState)
| CommandSendFailed
| EventDeserializationFailed
| StationAdded (callsign : string) (frequency : Frequency)
| StationStateUpdated (state : StationState)
| StationStates (states : list StationState)
| FrequencyRemoved (frequency : Frequency)
| OtherEvent.

(** What a handler asks and gets while it handles an event: TrackAudio's answers
    ([Err]: in time there was none) and what became of starting a recorder
    ([None]: there is no radio, the playback is disabled or it failed). *)
Record Answers := mkAnswers {
  station_states : Result (list StationState) TrackAudioError;
  voice_connected_state : Result bool TrackAudioError;
  recorder_spawned : option N
}.

Module TrackAudioRadio.
Section radio.
Context {HO : HashOrder} (fallback_frequency : Frequency).

Definition answered {A : Type} (otherwise : A) (r : Result A TrackAudioError) : A :=
  match r with Ok a => a | Err _ => otherwise end.

(** [handle_connection_state] *)
Definition handle_connection_state (answers : Answers) (c : ConnectionState) (s : TrackAudioState) :
    list RadioOutput * TrackAudioState :=
  match c with
  | CS_Connected =>
    let (shown, s) := TrackAudioState.set_connected s true in
    let s := TrackAudioState.apply_voice_connected s (answered false (voice_connected_state answers)) in
    let (synced, s) :=
      TrackAudioState.sync_stations fallback_frequency s (answered [] (station_states answers)) in
    (shown ++ synced, s)
  | CS_Connecting | CS_Reconnecting | CS_Disconnected =>
    TrackAudioState.emitting [] (TrackAudioState.clear s)
  | CS_ReconnectFailed => ([EmitState RadioStateError], TrackAudioState.clear s)
  end.

(** [PlaybackConfig::start]: the new recorder is put in place before the old one
    is shut down. *)
Definition start_recorder (answers : Answers) (recorder : option N) : list RadioOutput * option N :=
  match recorder_spawned answers with
  | None => ([], recorder)
  | Some new =>
    ([RecorderStarted new] ++ match recorder with Some old => [RecorderShutdown old] | None => [] end,
     Some new)
  end.

Definition stop_recorder (recorder : option N) : list RadioOutput * option N :=
  ([StopPlayingSource] ++ match recorder with Some old => [RecorderShutdown old] | None => [] end, None).

Definition handle_event (answers : Answers) (event : TrackAudioEvent) (r : TrackAudioRadio) :
    list RadioOutput * TrackAudioRadio :=
  let s := ta_state r in
  let of_state (os : list RadioOutput * TrackAudioState) :=
    (os.1, mkTrackAudioRadio os.2 (ta_recorder r)) in
  match event with
  | TxBegin => of_state (TrackAudioState.set_transmitting s true)
  | TxEnd => of_state (TrackAudioState.set_transmitting s false)
  | RxBegin f => of_state (TrackAudioState.set_receiving s f true)
  | RxEnd f active_transmitters =>
    of_state (TrackAudioState.set_receiving s f
      (match active_transmitters with None => false | Some l => negb (bool_decide (l = [])) end))
  | VoiceConnectedState b =>
    let (shown, s) := TrackAudioState.set_voice_connected s b in
    let (synced, s) :=
      TrackAudioState.sync_stations fallback_frequency s
        (if b then answered [] (station_states answers) else []) in
    (shown ++ synced, mkTrackAudioRadio s (ta_recorder r))
  | ConnectionStateChanged c =>
    let (recorded, recorder) :=
      match c with
      | CS_Connected => start_recorder answers (ta_recorder r)
      | _ => stop_recorder (ta_recorder r)
      end in
    let (shown, s) := handle_connection_state answers c s in
    (recorded ++ shown, mkTrackAudioRadio s recorder)
  | CommandSendFailed => ([EmitState RadioStateError], r)
  | EventDeserializationFailed => ([], r)
  | StationAdded callsign f => of_state (TrackAudioState.add_station s callsign f)
  | StationStateUpdated u => of_state (TrackAudioState.update_station fallback_frequency s u)
  | StationStates l => of_state (TrackAudioState.sync_stations fallback_frequency s l)
  | FrequencyRemoved f => of_state (TrackAudioState.remove_station s f)
  | OtherEvent => ([], r)
  end.

(** [events_task], when the channel of the events is closed *)
Definition events_closed (r : TrackAudioRadio) : list RadioOutput * TrackAudioRadio :=
  ([EmitState RadioStateError],
   mkTrackAudioRadio (TrackAudioState.clear (ta_state r)) (ta_recorder r)).

(** The latch lets through only what changes it. *)
Definition ptt_edge (latch : bool) (state : TransmissionState) : option bool :=
  match state, latch with
  | Active, false => Some true
  | Inactive, true => Some false
  | _, _ => None
  end.

(** A command that was never put in the queue *)
Definition never_sent (err : TrackAudioError) : bool :=
  match err with TE_Send | TE_ClientTaskTerminated => true | _ => false end.

(** [transmit]; [result] is what TrackAudio answers to the command. *)
Definition transmit (result : Result () TrackAudioError) (state : TransmissionState)
    (r : TrackAudioRadio) : Result () RadioError * list RadioOutput * TrackAudioRadio :=
  let s := ta_state r in
  match ptt_edge (ptt_active s) state with
  | None => (Ok (), [], r)
  | Some active =>
    let s := TrackAudioState.with_ptt_active s active in
    match result with
    | Ok _ =>
      let s' := TrackAudioState.with_transmit_failures s 0 in
      (Ok (),
       [SendTransmit active result] ++
         (if (TrackAudioState.TRANSMIT_FAILURE_THRESHOLD <=? transmit_failures s)%N
          then [TrackAudioState.emit s'] else []),
       mkTrackAudioRadio s' (ta_recorder r))
    | Err err =>
      let s := if never_sent err then TrackAudioState.with_ptt_active s (negb active) else s in
      let s := TrackAudioState.with_transmit_failures s ((transmit_failures s + 1) mod 2 ^ 64) in
      (Err (Transmit (FromTrackAudio err)),
       [SendTransmit active result] ++
         [match err with TE_Timeout => TrackAudioState.emit s | _ => EmitState RadioStateError end],
       mkTrackAudioRadio s (ta_recorder r))
    end
  end.

Definition reconnect (result : Result () TrackAudioError) (r : TrackAudioRadio) :
    Result () RadioError * list RadioOutput * TrackAudioRadio :=
  let (shown, s) := TrackAudioState.emitting [] (TrackAudioState.clear (ta_state r)) in
  let r := mkTrackAudioRadio s (ta_recorder r) in
  match result with
  | Ok _ => (Ok (), shown ++ [SendReconnect], r)
  | Err err => (Err (Integration (FromTrackAudio err)), shown ++ [SendReconnect; EmitState RadioStateError], r)
  end.

Definition add_station (result : Result StationState TrackAudioError) (callsign : string) :
    Result RadioStation RadioError * list RadioOutput :=
  (match result with
   | Ok s => Ok (TrackAudioState.station_from fallback_frequency s)
   | Err err => Err (Integration (FromTrackAudio err))
   end, [SendAddStation callsign]).

Definition set_station_state (result : Result StationState TrackAudioError) (f : Frequency)
    (update : StationStateUpdate) : Result RadioStation RadioError * list RadioOutput :=
  (match result with
   | Ok s => Ok (TrackAudioState.station_from fallback_frequency s)
   | Err err => Err (Integration (FromTrackAudio err))
   end, [SendStationState f update]).

(** [fast_couple]: a station that cannot be coupled does not stop the others. *)
Definition fast_couple (r : TrackAudioRadio) : list RadioOutput :=
  map (λ s, SendStationState (rs_frequency s) (mkStationStateUpdate None None (Some true) None None))
    (filter (λ s, rs_tx s = true /\ rs_xca s = false) (TrackAudioState.listed (ta_state r))).

(** [Drop]: the push-to-talk key is released. *)
Definition drop_radio (result : Result () TrackAudioError) (r : TrackAudioRadio) :
    list RadioOutput * TrackAudioRadio :=
  let '(sent, r) :=
    if ptt_active (ta_state r) then let '(_, sent, r) := transmit result Inactive r in (sent, r)
    else ([], r) in
  (sent ++ [EmitState NotConfigured],
   mkTrackAudioRadio (TrackAudioState.clear (ta_state r)) (ta_recorder r)).
End radio.
End TrackAudioRadio.

(** ** The waiting between attempts ([utils.rs]) *)

(** Durations in nanoseconds. The one strategy of the program doubles half a
    second, so that the products are powers of two and exact in the source's
    single precision; [None]: the product does not fit a [Duration], which counts
    seconds in 64 bits, and the conversion panics. *)
Record BackoffStrategy := mkBackoffStrategy { base : N; max : N; multiplier : N }.

Definition DURATION_LIMIT : N := 2 ^ 64 * 1000000000.

Definition backoff_timeout (b : BackoffStrategy) (attempt : nat) : option N :=
  match attempt with
  | 0 => Some 0%N
  | 1 => Some (base b)
  | S n =>
    let product := (base b * multiplier b ^ N.of_nat n)%N in
    if (DURATION_LIMIT <=? product)%N then None else Some (N.min product (max b))
  end.

(** ** Key presses for other radio clients ([push_to_talk.rs]) *)

(** [active] is shared by the clones of the radio. *)
Record PushToTalkRadio := mkPushToTalkRadio { active : bool }.

(** How an attempt to start the recorder ends *)
Inductive RecorderAttempt := NoRadio | Started | Unsupported | StartFailed.

(** The task ends, panics, or waits for another attempt. *)
Inductive TaskState := TaskEnded | TaskPanicked | TaskWaiting (attempt : nat).

Module PushToTalkRadio.

Definition strategy : BackoffStrategy := mkBackoffStrategy 500000000 30000000000 2.

(** The task that [new] spawns: how long it waits before each attempt, and how far
    it comes with the attempts that are given. *)
Fixpoint recorder_task (attempt : nat) (outcomes : list RecorderAttempt) : list N * TaskState :=
  match backoff_timeout strategy attempt with
  | None => ([], TaskPanicked)
  | Some wait =>
    match outcomes with
    | [] => ([], TaskWaiting attempt)
    | (Started | Unsupported) :: _ => ([wait], TaskEnded)
    | (NoRadio | StartFailed) :: outcomes =>
      let (waits, state) := recorder_task (S attempt) outcomes in (wait :: waits, state)
    end
  end.

Definition new : list RadioOutput * PushToTalkRadio :=
  ([EmitState RxIdle], mkPushToTalkRadio false).

(** The latch stays as it is when the key press cannot be emitted. *)
Definition transmit (emitted : Result () string) (state : TransmissionState) (r : PushToTalkRadio) :
    Result () RadioError * list RadioOutput * PushToTalkRadio :=
  match TrackAudioRadio.ptt_edge (active r) state with
  | None => (Ok (), [], r)
  | Some down =>
    let r := mkPushToTalkRadio down in
    match emitted with
    | Ok _ => (Ok (), [PressKey down; EmitState (if down then TxActive else RxIdle)], r)
    | Err err => (Err (Transmit (FromEmitter err)), [], r)
    end
  end.

Definition radio_state (r : PushToTalkRadio) : RadioState := if active r then TxActive else RxIdle.

Definition drop_radio (emitted : Result () string) (r : PushToTalkRadio) : list RadioOutput :=
  (if active r then match emitted with Ok _ => [PressKey false] | Err _ => [] end else []) ++
    [EmitState NotConfigured].
End PushToTalkRadio.

(** ** The trait [Radio] *)

(** The answer to a transmission is the third party's: TrackAudio's or the emitter's. *)
Class Radio (R : Type) := {
  Answer : Type;
  radio_transmit : Answer -> TransmissionState -> R -> Result () RadioError * list RadioOutput * R;
  radio_reconnect : Result () TrackAudioError -> R -> Result () RadioError * list RadioOutput * R;
  radio_shown : R -> RadioState;
  radio_get_stations : R -> Result (list RadioStation) RadioError;
  radio_fast_couple : R -> Result () RadioError * list RadioOutput
}.

#[export] Instance TrackAudioRadio_Radio {HO : HashOrder} : Radio TrackAudioRadio := {|
  Answer := Result () TrackAudioError;
  radio_transmit := TrackAudioRadio.transmit;
  radio_reconnect := TrackAudioRadio.reconnect;
  radio_shown r := TrackAudioState.radio_state (ta_state r);
  radio_get_stations r := Ok (TrackAudioState.listed (ta_state r));
  radio_fast_couple r := (Ok (), TrackAudioRadio.fast_couple r)
|}.

(** What it does not override is not supported, and reconnecting does nothing. *)
#[export] Instance PushToTalkRadio_Radio : Radio PushToTalkRadio := {|
  Answer := Result () string;
  radio_transmit := PushToTalkRadio.transmit;
  radio_reconnect _ r := (Ok (), [], r);
  radio_shown := PushToTalkRadio.radio_state;
  radio_get_stations _ := Err NotSupported;
  radio_fast_couple _ := (Err NotSupported, [])
|}.
