(* ===== verification/RadioProperties.v ===== *)
(** RadioProperties: the theorems about the radios: what the user interface shows of
    TrackAudio, the commands of the push-to-talk latch, the recorder that follows
    the connection, and the retries of the recorder for other radio clients. *)
From stdpp Require Import prelude gmap strings list.
From Stdlib Require Import NArith.
From S2P Require Import Prelude Radio.

(** ** Runs of TrackAudio's radio *)

Inductive RadioOp :=
| OnEvent (answers : Answers) (event : TrackAudioEvent)
| OnEventsClosed
| OnTransmit (result : Result () TrackAudioError) (state : TransmissionState)
| OnReconnect (result : Result () TrackAudioError)
| OnDrop (result : Result () TrackAudioError).

Section runs.
Context {HO : HashOrder} (fallback : Frequency).

Definition radio_step (r : TrackAudioRadio) (op : RadioOp) : list RadioOutput * TrackAudioRadio :=
  match op with
  | OnEvent answers event => TrackAudioRadio.handle_event fallback answers event r
  | OnEventsClosed => TrackAudioRadio.events_closed r
  | OnTransmit result state =>
    let '(_, outputs, r) := TrackAudioRadio.transmit result state r in (outputs, r)
  | OnReconnect result =>
    let '(_, outputs, r) := TrackAudioRadio.reconnect result r in (outputs, r)
  | OnDrop result => TrackAudioRadio.drop_radio result r
  end.

Fixpoint radio_run (r : TrackAudioRadio) (ops : list RadioOp) : list RadioOutput * TrackAudioRadio :=
  match ops with
  | [] => ([], r)
  | op :: ops =>
    let (outputs, r) := radio_step r op in
    let (rest, r) := radio_run r ops in (outputs ++ rest, r)
  end.

(** [TrackAudioRadio::new], once it is connected to the library *)
Definition fresh_radio : TrackAudioRadio := mkTrackAudioRadio TrackAudioState.initial None.

Lemma radio_run_app r ops ops' :
  radio_run r (ops ++ ops') =
    ((radio_run r ops).1 ++ (radio_run (radio_run r ops).2 ops').1,
     (radio_run (radio_run r ops).2 ops').2).
Proof.
  revert r. induction ops as [|op ops IH]; intros r; cbn; [by destruct (radio_run r ops')|].
  destruct (radio_step r op) as [o r1]. rewrite IH. destruct (radio_run r1 ops) as [o2 r2]. cbn.
  by rewrite app_assoc.
Qed.

(** An invariant of the steps is one of the runs. *)
Lemma radio_run_ind (P : TrackAudioRadio -> Prop) r ops :
  P r -> (forall r op, P r -> P (radio_step r op).2) -> P (radio_run r ops).2.
Proof.
  intros Hr Hstep. revert r Hr. induction ops as [|op ops IH]; intros r Hr; [done|]. cbn.
  pose proof (Hstep r op Hr) as H. destruct (radio_step r op) as [o r1]. cbn in H.
  specialize (IH r1 H). by destruct (radio_run r1 ops).
Qed.

(** ** The stations a page shows *)

Definition page_update (page : gmap Frequency RadioStation) (output : RadioOutput) :
    gmap Frequency RadioStation :=
  match output with
  | EmitStationAdded st | EmitStationUpdated st => <[rs_frequency st := st]> page
  | EmitStationRemoved f => delete f page
  | EmitStationsSynced l => map_collect (map (λ st, (rs_frequency st, st)) l)
  | _ => page
  end.

Definition follow (page : gmap Frequency RadioStation) (outputs : list RadioOutput) :=
  foldl page_update page outputs.

(** The states in which the user interface has no list of stations *)
Definition closes_page (output : RadioOutput) : bool :=
  match output with
  | EmitState (NotConfigured | Disconnected | Connected | RadioStateError) => true
  | _ => false
  end.

Definition keyed (m : gmap Frequency RadioStation) : Prop :=
  forall f st, m !! f = Some st -> rs_frequency st = f.

Lemma map_collect_values (m : gmap Frequency RadioStation) :
  keyed m -> map_collect (map (λ st, (rs_frequency st, st)) (map_values m)) = m.
Proof.
  intros Hm. assert (forall f st, (f, st) ∈ map (λ st, (rs_frequency st, st)) (map_values m) <->
    m !! f = Some st) as Hin.
  { intros f st. rewrite list_elem_of_fmap. split.
    - intros (st' & [= -> <-] & H). apply elem_of_map_values in H as [k H]. by rewrite (Hm _ _ H).
    - intros H. exists st. rewrite (Hm _ _ H). split; [done|]. apply elem_of_map_values. by exists f. }
  apply map_eq. intros f. apply option_eq. intros st.
  rewrite map_collect_functional, Hin; [done|]. intros k v1 v2. rewrite !Hin. congruence.
Qed.

Lemma synced_keyed l : keyed (TrackAudioState.synced_stations fallback l).
Proof.
  intros f st H. apply map_collect_lookup in H. apply list_elem_of_omap in H as (u & _ & Hu).
  destruct (sst_is_available u); [|done]. destruct (sst_frequency u) as [f'|] eqn:Hf; [|done].
  cbn in Hu. injection Hu as <- <-. cbn. by rewrite Hf.
Qed.

Lemma keyed_insert m f st : keyed m -> rs_frequency st = f -> keyed (<[f := st]> m).
Proof.
  intros Hm Hf f' st' [[<- <-]|[_ H]]%lookup_insert_Some; [done|by apply Hm].
Qed.
Lemma keyed_delete m f : keyed m -> keyed (delete f m).
Proof. intros Hm f' st' [_ H]%lookup_delete_Some. by apply Hm. Qed.

(** What an operation on the state emits is true of the state it leaves. *)
Record faithful (s : TrackAudioState) (outputs : list RadioOutput) (s' : TrackAudioState) : Prop := {
  ft_keyed : keyed (stations s');
  ft_page : existsb closes_page outputs = true \/ follow (stations s) outputs = stations s'
}.

Lemma faithful_same s outputs s' :
  keyed (stations s) -> stations s' = stations s -> follow (stations s) outputs = stations s ->
  faithful s outputs s'.
Proof. intros Hk E Hf. split; rewrite E; [done|by right]. Qed.

Lemma faithful_app s o1 s1 o2 s2 :
  faithful s o1 s1 -> faithful s1 o2 s2 -> faithful s (o1 ++ o2) s2.
Proof.
  intros [_ H1] [Hk H2]. split; [done|]. rewrite existsb_app. unfold follow in *. rewrite foldl_app.
  destruct H1 as [->|H1]; [by left|]. rewrite H1. destruct H2 as [->|H2]; [left; apply orb_true_r|].
  by right.
Qed.

Lemma faithful_synced s l :
  faithful s (TrackAudioState.sync_stations fallback s l).1 (TrackAudioState.sync_stations fallback s l).2.
Proof.
  pose proof (synced_keyed l) as Hk. split; [done|]. right. cbn. by apply map_collect_values.
Qed.

Lemma faithful_cleared s s0 outputs : existsb closes_page outputs = true ->
  faithful s outputs (TrackAudioState.clear s0).
Proof. intros H. split; [intros f st Hf; cbn in Hf; by rewrite lookup_empty in Hf|by left]. Qed.

Lemma faithful_updated s u :
  keyed (stations s) ->
  faithful s (TrackAudioState.update_station fallback s u).1
    (TrackAudioState.update_station fallback s u).2.
Proof.
  intros Hk. unfold TrackAudioState.update_station.
  destruct (sst_frequency u) as [f|] eqn:Hf; [|by apply faithful_same].
  destruct (sst_is_available u); cbn [negb].
  - destruct (stations s !! f) as [st|] eqn:Hst; cbn; split; cbn.
    + apply keyed_insert; [done|]. exact (Hk f st Hst).
    + right. by rewrite (Hk _ _ Hst).
    + apply keyed_insert; [done|]. cbn. by rewrite Hf.
    + right. cbn. by rewrite Hf.
  - cbn. split; cbn; [by apply keyed_delete|by right].
Qed.

Lemma faithful_transmit result state r outcome outputs r' :
  TrackAudioRadio.transmit result state r = (outcome, outputs, r') -> keyed (stations (ta_state r)) ->
  faithful (ta_state r) outputs (ta_state r') /\ ta_recorder r' = ta_recorder r.
Proof.
  unfold TrackAudioRadio.transmit. intros H Hk.
  destruct (TrackAudioRadio.ptt_edge _ _) as [b|]; [|injection H as <- <- <-; split; [by apply faithful_same|done]].
  destruct result as [[]|err].
  - injection H as <- <- <-. split; [|done]. apply faithful_same; [done|done|]. cbn.
    by destruct (_ <=? _)%N.
  - injection H as <- <- <-. split; [|done].
    destruct err; cbn; apply faithful_same; done.
Qed.

Lemma faithful_step r op :
  keyed (stations (ta_state r)) ->
  faithful (ta_state r) (radio_step r op).1 (ta_state (radio_step r op).2).
Proof.
  intros Hk. destruct op as [answers event| |result state|result|result]; cbn [radio_step].
  - destruct event as [| |f|f l|b|c| | |callsign f|u|l|f|]; cbn [TrackAudioRadio.handle_event];
      try by apply faithful_same.
    + destruct (TrackAudioState.set_voice_connected _ b) as [shown s] eqn:Hs. injection Hs as <- <-.
      pose proof (faithful_synced (TrackAudioState.apply_voice_connected (ta_state r) b)
        (if b then TrackAudioRadio.answered [] (station_states answers) else [])) as H.
      destruct (TrackAudioState.sync_stations _ _ _) as [synced s'].
      by apply faithful_app with (s1 := TrackAudioState.apply_voice_connected (ta_state r) b);
        [apply faithful_same|].
    + assert (forall recorded recorder,
        faithful (ta_state r) recorded (ta_state r) ->
        faithful (ta_state r)
          (let (shown, s) := TrackAudioRadio.handle_connection_state fallback answers c (ta_state r) in
           (recorded ++ shown, mkTrackAudioRadio s recorder)).1
          (ta_state (let (shown, s) := TrackAudioRadio.handle_connection_state fallback answers c (ta_state r) in
           (recorded ++ shown, mkTrackAudioRadio s recorder)).2)) as Hrest.
      { intros recorded recorder Hrec. destruct c; cbn [TrackAudioRadio.handle_connection_state];
          try by (apply faithful_app with (s1 := ta_state r); [|apply faithful_cleared]).
        destruct (TrackAudioState.set_connected _ true) as [shown s] eqn:Hs. injection Hs as <- <-.
        set (s1 := TrackAudioState.apply_voice_connected _ _).
        pose proof (faithful_synced s1 (TrackAudioRadio.answered [] (station_states answers))) as H.
        destruct (TrackAudioState.sync_stations _ _ _) as [synced s'].
        cbn [fst snd ta_state]. rewrite app_assoc. apply faithful_app with (s1 := s1); [|done].
        apply faithful_app with (s1 := ta_state r); [done|]. by apply faithful_same. }
      destruct c; cbn [TrackAudioRadio.start_recorder TrackAudioRadio.stop_recorder];
        unfold TrackAudioRadio.start_recorder, TrackAudioRadio.stop_recorder;
        try destruct (recorder_spawned answers); apply Hrest; apply faithful_same; try done;
        by destruct (ta_recorder r).
    + split; cbn; [by apply keyed_insert|by right].
    + by apply faithful_updated.
    + apply faithful_synced.
    + split; cbn; [by apply keyed_delete|by right].
  - by apply faithful_cleared.
  - destruct (TrackAudioRadio.transmit _ _ _) as [[o outs] r'] eqn:Ht.
    by destruct (faithful_transmit _ _ _ _ _ _ Ht Hk).
  - unfold TrackAudioRadio.reconnect. by destruct result; apply faithful_cleared.
  - unfold TrackAudioRadio.drop_radio. destruct (ptt_active (ta_state r)).
    + destruct (TrackAudioRadio.transmit _ _ _) as [[o outs] r'] eqn:Ht. cbn.
      apply faithful_cleared. rewrite existsb_app. apply orb_true_r.
    + by apply faithful_cleared.
Qed.

Lemma faithful_run r ops :
  keyed (stations (ta_state r)) -> faithful (ta_state r) (radio_run r ops).1 (ta_state (radio_run r ops).2).
Proof.
  revert r. induction ops as [|op ops IH]; intros r Hk; [by apply faithful_same|]. cbn.
  pose proof (faithful_step r op Hk) as H1. destruct (radio_step r op) as [o1 r1]. cbn in H1.
  pose proof (IH r1 (ft_keyed _ _ _ H1)) as H2. destruct (radio_run r1 ops) as [o2 r2].
  by apply faithful_app with (s1 := ta_state r1).
Qed.
End runs.

(** Every event settles what is shown under a frequency, or says nothing of it. *)
Lemma follow_settles outputs (f : Frequency) :
  (forall p1 p2, follow p1 outputs !! f = follow p2 outputs !! f) \/
  (forall p, follow p outputs !! f = p !! f).
Proof.
  induction outputs as [|o outputs IH]; [by right|].
  destruct IH as [IH|IH]; [left; intros p1 p2; apply IH|].
  destruct o as [| st|f'|st|l| | | | | | | |]; try (right; intros p; apply IH).
  1,3: destruct (decide (rs_frequency st = f)) as [<-|Hne];
      [left; intros p1 p2|right; intros p]; cbn; unfold follow in IH; rewrite !IH;
      [by rewrite !lookup_insert_eq|by rewrite lookup_insert_ne].
  - destruct (decide (f' = f)) as [<-|Hne]; [left; intros p1 p2|right; intros p];
      cbn; unfold follow in IH; rewrite !IH; [by rewrite !lookup_delete_eq|by rewrite lookup_delete_ne].
  - left. intros p1 p2. cbn. unfold follow in IH. by rewrite !IH.
Qed.

Lemma follow_again p outputs : follow (follow p outputs) outputs = follow p outputs.
Proof. apply map_eq. intros f. destruct (follow_settles outputs f) as [H|H]; [apply H|by rewrite !H]. Qed.

(** ** The state that is shown *)

Definition show (shown : RadioState) (output : RadioOutput) : RadioState :=
  match output with EmitState s => s | _ => shown end.

Definition shown_after (shown : RadioState) (outputs : list RadioOutput) : RadioState :=
  foldl show shown outputs.

(** What is shown is the state, or that something failed. *)
Definition honest {HO : HashOrder} (shown : RadioState) (s : TrackAudioState) : Prop :=
  shown = TrackAudioState.radio_state s \/ shown = RadioStateError.

Definition drops (op : RadioOp) : bool := match op with OnDrop _ => true | _ => false end.

Section shown.
Context {HO : HashOrder} (fallback : Frequency).

Lemma shown_emitting shown outputs s :
  honest (shown_after shown (TrackAudioState.emitting outputs s).1) s.
Proof. unfold shown_after, honest. cbn. rewrite foldl_app. by left. Qed.

Lemma shown_app shown o1 o2 : shown_after shown (o1 ++ o2) = shown_after (shown_after shown o1) o2.
Proof. apply foldl_app. Qed.

Lemma honest_transmit result state r shown outcome outputs r' :
  TrackAudioRadio.transmit result state r = (outcome, outputs, r') ->
  honest shown (ta_state r) -> honest (shown_after shown outputs) (ta_state r').
Proof.
  unfold TrackAudioRadio.transmit. intros H Hs.
  destruct (TrackAudioRadio.ptt_edge _ _) as [b|]; [|by injection H as <- <- <-].
  destruct result as [[]|err].
  - injection H as <- <- <-. cbn. destruct (_ <=? _)%N eqn:Hf; [by left|].
    destruct Hs as [-> | ->]; [left|by right]. cbn. unfold TrackAudioState.radio_state. cbn in Hf |- *.
    by rewrite Hf.
  - injection H as <- <- <-. destruct err; cbn; first [by left|by right].
Qed.

Lemma honest_step shown r op :
  drops op = false -> honest shown (ta_state r) ->
  honest (shown_after shown (radio_step fallback r op).1) (ta_state (radio_step fallback r op).2).
Proof.
  intros Hd Hs. destruct op as [answers event| |result state|result|result]; cbn [radio_step].
  - destruct event as [| |f|f l|b|c| | |callsign f|u|l|f|]; cbn [TrackAudioRadio.handle_event]; try done;
      try by apply (shown_emitting _ []).
    + cbn. by left.
    + destruct c; cbn [TrackAudioRadio.handle_connection_state];
        try (destruct (TrackAudioRadio.stop_recorder _) as [o rec]; cbn; rewrite shown_app; first [by left|by right]).
      destruct (TrackAudioRadio.start_recorder _ _) as [o rec]. cbn. rewrite shown_app. by left.
    + by right.
    + by left.
    + cbn. unfold TrackAudioState.update_station. destruct (sst_frequency u) as [f|]; [|done].
      destruct (sst_is_available u); cbn [negb]; [destruct (stations _ !! f)|]; by left.
    + by left.
    + by left.
  - by right.
  - destruct (TrackAudioRadio.transmit _ _ _) as [[o outs] r'] eqn:Ht. by eapply honest_transmit.
  - unfold TrackAudioRadio.reconnect. cbn. destruct result; cbn; first [by left|by right].
  - done.
Qed.
End shown.

(** ** The push-to-talk latch *)

(** The commands that reached the radio client *)
Definition told (output : RadioOutput) : option bool :=
  match output with
  | SendTransmit active (Ok _) => Some active
  | SendTransmit active (Err err) => if TrackAudioRadio.never_sent err then None else Some active
  | PressKey down => Some down
  | _ => None
  end.

(** A list of commands that turns what is on off and what is off on *)
Fixpoint alternates (on : bool) (l : list bool) : Prop :=
  match l with [] => True | b :: l => b = negb on /\ alternates b l end.

Lemma alternates_app on l l' :
  alternates on l -> alternates (default on (last l)) l' -> alternates on (l ++ l').
Proof.
  revert on. induction l as [|b l IH]; intros on; [done|]. cbn [alternates app].
  intros [-> H] H'. split; [done|]. apply IH; [done|].
  rewrite last_cons in H'. by destruct (last l).
Qed.

Lemma last_default_app on (l l' : list bool) :
  default on (last (l ++ l')) = default (default on (last l)) (last l').
Proof. rewrite last_app. by destruct (last l'). Qed.

(** What a radio with a latch promises: for an answer that is [sound], a
    transmission either changes nothing or tells the other command, and the latch
    is what the radio client was told last. *)
Class LatchedRadio (R : Type) `{Radio R} := {
  latch : R -> bool;
  sound : Answer -> Prop;
  transmit_law answer state r :
    sound answer ->
    let '(_, outputs, r') := radio_transmit answer state r in
    (omap told outputs = [] /\ latch r' = latch r) \/
    (omap told outputs = [negb (latch r)] /\ latch r' = negb (latch r))
}.

Section latch.
Context {R : Type} `{LatchedRadio R}.

Fixpoint transmissions (r : R) (l : list (Answer * TransmissionState)) : list RadioOutput * R :=
  match l with
  | [] => ([], r)
  | (answer, state) :: l =>
    let '(_, outputs, r) := radio_transmit answer state r in
    let (rest, r) := transmissions r l in (outputs ++ rest, r)
  end.

Lemma transmissions_alternate l r :
  Forall (λ x, sound x.1) l ->
  alternates (latch r) (omap told (transmissions r l).1) /\
  latch (transmissions r l).2 = default (latch r) (last (omap told (transmissions r l).1)).
Proof.
  intros Hl. revert r. induction Hl as [|[answer state] l Ha Hl IH]; intros r; [done|]. cbn [transmissions].
  pose proof (transmit_law answer state r Ha) as H2.
  destruct (radio_transmit answer state r) as [[o outputs] r1].
  specialize (IH r1). destruct (transmissions r1 l) as [rest r2]. cbn [fst snd] in *.
  rewrite omap_app, last_default_app.
  destruct H2 as [[-> E]|[-> E]]; rewrite E in IH; [done|]. cbn [app last default alternates].
  destruct IH as [IH1 ->]. done.
Qed.
End latch.

#[export] Program Instance TrackAudio_latched {HO : HashOrder} : LatchedRadio TrackAudioRadio := {|
  latch r := ptt_active (ta_state r);
  sound _ := True
|}.
Next Obligation.
  intros HO answer state r _. cbn. unfold TrackAudioRadio.transmit.
  destruct (ptt_active (ta_state r)) eqn:Hp, state; cbn [TrackAudioRadio.ptt_edge negb];
    try (left; split; [done|by rewrite Hp]).
  all: destruct answer as [[]|err]; [right; cbn; by destruct (_ <=? _)%N|].
  all: destruct err; cbn; rewrite ?Hp; first [by left|by right].
Qed.

(** A key press that cannot be emitted is lost, and the latch does not notice. *)
#[export] Program Instance PushToTalk_latched : LatchedRadio PushToTalkRadio := {|
  latch := active;
  sound emitted := emitted = Ok ()
|}.
Next Obligation.
  intros emitted state r ->. cbn. unfold PushToTalkRadio.transmit.
  destruct (active r) eqn:Hp, state; cbn; rewrite ?Hp; first [by left|by right].
Qed.

(** ** The latch over a whole run *)

(** The socket is a new one, or none, afterwards. *)
Definition clears (op : RadioOp) : bool :=
  match op with
  | OnEvent _ (ConnectionStateChanged CS_Connected) => false
  | OnEvent _ (ConnectionStateChanged _) | OnEventsClosed | OnReconnect _ | OnDrop _ => true
  | _ => false
  end.

Section told.
Context {HO : HashOrder} (fallback : Frequency).

(** What TrackAudio was told to transmit since its connection was last cleared *)
Fixpoint told_since (before : list bool) (r : TrackAudioRadio) (ops : list RadioOp) : list bool :=
  match ops with
  | [] => before
  | op :: ops =>
    let (outputs, r) := radio_step fallback r op in
    told_since (if clears op then [] else before ++ omap told outputs) r ops
  end.

Lemma event_latch answers event r :
  clears (OnEvent answers event) = false ->
  omap told (radio_step fallback r (OnEvent answers event)).1 = [] /\
  ptt_active (ta_state (radio_step fallback r (OnEvent answers event)).2) = ptt_active (ta_state r).
Proof.
  intros Hc. destruct event as [| |f|f l|b|c| | |callsign f|u|l|f|]; try done.
  - destruct c; try done. cbn. unfold TrackAudioRadio.start_recorder.
    destruct (recorder_spawned answers), (ta_recorder r); done.
  - cbn. unfold TrackAudioState.update_station. destruct (sst_frequency u) as [f|]; [|done].
    destruct (sst_is_available u); cbn [negb]; [destruct (stations _ !! f)|]; done.
Qed.

Lemma cleared_latch r op :
  clears op = true -> ptt_active (ta_state (radio_step fallback r op).2) = false.
Proof.
  intros Hc. destruct op as [answers event| |result state|result|result]; try done.
  - destruct event; try done. destruct state; try done; cbn;
      by destruct (TrackAudioRadio.stop_recorder _).
  - cbn. by destruct result.
  - cbn. unfold TrackAudioRadio.drop_radio.
    destruct (ptt_active (ta_state r)); [|done]. by destruct (TrackAudioRadio.transmit _ _ _) as [[? ?] ?].
Qed.

Lemma told_since_alternates before r ops :
  alternates false before -> ptt_active (ta_state r) = default false (last before) ->
  alternates false (told_since before r ops) /\
  ptt_active (ta_state (radio_run fallback r ops).2) = default false (last (told_since before r ops)).
Proof.
  revert before r. induction ops as [|op ops IH]; intros before r Ha Hp; [done|].
  cbn [told_since radio_run].
  assert (let (outputs, r') := radio_step fallback r op in
    let after := if clears op then [] else before ++ omap told outputs in
    alternates false after /\ ptt_active (ta_state r') = default false (last after)) as Hstep.
  { destruct (clears op) eqn:Hc.
    - pose proof (cleared_latch r op Hc) as H. by destruct (radio_step fallback r op).
    - destruct op as [answers event| |result state|result|result]; try done.
      + destruct (event_latch answers event r Hc) as [H1 H2].
        destruct (radio_step fallback r _) as [outputs r']. cbn in H1, H2 |- *.
        by rewrite H1, app_nil_r, H2.
      + pose proof (@transmit_law TrackAudioRadio _ TrackAudio_latched result state r I) as H.
        cbn in H |- *. destruct (TrackAudioRadio.transmit _ _ _) as [[o outputs] r'].
        rewrite last_default_app, <- Hp. destruct H as [[-> ->]|[-> ->]]; [by rewrite app_nil_r|].
        split; [|done]. apply alternates_app; [done|]. by rewrite <- Hp. }
  destruct (radio_step fallback r op) as [outputs r']. destruct Hstep as [H1 H2].
  specialize (IH _ r' H1 H2). by destruct (radio_run fallback r' ops).
Qed.
End told.

(** ** The recorder *)

Fixpoint remove_first (x : N) (l : list N) : list N :=
  match l with [] => [] | y :: l => if bool_decide (x = y) then l else y :: remove_first x l end.

Definition recording (running : list N) (output : RadioOutput) : list N :=
  match output with
  | RecorderStarted n => n :: running
  | RecorderShutdown n => remove_first n running
  | _ => running
  end.

Section recorder.
Context {HO : HashOrder} (fallback : Frequency).

Lemma recording_inert l outputs :
  Forall (λ o, match o with RecorderStarted _ | RecorderShutdown _ => False | _ => True end) outputs ->
  foldl recording l outputs = l.
Proof. intros H. revert l. induction H as [|o outputs Ho H IH]; intros l; [done|]. cbn. rewrite IH. by destruct o. Qed.

Lemma transmit_inert result state r :
  Forall (λ o, match o with RecorderStarted _ | RecorderShutdown _ => False | _ => True end)
    (TrackAudioRadio.transmit result state r).1.2 /\
  ta_recorder (TrackAudioRadio.transmit result state r).2 = ta_recorder r.
Proof.
  unfold TrackAudioRadio.transmit. destruct (TrackAudioRadio.ptt_edge _ _); [|done].
  destruct result as [[]|err]; cbn; [destruct (_ <=? _)%N|destruct err]; cbn; split; try done;
    by repeat constructor.
Qed.

Lemma recording_step r op :
  foldl recording (option_list (ta_recorder r)) (radio_step fallback r op).1 =
    option_list (ta_recorder (radio_step fallback r op).2).
Proof.
  destruct op as [answers event| |result state|result|result]; cbn [radio_step].
  - destruct event as [| |f|f l|b|c| | |callsign f|u|l|f|]; cbn [TrackAudioRadio.handle_event]; try done.
    + destruct c; cbn [TrackAudioRadio.handle_connection_state];
        unfold TrackAudioRadio.start_recorder, TrackAudioRadio.stop_recorder;
        [destruct (recorder_spawned answers) as [n|]|..]; destruct (ta_recorder r) as [old|]; cbn;
        rewrite ?bool_decide_true by done; try done.
      case_bool_decide as H; [by rewrite H|]. cbn. by rewrite bool_decide_true.
    + cbn. unfold TrackAudioState.update_station. destruct (sst_frequency u) as [f|]; [|done].
      destruct (sst_is_available u); cbn [negb]; [destruct (stations _ !! f)|]; done.
  - done.
  - destruct (transmit_inert result state r) as [H1 H2].
    destruct (TrackAudioRadio.transmit _ _ _) as [[o outputs] r']. cbn in *.
    by rewrite recording_inert, H2.
  - unfold TrackAudioRadio.reconnect. by destruct result.
  - unfold TrackAudioRadio.drop_radio. destruct (ptt_active _); [|done].
    destruct (transmit_inert result Inactive r) as [H1 H2].
    destruct (TrackAudioRadio.transmit _ _ _) as [[o outputs] r']. cbn in *.
    rewrite foldl_app, H2. cbn. by apply recording_inert.
Qed.
End recorder.

(** ** The retries of the recorder for other radio clients *)

Definition failed (a : RecorderAttempt) : Prop := a = NoRadio \/ a = StartFailed.

Lemma strategy_timeout attempt :
  match backoff_timeout PushToTalkRadio.strategy attempt with
  | Some wait => attempt < 66 /\ (wait <= max PushToTalkRadio.strategy)%N
  | None => 66 <= attempt
  end.
Proof.
  destruct attempt as [|[|n]]; cbn; [lia|lia|]. unfold DURATION_LIMIT.
  replace (Pos.of_succ_nat n) with (Pos.of_succ_nat n) by done.
  change (N.pos (Pos.of_succ_nat n)) with (N.of_nat (S n)).
  destruct (N.leb_spec (2 ^ 64 * 1000000000) (500000000 * 2 ^ N.of_nat (S n))) as [H|H].
  - destruct (decide (66 <= S (S n))) as [|Hn]; [done|exfalso].
    assert (2 ^ N.of_nat (S n) <= 2 ^ 64)%N as Hp by (apply N.pow_le_mono_r; lia). lia.
  - split; [|lia]. destruct (decide (S (S n) < 66)) as [|Hn]; [done|exfalso].
    assert (2 ^ 65 <= 2 ^ N.of_nat (S n))%N as Hp by (apply N.pow_le_mono_r; lia). lia.
Qed.

Lemma recorder_task_from attempt outcomes :
  (forall w, w ∈ (PushToTalkRadio.recorder_task attempt outcomes).1 ->
     (w <= max PushToTalkRadio.strategy)%N) /\
  match (PushToTalkRadio.recorder_task attempt outcomes).2 with
  | TaskEnded => exists l a l', outcomes = l ++ a :: l' /\ Forall failed l /\
      (a = Started \/ a = Unsupported) /\ attempt + length l < 66
  | TaskPanicked => exists l l', outcomes = l ++ l' /\ Forall failed l /\ 66 <= attempt + length l
  | TaskWaiting n => Forall failed outcomes /\ n = attempt + length outcomes /\ n < 66
  end.
Proof.
  revert attempt. induction outcomes as [|a outcomes IH]; intros attempt.
  - cbn [PushToTalkRadio.recorder_task]. pose proof (strategy_timeout attempt) as Ht.
    destruct (backoff_timeout _ attempt) as [w|]; cbn; (split; [by intros w' H%not_elem_of_nil|]).
    + split_and!; [done|lia|lia].
    + exists [], []. split_and!; [done|done|cbn; lia].
  - cbn [PushToTalkRadio.recorder_task]. pose proof (strategy_timeout attempt) as Ht.
    destruct (backoff_timeout _ attempt) as [w|].
    2: { split; [by intros w' H%not_elem_of_nil|]. exists [], (a :: outcomes). split_and!; [done|done|cbn; lia]. }
    destruct Ht as [Hlt Hw].
    assert (Hend : a = Started \/ a = Unsupported \/ failed a) by (destruct a; unfold failed; tauto).
    destruct Hend as [-> | [-> | Hf]]; cbn.
    1,2: split; [by intros w' ->%list_elem_of_singleton|]; eexists [], _, outcomes; split_and!; [done|done|tauto|cbn; lia].
    specialize (IH (S attempt)). destruct IH as [IHw IH].
    assert (forall X, match a with Started | Unsupported => ([w], TaskEnded) | NoRadio | StartFailed => X end = X) as ->
      by (intros X; by destruct Hf as [-> | ->]).
    destruct (PushToTalkRadio.recorder_task (S attempt) outcomes) as [waits st]. cbn in *. split.
    { intros w' [-> |H]%elem_of_cons; [done|by apply IHw]. }
    destruct st as [| |n].
    + destruct IH as (l & a' & l' & -> & Hl & Ha & Hn). exists (a :: l), a', l'.
      split_and!; [done|by constructor|done|cbn; lia].
    + destruct IH as (l & l' & -> & Hl & Hn). exists (a :: l), l'. split_and!; [done|by constructor|cbn; lia].
    + destruct IH as (Hl & -> & Hn). split_and!; [by constructor|lia|lia].
Qed.

(** ** Properties *)

(** C30: the page of the stations shows the stations there are. A page listens from
    the end of one run on, takes the list of the stations after another and puts
    everything it heard, from the start, on top of it; as long as no state was
    shown that closes the page, it has the stations the radio has, whatever else
    happened since and in between. *)
Theorem page_shows_stations {HO : HashOrder} fallback ops since later :
  let listening := radio_run fallback fresh_radio ops in
  let listed := radio_run fallback listening.2 since in
  let now := radio_run fallback listed.2 later in
  existsb closes_page (listed.1 ++ now.1) = false ->
  follow (stations (ta_state listed.2)) (listed.1 ++ now.1) = stations (ta_state now.2).
Proof.
  intros listening listed now Hc. rewrite existsb_app in Hc. apply orb_false_iff in Hc as [H1 H2].
  assert (keyed (stations (ta_state fresh_radio))) as Hk0
    by (intros f st Hf; cbn in Hf; by rewrite lookup_empty in Hf).
  pose proof (ft_keyed _ _ _ (faithful_run fallback fresh_radio ops Hk0)) as Hk1.
  destruct (faithful_run fallback listening.2 since Hk1) as [Hk2 [Hp|Hp]]; [by fold listed in Hp; rewrite Hp in H1|].
  destruct (faithful_run fallback listed.2 later Hk2) as [_ [Hq|Hq]]; [by fold now in Hq; rewrite Hq in H2|].
  fold listed in Hp, Hq. fold now in Hq. rewrite <- Hp. unfold follow in *.
  rewrite foldl_app, <- Hq, <- Hp. f_equal. apply follow_again.
Qed.

(** The state that is shown of TrackAudio is its state, on every run: connected
    or not, voice or not, transmitting, receiving or idle; or it is an error. *)
Theorem shown_state_is_honest {HO : HashOrder} fallback ops :
  forallb (λ op, negb (drops op)) ops = true ->
  let (outputs, r) := radio_run fallback fresh_radio ops in
  honest (shown_after Disconnected outputs) (ta_state r).
Proof.
  assert (forall r shown, forallb (λ op, negb (drops op)) ops = true -> honest shown (ta_state r) ->
    honest (shown_after shown (radio_run fallback r ops).1) (ta_state (radio_run fallback r ops).2)) as H.
  { induction ops as [|op ops IH]; intros r shown Hd Hs; [done|]. cbn in Hd |- *.
    apply andb_true_iff in Hd as [Hd1 Hd2]. apply negb_true_iff in Hd1.
    pose proof (honest_step fallback shown r op Hd1 Hs) as H1.
    destruct (radio_step fallback r op) as [o1 r1]. specialize (IH r1 _ Hd2 H1).
    destruct (radio_run fallback r1 ops) as [o2 r2]. cbn in *. by rewrite shown_app. }
  intros Hd. specialize (H fresh_radio Disconnected Hd). destruct (radio_run _ _ _). apply H. by left.
Qed.

(** TrackAudio is told to transmit and to stop in turns, whatever the keys, the
    connection and the failures: a key that is held is not sent again, a release
    is not sent twice, and what was told last since the connection was cleared is
    what the latch says. *)
Theorem presses_alternate {HO : HashOrder} fallback ops :
  let l := told_since fallback [] fresh_radio ops in
  alternates false l /\
  ptt_active (ta_state (radio_run fallback fresh_radio ops).2) = default false (last l).
Proof. by apply told_since_alternates. Qed.

(** One recorder at most follows the radio: those that were started and not
    shut down are the one in place, if there is one. *)
Theorem one_recorder {HO : HashOrder} fallback ops :
  let (outputs, r) := radio_run fallback fresh_radio ops in
  foldl recording [] outputs = option_list (ta_recorder r).
Proof.
  assert (forall r, foldl recording (option_list (ta_recorder r)) (radio_run fallback r ops).1 =
    option_list (ta_recorder (radio_run fallback r ops).2)) as H.
  { induction ops as [|op ops IH]; intros r; [done|]. cbn.
    pose proof (recording_step fallback r op) as H1. destruct (radio_step fallback r op) as [o1 r1].
    specialize (IH r1). destruct (radio_run fallback r1 ops) as [o2 r2]. cbn in *.
    by rewrite foldl_app, H1. }
  specialize (H fresh_radio). by destruct (radio_run _ _ _).
Qed.

(** The recorder for other radio clients is tried until it starts or cannot be
    supported, never waiting longer than thirty seconds, but for sixty-six times
    only: if all of these fail, the time to wait no longer fits a duration, and
    the task panics. *)
Theorem recorder_tries outcomes :
  let (waits, state) := PushToTalkRadio.recorder_task 0 outcomes in
  (forall w, w ∈ waits -> (w <= 30000000000)%N) /\
  match state with
  | TaskEnded => exists l a l', outcomes = l ++ a :: l' /\ Forall failed l /\
      (a = Started \/ a = Unsupported) /\ length l < 66
  | TaskPanicked => exists l l', outcomes = l ++ l' /\ Forall failed l /\ 66 <= length l
  | TaskWaiting n => Forall failed outcomes /\ n = length outcomes /\ n < 66
  end.
Proof.
  pose proof (recorder_task_from 0 outcomes) as H.
  by destruct (PushToTalkRadio.recorder_task 0 outcomes).
Qed.

(** The other clients' key: whatever radio has a latch, its presses alternate. *)
Corollary key_presses_alternate (l : list (Result () string * TransmissionState)) :
  Forall (λ x, x.1 = Ok ()) l ->
  alternates false (omap told (@transmissions PushToTalkRadio PushToTalkRadio_Radio PushToTalkRadio.new.2 l).1).
Proof. intros Hl. by apply (@transmissions_alternate PushToTalkRadio _ PushToTalk_latched l PushToTalkRadio.new.2). Qed.

(** ** A concrete radio *)

Section witnesses.
#[local] Existing Instance listed_order.

Let tower : StationState :=
  mkStationState (Some "LOWW_TWR"%string) (Some 119400000%N) (Some true) None None None None None true.
Let muted_tower : StationState :=
  mkStationState None (Some 119400000%N) (Some false) None None None None None true.
Let quiet : Answers := mkAnswers (Ok []) (Ok true) (Some 1%N).
Let connects : list RadioOp := [OnEvent quiet (ConnectionStateChanged CS_Connected);
  OnEvent quiet (StationStateUpdated tower)].
Let heard : list RadioOp := [OnEvent quiet (RxBegin 119400000%N)].
Let since : list RadioOp := [OnEvent quiet (StationAdded "LOWW_APP" 134675000%N); OnEvent quiet TxBegin].

Lemma page_shows_stations_witness :
  let listening := radio_run 0%N fresh_radio (connects ++ heard) in
  let listed := radio_run 0%N listening.2 since in
  let now := radio_run 0%N listed.2 [OnEvent quiet (FrequencyRemoved 134675000%N)] in
  follow (stations (ta_state listed.2)) (listed.1 ++ now.1) = stations (ta_state now.2) /\
  size (stations (ta_state now.2)) = 1.
Proof.
  intros listening listed now. split; [|by vm_compute].
  apply (page_shows_stations 0%N (connects ++ heard) since [OnEvent quiet (FrequencyRemoved 134675000%N)]).
  by vm_compute.
Defined.

Lemma shown_state_is_honest_witness :
  let (outputs, r) := radio_run 0%N fresh_radio
    (connects ++ heard ++ [OnEvent quiet (StationStateUpdated muted_tower)]) in
  honest (shown_after Disconnected outputs) (ta_state r).
Proof.
  apply (shown_state_is_honest 0%N (connects ++ heard ++ [OnEvent quiet (StationStateUpdated muted_tower)])).
  reflexivity.
Defined.
End witnesses.
