(* ===== verification/Audio.v ===== *)
(** Audio: the sounds of the desktop client, [vacs-audio/src/mixer.rs],
    [vacs-audio/src/stream/playback.rs], [vacs-client/src/audio/manager.rs],
    [audio/source_type.rs] and the commands of the input level meter
    ([audio/commands.rs]).

    A source of audio is anything with the operations of the trait [AudioSource];
    the tones, the decoding of files and the devices are arguments. Samples and
    volumes are of any type. *)
From stdpp Require Import prelude gmap strings list.
From Stdlib Require Import NArith.
From S2P Require Import Prelude.

Definition AudioSourceId := N.
Definition Duration := N.

(** The trait [AudioSource]; [mix_into] adds to the samples it is given. *)
Class AudioSource (S Volume Sample : Type) := {
  equilibrium : Sample;
  clamp : Sample -> Sample;
  mix_into : S -> list Sample -> S * list Sample;
  src_start : S -> S;
  src_stop : S -> S;
  src_restart : S -> S;
  src_set_volume : Volume -> S -> S;
  src_skip : Duration -> S -> S;
  src_rewind : Duration -> S -> S
}.

(** What the control side asks of the mixer; the queue holds it until the next
    callback of the device. *)
Inductive MixerOp (S Volume : Type) :=
| AddSource (id : AudioSourceId) (source : S)
| RemoveSource (id : AudioSourceId)
| StartSource (id : AudioSourceId)
| StopSource (id : AudioSourceId)
| RestartSource (id : AudioSourceId)
| SetVolume (id : AudioSourceId) (volume : Volume)
| SkipIn (id : AudioSourceId) (duration : Duration)
| RewindIn (id : AudioSourceId) (duration : Duration).
Arguments AddSource {S Volume} id source.
Arguments RemoveSource {S Volume} id.
Arguments StartSource {S Volume} id.
Arguments StopSource {S Volume} id.
Arguments RestartSource {S Volume} id.
Arguments SetVolume {S Volume} id volume.
Arguments SkipIn {S Volume} id duration.
Arguments RewindIn {S Volume} id duration.

(** ** The mixer *)

Module Mixer.
Section mixer.
Context {S Volume Sample : Type} `{AudioSource S Volume Sample} {HO : HashOrder}.
Abbreviation Mixer := (gmap AudioSourceId S).

Definition mix (m : Mixer) (samples : nat) : list Sample * Mixer :=
  let (output, m') :=
    foldl (λ acc kv, let (source, output) := mix_into kv.2 acc.1 in (output, <[kv.1 := source]> acc.2))
      (replicate samples equilibrium, m) (map_iter m) in
  (map clamp output, m').

Definition add_source (m : Mixer) (id : AudioSourceId) (source : S) : Mixer := <[id := source]> m.
Definition remove_source (m : Mixer) (id : AudioSourceId) : Mixer := delete id m.
Definition start_source (m : Mixer) (id : AudioSourceId) : Mixer := alter src_start id m.
Definition stop_source (m : Mixer) (id : AudioSourceId) : Mixer := alter src_stop id m.
Definition restart_source (m : Mixer) (id : AudioSourceId) : Mixer := alter src_restart id m.
Definition set_source_volume (m : Mixer) (id : AudioSourceId) (volume : Volume) : Mixer :=
  alter (src_set_volume volume) id m.
Definition skip_in_source (m : Mixer) (id : AudioSourceId) (duration : Duration) : Mixer :=
  alter (src_skip duration) id m.
Definition rewind_in_source (m : Mixer) (id : AudioSourceId) (duration : Duration) : Mixer :=
  alter (src_rewind duration) id m.

Definition apply (m : Mixer) (op : MixerOp S Volume) : Mixer :=
  match op with
  | AddSource id source => add_source m id source
  | RemoveSource id => remove_source m id
  | StartSource id => start_source m id
  | StopSource id => stop_source m id
  | RestartSource id => restart_source m id
  | SetVolume id volume => set_source_volume m id volume
  | SkipIn id duration => skip_in_source m id duration
  | RewindIn id duration => rewind_in_source m id duration
  end.
End mixer.
End Mixer.

(** ** A stream to a playback device *)

(** [sp_lost] counts the operations that found the queue full, which the source
    logs. Sources that were taken away are freed by the control side; that is not
    modelled. *)
Record PlaybackStream (S Volume : Type) := mkPlaybackStream {
  sp_mixer : gmap AudioSourceId S;
  sp_ops : list (MixerOp S Volume);
  sp_lost : N;
  sp_sample_rate : N;
  sp_channels : N
}.
Arguments mkPlaybackStream {S Volume}.
Arguments sp_mixer {S Volume}.
Arguments sp_ops {S Volume}.
Arguments sp_lost {S Volume}.
Arguments sp_sample_rate {S Volume}.
Arguments sp_channels {S Volume}.

Definition MIXER_OPS_CAPACITY : nat := 256.
Definition MIXER_OPS_PER_DATA_CALLBACK : nat := 32.

Module PlaybackStream.
Section stream.
Context {S Volume Sample : Type} `{AudioSource S Volume Sample} {HO : HashOrder}.
Abbreviation Stream := (PlaybackStream S Volume).

(** The device, with its sample rate and channels, was opened. *)
Definition start (device : N * N) : Stream := mkPlaybackStream ∅ [] 0 device.1 device.2.

Definition push (st : Stream) (op : MixerOp S Volume) : Stream :=
  if (length (sp_ops st) <? MIXER_OPS_CAPACITY)%nat
  then mkPlaybackStream (sp_mixer st) (sp_ops st ++ [op]) (sp_lost st) (sp_sample_rate st) (sp_channels st)
  else mkPlaybackStream (sp_mixer st) (sp_ops st) (sp_lost st + 1) (sp_sample_rate st) (sp_channels st).

(** What the device's callback does with the queue before it mixes *)
Definition drain (st : Stream) : Stream :=
  mkPlaybackStream
    (foldl Mixer.apply (sp_mixer st) (take MIXER_OPS_PER_DATA_CALLBACK (sp_ops st)))
    (drop MIXER_OPS_PER_DATA_CALLBACK (sp_ops st)) (sp_lost st) (sp_sample_rate st) (sp_channels st).

Definition data_callback (st : Stream) (samples : nat) : list Sample * Stream :=
  let st := drain st in
  let (output, m) := Mixer.mix (sp_mixer st) samples in
  (output, mkPlaybackStream m (sp_ops st) (sp_lost st) (sp_sample_rate st) (sp_channels st)).

(** The counter of the sources is one for all streams of the process. *)
Definition add_audio_source (next : AudioSourceId) (st : Stream) (source : S) :
    AudioSourceId * AudioSourceId * Stream :=
  (next, (next + 1)%N, push st (AddSource next source)).

Definition remove_audio_source (st : Stream) (id : AudioSourceId) : Stream := push st (RemoveSource id).
Definition start_audio_source (st : Stream) (id : AudioSourceId) : Stream := push st (StartSource id).
Definition stop_audio_source (st : Stream) (id : AudioSourceId) : Stream := push st (StopSource id).
Definition restart_audio_source (st : Stream) (id : AudioSourceId) : Stream := push st (RestartSource id).
Definition set_volume (st : Stream) (id : AudioSourceId) (volume : Volume) : Stream :=
  push st (SetVolume id volume).
Definition skip_in_audio_source (st : Stream) (id : AudioSourceId) (d : Duration) : Stream :=
  push st (SkipIn id d).
Definition rewind_in_audio_source (st : Stream) (id : AudioSourceId) (d : Duration) : Stream :=
  push st (RewindIn id d).
End stream.
End PlaybackStream.

(** ** The sounds of the client *)

Inductive SourceType :=
| Ring | PriorityRing | RingOneshot | PriorityRingOneshot | Ringback | RingbackOneshot | Click
| CallStart | CallEnd | ParticipantJoined | ParticipantLeft.

#[export] Instance SourceType_eq_dec : EqDecision SourceType.
Proof. solve_decision. Defined.
#[export] Instance SourceType_countable : Countable SourceType.
Proof.
  refine (inj_countable' (λ t, match t with Ring => 0 | PriorityRing => 1 | RingOneshot => 2
    | PriorityRingOneshot => 3 | Ringback => 4 | RingbackOneshot => 5 | Click => 6 | CallStart => 7
    | CallEnd => 8 | ParticipantJoined => 9 | ParticipantLeft => 10 end)
    (λ n, match n with 0 => Ring | 1 => PriorityRing | 2 => RingOneshot | 3 => PriorityRingOneshot
    | 4 => Ringback | 5 => RingbackOneshot | 6 => Click | 7 => CallStart | 8 => CallEnd
    | 9 => ParticipantJoined | _ => ParticipantLeft end) _).
  by intros [].
Defined.

Inductive RingSoundType := RST_Ring | RST_PriorityRing.

#[export] Instance RingSoundType_eq_dec : EqDecision RingSoundType.
Proof. solve_decision. Defined.
#[export] Instance RingSoundType_countable : Countable RingSoundType.
Proof.
  refine (inj_countable' (λ t, match t with RST_Ring => true | RST_PriorityRing => false end)
    (λ b : bool, if b then RST_Ring else RST_PriorityRing) _).
  by intros [].
Defined.

Definition oneshot_source_type (t : RingSoundType) : SourceType :=
  match t with RST_Ring => RingOneshot | RST_PriorityRing => PriorityRingOneshot end.

(** [SourceType::from] *)
Definition source_type_from (t : RingSoundType) : SourceType :=
  match t with RST_Ring => Ring | RST_PriorityRing => PriorityRing end.

Inductive PlaybackDeviceType := Output | Speaker.

#[export] Instance PlaybackDeviceType_eq_dec : EqDecision PlaybackDeviceType.
Proof. solve_decision. Defined.

(** The settings the manager reads; [ring_sound_loop_pause_seconds] is [None] also
    when the number in the file is no duration. *)
Record AudioConfig (Volume : Type) := mkAudioConfig {
  speaker_enabled : bool;
  input_device_volume : Volume;
  output_device_volume : Volume;
  click_volume : Volume;
  chime_volume : Volume;
  ring_sound_looped : bool;
  priority_ring_sound_looped : bool;
  ring_sound_loop_pause_seconds : option Duration
}.
Arguments mkAudioConfig {Volume}.
Arguments speaker_enabled {Volume}.
Arguments input_device_volume {Volume}.
Arguments output_device_volume {Volume}.
Arguments click_volume {Volume}.
Arguments chime_volume {Volume}.
Arguments ring_sound_looped {Volume}.
Arguments priority_ring_sound_looped {Volume}.
Arguments ring_sound_loop_pause_seconds {Volume}.

(** [DEFAULT_RING_SOUND_LOOP_PAUSE] in nanoseconds *)
Definition DEFAULT_RING_SOUND_LOOP_PAUSE : Duration := 3000000000%N.

Module AudioConfig.
Section config.
Context {Volume : Type}.

Definition ring_sound_loop (c : AudioConfig Volume) (t : RingSoundType) : bool :=
  match t with RST_Ring => ring_sound_looped c | RST_PriorityRing => priority_ring_sound_looped c end.

Definition ring_sound_loop_pause (c : AudioConfig Volume) (t : RingSoundType) : option Duration :=
  if ring_sound_loop c t
  then Some (default DEFAULT_RING_SOUND_LOOP_PAUSE (ring_sound_loop_pause_seconds c)) else None.
End config.
End AudioConfig.

(** The built-in tones and the decoded files *)
Class Sounds (S Volume Clip : Type) := {
  waveform : SourceType -> N -> N -> Volume -> S;
  wav_source : Clip -> option Duration -> N -> N -> Volume -> Result S string
}.

Section sources.
Context {S Volume Clip : Type} `{Sounds S Volume Clip}.

(** The preview of the ringback is built for two channels, whatever the device has. *)
Definition into_waveform_source (t : SourceType) (sample_rate channels : N) (volume : Volume) : S :=
  match t with
  | RingOneshot => waveform Ring sample_rate channels volume
  | PriorityRingOneshot => waveform PriorityRing sample_rate channels volume
  | RingbackOneshot => waveform RingbackOneshot sample_rate 2 volume
  | t => waveform t sample_rate channels volume
  end.

Definition into_ring_source (t : SourceType) (clip : option Clip) (loop_pause : option Duration)
    (sample_rate channels : N) (volume : Volume) : Result S string :=
  match clip with
  | Some clip => wav_source clip loop_pause sample_rate channels volume
  | None => Ok (into_waveform_source t sample_rate channels volume)
  end.
End sources.

(** ** The input *)

(** [receivers]: who listens to the frames of a capture for a call;
    [capture_volume]: the volume it was last asked for, which it bounds by one *)
Record CaptureStream (Volume : Type) := mkCaptureStream {
  is_level_meter : bool;
  receivers : N;
  muted : bool;
  capture_volume : Volume
}.
Arguments mkCaptureStream {Volume}.
Arguments is_level_meter {Volume}.
Arguments receivers {Volume}.
Arguments muted {Volume}.
Arguments capture_volume {Volume}.

Record AudioManager (S Volume Clip : Type) := mkAudioManager {
  output : PlaybackStream S Volume;
  speaker : option (PlaybackStream S Volume);
  input : option (CaptureStream Volume);
  output_source_ids : gmap SourceType AudioSourceId;
  speaker_source_ids : gmap SourceType AudioSourceId;
  call_output_source_ids : gset AudioSourceId;
  level_meter_users : N;
  ring_clips : gmap RingSoundType Clip;
  next_source_id : AudioSourceId
}.
Arguments mkAudioManager {S Volume Clip}.
Arguments output {S Volume Clip}.
Arguments speaker {S Volume Clip}.
Arguments input {S Volume Clip}.
Arguments output_source_ids {S Volume Clip}.
Arguments speaker_source_ids {S Volume Clip}.
Arguments call_output_source_ids {S Volume Clip}.
Arguments level_meter_users {S Volume Clip}.
Arguments ring_clips {S Volume Clip}.
Arguments next_source_id {S Volume Clip}.

Module AudioManager.
Section manager.
Context {S Volume Sample Clip : Type} `{AudioSource S Volume Sample} `{Sounds S Volume Clip}.
Context {HO : HashOrder}.
Abbreviation Manager := (AudioManager S Volume Clip).
Abbreviation Stream := (PlaybackStream S Volume).
Abbreviation Config := (AudioConfig Volume).

Definition with_output (m : Manager) (st : Stream) : Manager :=
  mkAudioManager st (speaker m) (input m) (output_source_ids m) (speaker_source_ids m)
    (call_output_source_ids m) (level_meter_users m) (ring_clips m) (next_source_id m).
Definition with_speaker (m : Manager) (st : option Stream) : Manager :=
  mkAudioManager (output m) st (input m) (output_source_ids m) (speaker_source_ids m)
    (call_output_source_ids m) (level_meter_users m) (ring_clips m) (next_source_id m).
Definition with_input (m : Manager) (i : option (CaptureStream Volume)) (users : N) : Manager :=
  mkAudioManager (output m) (speaker m) i (output_source_ids m) (speaker_source_ids m)
    (call_output_source_ids m) users (ring_clips m) (next_source_id m).
Definition with_output_ids (m : Manager) (ids : gmap SourceType AudioSourceId) : Manager :=
  mkAudioManager (output m) (speaker m) (input m) ids (speaker_source_ids m)
    (call_output_source_ids m) (level_meter_users m) (ring_clips m) (next_source_id m).
Definition with_speaker_ids (m : Manager) (ids : gmap SourceType AudioSourceId) : Manager :=
  mkAudioManager (output m) (speaker m) (input m) (output_source_ids m) ids
    (call_output_source_ids m) (level_meter_users m) (ring_clips m) (next_source_id m).
Definition with_call_ids (m : Manager) (ids : gset AudioSourceId) : Manager :=
  mkAudioManager (output m) (speaker m) (input m) (output_source_ids m) (speaker_source_ids m)
    ids (level_meter_users m) (ring_clips m) (next_source_id m).
Definition with_clips (m : Manager) (clips : gmap RingSoundType Clip) : Manager :=
  mkAudioManager (output m) (speaker m) (input m) (output_source_ids m) (speaker_source_ids m)
    (call_output_source_ids m) (level_meter_users m) clips (next_source_id m).
Definition with_next (m : Manager) (next : AudioSourceId) : Manager :=
  mkAudioManager (output m) (speaker m) (input m) (output_source_ids m) (speaker_source_ids m)
    (call_output_source_ids m) (level_meter_users m) (ring_clips m) next.

(** *** Streams *)

(** A ring whose file cannot be prepared falls back to the built-in chime. *)
Definition ring_source_or_chime (config : Config) (clips : gmap RingSoundType Clip) (t : RingSoundType)
    (source_type : SourceType) (loop_pause : option Duration) (device : N * N) : S :=
  match into_ring_source source_type (clips !! t) loop_pause device.1 device.2 (chime_volume config) with
  | Ok source => source
  | Err _ => into_waveform_source source_type device.1 device.2 (chime_volume config)
  end.

(** The sources of a new stream, in the order in which they are added *)
Definition stream_sources (config : Config) (clips : gmap RingSoundType Clip)
    (device_type : PlaybackDeviceType) (device : N * N) : list (SourceType * S) :=
  let ring t :=
    [(source_type_from t, ring_source_or_chime config clips t (source_type_from t)
        (AudioConfig.ring_sound_loop_pause config t) device);
     (oneshot_source_type t, ring_source_or_chime config clips t (oneshot_source_type t) None device)] in
  let tone t volume := (t, into_waveform_source t device.1 device.2 volume) in
  ring RST_Ring ++ ring RST_PriorityRing ++ [tone Click (click_volume config)] ++
    match device_type with
    | Output => map (λ t, tone t (output_device_volume config))
        [Ringback; RingbackOneshot; CallStart; CallEnd; ParticipantJoined; ParticipantLeft]
    | Speaker => []
    end.

Definition add_named (acc : AudioSourceId * Stream * gmap SourceType AudioSourceId)
    (named : SourceType * S) : AudioSourceId * Stream * gmap SourceType AudioSourceId :=
  let '(next, st, ids) := acc in
  let '(id, next, st) := PlaybackStream.add_audio_source next st named.2 in
  (next, st, <[named.1 := id]> ids).

(** [opened] is the device that was found and started, or why there is none. *)
Definition create_playback_stream (next : AudioSourceId) (config : Config)
    (clips : gmap RingSoundType Clip) (device_type : PlaybackDeviceType)
    (opened : Result (N * N) string) :
    Result (AudioSourceId * Stream * gmap SourceType AudioSourceId) string :=
  match opened with
  | Err err => Err err
  | Ok device =>
    Ok (foldl add_named (next, PlaybackStream.start device, ∅)
          (stream_sources config clips device_type device))
  end.

(** The clips are those of the configured files that could be loaded. *)
Definition new (next : AudioSourceId) (config : Config) (clips : gmap RingSoundType Clip)
    (output_opened speaker_opened : Result (N * N) string) : Result Manager string :=
  match create_playback_stream next config clips Output output_opened with
  | Err err => Err err
  | Ok (next, out, out_ids) =>
    if speaker_enabled config then
      match create_playback_stream next config clips Speaker speaker_opened with
      | Err err => Err err
      | Ok (next, spk, spk_ids) =>
        Ok (mkAudioManager out (Some spk) None out_ids spk_ids ∅ 0 clips next)
      end
    else Ok (mkAudioManager out None None out_ids ∅ ∅ 0 clips next)
  end.

Definition switch_playback_device (m : Manager) (config : Config) (device_type : PlaybackDeviceType)
    (opened : Result (N * N) string) : Result () string * Manager :=
  if bool_decide (device_type = Speaker) && negb (speaker_enabled config)
  then (Ok (), with_speaker_ids (with_speaker m None) ∅)
  else
    match create_playback_stream (next_source_id m) config (ring_clips m) device_type opened with
    | Err err => (Err err, m)
    | Ok (next, st, ids) =>
      let m := with_next m next in
      (Ok (), match device_type with
              | Output => with_output_ids (with_output m st) ids
              | Speaker => with_speaker_ids (with_speaker m (Some st)) ids
              end)
    end.

(** *** The input *)

(** [opened]: the capture stream could be started. A call listens from now on. *)
Definition attach_input_device (m : Manager) (config : Config) (mute : bool)
    (opened : Result () string) : Result () string * Manager :=
  let open (m : Manager) :=
    match opened with
    | Err err => (Err err, m)
    | Ok _ =>
      (Ok (), with_input m (Some (mkCaptureStream false 1 mute (input_device_volume config)))
                (level_meter_users m))
    end in
  match input m with
  | Some i =>
    if negb (is_level_meter i)
    then (Ok (), with_input m (Some (mkCaptureStream false (receivers i + 1) mute (capture_volume i)))
                   (level_meter_users m))
    else open (with_input m None 0)
  | None => open m
  end.

Definition attach_input_level_meter (m : Manager) (config : Config) (opened : Result () string) :
    Result () string * Manager :=
  if (match input m with
      | Some i => negb (is_level_meter i) && (0 <? receivers i)%N
      | None => false
      end)
  then (Ok (), m)
  else
    match opened with
    | Err err => (Err err, m)
    | Ok _ => (Ok (), with_input m (Some (mkCaptureStream true 0 false (input_device_volume config)))
                        (level_meter_users m))
    end.

Definition is_input_device_attached (m : Manager) : bool := bool_decide (is_Some (input m)).

Definition is_input_level_meter_attached (m : Manager) : bool :=
  match input m with Some i => is_level_meter i | None => false end.

Definition add_level_meter_user (m : Manager) : Manager :=
  with_input m (input m) (level_meter_users m + 1).

Definition remove_level_meter_user (m : Manager) : N * Manager :=
  let users := (level_meter_users m - 1)%N in (users, with_input m (input m) users).

Definition detach_input_device (m : Manager) : Manager :=
  match input m with
  | Some i => if (receivers i =? 0)%N then with_input m None 0 else m
  | None => m
  end.

Definition discard_input_device (m : Manager) : Manager :=
  match input m with
  | Some i => if negb (is_level_meter i) then with_input m None 0 else m
  | None => m
  end.

(** A call stops listening. *)
Definition receiver_dropped (m : Manager) : Manager :=
  match input m with
  | Some i => with_input m (Some (mkCaptureStream (is_level_meter i) (receivers i - 1) (muted i)
                                    (capture_volume i))) (level_meter_users m)
  | None => m
  end.

Definition set_input_volume (m : Manager) (volume : Volume) : Manager :=
  match input m with
  | Some i => with_input m (Some (mkCaptureStream (is_level_meter i) (receivers i) (muted i) volume))
                (level_meter_users m)
  | None => m
  end.

Definition set_input_muted (m : Manager) (mute : bool) : Manager :=
  match input m with
  | Some i => with_input m (Some (mkCaptureStream (is_level_meter i) (receivers i) mute (capture_volume i)))
                (level_meter_users m)
  | None => m
  end.

(** *** The sounds *)

(** Where a sound plays: on the speaker if it has the sound, else on the output *)
Definition playing_on (m : Manager) (t : SourceType) : option (PlaybackDeviceType * AudioSourceId) :=
  match speaker m, speaker_source_ids m !! t with
  | Some _, Some id => Some (Speaker, id)
  | _, _ => (λ id, (Output, id)) <$> output_source_ids m !! t
  end.

Definition on_stream (m : Manager) (d : PlaybackDeviceType) (f : Stream -> Stream) : Manager :=
  match d with
  | Output => with_output m (f (output m))
  | Speaker => with_speaker m (f <$> speaker m)
  end.

Definition playing (m : Manager) (t : SourceType) (f : Stream -> AudioSourceId -> Stream) : Manager :=
  match playing_on m t with
  | Some (d, id) => on_stream m d (λ st, f st id)
  | None => m
  end.

Definition start (m : Manager) (t : SourceType) : Manager := playing m t PlaybackStream.start_audio_source.
Definition restart (m : Manager) (t : SourceType) : Manager := playing m t PlaybackStream.restart_audio_source.
Definition stop (m : Manager) (t : SourceType) : Manager := playing m t PlaybackStream.stop_audio_source.

(** The volume is set on both streams; some sounds are heard at once. *)
Definition set_output_volume (m : Manager) (t : SourceType) (volume : Volume) : Manager :=
  let m :=
    match output_source_ids m !! t with
    | Some id =>
      let st := PlaybackStream.set_volume (output m) id volume in
      with_output m
        (match t, speaker m with
         | RingbackOneshot, _ => PlaybackStream.restart_audio_source st id
         | (RingOneshot | Click), None => PlaybackStream.restart_audio_source st id
         | _, _ => st
         end)
    | None => m
    end in
  match speaker m, speaker_source_ids m !! t with
  | Some st, Some id =>
    let st := PlaybackStream.set_volume st id volume in
    with_speaker m (Some (match t with
                          | RingOneshot | Click => PlaybackStream.restart_audio_source st id
                          | _ => st
                          end))
  | _, _ => m
  end.

Definition set_call_output_volumes (m : Manager) (volume : Volume) : Manager :=
  with_output m (foldl (λ st id, PlaybackStream.set_volume st id volume) (output m)
                   (set_iter (call_output_source_ids m))).

(** *** Calls *)

(** [source]: the source of a peer's frames, or why there is none *)
Definition attach_call_output (m : Manager) (source : Result S string) :
    Result AudioSourceId string * Manager :=
  match source with
  | Err err => (Err err, m)
  | Ok source =>
    let '(id, next, st) := PlaybackStream.add_audio_source (next_source_id m) (output m) source in
    (Ok id, with_call_ids (with_output (with_next m next) st) ({[id]} ∪ call_output_source_ids m))
  end.

Definition detach_call_output (m : Manager) (id : AudioSourceId) : Manager :=
  with_call_ids (with_output m (PlaybackStream.remove_audio_source (output m) id))
    (call_output_source_ids m ∖ {[id]}).

Definition detach_all_call_outputs (m : Manager) : Manager :=
  with_call_ids
    (with_output m (foldl PlaybackStream.remove_audio_source (output m)
                      (set_iter (call_output_source_ids m)))) ∅.

(** *** Ring sounds *)

(** Every source is prepared before any stream is touched. *)
Fixpoint ring_replacements (m : Manager) (clip : option Clip)
    (sources : list (SourceType * option Duration)) (volume : Volume) :
    Result (list (SourceType * S * option S)) string :=
  match sources with
  | [] => Ok []
  | (t, loop_pause) :: sources =>
    match into_ring_source t clip loop_pause (sp_sample_rate (output m)) (sp_channels (output m)) volume with
    | Err err => Err err
    | Ok output_source =>
      match match speaker m with
            | Some st =>
              match into_ring_source t clip loop_pause (sp_sample_rate st) (sp_channels st) volume with
              | Ok source => Ok (Some source)
              | Err err => Err err
              end
            | None => Ok None
            end with
      | Err err => Err err
      | Ok speaker_source =>
        match ring_replacements m clip sources volume with
        | Ok l => Ok ((t, output_source, speaker_source) :: l)
        | Err err => Err err
        end
      end
    end
  end.

Definition replace_in (next : AudioSourceId) (st : Stream) (ids : gmap SourceType AudioSourceId)
    (t : SourceType) (source : S) : AudioSourceId * Stream * gmap SourceType AudioSourceId :=
  let st := match ids !! t with
            | Some previous => PlaybackStream.remove_audio_source st previous
            | None => st
            end in
  let '(id, next, st) := PlaybackStream.add_audio_source next st source in
  (next, st, <[t := id]> ids).

Definition replace_ring_source (m : Manager) (replacement : SourceType * S * option S) : Manager :=
  let '(t, output_source, speaker_source) := replacement in
  let '(next, st, ids) :=
    replace_in (next_source_id m) (output m) (output_source_ids m) t output_source in
  let m := with_output_ids (with_output (with_next m next) st) ids in
  match speaker m, speaker_source with
  | Some spk, Some source =>
    let '(next, st, ids) := replace_in (next_source_id m) spk (speaker_source_ids m) t source in
    with_speaker_ids (with_speaker (with_next m next) (Some st)) ids
  | _, _ => m
  end.

Definition replace_ring_sources (m : Manager) (clip : option Clip)
    (sources : list (SourceType * option Duration)) (volume : Volume) : Result () string * Manager :=
  match ring_replacements m clip sources volume with
  | Err err => (Err err, m)
  | Ok l => (Ok (), foldl replace_ring_source m l)
  end.

Definition set_ring_sound (m : Manager) (t : RingSoundType) (clip : option Clip)
    (loop_pause : option Duration) (volume : Volume) : Result () string * Manager :=
  let (r, m) :=
    replace_ring_sources m clip [(source_type_from t, loop_pause); (oneshot_source_type t, None)] volume in
  match r with
  | Err err => (Err err, m)
  | Ok _ => (Ok (), with_clips m (partial_alter (λ _, clip) t (ring_clips m)))
  end.

Definition set_ring_sound_loop (m : Manager) (t : RingSoundType) (loop_pause : option Duration)
    (volume : Volume) : Result () string * Manager :=
  match ring_clips m !! t with
  | None => (Ok (), m)
  | Some clip => replace_ring_sources m (Some clip) [(source_type_from t, loop_pause)] volume
  end.

(** *** Sources of others (the playback of recorded clips) *)

Definition get_stream_for_playback (m : Manager) (d : PlaybackDeviceType) : PlaybackDeviceType :=
  match d, speaker m with Speaker, Some _ => Speaker | _, _ => Output end.

Definition stream_on (m : Manager) (d : PlaybackDeviceType) : Stream :=
  match get_stream_for_playback m d, speaker m with Speaker, Some st => st | _, _ => output m end.

Definition add_audio_source (m : Manager) (source_fn : N -> N -> Result S string)
    (d : PlaybackDeviceType) : Result (AudioSourceId * PlaybackDeviceType) string * Manager :=
  let actual := get_stream_for_playback m d in
  let st := stream_on m d in
  match source_fn (sp_sample_rate st) (sp_channels st) with
  | Err err => (Err err, m)
  | Ok source =>
    let '(id, next, st) := PlaybackStream.add_audio_source (next_source_id m) st source in
    (Ok (id, actual), on_stream (with_next m next) actual (λ _, st))
  end.

Definition start_audio_source (m : Manager) (id : AudioSourceId) (d : PlaybackDeviceType) : Manager :=
  on_stream m (get_stream_for_playback m d) (λ st, PlaybackStream.start_audio_source st id).
Definition stop_audio_source (m : Manager) (id : AudioSourceId) (d : PlaybackDeviceType) : Manager :=
  on_stream m (get_stream_for_playback m d) (λ st, PlaybackStream.stop_audio_source st id).
Definition remove_audio_source (m : Manager) (id : AudioSourceId) (d : PlaybackDeviceType) : Manager :=
  on_stream m (get_stream_for_playback m d) (λ st, PlaybackStream.remove_audio_source st id).
Definition skip_in_audio_source (m : Manager) (id : AudioSourceId) (duration : Duration)
    (d : PlaybackDeviceType) : Manager :=
  on_stream m (get_stream_for_playback m d) (λ st, PlaybackStream.skip_in_audio_source st id duration).
Definition rewind_in_audio_source (m : Manager) (id : AudioSourceId) (duration : Duration)
    (d : PlaybackDeviceType) : Manager :=
  on_stream m (get_stream_for_playback m d) (λ st, PlaybackStream.rewind_in_audio_source st id duration).

(** *** What leaves the manager besides its answers *)

Inductive AudioEffect :=
| ForceCallEnd (call_id : string)
| GiveUp (device : PlaybackDeviceType)
| MeterGivenUp
| EmitStopInputLevelMeter.

(** [handle_playback_stream_error], the first error of a stream: [changed] if the
    device was invalidated, [cooling] if the stream was itself a recent recovery. *)
Definition handle_playback_stream_error (app_ready changed cooling : bool) (call : option string)
    (config : Config) (device_type : PlaybackDeviceType) (opened : Result (N * N) string) (m : Manager) :
    list AudioEffect * Manager :=
  if negb app_ready then ([], m)
  else if cooling && negb changed then ([GiveUp device_type], m)
  else
    let ended := match device_type, call with Output, Some id => [ForceCallEnd id] | _, _ => [] end in
    let (r, m) := switch_playback_device m config device_type opened in
    (ended ++ match r with Ok _ => [] | Err _ => [GiveUp device_type] end, m).

(** The first error of a level meter's stream. In the cooldown a changed device is
    waited for before; [m] is the manager after that. *)
Definition handle_level_meter_error (changed cooling : bool) (config : Config)
    (opened : Result () string) (m : Manager) : list AudioEffect * Manager :=
  let abandon m := ([EmitStopInputLevelMeter; MeterGivenUp], detach_input_device m) in
  if cooling && negb changed then abandon m
  else
    let (r, m) := attach_input_level_meter m config opened in
    match r with Ok _ => ([], m) | Err _ => abandon m end.

(** The first error of a call's input stream *)
Definition handle_capture_error (call : option string) (m : Manager) : list AudioEffect * Manager :=
  (match call with Some id => [ForceCallEnd id] | None => [] end, discard_input_device m).

(** *** Commands of the user interface ([audio/commands.rs]) *)

(** The answer says whether the caller became a user of the meter. *)
Definition audio_start_input_level_meter (m : Manager) (config : Config) (opened : Result () string) :
    Result bool string * Manager :=
  if is_input_device_attached m then
    let user_added := is_input_level_meter_attached m in
    (Ok user_added, if user_added then add_level_meter_user m else m)
  else
    let (r, m) := attach_input_level_meter m config opened in
    match r with
    | Err err => (Err err, m)
    | Ok _ => (Ok true, add_level_meter_user m)
    end.

Definition audio_stop_input_level_meter (m : Manager) : list AudioEffect * Manager :=
  if is_input_level_meter_attached m then
    let (users, m) := remove_level_meter_user m in
    if (users =? 0)%N then ([EmitStopInputLevelMeter], detach_input_device m) else ([], m)
  else ([], m).

Inductive ClientAudioDeviceType := CAD_Input | CAD_Output | CAD_Speaker.

Definition with_speaker_enabled (c : Config) (b : bool) : Config :=
  mkAudioConfig b (input_device_volume c) (output_device_volume c) (click_volume c) (chime_volume c)
    (ring_sound_looped c) (priority_ring_sound_looped c) (ring_sound_loop_pause_seconds c).

(** [named]: a device was named, if only by the empty name of the default;
    [listed]: the devices could be listed for the answer. *)
Definition audio_set_device (m : Manager) (config : Config) (in_call : bool)
    (device_type : ClientAudioDeviceType) (named : bool) (opened : Result (N * N) string)
    (listed reopened : Result () string) : Result () string * Config * Manager :=
  if in_call then (Err "Cannot set audio device while call is active"%string, config, m)
  else
    let reattach := is_input_device_attached m && match device_type with CAD_Input => true | _ => false end in
    let m := if reattach then detach_input_device m else m in
    let '(r, config, m) :=
      match device_type with
      | CAD_Input => (Ok (), config, m)
      | CAD_Output =>
        let (r, m) := switch_playback_device m config Output opened in (r, config, m)
      | CAD_Speaker =>
        let config' := with_speaker_enabled config named in
        let (r, m) := switch_playback_device m config' Speaker opened in
        (r, match r with Ok _ => config' | Err _ => config end, m)
      end in
    match r, listed with
    | Ok _, Ok _ =>
      if reattach then let (r, m) := attach_input_level_meter m config reopened in (r, config, m)
      else (Ok (), config, m)
    | Err err, _ | Ok _, Err err => (Err err, config, m)
    end.

Inductive VolumeType := VT_Input | VT_Output | VT_Click | VT_Chime.

Definition set_volumes (m : Manager) (ts : list SourceType) (volume : Volume) : Manager :=
  foldl (λ m t, set_output_volume m t volume) m ts.

Definition audio_set_volume (m : Manager) (c : Config) (t : VolumeType) (volume : Volume) :
    Config * Manager :=
  match t with
  | VT_Input =>
    (mkAudioConfig (speaker_enabled c) volume (output_device_volume c) (click_volume c) (chime_volume c)
       (ring_sound_looped c) (priority_ring_sound_looped c) (ring_sound_loop_pause_seconds c),
     set_input_volume m volume)
  | VT_Output =>
    (mkAudioConfig (speaker_enabled c) (input_device_volume c) volume (click_volume c) (chime_volume c)
       (ring_sound_looped c) (priority_ring_sound_looped c) (ring_sound_loop_pause_seconds c),
     set_volumes (set_call_output_volumes m volume)
       [Ringback; RingbackOneshot; CallStart; CallEnd; ParticipantJoined; ParticipantLeft] volume)
  | VT_Click =>
    (mkAudioConfig (speaker_enabled c) (input_device_volume c) (output_device_volume c) volume (chime_volume c)
       (ring_sound_looped c) (priority_ring_sound_looped c) (ring_sound_loop_pause_seconds c),
     set_volumes m [Click] volume)
  | VT_Chime =>
    (mkAudioConfig (speaker_enabled c) (input_device_volume c) (output_device_volume c) (click_volume c) volume
       (ring_sound_looped c) (priority_ring_sound_looped c) (ring_sound_loop_pause_seconds c),
     set_volumes m [Ring; PriorityRing; RingOneshot; PriorityRingOneshot] volume)
  end.

(** The one-shot of the sound is heard at once. *)
Definition audio_set_ring_sound (m : Manager) (config : Config) (t : RingSoundType)
    (clip : option Clip) : Result () string * Manager :=
  let (r, m) := set_ring_sound m t clip (AudioConfig.ring_sound_loop_pause config t) (chime_volume config) in
  match r with
  | Err err => (Err err, m)
  | Ok _ => (Ok (), restart m (oneshot_source_type t))
  end.
End manager.
End AudioManager.
