(* ===== verification/AudioLogic.v ===== *)
(** AudioLogic: the invariant of the client's audio manager: every sound has a source
    on the stream it plays on, no identifier is used twice, and the input level
    meter has users only while it runs. *)
From stdpp Require Import prelude gmap strings list.
From Stdlib Require Import NArith.
From S2P Require Import Prelude Audio.

Section streams.
Context {S Volume Sample Clip : Type} `{AudioSource S Volume Sample} {HO : HashOrder}.
Abbreviation Stream := (PlaybackStream S Volume).

(** ** The sources of a stream once its queue is worked off *)

Definition settle (ids : gset AudioSourceId) (op : MixerOp S Volume) : gset AudioSourceId :=
  match op with
  | AddSource id _ => {[id]} ∪ ids
  | RemoveSource id => ids ∖ {[id]}
  | _ => ids
  end.

Definition settled (st : Stream) : gset AudioSourceId := foldl settle (dom (sp_mixer st)) (sp_ops st).

(** An operation on a source that neither adds nor takes away one *)
Definition neutral (op : MixerOp S Volume) : bool :=
  match op with AddSource _ _ | RemoveSource _ => false | _ => true end.

Record same_sources (st st' : Stream) : Prop := {
  ss_lost : sp_lost st' = 0%N -> sp_lost st = 0%N;
  ss_settled : settled st' = settled st
}.

#[global] Instance same_sources_preorder : PreOrder same_sources.
Proof.
  split; [done|]. intros st1 st2 st3 [H1 E1] [H2 E2]. split; [auto|congruence].
Qed.

Lemma push_settled st op :
  (sp_lost (PlaybackStream.push st op) = 0%N ->
     sp_lost st = 0%N /\ settled (PlaybackStream.push st op) = settle (settled st) op) /\
  (settled (PlaybackStream.push st op) = settle (settled st) op \/
   settled (PlaybackStream.push st op) = settled st).
Proof.
  unfold PlaybackStream.push. destruct (_ <? _); cbn.
  - assert (settled (mkPlaybackStream (sp_mixer st) (sp_ops st ++ [op]) (sp_lost st) (sp_sample_rate st)
      (sp_channels st)) = settle (settled st) op) as E by (unfold settled; cbn; by rewrite foldl_app).
    split; [done|by left].
  - split; [lia|by right].
Qed.

Lemma push_neutral st op : neutral op = true -> same_sources st (PlaybackStream.push st op).
Proof.
  intros Hn. destruct (push_settled st op) as [H1 H2].
  assert (settle (settled st) op = settled st) as E by by destruct op.
  split; [naive_solver|]. rewrite E in H2. tauto.
Qed.

Lemma dom_apply (m : gmap AudioSourceId S) op : dom (Mixer.apply m op) = settle (dom m) op.
Proof.
  destruct op; cbn [Mixer.apply settle]; unfold Mixer.add_source, Mixer.remove_source, Mixer.start_source,
    Mixer.stop_source, Mixer.restart_source, Mixer.set_source_volume, Mixer.skip_in_source,
    Mixer.rewind_in_source; rewrite ?dom_alter_L; [by rewrite dom_insert_L|by rewrite dom_delete_L|done..].
Qed.

Lemma dom_applied (m : gmap AudioSourceId S) ops : dom (foldl Mixer.apply m ops) = foldl settle (dom m) ops.
Proof. revert m. induction ops as [|op ops IH]; intros m; [done|]. cbn. by rewrite IH, dom_apply. Qed.

Lemma drain_same st : same_sources st (PlaybackStream.drain st).
Proof.
  split; [done|]. unfold settled, PlaybackStream.drain. cbn.
  rewrite dom_applied, <- foldl_app. by rewrite take_drop.
Qed.

Lemma dom_mix (m : gmap AudioSourceId S) samples : dom (Mixer.mix m samples).2 = dom m.
Proof.
  unfold Mixer.mix.
  assert (forall l acc, (forall kv, kv ∈ l -> kv.1 ∈ dom acc.2) ->
    dom (foldl (λ acc kv, let (source, output) := mix_into kv.2 acc.1 in
      (output, <[kv.1 := source]> acc.2)) (acc : list Sample * gmap AudioSourceId S) l).2 = dom acc.2) as Hl.
  { induction l as [|kv l IH]; intros acc Hin; [done|]. cbn.
    destruct (mix_into kv.2 acc.1) as [source out]. rewrite IH; cbn.
    - rewrite dom_insert_L. pose proof (Hin kv (list_elem_of_here _ _)). set_solver.
    - intros kv' H'. rewrite dom_insert_L. pose proof (Hin kv' (list_elem_of_further _ _ _ H')). set_solver. }
  specialize (Hl (map_iter m) (replicate samples equilibrium, m)).
  destruct (foldl _ _ _) as [out m'] eqn:E. cbn in *. apply Hl.
  intros kv Hkv. apply elem_of_map_iter' in Hkv. by apply elem_of_dom.
Qed.

Lemma callback_same st samples : same_sources st (PlaybackStream.data_callback st samples).2.
Proof.
  transitivity (PlaybackStream.drain st); [apply drain_same|]. unfold PlaybackStream.data_callback.
  pose proof (dom_mix (sp_mixer (PlaybackStream.drain st)) samples) as Hd.
  destruct (Mixer.mix _ _) as [out m']. split; [done|]. unfold settled. cbn in *. by rewrite Hd.
Qed.

Lemma callback_ops st samples :
  sp_ops (PlaybackStream.data_callback st samples).2 = drop MIXER_OPS_PER_DATA_CALLBACK (sp_ops st).
Proof. unfold PlaybackStream.data_callback. by destruct (Mixer.mix _ _). Qed.

(** ** A stream and the names of its sounds *)

(** The sources that the names point to are there, if nothing was lost. *)
Definition holds (st : Stream) (ids : gmap SourceType AudioSourceId) : Prop :=
  sp_lost st = 0%N -> forall t id, ids !! t = Some id -> id ∈ settled st.

Definition below (next : AudioSourceId) (ids : gset AudioSourceId) : Prop :=
  forall id, id ∈ ids -> (id < next)%N.

Definition names_below (next : AudioSourceId) (ids : gmap SourceType AudioSourceId) : Prop :=
  forall t id, ids !! t = Some id -> (id < next)%N.

Definition injective (ids : gmap SourceType AudioSourceId) : Prop :=
  forall t t' id, ids !! t = Some id -> ids !! t' = Some id -> t = t'.

Record stream_ok (next : AudioSourceId) (st : Stream) (ids : gmap SourceType AudioSourceId) : Prop := {
  so_holds : holds st ids;
  so_settled : below next (settled st);
  so_names : names_below next ids;
  so_injective : injective ids
}.

Lemma stream_ok_same next st st' ids :
  stream_ok next st ids -> same_sources st st' -> stream_ok next st' ids.
Proof.
  intros [H1 H2 H3 H4] [E1 E2]. split; [|by rewrite E2|done|done].
  intros Hl t id Hid. rewrite E2. by apply (H1 (E1 Hl) t).
Qed.

Lemma stream_ok_later next next' st ids :
  (next <= next')%N -> stream_ok next st ids -> stream_ok next' st ids.
Proof.
  intros Hle [H1 H2 H3 H4]. split; [done| | |done].
  - intros id Hid. specialize (H2 id Hid). lia.
  - intros t id Hid. specialize (H3 t id Hid). lia.
Qed.

(** A source that is not one of the named sounds may come and go. *)
Lemma stream_ok_push next st ids op :
  stream_ok next st ids ->
  match op with
  | AddSource id _ => (id < next)%N
  | RemoveSource id => forall t, ids !! t <> Some id
  | _ => True
  end ->
  stream_ok next (PlaybackStream.push st op) ids.
Proof.
  intros Hok Hop. destruct (neutral op) eqn:Hn; [by eapply stream_ok_same, push_neutral|].
  destruct Hok as [H1 H2 H3 H4]. destruct (push_settled st op) as [Hs Hor]. split; [| |done|done].
  - intros Hl t id Hid. destruct (Hs Hl) as [Hl' ->]. specialize (H1 Hl' t id Hid).
    destruct op; cbn; try done; [set_solver|].
    apply elem_of_difference. split; [done|]. intros ->%elem_of_singleton. by apply (Hop t).
  - intros id Hid. destruct Hor as [E|E]; rewrite E in Hid; [|by apply H2].
    destruct op; cbn in *; try by apply H2.
    + apply elem_of_union in Hid as [->%elem_of_singleton|Hid]; [done|by apply H2].
    + apply elem_of_difference in Hid as [Hid _]. by apply H2.
Qed.

(** A new source under a name *)
Lemma stream_ok_named next st ids t source :
  stream_ok next st ids ->
  stream_ok (next + 1)%N (PlaybackStream.push st (AddSource next source)) (<[t := next]> ids).
Proof.
  intros [H1 H2 H3 H4]. destruct (push_settled st (AddSource next source)) as [Hs Hor]. split.
  - intros Hl t' id Hid. destruct (Hs Hl) as [Hl' ->]. cbn.
    apply lookup_insert_Some in Hid as [[<- <-]|[_ Hid]]; [set_solver|].
    specialize (H1 Hl' t' id Hid). set_solver.
  - intros id Hid. destruct Hor as [E|E]; rewrite E in Hid; cbn in Hid.
    + apply elem_of_union in Hid as [->%elem_of_singleton|Hid]; [lia|]. specialize (H2 id Hid). lia.
    + specialize (H2 id Hid). lia.
  - intros t' id [[_ <-]|[_ Hid]]%lookup_insert_Some; [lia|]. specialize (H3 t' id Hid). lia.
  - intros t1 t2 id Hi1 Hi2. apply lookup_insert_Some in Hi1, Hi2.
    destruct Hi1 as [[<- <-]|[Hn1 Hi1]], Hi2 as [[<- E]|[Hn2 Hi2]]; [done| | |by eapply H4].
    + specialize (H3 _ _ Hi2). lia.
    + subst id. specialize (H3 _ _ Hi1). lia.
Qed.
End streams.

(** ** The manager *)

Definition speaker_sounds : list SourceType := [Ring; RingOneshot; PriorityRing; PriorityRingOneshot; Click].

Section manager.
Context {S Volume Sample Clip : Type} `{AudioSource S Volume Sample} `{Sounds S Volume Clip}.
Context {HO : HashOrder}.
Abbreviation Manager := (AudioManager S Volume Clip).

Definition speaker_ok (m : Manager) : Prop :=
  match speaker m with
  | Some st => stream_ok (next_source_id m) st (speaker_source_ids m) /\
      forall t, is_Some (speaker_source_ids m !! t) <-> t ∈ speaker_sounds
  | None => speaker_source_ids m = ∅
  end.

Record sounds_ok (m : Manager) : Prop := {
  mo_output : stream_ok (next_source_id m) (output m) (output_source_ids m);
  mo_all : forall t, is_Some (output_source_ids m !! t);
  mo_speaker : speaker_ok m;
  mo_calls : below (next_source_id m) (call_output_source_ids m);
  mo_apart : forall t id, output_source_ids m !! t = Some id -> id ∉ call_output_source_ids m
}.

(** Managers that differ in their input, or in what was asked of sources that stay *)
Record same_sounds (m m' : Manager) : Prop := {
  sm_output : same_sources (output m) (output m');
  sm_speaker : option_Forall2 same_sources (speaker m) (speaker m');
  sm_output_ids : output_source_ids m' = output_source_ids m;
  sm_speaker_ids : speaker_source_ids m' = speaker_source_ids m;
  sm_call_ids : call_output_source_ids m' = call_output_source_ids m;
  sm_next : next_source_id m' = next_source_id m
}.

#[global] Instance same_sounds_preorder : PreOrder same_sounds.
Proof.
  split; [by split; try reflexivity|].
  intros m1 m2 m3 [A1 A2 A3 A4 A5 A6] [B1 B2 B3 B4 B5 B6]. split; try congruence.
  - by etrans.
  - by etrans.
Qed.

Lemma same_sounds_ok m m' : sounds_ok m -> same_sounds m m' -> sounds_ok m'.
Proof.
  intros [A1 A2 A3 A4 A5] [E1 E2 E3 E4 E5 E6]. split; rewrite ?E3, ?E5, ?E6; [|done| |done|done].
  - by eapply stream_ok_same.
  - unfold speaker_ok in *. rewrite E4, E6. destruct E2 as [st st' E2|]; [|done].
    destruct A3 as [A3 A3']. split; [by eapply stream_ok_same|done].
Qed.

Lemma same_input m i users : same_sounds m (AudioManager.with_input m i users).
Proof. by split; try reflexivity. Qed.

Lemma same_on_stream m d (f : PlaybackStream S Volume -> PlaybackStream S Volume) :
  (forall st, same_sources st (f st)) -> same_sounds m (AudioManager.on_stream m d f).
Proof.
  intros Hf. destruct d; split; cbn; try reflexivity; [apply Hf|].
  destruct (speaker m); constructor. apply Hf.
Qed.

Lemma same_playing m t (f : PlaybackStream S Volume -> AudioSourceId -> PlaybackStream S Volume) :
  (forall st id, same_sources st (f st id)) -> same_sounds m (AudioManager.playing m t f).
Proof.
  intros Hf. unfold AudioManager.playing. destruct (AudioManager.playing_on m t) as [[d id]|]; [|reflexivity].
  by apply same_on_stream.
Qed.

Lemma same_set_output_volume m t v : same_sounds m (AudioManager.set_output_volume m t v).
Proof.
  unfold AudioManager.set_output_volume.
  assert (forall (st : PlaybackStream S Volume) id, same_sources st (PlaybackStream.set_volume st id v)) as Hv
    by (intros st id; by apply push_neutral).
  assert (forall (st : PlaybackStream S Volume) id, same_sources st
    (PlaybackStream.restart_audio_source (PlaybackStream.set_volume st id v) id)) as Hr
    by (intros st id; etrans; [apply (Hv st id)|by apply push_neutral]).
  set (m1 := match output_source_ids m !! t with Some _ => _ | None => m end).
  assert (same_sounds m m1 /\ speaker m1 = speaker m /\ speaker_source_ids m1 = speaker_source_ids m) as (H1 & E1 & E2).
  { subst m1. destruct (output_source_ids m !! t) as [id|]; [|done]. split_and!; [|done|done].
    split; cbn; try reflexivity. destruct t, (speaker m); first [apply Hv|apply Hr]. }
  destruct (speaker m1) as [st|] eqn:Es; [|done]. destruct (speaker_source_ids m1 !! t) as [id|]; [|done].
  etrans; [exact H1|]. split; cbn; try reflexivity. rewrite Es. constructor.
  destruct t; first [apply Hv|apply Hr].
Qed.

Lemma same_foldl_push {A : Type} (l : list A) (f : PlaybackStream S Volume -> A -> PlaybackStream S Volume) st :
  (forall st a, same_sources st (f st a)) -> same_sources st (foldl f st l).
Proof. intros Hf. revert st. induction l as [|a l IH]; intros st; [done|]. cbn. etrans; [apply Hf|apply IH]. Qed.

Lemma same_set_volumes m ts v : same_sounds m (AudioManager.set_volumes m ts v).
Proof.
  revert m. induction ts as [|t ts IH]; intros m; [reflexivity|]. cbn.
  etrans; [apply same_set_output_volume|apply IH].
Qed.

Lemma same_call_volumes m v : same_sounds m (AudioManager.set_call_output_volumes m v).
Proof.
  split; cbn; try reflexivity. apply same_foldl_push. intros st id. by apply push_neutral.
Qed.

(** *** New streams *)

Lemma add_named_ok next (st : PlaybackStream S Volume) ids t source :
  stream_ok next st ids ->
  let '(next', st', ids') := AudioManager.add_named (next, st, ids) (t, source) in
  stream_ok next' st' ids' /\ (next <= next')%N /\ ids' = <[t := next]> ids.
Proof. intros Hok. cbn. split_and!; [by apply stream_ok_named|lia|done]. Qed.

Lemma add_all_ok l next (st : PlaybackStream S Volume) ids :
  stream_ok next st ids ->
  let '(next', st', ids') := foldl AudioManager.add_named (next, st, ids) l in
  stream_ok next' st' ids' /\ (next <= next')%N /\
  (forall t, is_Some (ids' !! t) <-> is_Some (ids !! t) \/ t ∈ l.*1) /\
  (forall t id, ids' !! t = Some id -> ids !! t = Some id \/ (next <= id)%N).
Proof.
  revert next st ids. induction l as [|[t source] l IH]; intros next st ids Hok.
  { cbn. split_and!; [done|lia| |by left]. intros t. rewrite elem_of_nil. tauto. }
  cbn [foldl]. pose proof (add_named_ok next st ids t source Hok) as H1.
  destruct (AudioManager.add_named _ _) as [[next1 st1] ids1]. destruct H1 as (Hok1 & Hle & ->).
  specialize (IH next1 st1 _ Hok1). destruct (foldl _ _ l) as [[next2 st2] ids2].
  destruct IH as (Hok2 & Hle2 & Hdom & Hids). split_and!; [done|lia| |].
  - intros t'. rewrite Hdom. cbn. rewrite elem_of_cons, lookup_insert_is_Some'. naive_solver.
  - intros t' id Hid. destruct (Hids t' id Hid) as [H'|]; [|right; lia].
    apply lookup_insert_Some in H' as [[_ <-]|[_ H']]; [right; lia|by left].
Qed.

Lemma fresh_stream_ok next device :
  stream_ok next (PlaybackStream.start device : PlaybackStream S Volume) ∅.
Proof.
  split.
  - intros _ t id Hid. by rewrite lookup_empty in Hid.
  - intros id Hid. unfold settled in Hid. cbn in Hid. rewrite dom_empty_L in Hid. set_solver.
  - intros t id Hid. by rewrite lookup_empty in Hid.
  - intros t t' id Hid. by rewrite lookup_empty in Hid.
Qed.

Lemma create_ok next config clips d opened next' st ids :
  AudioManager.create_playback_stream next config clips d opened = Ok (next', st, ids) ->
  stream_ok next' st ids /\ (next <= next')%N /\
  (forall t, is_Some (ids !! t) <-> match d with Output => True | Speaker => t ∈ speaker_sounds end) /\
  (forall t id, ids !! t = Some id -> (next <= id)%N).
Proof.
  unfold AudioManager.create_playback_stream. destruct opened as [device|]; [|done].
  remember (AudioManager.stream_sources config clips d device) as l eqn:El. intros [= E].
  pose proof (add_all_ok l next _ ∅
    (fresh_stream_ok next device)) as Hall.
  rewrite E in Hall. destruct Hall as (H1 & H2 & H3 & H4). split_and!; [done|done| |].
  - intros t. rewrite H3, lookup_empty. split.
    + intros [[? [=]]|Ht]. destruct d; [done|by subst l].
    + intros Ht. right. subst l. destruct d; [|done].
      destruct t; by apply (bool_decide_unpack _).
  - intros t id Hid. destruct (H4 t id Hid) as [H'|]; [by rewrite lookup_empty in H'|done].
Qed.

Lemma sounds_ok_new next config clips o1 o2 m :
  AudioManager.new next config clips o1 o2 = Ok m -> sounds_ok m.
Proof.
  unfold AudioManager.new.
  destruct (AudioManager.create_playback_stream _ _ _ Output _) as [[[next1 out] ids1]|] eqn:E1; [|done].
  apply create_ok in E1 as (Ho & Hle & Hall & _). cbn in Hall.
  destruct (speaker_enabled config).
  - destruct (AudioManager.create_playback_stream _ _ _ Speaker _) as [[[next2 spk] ids2]|] eqn:E2; [|done].
    apply create_ok in E2 as (Hs & Hle2 & Hspk & _). intros [= <-].
    split; cbn; [by eapply stream_ok_later|by intros t; apply Hall|done|set_solver|set_solver].
  - intros [= <-]. split; cbn; [done|by intros t; apply Hall|done|set_solver|set_solver].
Qed.

Lemma sounds_ok_switch m config d opened :
  sounds_ok m -> sounds_ok (AudioManager.switch_playback_device m config d opened).2.
Proof.
  intros [A1 A2 A3 A4 A5]. unfold AudioManager.switch_playback_device.
  destruct (bool_decide (d = Speaker) && negb (speaker_enabled config)); [by split|].
  destruct (AudioManager.create_playback_stream _ _ _ _ _) as [[[next st] ids]|] eqn:E; [|by split].
  apply create_ok in E as (Hst & Hle & Hall & Hnew). destruct d; split; cbn.
  - done.
  - intros t. by apply Hall.
  - unfold speaker_ok in *. cbn. destruct (speaker m); [|done].
    destruct A3; split; [by eapply stream_ok_later|done].
  - intros id Hid. specialize (A4 id Hid). lia.
  - intros t id Hid Hc. specialize (A4 id Hc). specialize (Hnew t id Hid). lia.
  - by eapply stream_ok_later.
  - done.
  - unfold speaker_ok. cbn. by split.
  - intros id Hid. specialize (A4 id Hid). lia.
  - done.
Qed.

Lemma sounds_ok_attach_call m source :
  sounds_ok m -> sounds_ok (AudioManager.attach_call_output m source).2.
Proof.
  intros [A1 A2 A3 A4 A5]. destruct source as [source|]; [|by split]. split; cbn.
  - apply stream_ok_push; [|cbn; lia]. eapply stream_ok_later; [|done]. lia.
  - done.
  - unfold speaker_ok in *. cbn. destruct (speaker m); [|done].
    destruct A3; split; [|done]. eapply stream_ok_later; [|done]. lia.
  - intros id [->%elem_of_singleton|Hid]%elem_of_union; [lia|]. specialize (A4 id Hid). lia.
  - intros t id Hid [->%elem_of_singleton|Hc]%elem_of_union; [|by eapply A5].
    pose proof (so_names _ _ _ A1 t _ Hid). lia.
Qed.

(** A source that is no named sound is taken away. *)
Definition foreign (m : Manager) (id : AudioSourceId) : Prop :=
  forall t, output_source_ids m !! t <> Some id /\ speaker_source_ids m !! t <> Some id.

Lemma sounds_ok_detach m id : sounds_ok m -> foreign m id -> sounds_ok (AudioManager.detach_call_output m id).
Proof.
  intros [A1 A2 A3 A4 A5] Hf. split; cbn; try done.
  - apply stream_ok_push; [done|]. intros t. by apply Hf.
  - intros id' Hid. apply A4. set_solver.
  - intros t id' Hid Hc. apply (A5 t id' Hid). set_solver.
Qed.

Lemma sounds_ok_detach_all m : sounds_ok m -> sounds_ok (AudioManager.detach_all_call_outputs m).
Proof.
  intros [A1 A2 A3 A4 A5]. split; cbn; [|done|done|intros id Hid; set_solver|intros t id _; set_solver].
  assert (forall l (st : PlaybackStream S Volume), Forall (λ id, id ∈ call_output_source_ids m) l ->
    stream_ok (next_source_id m) st (output_source_ids m) ->
    stream_ok (next_source_id m) (foldl PlaybackStream.remove_audio_source st l) (output_source_ids m)) as Hl.
  { induction l as [|id l IH]; intros st Hin Hst; [done|]. inversion Hin as [|? ? Hid Hin']; subst. cbn.
    apply IH; [done|]. apply stream_ok_push; [done|]. intros t Ht. by apply (A5 t id). }
  apply Hl; [|done]. apply Forall_forall. intros id. apply elem_of_set_iter.
Qed.

Lemma replace_in_ok next (st : PlaybackStream S Volume) ids t source :
  stream_ok next st ids ->
  let '(next', st', ids') := AudioManager.replace_in next st ids t (source : S) in
  stream_ok next' st' ids' /\ (next <= next')%N /\ ids' = <[t := next]> ids.
Proof.
  intros Hok. unfold AudioManager.replace_in. cbn.
  set (st1 := match ids !! t with Some _ => _ | None => st end).
  assert (stream_ok next st1 (delete t ids)) as Hst.
  { assert (stream_ok next st (delete t ids)) as Hd.
    { destruct Hok as [H1 H2 H3 H4]. split; [|done| |].
      - intros Hl t' id [_ Hid]%lookup_delete_Some. by apply (H1 Hl t').
      - intros t' id [_ Hid]%lookup_delete_Some. by eapply H3.
      - intros t1 t2 id [_ H5]%lookup_delete_Some [_ H6]%lookup_delete_Some. by eapply H4. }
    subst st1. destruct (ids !! t) as [previous|] eqn:Hp; [|done].
    apply stream_ok_push; [done|]. intros t' [Hne Ht']%lookup_delete_Some.
    apply Hne. by eapply (so_injective _ _ _ Hok). }
  split_and!; [|lia|done]. rewrite <- insert_delete_eq. by apply stream_ok_named.
Qed.

Lemma sounds_ok_replace m t o s : t ∈ speaker_sounds ->
  sounds_ok m -> sounds_ok (AudioManager.replace_ring_source m (t, o, s)).
Proof.
  intros Ht [A1 A2 A3 A4 A5]. unfold AudioManager.replace_ring_source.
  pose proof (replace_in_ok _ _ _ t o A1) as H1.
  destruct (AudioManager.replace_in _ _ _ _ _) as [[next st] ids]. destruct H1 as (Hst & Hle & ->).
  set (m1 := AudioManager.with_output_ids _ _).
  assert (sounds_ok m1) as Hm1.
  { split; cbn; [done| | | |].
    - intros t'. destruct (decide (t = t')) as [<-|Hne];
        [rewrite lookup_insert_eq; by eexists|by rewrite lookup_insert_ne].
    - unfold speaker_ok in *. cbn. destruct (speaker m); [|done]. destruct A3; split; [|done].
      by eapply stream_ok_later.
    - intros id Hid. specialize (A4 id Hid). lia.
    - intros t' id [[_ <-]|[_ Hid]]%lookup_insert_Some; [|by eapply A5].
      intros Hc. specialize (A4 _ Hc). lia. }
  change (speaker m1) with (speaker m). destruct (speaker m) as [spk|] eqn:Es; [|done].
  destruct s as [s|]; [|done]. destruct Hm1 as [B1 B2 B3 B4 B5].
  unfold speaker_ok in B3. cbn in B3. rewrite Es in B3. destruct B3 as [B3 B3'].
  pose proof (replace_in_ok _ _ _ t s B3) as H2. cbn [next_source_id speaker_source_ids m1
    AudioManager.with_output_ids AudioManager.with_output AudioManager.with_next] in H2 |- *.
  destruct (AudioManager.replace_in _ _ _ _ _) as [[next' st'] ids']. destruct H2 as (Hst' & Hle' & ->).
  split; cbn; [by eapply stream_ok_later|done| | |done].
  - unfold speaker_ok. cbn. split; [done|]. intros t'. rewrite lookup_insert_is_Some', B3'. naive_solver.
  - intros id Hid. specialize (B4 id Hid). cbn in B4. lia.
Qed.

Lemma ring_replacements_types m clip sources volume l :
  AudioManager.ring_replacements m clip sources volume = Ok l -> map (λ r, r.1.1) l = map fst sources.
Proof.
  revert l. induction sources as [|[t pause] sources IH]; intros l; cbn; [by intros [= <-]|].
  destruct (into_ring_source _ _ _ _ _ _) as [o|]; [|done].
  destruct (match speaker m with Some _ => _ | None => _ end) as [s|]; [|done].
  destruct (AudioManager.ring_replacements _ _ _ _) as [l'|]; [|done]. intros [= <-]. cbn. f_equal. by apply IH.
Qed.

Lemma sounds_ok_replace_all m clip sources volume :
  Forall (λ s, s.1 ∈ speaker_sounds) sources -> sounds_ok m ->
  sounds_ok (AudioManager.replace_ring_sources m clip sources volume).2.
Proof.
  intros Hs Hm. unfold AudioManager.replace_ring_sources.
  destruct (AudioManager.ring_replacements _ _ _ _) as [l|] eqn:E; [|done].
  apply ring_replacements_types in E. cbn.
  assert (Forall (λ r : SourceType * S * option S, r.1.1 ∈ speaker_sounds) l) as Hl.
  { rewrite <- (Forall_map (λ r : SourceType * S * option S, r.1.1) (λ t, t ∈ speaker_sounds)). 
    rewrite E. by rewrite Forall_map. }
  clear E. revert m Hm. induction Hl as [|[[t o] s] l Ht Hl IH]; intros m Hm; [done|]. cbn [foldl].
  apply IH. by apply sounds_ok_replace.
Qed.
End manager.
