(* ===== verification/AudioProperties.v ===== *)
(** AudioProperties: the theorems about the sounds of the client: every sound has a
    source where it plays, what is asked of a stream is done in a few callbacks, and
    the input level meter runs for its users. *)
From stdpp Require Import prelude gmap strings list.
From Stdlib Require Import NArith.
From S2P Require Import Prelude Audio AudioLogic.

Section runs.
Context {S Volume Sample Clip : Type} `{AudioSource S Volume Sample} `{Sounds S Volume Clip}.
Context {HO : HashOrder}.
Abbreviation Manager := (AudioManager S Volume Clip).
Abbreviation Config := (AudioConfig Volume).

(** What happens to the manager; the identifiers of [DetachCall] and [RemoveSource]
    are those the manager gave for calls and clips. *)
Inductive AudioOp :=
| Callback (d : PlaybackDeviceType) (samples : nat)
| SwitchDevice (config : Config) (d : PlaybackDeviceType) (opened : Result (N * N) string)
| StreamError (ready changed cooling : bool) (call : option string) (config : Config)
    (d : PlaybackDeviceType) (opened : Result (N * N) string)
| SetDevice (config : Config) (in_call : bool) (t : AudioManager.ClientAudioDeviceType) (named : bool)
    (opened : Result (N * N) string) (listed reopened : Result () string)
| SetVolumeOf (config : Config) (t : AudioManager.VolumeType) (volume : Volume)
| SetRing (config : Config) (t : RingSoundType) (clip : option Clip)
| SetRingLoop (t : RingSoundType) (pause : option Duration) (volume : Volume)
| StartSound (t : SourceType)
| RestartSound (t : SourceType)
| StopSound (t : SourceType)
| AttachCall (source : Result S string)
| DetachCall (id : AudioSourceId)
| DetachAllCalls
| AddClip (source_fn : N -> N -> Result S string) (d : PlaybackDeviceType)
| StartClip (id : AudioSourceId) (d : PlaybackDeviceType)
| StopClip (id : AudioSourceId) (d : PlaybackDeviceType)
| SkipClip (id : AudioSourceId) (duration : Duration) (d : PlaybackDeviceType)
| RewindClip (id : AudioSourceId) (duration : Duration) (d : PlaybackDeviceType)
| RemoveClip (id : AudioSourceId) (d : PlaybackDeviceType)
| AttachInput (config : Config) (mute : bool) (opened : Result () string)
| ReceiverDropped
| MuteInput (mute : bool)
| DetachInput
| CaptureError (call : option string)
| MeterError (changed cooling : bool) (config : Config) (opened : Result () string)
| StartMeter (config : Config) (opened : Result () string)
| StopMeter.

Definition callback_on (m : Manager) (d : PlaybackDeviceType) (samples : nat) : Manager :=
  AudioManager.on_stream m d (λ st, (PlaybackStream.data_callback st samples).2).

Definition audio_step (m : Manager) (op : AudioOp) : Manager :=
  match op with
  | Callback d samples => callback_on m d samples
  | SwitchDevice config d opened => (AudioManager.switch_playback_device m config d opened).2
  | StreamError ready changed cooling call config d opened =>
    (AudioManager.handle_playback_stream_error ready changed cooling call config d opened m).2
  | SetDevice config in_call t named opened listed reopened =>
    (AudioManager.audio_set_device m config in_call t named opened listed reopened).2
  | SetVolumeOf config t volume => (AudioManager.audio_set_volume m config t volume).2
  | SetRing config t clip => (AudioManager.audio_set_ring_sound m config t clip).2
  | SetRingLoop t pause volume => (AudioManager.set_ring_sound_loop m t pause volume).2
  | StartSound t => AudioManager.start m t
  | RestartSound t => AudioManager.restart m t
  | StopSound t => AudioManager.stop m t
  | AttachCall source => (AudioManager.attach_call_output m source).2
  | DetachCall id => AudioManager.detach_call_output m id
  | DetachAllCalls => AudioManager.detach_all_call_outputs m
  | AddClip source_fn d => (AudioManager.add_audio_source m source_fn d).2
  | StartClip id d => AudioManager.start_audio_source m id d
  | StopClip id d => AudioManager.stop_audio_source m id d
  | SkipClip id duration d => AudioManager.skip_in_audio_source m id duration d
  | RewindClip id duration d => AudioManager.rewind_in_audio_source m id duration d
  | RemoveClip id d => AudioManager.remove_audio_source m id d
  | AttachInput config mute opened => (AudioManager.attach_input_device m config mute opened).2
  | ReceiverDropped => AudioManager.receiver_dropped m
  | MuteInput mute => AudioManager.set_input_muted m mute
  | DetachInput => AudioManager.detach_input_device m
  | CaptureError call => (AudioManager.handle_capture_error call m).2
  | MeterError changed cooling config opened =>
    (AudioManager.handle_level_meter_error changed cooling config opened m).2
  | StartMeter config opened => (AudioManager.audio_start_input_level_meter m config opened).2
  | StopMeter => (AudioManager.audio_stop_input_level_meter m).2
  end.

Definition op_ok (m : Manager) (op : AudioOp) : Prop :=
  match op with DetachCall id | RemoveClip id _ => foreign m id | _ => True end.

Inductive reach (m : Manager) : Manager -> Prop :=
| reach_refl : reach m m
| reach_step m1 op : reach m m1 -> op_ok m1 op -> reach m (audio_step m1 op).

(** ** The sounds over a step *)

Lemma same_attach_meter (m : Manager) config opened :
  same_sounds m (AudioManager.attach_input_level_meter m config opened).2.
Proof.
  unfold AudioManager.attach_input_level_meter. destruct (match input m with Some _ => _ | None => _ end); [done|].
  destruct opened; [apply same_input|done].
Qed.

Lemma same_detach (m : Manager) : same_sounds m (AudioManager.detach_input_device m).
Proof.
  unfold AudioManager.detach_input_device. destruct (input m) as [i|]; [|done].
  destruct (receivers i =? 0)%N; [apply same_input|done].
Qed.

Lemma sounds_ok_set_device (m : Manager) config in_call t named opened listed reopened :
  sounds_ok m -> sounds_ok (AudioManager.audio_set_device m config in_call t named opened listed reopened).2.
Proof.
  intros Hm. unfold AudioManager.audio_set_device. destruct in_call; [done|].
  set (reattach := (_ && _) : bool). set (m1 := if reattach then _ else m).
  assert (sounds_ok m1) as H1
    by (subst m1; destruct reattach; [by eapply same_sounds_ok, same_detach|done]).
  assert (forall (config' : Config) (m' : Manager), sounds_ok m' ->
    sounds_ok (if reattach then let (r, m) := AudioManager.attach_input_level_meter m' config' reopened in
      (r, config', m) else (Ok (), config', m')).2) as Hre.
  { intros config' m' Hm'. destruct reattach; [|done].
    pose proof (same_attach_meter m' config' reopened) as Hs.
    destruct (AudioManager.attach_input_level_meter _ _ _). by eapply same_sounds_ok. }
  destruct t.
  - destruct listed; [by apply Hre|done].
  - pose proof (sounds_ok_switch m1 config Output opened H1) as H2.
    destruct (AudioManager.switch_playback_device _ _ _ _) as [[|] m2]; [|done].
    destruct listed; [by apply Hre|done].
  - pose proof (sounds_ok_switch m1 (AudioManager.with_speaker_enabled config named) Speaker opened H1) as H2.
    destruct (AudioManager.switch_playback_device _ _ _ _) as [[|] m2]; [|done].
    destruct listed; [by apply Hre|done].
Qed.

Lemma sounds_ok_on_stream (m : Manager) d (f : PlaybackStream S Volume -> PlaybackStream S Volume) next' :
  sounds_ok m -> (next_source_id m <= next')%N ->
  (forall st ids, stream_ok next' st ids ->
     (ids = output_source_ids m \/ ids = speaker_source_ids m) -> stream_ok next' (f st) ids) ->
  sounds_ok (AudioManager.on_stream (AudioManager.with_next m next') d f).
Proof.
  intros [A1 A2 A3 A4 A5] Hle Hf.
  assert (stream_ok next' (output m) (output_source_ids m)) as B1 by by eapply stream_ok_later.
  assert (below next' (call_output_source_ids m)) as B4 by (intros id Hid; specialize (A4 id Hid); lia).
  assert (forall g : PlaybackStream S Volume -> PlaybackStream S Volume,
    (forall st ids, stream_ok next' st ids -> ids = speaker_source_ids m -> stream_ok next' (g st) ids) ->
    match g <$> speaker m with
    | Some st => stream_ok next' st (speaker_source_ids m) /\
        forall t, is_Some (speaker_source_ids m !! t) <-> t ∈ speaker_sounds
    | None => speaker_source_ids m = ∅
    end) as B3.
  { intros g Hg. unfold speaker_ok in A3. destruct (speaker m) as [st|]; [|done]. cbn.
    destruct A3 as [A3 A3']. split; [|done]. apply Hg; [|done]. by eapply stream_ok_later. }
  destruct d; split; cbn; try done; [apply Hf; [done|by left]| |].
  - unfold speaker_ok. cbn. specialize (B3 id). rewrite option_fmap_id in B3. by apply B3.
  - apply B3. intros st ids Hst ->. apply Hf; [done|by right].
Qed.

Lemma sounds_ok_pushed (m : Manager) d op :
  sounds_ok m -> (forall id, op = RemoveSource id -> foreign m id) ->
  (forall id source, op <> AddSource id source) ->
  sounds_ok (AudioManager.on_stream m d (λ st, PlaybackStream.push st op)).
Proof.
  intros Hm Hr Ha.
  replace m with (AudioManager.with_next m (next_source_id m)) at 1 by by destruct m.
  apply sounds_ok_on_stream; [done|lia|]. intros st ids Hst Hids. apply stream_ok_push; [done|].
  destruct op; try done; [by destruct (Ha id source)|]. intros t.
  destruct (Hr _ eq_refl t). by destruct Hids as [-> | ->].
Qed.

Lemma sounds_ok_step (m : Manager) op : sounds_ok m -> op_ok m op -> sounds_ok (audio_step m op).
Proof.
  intros Hm Hop.
  assert (forall d (f : PlaybackStream S Volume -> PlaybackStream S Volume),
    (forall st, same_sources st (f st)) -> sounds_ok (AudioManager.on_stream m d f)) as Hcalm
    by (intros d f Hf; by eapply same_sounds_ok, same_on_stream).
  assert (forall t (f : PlaybackStream S Volume -> AudioSourceId -> PlaybackStream S Volume),
    (forall st id, same_sources st (f st id)) -> sounds_ok (AudioManager.playing m t f)) as Hplay
    by (intros t f Hf; by eapply same_sounds_ok, same_playing).
  assert (forall i users, sounds_ok (AudioManager.with_input m i users)) as Hin
    by (intros i users; by eapply same_sounds_ok, same_input).
  assert (sounds_ok (AudioManager.detach_input_device m)) as Hdetach
    by by eapply same_sounds_ok, same_detach.
  destruct op; cbn [audio_step].
  - apply Hcalm. intros st. apply callback_same.
  - by apply sounds_ok_switch.
  - unfold AudioManager.handle_playback_stream_error. destruct (negb ready); [done|].
    destruct (cooling && negb changed); [done|].
    pose proof (sounds_ok_switch m config d opened Hm) as H1.
    by destruct (AudioManager.switch_playback_device _ _ _ _).
  - by apply sounds_ok_set_device.
  - eapply same_sounds_ok; [exact Hm|]. destruct t; cbn [AudioManager.audio_set_volume snd].
    + unfold AudioManager.set_input_volume. destruct (input m); [apply same_input|reflexivity].
    + etrans; [apply same_call_volumes|apply same_set_volumes].
    + apply same_set_volumes.
    + apply same_set_volumes.
  - unfold AudioManager.audio_set_ring_sound, AudioManager.set_ring_sound.
    pose proof (sounds_ok_replace_all m clip [(source_type_from t, AudioConfig.ring_sound_loop_pause config t);
      (oneshot_source_type t, None)] (chime_volume config)) as H1.
    destruct (AudioManager.replace_ring_sources _ _ _ _) as [[|] m1]; cbn in H1 |- *.
    + assert (sounds_ok m1) as [A1 A2 A3 A4 A5].
      { apply H1; [|done]. by destruct t; repeat constructor; apply (bool_decide_unpack _). }
      eapply same_sounds_ok; [|apply same_playing; intros st id; by apply push_neutral]. by split.
    + apply H1; [|done]. by destruct t; repeat constructor; apply (bool_decide_unpack _).
  - unfold AudioManager.set_ring_sound_loop. destruct (ring_clips m !! t); [|done].
    apply sounds_ok_replace_all; [|done]. by destruct t; repeat constructor; apply (bool_decide_unpack _).
  - apply Hplay. intros st id. by apply push_neutral.
  - apply Hplay. intros st id. by apply push_neutral.
  - apply Hplay. intros st id. by apply push_neutral.
  - by apply sounds_ok_attach_call.
  - by apply sounds_ok_detach.
  - by apply sounds_ok_detach_all.
  - unfold AudioManager.add_audio_source.
    destruct (source_fn _ _) as [source|]; [|done]. cbn [PlaybackStream.add_audio_source snd].
    set (d' := AudioManager.get_stream_for_playback m d).
    assert (AudioManager.on_stream (AudioManager.with_next m (next_source_id m + 1)%N) d'
      (λ _, PlaybackStream.push (AudioManager.stream_on m d) (AddSource (next_source_id m) source)) =
      AudioManager.on_stream (AudioManager.with_next m (next_source_id m + 1)%N) d'
        (λ st, PlaybackStream.push st (AddSource (next_source_id m) source))) as E.
    { subst d'. unfold AudioManager.stream_on, AudioManager.get_stream_for_playback, AudioManager.on_stream.
      destruct d, (speaker m) eqn:Es; cbn; rewrite ?Es; done. }
    rewrite E. apply sounds_ok_on_stream; [done|lia|]. intros st ids Hst _.
    apply stream_ok_push; [done|]. lia.
  - apply Hcalm. intros st. by apply push_neutral.
  - apply Hcalm. intros st. by apply push_neutral.
  - apply Hcalm. intros st. by apply push_neutral.
  - apply Hcalm. intros st. by apply push_neutral.
  - apply (sounds_ok_pushed m _ (RemoveSource id)); [done|by intros ? [= <-]|done].
  - unfold AudioManager.attach_input_device. destruct (input m) as [i|].
    + destruct (is_level_meter i); cbn [negb]; [destruct opened; cbn; [|apply Hin]|apply Hin].
      eapply same_sounds_ok; [apply (Hin None 0%N)|apply same_input].
    + destruct opened; [apply Hin|done].
  - unfold AudioManager.receiver_dropped. destruct (input m); [apply Hin|done].
  - unfold AudioManager.set_input_muted. destruct (input m); [apply Hin|done].
  - done.
  - unfold AudioManager.handle_capture_error, AudioManager.discard_input_device. cbn.
    destruct (input m) as [i|]; [|done]. destruct (negb (is_level_meter i)); [apply Hin|done].
  - unfold AudioManager.handle_level_meter_error. destruct (cooling && negb changed); [done|].
    pose proof (same_attach_meter m config opened) as Hs.
    destruct (AudioManager.attach_input_level_meter _ _ _) as [[|] m1]; cbn in Hs |- *.
    + exact (same_sounds_ok m m1 Hm Hs).
    + eapply same_sounds_ok; [|apply same_detach]. exact (same_sounds_ok m m1 Hm Hs).
  - unfold AudioManager.audio_start_input_level_meter.
    destruct (AudioManager.is_input_device_attached m).
    + cbn. destruct (AudioManager.is_input_level_meter_attached m); [apply Hin|done].
    + pose proof (same_attach_meter m config opened) as Hs.
      destruct (AudioManager.attach_input_level_meter _ _ _) as [[|] m1]; cbn in Hs |- *.
      * eapply same_sounds_ok; [|apply same_input]. exact (same_sounds_ok m m1 Hm Hs).
      * exact (same_sounds_ok m m1 Hm Hs).
  - unfold AudioManager.audio_stop_input_level_meter.
    destruct (AudioManager.is_input_level_meter_attached m); [|done]. cbn.
    destruct (_ =? 0)%N; cbn; [eapply same_sounds_ok; [|apply same_detach]|]; apply Hin.
Qed.

Lemma sounds_ok_reach (m m' : Manager) : sounds_ok m -> reach m m' -> sounds_ok m'.
Proof. intros Hm Hr. induction Hr as [|m1 op Hr IH Hop]; [done|]. by apply sounds_ok_step. Qed.

(** ** The input level meter *)

Definition meter_ok (m : Manager) : Prop :=
  (0 < level_meter_users m)%N -> AudioManager.is_input_level_meter_attached m = true.

Lemma meter_same (m m' : Manager) : meter_ok m -> input m' = input m ->
  level_meter_users m' = level_meter_users m -> meter_ok m'.
Proof. unfold meter_ok, AudioManager.is_input_level_meter_attached. by intros Hm -> ->. Qed.

(** Only these operations touch the input. *)
Definition on_input (op : AudioOp) : bool :=
  match op with
  | SetDevice _ _ _ _ _ _ _ | SetVolumeOf _ AudioManager.VT_Input _ | AttachInput _ _ _ | ReceiverDropped
  | MuteInput _ | DetachInput | CaptureError _ | MeterError _ _ _ _ | StartMeter _ _ | StopMeter => true
  | _ => false
  end.

Definition input_of (m : Manager) : option (CaptureStream Volume) * N := (input m, level_meter_users m).

Lemma input_on_stream (m : Manager) d (f : PlaybackStream S Volume -> PlaybackStream S Volume) :
  input_of (AudioManager.on_stream m d f) = input_of m.
Proof. by destruct d. Qed.

Lemma input_playing (m : Manager) t (f : PlaybackStream S Volume -> AudioSourceId -> PlaybackStream S Volume) :
  input_of (AudioManager.playing m t f) = input_of m.
Proof.
  unfold AudioManager.playing. destruct (AudioManager.playing_on m t) as [[d id]|]; [apply input_on_stream|done].
Qed.

Lemma input_set_volumes (m : Manager) ts v : input_of (AudioManager.set_volumes m ts v) = input_of m.
Proof.
  revert m. induction ts as [|t ts IH]; intros m; [done|]. cbn. etrans; [apply IH|].
  unfold AudioManager.set_output_volume. destruct (output_source_ids m !! t);
    cbn; destruct (speaker m); try done; cbn; by destruct (speaker_source_ids m !! t).
Qed.

Lemma input_switch (m : Manager) config d opened :
  input_of (AudioManager.switch_playback_device m config d opened).2 = input_of m.
Proof.
  unfold AudioManager.switch_playback_device. destruct (bool_decide _ && _); [done|].
  destruct (AudioManager.create_playback_stream _ _ _ _ _) as [[[next st] ids]|]; [|done]. by destruct d.
Qed.

Lemma input_replace_all (m : Manager) clip sources volume :
  input_of (AudioManager.replace_ring_sources m clip sources volume).2 = input_of m.
Proof.
  unfold AudioManager.replace_ring_sources. destruct (AudioManager.ring_replacements _ _ _ _) as [l|]; [|done].
  cbn. revert m. induction l as [|[[t o] s] l IH]; intros m; [done|]. cbn [foldl]. rewrite IH.
  unfold AudioManager.replace_ring_source. destruct (AudioManager.replace_in _ _ _ _ _) as [[next st] ids].
  cbn. destruct (speaker m); [|done]. by destruct s.
Qed.

Lemma input_elsewhere (m : Manager) op : on_input op = false -> input_of (audio_step m op) = input_of m.
Proof.
  intros Hop. destruct op; try done; cbn [audio_step]; try apply input_on_stream; try apply input_playing.
  - apply input_switch.
  - unfold AudioManager.handle_playback_stream_error. destruct (negb ready); [done|].
    destruct (cooling && negb changed); [done|].
    pose proof (input_switch m config d opened) as H1.
    by destruct (AudioManager.switch_playback_device _ _ _ _).
  - destruct t; try done; cbn [AudioManager.audio_set_volume snd]; by rewrite input_set_volumes.
  - unfold AudioManager.audio_set_ring_sound, AudioManager.set_ring_sound.
    set (sources := [_; _]).
    pose proof (input_replace_all m clip sources (chime_volume config)) as H1.
    destruct (AudioManager.replace_ring_sources _ _ _ _) as [[|] m1]; cbn in H1 |- *; [|done].
    unfold AudioManager.restart. by rewrite input_playing.
  - unfold AudioManager.set_ring_sound_loop. destruct (ring_clips m !! t); [|done]. apply input_replace_all.
  - by destruct source.
  - unfold AudioManager.add_audio_source. destruct (source_fn _ _); [|done].
    cbn [PlaybackStream.add_audio_source snd]. by rewrite input_on_stream.
Qed.

Lemma meter_attach (m : Manager) config opened :
  meter_ok m -> meter_ok (AudioManager.attach_input_level_meter m config opened).2.
Proof.
  intros Hm. unfold AudioManager.attach_input_level_meter.
  destruct (match input m with Some _ => _ | None => _ end); [done|]. by destruct opened.
Qed.

Lemma meter_detach (m : Manager) : meter_ok m -> meter_ok (AudioManager.detach_input_device m).
Proof.
  intros Hm. unfold AudioManager.detach_input_device. destruct (input m) as [i|] eqn:Hi; [|done].
  destruct (receivers i =? 0)%N; [|done]. intros Hu. cbn in Hu. lia.
Qed.

(** A change of the input that leaves its kind *)
Lemma meter_changed (m : Manager) i i' : meter_ok m -> input m = Some i ->
  is_level_meter i' = is_level_meter i -> meter_ok (AudioManager.with_input m (Some i') (level_meter_users m)).
Proof.
  unfold meter_ok, AudioManager.is_input_level_meter_attached. intros Hm Hi He. rewrite Hi in Hm. cbn.
  by rewrite He.
Qed.

Lemma meter_step (m : Manager) op : meter_ok m -> meter_ok (audio_step m op).
Proof.
  intros Hm. destruct (on_input op) eqn:Hop.
  2: { pose proof (input_elsewhere m op Hop) as E. injection E as E1 E2. by apply (meter_same m). }
  destruct op; try done; cbn [audio_step].
  - unfold AudioManager.audio_set_device. destruct in_call; [done|].
    set (reattach := (_ && _) : bool). set (m1 := if reattach then _ else m).
    assert (meter_ok m1) as H1 by (subst m1; destruct reattach; [by apply meter_detach|done]).
    assert (forall (config' : Config) (m' : Manager), meter_ok m' ->
      meter_ok (if reattach then let (r, m) := AudioManager.attach_input_level_meter m' config' reopened in
        (r, config', m) else (Ok (), config', m')).2) as Hre.
    { intros config' m' Hm'. destruct reattach; [|done].
      pose proof (meter_attach m' config' reopened Hm') as Hs. by destruct (AudioManager.attach_input_level_meter _ _ _). }
    assert (forall (config' : Config) d, meter_ok (AudioManager.switch_playback_device m1 config' d opened).2) as Hsw.
    { intros config' d. pose proof (input_switch m1 config' d opened) as E. injection E as E1 E2.
      by apply (meter_same m1). }
    destruct t.
    + destruct listed; [by apply Hre|done].
    + specialize (Hsw config Output).
      destruct (AudioManager.switch_playback_device _ _ _ _) as [[|] m2]; [|done]. destruct listed; [by apply Hre|done].
    + specialize (Hsw (AudioManager.with_speaker_enabled config named) Speaker).
      destruct (AudioManager.switch_playback_device _ _ _ _) as [[|] m2]; [|done]. destruct listed; [by apply Hre|done].
  - destruct t; try done. cbn. unfold AudioManager.set_input_volume.
    destruct (input m) as [i|] eqn:Hi; [by eapply meter_changed|done].
  - unfold AudioManager.attach_input_device. destruct (input m) as [i|] eqn:Hi.
    + destruct (is_level_meter i) eqn:Hl; cbn [negb].
      * unfold meter_ok. destruct opened; cbn; lia.
      * by eapply meter_changed.
    + destruct opened; [|done]. unfold meter_ok, AudioManager.is_input_level_meter_attached in Hm.
      rewrite Hi in Hm. intros Hu. by specialize (Hm Hu).
  - unfold AudioManager.receiver_dropped. destruct (input m) as [i|] eqn:Hi; [by eapply meter_changed|done].
  - unfold AudioManager.set_input_muted. destruct (input m) as [i|] eqn:Hi; [by eapply meter_changed|done].
  - by apply meter_detach.
  - unfold AudioManager.handle_capture_error, AudioManager.discard_input_device. cbn.
    destruct (input m) as [i|] eqn:Hi; [|done]. destruct (is_level_meter i); [done|].
    intros Hu. cbn in Hu. lia.
  - unfold AudioManager.handle_level_meter_error. destruct (cooling && negb changed); [by apply meter_detach|].
    pose proof (meter_attach m config opened Hm) as H1.
    destruct (AudioManager.attach_input_level_meter _ _ _) as [[|] m1]; [done|]. by apply meter_detach.
  - unfold AudioManager.audio_start_input_level_meter, AudioManager.is_input_device_attached.
    destruct (input m) as [i|] eqn:Hi; cbn.
    + destruct (AudioManager.is_input_level_meter_attached m) eqn:Hl; [|done]. by intros _.
    + unfold AudioManager.attach_input_level_meter. rewrite Hi. by destruct opened.
  - unfold AudioManager.audio_stop_input_level_meter.
    destruct (AudioManager.is_input_level_meter_attached m) eqn:Hl; [|done]. cbn.
    assert (meter_ok (AudioManager.with_input m (input m) (level_meter_users m - 1))) as H1 by (by intros _).
    destruct (_ =? 0)%N; [by apply meter_detach|done].
Qed.

Lemma meter_reach (m m' : Manager) : meter_ok m -> reach m m' -> meter_ok m'.
Proof. intros Hm Hr. induction Hr as [|m1 op Hr IH Hop]; [done|]. by apply meter_step. Qed.

(** ** Properties of the manager *)

(** Where a sound plays on one of the streams *)
Lemma named_source next (st : PlaybackStream S Volume) ids t id :
  stream_ok next st ids -> ids !! t = Some id ->
  (sp_lost st = 0%N -> id ∈ settled st) /\ (forall t', ids !! t' = Some id -> t' = t).
Proof.
  intros [B1 _ _ B4] Hid. split; [intros Hl; by apply (B1 Hl t)|]. intros t' Ht'. by apply (B4 t' t id).
Qed.

(** C31: However the manager came to its state - devices switched, streams recovered,
    ring sounds replaced, calls and clips attached and detached - every sound plays
    somewhere: on the speaker stream exactly when there is one and the sound is a
    ring or the click, else on the output; no two sounds share a source on a stream;
    no call's source is a sound; and the source is in the mixer of its stream once
    that has worked off what was asked of it, unless its queue had overflowed. *)
Theorem every_sound_has_its_source next (config : Config) clips o1 o2 (m0 m : Manager) (t : SourceType) :
  AudioManager.new next config clips o1 o2 = Ok m0 -> reach m0 m ->
  exists d id, AudioManager.playing_on m t = Some (d, id) /\
    (d = Speaker <-> is_Some (speaker m) /\ t ∈ speaker_sounds) /\
    (sp_lost (AudioManager.stream_on m d) = 0%N -> id ∈ settled (AudioManager.stream_on m d)) /\
    (forall t', AudioManager.playing_on m t' = Some (d, id) -> t' = t) /\
    (d = Output -> id ∉ call_output_source_ids m).
Proof.
  intros Hnew Hr. pose proof (sounds_ok_reach _ _ (sounds_ok_new _ _ _ _ _ _ Hnew) Hr) as [A1 A2 A3 A4 A5].
  destruct (A2 t) as [id Hid]. destruct (named_source _ _ _ _ _ A1 Hid) as [Ho1 Ho2].
  unfold speaker_ok, AudioManager.stream_on, AudioManager.get_stream_for_playback, AudioManager.playing_on in *.
  assert (forall t', (λ id, (Output, id)) <$> output_source_ids m !! t' = Some (Output, id) -> t' = t) as Ho3.
  { intros t'. destruct (output_source_ids m !! t') as [id2|] eqn:Hs'; [|done]. intros [= ->]. by apply Ho2. }
  destruct (speaker m) as [spk|] eqn:Es; cbn.
  - destruct A3 as [B1 B2]. specialize (B2 t). destruct (speaker_source_ids m !! t) as [id'|] eqn:Hs.
    + destruct (named_source _ _ _ _ _ B1 Hs) as [Hs1 Hs2].
      exists Speaker, id'. split_and!; [done|naive_solver|done| |done].
      intros t'. destruct (speaker_source_ids m !! t') as [id2|] eqn:Hs'; [intros [= ->]; by apply Hs2|].
      by destruct (output_source_ids m !! t').
    + rewrite Hid. exists Output, id. split_and!; [done| |done| |intros _; by apply (A5 t)].
      * split; [done|]. intros [_ Ht]. apply B2 in Ht as [? [=]].
      * intros t'. destruct (speaker_source_ids m !! t'); [done|]. apply Ho3.
  - rewrite Hid. exists Output, id. split_and!; [done| |done|apply Ho3|intros _; by apply (A5 t)].
    split; [done|]. by intros [[? [=]] _].
Qed.

(** *** The meter's users over starts ([true]) and stops, when the device opens *)

Definition meter_asked (config : Config) (m : Manager) (starts : bool) : Manager :=
  audio_step m (if starts then StartMeter config (Ok ()) else StopMeter).

Definition counted (users : N) (starts : bool) : N := if starts then (users + 1)%N else (users - 1)%N.

Definition users_after (asked : list bool) : N := foldl counted 0%N asked.

(** The input is a level meter for its users, or closed. *)
Definition meter_only (m : Manager) : Prop :=
  if (0 <? level_meter_users m)%N
  then exists i, input m = Some i /\ is_level_meter i = true /\ receivers i = 0%N
  else input m = None.

Lemma meter_only_step (config : Config) (m : Manager) b : meter_only m ->
  meter_only (meter_asked config m b) /\ level_meter_users (meter_asked config m b) = counted (level_meter_users m) b.
Proof.
  unfold meter_only, meter_asked, counted. intros Hm. destruct b; cbn [audio_step];
    unfold AudioManager.audio_start_input_level_meter, AudioManager.audio_stop_input_level_meter,
      AudioManager.is_input_device_attached, AudioManager.is_input_level_meter_attached,
      AudioManager.attach_input_level_meter.
  - assert (forall n, (0 <? n + 1)%N = true) as Hpos by (intros n; apply N.ltb_lt; lia).
    destruct (0 <? level_meter_users m)%N; [destruct Hm as (i & Hi & Hl & Hr)|rename Hm into Hi]; rewrite Hi; cbn.
    + rewrite Hl. cbn. rewrite Hpos. eauto.
    + rewrite Hpos. eauto.
  - destruct (N.ltb_spec 0 (level_meter_users m)) as [Hn|Hn].
    + destruct Hm as (i & Hi & Hl & Hr). rewrite Hi, Hl. cbn. rewrite Hi.
      unfold AudioManager.detach_input_device.
      destruct (N.eqb_spec (level_meter_users m - 1) 0) as [E|E]; cbn; [by rewrite Hr, E|].
      replace (0 <? level_meter_users m - 1)%N with true by (symmetry; apply N.ltb_lt; lia). eauto.
    + rewrite Hm. cbn. replace (0 <? level_meter_users m)%N with false by (symmetry; apply N.ltb_ge; lia).
      split; [done|lia].
Qed.

Lemma meter_only_steps (config : Config) asked (m : Manager) : meter_only m ->
  meter_only (foldl (meter_asked config) m asked) /\
  level_meter_users (foldl (meter_asked config) m asked) = foldl counted (level_meter_users m) asked.
Proof.
  revert m. induction asked as [|b l IH]; intros m Hm; [done|]. cbn [foldl].
  destruct (meter_only_step config m b Hm) as [Hm' <-]. by apply IH.
Qed.

(** Without a call the input device is open, as a level meter, exactly as long as
    somebody shows the meter: over any starts and stops the users are counted, a stop
    too many is ignored, every start makes its caller a user, and the last stop closes
    the device. While a call has the input, starts and stops change nothing and a
    start says that the caller is no user. *)
Theorem meter_follows_users (config : Config) (m : Manager) (asked : list bool) :
  let m' := foldl (meter_asked config) m asked in
  (input m = None -> level_meter_users m = 0%N ->
   level_meter_users m' = users_after asked /\
   (AudioManager.is_input_level_meter_attached m' = true <-> (0 < users_after asked)%N) /\
   (AudioManager.is_input_device_attached m' = true <-> (0 < users_after asked)%N) /\
   (AudioManager.audio_start_input_level_meter m' config (Ok ())).1 = Ok true) /\
  (forall i, input m = Some i -> is_level_meter i = false ->
   m' = m /\ (AudioManager.audio_start_input_level_meter m' config (Ok ())).1 = Ok false).
Proof.
  cbn. split.
  - intros Hi Hu.
    assert (meter_only m) as Hm by (unfold meter_only; by rewrite Hu).
    destruct (meter_only_steps config asked m Hm) as [Hm' Hu']. rewrite Hu in Hu'.
    fold (users_after asked) in Hu'. set (m' := foldl _ m asked) in *. split; [done|].
    unfold meter_only in Hm'. rewrite Hu' in Hm'.
    unfold AudioManager.audio_start_input_level_meter, AudioManager.is_input_device_attached,
      AudioManager.is_input_level_meter_attached, AudioManager.attach_input_level_meter.
    destruct (N.ltb_spec 0 (users_after asked)) as [Hn|Hn].
    + destruct Hm' as (i & -> & Hl & _). cbn. by rewrite Hl.
    + rewrite Hm'. cbn. split_and!; [split; [done|lia]..|done].
  - intros i Hi Hl.
    assert (forall b, meter_asked config m b = m) as Hb.
    { intros b. unfold meter_asked. destruct b; cbn [audio_step];
        unfold AudioManager.audio_start_input_level_meter, AudioManager.audio_stop_input_level_meter,
          AudioManager.is_input_device_attached, AudioManager.is_input_level_meter_attached;
        rewrite Hi; cbn; by rewrite Hl. }
    assert (foldl (meter_asked config) m asked = m) as ->
      by (clear - Hb; induction asked as [|b l IH]; [done|]; cbn [foldl]; by rewrite Hb).
    split; [done|].
    unfold AudioManager.audio_start_input_level_meter, AudioManager.is_input_device_attached,
      AudioManager.is_input_level_meter_attached. rewrite Hi. cbn. by rewrite Hl.
Qed.
End runs.

(** ** Properties of a stream *)

Section streams.
Context {S Volume Sample : Type} `{AudioSource S Volume Sample} {HO : HashOrder}.

(** The control side asks for an operation, or the device wants samples. *)
Inductive Happened :=
| Asked (op : MixerOp S Volume)
| Heard (samples : nat).

Definition happen (st : PlaybackStream S Volume) (h : Happened) : PlaybackStream S Volume :=
  match h with
  | Asked op => PlaybackStream.push st op
  | Heard samples => (PlaybackStream.data_callback st samples).2
  end.

Definition asked (hs : list Happened) : list (MixerOp S Volume) :=
  omap (λ h, match h with Asked op => Some op | Heard _ => None end) hs.

Lemma happen_bounded st h : (length (sp_ops st) <= MIXER_OPS_CAPACITY)%nat ->
  (length (sp_ops (happen st h)) <= MIXER_OPS_CAPACITY)%nat.
Proof.
  intros Hb. destruct h as [op|samples]; cbn [happen].
  - unfold PlaybackStream.push. destruct (Nat.ltb_spec (length (sp_ops st)) MIXER_OPS_CAPACITY); [|done].
    cbn [sp_ops]. rewrite length_app. cbn. lia.
  - rewrite callback_ops, length_drop. lia.
Qed.

Lemma happen_lost st h : (sp_lost st <= sp_lost (happen st h))%N.
Proof.
  destruct h as [op|samples]; cbn [happen].
  - unfold PlaybackStream.push. destruct (_ <? _)%nat; cbn; lia.
  - unfold PlaybackStream.data_callback. destruct (Mixer.mix _ _). cbn. lia.
Qed.

Lemma happened_all hs (st : PlaybackStream S Volume) : (length (sp_ops st) <= MIXER_OPS_CAPACITY)%nat ->
  (length (sp_ops (foldl happen st hs)) <= MIXER_OPS_CAPACITY)%nat /\
  (sp_lost st <= sp_lost (foldl happen st hs))%N /\
  (sp_lost (foldl happen st hs) = 0%N -> settled (foldl happen st hs) = foldl settle (settled st) (asked hs)).
Proof.
  revert st. induction hs as [|h hs IH]; intros st Hb; [done|]. cbn [foldl].
  destruct (IH (happen st h) (happen_bounded st h Hb)) as (H1 & H2 & H3). pose proof (happen_lost st h) as Hl.
  split_and!; [done|lia|]. intros H0. rewrite (H3 H0). destruct h as [op|samples]; cbn [happen asked omap].
  - destruct (push_settled st op) as [Hs _]. cbn. rewrite (proj2 (Hs ltac:(cbn in *; lia))). done.
  - cbn. by rewrite (ss_settled _ _ (callback_same st samples)).
Qed.

Lemma callbacks_empty (callbacks : list nat) (st : PlaybackStream S Volume) :
  (length (sp_ops st) <= MIXER_OPS_PER_DATA_CALLBACK * length callbacks)%nat ->
  sp_ops (foldl happen st (map Heard callbacks)) = [].
Proof.
  revert st. induction callbacks as [|n l IH]; intros st Hb; cbn in Hb |- *.
  - destruct (sp_ops st); [done|cbn in Hb; lia].
  - apply IH. cbn [happen]. rewrite callback_ops, length_drop. unfold MIXER_OPS_PER_DATA_CALLBACK in *. lia.
Qed.

End streams.

(** ** A device of numbers: a source adds its number to every sample while it plays *)

#[local] Instance tone_source : AudioSource (N * bool) N N := {|
  equilibrium := 0%N;
  clamp (s : N) := N.min s 255;
  mix_into (s : N * bool) (out : list N) := (s, map (λ v, if s.2 then (v + s.1)%N else v) out);
  src_start (s : N * bool) := (s.1, true);
  src_stop (s : N * bool) := (s.1, false);
  src_restart (s : N * bool) := (s.1, true);
  src_set_volume (v : N) (s : N * bool) := (v, s.2);
  src_skip _ s := s;
  src_rewind _ s := s
|}.

#[local] Instance tones : Sounds (N * bool) N N := {|
  waveform _ _ _ volume := (volume, false);
  wav_source clip _ _ _ volume := if (clip =? 0)%N then Err "empty"%string else Ok (volume, false)
|}.

#[local] Existing Instance listed_order.

Definition settings : AudioConfig N := mkAudioConfig true 10%N 20%N 30%N 40%N true false None.

Definition both_streams : AudioManager (N * bool) N N :=
  match AudioManager.new 1%N settings ∅ (Ok (48000%N, 2%N)) (Ok (44100%N, 1%N)) with
  | Ok m => m
  | Err _ => mkAudioManager (PlaybackStream.start (0%N, 0%N)) None None ∅ ∅ ∅ 0%N ∅ 0%N
  end.

(** A ring is started, the output is invalidated during a call, a file replaces the ring. *)
Definition a_day : list (AudioOp (S := N * bool) (Volume := N) (Clip := N)) :=
  [StartSound Ring; Callback Speaker 4; AttachCall (Ok (7%N, true)); Callback Output 4;
   StreamError true true false (Some "call"%string) settings Output (Ok (48000%N, 1%N));
   SetRing settings RST_Ring (Some 5%N); Callback Speaker 2; Callback Output 2].

Lemma every_sound_has_its_source_witness :
  AudioManager.new 1%N settings ∅ (Ok (48000%N, 2%N)) (Ok (44100%N, 1%N)) = Ok both_streams /\
  AudioManager.playing_on (foldl audio_step both_streams a_day) Ring = Some (Speaker, 30%N) /\
  exists d id, AudioManager.playing_on (foldl audio_step both_streams a_day) Ring = Some (d, id) /\
    (d = Speaker <-> is_Some (speaker (foldl audio_step both_streams a_day)) /\ Ring ∈ speaker_sounds) /\
    (sp_lost (AudioManager.stream_on (foldl audio_step both_streams a_day) d) = 0%N ->
       id ∈ settled (AudioManager.stream_on (foldl audio_step both_streams a_day) d)) /\
    (forall t', AudioManager.playing_on (foldl audio_step both_streams a_day) t' = Some (d, id) -> t' = Ring) /\
    (d = Output -> id ∉ call_output_source_ids (foldl audio_step both_streams a_day)).
Proof.
  split; [by vm_compute|]. split; [by vm_compute|].
  apply (every_sound_has_its_source 1%N settings ∅ (Ok (48000%N, 2%N)) (Ok (44100%N, 1%N)) both_streams);
    [by vm_compute|].
  cbn [foldl a_day]. repeat (apply reach_step; [|exact I]). apply reach_refl.
Defined.

Lemma meter_follows_users_witness :
  users_after [false; true; true; false] = 1%N /\
  let m' := foldl (meter_asked settings) both_streams [false; true; true; false] in
  level_meter_users m' = 1%N /\ AudioManager.is_input_level_meter_attached m' = true.
Proof.
  split; [done|]. cbn zeta.
  destruct (proj1 (meter_follows_users settings both_streams [false; true; true; false]))
    as (Hu & Hm & _); [by vm_compute|by vm_compute|].
  split; [exact Hu|]. apply Hm. by vm_compute.
Defined.

Definition two_clips : list (Happened (S := N * bool) (Volume := N)) :=
  [Asked (AddSource 1%N (3%N, true)); Heard 2; Asked (AddSource 2%N (4%N, false)); Asked (RemoveSource 1%N)].


(** ** What modelling showed *)

Section showed.
Context {S Volume Sample Clip : Type} `{AudioSource S Volume Sample} `{Sounds S Volume Clip}.
Context {HO : HashOrder}.

(** To choose another input device while the meter is shown forgets who shows it: the
    meter runs on for nobody, and of two who show it the first to stop closes it. *)
Lemma device_switch_forgets_users (config : AudioConfig Volume) (m : AudioManager S Volume Clip) i named opened :
  input m = Some i -> is_level_meter i = true -> receivers i = 0%N ->
  let m1 := audio_step m (SetDevice config false AudioManager.CAD_Input named opened (Ok ()) (Ok ())) in
  let m2 := audio_step m1 StopMeter in
  AudioManager.is_input_level_meter_attached m1 = true /\ level_meter_users m1 = 0%N /\
  (AudioManager.audio_stop_input_level_meter m1).1 = [AudioManager.EmitStopInputLevelMeter] /\
  AudioManager.is_input_device_attached m2 = false.
Proof.
  intros Hi Hl Hr. cbn -[AudioManager.audio_set_device].
  assert ((AudioManager.audio_set_device m config false AudioManager.CAD_Input named opened (Ok ()) (Ok ())).2 =
    AudioManager.with_input m (Some (mkCaptureStream true 0 false (input_device_volume config))) 0) as ->.
  { unfold AudioManager.audio_set_device, AudioManager.is_input_device_attached. rewrite Hi. cbn.
    unfold AudioManager.detach_input_device. rewrite Hi, Hr. done. }
  done.
Qed.

(** A level meter that waits out its cooldown to recover comes back also when nobody
    shows it any more: the microphone stays open. *)
Lemma meter_restarts_unused (config : AudioConfig Volume) (m : AudioManager S Volume Clip) cooling :
  input m = None -> level_meter_users m = 0%N ->
  let m' := audio_step m (MeterError true cooling config (Ok ())) in
  AudioManager.is_input_device_attached m' = true /\ level_meter_users m' = 0%N.
Proof.
  intros Hi Hu. cbn. unfold AudioManager.handle_level_meter_error, AudioManager.attach_input_level_meter.
  rewrite Hi. destruct cooling; done.
Qed.
End showed.
