(* ===== verification/Remote.v ===== *)
(** Remote: the remote control of the desktop client, [vacs-client/src/remote/server.rs]
    and [remote/protocol.rs]: the commands and events of its protocol, the dispatch of a
    command, a connection with its forwarder, and the server with its generations.

    JSON values, the decoding of arguments and what most commands do are arguments; the
    input level meter, whose users a connection counts, is that of [Audio.v]. *)
From stdpp Require Import prelude gmap strings list.
From Stdlib Require Import NArith.
From S2P Require Import Prelude Audio.

(** ** The protocol *)

Inductive RemoteCommand :=
| AppFrontendReady | AppOpenFolder | AppOpenUrl | AppCheckForUpdate | AppQuit | AppUpdate
| AppPlatformCapabilities | AppSetAlwaysOnTop | AppSetFullscreen | AppResetWindowSize
| AppGetCallConfig | AppSetCallConfig | AppLoadTestProfile | AppUnloadTestProfile
| AppGetClientPageSettings | AppSetSelectedClientPageConfig | AppLoadExtraClientPageConfig
| AppGetVersion | AppGetClockMode | AppSetClockMode | AppGetCplMode | AppSetCplMode
| AppSetSplitProfileWidth | AudioGetHosts | AudioSetHost | AudioGetDevices | AudioSetDevice
| AudioGetVolumes | AudioSetVolume | AudioGetRingSounds | AudioPickRingSound | AudioSetRingSound
| AudioSetRingSoundLoop | AudioPlayUiClick | AudioStartInputLevelMeter | AudioStopInputLevelMeter
| AudioSetRadioPrio | AuthOpenOauthUrl | AuthCheckSession | AuthLogout | KeybindsGetTransmitConfig
| KeybindsSetTransmitConfig | KeybindsGetKeybindsConfig | KeybindsSetBinding
| KeybindsCaptureJoystickButton | KeybindsCancelJoystickCapture | KeybindsListJoystickDevices
| KeybindsSetIgnoredJoysticks | KeybindsGetExternalBinding | KeybindsOpenSystemShortcutsSettings
| KeybindsIsPortalShortcutBound | PlaybackGetEnabled | PlaybackSetEnabled | PlaybackList
| PlaybackDelete | PlaybackClear | PlaybackStart | PlaybackPause | PlaybackContinue | PlaybackStop
| PlaybackSeek | PlaybackExport | PlaybackSayAgain | RadioAddStation | RadioFastCouple
| RadioGetConfig | RadioReconnect | RadioSetConfig | RadioSetStationState | RadioGetStations
| RadioGetState | RemoteBroadcastStoreSync | RemoteGetConfig | RemoteGetSessionState
| RemoteIsEnabled | RemoteRequestStoreSync | SignalingConnect | SignalingDisconnect
| SignalingDropTarget | SignalingTerminate | SignalingInviteToCall | SignalingAcceptCall
| SignalingEndCall | SignalingGetIgnoredClients | SignalingAddIgnoredClient
| SignalingRemoveIgnoredClient.

Definition is_desktop_only (c : RemoteCommand) : bool :=
  match c with
  | AppOpenFolder | AppOpenUrl | AppQuit | AppUpdate | AppSetAlwaysOnTop | AppSetFullscreen
  | AppResetWindowSize | AppLoadExtraClientPageConfig | AudioPickRingSound | AuthOpenOauthUrl
  | KeybindsOpenSystemShortcutsSettings => true
  | _ => false
  end.

Inductive RemoteEvent :=
| Ev_AudioImplicitRadioPrio | Ev_AudioInputLevel | Ev_AudioRadioPrio | Ev_AudioStopInputLevelMeter
| Ev_AuthAuthenticated | Ev_AuthError | Ev_AuthUnauthenticated | Ev_Error
| Ev_PlaybackClipsModified | Ev_PlaybackProgress | Ev_RadioState | Ev_RadioStationAdded
| Ev_RadioStationRemoved | Ev_RadioStationUpdated | Ev_RadioStationsSynced | Ev_RemoteStatus
| Ev_SignalingAcceptIncomingCall | Ev_SignalingAddIncomingToCallList
| Ev_SignalingAmbiguousPosition | Ev_SignalingCallEnd | Ev_SignalingCallInvitation
| Ev_SignalingCallReject | Ev_SignalingCallUpdate | Ev_SignalingClientConnected
| Ev_SignalingClientDisconnected | Ev_SignalingClientList | Ev_SignalingClientNotFound
| Ev_SignalingClientPageConfig | Ev_SignalingConnected | Ev_SignalingDisconnected
| Ev_SignalingForceCallEnd | Ev_SignalingOutgoingCall | Ev_SignalingReconnecting
| Ev_SignalingStationChanges | Ev_SignalingStationList | Ev_SignalingTestProfile
| Ev_StoreSyncRequest | Ev_UpdateProgress | Ev_WebrtcCallConnected | Ev_WebrtcCallDegraded
| Ev_WebrtcCallDisconnected | Ev_WebrtcCallReconnecting | Ev_StoreSync | Ev_WebrtcCallError.

Module RemoteEvent.

Definition ALL : list RemoteEvent :=
  [Ev_AudioImplicitRadioPrio; Ev_AudioInputLevel; Ev_AudioRadioPrio; Ev_AudioStopInputLevelMeter;
   Ev_AuthAuthenticated; Ev_AuthError; Ev_AuthUnauthenticated; Ev_Error; Ev_PlaybackClipsModified;
   Ev_PlaybackProgress; Ev_RadioState; Ev_RadioStationAdded; Ev_RadioStationRemoved;
   Ev_RadioStationUpdated; Ev_RadioStationsSynced; Ev_RemoteStatus; Ev_SignalingAcceptIncomingCall;
   Ev_SignalingAddIncomingToCallList; Ev_SignalingAmbiguousPosition; Ev_SignalingCallEnd;
   Ev_SignalingCallInvitation; Ev_SignalingCallReject; Ev_SignalingCallUpdate;
   Ev_SignalingClientConnected; Ev_SignalingClientDisconnected; Ev_SignalingClientList;
   Ev_SignalingClientNotFound; Ev_SignalingClientPageConfig; Ev_SignalingConnected;
   Ev_SignalingDisconnected; Ev_SignalingForceCallEnd; Ev_SignalingOutgoingCall;
   Ev_SignalingReconnecting; Ev_SignalingStationChanges; Ev_SignalingStationList;
   Ev_SignalingTestProfile; Ev_StoreSync; Ev_StoreSyncRequest; Ev_UpdateProgress;
   Ev_WebrtcCallConnected; Ev_WebrtcCallDegraded; Ev_WebrtcCallDisconnected; Ev_WebrtcCallError;
   Ev_WebrtcCallReconnecting].

Definition as_str (e : RemoteEvent) : string :=
  match e with
  | Ev_AudioImplicitRadioPrio => "audio:implicit-radio-prio"
  | Ev_AudioInputLevel => "audio:input-level"
  | Ev_AudioRadioPrio => "audio:radio-prio"
  | Ev_AudioStopInputLevelMeter => "audio:stop-input-level-meter"
  | Ev_AuthAuthenticated => "auth:authenticated"
  | Ev_AuthError => "auth:error"
  | Ev_AuthUnauthenticated => "auth:unauthenticated"
  | Ev_Error => "error"
  | Ev_PlaybackClipsModified => "playback:clips-modified"
  | Ev_PlaybackProgress => "playback:progress"
  | Ev_RadioState => "radio:state"
  | Ev_RadioStationAdded => "radio:station-added"
  | Ev_RadioStationRemoved => "radio:station-removed"
  | Ev_RadioStationUpdated => "radio:station-updated"
  | Ev_RadioStationsSynced => "radio:stations-synced"
  | Ev_RemoteStatus => "remote:status"
  | Ev_SignalingAcceptIncomingCall => "signaling:accept-incoming-call"
  | Ev_SignalingAddIncomingToCallList => "signaling:add-incoming-to-call-list"
  | Ev_SignalingAmbiguousPosition => "signaling:ambiguous-position"
  | Ev_SignalingCallEnd => "signaling:call-end"
  | Ev_SignalingCallInvitation => "signaling:call-invitation"
  | Ev_SignalingCallReject => "signaling:call-reject"
  | Ev_SignalingCallUpdate => "signaling:call-update"
  | Ev_SignalingClientConnected => "signaling:client-connected"
  | Ev_SignalingClientDisconnected => "signaling:client-disconnected"
  | Ev_SignalingClientList => "signaling:client-list"
  | Ev_SignalingClientNotFound => "signaling:client-not-found"
  | Ev_SignalingClientPageConfig => "signaling:client-page-config"
  | Ev_SignalingConnected => "signaling:connected"
  | Ev_SignalingDisconnected => "signaling:disconnected"
  | Ev_SignalingForceCallEnd => "signaling:force-call-end"
  | Ev_SignalingOutgoingCall => "signaling:outgoing-call"
  | Ev_SignalingReconnecting => "signaling:reconnecting"
  | Ev_SignalingStationChanges => "signaling:station-changes"
  | Ev_SignalingStationList => "signaling:station-list"
  | Ev_SignalingTestProfile => "signaling:test-profile"
  | Ev_StoreSync => "store:sync"
  | Ev_StoreSyncRequest => "store:sync:request"
  | Ev_UpdateProgress => "update:progress"
  | Ev_WebrtcCallConnected => "webrtc:call-connected"
  | Ev_WebrtcCallDegraded => "webrtc:call-degraded"
  | Ev_WebrtcCallDisconnected => "webrtc:call-disconnected"
  | Ev_WebrtcCallReconnecting => "webrtc:call-reconnecting"
  | Ev_WebrtcCallError => "webrtc:call-error"
  end%string.

(** Where the event stands in [ALL], for equality and sets *)
Definition index (e : RemoteEvent) : nat :=
  match e with
  | Ev_AudioImplicitRadioPrio => 0
  | Ev_AudioInputLevel => 1
  | Ev_AudioRadioPrio => 2
  | Ev_AudioStopInputLevelMeter => 3
  | Ev_AuthAuthenticated => 4
  | Ev_AuthError => 5
  | Ev_AuthUnauthenticated => 6
  | Ev_Error => 7
  | Ev_PlaybackClipsModified => 8
  | Ev_PlaybackProgress => 9
  | Ev_RadioState => 10
  | Ev_RadioStationAdded => 11
  | Ev_RadioStationRemoved => 12
  | Ev_RadioStationUpdated => 13
  | Ev_RadioStationsSynced => 14
  | Ev_RemoteStatus => 15
  | Ev_SignalingAcceptIncomingCall => 16
  | Ev_SignalingAddIncomingToCallList => 17
  | Ev_SignalingAmbiguousPosition => 18
  | Ev_SignalingCallEnd => 19
  | Ev_SignalingCallInvitation => 20
  | Ev_SignalingCallReject => 21
  | Ev_SignalingCallUpdate => 22
  | Ev_SignalingClientConnected => 23
  | Ev_SignalingClientDisconnected => 24
  | Ev_SignalingClientList => 25
  | Ev_SignalingClientNotFound => 26
  | Ev_SignalingClientPageConfig => 27
  | Ev_SignalingConnected => 28
  | Ev_SignalingDisconnected => 29
  | Ev_SignalingForceCallEnd => 30
  | Ev_SignalingOutgoingCall => 31
  | Ev_SignalingReconnecting => 32
  | Ev_SignalingStationChanges => 33
  | Ev_SignalingStationList => 34
  | Ev_SignalingTestProfile => 35
  | Ev_StoreSync => 36
  | Ev_StoreSyncRequest => 37
  | Ev_UpdateProgress => 38
  | Ev_WebrtcCallConnected => 39
  | Ev_WebrtcCallDegraded => 40
  | Ev_WebrtcCallDisconnected => 41
  | Ev_WebrtcCallError => 42
  | Ev_WebrtcCallReconnecting => 43
  end.

#[global] Instance eq_dec : EqDecision RemoteEvent.
Proof. solve_decision. Defined.
#[global] Instance countable : Countable RemoteEvent.
Proof. refine (inj_countable index (λ n, ALL !! n) _). by intros []. Defined.

Definition from_str (s : string) : option RemoteEvent :=
  snd <$> list_find (λ e, as_str e = s) ALL.
End RemoteEvent.

(** *** Problems *)

Inductive ProblemType := DesktopOnly | InvalidArgument | InvalidMessage | Timeout | ApplicationError.

Record FrontendError := mkFrontendError {
  fe_title : string;
  fe_detail : string;
  fe_is_non_critical : bool;
  fe_timeout_ms : option N
}.

Record ProblemDetails := mkProblemDetails {
  problem_type : ProblemType;
  title : string;
  detail : string;
  is_non_critical : bool;
  timeout_ms : option N
}.

Module Problem.
Open Scope string_scope.

Definition as_str (p : ProblemType) : string :=
  match p with
  | DesktopOnly => "urn:vacs:error:remote:desktop-only"
  | InvalidArgument => "urn:vacs:error:remote:invalid-argument"
  | InvalidMessage => "urn:vacs:error:remote:invalid-message"
  | Timeout => "urn:vacs:error:remote:timeout"
  | ApplicationError => "urn:vacs:error:remote:application"
  end.

Definition new (p : ProblemType) (title detail : string) : ProblemDetails :=
  mkProblemDetails p title detail false None.

Definition non_critical (p : ProblemDetails) : ProblemDetails :=
  mkProblemDetails (problem_type p) (title p) (detail p) true (timeout_ms p).

Definition desktop_only : ProblemDetails :=
  non_critical (new DesktopOnly "Desktop only" "This operation is only available on the desktop application").

Definition invalid_argument (key reason : string) : ProblemDetails :=
  non_critical (new InvalidArgument "Invalid argument"
    ("Failed to parse argument '" ++ key ++ "': " ++ reason)).

Definition invalid_message : ProblemDetails :=
  non_critical (new InvalidMessage "Invalid message"
    "The message could not be parsed; it may use an unknown command or be malformed").

Definition timeout : ProblemDetails :=
  non_critical (new Timeout "Timeout" "The command did not complete within the time limit").

Definition from_error (e : FrontendError) : ProblemDetails :=
  mkProblemDetails ApplicationError (fe_title e) (fe_detail e) (fe_is_non_critical e) (fe_timeout_ms e).
End Problem.

(** *** JSON and messages *)

(** The JSON library: [parses] says why the value is no argument of the command under
    that key, and [meter_of] reads the answer that [meter_json] wrote. *)
Class Json (J : Type) := {
  null : J;
  member : string -> J -> option J;
  parses : RemoteCommand -> string -> J -> Result () string;
  is_null : J -> bool;
  meter_json : bool -> J;
  meter_of : J -> option bool;
  meter_of_json b : meter_of (meter_json b) = Some b;
  status_json : bool -> N -> J;
  store_sync_json : J -> J -> J -> J
}.

Inductive ClientMessage (J : Type) :=
| Invoke (id : string) (cmd : RemoteCommand) (args : J)
| Subscribe (event : RemoteEvent)
| Unsubscribe (event : RemoteEvent)
| Ping.
Arguments Invoke {J} id cmd args.
Arguments Subscribe {J} event.
Arguments Unsubscribe {J} event.
Arguments Ping {J}.

Inductive ServerMessage (J : Type) :=
| Response (id : string) (ok : bool) (data : option J) (error : option ProblemDetails)
| Event (name : RemoteEvent) (payload : J)
| Pong
| WsPong (data : list Byte.byte).
Arguments Response {J} id ok data error.
Arguments Event {J} name payload.
Arguments Pong {J}.
Arguments WsPong {J} data.

Module ServerMessage.

Definition ok {J : Type} (id : string) (data : J) : ServerMessage J := Response id true (Some data) None.
Definition err {J : Type} (id : string) (error : ProblemDetails) : ServerMessage J :=
  Response id false None (Some error).
End ServerMessage.

(** ** The dispatch of a command *)

(** What a command's arm of the dispatch does: a handler of the desktop with the
    arguments that it takes, in the order in which they are decoded, or one of the few
    that are answered on the spot *)
Inductive Arm :=
| Handler (keys : list string)
| FrontendReady
| LoadTestProfile
| StartLevelMeter
| StopLevelMeter
| BroadcastStoreSync
| RequestStoreSync
| Unreachable.

Module Dispatch.
Open Scope string_scope.

Definition app_arm (c : RemoteCommand) : option Arm :=
  match c with
  | AppFrontendReady => Some FrontendReady
  | AppCheckForUpdate | AppPlatformCapabilities | AppGetCallConfig | AppUnloadTestProfile
  | AppGetClientPageSettings | AppGetVersion | AppGetClockMode | AppGetCplMode => Some (Handler [])
  | AppSetCallConfig => Some (Handler ["callConfig"])
  | AppLoadTestProfile => Some LoadTestProfile
  | AppSetSelectedClientPageConfig => Some (Handler ["configName"])
  | AppSetClockMode => Some (Handler ["clockMode"])
  | AppSetCplMode => Some (Handler ["cplMode"])
  | AppSetSplitProfileWidth => Some (Handler ["profileId"; "width"])
  | _ => None
  end.

Definition audio_arm (c : RemoteCommand) : option Arm :=
  match c with
  | AudioGetHosts | AudioGetVolumes | AudioGetRingSounds | AudioPickRingSound | AudioPlayUiClick =>
    Some (Handler [])
  | AudioSetHost => Some (Handler ["hostName"])
  | AudioGetDevices => Some (Handler ["deviceType"])
  | AudioSetDevice => Some (Handler ["deviceType"; "deviceName"])
  | AudioSetVolume => Some (Handler ["volumeType"; "volume"])
  | AudioSetRingSound => Some (Handler ["ringType"; "path"])
  | AudioSetRingSoundLoop => Some (Handler ["ringType"; "enabled"])
  | AudioStartInputLevelMeter => Some StartLevelMeter
  | AudioStopInputLevelMeter => Some StopLevelMeter
  | AudioSetRadioPrio => Some (Handler ["prio"])
  | AuthCheckSession | AuthLogout => Some (Handler [])
  | _ => None
  end.

Definition keybinds_arm (c : RemoteCommand) : option Arm :=
  match c with
  | KeybindsGetTransmitConfig | KeybindsGetKeybindsConfig | KeybindsListJoystickDevices =>
    Some (Handler [])
  | KeybindsSetTransmitConfig => Some (Handler ["transmitConfig"])
  | KeybindsSetBinding => Some (Handler ["input"; "keybind"])
  | KeybindsCaptureJoystickButton | KeybindsCancelJoystickCapture => Some (Handler ["captureId"])
  | KeybindsSetIgnoredJoysticks => Some (Handler ["devices"])
  | KeybindsGetExternalBinding | KeybindsIsPortalShortcutBound => Some (Handler ["keybind"])
  | _ => None
  end.

Definition playback_arm (c : RemoteCommand) : option Arm :=
  match c with
  | PlaybackGetEnabled | PlaybackList | PlaybackClear | PlaybackPause | PlaybackContinue
  | PlaybackStop => Some (Handler [])
  | PlaybackSetEnabled => Some (Handler ["enabled"])
  | PlaybackDelete | PlaybackExport => Some (Handler ["id"])
  | PlaybackStart => Some (Handler ["id"; "deviceType"; "initialProgress"; "startPaused"])
  | PlaybackSeek => Some (Handler ["millis"])
  | PlaybackSayAgain => Some (Handler ["deviceType"])
  | _ => None
  end.

Definition radio_arm (c : RemoteCommand) : option Arm :=
  match c with
  | RadioAddStation => Some (Handler ["callsign"])
  | RadioFastCouple | RadioGetConfig | RadioReconnect | RadioGetStations | RadioGetState =>
    Some (Handler [])
  | RadioSetConfig => Some (Handler ["radioConfig"])
  | RadioSetStationState => Some (Handler ["frequency"; "update"])
  | _ => None
  end.

Definition signaling_arm (c : RemoteCommand) : option Arm :=
  match c with
  | SignalingConnect => Some (Handler ["positionId"])
  | SignalingDisconnect | SignalingTerminate | SignalingGetIgnoredClients => Some (Handler [])
  | SignalingDropTarget => Some (Handler ["callId"; "target"])
  | SignalingInviteToCall => Some (Handler ["targets"; "source"; "prio"])
  | SignalingAcceptCall | SignalingEndCall => Some (Handler ["callId"])
  | SignalingAddIgnoredClient | SignalingRemoveIgnoredClient => Some (Handler ["clientId"])
  | _ => None
  end.

Definition remote_arm (c : RemoteCommand) : option Arm :=
  match c with
  | RemoteBroadcastStoreSync => Some BroadcastStoreSync
  | RemoteRequestStoreSync => Some RequestStoreSync
  | RemoteIsEnabled | RemoteGetConfig | RemoteGetSessionState => Some (Handler [])
  | _ => None
  end.

Definition arm (c : RemoteCommand) : Arm :=
  match app_arm c, audio_arm c, keybinds_arm c, playback_arm c, radio_arm c, signaling_arm c, remote_arm c with
  | Some a, _, _, _, _, _, _ | None, Some a, _, _, _, _, _ | None, None, Some a, _, _, _, _
  | None, None, None, Some a, _, _, _ | None, None, None, None, Some a, _, _
  | None, None, None, None, None, Some a, _ | None, None, None, None, None, None, Some a => a
  | None, None, None, None, None, None, None => Unreachable
  end.

(** Arms that cannot be interrupted, since they wait for nothing *)
Definition immediate (c : RemoteCommand) : bool :=
  is_desktop_only c ||
  match c with
  | AppFrontendReady | AppGetVersion | AudioStopInputLevelMeter
  | RemoteBroadcastStoreSync | RemoteRequestStoreSync => true
  | _ => false
  end.
End Dispatch.

(** ** The desktop and the commands *)

Record Desktop (S Volume Clip D : Type) := mkDesktop {
  manager : AudioManager S Volume Clip;
  audio_config : AudioConfig Volume;
  rest : D
}.
Arguments mkDesktop {S Volume Clip D}.
Arguments manager {S Volume Clip D}.
Arguments audio_config {S Volume Clip D}.
Arguments rest {S Volume Clip D}.

(** What the handlers of the commands do with the desktop, to their end or, when the
    time is up, up to where they were interrupted; the events they emit *)
Class Handlers (J S Volume Clip D : Type) := {
  run : RemoteCommand -> J -> Desktop S Volume Clip D ->
    Result J FrontendError * list (RemoteEvent * J) * Desktop S Volume Clip D;
  run_interrupted : RemoteCommand -> J -> Desktop S Volume Clip D ->
    list (RemoteEvent * J) * Desktop S Volume Clip D;
  audio_error : string -> FrontendError
}.

Section remote.
Context {J S Volume Sample Clip D : Type} `{Json J} `{AudioSource S Volume Sample} `{Sounds S Volume Clip}.
Context `{Handlers J S Volume Clip D} {HO : HashOrder}.
Abbreviation Desk := (Desktop S Volume Clip D).
Abbreviation Emitted := (list (RemoteEvent * J)).

Definition with_manager (d : Desk) (m : AudioManager S Volume Clip) : Desk :=
  mkDesktop m (audio_config d) (rest d).

Definition DispatchResult := Result J ProblemDetails.

(** [DispatchResult::with_id] *)
Definition with_id (r : DispatchResult) (id : string) : ServerMessage J :=
  match r with
  | Ok data => ServerMessage.ok id data
  | Err error => ServerMessage.err id error
  end.

Definition dispatch (r : Result J FrontendError) : DispatchResult :=
  match r with Ok v => Ok v | Err e => Err (Problem.from_error e) end.

Definition argument (args : J) (key : string) : J := default null (member key args).

(** The macro [args!]: the first argument that cannot be decoded is the answer. *)
Fixpoint args_problem (c : RemoteCommand) (args : J) (keys : list string) : option ProblemDetails :=
  match keys with
  | [] => None
  | key :: keys =>
    match parses c key (argument args key) with
    | Err reason => Some (Problem.invalid_argument key reason)
    | Ok _ => args_problem c args keys
    end
  end.

Definition call (c : RemoteCommand) (args : J) (keys : list string) (d : Desk) :
    DispatchResult * Emitted * Desk :=
  match args_problem c args keys with
  | Some problem => (Err problem, [], d)
  | None => let '(r, emitted, d) := run c args d in (dispatch r, emitted, d)
  end.

Definition meter_events (effects : list AudioManager.AudioEffect) : Emitted :=
  omap (λ e, match e with
             | AudioManager.EmitStopInputLevelMeter => Some (Ev_AudioStopInputLevelMeter, null)
             | _ => None
             end) effects.

(** [opened]: the capture device could be opened, if it is asked to. [None] is the
    panic of [unreachable!]. *)
Definition dispatch_command (opened : Result () string) (c : RemoteCommand) (args : J) (d : Desk) :
    option (DispatchResult * Emitted * Desk) :=
  if is_desktop_only c then Some (Err Problem.desktop_only, [], d)
  else
    match Dispatch.arm c with
    | Handler keys => Some (call c args keys d)
    | FrontendReady => Some (Ok null, [], d)
    | LoadTestProfile =>
      match args_problem c args ["path"%string] with
      | Some problem => Some (Err problem, [], d)
      | None =>
        if is_null (argument args "path") then Some (Err Problem.desktop_only, [], d)
        else Some (call c args [] d)
      end
    | StartLevelMeter =>
      let (r, m) := AudioManager.audio_start_input_level_meter (manager d) (audio_config d) opened in
      Some (dispatch (match r with Ok b => Ok (meter_json b) | Err err => Err (audio_error err) end),
            [], with_manager d m)
    | StopLevelMeter =>
      let (effects, m) := AudioManager.audio_stop_input_level_meter (manager d) in
      Some (Ok null, meter_events effects, with_manager d m)
    | BroadcastStoreSync =>
      match args_problem c args ["store"; "state"; "sourceId"]%string with
      | Some problem => Some (Err problem, [], d)
      | None =>
        Some (Ok null, [(Ev_StoreSync, store_sync_json (argument args "store") (argument args "state")
                                         (argument args "sourceId"))], d)
      end
    | RequestStoreSync => Some (Ok null, [(Ev_StoreSyncRequest, null)], d)
    | Unreachable => None
    end.

(** The dispatch under its time limit of ten seconds. A start of the meter that is
    interrupted still waits for the state and has done nothing. *)
Definition timed_dispatch (timed_out : bool) (opened : Result () string) (c : RemoteCommand) (args : J)
    (d : Desk) : option (DispatchResult * Emitted * Desk) :=
  if timed_out && negb (Dispatch.immediate c) then
    let (emitted, d) :=
      match c with AudioStartInputLevelMeter => ([], d) | _ => run_interrupted c args d end in
    Some (Err Problem.timeout, emitted, d)
  else dispatch_command opened c args d.

(** ** A connection *)

(** [events]: what the channel of the server's events holds for the forwarder;
    [replies]: the channel from the reader to the forwarder; [sent]: what was written to
    the socket. The channel of replies holds 64, and a full one makes the reader wait,
    which neither loses nor reorders anything. *)
Record Conn := mkConn {
  subscribed_events : gset RemoteEvent;
  level_meter_user : bool;
  forwarding : bool;
  events : list (ServerMessage J);
  replies : list (ServerMessage J);
  sent : list (ServerMessage J)
}.

Definition BROADCAST_CHANNEL_SIZE : nat := 256.

Definition connected : Conn := mkConn ∅ false true [] [] [].

Definition with_subscribed (c : Conn) (es : gset RemoteEvent) : Conn :=
  mkConn es (level_meter_user c) (forwarding c) (events c) (replies c) (sent c).
Definition with_meter_user (c : Conn) (b : bool) : Conn :=
  mkConn (subscribed_events c) b (forwarding c) (events c) (replies c) (sent c).

(** [client_tx.send]: without a forwarder there is nobody to take the message. *)
Definition reply (c : Conn) (msg : ServerMessage J) : Conn :=
  if forwarding c
  then mkConn (subscribed_events c) (level_meter_user c) true (events c) (replies c ++ [msg]) (sent c)
  else c.

(** An event of the server: a forwarder that lags behind loses the oldest ones. *)
Definition hear (c : Conn) (msg : ServerMessage J) : Conn :=
  if forwarding c then
    let queue := events c ++ [msg] in
    mkConn (subscribed_events c) (level_meter_user c) true
      (drop (length queue - BROADCAST_CHANNEL_SIZE) queue) (replies c) (sent c)
  else c.

Definition stopped (c : Conn) : Conn :=
  mkConn (subscribed_events c) (level_meter_user c) false [] [] (sent c).

(** [ws_tx.send], which can fail *)
Definition written (c : Conn) (ok : bool) (msg : ServerMessage J) : Conn :=
  if ok
  then mkConn (subscribed_events c) (level_meter_user c) (forwarding c) (events c) (replies c) (sent c ++ [msg])
  else stopped c.

Definition wanted (c : Conn) (msg : ServerMessage J) : bool :=
  match msg with Event name _ => bool_decide (name ∈ subscribed_events c) | _ => true end.

(** One round of the forwarder's loop: the shutdown comes before the events, and the
    events before the replies. *)
Definition forward_turn (shut_down ok : bool) (c : Conn) : Conn :=
  if negb (forwarding c) then c
  else if shut_down then stopped c
  else
    match events c, replies c with
    | msg :: queue, _ =>
      let c' := mkConn (subscribed_events c) (level_meter_user c) true queue (replies c) (sent c) in
      if wanted c msg then written c' ok msg else c'
    | [], msg :: queue =>
      written (mkConn (subscribed_events c) (level_meter_user c) true [] queue (sent c)) ok msg
    | [], [] => c
    end.

(** What the socket brings: a text that is a message of the protocol, or one that is
    not, of which the identifier of the invocation may be readable, or a frame *)
Inductive Incoming :=
| Text (msg : ClientMessage J) (timed_out : bool) (opened : Result () string)
| Unparsed (invoke_id : option string)
| WsPinged (data : list Byte.byte)
| OtherFrame
| WsClosed.

Definition meter_slot (c : RemoteCommand) (r : DispatchResult) (held : bool) : bool :=
  match r with
  | Err _ => held
  | Ok value =>
    match c with
    | AudioStartInputLevelMeter => held || default false (meter_of value)
    | AudioStopInputLevelMeter => false
    | _ => held
    end
  end.

(** A turn of the reader's loop; it ends with [false]. *)
Definition read_turn (msg : Incoming) (c : Conn) (d : Desk) : bool * Conn * Emitted * Desk :=
  match msg with
  | Text (Subscribe event) _ _ => (true, with_subscribed c ({[event]} ∪ subscribed_events c), [], d)
  | Text (Unsubscribe event) _ _ => (true, with_subscribed c (subscribed_events c ∖ {[event]}), [], d)
  | Text Ping _ _ => (true, reply c Pong, [], d)
  | Text (Invoke id cmd args) timed_out opened =>
    match timed_dispatch timed_out opened cmd args d with
    | None => (false, c, [], d)
    | Some (r, emitted, d) =>
      (true, reply (with_meter_user c (meter_slot cmd r (level_meter_user c))) (with_id r id), emitted, d)
    end
  | Unparsed (Some id) => (true, reply c (ServerMessage.err id Problem.invalid_message), [], d)
  | Unparsed None | OtherFrame => (true, c, [], d)
  | WsPinged data => (true, reply c (WsPong data), [], d)
  | WsClosed => (false, c, [], d)
  end.

(** The end of a connection *)
Definition release (c : Conn) (d : Desk) : Emitted * Desk :=
  if level_meter_user c then
    let (effects, m) := AudioManager.audio_stop_input_level_meter (manager d) in
    (meter_events effects, with_manager d m)
  else ([], d).

(** ** The server *)

(** A server that was started: [listening_to] while its forwarders of the desktop's
    events are registered *)
Record Generation := mkGeneration {
  cancelled : bool;
  listening_to : bool;
  client_count : N;
  conns : gmap N Conn
}.

(** [counted]: whose count the handle reads *)
Record RemoteServer := mkRemoteServer {
  shutdown : option N;
  counted : N;
  generations : gmap N Generation;
  next_generation : N
}.

Definition Remote : Type := RemoteServer * Desk.

(** The counter wraps. *)
Definition fetch_add (n : N) : N := ((n + 1) mod 2 ^ 64)%N.
Definition fetch_sub (n : N) : N := ((n + (2 ^ 64 - 1)) mod 2 ^ 64)%N.

Definition with_conns (g : Generation) (cs : gmap N Conn) : Generation :=
  mkGeneration (cancelled g) (listening_to g) (client_count g) cs.

Definition with_generation (s : RemoteServer) (n : N) (f : Generation -> Generation) : RemoteServer :=
  mkRemoteServer (shutdown s) (counted s) (alter f n (generations s)) (next_generation s).

(** Before any start the handle's count belongs to no server. *)
Definition new : RemoteServer :=
  mkRemoteServer None 0 {[0%N := mkGeneration true false 0 ∅]} 1.

(** An event of the desktop reaches every connection of the servers that listen. *)
Definition emit (s : RemoteServer) (event : RemoteEvent * J) : RemoteServer :=
  mkRemoteServer (shutdown s) (counted s)
    ((λ g, if listening_to g
           then with_conns g ((λ c, hear c (Event event.1 event.2)) <$> conns g) else g) <$> generations s)
    (next_generation s).

Definition emit_all (s : RemoteServer) (emitted : Emitted) : RemoteServer := foldl emit s emitted.

Definition is_listening (s : RemoteServer) : bool :=
  match shutdown s with
  | Some n => match generations s !! n with Some g => negb (cancelled g) | None => false end
  | None => false
  end.

Definition connected_clients (s : RemoteServer) : N :=
  match generations s !! counted s with Some g => client_count g | None => 0%N end.

Definition status (s : RemoteServer) : bool * N := (is_listening s, connected_clients s).

Definition emit_status (s : RemoteServer) : RemoteServer :=
  emit s (Ev_RemoteStatus, status_json (status s).1 (status s).2).

(** The status that a connection's server emits *)
Definition emit_client_status (s : RemoteServer) (n : N) : RemoteServer :=
  match generations s !! n with
  | Some g => emit s (Ev_RemoteStatus, status_json true (client_count g))
  | None => s
  end.

Definition start (s : RemoteServer) : RemoteServer :=
  if is_listening s then s
  else
    let n := next_generation s in
    emit_status (mkRemoteServer (Some n) n (<[n := mkGeneration false true 0 ∅]> (generations s)) (n + 1)).

Definition cancel (g : Generation) : Generation :=
  mkGeneration true (listening_to g) (client_count g) (conns g).

Definition stop (s : RemoteServer) : RemoteServer :=
  match shutdown s with
  | None => s
  | Some n =>
    let s := with_generation s n cancel in
    let s := with_generation s (counted s)
               (λ g, mkGeneration (cancelled g) (listening_to g) 0 (conns g)) in
    emit_status (mkRemoteServer None (counted s) (generations s) (next_generation s))
  end.

Definition restart (s : RemoteServer) : RemoteServer := start (stop s).

(** The task of a server ends: shut down, or with an error. *)
Definition serve_ended (n : N) (failed : bool) (s : RemoteServer) : RemoteServer :=
  let s := with_generation s n
             (λ g, mkGeneration (cancelled g || failed) false (client_count g) (conns g)) in
  if failed then emit s (Ev_RemoteStatus, status_json false 0%N) else s.

(** The new connection does not hear of itself. *)
Definition connect (n id : N) (s : RemoteServer) : RemoteServer :=
  let s := with_generation s n (λ g, mkGeneration (cancelled g) (listening_to g)
                                       (fetch_add (client_count g)) (conns g)) in
  let s := emit_client_status s n in
  with_generation s n (λ g, with_conns g (<[id := connected]> (conns g))).

Definition disconnect (n id : N) (r : Remote) : Remote :=
  let (s, d) := r in
  match (generations s !! n) ≫= (λ g, (conns g) !! id) with
  | Some c =>
    let (emitted, d) := release c d in
    let s := with_generation s n (λ g, mkGeneration (cancelled g) (listening_to g) (client_count g)
                                         (delete id (conns g))) in
    let s := emit_all s emitted in
    let s := with_generation s n (λ g, mkGeneration (cancelled g) (listening_to g)
                                         (fetch_sub (client_count g)) (conns g)) in
    (match generations s !! n with
     | Some g => if cancelled g then s else emit_client_status s n
     | None => s
     end, d)
  | None => r
  end.

Definition receive (n id : N) (msg : Incoming) (r : Remote) : Remote :=
  let (s, d) := r in
  match (generations s !! n) ≫= (λ g, (conns g) !! id) with
  | Some c =>
    let '(open, c, emitted, d) := read_turn msg c d in
    let s := emit_all (with_generation s n (λ g, with_conns g (<[id := c]> (conns g)))) emitted in
    if open then (s, d) else disconnect n id (s, d)
  | None => r
  end.

Definition forward (n id : N) (ok : bool) (s : RemoteServer) : RemoteServer :=
  with_generation s n (λ g, with_conns g (alter (forward_turn (cancelled g) ok) id (conns g))).

(** [remote_set_config]: [changed] if the address or the switch differ from before *)
Definition remote_set_config (enabled changed : bool) (s : RemoteServer) : RemoteServer :=
  match enabled, changed with
  | true, true => restart s
  | false, _ => stop s
  | true, false => s
  end.
End remote.
