(* ===== verification/RemoteProperties.v ===== *)
(** RemoteProperties: the theorems about the remote control: the names of its events,
    the dispatch of its commands, what a connection is answered and told, the count of
    the connections, and the input level meter that connections show. *)
From stdpp Require Import prelude gmap strings list.
From Stdlib Require Import NArith.
From S2P Require Import Prelude Audio AudioLogic AudioProperties Remote.

(** ** The protocol *)

(** Every event has a name of its own: the name is read back as the event, any
    other text is no event, and the list over which the forwarders are registered has
    every event exactly once. *)
Theorem event_names_round_trip :
  (forall e, RemoteEvent.from_str (RemoteEvent.as_str e) = Some e) /\
  (forall s e, RemoteEvent.from_str s = Some e -> s = RemoteEvent.as_str e) /\
  (forall e, e ∈ RemoteEvent.ALL) /\ NoDup RemoteEvent.ALL.
Proof.
  split_and!.
  - intros []; by vm_compute.
  - intros s e. unfold RemoteEvent.from_str. destruct (list_find _ _) as [[i e']|] eqn:Hf; [|done].
    intros [= ->]. by apply list_find_Some in Hf as (_ & <- & _).
  - intros []; by apply (bool_decide_unpack _); vm_compute.
  - by apply (bool_decide_unpack _); vm_compute.
Qed.

Section remote.
Context {J S Volume Sample Clip D : Type} `{Json J} `{AudioSource S Volume Sample} `{Sounds S Volume Clip}.
Context `{Handlers J S Volume Clip D} {HO : HashOrder}.
Abbreviation Desk := (Desktop S Volume Clip D).
Abbreviation Emitted := (list (RemoteEvent * J)).
Abbreviation Conn := (Conn (J := J)).
Abbreviation Incoming := (Incoming (J := J)).
Abbreviation Generation := (Generation (J := J)).
Abbreviation RemoteServer := (RemoteServer (J := J)).
Abbreviation Remote := (Remote (J := J) (S := S) (Volume := Volume) (Clip := Clip) (D := D)).

(** ** The dispatch *)

Lemma every_command_has_an_arm c : is_desktop_only c = false -> Dispatch.arm c <> Unreachable.
Proof. by destruct c. Qed.

(** Whatever a connection invokes, the dispatch answers and never reaches the arm
    that panics; a command that is for the desktop only is refused, at once and without
    effect, and so is a command of which an argument cannot be decoded, with the first
    such argument. *)
Theorem dispatch_always_answers (timed_out : bool) opened c (args : J) (d : Desk) :
  exists r emitted d', timed_dispatch timed_out opened c args d = Some (r, emitted, d') /\
    (is_desktop_only c = true -> r = Err Problem.desktop_only /\ emitted = [] /\ d' = d) /\
    (forall keys problem, timed_out = false -> is_desktop_only c = false -> Dispatch.arm c = Handler keys ->
       args_problem c args keys = Some problem ->
       r = Err problem /\ emitted = [] /\ d' = d /\ problem_type problem = InvalidArgument).
Proof.
  assert (forall keys problem, args_problem c args keys = Some problem -> problem_type problem = InvalidArgument)
    as Hp.
  { induction keys as [|key keys IH]; intros problem; cbn; [done|].
    destruct (parses c key _); [apply IH|]. by intros [= <-]. }
  unfold timed_dispatch. destruct (is_desktop_only c) eqn:Hd.
  { unfold Dispatch.immediate, dispatch_command. rewrite Hd. cbn. rewrite andb_false_r.
    by eexists _, _, _. }
  pose proof (every_command_has_an_arm c Hd) as Harm.
  destruct (timed_out && negb (Dispatch.immediate c)) eqn:Ht.
  { apply andb_true_iff in Ht as [-> _].
    destruct (match c with AudioStartInputLevelMeter => _ | _ => _ end) as [emitted d'].
    by eexists _, _, _. }
  assert (exists r emitted d', dispatch_command opened c args d = Some (r, emitted, d') /\
    forall keys problem, Dispatch.arm c = Handler keys -> args_problem c args keys = Some problem ->
      r = Err problem /\ emitted = [] /\ d' = d) as (r & emitted & d' & E & Ha).
  { unfold dispatch_command. rewrite Hd.
    assert (forall keys, exists r emitted d', call c args keys d = (r, emitted, d') /\
      forall problem, args_problem c args keys = Some problem -> r = Err problem /\ emitted = [] /\ d' = d) as Hcall.
    { intros keys. destruct (call c args keys d) as [[r emitted] d'] eqn:Ec. eexists _, _, _. split; [done|].
      intros problem Ep. unfold call in Ec. rewrite Ep in Ec. by simplify_eq. }
    destruct (Dispatch.arm c) as [keys| | | | | | |] eqn:E.
    1: { destruct (Hcall keys) as (r & emitted & d' & -> & Hr). eexists _, _, _. split; [done|].
         intros keys' problem [= <-]. apply Hr. }
    2: { destruct (Hcall []) as (r & emitted & d' & -> & _). repeat case_match; by eexists _, _, _. }
    all: repeat case_match; try done; by eexists _, _, _. }
  exists r, emitted, d'. split_and!; [done|done|]. intros keys problem _ _ Hk Hpr.
  destruct (Ha keys problem Hk Hpr) as (-> & -> & ->). split_and!; [done..|]. by eapply Hp.
Qed.
(** ** A connection *)

(** What a connection lives through while its server runs and its socket takes what is
    written: the reader's turns, the server's events and the forwarder's rounds *)
Inductive ConnStep :=
| Read (msg : Incoming)
| Hear (name : RemoteEvent) (payload : J)
| Forward.

Definition conn_step (cd : Conn * Desk) (step : ConnStep) : Conn * Desk :=
  match step with
  | Read msg => let '(_, c, _, d) := read_turn msg cd.1 cd.2 in (c, d)
  | Hear name payload => (hear cd.1 (Event name payload), cd.2)
  | Forward => (forward_turn false true cd.1, cd.2)
  end.

Definition invoked (step : ConnStep) : option string :=
  match step with
  | Read (Text (Invoke id _ _) _ _) => Some id
  | Read (Unparsed id) => id
  | _ => None
  end.

Definition answered (msg : ServerMessage J) : option string :=
  match msg with Response id _ _ _ => Some id | _ => None end.

Definition is_reply (msg : ServerMessage J) : bool := match msg with Event _ _ => false | _ => true end.

(** The queues hold what they are for. *)
Record conn_ok (c : Conn) : Prop := {
  co_forwarding : forwarding c = true;
  co_events : Forall (λ msg, is_reply msg = false) (events c);
  co_replies : Forall (λ msg, is_reply msg = true) (replies c)
}.

Lemma conn_ok_connected : conn_ok connected.
Proof. by split; constructor. Qed.

Lemma conn_ok_reply (c : Conn) msg : conn_ok c -> is_reply msg = true -> conn_ok (reply c msg).
Proof.
  intros [Hf He Hr] Hm. unfold reply. rewrite Hf. split; [done|done|]. cbn. apply Forall_app_2; [done|].
  by constructor.
Qed.

Lemma conn_ok_subscribed (c : Conn) es : conn_ok c -> conn_ok (with_subscribed c es).
Proof. by intros [Hf He Hr]; split. Qed.

Lemma conn_ok_meter_user (c : Conn) b : conn_ok c -> conn_ok (with_meter_user c b).
Proof. by intros [Hf He Hr]; split. Qed.

Lemma conn_ok_step cd step : conn_ok cd.1 -> conn_ok (conn_step cd step).1.
Proof.
  destruct cd as [c d]. cbn [fst]. intros Hc. destruct step as [msg|name payload|]; cbn.
  - destruct msg as [[id cmd args|e|e|] timed_out opened|[id|]| data | |]; cbn;
      try (by apply conn_ok_subscribed); try (by apply conn_ok_reply); try done.
    destruct (timed_dispatch _ _ _ _ _) as [[[r emitted] d']|]; [|done]. cbn.
    apply conn_ok_reply; [by apply conn_ok_meter_user|by destruct r].
  - destruct Hc as [Hf He Hr]. unfold hear. rewrite Hf. split; [done| |done].
    apply Forall_drop, Forall_app_2; [done|by constructor].
  - destruct Hc as [Hf He Hr]. unfold forward_turn. rewrite Hf. cbn.
    destruct (events c) as [|msg queue] eqn:Ee; [destruct (replies c) as [|msg queue] eqn:Er|].
    + by split; rewrite ?Ee, ?Er.
    + apply Forall_cons in Hr as [_ Hr]. by split.
    + apply Forall_cons in He as [_ He]. destruct (wanted c msg); by split.
Qed.

Lemma answered_reply (c : Conn) msg : conn_ok c ->
  omap answered (sent (reply c msg) ++ replies (reply c msg)) =
    omap answered (sent c ++ replies c) ++ omap answered [msg].
Proof. intros [Hf _ _]. unfold reply. rewrite Hf. cbn. by rewrite app_assoc, omap_app. Qed.

Lemma answered_event msg : is_reply msg = false -> answered msg = None.
Proof. by destruct msg. Qed.

Lemma answered_step (cd : Conn * Desk) step : conn_ok cd.1 ->
  omap answered (sent (conn_step cd step).1 ++ replies (conn_step cd step).1) =
    omap answered (sent cd.1 ++ replies cd.1) ++ omap invoked [step].
Proof.
  destruct cd as [c d]. cbn [fst]. intros Hc. destruct step as [msg|name payload|]; cbn [conn_step fst].
  - destruct msg as [[id cmd args|e|e|] timed_out opened|[id|]| data | |]; cbn -[reply];
      rewrite ?answered_reply by done; rewrite ?app_nil_r; try done.
    destruct (dispatch_always_answers timed_out opened cmd args d) as (r & emitted & d' & -> & _).
    cbn -[reply]. rewrite answered_reply by by apply conn_ok_meter_user. by destruct r.
  - unfold hear. rewrite (co_forwarding _ Hc). cbn. by rewrite app_nil_r.
  - destruct Hc as [Hf He Hr]. unfold forward_turn. rewrite Hf. cbn. rewrite app_nil_r.
    destruct (events c) as [|msg queue]; [destruct (replies c) as [|msg queue] eqn:Er|].
    + by rewrite Er.
    + cbn. by rewrite <- app_assoc.
    + apply Forall_cons in He as [Hm _].
      destruct (wanted c msg); cbn; [|done]. rewrite !omap_app. cbn. rewrite (answered_event msg Hm).
      by rewrite app_nil_r.
Qed.

Lemma answered_run steps (cd : Conn * Desk) : conn_ok cd.1 ->
  conn_ok (foldl conn_step cd steps).1 /\
  omap answered (sent (foldl conn_step cd steps).1 ++ replies (foldl conn_step cd steps).1) =
    omap answered (sent cd.1 ++ replies cd.1) ++ omap invoked steps.
Proof.
  revert cd. induction steps as [|step steps IH]; intros cd Hc; [by rewrite app_nil_r|]. cbn [foldl].
  destruct (IH _ (conn_ok_step cd step Hc)) as [E1 E2]. split; [done|]. rewrite E2, answered_step by done.
  rewrite <- app_assoc. f_equal. rewrite <- omap_app. done.
Qed.

(** The forwarder catches up. *)
Lemma forwards_all n (c : Conn) (d : Desk) : conn_ok c -> (length (events c) + length (replies c) <= n)%nat ->
  let c' := (foldl conn_step (c, d) (replicate n Forward)).1 in
  events c' = [] /\ replies c' = [] /\ forwarding c' = true /\ subscribed_events c' = subscribed_events c /\
  sent c' = sent c ++ filter (λ msg, wanted c msg = true) (events c) ++ replies c.
Proof.
  revert c. induction n as [|n IH]; intros c Hc Hn; cbn.
  - destruct (events c), (replies c); try (cbn in Hn; lia). cbn. rewrite app_nil_r.
    by rewrite (co_forwarding _ Hc).
  - pose proof (conn_ok_step (c, d) Forward Hc) as Hc'. cbn in Hc'.
    destruct Hc as [Hf He Hr]. unfold forward_turn in *. rewrite Hf in *. cbn in *.
    destruct (events c) as [|msg queue] eqn:Ee.
    + destruct (replies c) as [|msg queue] eqn:Er.
      * destruct (IH c Hc') as (-> & -> & -> & -> & ->); [by rewrite Ee, Er; cbn; lia|].
        by rewrite Ee, Er, !app_nil_r.
      * cbn in Hc'. destruct (IH _ Hc') as (-> & -> & -> & -> & ->); cbn; [cbn in Hn; lia|].
        split_and!; try done. rewrite <- app_assoc. done.
    + assert (forall q, filter (λ m, wanted c m = true) (msg :: q) =
        if wanted c msg then msg :: filter (λ m, wanted c m = true) q else filter (λ m, wanted c m = true) q) as Ef.
      { intros q. rewrite filter_cons. by destruct (wanted c msg). }
      rewrite Ef. destruct (wanted c msg) eqn:Ew; cbn in Hc'.
      * destruct (IH _ Hc') as (-> & -> & -> & -> & ->); cbn; [cbn in Hn; lia|].
        split_and!; try done. rewrite <- !app_assoc. done.
      * destruct (IH _ Hc') as (-> & -> & -> & -> & ->); cbn; [cbn in Hn; lia|]. by split_and!.
Qed.


(** *** Events *)

Definition of_event (e : RemoteEvent) (msg : ServerMessage J) : option J :=
  match msg with Event name payload => if bool_decide (name = e) then Some payload else None | _ => None end.

Definition heard_of (e : RemoteEvent) (step : ConnStep) : option J :=
  match step with Hear name payload => of_event e (Event name payload) | _ => None end.

(** The step leaves the subscription to [e] as it is. *)
Definition keeps (e : RemoteEvent) (step : ConnStep) : bool :=
  match step with
  | Read (Text (Subscribe e') _ _) | Read (Text (Unsubscribe e') _ _) => negb (bool_decide (e' = e))
  | _ => true
  end.

Definition is_hear (step : ConnStep) : bool := match step with Hear _ _ => true | _ => false end.

(** What is delivered of an event, now or once the forwarder comes to it *)
Definition delivered (e : RemoteEvent) (c : Conn) : list J :=
  omap (of_event e) (sent c) ++
    (if bool_decide (e ∈ subscribed_events c) then omap (of_event e) (events c) else []).

Lemma reply_events (c : Conn) msg : subscribed_events (reply c msg) = subscribed_events c /\
  events (reply c msg) = events c /\ sent (reply c msg) = sent c.
Proof. unfold reply. by destruct (forwarding c). Qed.

Lemma of_event_reply e msg : is_reply msg = true -> of_event e msg = None.
Proof. by destruct msg. Qed.

Lemma delivered_step e (cd : Conn * Desk) step : conn_ok cd.1 -> keeps e step = true ->
  (length (events cd.1) < BROADCAST_CHANNEL_SIZE \/ is_hear step = false)%nat ->
  (e ∈ subscribed_events (conn_step cd step).1 <-> e ∈ subscribed_events cd.1) /\
  delivered e (conn_step cd step).1 = delivered e cd.1 ++
    (if bool_decide (e ∈ subscribed_events cd.1) then omap (heard_of e) [step] else []).
Proof.
  destruct cd as [c d]. cbn [fst]. intros Hc Hk Hl. unfold delivered.
  destruct step as [msg|name payload|]; cbn [conn_step fst].
  - assert (forall c' : Conn, (e ∈ subscribed_events c' <-> e ∈ subscribed_events c) ->
      events c' = events c -> sent c' = sent c ->
      (e ∈ subscribed_events c' <-> e ∈ subscribed_events c) /\
      omap (of_event e) (sent c') ++
        (if bool_decide (e ∈ subscribed_events c') then omap (of_event e) (events c') else []) =
      (omap (of_event e) (sent c) ++
        (if bool_decide (e ∈ subscribed_events c) then omap (of_event e) (events c) else [])) ++
      (if bool_decide (e ∈ subscribed_events c) then omap (heard_of e) [Read msg] else [])) as Hsame.
    { intros c' E1 -> ->. split; [done|]. rewrite (bool_decide_ext _ _ E1). cbn.
      by case_bool_decide; rewrite !app_nil_r. }
    destruct msg as [[id cmd args|e'|e'|] timed_out opened|[id|]| data | |]; cbn [read_turn]; cbn in Hk;
      try (apply negb_true_iff, bool_decide_eq_false in Hk).
    + destruct (timed_dispatch _ _ _ _ _) as [[[r emitted] d']|]; [|by apply Hsame].
      cbn [fst]. destruct (reply_events (with_meter_user c (meter_slot cmd r (level_meter_user c))) (with_id r id))
        as (E1 & E2 & E3). apply Hsame; [by cbn -[reply]; rewrite E1|done|done].
    + apply Hsame; [|done|done]. cbn [fst subscribed_events with_subscribed].
      rewrite elem_of_union, elem_of_singleton. naive_solver.
    + apply Hsame; [|done|done]. cbn [fst subscribed_events with_subscribed].
      rewrite elem_of_difference, elem_of_singleton. naive_solver.
    + destruct (reply_events c Pong) as (E1 & E2 & E3). apply Hsame; [by cbn -[reply]; rewrite E1|done|done].
    + destruct (reply_events c (ServerMessage.err id Problem.invalid_message)) as (E1 & E2 & E3).
      apply Hsame; [by cbn -[reply]; rewrite E1|done|done].
    + by apply Hsame.
    + destruct (reply_events c (WsPong data)) as (E1 & E2 & E3). apply Hsame; [by cbn -[reply]; rewrite E1|done|done].
    + by apply Hsame.
    + by apply Hsame.
  - destruct Hl as [Hl|Hl]; [|done]. unfold hear. rewrite (co_forwarding _ Hc). cbn.
    replace (length (events c ++ [Event name payload]) - BROADCAST_CHANNEL_SIZE)%nat with 0%nat
      by (rewrite length_app; cbn; lia).
    split; [done|]. rewrite drop_0, omap_app. case_bool_decide; cbn; by rewrite ?app_nil_r, <- ?app_assoc.
  - destruct Hc as [Hf He Hr]. unfold forward_turn. rewrite Hf. cbn.
    assert (forall l : list J, l = l ++ (if bool_decide (e ∈ subscribed_events c) then [] else [])) as Hnil
      by (intros l; by case_bool_decide; rewrite app_nil_r).
    destruct (events c) as [|msg queue] eqn:Ee; [destruct (replies c) as [|msg queue] eqn:Er|].
    + rewrite Ee. split; [done|apply Hnil].
    + apply Forall_cons in Hr as [Hm _]. cbn. split; [done|]. rewrite omap_app. cbn.
      rewrite (of_event_reply e msg Hm). rewrite app_nil_r. apply Hnil.
    + apply Forall_cons in He as [Hm _]. destruct msg as [|name payload| |]; try done. cbn [wanted].
      destruct (bool_decide (name ∈ subscribed_events c)) eqn:Ew; cbn; (split; [done|]); rewrite <- Hnil.
      * rewrite omap_app. cbn. destruct (decide (name = e)) as [->|Hne].
        -- rewrite Ew, bool_decide_true by done. by rewrite <- app_assoc.
        -- rewrite bool_decide_false by done. by rewrite app_nil_r.
      * destruct (decide (name = e)) as [->|Hne]; [by rewrite Ew|]. by rewrite (bool_decide_false (name = e)).
Qed.
(** No event finds the queue full. *)
Fixpoint roomy (cd : Conn * Desk) (steps : list ConnStep) : bool :=
  match steps with
  | [] => true
  | step :: steps =>
    (negb (is_hear step) || (length (events cd.1) <? BROADCAST_CHANNEL_SIZE)%nat) && roomy (conn_step cd step) steps
  end.

Lemma delivered_run e steps (cd : Conn * Desk) : conn_ok cd.1 -> forallb (keeps e) steps = true ->
  roomy cd steps = true ->
  (e ∈ subscribed_events (foldl conn_step cd steps).1 <-> e ∈ subscribed_events cd.1) /\
  delivered e (foldl conn_step cd steps).1 = delivered e cd.1 ++
    (if bool_decide (e ∈ subscribed_events cd.1) then omap (heard_of e) steps else []).
Proof.
  revert cd. induction steps as [|step steps IH]; intros cd Hc Hk Hr.
  { split; [done|]. case_bool_decide; by rewrite app_nil_r. }
  cbn [forallb roomy] in Hk, Hr. apply andb_true_iff in Hk as [Hk Hks]. apply andb_true_iff in Hr as [Hr Hrs].
  assert (length (events cd.1) < BROADCAST_CHANNEL_SIZE \/ is_hear step = false)%nat as Hroom.
  { apply orb_true_iff in Hr as [Hr%negb_true_iff|Hr%Nat.ltb_lt]; [by right|by left]. }
  destruct (delivered_step e cd step Hc Hk Hroom) as [E1 E2].
  destruct (IH _ (conn_ok_step cd step Hc) Hks Hrs) as [E3 E4]. cbn [foldl]. split; [by rewrite E3|].
  rewrite E4, E2, (bool_decide_ext _ _ E1). rewrite <- app_assoc. f_equal.
  destruct (decide (e ∈ subscribed_events cd.1)) as [Hin|Hin];
    [rewrite !bool_decide_true by done; by rewrite <- omap_app|by rewrite !bool_decide_false].
Qed.

Lemma delivered_wanted e (c : Conn) l : Forall (λ msg, is_reply msg = false) l ->
  omap (of_event e) (filter (λ msg, wanted c msg = true) l) =
    if bool_decide (e ∈ subscribed_events c) then omap (of_event e) l else [].
Proof.
  induction 1 as [|msg l Hm _ IH]; [by case_bool_decide|]. rewrite filter_cons.
  destruct msg as [|name payload| |]; try done. cbn [wanted].
  destruct (decide (name = e)) as [->|Hne].
  - destruct (decide (e ∈ subscribed_events c)) as [Hin|Hin].
    + rewrite bool_decide_true in IH |- * by done. rewrite decide_True by done. cbn.
      rewrite bool_decide_true by done. by rewrite IH.
    + rewrite bool_decide_false in IH |- * by done. by rewrite decide_False.
  - transitivity (omap (of_event e) (filter (λ msg, wanted c msg = true) l)).
    + destruct (decide _); [|done]. cbn. by rewrite bool_decide_false.
    + rewrite IH. cbn. by rewrite (bool_decide_false (name = e)).
Qed.

(** A remote client is told what it subscribed to: while it neither subscribes to an
    event nor unsubscribes from it and does not lag 256 events behind, it receives - once
    the forwarder has caught up - exactly the occurrences of the event, in order and
    each once, if it is subscribed, and none of them if it is not; whatever it invokes
    and whatever other events come between. *)
Theorem subscriptions_are_followed e (d : Desk) (before steps : list ConnStep) n :
  let cd := foldl conn_step (connected, d) before in
  let cd' := foldl conn_step cd steps in
  forallb (keeps e) steps = true -> roomy cd steps = true ->
  (length (events cd'.1) + length (replies cd'.1) <= n)%nat ->
  omap (of_event e) (sent (foldl conn_step cd' (replicate n Forward)).1) =
    delivered e cd.1 ++ (if bool_decide (e ∈ subscribed_events cd.1) then omap (heard_of e) steps else []).
Proof.
  cbn. intros Hk Hr Hn. destruct (answered_run before (connected, d) conn_ok_connected) as [Hc _].
  set (cd := foldl conn_step (connected, d) before) in *.
  destruct (delivered_run e steps cd Hc Hk Hr) as [_ Hd]. rewrite <- Hd.
  destruct (answered_run steps cd Hc) as [Hc' _].
  destruct (foldl conn_step cd steps) as [c' d']. cbn in *.
  destruct (forwards_all n c' d' Hc' Hn) as (_ & _ & _ & _ & ->).
  rewrite !omap_app, (delivered_wanted e c' _ (co_events _ Hc')).
  assert (omap (of_event e) (replies c') = []) as ->.
  { pose proof (co_replies _ Hc') as Hf. clear - Hf. induction Hf as [|msg l Hm _ IH]; [done|].
    cbn. by rewrite (of_event_reply e msg Hm). }
  by rewrite app_nil_r.
Qed.
(** ** The server *)

Inductive RemoteOp :=
| SetConfig (enabled changed : bool)
| StartServer
| StopServer
| ServeEnded (n : N) (failed : bool)
| Connect (n id : N)
| Receive (n id : N) (msg : Incoming)
| ForwardOn (n id : N) (ok : bool)
| Disconnect (n id : N)
| DesktopEmits (event : RemoteEvent) (payload : J).

Definition on_server (r : Remote) (f : RemoteServer -> RemoteServer) : Remote := (f r.1, r.2).

Definition remote_step (r : Remote) (op : RemoteOp) : Remote :=
  match op with
  | SetConfig enabled changed => on_server r (remote_set_config enabled changed)
  | StartServer => on_server r start
  | StopServer => on_server r stop
  | ServeEnded n failed => on_server r (serve_ended n failed)
  | Connect n id => on_server r (connect n id)
  | Receive n id msg => receive n id msg r
  | ForwardOn n id ok => on_server r (forward n id ok)
  | Disconnect n id => disconnect n id r
  | DesktopEmits event payload => on_server r (λ s, emit s (event, payload))
  end.

(** A connection is new when it comes. *)
Definition remote_op_ok (r : Remote) (op : RemoteOp) : Prop :=
  match op with
  | Connect n id => forall g, generations r.1 !! n = Some g -> conns g !! id = None
  | _ => True
  end.

Inductive remote_reach (r : Remote) : Remote -> Prop :=
| remote_refl : remote_reach r r
| remote_then r1 op : remote_reach r r1 -> remote_op_ok r1 op -> remote_reach r (remote_step r1 op).

Definition gen_ok (g : Generation) : Prop :=
  cancelled g = false -> client_count g = (N.of_nat (size (conns g)) mod 2 ^ 64)%N.

Record server_ok (s : RemoteServer) : Prop := {
  sv_gens : forall n g, generations s !! n = Some g -> (n < next_generation s)%N /\ gen_ok g;
  sv_shutdown : forall n, shutdown s = Some n -> counted s = n;
  sv_counted : (counted s < next_generation s)%N
}.

Lemma server_ok_with (s : RemoteServer) n f :
  server_ok s -> (forall g, generations s !! n = Some g -> gen_ok g -> gen_ok (f g)) ->
  server_ok (with_generation s n f).
Proof.
  intros [A1 A2 A3] Hf. split; [|done|done]. intros n' g. cbn. rewrite lookup_alter_Some.
  intros [(-> & g' & Hg & ->)|[_ Hg]]; [|by apply A1]. destruct (A1 _ _ Hg) as [Hn Hok]. split; [done|]. by apply Hf.
Qed.

Lemma server_ok_emit (s : RemoteServer) event : server_ok s -> server_ok (emit s event).
Proof.
  intros [A1 A2 A3]. split; [|done|done]. intros n g. cbn. rewrite lookup_fmap_Some.
  intros (g' & <- & Hg). destruct (A1 _ _ Hg) as [Hn Hok]. split; [done|].
  unfold gen_ok in *. destruct (listening_to g'); [|done]. cbn. by rewrite map_size_fmap.
Qed.

Lemma server_ok_emit_all emitted (s : RemoteServer) : server_ok s -> server_ok (emit_all s emitted).
Proof.
  revert s. induction emitted as [|ev emitted IH]; intros s Hs; [done|]. cbn. by apply IH, server_ok_emit.
Qed.

Lemma server_ok_client_status (s : RemoteServer) n : server_ok s -> server_ok (emit_client_status s n).
Proof. intros Hs. unfold emit_client_status. destruct (generations s !! n); [by apply server_ok_emit|done]. Qed.

Lemma server_ok_new : server_ok new.
Proof.
  split; [|done|done]. intros n g. cbn. rewrite lookup_singleton_Some. intros [<- <-]. by split.
Qed.

Lemma server_ok_start (s : RemoteServer) : server_ok s -> server_ok (start s).
Proof.
  intros Hs. unfold start. destruct (is_listening s); [done|]. apply server_ok_emit.
  destruct Hs as [A1 A2 A3]. split; cbn; [|by intros n [= ->]|lia].
  intros n g [[<- <-]|[_ Hg]]%lookup_insert_Some; [split; [lia|done]|].
  destruct (A1 _ _ Hg). split; [lia|done].
Qed.

Lemma server_ok_stop (s : RemoteServer) : server_ok s -> server_ok (stop s).
Proof.
  intros Hs. unfold stop. destruct (shutdown s) as [n|] eqn:Hn; [|done]. apply server_ok_emit.
  pose proof (sv_shutdown _ Hs n Hn) as Hc. cbn [counted with_generation]. rewrite Hc.
  assert (server_ok (with_generation (with_generation s n cancel) n
    (λ g, mkGeneration (cancelled g) (listening_to g) 0 (conns g)))) as [B1 B2 B3].
  { destruct Hs as [A1 A2 A3]. split; cbn; [|done|done]. intros n' g.
    rewrite lookup_alter_Some. intros [(-> & g' & Hg & ->)|[Hne Hg]].
    - apply lookup_alter_Some in Hg as [(_ & g2 & Hg & ->)|[? _]]; [|done].
      split; [by eapply A1|]. by unfold gen_ok.
    - rewrite lookup_alter_ne in Hg by done. by apply A1. }
  split; [done|done|]. cbn in *. by rewrite <- Hc.
Qed.

Lemma fetch_add_size n : fetch_add (N.of_nat n mod 2 ^ 64) = (N.of_nat (Datatypes.S n) mod 2 ^ 64)%N.
Proof. unfold fetch_add. rewrite N.Div0.add_mod_idemp_l. f_equal. lia. Qed.

Lemma fetch_sub_size n : fetch_sub (N.of_nat (Datatypes.S n) mod 2 ^ 64) = (N.of_nat n mod 2 ^ 64)%N.
Proof.
  unfold fetch_sub. rewrite N.Div0.add_mod_idemp_l.
  replace (N.of_nat (Datatypes.S n) + (2 ^ 64 - 1))%N with (N.of_nat n + 1 * 2 ^ 64)%N by lia.
  by rewrite N.Div0.mod_add.
Qed.
(** Generations that differ in what their connections heard *)
Record alike (g g' : Generation) : Prop := {
  al_cancelled : cancelled g' = cancelled g;
  al_count : client_count g' = client_count g;
  al_dom : dom (conns g') = dom (conns g)
}.

Lemma alike_size g g' : alike g g' -> size (conns g') = size (conns g).
Proof. intros [_ _ Hd]. by rewrite <- !size_dom, Hd. Qed.

Lemma emit_all_alike emitted (s : RemoteServer) n g' : generations (emit_all s emitted) !! n = Some g' ->
  exists g, generations s !! n = Some g /\ alike g g'.
Proof.
  revert s. induction emitted as [|ev emitted IH]; intros s Hg'; [by exists g'|].
  cbn in Hg'. destruct (IH _ Hg') as (g1 & Hg1 & [E1 E2 E3]).
  cbn in Hg1. apply lookup_fmap_Some in Hg1 as (g & <- & Hg). exists g. split; [done|].
  destruct (listening_to g); cbn in *; [|done]. split; [done|done|]. by rewrite E3, dom_fmap_L.
Qed.

Lemma emit_all_frame emitted (s : RemoteServer) : shutdown (emit_all s emitted) = shutdown s /\
  counted (emit_all s emitted) = counted s /\ next_generation (emit_all s emitted) = next_generation s.
Proof. revert s. induction emitted as [|ev emitted IH]; intros s; [done|]. cbn. apply (IH (emit s ev)). Qed.

(** A generation changes, events are emitted, and it changes again. *)
Lemma server_ok_around (s : RemoteServer) n f emitted f' : server_ok s ->
  (forall g g', generations s !! n = Some g -> gen_ok g -> alike (f g) g' -> gen_ok (f' g')) ->
  server_ok (with_generation (emit_all (with_generation s n f) emitted) n f').
Proof.
  intros [A1 A2 A3] Hf. destruct (emit_all_frame emitted (with_generation s n f)) as (E1 & E2 & E3).
  split; cbn; rewrite ?E1, ?E2, ?E3; [|done|done]. intros n' g'. rewrite lookup_alter_Some.
  intros [(-> & g2 & Hg2 & ->)|[Hne Hg2]].
  - destruct (emit_all_alike _ _ _ _ Hg2) as (g1 & Hg1 & Ha). cbn in Hg1.
    apply lookup_alter_Some in Hg1 as [(_ & g & Hg & ->)|[? _]]; [|done].
    destruct (A1 _ _ Hg) as [Hn Hok]. split; [done|by eapply Hf].
  - destruct (emit_all_alike _ _ _ _ Hg2) as (g1 & Hg1 & Ha). cbn in Hg1.
    rewrite lookup_alter_ne in Hg1 by done. destruct (A1 _ _ Hg1) as [Hn Hok]. split; [done|].
    unfold gen_ok in *. rewrite (alike_size _ _ Ha). destruct Ha as [-> -> _]. done.
Qed.

Lemma server_ok_connect n id (s : RemoteServer) : server_ok s ->
  (forall g, generations s !! n = Some g -> conns g !! id = None) -> server_ok (connect n id s).
Proof.
  intros Hs Hnew. unfold connect, emit_client_status.
  set (add := λ g : Generation, mkGeneration _ _ (fetch_add _) _).
  set (join := λ g : Generation, with_conns g _).
  assert (forall emitted, server_ok (with_generation (emit_all (with_generation s n add) emitted) n join)) as Hall.
  { intros emitted. apply server_ok_around; [done|]. intros g g' Hg Hok [E1 E2 E3] Hc. cbn in *.
    rewrite E2, map_size_insert_None.
    - rewrite <- size_dom, E3, size_dom, Hok by congruence. apply fetch_add_size.
    - apply not_elem_of_dom. rewrite E3. apply not_elem_of_dom. by apply Hnew. }
  destruct (generations (with_generation s n add) !! n) as [g0|]; [apply (Hall [_])|apply (Hall [])].
Qed.

Lemma server_ok_disconnect n id (r : Remote) : server_ok r.1 -> server_ok (disconnect n id r).1.
Proof.
  destruct r as [s d]. cbn [fst]. intros Hs. unfold disconnect.
  destruct (generations s !! n) as [g|] eqn:Hg; [|exact Hs]. cbn [mbind option_bind].
  destruct (conns g !! id) as [c|] eqn:Hc; [|exact Hs]. destruct (release c d) as [emitted d'].
  set (remove := λ g : Generation, mkGeneration _ _ _ _).
  set (sub := λ g : Generation, mkGeneration (cancelled g) _ (fetch_sub _) _).
  assert (server_ok (with_generation (emit_all (with_generation s n remove) emitted) n sub)) as H'.
  { apply server_ok_around; [done|]. intros g' g2 Hg' Hok Ha Hnc. rewrite Hg in Hg'. injection Hg' as <-.
    cbn. pose proof (alike_size _ _ Ha) as Hz. destruct Ha as [E1 E2 _]. rewrite Hz, E2. cbn.
    rewrite Hok by (cbn in *; congruence). rewrite map_size_delete, Hc.
    destruct (size (conns g)) eqn:Hsz; [|apply fetch_sub_size].
    apply map_size_empty_inv in Hsz. by rewrite Hsz, lookup_empty in Hc. }
  set (s' := with_generation _ n sub) in *. cbn [fst].
  destruct (generations s' !! n) as [g'|]; [|exact H']. destruct (cancelled g'); [exact H'|].
  by apply server_ok_client_status.
Qed.

Lemma server_ok_step (r : Remote) op : server_ok r.1 -> remote_op_ok r op -> server_ok (remote_step r op).1.
Proof.
  destruct r as [s d]. cbn [fst]. intros Hs Hop. destruct op as [enabled changed| | |n failed|n id|n id msg|n id ok|n id|ev payload];
    cbn [remote_step on_server fst].
  - destruct enabled, changed; cbn; try done; [by apply server_ok_start, server_ok_stop|by apply server_ok_stop..].
  - by apply server_ok_start.
  - by apply server_ok_stop.
  - unfold serve_ended.
    assert (server_ok (with_generation s n
      (λ g, mkGeneration (cancelled g || failed) false (client_count g) (conns g)))) as H'.
    { apply server_ok_with; [done|]. unfold gen_ok. cbn. intros g _ Hok [Hc _]%orb_false_iff. by apply Hok. }
    destruct failed; [by apply server_ok_emit|done].
  - by apply server_ok_connect.
  - unfold receive. destruct (generations s !! n) as [g|] eqn:Hg; [|exact Hs]. cbn [mbind option_bind].
    destruct (conns g !! id) as [c|] eqn:Hc; [|exact Hs]. destruct (read_turn msg c d) as [[[open c'] emitted] d'].
    assert (server_ok (emit_all (with_generation s n (λ g, with_conns g (<[id := c']> (conns g)))) emitted)) as H'.
    { apply server_ok_emit_all, server_ok_with; [done|]. unfold gen_ok. cbn. intros g' Hg' Hok.
      rewrite Hg in Hg'. injection Hg' as <-. by rewrite map_size_insert, Hc. }
    destruct open; [done|]. by apply (server_ok_disconnect n id (_, d')).
  - apply server_ok_with; [done|]. unfold gen_ok. cbn. intros g _ Hok. rewrite <- (size_dom (D := gset N) (conns g)) in Hok. by rewrite <- (size_dom (D := gset N)), dom_alter_L.
  - by apply (server_ok_disconnect n id (s, d)).
  - by apply server_ok_emit.
Qed.

Lemma server_ok_reach (r r' : Remote) : server_ok r.1 -> remote_reach r r' -> server_ok r'.1.
Proof. intros Hs Hr. induction Hr as [|r1 op Hr IH Hop]; [done|]. by apply server_ok_step. Qed.

(** The status of the remote control tells the truth: however servers are started,
    stopped and restarted, fail, and connections come, talk and go, while a server is
    listening the clients it reports are the connections that are open to it. *)
Theorem status_counts_connections (d : Desk) (r : Remote) :
  remote_reach (new, d) r -> is_listening r.1 = true ->
  exists n g, shutdown r.1 = Some n /\ generations r.1 !! n = Some g /\ cancelled g = false /\
    ((N.of_nat (size (conns g)) < 2 ^ 64)%N -> status r.1 = (true, N.of_nat (size (conns g)))).
Proof.
  intros Hr Hl. pose proof (server_ok_reach (new, d) r server_ok_new Hr) as Hs.
  unfold is_listening in Hl. destruct (shutdown r.1) as [n|] eqn:Hn; [|done].
  destruct (generations r.1 !! n) as [g|] eqn:Hg; [|done]. apply negb_true_iff in Hl.
  exists n, g. split_and!; [done..|]. intros Hlt. unfold status, is_listening, connected_clients.
  rewrite Hn, (sv_shutdown _ Hs n Hn), Hg, Hl. cbn. f_equal.
  rewrite (proj2 (sv_gens _ Hs n g Hg) Hl). by apply N.mod_small.
Qed.
(** ** The input level meter over connections *)

(** The connections of a server, the desktop, and how many of its own pages show the
    meter *)
Record Viewers := mkViewers { viewing : gmap N Conn; desk : Desk; local : N }.

(** What concerns the meter: a connection comes, talks and goes, its forwarder works,
    and the desktop's own pages start and stop the meter. *)
Inductive ViewerStep :=
| Joins (id : N)
| Says (id : N) (msg : Incoming)
| Forwards (id : N) (shut_down ok : bool)
| Leaves (id : N)
| LocalStart (opened : Result () string)
| LocalStop.

Definition viewer_step (v : Viewers) (step : ViewerStep) : Viewers :=
  match step with
  | Joins id => mkViewers (<[id := connected]> (viewing v)) (desk v) (local v)
  | Says id msg =>
    match viewing v !! id with
    | Some c => let '(_, c, _, d) := read_turn msg c (desk v) in mkViewers (<[id := c]> (viewing v)) d (local v)
    | None => v
    end
  | Forwards id shut_down ok => mkViewers (alter (forward_turn shut_down ok) id (viewing v)) (desk v) (local v)
  | Leaves id =>
    match viewing v !! id with
    | Some c => mkViewers (delete id (viewing v)) (release c (desk v)).2 (local v)
    | None => v
    end
  | LocalStart opened =>
    let (r, m) := AudioManager.audio_start_input_level_meter (manager (desk v)) (audio_config (desk v)) opened in
    mkViewers (viewing v) (with_manager (desk v) m)
      (match r with Ok true => (local v + 1)%N | _ => local v end)
  | LocalStop =>
    mkViewers (viewing v) (with_manager (desk v) (AudioManager.audio_stop_input_level_meter (manager (desk v))).2)
      (local v - 1)%N
  end.

(** Pages start the meter when they do not show it and stop it when they do, and
    nothing else that is invoked concerns the audio input. *)
Definition polite (v : Viewers) (step : ViewerStep) : Prop :=
  match step with
  | Joins id => viewing v !! id = None
  | Says id (Text (Invoke _ cmd args) timed_out opened) =>
    match cmd with
    | AudioStartInputLevelMeter => forall c, viewing v !! id = Some c -> level_meter_user c = false
    | AudioStopInputLevelMeter => forall c, viewing v !! id = Some c -> level_meter_user c = true
    | _ => forall r emitted d, timed_dispatch timed_out opened cmd args (desk v) = Some (r, emitted, d) ->
        manager d = manager (desk v)
    end
  | LocalStop => (0 < local v)%N
  | _ => True
  end.

Inductive watched (v : Viewers) : Viewers -> Prop :=
| watched_refl : watched v v
| watched_then v1 step : watched v v1 -> polite v1 step -> watched v (viewer_step v1 step).

Definition holders (cs : gmap N Conn) : N := N.of_nat (size (filter (λ kv, level_meter_user kv.2 = true) cs)).

Lemma holders_insert (cs : gmap N Conn) id c :
  (holders (<[id := c]> cs) = holders (delete id cs) + if level_meter_user c then 1 else 0)%N.
Proof.
  unfold holders. destruct (level_meter_user c) eqn:Hc.
  - rewrite map_filter_insert_True by done. rewrite <- insert_delete_eq, <- map_filter_delete.
    rewrite map_size_insert_None; [lia|]. apply map_lookup_filter_None. left. apply lookup_delete_eq.
  - rewrite map_filter_insert_False by (cbn; congruence). lia.
Qed.

Lemma holders_lookup (cs : gmap N Conn) id c : cs !! id = Some c ->
  holders cs = (holders (delete id cs) + if level_meter_user c then 1 else 0)%N.
Proof. intros Hc. rewrite <- (insert_id cs id c Hc) at 1. apply holders_insert. Qed.

Lemma holders_same (cs : gmap N Conn) id c c' : cs !! id = Some c -> level_meter_user c' = level_meter_user c ->
  holders (<[id := c']> cs) = holders cs.
Proof. intros Hc Hl. by rewrite holders_insert, Hl, <- (holders_lookup cs id c Hc). Qed.

(** The meter runs for its users, who are counted. *)
Definition counted_viewers (v : Viewers) : Prop :=
  meter_only (manager (desk v)) /\ level_meter_users (manager (desk v)) = (local v + holders (viewing v))%N.

(** A start makes its caller a user or changes nothing. *)
Lemma start_counts (m : AudioManager S Volume Clip) config opened : meter_only m ->
  let (r, m') := AudioManager.audio_start_input_level_meter m config opened in
  match r with
  | Ok b => b = true /\ meter_only m' /\ level_meter_users m' = (level_meter_users m + 1)%N
  | Err _ => m' = m
  end.
Proof.
  intros Hm. destruct opened as [[]|err].
  - pose proof (meter_only_step config m true Hm) as [E1 E2]. unfold meter_asked in *. cbn [audio_step counted] in *.
    destruct (AudioManager.audio_start_input_level_meter m config (Ok ())) as [r m'] eqn:E. cbn in E1, E2.
    unfold AudioManager.audio_start_input_level_meter, AudioManager.is_input_device_attached,
      AudioManager.is_input_level_meter_attached, AudioManager.attach_input_level_meter, meter_only in *.
    destruct (0 <? level_meter_users m)%N; [destruct Hm as (i & Hi & Hl & Hr)|rename Hm into Hi]; rewrite Hi in E;
      cbn in E; [rewrite Hl in E; cbn in E|]; injection E as <- <-; by split_and!.
  - unfold AudioManager.audio_start_input_level_meter, AudioManager.is_input_device_attached,
      AudioManager.is_input_level_meter_attached, AudioManager.attach_input_level_meter, meter_only in *.
    destruct (N.ltb_spec 0 (level_meter_users m)) as [Hu|Hu].
    + destruct Hm as (i & Hi & Hl & Hr). rewrite Hi. cbn. rewrite Hl. cbn. split_and!; [done| |done].
      replace (0 <? level_meter_users m + 1)%N with true by (symmetry; apply N.ltb_lt; lia). by exists i.
    + rewrite Hm. cbn. done.
Qed.

Lemma stop_counts (config : AudioConfig Volume) (m : AudioManager S Volume Clip) : meter_only m ->
  meter_only (AudioManager.audio_stop_input_level_meter m).2 /\
  level_meter_users (AudioManager.audio_stop_input_level_meter m).2 = (level_meter_users m - 1)%N.
Proof. intros Hm. apply (meter_only_step config m false Hm). Qed.

Lemma reply_slot (c : Conn) msg : level_meter_user (reply c msg) = level_meter_user c.
Proof. unfold reply. by destruct (forwarding c). Qed.

Lemma forward_slot shut_down ok (c : Conn) : level_meter_user (forward_turn shut_down ok c) = level_meter_user c.
Proof.
  unfold forward_turn, written, stopped. destruct (forwarding c), shut_down; try done. cbn.
  destruct (events c); [destruct (replies c)|]; repeat case_match; done.
Qed.

Lemma command_cases cmd : cmd = AudioStartInputLevelMeter \/ cmd = AudioStopInputLevelMeter \/
  (cmd <> AudioStartInputLevelMeter /\ cmd <> AudioStopInputLevelMeter).
Proof. destruct cmd; auto. Qed.

Lemma holders_forward (cs : gmap N Conn) id shut_down ok :
  holders (alter (forward_turn shut_down ok) id cs) = holders cs.
Proof.
  destruct (cs !! id) as [c|] eqn:Hc.
  - assert (alter (forward_turn shut_down ok) id cs = <[id := forward_turn shut_down ok c]> cs) as ->.
    { apply map_eq. intros j. destruct (decide (id = j)) as [<-|Hne].
      - by rewrite lookup_alter_eq, lookup_insert_eq, Hc.
      - by rewrite lookup_alter_ne, lookup_insert_ne. }
    by rewrite (holders_same _ _ _ _ Hc (forward_slot _ _ c)).
  - assert (alter (forward_turn shut_down ok) id cs = cs) as ->; [|done].
    apply map_eq. intros j. destruct (decide (id = j)) as [<-|Hne].
    + by rewrite lookup_alter_eq, Hc.
    + by rewrite lookup_alter_ne.
Qed.

(** What a polite message does to its connection's slot and to the meter *)
Lemma says_counts (v : Viewers) id msg c : counted_viewers v -> polite v (Says id msg) ->
  viewing v !! id = Some c -> counted_viewers (viewer_step v (Says id msg)).
Proof.
  intros [Hm Hu] Hp Hc. cbn [viewer_step]. rewrite Hc. unfold counted_viewers.
  assert (forall c' : Conn, level_meter_user c' = level_meter_user c ->
    meter_only (manager (desk v)) /\
    level_meter_users (manager (desk v)) = (local v + holders (<[id := c']> (viewing v)))%N) as Hsame
    by (intros c' Hc'; by rewrite (holders_same _ _ _ _ Hc Hc')).
  destruct msg as [[iid cmd args|e|e|] timed_out opened|[iid|]| data | |]; cbn [read_turn viewing desk local];
    try (apply Hsame; by rewrite ?reply_slot).
  destruct (timed_dispatch timed_out opened cmd args (desk v)) as [[[r emitted] d']|] eqn:Ed;
    [|by apply Hsame]. cbn [viewing desk local].
  destruct (command_cases cmd) as [-> | [-> | [Hstart Hstop]]].
  - cbn in Hp. specialize (Hp c Hc). unfold timed_dispatch in Ed. cbn in Ed.
    destruct timed_out; cbn in Ed; [injection Ed as <- <- <-; apply Hsame; by rewrite reply_slot|].
    pose proof (start_counts (manager (desk v)) (audio_config (desk v)) opened Hm) as Hs.
    destruct (AudioManager.audio_start_input_level_meter _ _ _) as [[b|err] m'] eqn:Es;
      injection Ed as <- <- <-; cbn [manager with_manager].
    + destruct Hs as (-> & Hm' & Hu'). split; [done|].
      rewrite Hu', Hu, holders_insert, reply_slot, (holders_lookup _ _ _ Hc), Hp. cbn. rewrite meter_of_json. cbn. lia.
    + subst m'. apply Hsame. by rewrite reply_slot.
  - cbn in Hp. specialize (Hp c Hc). unfold timed_dispatch in Ed. cbn in Ed.
    rewrite andb_false_r in Ed. destruct (stop_counts (audio_config (desk v)) (manager (desk v)) Hm) as [Hm' Hu'].
    destruct (AudioManager.audio_stop_input_level_meter _) as [effects m'] eqn:Es. injection Ed as <- <- <-.
    cbn [manager with_manager snd] in *. split; [done|].
    rewrite Hu', Hu, holders_insert, reply_slot, (holders_lookup _ _ _ Hc), Hp. cbn. lia.
  - assert (manager d' = manager (desk v)) as ->.
    { cbn in Hp. by destruct cmd; try done; eapply Hp. }
    apply Hsame. rewrite reply_slot. cbn. destruct r, cmd; done.
Qed.

Lemma counted_step (v : Viewers) step : counted_viewers v -> polite v step -> counted_viewers (viewer_step v step).
Proof.
  intros Hv Hp. destruct step as [id|id msg|id shut_down ok|id|opened|].
  - destruct Hv as [Hm Hu]. split; [done|]. cbn in *. rewrite Hu, holders_insert. cbn.
    rewrite delete_id by done. lia.
  - destruct (viewing v !! id) as [c|] eqn:Hc; [by eapply says_counts|]. cbn. by rewrite Hc.
  - destruct Hv as [Hm Hu]. split; [done|]. cbn [viewer_step viewing desk local]. by rewrite holders_forward.
  - cbn [viewer_step]. destruct (viewing v !! id) as [c|] eqn:Hc; [|done]. destruct Hv as [Hm Hu].
    unfold counted_viewers. cbn [viewing desk local]. pose proof (holders_lookup _ _ _ Hc) as Hh. unfold release.
    destruct (level_meter_user c) eqn:Hl; [|split; [done|cbn; lia]].
    destruct (stop_counts (audio_config (desk v)) (manager (desk v)) Hm) as [Hm' Hu'].
    destruct (AudioManager.audio_stop_input_level_meter _) as [effects m']. cbn in *. split; [done|lia].
  - destruct Hv as [Hm Hu]. cbn [viewer_step].
    pose proof (start_counts (manager (desk v)) (audio_config (desk v)) opened Hm) as Hs.
    destruct (AudioManager.audio_start_input_level_meter _ _ _) as [[b|err] m']; unfold counted_viewers; cbn in *.
    + destruct Hs as (-> & Hm' & Hu'). split; [done|lia].
    + by subst m'.
  - destruct Hv as [Hm Hu]. unfold counted_viewers. cbn [viewer_step viewing desk local manager with_manager].
    destruct (stop_counts (audio_config (desk v)) (manager (desk v)) Hm) as [Hm' Hu'].
    split; [done|]. cbn in Hp. lia.
Qed.

End remote.

(** ** A desktop of numbers *)

#[local] Existing Instance tone_source.
#[local] Existing Instance tones.
#[local] Existing Instance listed_order.

#[local] Instance small_json : Json (option bool) := {|
  null := None;
  member _ _ := None;
  parses _ _ _ := Ok ();
  is_null v := match v with None => true | Some _ => false end;
  meter_json b := Some b;
  meter_of v := v;
  meter_of_json b := eq_refl;
  status_json b _ := Some b;
  store_sync_json _ _ _ := None
|}.

(** A handler notes that it ran. *)
#[local] Instance small_handlers : Handlers (option bool) (N * bool) N N nat := {|
  run c args d := (Ok None, [(Ev_RadioState, None)], mkDesktop (manager d) (audio_config d) (rest d + 1)%nat);
  run_interrupted c args d := ([], d);
  audio_error err := mkFrontendError "Audio" err true None
|}.

Definition a_desktop : Desktop (N * bool) N N nat := mkDesktop both_streams settings 0%nat.

Definition a_session : list (ConnStep (J := option bool)) :=
  [Read (Text (Invoke "1" RadioReconnect None) false (Ok ())); Hear Ev_RadioState None;
   Read (Unparsed (Some "2"%string)); Forward; Read (Text Ping false (Ok ()));
   Read (Text (Invoke "3" AppQuit None) false (Ok ()))].


Definition a_subscription : list (ConnStep (J := option bool)) :=
  [Read (Text (Subscribe Ev_RadioState) false (Ok ()))].

Definition a_broadcast : list (ConnStep (J := option bool)) :=
  [Hear Ev_RadioState (Some true); Hear Ev_AuthError None; Read (Text Ping false (Ok ()));
   Read (Text (Subscribe Ev_AuthError) false (Ok ())); Hear Ev_RadioState (Some false)].

Lemma subscriptions_are_followed_witness :
  let cd := foldl conn_step (connected, a_desktop) a_subscription in
  let cd' := foldl conn_step cd a_broadcast in
  omap (of_event Ev_RadioState) (sent (foldl conn_step cd' (replicate 4 Forward)).1) = [Some true; Some false].
Proof.
  cbn zeta. rewrite (subscriptions_are_followed Ev_RadioState a_desktop a_subscription a_broadcast 4);
    [by vm_compute|by vm_compute|by vm_compute|vm_compute; lia].
Defined.

(** A server is started and restarted; one of its two clients leaves. *)
Definition served : list (RemoteOp (J := option bool)) :=
  [StartServer; Connect 1 5; SetConfig true true; Connect 2 6; Connect 2 7; Disconnect 2 6].

Definition after_served : Remote.Remote (J := option bool) (D := nat) :=
  foldl remote_step (new, a_desktop) served.

Lemma status_counts_connections_witness :
  is_listening after_served.1 = true /\
  exists n g, shutdown after_served.1 = Some n /\ generations after_served.1 !! n = Some g /\ cancelled g = false /\
    ((N.of_nat (size (conns g)) < 2 ^ 64)%N -> status after_served.1 = (true, N.of_nat (size (conns g)))).
Proof.
  split; [by vm_compute|]. apply (status_counts_connections a_desktop); [|by vm_compute].
  unfold after_served. cbn [foldl served]. repeat (apply remote_then; [|first [exact I|cbn [remote_op_ok]]]);
    [apply remote_refl|..]; intros g; vm_compute; by intros [= <-].
Defined.

Definition viewers : list (ViewerStep (J := option bool)) :=
  [Joins 1; Says 1 (Text (Invoke "a" AudioStartInputLevelMeter None) false (Ok ())); LocalStart (Ok ());
   LocalStop; Leaves 1].

Definition after_viewers : Viewers (J := option bool) := foldl viewer_step (mkViewers ∅ a_desktop 0) viewers.


(** ** What modelling showed *)

(** A connection that is still open when its server is stopped counts below zero when
    it closes: the status then reports 2^64 - 1 clients. *)
Lemma stop_then_close_wraps :
  status (foldl remote_step (new, a_desktop) [StartServer; Connect 1 5; StopServer; Disconnect 1 5]).1
    = (false, 18446744073709551615%N).
Proof. by vm_compute. Qed.

(** A connection outlives the stop of its server: what it invokes is still done, only
    the answer is lost. *)
Lemma stopped_server_obeys :
  let r := foldl remote_step (new, a_desktop)
             [StartServer; Connect 1 5; StopServer; ForwardOn 1 5 true;
              Receive 1 5 (Text (Invoke "x" RadioReconnect None) false (Ok ()))] in
  is_listening r.1 = false /\ rest r.2 = 1%nat /\
  (generations r.1 !! 1%N) ≫= (λ g, conns g !! 5%N) = Some (stopped connected).
Proof. by vm_compute. Qed.

(** A connection that started the meter twice is a user twice, and gives up one use
    when it ends: the microphone stays open. *)
Lemma two_starts_one_release :
  let start := Text (Invoke "s" AudioStartInputLevelMeter None) false (Ok ()) in
  let v := foldl viewer_step (mkViewers ∅ a_desktop 0) [Joins 1; Says 1 start; Says 1 start; Leaves 1] in
  viewing v = ∅ /\ level_meter_users (manager (desk v)) = 1%N /\
  AudioManager.is_input_device_attached (manager (desk v)) = true.
Proof. by vm_compute. Qed.
