(* ===== verification/Sources.v ===== *)
(** Sources: what is heard, [vacs-audio/src/sources]: a decoded file ([wav.rs]), a
    synthesised tone ([waveform.rs]) and the frames of a peer ([opus.rs]), with the
    framing of the captured input ([stream/capture.rs]).

    Samples, volumes and the arithmetic on them are of any type; positions and lengths
    are exact. A buffer of the device is a list of samples that is worked off in
    frames of one sample per channel. *)
From stdpp Require Import prelude gmap strings list.
From Stdlib Require Import NArith.
From S2P Require Import Prelude Audio.

(** The arithmetic of 32-bit floats that the sources use. [faded a b]: times [a / b];
    [enveloped]: times the lesser of the rise over [attack] samples and the fall over
    [release]; [frames_of]: a duration in samples, rounded and bounded by the width of a
    [usize] where the source does. *)
Class Signal (Sample Volume Tone : Type) := {
  silence : Sample;
  limited : Sample -> Sample;
  add : Sample -> Sample -> Sample;
  scaled : Sample -> Volume -> Sample;
  faded : nat -> nat -> Sample -> Sample;
  volume_is_zero : Volume -> bool;
  clamp_volume : Volume -> Volume;
  frames_of : Duration -> N -> N;
  samples_of : Duration -> N -> nat;
  oscillation : Tone -> nat -> N -> Sample;
  enveloped : nat -> nat -> nat -> nat -> Sample -> Sample;
  amplified : Tone -> Sample -> Sample
}.

(** [chunks_mut]: the last chunk may be shorter. *)
Fixpoint chunks {A : Type} (fuel k : nat) (l : list A) : list (list A) :=
  match fuel, l with
  | _, [] | 0, _ => []
  | S fuel, l => take k l :: chunks fuel k (drop k l)
  end.

(** A loop over the frames of a buffer: a step answers the new state and frame, what it
    reports, and whether the loop goes on; [None] is a panic. *)
Section frames.
Context {W A P : Type}.

Fixpoint over_frames (step : W -> list A -> option (W * list A * list P * bool)) (w : W)
    (frames : list (list A)) : option (W * list (list A) * list P) :=
  match frames with
  | [] => Some (w, [], [])
  | frame :: frames =>
    match step w frame with
    | None => None
    | Some (w, frame, reports, false) => Some (w, frame :: frames, reports)
    | Some (w, frame, reports, true) =>
      match over_frames step w frames with
      | None => None
      | Some (w, rest, more) => Some (w, frame :: rest, reports ++ more)
      end
    end
  end.
End frames.

(** ** A decoded file *)

(** [loop_edge_frames]: the fade at both ends of a cycle of a loop; [reports]: somebody
    is told of the progress. *)
Record WavSource (Sample Volume : Type) := mkWavSource {
  ws_samples : list Sample;
  ws_sample_rate : N;
  ws_output_channels : nat;
  ws_volume : Volume;
  ws_active : bool;
  ws_pos : nat;
  ws_release_frames : nat;
  ws_releasing : bool;
  ws_release_total : nat;
  ws_release_remaining : nat;
  ws_restart_after_release : bool;
  ws_loop_pause_frames : option nat;
  ws_loop_edge_frames : nat;
  ws_pause_remaining : nat;
  ws_update_interval : nat;
  ws_reports : bool
}.
Arguments mkWavSource {Sample Volume}.
Arguments ws_samples {Sample Volume}.
Arguments ws_sample_rate {Sample Volume}.
Arguments ws_output_channels {Sample Volume}.
Arguments ws_volume {Sample Volume}.
Arguments ws_active {Sample Volume}.
Arguments ws_pos {Sample Volume}.
Arguments ws_release_frames {Sample Volume}.
Arguments ws_releasing {Sample Volume}.
Arguments ws_release_total {Sample Volume}.
Arguments ws_release_remaining {Sample Volume}.
Arguments ws_restart_after_release {Sample Volume}.
Arguments ws_loop_pause_frames {Sample Volume}.
Arguments ws_loop_edge_frames {Sample Volume}.
Arguments ws_pause_remaining {Sample Volume}.
Arguments ws_update_interval {Sample Volume}.
Arguments ws_reports {Sample Volume}.

Module WavSource.
Section wav.
Context {Sample Volume Tone : Type} `{Signal Sample Volume Tone}.
Abbreviation Wav := (WavSource Sample Volume).

Definition with_volume (w : Wav) (v : Volume) : Wav :=
  mkWavSource (ws_samples w) (ws_sample_rate w) (ws_output_channels w) v (ws_active w) (ws_pos w)
    (ws_release_frames w) (ws_releasing w) (ws_release_total w) (ws_release_remaining w)
    (ws_restart_after_release w) (ws_loop_pause_frames w) (ws_loop_edge_frames w)
    (ws_pause_remaining w) (ws_update_interval w) (ws_reports w).
Definition with_active (w : Wav) (b : bool) : Wav :=
  mkWavSource (ws_samples w) (ws_sample_rate w) (ws_output_channels w) (ws_volume w) b (ws_pos w)
    (ws_release_frames w) (ws_releasing w) (ws_release_total w) (ws_release_remaining w)
    (ws_restart_after_release w) (ws_loop_pause_frames w) (ws_loop_edge_frames w)
    (ws_pause_remaining w) (ws_update_interval w) (ws_reports w).
Definition with_pos (w : Wav) (pos : nat) : Wav :=
  mkWavSource (ws_samples w) (ws_sample_rate w) (ws_output_channels w) (ws_volume w) (ws_active w) pos
    (ws_release_frames w) (ws_releasing w) (ws_release_total w) (ws_release_remaining w)
    (ws_restart_after_release w) (ws_loop_pause_frames w) (ws_loop_edge_frames w)
    (ws_pause_remaining w) (ws_update_interval w) (ws_reports w).
Definition with_release (w : Wav) (releasing : bool) (total remaining : nat) (restart : bool) : Wav :=
  mkWavSource (ws_samples w) (ws_sample_rate w) (ws_output_channels w) (ws_volume w) (ws_active w) (ws_pos w)
    (ws_release_frames w) releasing total remaining restart (ws_loop_pause_frames w)
    (ws_loop_edge_frames w) (ws_pause_remaining w) (ws_update_interval w) (ws_reports w).
Definition with_pause (w : Wav) (pause : nat) : Wav :=
  mkWavSource (ws_samples w) (ws_sample_rate w) (ws_output_channels w) (ws_volume w) (ws_active w) (ws_pos w)
    (ws_release_frames w) (ws_releasing w) (ws_release_total w) (ws_release_remaining w)
    (ws_restart_after_release w) (ws_loop_pause_frames w) (ws_loop_edge_frames w) pause
    (ws_update_interval w) (ws_reports w).

(** Ten milliseconds *)
Definition RELEASE_DURATION : Duration := 10000000%N.
(** Five milliseconds *)
Definition LOOP_EDGE_FADE : Duration := 5000000%N.

(** [samples] are those of the clip, resampled to the rate of the device. *)
Definition from_clip (samples : list Sample) (sample_rate : N) (output_channels : nat) (volume : Volume)
    (update_interval : option nat) (reports : bool) : Wav :=
  mkWavSource samples sample_rate (output_channels `max` 1) (clamp_volume volume) false 0
    (samples_of RELEASE_DURATION sample_rate `max` 1) false 0 0 false None 0 0
    (default 500 update_interval) reports.

Definition looped (w : Wav) (pause : Duration) : Wav :=
  mkWavSource (ws_samples w) (ws_sample_rate w) (ws_output_channels w) (ws_volume w) (ws_active w) (ws_pos w)
    (ws_release_frames w) (ws_releasing w) (ws_release_total w) (ws_release_remaining w)
    (ws_restart_after_release w) (Some (samples_of pause (ws_sample_rate w)))
    (samples_of LOOP_EDGE_FADE (ws_sample_rate w) `min` (length (ws_samples w) / 2))
    (ws_pause_remaining w) (ws_update_interval w) (ws_reports w).

Definition is_playing (w : Wav) : bool := ws_active w && (ws_pos w <? length (ws_samples w)).

Definition begin_release (w : Wav) (restart : bool) : Wav :=
  if ws_releasing w
  then with_release w true (ws_release_total w) (ws_release_remaining w) restart
  else
    let total := (ws_release_frames w `min` (length (ws_samples w) - ws_pos w)) `max` 1 in
    with_release w true total total restart.

Definition cancel_release (w : Wav) : Wav := with_release w false (ws_release_total w) 0 false.

(** The sample of the next frame *)
Definition next_sample (w : Wav) (s : Sample) : Sample :=
  let sample := scaled s (ws_volume w) in
  let distance := (ws_pos w + 1) `min` (length (ws_samples w) - ws_pos w) in
  let sample :=
    if (0 <? ws_loop_edge_frames w) && (distance <? ws_loop_edge_frames w)
    then faded distance (ws_loop_edge_frames w) sample else sample in
  if ws_releasing w then faded (ws_release_remaining w) (ws_release_total w) sample else sample.

(** A progress report: so many frames of so many *)
Definition Progress : Type := nat * nat.

Definition whole (w : Wav) : Progress := (length (ws_samples w), length (ws_samples w)).

(** [n.is_multiple_of(k)] *)
Definition is_multiple_of (n k : nat) : bool := if k =? 0 then n =? 0 else n mod k =? 0.

(** What follows a frame that was heard *)
Definition after_frame (w : Wav) : Wav * list Progress * bool :=
  if ws_releasing w && (ws_release_remaining w =? 0) then
    let restart := ws_restart_after_release w in
    let w := cancel_release w in
    if restart then (with_pos w 0, [], true) else (with_active w false, [], false)
  else if length (ws_samples w) <=? ws_pos w then
    let reports := if ws_reports w then [whole w] else [] in
    match ws_loop_pause_frames w with
    | Some 0 => (with_pos w 0, reports, true)
    | Some frames => (with_pause w frames, reports, true)
    | None => (with_active w false, reports, false)
    end
  else
    (w, if ws_reports w && is_multiple_of (ws_pos w) (ws_update_interval w)
        then [(ws_pos w, length (ws_samples w))] else [], true).

(** One frame: the panics are an index out of bounds and a subtraction below zero. *)
Definition mix_frame (w : Wav) (frame : list Sample) : option (Wav * list Sample * list Progress * bool) :=
  match ws_pause_remaining w with
  | S pause =>
    let w := with_pause w pause in
    Some (if pause =? 0 then with_pos w 0 else w, frame, [], true)
  | 0 =>
    match ws_samples w !! ws_pos w with
    | None => None
    | Some s =>
      let sample := next_sample w s in
      match (if ws_releasing w
             then match ws_release_remaining w with
                  | 0 => None
                  | S n => Some (with_release w true (ws_release_total w) n (ws_restart_after_release w))
                  end
             else Some w) with
      | None => None
      | Some w =>
        let '(w, reports, go_on) := after_frame (with_pos w (ws_pos w + 1)) in
        Some (w, map (λ s, add s sample) frame, reports, go_on)
      end
    end
  end.

(** The frames of a buffer *)
Definition mix_frames (w : Wav) (frames : list (list Sample)) :
    option (Wav * list (list Sample) * list Progress) :=
  if negb (ws_active w) || volume_is_zero (ws_volume w) then Some (w, frames, [])
  else if (length (ws_samples w) <=? ws_pos w) && (ws_pause_remaining w =? 0)
  then Some (with_active w false, frames, if ws_reports w then [whole w] else [])
  else over_frames mix_frame w frames.

Definition mix_into (w : Wav) (output : list Sample) : option (Wav * list Sample * list Progress) :=
  match mix_frames w (chunks (length output) (ws_output_channels w) output) with
  | None => None
  | Some (w, frames, reports) => Some (w, concat frames, reports)
  end.

Definition start (w : Wav) : Wav := with_active (cancel_release w) true.

Definition stop (w : Wav) : Wav :=
  if is_playing w then begin_release w false else with_active (with_pause w 0) false.

Definition restart (w : Wav) : Wav :=
  if is_playing w then begin_release w true
  else with_active (with_pos (with_pause (cancel_release w) 0) 0) true.

Definition set_volume (w : Wav) (v : Volume) : Wav := with_volume w (clamp_volume v).

(** The sum wraps at the width of a [usize]. *)
Definition skip (w : Wav) (duration : Duration) : Wav :=
  let frames := frames_of duration (ws_sample_rate w) in
  let pos := N.min ((N.of_nat (ws_pos w) + frames) mod 2 ^ 64) (N.of_nat (length (ws_samples w) - 1)) in
  with_pos w (N.to_nat pos).

Definition rewind (w : Wav) (duration : Duration) : Wav :=
  let frames := frames_of duration (ws_sample_rate w) in
  with_pos w (N.to_nat (N.of_nat (ws_pos w) - N.min frames (N.of_nat (ws_pos w)))).
End wav.
End WavSource.

(** A decoded file is a source of audio for the mixer; the panics, after which there is
    no source, do not happen (see SourceProperties). *)
#[export] Instance WavSource_AudioSource {Sample Volume Tone} `{Signal Sample Volume Tone} :
    AudioSource (WavSource Sample Volume) Volume Sample := {|
  equilibrium := silence;
  clamp := limited;
  Audio.mix_into w output :=
    match WavSource.mix_into w output with
    | Some (w, output, _) => (w, output)
    | None => (w, output)
    end;
  src_start := WavSource.start;
  src_stop := WavSource.stop;
  src_restart := WavSource.restart;
  src_set_volume v w := WavSource.set_volume w v;
  src_skip d w := WavSource.skip w d;
  src_rewind d w := WavSource.rewind w d
|}.

(** ** A synthesised tone *)

(** A segment as prepared: a tone or silence for so many samples *)
Record WaveformSource (Volume Tone : Type) := mkWaveformSource {
  wf_segments : list (option Tone * nat);
  wf_output_channels : nat;
  wf_volume : Volume;
  wf_attack_samples : nat;
  wf_release_samples : nat;
  wf_env_pos : nat;
  wf_active : bool;
  wf_releasing : bool;
  wf_restarting : bool;
  wf_sample_rate : N;
  wf_total_tone_samples : nat;
  wf_silence_samples : nat;
  wf_restart_samples : nat;
  wf_looped : bool;
  wf_current_segment_idx : nat;
  wf_segment_elapsed : nat;
  wf_cycle_pos : nat
}.
Arguments mkWaveformSource {Volume Tone}.
Arguments wf_segments {Volume Tone}.
Arguments wf_output_channels {Volume Tone}.
Arguments wf_volume {Volume Tone}.
Arguments wf_attack_samples {Volume Tone}.
Arguments wf_release_samples {Volume Tone}.
Arguments wf_env_pos {Volume Tone}.
Arguments wf_active {Volume Tone}.
Arguments wf_releasing {Volume Tone}.
Arguments wf_restarting {Volume Tone}.
Arguments wf_sample_rate {Volume Tone}.
Arguments wf_total_tone_samples {Volume Tone}.
Arguments wf_silence_samples {Volume Tone}.
Arguments wf_restart_samples {Volume Tone}.
Arguments wf_looped {Volume Tone}.
Arguments wf_current_segment_idx {Volume Tone}.
Arguments wf_segment_elapsed {Volume Tone}.
Arguments wf_cycle_pos {Volume Tone}.

Definition TARGET_SAMPLE_RATE : N := 48000.

Module WaveformSource.
Section waveform.
Context {Sample Volume Tone : Type} `{Signal Sample Volume Tone}.
Abbreviation Waveform := (WaveformSource Volume Tone).

(** The flags; the rest of the source stays. *)
Definition with_flags (w : Waveform) (active releasing restarting : bool) : Waveform :=
  mkWaveformSource (wf_segments w) (wf_output_channels w) (wf_volume w) (wf_attack_samples w)
    (wf_release_samples w) (wf_env_pos w) active releasing restarting (wf_sample_rate w)
    (wf_total_tone_samples w) (wf_silence_samples w) (wf_restart_samples w) (wf_looped w)
    (wf_current_segment_idx w) (wf_segment_elapsed w) (wf_cycle_pos w).

(** The position: in the envelope, in the cycle, the segment, and in the segment *)
Definition with_position (w : Waveform) (env_pos cycle_pos idx elapsed : nat) : Waveform :=
  mkWaveformSource (wf_segments w) (wf_output_channels w) (wf_volume w) (wf_attack_samples w)
    (wf_release_samples w) env_pos (wf_active w) (wf_releasing w) (wf_restarting w) (wf_sample_rate w)
    (wf_total_tone_samples w) (wf_silence_samples w) (wf_restart_samples w) (wf_looped w) idx elapsed cycle_pos.

Definition with_volume (w : Waveform) (v : Volume) : Waveform :=
  mkWaveformSource (wf_segments w) (wf_output_channels w) v (wf_attack_samples w)
    (wf_release_samples w) (wf_env_pos w) (wf_active w) (wf_releasing w) (wf_restarting w) (wf_sample_rate w)
    (wf_total_tone_samples w) (wf_silence_samples w) (wf_restart_samples w) (wf_looped w)
    (wf_current_segment_idx w) (wf_segment_elapsed w) (wf_cycle_pos w).

(** The assertions on frequencies, amplitudes and durations are the caller's. *)
Definition new (sequence : list (option Tone * Duration)) (pause_dur : option Duration) (fade_dur : Duration)
    (sample_rate : N) (output_channels : nat) (volume : Volume) : Waveform :=
  let segments := map (λ seg, (seg.1, samples_of seg.2 sample_rate)) sequence in
  let fade := samples_of fade_dur sample_rate in
  mkWaveformSource segments (output_channels `max` 1) (clamp_volume volume) fade fade 0 false false false
    sample_rate (sum_list (map snd segments))
    (match pause_dur with Some p => samples_of p sample_rate | None => 0 end)
    (N.to_nat (TARGET_SAMPLE_RATE / 10)) (bool_decide (is_Some pause_dur)) 0 0 0.

(** The sample of the segment at the position with its envelopes; [None] is an index
    out of bounds. *)
Definition generate (w : Waveform) : option Sample :=
  match wf_segments w !! wf_current_segment_idx w with
  | None => None
  | Some (None, _) => Some silence
  | Some (Some tone, samples) =>
    let value := oscillation tone (wf_segment_elapsed w) (wf_sample_rate w) in
    let value := enveloped (wf_segment_elapsed w) (wf_attack_samples w) (samples - wf_segment_elapsed w)
                   (wf_release_samples w) value in
    let value :=
      if wf_releasing w then
        if wf_release_samples w =? 0 then silence
        else faded (wf_release_samples w - wf_env_pos w `min` wf_release_samples w) (wf_release_samples w) value
      else value in
    Some (amplified tone value)
  end.

(** A frame inside the tone: the envelope and the segment advance. *)
Definition advance_segment (w : Waveform) : option Waveform :=
  match wf_segments w !! wf_current_segment_idx w with
  | None => None
  | Some (_, samples) =>
    let elapsed := wf_segment_elapsed w + 1 in
    if (samples <=? elapsed) && (wf_current_segment_idx w + 1 <? length (wf_segments w))
    then Some (with_position w (wf_env_pos w + 1) (wf_cycle_pos w) (wf_current_segment_idx w + 1) 0)
    else Some (with_position w (wf_env_pos w + 1) (wf_cycle_pos w) (wf_current_segment_idx w) elapsed)
  end.

(** The end of a cycle; [false] ends the loop over the frames. *)
Definition end_cycle (w : Waveform) : Waveform * bool :=
  let cycle_len := wf_total_tone_samples w +
    (if wf_restarting w then wf_restart_samples w else wf_silence_samples w) in
  if cycle_len <=? wf_cycle_pos w then
    if wf_restarting w then (with_position (with_flags w (wf_active w) false false) 0 0 0 0, true)
    else if wf_looped w then (with_position w 0 0 0 0, true)
    else (with_flags w false (wf_releasing w) (wf_restarting w), false)
  else (w, true).

(** The end of a release *)
Definition end_release (w : Waveform) : Waveform * bool :=
  if wf_releasing w && (wf_release_samples w <=? wf_env_pos w) then
    let w := with_flags w (wf_active w) false (wf_restarting w) in
    if wf_restarting w then
      (with_position w (wf_env_pos w) (wf_total_tone_samples w) (length (wf_segments w) - 1)
         (match last (wf_segments w) with Some s => s.2 | None => 0 end), true)
    else (with_flags w false (wf_releasing w) (wf_restarting w), false)
  else (w, true).

Definition mix_frame (w : Waveform) (frame : list Sample) : option (Waveform * list Sample * list () * bool) :=
  let tone := wf_cycle_pos w <? wf_total_tone_samples w in
  if negb tone && wf_releasing w && negb (wf_restarting w)
  then Some (with_flags w false false (wf_restarting w), frame, [], false)
  else
    match (if tone then
             match generate w, advance_segment w with
             | Some sample, Some w => Some (sample, w)
             | _, _ => None
             end
           else Some (silence, w)) with
    | None => None
    | Some (sample, w) =>
      let frame := map (λ s, add s (scaled sample (wf_volume w))) frame in
      let w := with_position w (wf_env_pos w) (wf_cycle_pos w + 1) (wf_current_segment_idx w) (wf_segment_elapsed w) in
      let (w, go_on) := end_cycle w in
      if go_on then let (w, go_on) := end_release w in Some (w, frame, [], go_on)
      else Some (w, frame, [], false)
    end.

Definition mix_frames (w : Waveform) (frames : list (list Sample)) :
    option (Waveform * list (list Sample) * list ()) :=
  if negb (wf_active w) || volume_is_zero (wf_volume w) then Some (w, frames, [])
  else over_frames mix_frame w frames.

Definition mix_into (w : Waveform) (output : list Sample) : option (Waveform * list Sample) :=
  match mix_frames w (chunks (length output) (wf_output_channels w) output) with
  | None => None
  | Some (w, frames, _) => Some (w, concat frames)
  end.

Definition start (w : Waveform) : Waveform := with_position (with_flags w true false false) 0 0 0 0.

Definition stop (w : Waveform) : Waveform :=
  if wf_active w && negb (wf_releasing w)
  then with_position (with_flags w (wf_active w) true (wf_restarting w)) 0 (wf_cycle_pos w)
         (wf_current_segment_idx w) (wf_segment_elapsed w)
  else w.

Definition restart (w : Waveform) : Waveform :=
  if wf_active w then let w := stop w in with_flags w (wf_active w) (wf_releasing w) true else start w.

Definition set_volume (w : Waveform) (v : Volume) : Waveform := with_volume w (clamp_volume v).
End waveform.
End WaveformSource.

#[export] Instance WaveformSource_AudioSource {Sample Volume Tone} `{Signal Sample Volume Tone} :
    AudioSource (WaveformSource Volume Tone) Volume Sample := {|
  equilibrium := silence;
  clamp := limited;
  Audio.mix_into w output :=
    match WaveformSource.mix_into w output with
    | Some (w, output) => (w, output)
    | None => (w, output)
    end;
  src_start := WaveformSource.start;
  src_stop := WaveformSource.stop;
  src_restart := WaveformSource.restart;
  src_set_volume v w := WaveformSource.set_volume w v;
  src_skip _ w := w;
  src_rewind _ w := w
|}.

(** ** The frames of a peer *)

(** The decoder writes to a ring of samples; [None] for a frame it could not decode or
    that only went to the resampler. *)
Record OpusSource (Sample Volume : Type) := mkOpusSource {
  os_queue : list Sample;
  os_output_channels : nat;
  os_volume : Volume;
  os_lost : nat
}.
Arguments mkOpusSource {Sample Volume}.
Arguments os_queue {Sample Volume}.
Arguments os_output_channels {Sample Volume}.
Arguments os_volume {Sample Volume}.
Arguments os_lost {Sample Volume}.

(** Twenty milliseconds *)
Definition FRAME_SIZE : nat := 960.

Module OpusSource.
Section opus.
Context {Sample Volume Tone : Type} `{Signal Sample Volume Tone}.
Abbreviation Opus := (OpusSource Sample Volume).

Definition RING_SIZE : nat := FRAME_SIZE * 10.

Definition new (output_channels : nat) (volume : Volume) : Opus :=
  mkOpusSource [] (output_channels `max` 1) (clamp_volume volume) 0.

(** [push_slice]: what does not fit is dropped. *)
Definition decoded (o : Opus) (samples : list Sample) : Opus :=
  let room := RING_SIZE - length (os_queue o) in
  mkOpusSource (os_queue o ++ take room samples) (os_output_channels o) (os_volume o)
    (os_lost o + length (drop room samples)).

(** [frame.zip(pop_iter)]; the amplification of the peer is part of [scaled]. *)
Fixpoint mix_zip (frames : list (list Sample)) (queue : list Sample) (v : Volume) :
    list (list Sample) * list Sample :=
  match frames, queue with
  | frame :: frames, s :: queue =>
    let (frames, queue) := mix_zip frames queue v in
    (map (λ x, add x (scaled s v)) frame :: frames, queue)
  | frames, queue => (frames, queue)
  end.

Definition mix_into (o : Opus) (output : list Sample) : Opus * list Sample :=
  let (frames, queue) := mix_zip (chunks (length output) (os_output_channels o) output) (os_queue o) (os_volume o) in
  (mkOpusSource queue (os_output_channels o) (os_volume o) (os_lost o), concat frames).

Definition set_volume (o : Opus) (v : Volume) : Opus :=
  mkOpusSource (os_queue o) (os_output_channels o) (clamp_volume v) (os_lost o).
End opus.
End OpusSource.

#[export] Instance OpusSource_AudioSource {Sample Volume Tone} `{Signal Sample Volume Tone} :
    AudioSource (OpusSource Sample Volume) Volume Sample := {|
  equilibrium := silence;
  clamp := limited;
  Audio.mix_into := OpusSource.mix_into;
  src_start o := o;
  src_stop o := o;
  src_restart o := o;
  src_set_volume v o := OpusSource.set_volume o v;
  src_skip _ o := o;
  src_rewind _ o := o
|}.

(** ** The framing of the captured input *)

(** [frame]: the samples of the frame so far; [mic] the state of the processing and of
    the encoder *)
Record OpusFramer (Sample Mic : Type) := mkOpusFramer { of_frame : list Sample; of_mic : Mic }.
Arguments mkOpusFramer {Sample Mic}.
Arguments of_frame {Sample Mic}.
Arguments of_mic {Sample Mic}.

Module OpusFramer.
Section framer.
Context {Sample Volume Tone Mic Encoded : Type} `{Signal Sample Volume Tone}.

(** The processing and encoding of a whole frame; [None] if it cannot be encoded *)
Variable encode : Mic -> list Sample -> Mic * option Encoded.

(** [push_slice] with the fuel of its loop: every turn takes at least one sample. *)
Fixpoint push (fuel : nat) (f : OpusFramer Sample Mic) (samples : list Sample) :
    OpusFramer Sample Mic * list Encoded :=
  match fuel, samples with
  | S fuel, _ :: _ =>
    let take_n := (FRAME_SIZE - length (of_frame f)) `min` length samples in
    let frame := of_frame f ++ take take_n samples in
    let samples := drop take_n samples in
    if length frame =? FRAME_SIZE then
      let (mic, encoded) := encode (of_mic f) frame in
      let (f, sent) := push fuel (mkOpusFramer [] mic) samples in
      (f, match encoded with Some e => e :: sent | None => sent end)
    else push fuel (mkOpusFramer frame (of_mic f)) samples
  | _, _ => (f, [])
  end.

Definition push_slice (f : OpusFramer Sample Mic) (samples : list Sample) (gain : Volume) :
    OpusFramer Sample Mic * list Encoded :=
  push (length samples) f (map (λ s, scaled s gain) samples).
End framer.
End OpusFramer.
