(* ===== verification/SourceProperties.v ===== *)
(** SourceProperties: the theorems about what is heard: no source reads past its
    samples, how the device cuts its buffers makes no difference, a clip is heard once
    and fades when it is stopped, and the captured input is framed whole. *)
From stdpp Require Import prelude gmap strings list.
From Stdlib Require Import NArith.
From S2P Require Import Prelude Audio Sources.

(** ** Loops over the frames of a buffer *)

Section loops.
Context {W A P : Type}.
Variable step : W -> list A -> option (W * list A * list P * bool).
Variable mix : W -> list (list A) -> option (W * list (list A) * list P).
Variable live : W -> Prop.

(** While it is live a source steps; a source that ended leaves the frames alone. *)
Record looping : Prop := {
  lp_live : forall w frames, live w -> mix w frames = over_frames step w frames;
  lp_goes_on : forall w frame w' frame' r, live w -> step w frame = Some (w', frame', r, true) -> live w';
  lp_ends : forall w frame w' frame' r frames, live w -> step w frame = Some (w', frame', r, false) ->
    mix w' frames = Some (w', frames, [])
}.

Definition mix_twice (w : W) (fs gs : list (list A)) : option (W * list (list A) * list P) :=
  match mix w fs with
  | None => None
  | Some (w, fs, r) =>
    match mix w gs with
    | None => None
    | Some (w, gs, r') => Some (w, fs ++ gs, r ++ r')
    end
  end.

Lemma looping_seamless w fs gs : looping -> live w -> mix_twice w fs gs = mix w (fs ++ gs).
Proof.
  intros [Hl Hg He] Hw. unfold mix_twice. rewrite (Hl w fs Hw), (Hl w (fs ++ gs) Hw).
  revert w Hw. induction fs as [|frame fs IH]; intros w Hw.
  - cbn. rewrite (Hl w gs Hw). by destruct (over_frames step w gs) as [[[w' gs'] r]|].
  - cbn [over_frames app]. destruct (step w frame) as [[[[w1 frame1] r1] []]|] eqn:Hs; [| |done].
    + specialize (IH w1 (Hg _ _ _ _ _ Hw Hs)). rewrite <- IH.
      destruct (over_frames step w1 fs) as [[[w2 fs2] r2]|]; [|done].
      destruct (mix w2 gs) as [[[w3 gs3] r3]|]; [|done]. by rewrite <- app_assoc.
    + rewrite (He _ _ _ _ _ gs Hw Hs). by rewrite app_nil_r.
Qed.

(** An invariant of the steps holds after a buffer. *)
Lemma over_frames_keeps (I : W -> Prop) w frames : live w -> I w ->
  (forall w frame, live w -> I w -> exists w' frame' r go_on, step w frame = Some (w', frame', r, go_on) /\
     I w' /\ (go_on = true -> live w')) ->
  exists w' frames' r, over_frames step w frames = Some (w', frames', r) /\ I w'.
Proof.
  intros Hw Hi Hstep. revert w Hw Hi. induction frames as [|frame frames IH]; intros w Hw Hi; cbn.
  - by exists w, [], [].
  - destruct (Hstep w frame Hw Hi) as (w1 & frame1 & r1 & go_on & -> & Hi1 & Hl1). destruct go_on.
    + destruct (IH w1 (Hl1 eq_refl) Hi1) as (w2 & frames2 & r2 & -> & Hi2). by eexists _, _, _.
    + by eexists _, _, _.
Qed.
End loops.

Lemma chunks_concat {A : Type} k (frames : list (list A)) fuel : 0 < k -> Forall (λ f, length f = k) frames ->
  length frames <= fuel -> chunks fuel k (concat frames) = frames.
Proof.
  intros Hk Hf. revert fuel. induction Hf as [|f frames Hlen Hf IH]; intros fuel Hfuel; [by destruct fuel|].
  destruct fuel as [|fuel]; [cbn in Hfuel; lia|]. cbn [concat].
  destruct (f ++ concat frames) as [|x l] eqn:E.
  - apply (f_equal length) in E. rewrite length_app in E. cbn in E. lia.
  - cbn [chunks]. rewrite <- E, take_app_length', drop_app_length' by done. rewrite IH; [done|].
    cbn in Hfuel. lia.
Qed.

Lemma length_concat_frames {A : Type} k (frames : list (list A)) : 0 < k -> Forall (λ f, length f = k) frames ->
  length frames <= length (concat frames).
Proof.
  intros Hk Hf. induction Hf as [|f frames Hlen Hf IH]; [done|]. cbn. rewrite length_app. lia.
Qed.

(** ** A decoded file *)

Section wav.
Context {Sample Volume Tone : Type} `{Signal Sample Volume Tone}.
Abbreviation Wav := (WavSource Sample Volume).

(** The positions are in bounds. *)
Record wav_ok (w : Wav) : Prop := {
  wo_pos : ws_pos w <= length (ws_samples w);
  wo_pause : 0 < ws_pause_remaining w -> 0 < length (ws_samples w);
  wo_release : ws_releasing w = true -> 0 < ws_release_remaining w;
  wo_channels : 0 < ws_output_channels w
}.

Definition wav_live (w : Wav) : Prop :=
  ws_active w = true /\ volume_is_zero (ws_volume w) = false /\
  (ws_pos w < length (ws_samples w) \/ 0 < ws_pause_remaining w).

Lemma wav_mix_live (w : Wav) frames : wav_live w ->
  WavSource.mix_frames w frames = over_frames WavSource.mix_frame w frames.
Proof.
  intros (Ha & Hv & Hp). unfold WavSource.mix_frames. rewrite Ha, Hv. cbn.
  destruct (Nat.leb_spec (length (ws_samples w)) (ws_pos w)); cbn; [|done].
  destruct (Nat.eqb_spec (ws_pause_remaining w) 0); [lia|done].
Qed.

Lemma wav_mix_idle (w : Wav) frames : ws_active w = false ->
  WavSource.mix_frames w frames = Some (w, frames, []).
Proof. intros Ha. unfold WavSource.mix_frames. by rewrite Ha. Qed.

(** What stays over a frame *)
Record same_clip (w w' : Wav) : Prop := {
  sc_samples : ws_samples w' = ws_samples w;
  sc_volume : ws_volume w' = ws_volume w;
  sc_channels : ws_output_channels w' = ws_output_channels w;
  sc_loop : ws_loop_pause_frames w' = ws_loop_pause_frames w;
  sc_edge : ws_loop_edge_frames w' = ws_loop_edge_frames w;
  sc_release : ws_release_frames w' = ws_release_frames w
}.

Lemma wav_frame (w : Wav) frame : wav_ok w -> wav_live w ->
  exists w' frame' r go_on, WavSource.mix_frame w frame = Some (w', frame', r, go_on) /\
    wav_ok w' /\ same_clip w w' /\ length frame' = length frame /\
    (if go_on then wav_live w' else ws_active w' = false).
Proof.
  intros [H1 H2 H3 H4] (Ha & Hv & Hp). unfold WavSource.mix_frame.
  destruct (ws_pause_remaining w) as [|pause] eqn:Ep.
  - assert (ws_pos w < length (ws_samples w)) as Hlt by (destruct Hp; lia).
    destruct (lookup_lt_is_Some_2 _ _ Hlt) as [s ->].
    set (rel := (if ws_releasing w then _ else _) : option Wav).
    assert (exists w1, rel = Some w1 /\ same_clip w w1 /\ ws_pos w1 = ws_pos w /\ ws_active w1 = true /\
      ws_pause_remaining w1 = 0 /\ (ws_releasing w1 = true -> ws_releasing w = true)) as
      (w1 & -> & Hs1 & Hp1 & Ha1 & Hpa1 & Hr1).
    { subst rel. destruct (ws_releasing w) eqn:Er.
      - destruct (ws_release_remaining w) as [|n] eqn:En; [specialize (H3 eq_refl); lia|].
        eexists. split; [done|]. by split_and!.
      - eexists. split; [done|]. split_and!; [done..|congruence]. }
    destruct Hs1 as [E1 E2 E3 E4 E5 E6].
    unfold WavSource.after_frame. cbn [ws_releasing ws_release_remaining ws_restart_after_release ws_samples
      ws_pos ws_loop_pause_frames WavSource.with_pos]. rewrite Hp1, E1.
    destruct (ws_releasing w1 && (ws_release_remaining w1 =? 0)) eqn:Hrel.
    { destruct (ws_restart_after_release w1); eexists _, _, _, _; (split; [done|]);
        (split; [split; cbn; rewrite ?E1; try done; lia|]); (split; [split; cbn; congruence|]); (split; [by rewrite length_map|]); [|done].
      split_and!; cbn; [done|by rewrite E2|left; rewrite E1; lia]. }
    assert (ws_releasing w1 = true -> 0 < ws_release_remaining w1) as Hr2.
    { intros Hr. rewrite Hr in Hrel. cbn in Hrel. apply Nat.eqb_neq in Hrel. lia. }
    destruct (Nat.leb_spec (length (ws_samples w)) (ws_pos w + 1)) as [Hle|Hlt'].
    + destruct (ws_loop_pause_frames w1) as [[|frames]|] eqn:El; eexists _, _, _, _; (split; [done|]);
        (split; [split; cbn; rewrite ?E1, ?E3; try done; lia|]); (split; [split; cbn; congruence|]);
        (split; [by rewrite length_map|]); [| |done].
      * split_and!; cbn; [done|by rewrite E2|left; rewrite E1; lia].
      * split_and!; cbn; [done|by rewrite E2|right; lia].
    + eexists _, _, _, _. split; [done|]. split; [split; cbn; rewrite ?E1, ?E3, ?Hpa1; try done; lia|].
      split; [split; cbn; congruence|]. split; [by rewrite length_map|].
      split_and!; cbn; [done|by rewrite E2|left; rewrite E1; lia].
  - eexists _, _, _, _. split; [done|]. destruct (Nat.eqb_spec pause 0) as [->|Hne].
    + split; [split; cbn; try done; lia|]. split; [by split|]. split; [done|]. split_and!; cbn; [done|done|].
      left. apply H2. lia.
    + split; [split; cbn; try done; intros; apply H2; lia|]. split; [by split|]. split; [done|].
      split_and!; cbn; [done|done|right; lia].
Qed.

Lemma wav_looping : looping WavSource.mix_frame WavSource.mix_frames (λ w, wav_ok w /\ wav_live w).
Proof.
  split.
  - intros w frames [_ Hl]. by apply wav_mix_live.
  - intros w frame w' frame' r [Ho Hl] E. destruct (wav_frame w frame Ho Hl) as (? & ? & ? & ? & E' & ? & ? & ? & ?).
    rewrite E in E'. injection E' as <- <- <- <-. done.
  - intros w frame w' frame' r frames [Ho Hl] E.
    destruct (wav_frame w frame Ho Hl) as (? & ? & ? & ? & E' & ? & ? & ? & Hgo).
    rewrite E in E'. injection E' as <- <- <- <-. by apply wav_mix_idle.
Qed.

(** A buffer never panics and keeps the positions in bounds. *)
Lemma wav_mix_frames (w : Wav) frames : wav_ok w ->
  exists w' frames' r, WavSource.mix_frames w frames = Some (w', frames', r) /\ wav_ok w' /\ same_clip w w'.
Proof.
  intros Ho. destruct (ws_active w) eqn:Ha.
  2: { rewrite wav_mix_idle by done. by eexists _, _, _. }
  destruct (volume_is_zero (ws_volume w)) eqn:Hv.
  { unfold WavSource.mix_frames. rewrite Ha, Hv. by eexists _, _, _. }
  destruct (decide (ws_pos w < length (ws_samples w) \/ 0 < ws_pause_remaining w)) as [Hp|Hp].
  - rewrite wav_mix_live by done.
    destruct (over_frames_keeps WavSource.mix_frame wav_live (λ w', wav_ok w' /\ same_clip w w') w frames)
      as (w' & frames' & r & E & Hw' & Hs'); [done|by split| |by eexists _, _, _].
    intros w1 frame Hl1 [Ho1 Hs1]. destruct (wav_frame w1 frame Ho1 Hl1) as (w2 & f2 & r2 & go_on & E2 & Ho2 & Hs2 & _ & Hgo).
    eexists _, _, _, _. split; [done|]. split; [split; [done|]|by intros ->].
    destruct Hs1, Hs2; split; congruence.
  - unfold WavSource.mix_frames. rewrite Ha, Hv. cbn.
    destruct (Nat.leb_spec (length (ws_samples w)) (ws_pos w)); [|lia].
    destruct (Nat.eqb_spec (ws_pause_remaining w) 0); [|lia]. cbn. eexists _, _, _. split; [done|].
    destruct Ho; by split.
Qed.
(** *** Runs *)

Inductive WavOp :=
| Mix (output : list Sample)
| Start
| Stop
| Restart
| SetVolumeTo (v : Volume)
| Skip (d : Duration)
| Rewind (d : Duration).

Definition wav_step (w : Wav) (op : WavOp) : option Wav :=
  match op with
  | Mix output => match WavSource.mix_into w output with Some (w, _, _) => Some w | None => None end
  | Start => Some (WavSource.start w)
  | Stop => Some (WavSource.stop w)
  | Restart => Some (WavSource.restart w)
  | SetVolumeTo v => Some (WavSource.set_volume w v)
  | Skip d => Some (WavSource.skip w d)
  | Rewind d => Some (WavSource.rewind w d)
  end.

Fixpoint wav_run (w : Wav) (ops : list WavOp) : option Wav :=
  match ops with
  | [] => Some w
  | op :: ops => match wav_step w op with Some w => wav_run w ops | None => None end
  end.

Lemma begin_release_ok (w : Wav) b : wav_ok w -> wav_ok (WavSource.begin_release w b).
Proof.
  intros [H1 H2 H3 H4]. unfold WavSource.begin_release. destruct (ws_releasing w) eqn:Er; split; cbn; auto; lia.
Qed.

Lemma wav_step_ok (w : Wav) op : wav_ok w ->
  exists w', wav_step w op = Some w' /\ wav_ok w' /\ ws_samples w' = ws_samples w.
Proof.
  intros Ho. destruct op as [output| | | |v|d|d]; cbn [wav_step].
  - unfold WavSource.mix_into.
    destruct (wav_mix_frames w (chunks (length output) (ws_output_channels w) output) Ho) as (w' & fs & r & -> & Ho' & Hs).
    eexists. split_and!; [done|done|apply Hs].
  - eexists. split_and!; [done| |done]. destruct Ho. by split.
  - eexists. split_and!; [done| |].
    + unfold WavSource.stop. destruct (WavSource.is_playing w); [by apply begin_release_ok|].
      destruct Ho. split; cbn; [done|lia|done|done].
    + unfold WavSource.stop, WavSource.begin_release. destruct (WavSource.is_playing w), (ws_releasing w); done.
  - eexists. split_and!; [done| |].
    + unfold WavSource.restart. destruct (WavSource.is_playing w); [by apply begin_release_ok|].
      destruct Ho. split; cbn; [lia|lia|done|done].
    + unfold WavSource.restart, WavSource.begin_release. destruct (WavSource.is_playing w), (ws_releasing w); done.
  - eexists. split_and!; [done| |done]. destruct Ho. by split.
  - eexists. split_and!; [done| |done]. destruct Ho as [H1 H2 H3 H4]. split; cbn; [lia|done..].
  - eexists. split_and!; [done| |done]. destruct Ho as [H1 H2 H3 H4]. split; cbn; [lia|done..].
Qed.

(** No panic in the callback of the device: whatever is done with a decoded clip -
    looped or not, of any length, empty ones included, started, stopped, restarted and
    sought at any time, mixed into buffers of any size - no sample is read outside the
    clip and no counter falls below zero, and the position stays within the clip. *)
Theorem clip_never_panics samples rate channels volume interval reports (pause : option Duration)
    (ops : list WavOp) :
  let w := WavSource.from_clip samples rate channels volume interval reports in
  let w := match pause with Some p => WavSource.looped w p | None => w end in
  exists w', wav_run w ops = Some w' /\ ws_samples w' = samples /\ ws_pos w' <= length samples.
Proof.
  cbn. set (w := match pause with Some _ => _ | None => _ end).
  assert (wav_ok w /\ ws_samples w = samples) as [Ho Hs].
  { subst w. destruct pause; (split; [split; cbn; lia || done|done]). }
  clearbody w. revert w Ho Hs. induction ops as [|op ops IH]; intros w Ho Hs; cbn.
  - exists w. split_and!; [done|done|]. rewrite <- Hs. apply Ho.
  - destruct (wav_step_ok w op Ho) as (w' & -> & Ho' & Hs'). apply IH; [done|]. by rewrite Hs'.
Qed.

(** How the device cuts its buffers is not heard: to mix two buffers one after the
    other is to mix them as one - the samples, the reports of the progress and what
    becomes of the clip. *)
Theorem clip_mixing_is_seamless (w : Wav) fs gs : wav_ok w ->
  mix_twice WavSource.mix_frames w fs gs = WavSource.mix_frames w (fs ++ gs).
Proof.
  intros Ho. destruct (ws_active w) eqn:Ha.
  2: { unfold mix_twice. by rewrite ?wav_mix_idle by done. }
  destruct (volume_is_zero (ws_volume w)) eqn:Hv.
  { assert (forall l, WavSource.mix_frames w l = Some (w, l, [])) as Hz
      by (intros l; unfold WavSource.mix_frames; by rewrite Ha, Hv).
    unfold mix_twice. by rewrite ?Hz. }
  destruct (decide (ws_pos w < length (ws_samples w) \/ 0 < ws_pause_remaining w)) as [Hp|Hp].
  - by eapply looping_seamless; [apply wav_looping|].
  - assert (forall l, WavSource.mix_frames w l =
      Some (WavSource.with_active w false, l, if ws_reports w then [WavSource.whole w] else [])) as Hz.
    { intros l. unfold WavSource.mix_frames. rewrite Ha, Hv. cbn.
      destruct (Nat.leb_spec (length (ws_samples w)) (ws_pos w)); [|lia].
      by destruct (Nat.eqb_spec (ws_pause_remaining w) 0); [|lia]. }
    unfold mix_twice. rewrite ?Hz. rewrite wav_mix_idle by done. by rewrite app_nil_r.
Qed.

(** *** What is heard of a clip *)

Definition heard (v : Volume) (samples : list Sample) (frames : list (list Sample)) : list (list Sample) :=
  zip_with (λ frame s, map (λ x, add x (scaled s v)) frame) frames samples ++ drop (length samples) frames.

(** A clip that plays on undisturbed *)
Record playing_on (w : Wav) : Prop := {
  po_active : ws_active w = true;
  po_volume : volume_is_zero (ws_volume w) = false;
  po_calm : ws_releasing w = false;
  po_pause : ws_pause_remaining w = 0;
  po_once : ws_loop_pause_frames w = None;
  po_edge : ws_loop_edge_frames w = 0
}.

Lemma play_frame (w : Wav) frame s : playing_on w -> ws_samples w !! ws_pos w = Some s ->
  WavSource.mix_frame w frame =
    let w1 := WavSource.with_pos w (ws_pos w + 1) in
    let frame := map (λ x, add x (scaled s (ws_volume w))) frame in
    if length (ws_samples w) <=? ws_pos w + 1
    then Some (WavSource.with_active w1 false, frame, if ws_reports w then [WavSource.whole w] else [], false)
    else Some (w1, frame, if ws_reports w && WavSource.is_multiple_of (ws_pos w + 1) (ws_update_interval w)
                          then [(ws_pos w + 1, length (ws_samples w))] else [], true).
Proof.
  intros [P1 P2 P3 P4 P5 P6] Hs. unfold WavSource.mix_frame, WavSource.next_sample. rewrite P4, Hs, P3, P6.
  unfold WavSource.after_frame. cbn -[Nat.leb length]. rewrite P3, P5. cbn -[Nat.leb length].
  by destruct (length (ws_samples w) <=? ws_pos w + 1).
Qed.

Lemma plays_on (w : Wav) frames : playing_on w -> ws_pos w < length (ws_samples w) ->
  length (ws_samples w) - ws_pos w <= length frames ->
  exists w' r, over_frames WavSource.mix_frame w frames =
      Some (w', heard (ws_volume w) (drop (ws_pos w) (ws_samples w)) frames, r) /\
    ws_active w' = false /\ ws_pos w' = length (ws_samples w) /\
    (ws_reports w = true -> last r = Some (WavSource.whole w)).
Proof.
  revert w. induction frames as [|frame frames IH]; intros w Hp Hpos Hlen; [cbn in Hlen; lia|].
  cbn [over_frames]. destruct (lookup_lt_is_Some_2 _ _ Hpos) as [s Hs]. rewrite (play_frame w frame s Hp Hs).
  assert (drop (ws_pos w) (ws_samples w) = s :: drop (ws_pos w + 1) (ws_samples w)) as ->
    by (rewrite Nat.add_1_r; by apply drop_S).
  cbv zeta. destruct (Nat.leb_spec (length (ws_samples w)) (ws_pos w + 1)) as [Hle|Hlt].
  - eexists _, _. split_and!.
    + rewrite (drop_ge (ws_samples w)) by lia. unfold heard. cbn. by rewrite zip_with_nil_r, drop_0.
    + done.
    + cbn. lia.
    + by intros ->.
  - assert (playing_on (WavSource.with_pos w (ws_pos w + 1))) as Hp' by (destruct Hp; by split).
    destruct (IH _ Hp' Hlt) as (w' & r & E & Ha' & Hpos' & Hr'); [cbn in *; lia|].
    cbn [ws_pos ws_samples ws_volume WavSource.with_pos] in E. rewrite E. eexists _, _. split_and!; [done|done|done|].
    intros Hrep. cbn in Hr'. rewrite last_app. by rewrite (Hr' Hrep).
Qed.

(** A clip that is restarted is heard once, from its beginning to its end: every
    frame of the output, on all channels, gets one sample of the clip at its volume, in
    order; what comes after the clip is left alone; then the source rests, and the last
    progress it reports is the whole. *)
Theorem clip_is_heard_once (w : Wav) frames : wav_ok w ->
  WavSource.is_playing w = false -> ws_loop_pause_frames w = None -> ws_loop_edge_frames w = 0 ->
  volume_is_zero (ws_volume w) = false -> 0 < length (ws_samples w) <= length frames ->
  exists w' r, WavSource.mix_frames (WavSource.restart w) frames =
      Some (w', heard (ws_volume w) (ws_samples w) frames, r) /\
    ws_active w' = false /\ (ws_reports w = true -> last r = Some (WavSource.whole w)) /\
    forall more, WavSource.mix_frames w' more = Some (w', more, []).
Proof.
  intros Ho Hi Hl He Hv Hlen. unfold WavSource.restart. rewrite Hi. set (w1 := WavSource.with_active _ true).
  assert (playing_on w1) as Hp by by split.
  rewrite wav_mix_live by (split_and!; [done|done|left; cbn; lia]).
  destruct (plays_on w1 frames Hp) as (w' & r & E & Ha & _ & Hr); [cbn; lia..|]. cbn in E. rewrite drop_0 in E.
  exists w', r. split_and!; [done|done|done|]. intros more. by apply wav_mix_idle.
Qed.
(** *** Stopping *)

(** Without seeking a pause is at the end of the clip and a release is within it. *)
Record tidy (w : Wav) : Prop := {
  td_ok : wav_ok w;
  td_pause : 0 < ws_pause_remaining w -> ws_pos w = length (ws_samples w) /\ ws_releasing w = false;
  td_release : ws_releasing w = true ->
    ws_release_remaining w <= length (ws_samples w) - ws_pos w /\ ws_release_remaining w <= ws_release_frames w;
  td_frames : 0 < ws_release_frames w
}.

Lemma tidy_begin_release (w : Wav) b : tidy w -> WavSource.is_playing w = true ->
  tidy (WavSource.begin_release w b) /\ ws_releasing (WavSource.begin_release w b) = true /\
  ws_restart_after_release (WavSource.begin_release w b) = b.
Proof.
  intros [H1 H2 H3 H4] [Ha Hp%Nat.ltb_lt]%andb_true_iff.
  pose proof (begin_release_ok w b H1) as Ho. unfold WavSource.begin_release in *.
  destruct (ws_releasing w) eqn:Er; (split; [|done]); split; cbn in *; try done;
    first [intros Hpa; destruct (H2 Hpa); by (done || lia)|intros _; lia].
Qed.

Lemma tidy_frame (w : Wav) frame w' frame' r go_on : tidy w -> wav_live w ->
  WavSource.mix_frame w frame = Some (w', frame', r, go_on) -> tidy w'.
Proof.
  intros [H1 H2 H3 H4] Hl E. destruct (wav_frame w frame H1 Hl) as (? & ? & ? & ? & E' & Ho & Hs & _ & _).
  rewrite E in E'. injection E' as <- <- <- <-. destruct Hs as [S1 S2 S3 S4 S5 S6].
  split; [done| | |by rewrite S6]; rewrite S1, ?S6; clear Ho S1 S2 S3 S4 S5 S6;
    unfold WavSource.mix_frame, WavSource.after_frame in E; destruct H1 as [W1 W2 W3 W4];
    destruct (ws_pause_remaining w) as [|pause] eqn:Ep.
  - destruct (ws_samples w !! ws_pos w) as [s|] eqn:Es; [|done]. apply lookup_lt_Some in Es.
    destruct (ws_releasing w) eqn:Er.
    + destruct (ws_release_remaining w) as [|n] eqn:En; [done|]. cbn -[Nat.leb length] in E.
      destruct (H3 eq_refl) as [H5 H6]. destruct (Nat.eqb_spec n 0) as [->|Hn].
      * destruct (ws_restart_after_release w); injection E as <- <- <- <-; cbn; rewrite ?Ep; lia.
      * destruct (Nat.leb_spec (length (ws_samples w)) (ws_pos w + 1)); [lia|].
        injection E as <- <- <- <-. cbn. rewrite Ep. lia.
    + cbn -[Nat.leb length] in E. rewrite Er in E. cbn -[Nat.leb length] in E.
      destruct (Nat.leb_spec (length (ws_samples w)) (ws_pos w + 1)).
      * destruct (ws_loop_pause_frames w) as [[|k]|]; injection E as <- <- <- <-; cbn; rewrite ?Ep, ?Er; lia.
      * injection E as <- <- <- <-. cbn. rewrite Ep. lia.
  - injection E as <- <- <- <-. destruct (H2 ltac:(lia)) as [Hpos Hr].
    destruct (Nat.eqb_spec pause 0) as [->|Hn]; cbn; [lia|]. done.
  - destruct (ws_samples w !! ws_pos w) as [s|] eqn:Es; [|done]. apply lookup_lt_Some in Es.
    destruct (ws_releasing w) eqn:Er.
    + destruct (ws_release_remaining w) as [|n] eqn:En; [done|]. cbn -[Nat.leb length] in E.
      destruct (H3 eq_refl) as [H5 H6]. destruct (Nat.eqb_spec n 0) as [->|Hn].
      * destruct (ws_restart_after_release w); injection E as <- <- <- <-; done.
      * destruct (Nat.leb_spec (length (ws_samples w)) (ws_pos w + 1)); [lia|].
        injection E as <- <- <- <-. cbn. lia.
    + cbn -[Nat.leb length] in E. rewrite Er in E. cbn -[Nat.leb length] in E.
      destruct (Nat.leb_spec (length (ws_samples w)) (ws_pos w + 1)).
      * destruct (ws_loop_pause_frames w) as [[|k]|]; injection E as <- <- <- <-; cbn; by rewrite Er.
      * injection E as <- <- <- <-. cbn. by rewrite Er.
  - injection E as <- <- <- <-. destruct (H2 ltac:(lia)) as [_ Hr].
    destruct (Nat.eqb_spec pause 0) as [->|Hn]; cbn; by rewrite Hr.
Qed.

Lemma tidy_mix (w : Wav) frames w' frames' r : tidy w ->
  WavSource.mix_frames w frames = Some (w', frames', r) -> tidy w'.
Proof.
  intros Ht E. destruct (ws_active w) eqn:Ha.
  2: { rewrite wav_mix_idle in E by done. by injection E as <- <- <-. }
  destruct (volume_is_zero (ws_volume w)) eqn:Hv.
  { unfold WavSource.mix_frames in E. rewrite Ha, Hv in E. by injection E as <- <- <-. }
  destruct (decide (ws_pos w < length (ws_samples w) \/ 0 < ws_pause_remaining w)) as [Hp|Hp].
  - rewrite wav_mix_live in E by done.
    destruct (over_frames_keeps WavSource.mix_frame wav_live tidy w frames) as (w2 & fs2 & r2 & E2 & Ht2);
      [done|done| |rewrite E in E2; by injection E2 as <- <- <-].
    intros w1 frame Hl1 Ht1. destruct (wav_frame w1 frame (td_ok _ Ht1) Hl1) as (w3 & f3 & r3 & go & E3 & _ & _ & _ & Hgo).
    eexists _, _, _, _. split; [done|]. split; [by eapply tidy_frame|by intros ->].
  - unfold WavSource.mix_frames in E. rewrite Ha, Hv in E. cbn in E.
    destruct (Nat.leb_spec (length (ws_samples w)) (ws_pos w)); [|lia].
    destruct (Nat.eqb_spec (ws_pause_remaining w) 0); [|lia]. injection E as <- <- <-.
    destruct Ht as [[W1 W2 W3 W4] H2 H3 H4]. by split; [split|..].
Qed.

Definition seeks (op : WavOp) : bool := match op with Skip _ | Rewind _ => true | _ => false end.

Lemma tidy_step (w : Wav) op w' : tidy w -> seeks op = false -> wav_step w op = Some w' -> tidy w'.
Proof.
  intros Ht Hs. destruct op as [output| | | |v|d|d]; try done; cbn [wav_step].
  - unfold WavSource.mix_into. destruct (WavSource.mix_frames _ _) as [[[w1 fs] r]|] eqn:E; [|done].
    intros [= <-]. by eapply tidy_mix.
  - intros [= <-]. destruct Ht as [[W1 W2 W3 W4] H2 H3 H4]. split; [by split| |done|done]. cbn.
    intros Hp. by destruct (H2 Hp).
  - intros [= <-]. unfold WavSource.stop. destruct (WavSource.is_playing w) eqn:Hp; [by apply tidy_begin_release|].
    destruct Ht as [[W1 W2 W3 W4] H2 H3 H4]. split; [split; cbn; try done; lia|cbn; lia|done|done].
  - intros [= <-]. unfold WavSource.restart. destruct (WavSource.is_playing w) eqn:Hp; [by apply tidy_begin_release|].
    destruct Ht as [[W1 W2 W3 W4] H2 H3 H4]. split; [split; cbn; try done; lia|cbn; lia|done|done].
  - intros [= <-]. by destruct Ht as [[W1 W2 W3 W4] H2 H3 H4].
Qed.

Lemma tidy_run ops (w w' : Wav) : tidy w -> Forall (λ op, seeks op = false) ops -> wav_run w ops = Some w' -> tidy w'.
Proof.
  revert w. induction ops as [|op ops IH]; intros w Ht Hs E; cbn in E; [by injection E as <-|].
  apply Forall_cons in Hs as [Hop Hs]. destruct (wav_step w op) as [w1|] eqn:E1; [|done].
  eapply IH; [by eapply tidy_step|done|done].
Qed.
(** A release runs out. *)
Lemma fades (w : Wav) frames : wav_live w -> wav_ok w -> ws_releasing w = true -> ws_restart_after_release w = false ->
  ws_pause_remaining w = 0 -> ws_release_remaining w <= length (ws_samples w) - ws_pos w ->
  ws_release_remaining w <= length frames ->
  exists w' frames' r, over_frames WavSource.mix_frame w frames = Some (w', frames', r) /\ ws_active w' = false /\
    drop (ws_release_remaining w) frames' = drop (ws_release_remaining w) frames.
Proof.
  revert w. induction frames as [|frame frames IH]; intros w Hl Ho Hr Hb Hp Hrem Hlen.
  { pose proof (wo_release _ Ho Hr). cbn in Hlen. lia. }
  pose proof (wo_release _ Ho Hr) as Hpos. cbn [over_frames].
  destruct (wav_frame w frame Ho Hl) as (w1 & f1 & r1 & go_on & E & Ho1 & Hs1 & _ & Hgo). rewrite E.
  unfold WavSource.mix_frame in E. rewrite Hp in E.
  destruct (ws_samples w !! ws_pos w) as [s|] eqn:Es; [|done]. apply lookup_lt_Some in Es. rewrite Hr in E.
  destruct (ws_release_remaining w) as [|n] eqn:En; [lia|]. unfold WavSource.after_frame in E.
  cbn -[Nat.leb length] in E. destruct n as [|n]; cbn -[Nat.leb length] in E.
  - rewrite Hb in E. injection E as <- <- <- <-. by eexists _, _, _.
  - destruct (Nat.leb_spec (length (ws_samples w)) (ws_pos w + 1)) as [Hle|Hlt]; [lia|].
    injection E as <- <- <- <-.
    destruct (IH _ Hgo Ho1) as (w' & fs' & r & -> & Ha & Hd); cbn; try done; try (cbn in *; lia).
    by eexists _, _, _.
Qed.

(** A clip that is stopped is silent within its release - ten milliseconds of frames:
    from there on the output is left alone and the source rests, wherever it was, also
    when it was about to start again or was in the pause of a loop. *)
Theorem stopped_clip_fades samples rate channels volume interval reports (pause : option Duration)
    (ops : list WavOp) (w : Wav) frames :
  let w0 := WavSource.from_clip samples rate channels volume interval reports in
  let w0 := match pause with Some p => WavSource.looped w0 p | None => w0 end in
  Forall (λ op, seeks op = false) ops -> wav_run w0 ops = Some w -> volume_is_zero (ws_volume w) = false ->
  ws_release_frames w <= length frames ->
  exists w' frames' r, WavSource.mix_frames (WavSource.stop w) frames = Some (w', frames', r) /\
    ws_active w' = false /\ drop (ws_release_frames w) frames' = drop (ws_release_frames w) frames.
Proof.
  cbn. set (w0 := match pause with Some _ => _ | None => _ end). intros Hs Hrun Hv Hlen.
  assert (tidy w0) as Ht0 by (subst w0; destruct pause; (split; [split; cbn; lia || done|cbn; lia|done|cbn; lia])).
  pose proof (tidy_run _ _ _ Ht0 Hs Hrun) as Ht. unfold WavSource.stop.
  destruct (WavSource.is_playing w) eqn:Hp.
  - destruct (tidy_begin_release w false Ht Hp) as ([Ho Hpa Hre Hf] & Hr & Hb). clear Ht.
    apply andb_true_iff in Hp as [Ha Hp%Nat.ltb_lt].
    set (w1 := WavSource.begin_release w false) in *.
    assert (ws_volume w1 = ws_volume w /\ ws_active w1 = ws_active w /\ ws_pos w1 = ws_pos w /\
      ws_samples w1 = ws_samples w /\ ws_release_frames w1 = ws_release_frames w) as (E1 & E2 & E3 & E4 & E5)
      by (subst w1; unfold WavSource.begin_release; by destruct (ws_releasing w)).
    clearbody w1.
    assert (wav_live w1) as Hl by (split_and!; [by rewrite E2|by rewrite E1|left; by rewrite E3, E4]).
    assert (ws_pause_remaining w1 = 0) as Hz.
    { destruct (ws_pause_remaining w1) eqn:Ez; [done|]. destruct (Hpa ltac:(lia)) as [Hpos _].
      rewrite E3, E4 in Hpos. lia. }
    destruct (Hre Hr) as [Hrem Hrel]. rewrite wav_mix_live by done.
    destruct (fades w1 frames Hl Ho Hr Hb Hz Hrem) as (w' & fs' & r & E & Ha' & Hd); [lia|].
    exists w', fs', r. split_and!; [done|done|].
    replace (ws_release_frames w) with (ws_release_remaining w1 + (ws_release_frames w - ws_release_remaining w1)) by lia.
    by rewrite <- !drop_drop, Hd.
  - rewrite wav_mix_idle by done. by eexists _, _, _.
Qed.
End wav.

(** ** A synthesised tone *)

Section waveform.
Context {Sample Volume Tone : Type} `{Signal Sample Volume Tone}.
Abbreviation Waveform := (WaveformSource Volume Tone).

Record wf_ok (w : Waveform) : Prop := {
  fo_total : wf_total_tone_samples w = sum_list (map snd (wf_segments w));
  fo_idx : wf_segments w <> [] -> wf_current_segment_idx w < length (wf_segments w)
}.

Definition wf_live (w : Waveform) : Prop := wf_active w = true /\ volume_is_zero (wf_volume w) = false.

Lemma wf_mix_live (w : Waveform) frames : wf_live w ->
  WaveformSource.mix_frames w frames = over_frames WaveformSource.mix_frame w frames.
Proof. intros [Ha Hv]. unfold WaveformSource.mix_frames. by rewrite Ha, Hv. Qed.

Lemma wf_mix_idle (w : Waveform) frames : wf_active w = false ->
  WaveformSource.mix_frames w frames = Some (w, frames, []).
Proof. intros Ha. unfold WaveformSource.mix_frames. by rewrite Ha. Qed.

(** What stays over a frame *)
Record same_tone (w w' : Waveform) : Prop := {
  st_segments : wf_segments w' = wf_segments w;
  st_volume : wf_volume w' = wf_volume w;
  st_total : wf_total_tone_samples w' = wf_total_tone_samples w;
  st_release : wf_release_samples w' = wf_release_samples w;
  st_silence : wf_silence_samples w' = wf_silence_samples w;
  st_restart : wf_restart_samples w' = wf_restart_samples w;
  st_looped : wf_looped w' = wf_looped w
}.

#[local] Instance same_tone_preorder : PreOrder same_tone.
Proof. split; [by split|]. intros w1 w2 w3 [] []. split; congruence. Qed.

Lemma advance_same (w w' : Waveform) : WaveformSource.advance_segment w = Some w' ->
  same_tone w w' /\ wf_env_pos w' = wf_env_pos w + 1 /\ wf_cycle_pos w' = wf_cycle_pos w /\
  wf_active w' = wf_active w /\ wf_releasing w' = wf_releasing w /\ wf_restarting w' = wf_restarting w /\
  (wf_current_segment_idx w < length (wf_segments w) -> wf_current_segment_idx w' < length (wf_segments w)).
Proof.
  unfold WaveformSource.advance_segment. destruct (wf_segments w !! wf_current_segment_idx w) as [[t n]|]; [|done].
  destruct ((n <=? _) && _) eqn:E; intros [= <-]; split_and!; try done; cbn.
  intros _. apply andb_true_iff in E as [_ E%Nat.ltb_lt]. lia.
Qed.

Lemma end_cycle_same (w : Waveform) : wf_ok w -> let (w', go_on) := WaveformSource.end_cycle w in
  same_tone w w' /\ wf_ok w' /\ (go_on = false -> wf_active w' = false) /\ (go_on = true -> wf_active w' = wf_active w).
Proof.
  intros [H1 H2]. unfold WaveformSource.end_cycle.
  destruct (_ <=? _); [destruct (wf_restarting w); [|destruct (wf_looped w)]|]; split_and!; try done;
    split; cbn; try done; intros Hne; destruct (wf_segments w); try done; cbn; lia.
Qed.

Lemma end_release_same (w : Waveform) : wf_ok w -> let (w', go_on) := WaveformSource.end_release w in
  same_tone w w' /\ wf_ok w' /\ (go_on = false -> wf_active w' = false) /\ (go_on = true -> wf_active w' = wf_active w).
Proof.
  intros [H1 H2]. unfold WaveformSource.end_release. destruct (wf_releasing w && _); [|done].
  cbn. destruct (wf_restarting w); split_and!; try done; split; cbn; try done.
  intros Hne. destruct (wf_segments w); [done|]. cbn. lia.
Qed.

Lemma wf_frame (w : Waveform) frame : wf_ok w -> wf_live w ->
  exists w' frame' r go_on, WaveformSource.mix_frame w frame = Some (w', frame', r, go_on) /\
    wf_ok w' /\ same_tone w w' /\ (if go_on then wf_live w' else wf_active w' = false).
Proof.
  intros [H1 H2] [Ha Hv]. unfold WaveformSource.mix_frame.
  destruct (negb _ && _ && _) eqn:Hend; [eexists _, _, _, _; split; [done|]; by split; [split|split]|].
  assert (exists sample w1, (if wf_cycle_pos w <? wf_total_tone_samples w then
      match WaveformSource.generate w, WaveformSource.advance_segment w with
      | Some sample, Some w => Some (sample, w) | _, _ => None end else Some (silence, w)) = Some (sample, w1) /\
    same_tone w w1 /\ wf_ok w1 /\ wf_active w1 = wf_active w) as (sample & w1 & -> & Hs1 & Ho1 & Ha1).
  { destruct (Nat.ltb_spec (wf_cycle_pos w) (wf_total_tone_samples w)) as [Hlt|Hge].
    2: { eexists _, _. split_and!; [done|done| |done]. by split. }
    assert (wf_current_segment_idx w < length (wf_segments w)) as Hidx.
    { apply H2. intros Hnil. rewrite H1, Hnil in Hlt. cbn in Hlt. lia. }
    destruct (lookup_lt_is_Some_2 _ _ Hidx) as [[t n] Hseg].
    assert (exists sample, WaveformSource.generate w = Some sample) as [sample ->].
    { unfold WaveformSource.generate. rewrite Hseg. destruct t; by eexists. }
    destruct (WaveformSource.advance_segment w) as [w1|] eqn:E1.
    - destruct (advance_same w w1 E1) as (Hs & _ & _ & Ha1 & _ & _ & Hi). eexists _, _. split_and!; [done|done| |done].
      destruct Hs as [S1 _ S3 _ _ _ _]. split; rewrite ?S1, ?S3; [done|]. intros _. by apply Hi.
    - unfold WaveformSource.advance_segment in E1. rewrite Hseg in E1. by case_match. }
  set (w2 := WaveformSource.with_position w1 _ _ _ _).
  assert (wf_ok w2) as Ho2 by (destruct Ho1; by split).
  assert (same_tone w w2) as Hs2 by (etrans; [exact Hs1|]; by split).
  pose proof (end_cycle_same w2 Ho2) as Hc. destruct (WaveformSource.end_cycle w2) as [w3 []].
  - destruct Hc as (Hs3 & Ho3 & _ & Ha3). pose proof (end_release_same w3 Ho3) as Hr.
    destruct (WaveformSource.end_release w3) as [w4 go_on]. destruct Hr as (Hs4 & Ho4 & Hf & Hg).
    eexists _, _, _, _. split; [done|]. split; [done|]. assert (same_tone w w4) as Hs by (by etrans; [|etrans]).
    split; [done|]. destruct go_on; [|by apply Hf]. split; [|by rewrite (st_volume _ _ Hs)].
    rewrite (Hg eq_refl), (Ha3 eq_refl). cbn. by rewrite Ha1.
  - destruct Hc as (Hs3 & Ho3 & Hf & _). eexists _, _, _, _. split; [done|]. split; [done|].
    split; [by etrans|by apply Hf].
Qed.

Lemma wf_looping : looping WaveformSource.mix_frame WaveformSource.mix_frames (λ w, wf_ok w /\ wf_live w).
Proof.
  split.
  - intros w frames [_ Hl]. by apply wf_mix_live.
  - intros w frame w' frame' r [Ho Hl] E. destruct (wf_frame w frame Ho Hl) as (? & ? & ? & ? & E' & ? & ? & ?).
    rewrite E in E'. injection E' as <- <- <- <-. done.
  - intros w frame w' frame' r frames [Ho Hl] E.
    destruct (wf_frame w frame Ho Hl) as (? & ? & ? & ? & E' & ? & ? & Hgo).
    rewrite E in E'. injection E' as <- <- <- <-. by apply wf_mix_idle.
Qed.

Lemma wf_mix_muted (w : Waveform) frames : volume_is_zero (wf_volume w) = true ->
  WaveformSource.mix_frames w frames = Some (w, frames, []).
Proof. intros Hv. unfold WaveformSource.mix_frames. rewrite Hv. by rewrite orb_true_r. Qed.

Lemma wf_mix_frames (w : Waveform) frames : wf_ok w ->
  exists w' frames' r, WaveformSource.mix_frames w frames = Some (w', frames', r) /\ wf_ok w' /\ same_tone w w'.
Proof.
  intros Ho. destruct (wf_active w) eqn:Ha; [|rewrite wf_mix_idle by done; by eexists _, _, _].
  destruct (volume_is_zero (wf_volume w)) eqn:Hv; [rewrite wf_mix_muted by done; by eexists _, _, _|].
  rewrite wf_mix_live by done.
  destruct (over_frames_keeps WaveformSource.mix_frame wf_live (λ w', wf_ok w' /\ same_tone w w') w frames)
    as (w' & frames' & r & E & Hw' & Hs'); [done|by split| |by eexists _, _, _].
  intros w1 frame Hl1 [Ho1 Hs1]. destruct (wf_frame w1 frame Ho1 Hl1) as (w2 & f2 & r2 & go_on & E2 & Ho2 & Hs2 & Hgo).
  eexists _, _, _, _. split; [done|]. split; [split; [done|by etrans]|by intros ->].
Qed.

(** *** Runs of a tone *)

Inductive ToneOp :=
| ToneMix (output : list Sample)
| ToneStart
| ToneStop
| ToneRestart
| ToneVolume (v : Volume).

Definition tone_step (w : Waveform) (op : ToneOp) : option Waveform :=
  match op with
  | ToneMix output => match WaveformSource.mix_into w output with Some (w, _) => Some w | None => None end
  | ToneStart => Some (WaveformSource.start w)
  | ToneStop => Some (WaveformSource.stop w)
  | ToneRestart => Some (WaveformSource.restart w)
  | ToneVolume v => Some (WaveformSource.set_volume w v)
  end.

Fixpoint tone_run (w : Waveform) (ops : list ToneOp) : option Waveform :=
  match ops with
  | [] => Some w
  | op :: ops => match tone_step w op with Some w => tone_run w ops | None => None end
  end.

Lemma tone_step_ok (w : Waveform) op : wf_ok w ->
  exists w', tone_step w op = Some w' /\ wf_ok w' /\ wf_segments w' = wf_segments w.
Proof.
  intros Ho. assert (wf_ok (WaveformSource.start w)) as Hstart.
  { destruct Ho. split; cbn; [done|]. intros Hne. destruct (wf_segments w); [done|cbn; lia]. }
  assert (wf_ok (WaveformSource.stop w)) as Hstop.
  { unfold WaveformSource.stop. destruct (wf_active w && negb (wf_releasing w)); [|done]. destruct Ho. by split. }
  destruct op as [output| | | |v]; cbn [tone_step].
  - unfold WaveformSource.mix_into.
    destruct (wf_mix_frames w (chunks (length output) (wf_output_channels w) output) Ho) as (w' & fs & r & -> & Ho' & Hs).
    eexists. split_and!; [done|done|apply Hs].
  - by eexists.
  - eexists. split_and!; [done|done|]. unfold WaveformSource.stop. by case_match.
  - eexists. split_and!; [done| |].
    + unfold WaveformSource.restart. destruct (wf_active w); [|done]. destruct Hstop. by split.
    + unfold WaveformSource.restart, WaveformSource.stop. by repeat case_match.
  - eexists. split_and!; [done| |done]. destruct Ho. by split.
Qed.

(** No panic in the callback of the device, for a tone: whatever its segments -
    none at all, or shorter than a sample - and whatever is done with it, no segment
    is read outside the sequence. *)
Theorem tone_never_panics sequence (pause : option Duration) fade rate channels volume (ops : list ToneOp) :
  exists w, tone_run (WaveformSource.new sequence pause fade rate channels volume) ops = Some w /\
    (sequence <> [] -> wf_current_segment_idx w < length sequence).
Proof.
  set (w := WaveformSource.new _ _ _ _ _ _).
  assert (wf_ok w /\ length (wf_segments w) = length sequence) as [Ho Hs].
  { split; [split; cbn; [done|]|subst w; cbn; by rewrite length_map]. destruct sequence; [done|cbn; lia]. }
  clearbody w. revert w Ho Hs. induction ops as [|op ops IH]; intros w Ho Hs; cbn.
  - exists w. split; [done|]. intros Hne. rewrite <- Hs. apply Ho. intros Hnil. rewrite Hnil in Hs. by destruct sequence.
  - destruct (tone_step_ok w op Ho) as (w' & -> & Ho' & Hs'). apply IH; [done|]. by rewrite Hs'.
Qed.

(** How the device cuts its buffers is not heard in a tone either. *)
Theorem tone_mixing_is_seamless (w : Waveform) fs gs : wf_ok w ->
  mix_twice WaveformSource.mix_frames w fs gs = WaveformSource.mix_frames w (fs ++ gs).
Proof.
  intros Ho. destruct (wf_active w) eqn:Ha; [|unfold mix_twice; by rewrite ?wf_mix_idle by done].
  destruct (volume_is_zero (wf_volume w)) eqn:Hv; [unfold mix_twice; by rewrite ?wf_mix_muted by done|].
  by eapply looping_seamless; [apply wf_looping|].
Qed.

(** A release runs out, or the cycle does. *)
Lemma tone_fades (w : Waveform) frames : wf_ok w -> wf_live w -> wf_releasing w = true -> wf_restarting w = false ->
  (wf_looped w = false \/ 0 < wf_silence_samples w) ->
  wf_release_samples w - wf_env_pos w < length frames ->
  exists w' frames' r, over_frames WaveformSource.mix_frame w frames = Some (w', frames', r) /\
    wf_active w' = false /\
    drop (S (wf_release_samples w - wf_env_pos w)) frames' = drop (S (wf_release_samples w - wf_env_pos w)) frames.
Proof.
  revert w. induction frames as [|frame frames IH]; intros w Ho Hl Hr Hb Hgap Hlen; [cbn in Hlen; lia|].
  cbn [over_frames]. destruct (wf_frame w frame Ho Hl) as (w1 & f1 & r1 & go_on & E & Ho1 & Hs1 & Hgo). rewrite E.
  destruct go_on; [|eexists _, _, _; split_and!; [done|done|by rewrite ?skipn_cons]].
  assert (wf_releasing w1 = true /\ wf_restarting w1 = false /\ wf_env_pos w1 = wf_env_pos w + 1 /\
    wf_env_pos w + 1 < wf_release_samples w) as (Hr1 & Hb1 & He1 & Hlt).
  { unfold WaveformSource.mix_frame in E. rewrite Hr, Hb in E.
    destruct (Nat.ltb_spec (wf_cycle_pos w) (wf_total_tone_samples w)) as [Htone|]; [|done]. cbn in E.
    destruct (WaveformSource.generate w); [|done]. destruct (WaveformSource.advance_segment w) as [w2|] eqn:E2; [|done].
    destruct (advance_same w w2 E2) as ([S1 S2 S3 S4 S5 S6 S7] & P1 & P2 & _ & P4 & P5 & _).
    unfold WaveformSource.end_cycle in E. cbn -[Nat.leb] in E. rewrite P5, Hb, S3, S5, S7, P2 in E.
    destruct (Nat.leb_spec (wf_total_tone_samples w + wf_silence_samples w) (wf_cycle_pos w + 1)) as [Hend|Hin].
    { destruct Hgap as [Hgap|Hgap]; [by rewrite Hgap in E|lia]. }
    unfold WaveformSource.end_release in E. cbn -[Nat.leb] in E. rewrite P4, Hr, P5, Hb, S4, P1 in E.
    destruct (Nat.leb_spec (wf_release_samples w) (wf_env_pos w + 1)); [done|].
    cbn in E. injection E as <- <- <-. cbn. rewrite P4, P5. by split_and!. }
  destruct Hs1 as [S1 S2 S3 S4 S5 S6 S7].
  destruct (IH w1 Ho1 Hgo Hr1 Hb1) as (w' & fs' & r & -> & Ha & Hd);
    [by rewrite S7, S5|rewrite S4, He1; cbn in Hlen; lia|].
  eexists _, _, _. split_and!; [done|done|]. cbn [drop]. rewrite S4, He1 in Hd.
  by replace (wf_release_samples w - wf_env_pos w) with (S (wf_release_samples w - (wf_env_pos w + 1))) by lia.
Qed.

(** A tone that is stopped fades and is silent within its release and one frame,
    wherever it was in its cycle, if it is not about to restart and does not loop
    without a pause. *)
Theorem stopped_tone_fades (w : Waveform) frames : wf_ok w -> wf_releasing w = false -> wf_restarting w = false ->
  volume_is_zero (wf_volume w) = false -> (wf_looped w = false \/ 0 < wf_silence_samples w) ->
  wf_release_samples w < length frames ->
  exists w' frames' r, WaveformSource.mix_frames (WaveformSource.stop w) frames = Some (w', frames', r) /\
    wf_active w' = false /\
    drop (S (wf_release_samples w)) frames' = drop (S (wf_release_samples w)) frames.
Proof.
  intros Ho Hr Hb Hv Hgap Hlen. unfold WaveformSource.stop. rewrite Hr. destruct (wf_active w) eqn:Ha; cbn.
  2: { rewrite wf_mix_idle by done. by eexists _, _, _. }
  set (w1 := WaveformSource.with_position _ _ _ _ _).
  assert (wf_ok w1) as Ho1 by (destruct Ho; by split). rewrite wf_mix_live by done.
  destruct (tone_fades w1 frames Ho1) as (w' & fs' & r & E & Ha' & Hd); [done..|cbn; lia|].
  cbn in Hd. rewrite Nat.sub_0_r in Hd. by eexists _, _, _.
Qed.

(** A stop is lost while a tone restarts: in its release it changes nothing, and in
    the silence before the new cycle it is forgotten when the cycle begins. *)
Theorem stop_lost_while_restarting (w : Waveform) : wf_active w = true ->
  WaveformSource.stop (WaveformSource.restart w) = WaveformSource.restart w /\
  forall frame w', wf_restarting w = true -> wf_total_tone_samples w <= wf_cycle_pos w ->
    wf_total_tone_samples w + wf_restart_samples w <= wf_cycle_pos w + 1 ->
    WaveformSource.mix_frame (WaveformSource.stop w) frame = Some w' ->
    wf_active w'.1.1.1 = true /\ wf_releasing w'.1.1.1 = false /\ wf_cycle_pos w'.1.1.1 = 0.
Proof.
  intros Ha. split.
  - unfold WaveformSource.restart. rewrite Ha. unfold WaveformSource.stop at 1. cbn.
    assert (wf_active (WaveformSource.stop w) && negb (wf_releasing (WaveformSource.stop w)) = false) as ->; [|done].
    unfold WaveformSource.stop. rewrite Ha. destruct (wf_releasing w) eqn:Hr; cbn; [by rewrite Hr, andb_false_r|done].
  - intros frame w' Hb Htone Hend. set (w1 := WaveformSource.stop w).
    assert (wf_active w1 = true /\ wf_restarting w1 = true /\ wf_cycle_pos w1 = wf_cycle_pos w /\
      wf_total_tone_samples w1 = wf_total_tone_samples w /\ wf_restart_samples w1 = wf_restart_samples w)
      as (A1 & A2 & A3 & A4 & A5) by (subst w1; unfold WaveformSource.stop; by case_match).
    clearbody w1. unfold WaveformSource.mix_frame.
    destruct (Nat.ltb_spec (wf_cycle_pos w1) (wf_total_tone_samples w1)); [lia|]. rewrite A2, andb_false_r.
    unfold WaveformSource.end_cycle. cbn -[Nat.leb]. rewrite A2.
    destruct (Nat.leb_spec (wf_total_tone_samples w1 + wf_restart_samples w1) (wf_cycle_pos w1 + 1)); [|lia].
    unfold WaveformSource.end_release. cbn. intros [= <-]. cbn. by rewrite A1.
Qed.
End waveform.

(** ** The frames of a peer *)

Section opus.
Context {Sample Volume Tone : Type} `{Signal Sample Volume Tone}.
Abbreviation Opus := (OpusSource Sample Volume).

Lemma mix_zip_spec (frames : list (list Sample)) queue v :
  OpusSource.mix_zip frames queue v = (heard v queue frames, drop (length frames) queue).
Proof.
  revert queue. induction frames as [|frame frames IH]; intros queue; [by destruct queue|].
  destruct queue as [|s queue]; [done|]. cbn. by rewrite IH.
Qed.

(** What happens to the ring: samples are decoded, frames are played. *)
Inductive RingOp :=
| Decoded (samples : list Sample)
| Played (frames : list (list Sample)).

(** The source with what was decoded and what was taken so far *)
Definition ring_step (st : Opus * list Sample * list Sample) (op : RingOp) : Opus * list Sample * list Sample :=
  let '(o, input, output) := st in
  match op with
  | Decoded samples => (OpusSource.decoded o samples, input ++ samples, output)
  | Played frames =>
    (mkOpusSource (OpusSource.mix_zip frames (os_queue o) (os_volume o)).2 (os_output_channels o) (os_volume o)
       (os_lost o), input, output ++ take (length frames) (os_queue o))
  end.

Record ring_ok (st : Opus * list Sample * list Sample) : Prop := {
  ro_bounded : length (os_queue st.1.1) <= OpusSource.RING_SIZE;
  ro_counted : length st.1.2 = length st.2 + length (os_queue st.1.1) + os_lost st.1.1;
  ro_order : sublist (st.2 ++ os_queue st.1.1) st.1.2;
  ro_lossless : os_lost st.1.1 = 0 -> st.2 ++ os_queue st.1.1 = st.1.2
}.

Lemma ring_step_ok st op : ring_ok st -> ring_ok (ring_step st op).
Proof.
  destruct st as [[o input] output]. intros [H1 H2 H3 H4]. cbn -[OpusSource.RING_SIZE] in *.
  destruct op as [samples|frames]; cbn -[OpusSource.RING_SIZE].
  - set (room := OpusSource.RING_SIZE - length (os_queue o)). split; cbn -[OpusSource.RING_SIZE].
    + rewrite length_app, length_take. lia.
    + rewrite ?length_app, length_take, length_drop. lia.
    + rewrite app_assoc. apply sublist_app; [done|apply sublist_take].
    + intros Hl. rewrite length_drop in Hl. rewrite take_ge by lia. rewrite app_assoc, H4 by lia. done.
  - rewrite mix_zip_spec. split; cbn -[OpusSource.RING_SIZE];
      rewrite ?length_app, ?length_take, ?length_drop, <- ?app_assoc, ?take_drop; [lia|lia|done|done].
Qed.

(** A peer is heard in order: the ring never holds more than two hundred
    milliseconds; every decoded sample was played, waits, or was counted as lost; what
    is played is what was decoded, in its order; and while nothing was lost it is all
    of it, with no gap. *)
Theorem peer_heard_in_order channels (v : Volume) (ops : list RingOp) :
  let st := foldl ring_step (OpusSource.new channels v, [], []) ops in
  length (os_queue st.1.1) <= OpusSource.RING_SIZE /\
  length st.1.2 = length st.2 + length (os_queue st.1.1) + os_lost st.1.1 /\
  sublist (st.2 ++ os_queue st.1.1) st.1.2 /\
  (os_lost st.1.1 = 0 -> st.2 ++ os_queue st.1.1 = st.1.2).
Proof.
  cbv zeta. assert (ring_ok (OpusSource.new channels v, [], [])) as Hst by (by split; cbn; [lia|..]).
  revert Hst. generalize (OpusSource.new channels v, @nil Sample, @nil Sample) as st.
  induction ops as [|op ops IH]; intros st Hst; cbn; [by destruct Hst|]. by apply IH, ring_step_ok.
Qed.
End opus.

(** ** The framing of the captured input *)

Section framer.
Context {Sample Volume Tone Mic Encoded : Type} `{Signal Sample Volume Tone}.
Variable encode : Mic -> list Sample -> Mic * option Encoded.

Fixpoint encode_all (mic : Mic) (frames : list (list Sample)) : Mic * list Encoded :=
  match frames with
  | [] => (mic, [])
  | frame :: frames =>
    let (mic, encoded) := encode mic frame in
    let (mic, sent) := encode_all mic frames in
    (mic, match encoded with Some e => e :: sent | None => sent end)
  end.

Fixpoint push_slices (f : OpusFramer Sample Mic) (slices : list (list Sample * Volume)) :
    OpusFramer Sample Mic * list Encoded :=
  match slices with
  | [] => (f, [])
  | (slice, gain) :: slices =>
    let (f, sent) := OpusFramer.push_slice encode f slice gain in
    let (f, more) := push_slices f slices in
    (f, sent ++ more)
  end.

Lemma encode_all_app mic frames more : encode_all mic (frames ++ more) =
  let (mic, sent) := encode_all mic frames in let (mic, sent') := encode_all mic more in (mic, sent ++ sent').
Proof.
  revert mic. induction frames as [|frame frames IH]; intros mic; cbn.
  - by destruct (encode_all mic more).
  - destruct (encode mic frame) as [mic1 e]. rewrite IH. destruct (encode_all mic1 frames) as [mic2 sent].
    destruct (encode_all mic2 more). by destruct e.
Qed.

(** What is framed: whole frames, and a rest that is less than one. *)
Definition framing (l : list Sample) (frames : list (list Sample)) (rest : list Sample) : Prop :=
  concat frames ++ rest = l /\ Forall (λ f, length f = FRAME_SIZE) frames /\ length rest < FRAME_SIZE.

Lemma push_frames fuel (f : OpusFramer Sample Mic) samples : length (of_frame f) < FRAME_SIZE ->
  length samples <= fuel ->
  exists frames rest, framing (of_frame f ++ samples) frames rest /\
  OpusFramer.push encode fuel f samples =
      let (mic, sent) := encode_all (of_mic f) frames in (mkOpusFramer rest mic, sent).
Proof.
  revert f samples. induction fuel as [|fuel IH]; intros f samples Hf Hlen.
  { destruct samples; [|cbn in Hlen; lia]. exists [], (of_frame f). rewrite app_nil_r.
    split; [split; [done|by split]|]. by destruct f. }
  destruct samples as [|s0 samples0] eqn:Es.
  { exists [], (of_frame f). rewrite app_nil_r. split; [split; [done|by split]|]. by destruct f. }
  rewrite <- Es in *. assert (0 < length samples) as Hpos by (rewrite Es; cbn; lia).
  assert (OpusFramer.push encode (S fuel) f samples =
    let take_n := (FRAME_SIZE - length (of_frame f)) `min` length samples in
    let frame := of_frame f ++ take take_n samples in
    if length frame =? FRAME_SIZE then
      let (mic, encoded) := encode (of_mic f) frame in
      let (f, sent) := OpusFramer.push encode fuel (mkOpusFramer [] mic) (drop take_n samples) in
      (f, match encoded with Some e => e :: sent | None => sent end)
    else OpusFramer.push encode fuel (mkOpusFramer frame (of_mic f)) (drop take_n samples)) as ->
    by (rewrite Es; reflexivity). clear Es.
  set (n := _ `min` _). cbv zeta. assert (0 < n) as Hn by lia.
  assert (length (of_frame f ++ take n samples) = length (of_frame f) + n) as Hl
    by (rewrite length_app, length_take; lia).
  assert (of_frame f ++ samples = (of_frame f ++ take n samples) ++ drop n samples) as Hcut
    by (by rewrite <- app_assoc, take_drop).
  destruct (Nat.eqb_spec (length (of_frame f ++ take n samples)) FRAME_SIZE) as [Hfull|Hpart].
  - destruct (encode (of_mic f) _) as [mic encoded] eqn:Ee.
    destruct (IH (mkOpusFramer [] mic) (drop n samples)) as (frames & rest & (F1 & F2 & F3) & ->);
      [cbn; unfold FRAME_SIZE; lia|rewrite length_drop; lia|].
    exists ((of_frame f ++ take n samples) :: frames), rest. split.
    + split; [|by split; [constructor|]]. cbn [concat]. by rewrite <- app_assoc, F1, Hcut.
    + cbn [encode_all of_mic]. rewrite Ee. by destruct (encode_all mic frames).
  - destruct (IH (mkOpusFramer (of_frame f ++ take n samples) (of_mic f)) (drop n samples))
      as (frames & rest & Hframing & ->); [cbn [of_frame]; lia|rewrite length_drop; lia|].
    exists frames, rest. split; [|done]. cbn [of_frame] in Hframing. by rewrite <- Hcut in Hframing.
Qed.

(** C35: The captured input is framed whole: however it is sliced, and whatever the gain of
    each slice, what goes to the encoder is the amplified input cut into frames of
    twenty milliseconds, each exactly once and in order, and what is left waits and is
    less than a frame. *)
Theorem input_is_framed_whole (f : OpusFramer Sample Mic) (slices : list (list Sample * Volume)) :
  length (of_frame f) < FRAME_SIZE ->
  exists frames rest,
    framing (of_frame f ++ concat (map (λ sl, map (λ s, scaled s sl.2) sl.1) slices)) frames rest /\
  push_slices f slices = let (mic, sent) := encode_all (of_mic f) frames in (mkOpusFramer rest mic, sent).
Proof.
  revert f. induction slices as [|[slice gain] slices IH]; intros f Hf.
  - exists [], (of_frame f). cbn. rewrite app_nil_r. split; [split; [done|by split]|]. by destruct f.
  - cbn [push_slices map concat]. unfold OpusFramer.push_slice. cbn [fst snd].
    destruct (push_frames (length slice) f (map (λ s, scaled s gain) slice) Hf) as (frames & rest & (F1 & F2 & F3) & ->);
      [by rewrite length_map|]. destruct (encode_all (of_mic f) frames) as [mic sent] eqn:Ea.
    destruct (IH (mkOpusFramer rest mic) F3) as (more & rest' & (G1 & G2 & G3) & ->). cbn [of_frame of_mic] in G1 |- *.
    exists (frames ++ more), rest'. split.
    + split; [|split; [by apply Forall_app|done]]. by rewrite concat_app, <- app_assoc, G1, !app_assoc, F1.
    + rewrite encode_all_app, Ea. by destruct (encode_all mic more).
Qed.
End framer.

(** ** Concrete inputs *)

(** Whole numbers for samples and volumes *)
#[local] Instance whole_numbers : Signal Z Z Z := {|
  silence := 0%Z;
  limited s := s;
  add := Z.add;
  scaled := Z.mul;
  faded a b s := (s * Z.of_nat a / Z.of_nat b)%Z;
  volume_is_zero v := (v =? 0)%Z;
  clamp_volume v := Z.max 0 (Z.min v 10);
  frames_of d rate := (d * rate / 1000000000)%N;
  samples_of d rate := N.to_nat (d * rate / 1000000000)%N;
  oscillation tone n _ := (if Nat.even n then tone else - tone)%Z;
  enveloped _ _ _ _ s := s;
  amplified _ s := s
|}.

Definition three : WavSource Z Z := WavSource.from_clip [1; 2; 3]%Z 1000 2 2%Z None true.

Definition frames5 : list (list Z) := replicate 5 [10; 20]%Z.

Example clip_is_heard_once_witness :
  exists w' r, WavSource.mix_frames (WavSource.restart three) frames5 =
      Some (w', [[12; 22]; [14; 24]; [16; 26]; [10; 20]; [10; 20]]%Z, r) /\
    ws_active w' = false /\ (ws_reports three = true -> last r = Some (WavSource.whole three)) /\
    forall more, WavSource.mix_frames w' more = Some (w', more, []).
Proof.
  assert (heard (ws_volume three) (ws_samples three) frames5 =
    [[12; 22]; [14; 24]; [16; 26]; [10; 20]; [10; 20]]%Z) as <- by (by vm_compute).
  apply (clip_is_heard_once three frames5); [split; cbn; lia || done|done..|cbn; lia].
Defined.

Example stopped_clip_fades_witness :
  let w := default three (wav_run (WavSource.from_clip (replicate 20 100%Z) 1000 2 2%Z None true) [Start; Mix [0; 0; 0; 0]%Z]) in
  ws_release_frames w = 10 /\
  exists w' frames' r, WavSource.mix_frames (WavSource.stop w) (replicate 12 [1%Z]) = Some (w', frames', r) /\
    ws_active w' = false /\ drop 10 frames' = drop 10 (replicate 12 [1%Z]).
Proof.
  cbv zeta. split; [by vm_compute|].
  apply (stopped_clip_fades (replicate 20 100%Z) 1000 2 2%Z None true None [Start; Mix [0; 0; 0; 0]%Z]);
    [by repeat constructor|by vm_compute|by vm_compute|vm_compute; lia].
Defined.

Example input_is_framed_whole_witness : exists frames rest,
  framing ([1; 2] ++ [6; 8; 20])%Z frames rest /\
  push_slices (λ n frame, (S n, Some (length frame))) (mkOpusFramer [1; 2]%Z 0) [([3; 4]%Z, 2%Z); ([5]%Z, 4%Z)] =
    let (mic, sent) := encode_all (λ n frame, (S n, Some (length frame))) 0 frames in (mkOpusFramer rest mic, sent).
Proof.
  assert (concat (map (λ sl : list Z * Z, map (λ s, scaled s sl.2) sl.1) [([3; 4]%Z, 2%Z); ([5]%Z, 4%Z)]) =
    [6; 8; 20]%Z) as <- by (by vm_compute).
  apply (input_is_framed_whole (λ n frame, (S n, Some (length frame))) (mkOpusFramer [1; 2]%Z 0)
    [([3; 4]%Z, 2%Z); ([5]%Z, 4%Z)]). apply Nat.ltb_lt. by vm_compute.
Defined.

(** Restarted and stopped at once, a tone of four samples sounds again. *)
Example stop_lost_while_restarting_example :
  let tone : WaveformSource Z Z := WaveformSource.new [(Some 5%Z, 4000000%N)] None 2000000%N 1000 1 1%Z in
  match tone_run tone [ToneStart; ToneMix [0]%Z; ToneRestart; ToneStop; ToneMix (replicate 4804 0%Z)] with
  | Some w => wf_active w = true /\ wf_releasing w = false
  | None => False
  end.
Proof. by vm_compute. Qed.

(** Of samples sent in slices, the encoder gets the frames. *)
Example framed :
  (push_slices (λ n frame, (S n, Some (length frame, last frame))) (mkOpusFramer [] 0)
    [(replicate 950 1%Z, 1%Z); (replicate 20 2%Z, 2%Z); (replicate 960 3%Z, 1%Z)]).2 = [(960, Some 4%Z); (960, Some 3%Z)].
Proof. by vm_compute. Qed.
