(* ===== verification/Media.v ===== *)
(** Media: the audio of a call, [vacs-webrtc]: what is sent and what is played of a peer
    ([sender.rs], [receiver.rs]), the watchdog over its counters and the life of a peer
    ([peer.rs]), and the ICE servers it is given ([config.rs]).

    The connection, its negotiation and the coding of packets are those of the [webrtc]
    crate: their answers are arguments of the steps. Times are in nanoseconds. *)
From stdpp Require Import prelude gmap strings list.
From Stdlib Require Import Ascii NArith.
From S2P Require Import Prelude Protocol Calls Controllers Releases.

Definition U64_MAX : N := 2 ^ 64 - 1.
Definition U16_MAX : N := 2 ^ 16 - 1.

(** [u64::saturating_add] *)
Definition saturating_add (a b : N) : N := N.min (a + b) U64_MAX.

(** [u16::try_from(n).unwrap_or(u16::MAX)] *)
Definition u16_or_max (n : N) : N := if (n <=? U16_MAX)%N then n else U16_MAX.

(** A counter of type [AtomicU64] *)
Definition fetch_add (n : N) : N := ((n + 1) mod 2 ^ 64)%N.

Section media.
Context {Frame Output : Type}.

(** ** Sending *)

(** What the subscription to the captured input answers *)
Inductive InputRecv :=
| InputFrame (frame : Frame)
| InputLagged (skipped : N)
| InputClosed.

(** The sample of a frame; [prev_dropped_packets]: the frames lost before it *)
Record Sample := mkSample { data : Frame; prev_dropped_packets : N }.

(** The task of a [Sender]: told to shut down, running, and the frames lost since the
    last written sample *)
Record SenderTask := mkSenderTask {
  snd_shutdown : bool;
  snd_running : bool;
  dropped_frames : N
}.

Definition sender_new : SenderTask := mkSenderTask false true 0.

Definition sender_shutdown (t : SenderTask) : SenderTask :=
  mkSenderTask true (snd_running t) (dropped_frames t).

Definition sender_end (t : SenderTask) : SenderTask :=
  mkSenderTask (snd_shutdown t) false (dropped_frames t).

(** A turn of the loop: the shutdown comes before the input. [written]: the track took
    the sample. Answers the sample that was written. *)
Definition sender_turn (t : SenderTask) (input : InputRecv) (written : bool) : SenderTask * option Sample :=
  if negb (snd_running t) then (t, None)
  else if snd_shutdown t then (sender_end t, None)
  else
    match input with
    | InputFrame frame =>
      let sample := mkSample frame (u16_or_max (dropped_frames t)) in
      if written then (mkSenderTask (snd_shutdown t) true 0, Some sample)
      else (mkSenderTask (snd_shutdown t) true (saturating_add (dropped_frames t) 1), None)
    | InputLagged skipped =>
      (mkSenderTask (snd_shutdown t) true (saturating_add (dropped_frames t) skipped), None)
    | InputClosed => (sender_end t, None)
    end.

(** ** Receiving *)

(** What is read from the remote track *)
Inductive Rtp :=
| Packet (payload : Frame)
| ReadFailed.

(** The handler of the remote track: not announced yet, running with the output it
    forwards to, or ended *)
Inductive TrackTask :=
| Unannounced
| Forwarding (output_tx : option Output)
| Ended.

(** A [Receiver] with its task; [rcv_selection]: the output last selected, and whether the
    task has not seen it yet *)
Record Receiver := mkReceiver {
  rcv_shutdown : bool;
  rcv_selection : option Output;
  rcv_changed : bool;
  rcv_task : TrackTask
}.

Definition receiver_new : Receiver := mkReceiver false None false Unannounced.

Definition receiver_select (r : Receiver) (output : option Output) : Receiver :=
  mkReceiver (rcv_shutdown r) output true (rcv_task r).

Definition receiver_pause (r : Receiver) : Receiver := receiver_select r None.
Definition receiver_resume (r : Receiver) (output : Output) : Receiver := receiver_select r (Some output).

Definition receiver_shutdown (r : Receiver) : Receiver :=
  mkReceiver true (rcv_selection r) (rcv_changed r) (rcv_task r).

Definition receiver_task (r : Receiver) (task : TrackTask) : Receiver :=
  mkReceiver (rcv_shutdown r) (rcv_selection r) (rcv_changed r) task.

(** [on_track]: the remote track is announced, once. *)
Definition receiver_announced (r : Receiver) : Receiver :=
  match rcv_task r with
  | Unannounced => receiver_task r (Forwarding (rcv_selection r))
  | _ => r
  end.

(** A turn of the handler: the shutdown comes before a selection and that before a
    packet. [delivered]: the output took the packet. Answers whether a packet was read,
    and to which output it went. *)
Definition receiver_turn (r : Receiver) (rtp : Rtp) (delivered : bool) :
    Receiver * bool * option (Output * Frame) :=
  match rcv_task r with
  | Forwarding output_tx =>
    if rcv_shutdown r then (receiver_task r Ended, false, None)
    else if rcv_changed r then
      (mkReceiver (rcv_shutdown r) (rcv_selection r) false (Forwarding (rcv_selection r)), false, None)
    else
      match rtp with
      | Packet payload =>
        match output_tx with
        | Some tx =>
          if delivered then (r, true, Some (tx, payload))
          else (receiver_task r (Forwarding None), true, None)
        | None => (r, true, None)
        end
      | ReadFailed => (receiver_task r Ended, false, None)
      end
  | _ => (r, false, None)
  end.

(** ** The watchdog *)

Definition NO_INBOUND_MEDIA_TIMEOUT : Duration := 5000000000.
Definition FIRST_RTP_TIMEOUT : Duration := 15000000000.

(** [last_inbound]: the counters of RTP and RTCP *)
Record Watchdog := mkWatchdog {
  wd_running : bool;
  last_inbound : N * N;
  started_at : Instant;
  last_inbound_change : Instant;
  fired : bool
}.

Definition watchdog_new (now : Instant) (inbound : N * N) : Watchdog :=
  mkWatchdog true inbound now now false.

Definition watchdog_abort (w : Watchdog) : Watchdog :=
  mkWatchdog false (last_inbound w) (started_at w) (last_inbound_change w) (fired w).

Definition stalled (w : Watchdog) (now : Instant) : bool :=
  (NO_INBOUND_MEDIA_TIMEOUT <=? duration_since now (last_inbound_change w))%N.

Definition rtp_never_arrived (w : Watchdog) (now : Instant) (inbound : N * N) : bool :=
  (inbound.1 =? 0)%N && (FIRST_RTP_TIMEOUT <=? duration_since now (started_at w))%N.

(** A tick of its interval; answers whether it reports. *)
Definition watchdog_tick (w : Watchdog) (now : Instant) (inbound : N * N) : Watchdog * bool :=
  if negb (wd_running w) then (w, false)
  else
    let w := if bool_decide (inbound = last_inbound w) then w
             else mkWatchdog true inbound (started_at w) now (fired w) in
    if negb (fired w) && (stalled w now || rtp_never_arrived w now inbound)
    then (mkWatchdog true (last_inbound w) (started_at w) (last_inbound_change w) true, true)
    else (w, false).

(** ** A peer *)

Inductive WebrtcError := CallActive | NoCallActive | OtherError.

(** The peer with the tasks it spawned: of the senders and watchdogs it knows the one it
    holds by its number. *)
Record Peer := mkPeer {
  closed : bool;
  sender : option nat;
  receiver : bool;
  watchdog : option nat;
  received_rtp : N;
  forwarded_rtp : N;
  received_rtcp : N;
  sent_frames : N;
  rtcp_reader : bool;
  sender_tasks : list SenderTask;
  receiver_state : Receiver;
  watchdogs : list Watchdog;
  connection_open : bool
}.

Definition peer_new : Peer :=
  mkPeer false None true None 0 0 0 0 true [] receiver_new [] true.

Definition with_senders (p : Peer) (held : option nat) (tasks : list SenderTask) : Peer :=
  mkPeer (closed p) held (receiver p) (watchdog p) (received_rtp p) (forwarded_rtp p) (received_rtcp p)
    (sent_frames p) (rtcp_reader p) tasks (receiver_state p) (watchdogs p) (connection_open p).

Definition with_receiver (p : Peer) (held : bool) (r : Receiver) : Peer :=
  mkPeer (closed p) (sender p) held (watchdog p) (received_rtp p) (forwarded_rtp p) (received_rtcp p)
    (sent_frames p) (rtcp_reader p) (sender_tasks p) r (watchdogs p) (connection_open p).

Definition with_watchdogs (p : Peer) (held : option nat) (ws : list Watchdog) : Peer :=
  mkPeer (closed p) (sender p) (receiver p) held (received_rtp p) (forwarded_rtp p) (received_rtcp p)
    (sent_frames p) (rtcp_reader p) (sender_tasks p) (receiver_state p) ws (connection_open p).

Definition with_counters (p : Peer) (rtp forwarded rtcp sent : N) : Peer :=
  mkPeer (closed p) (sender p) (receiver p) (watchdog p) rtp forwarded rtcp
    sent (rtcp_reader p) (sender_tasks p) (receiver_state p) (watchdogs p) (connection_open p).

Definition with_connection (p : Peer) (is_closed reader is_open : bool) : Peer :=
  mkPeer is_closed (sender p) (receiver p) (watchdog p) (received_rtp p) (forwarded_rtp p) (received_rtcp p)
    (sent_frames p) reader (sender_tasks p) (receiver_state p) (watchdogs p) is_open.

Definition inbound_of (p : Peer) : N * N := (received_rtp p, received_rtcp p).

(** The audio of the call starts: what is received goes to [output]. *)
Definition peer_start (p : Peer) (output : Output) (now : Instant) : Result () WebrtcError * Peer :=
  if bool_decide (is_Some (sender p)) then (Err CallActive, p)
  else if negb (receiver p) then (Err NoCallActive, p)
  else
    let p := with_receiver p true (receiver_resume (receiver_state p) output) in
    let p := with_senders p (Some (length (sender_tasks p))) (sender_tasks p ++ [sender_new]) in
    (Ok (), with_watchdogs p (Some (length (watchdogs p))) (watchdogs p ++ [watchdog_new now (inbound_of p)])).

(** [watchdog.take()] and its [abort] *)
Definition take_watchdog (p : Peer) : Peer :=
  match watchdog p with
  | Some i => with_watchdogs p None (alter watchdog_abort i (watchdogs p))
  | None => p
  end.

(** [sender.take()] and its [shutdown]; answers the sender. *)
Definition take_sender (p : Peer) : Peer * option nat :=
  match sender p with
  | Some i => (with_senders p None (alter sender_shutdown i (sender_tasks p)), Some i)
  | None => (p, None)
  end.

Definition peer_pause (p : Peer) : Peer * option nat :=
  let p := take_watchdog p in
  let (p, taken) := take_sender p in
  (if receiver p then with_receiver p true (receiver_pause (receiver_state p)) else p, taken).

(** [Sender::stop]: when it returns the task has ended, by itself or aborted. *)
Definition sender_stop (p : Peer) (i : nat) : Peer :=
  with_senders p (sender p) (alter (λ t, sender_end (sender_shutdown t)) i (sender_tasks p)).

(** [joined]: the task of the sender did not panic. *)
Definition peer_stop (p : Peer) (joined : bool) : Result () WebrtcError * Peer :=
  let p := take_watchdog p in
  let (p, taken) := take_sender p in
  let p := match taken with Some i => sender_stop p i | None => p end in
  if bool_decide (is_Some taken) && negb joined then (Err OtherError, p)
  else (Ok (), if receiver p then with_receiver p false (receiver_shutdown (receiver_state p)) else p).

(** [closes]: the connection was closed. *)
Definition peer_close (p : Peer) (joined closes : bool) : Result () WebrtcError * Peer :=
  match peer_stop p joined with
  | (Err _, p) => (Err OtherError, p)
  | (Ok _, p) =>
    if closes then (Ok (), with_connection p true false false)
    else (Err OtherError, with_connection p true (rtcp_reader p) (connection_open p))
  end.

(** [Drop]: [runtime]: there is one to close the connection on. The sender and the
    receiver it holds are dropped, which ends their tasks. *)
Definition peer_drop (p : Peer) (runtime closes : bool) : Peer :=
  let p := take_watchdog p in
  let p := with_connection p (closed p) false
             (if negb (closed p) && runtime && closes then false else connection_open p) in
  let (p, _) := take_sender p in
  if receiver p then with_receiver p false (receiver_shutdown (receiver_state p)) else p.

(** *** The turns of its tasks *)

Definition peer_send (p : Peer) (i : nat) (input : InputRecv) (written : bool) : Peer * option Sample :=
  match sender_tasks p !! i with
  | None => (p, None)
  | Some t =>
    let (t, sample) := sender_turn t input written in
    let p := with_senders p (sender p) (<[i := t]> (sender_tasks p)) in
    match sample with
    | Some _ => (with_counters p (received_rtp p) (forwarded_rtp p) (received_rtcp p) (fetch_add (sent_frames p)), sample)
    | None => (p, None)
    end
  end.

Definition peer_announced (p : Peer) : Peer :=
  with_receiver p (receiver p) (receiver_announced (receiver_state p)).

Definition peer_receive (p : Peer) (rtp : Rtp) (delivered : bool) : Peer * option (Output * Frame) :=
  let '(r, read, forwarded) := receiver_turn (receiver_state p) rtp delivered in
  let p := with_receiver p (receiver p) r in
  (with_counters p (if read then fetch_add (received_rtp p) else received_rtp p)
     (if bool_decide (is_Some forwarded) then fetch_add (forwarded_rtp p) else forwarded_rtp p)
     (received_rtcp p) (sent_frames p), forwarded).

(** The reader of RTCP counts what it reads, and ends when it cannot. *)
Definition peer_rtcp (p : Peer) (is_ok : bool) : Peer :=
  if negb (rtcp_reader p) then p
  else if is_ok then with_counters p (received_rtp p) (forwarded_rtp p) (fetch_add (received_rtcp p)) (sent_frames p)
  else with_connection p (closed p) false (connection_open p).

Definition peer_tick (p : Peer) (i : nat) (now : Instant) : Peer * bool :=
  match watchdogs p !! i with
  | None => (p, false)
  | Some w =>
    let (w, reports) := watchdog_tick w now (inbound_of p) in
    (with_watchdogs p (watchdog p) (<[i := w]> (watchdogs p)), reports)
  end.
End media.
Arguments InputRecv : clear implicits.
Arguments Rtp : clear implicits.
Arguments Sample : clear implicits.
Arguments TrackTask : clear implicits.
Arguments Receiver : clear implicits.
Arguments Peer : clear implicits.

(** ** ICE servers *)

(** Of the protocol *)
Record IceServer := mkIceServer { urls : list string; username : option string; credential : option string }.
Record IceConfig := mkIceConfig { ice_servers : list IceServer }.

(** Of the [webrtc] crate; the policy is its default one or [Relay]. *)
Record RTCIceServer := mkRTCIceServer { rtc_urls : list string; rtc_username : string; rtc_credential : string }.
Record RTCConfiguration := mkRTCConfiguration { rtc_ice_servers : list RTCIceServer; relay_only : bool }.

(** [str::split_once('?')], the part behind *)
Fixpoint behind_question_mark (s : string) : option string :=
  match s with
  | EmptyString => None
  | String a s => if bool_decide (a = "?"%char) then Some s else behind_question_mark s
  end.

Definition is_supported_ice_url (url : string) : bool :=
  let lower := to_ascii_lowercase (trim url) in
  if starts_with lower "turns:" then false
  else if starts_with lower "turn:" then
    negb match behind_question_mark lower with
         | Some query => contains query "transport=tcp"
         | None => false
         end
  else true.

Definition server_into_rtc (s : IceServer) : RTCIceServer :=
  mkRTCIceServer (filter (λ url, is_supported_ice_url url = true) (urls s))
    (default ""%string (username s)) (default ""%string (credential s)).

Definition config_into_rtc (c : IceConfig) : RTCConfiguration :=
  mkRTCConfiguration (filter (λ s, rtc_urls s <> []) (map server_into_rtc (ice_servers c))) false.

Definition rtc_configuration (config : IceConfig) (force_relay : bool) : RTCConfiguration :=
  let rtc_config := config_into_rtc config in
  if force_relay then mkRTCConfiguration (rtc_ice_servers rtc_config) true else rtc_config.
