(* ===== verification/MediaProperties.v ===== *)
(** MediaProperties: the theorems about the audio of a call: what is lost of the input is
    reported, a held peer is silent, the watchdog notices a dead path and nothing else,
    and a peer that is dropped leaves nothing running. *)
From stdpp Require Import prelude gmap strings list.
From Stdlib Require Import Ascii NArith.
From S2P Require Import Prelude Protocol Calls Controllers Releases Media.

Section media.
Context {Frame Output : Type}.
Abbreviation Peer := (Peer Output).
Abbreviation Receiver := (Receiver Output).

(** ** What is lost is reported *)

(** The frames of the input an answer stands for *)
Definition frames_in (input : InputRecv Frame) : N :=
  match input with InputFrame _ => 1 | InputLagged skipped => skipped | InputClosed => 0 end.

Fixpoint send_all (t : SenderTask) (inputs : list (InputRecv Frame * bool)) : SenderTask * list (Sample Frame) :=
  match inputs with
  | [] => (t, [])
  | (input, written) :: inputs =>
    let (t, sample) := sender_turn t input written in
    let (t, samples) := send_all t inputs in
    (t, match sample with Some s => s :: samples | None => samples end)
  end.

(** The place in the input of the frame of each sample that was written, from 1 *)
Fixpoint written_at (running : bool) (offered : N) (inputs : list (InputRecv Frame * bool)) : list (Frame * N) :=
  match inputs with
  | [] => []
  | (input, written) :: inputs =>
    let at_ := (offered + frames_in input)%N in
    match input with
    | InputFrame frame => if running && written then (frame, at_) :: written_at running at_ inputs
                          else written_at running at_ inputs
    | InputLagged _ => written_at running at_ inputs
    | InputClosed => written_at false at_ inputs
    end
  end.

(** The place the samples tell: each is one frame after those it reports lost. *)
Fixpoint told (place : N) (samples : list (Sample Frame)) : list (Frame * N) :=
  match samples with
  | [] => []
  | s :: samples =>
    let place := (place + prev_dropped_packets s + 1)%N in (data s, place) :: told place samples
  end.

Definition all_frames (inputs : list (InputRecv Frame * bool)) : N :=
  foldr (λ iw n, (frames_in iw.1 + n)%N) 0%N inputs.

Lemma ended_sends_nothing t inputs : snd_running t = false -> send_all t inputs = (t, []).
Proof.
  intros Hr. induction inputs as [|[input written] inputs IH]; [done|]. cbn. unfold sender_turn. rewrite Hr. cbn.
  by rewrite IH.
Qed.

Lemma ended_is_written_nowhere offered inputs : written_at false offered inputs = [].
Proof.
  revert offered. induction inputs as [|[input written] inputs IH]; intros offered; [done|].
  cbn. by destruct input; rewrite IH.
Qed.

Lemma send_all_told inputs (t : SenderTask) place offered :
  snd_running t = true -> snd_shutdown t = false -> (place + dropped_frames t = offered)%N ->
  (dropped_frames t + all_frames inputs <= U16_MAX)%N ->
  told place (send_all t inputs).2 = written_at true offered inputs.
Proof.
  revert t place offered. induction inputs as [|[input written] inputs IH]; intros t place offered Hr Hs Hp Hle; [done|].
  change (all_frames _) with (frames_in input + all_frames inputs)%N in Hle. cbn.
  unfold sender_turn. rewrite Hr, Hs. cbn.
  assert (forall n, (dropped_frames t + n <= U16_MAX)%N ->
    saturating_add (dropped_frames t) n = (dropped_frames t + n)%N) as Hsat.
  { intros n Hn. unfold saturating_add. apply N.min_l. by etrans. }
  destruct input as [frame|skipped|]; cbn in Hle |- *.
  - destruct written; cbn.
    + assert (u16_or_max (dropped_frames t) = dropped_frames t) as Hu.
      { unfold u16_or_max. destruct (N.leb_spec (dropped_frames t) U16_MAX); lia. }
      set (t1 := mkSenderTask false true 0). specialize (IH t1 (offered + 1)%N (offered + 1)%N).
      destruct (send_all t1 inputs) as [t2 samples]. cbn in IH |- *. rewrite Hu, Hp. f_equal. apply IH; cbn; (lia || done).
    + set (t1 := mkSenderTask _ _ _). specialize (IH t1 place (offered + 1)%N).
      destruct (send_all t1 inputs) as [t2 samples]. apply IH; cbn; rewrite ?Hsat; (lia || done).
  - set (t1 := mkSenderTask _ _ _). specialize (IH t1 place (offered + skipped)%N).
    destruct (send_all t1 inputs) as [t2 samples]. apply IH; cbn; rewrite ?Hsat; (lia || done).
  - rewrite ended_sends_nothing by done. by rewrite ended_is_written_nowhere.
Qed.

(** Lost frames leave a gap, they do not shift the audio: the samples a sender writes,
    each put one frame behind those it reports as lost, are the frames of the captured
    input at their places in it - whatever the subscription skipped and whatever the track
    refused, for up to 65535 frames of twenty milliseconds. *)
Theorem lost_frames_are_reported (inputs : list (InputRecv Frame * bool)) : (all_frames inputs <= U16_MAX)%N ->
  told 0 (send_all sender_new inputs).2 = written_at true 0 inputs.
Proof. intros Hle. by apply send_all_told. Qed.

(** ** Runs of a peer *)

Inductive PeerOp :=
| OpStart (output : Output) (now : Instant)
| OpPause
| OpStop (joined : bool)
| OpClose (joined closes : bool)
| OpDrop (runtime closes : bool)
| OpJoin (i : nat)
| OpSend (i : nat) (input : InputRecv Frame) (written : bool)
| OpAnnounced
| OpReceive (rtp : Rtp Frame) (delivered : bool)
| OpRtcp (is_ok : bool)
| OpTick (i : nat) (now : Instant).

(** What a step lets through: audio to the peer and from it, and the report of the
    watchdog *)
Inductive Let :=
| SentTo (sample : Sample Frame)
| Played (output : Output) (frame : Frame)
| NoInboundMedia (i : nat).

Definition peer_step (p : Peer) (op : PeerOp) : Peer * list Let :=
  match op with
  | OpStart output now => ((peer_start p output now).2, [])
  | OpPause => ((peer_pause p).1, [])
  | OpStop joined => ((peer_stop p joined).2, [])
  | OpClose joined closes => ((peer_close p joined closes).2, [])
  | OpDrop runtime closes => (peer_drop p runtime closes, [])
  | OpJoin i => (sender_stop p i, [])
  | OpSend i input written =>
    let (p, sample) := peer_send p i input written in (p, match sample with Some s => [SentTo s] | None => [] end)
  | OpAnnounced => (peer_announced p, [])
  | OpReceive rtp delivered =>
    let (p, forwarded) := peer_receive p rtp delivered in
    (p, match forwarded with Some (output, frame) => [Played output frame] | None => [] end)
  | OpRtcp is_ok => (peer_rtcp p is_ok, [])
  | OpTick i now => let (p, reports) := peer_tick p i now in (p, if reports then [NoInboundMedia i] else [])
  end.

Fixpoint peer_run (p : Peer) (ops : list PeerOp) : Peer * list Let :=
  match ops with
  | [] => (p, [])
  | op :: ops => let (p, out) := peer_step p op in let (p, more) := peer_run p ops in (p, out ++ more)
  end.

(** The tasks of a peer: only the sender and the watchdog it holds work, they are held
    together, and only while it has its receiver; what the receiver forwards to was
    selected. *)
Record peer_ok (p : Peer) : Prop := {
  pk_senders : forall i t, sender_tasks p !! i = Some t -> sender p <> Some i -> snd_shutdown t = true;
  pk_watchdogs : forall i w, watchdogs p !! i = Some w -> watchdog p <> Some i -> wd_running w = false;
  pk_sender : forall i, sender p = Some i -> i < length (sender_tasks p);
  pk_watchdog : forall i, watchdog p = Some i -> i < length (watchdogs p);
  pk_together : is_Some (sender p) <-> is_Some (watchdog p);
  pk_receiver : is_Some (sender p) -> receiver p = true;
  pk_gone : receiver p = false -> rcv_shutdown (receiver_state p) = true;
  pk_selected : forall tx, rcv_task (receiver_state p) = Forwarding (Some tx) ->
    rcv_changed (receiver_state p) = false -> rcv_selection (receiver_state p) = Some tx
}.

Lemma alter_cases {A : Type} (f : A -> A) (l : list A) i j x : alter f i l !! j = Some x ->
  (i = j /\ exists y, l !! j = Some y /\ x = f y) \/ (i <> j /\ l !! j = Some x).
Proof.
  rewrite list_lookup_alter. destruct (decide (i = j)) as [->|Hne]; [|by right].
  intros Hx. left. split; [done|]. apply fmap_Some in Hx as (y & -> & ->). by eexists.
Qed.

Lemma insert_cases {A : Type} (l : list A) i j x y : <[i := x]> l !! j = Some y ->
  (i = j /\ y = x /\ j < length l) \/ (i <> j /\ l !! j = Some y).
Proof.
  intros Hy. destruct (decide (i = j)) as [->|Hne]; [|rewrite list_lookup_insert_ne in Hy by done; by right].
  left. pose proof (lookup_lt_Some _ _ _ Hy) as Hlt. rewrite length_insert in Hlt.
  rewrite list_lookup_insert_eq in Hy by done. by injection Hy as <-.
Qed.

Lemma snoc_cases {A : Type} (l : list A) j x y : (l ++ [x]) !! j = Some y ->
  l !! j = Some y \/ (j = length l /\ y = x).
Proof.
  intros [Hy|[Hge Hy]]%lookup_app_Some; [by left|right].
  destruct (j - length l) as [|k] eqn:E; [|done]. injection Hy as <-. split; [lia|done].
Qed.

(** *** The parts of the operations *)

Lemma peer_new_ok : peer_ok peer_new.
Proof. split; cbn; try done. Qed.

(** A peer whose watchdog and sender were taken *)
Record taken (p p' : Peer) : Prop := {
  tk_sender : sender p' = None;
  tk_watchdog : watchdog p' = None;
  tk_receiver : receiver p' = receiver p;
  tk_state : receiver_state p' = receiver_state p;
  tk_closed : closed p' = closed p;
  tk_open : connection_open p' = connection_open p;
  tk_reader : rtcp_reader p' = rtcp_reader p
}.

Lemma take_both (p : Peer) : peer_ok p ->
  peer_ok (take_sender (take_watchdog p)).1 /\ taken p (take_sender (take_watchdog p)).1 /\
  (take_sender (take_watchdog p)).2 = sender p.
Proof.
  intros [P1 P2 P3 P4 P5 P6 P7 P8].
  assert (take_sender (take_watchdog p) =
    (with_senders (take_watchdog p) None
      (match sender p with Some i => alter sender_shutdown i (sender_tasks p) | None => sender_tasks p end), sender p)) as E.
  { unfold take_sender, take_watchdog. destruct (watchdog p), p as [? []]; done. }
  rewrite E. clear E. cbn. unfold take_watchdog.
  assert (forall i t, match sender p with Some i => alter sender_shutdown i (sender_tasks p) | None => sender_tasks p end
    !! i = Some t -> snd_shutdown t = true) as Hs.
  { intros i t. destruct (sender p) as [k|] eqn:Ek; [|intros Ht; by eapply P1].
    intros [(-> & y & Hy & ->)|[Hne Hy]]%alter_cases; [done|]. eapply P1; [done|congruence]. }
  destruct (watchdog p) as [k|] eqn:Ek; (split; [|split; [|done]]); split; cbn; rewrite ?Ek; try done; eauto.
  - intros i w [(-> & y & Hy & ->)|[Hne Hy]]%alter_cases _; [done|]. eapply P2; [done|congruence].
Qed.

Lemma with_receiver_ok (p : Peer) held r : peer_ok p -> (is_Some (sender p) -> held = true) ->
  (held = false -> rcv_shutdown r = true) ->
  (forall tx, rcv_task r = Forwarding (Some tx) -> rcv_changed r = false -> rcv_selection r = Some tx) ->
  peer_ok (with_receiver p held r).
Proof. intros [P1 P2 P3 P4 P5 P6 P7 P8] H1 H2 H3. by split. Qed.

Lemma sender_stop_ok (p : Peer) i : peer_ok p -> peer_ok (sender_stop p i).
Proof.
  intros [P1 P2 P3 P4 P5 P6 P7 P8]. split; cbn; try done.
  - intros j t [(-> & y & Hy & ->)|[Hne Hy]]%alter_cases Hn; [done|eauto].
  - intros j Hj. rewrite length_alter. eauto.
Qed.

Lemma peer_start_ok (p : Peer) output now : peer_ok p -> peer_ok (peer_start p output now).2.
Proof.
  intros Hp. unfold peer_start. destruct (bool_decide _) eqn:Hs; [done|]. apply bool_decide_eq_false in Hs.
  destruct (receiver p) eqn:Hr; cbn; [|done]. destruct Hp as [P1 P2 P3 P4 P5 P6 P7 P8].
  assert (sender p = None) as Es by (destruct (sender p); [by destruct Hs|done]).
  assert (watchdog p = None) as Ew.
  { destruct (watchdog p); [|done]. destruct Hs. by apply P5. }
  split; cbn; try done.
  - intros i t [Ht|[-> ->]]%snoc_cases Hne; [|congruence]. eapply P1; [done|by rewrite Es].
  - intros i w [Hw|[-> ->]]%snoc_cases Hne; [|congruence]. eapply P2; [done|by rewrite Ew].
  - intros i [= <-]. rewrite length_app. cbn. lia.
  - intros i [= <-]. rewrite length_app. cbn. lia.
Qed.

(** Pausing, stopping and dropping take sender and watchdog first. *)
Lemma peer_pause_ok (p : Peer) : peer_ok p -> peer_ok (peer_pause p).1 /\
  sender (peer_pause p).1 = None /\ watchdog (peer_pause p).1 = None /\ (peer_pause p).2 = sender p /\
  receiver (peer_pause p).1 = receiver p /\
  (rcv_selection (receiver_state (peer_pause p).1) = None \/ rcv_shutdown (receiver_state (peer_pause p).1) = true).
Proof.
  intros Hp. destruct (take_both p Hp) as (Ho & Ht & E). unfold peer_pause.
  destruct (take_sender (take_watchdog p)) as [p1 s]. cbn in Ho, Ht, E. destruct Ht as [T1 T2 T3 T4 T5 T6 T7].
  destruct (receiver p1) eqn:Hr; cbn.
  - split_and!; [|done..|congruence|by left]. apply with_receiver_ok; cbn; try done.
  - split_and!; [done..|congruence|]. right. by apply (pk_gone p1).
Qed.

Lemma peer_stop_ok (p : Peer) joined : peer_ok p ->
  match peer_stop p joined with
  | (Ok _, p') => peer_ok p' /\ sender p' = None /\ watchdog p' = None /\ receiver p' = false /\
      rcv_shutdown (receiver_state p') = true /\ closed p' = closed p /\ connection_open p' = connection_open p
  | (Err _, p') => peer_ok p' /\ sender p' = None /\ watchdog p' = None /\ joined = false /\ is_Some (sender p)
  end.
Proof.
  intros Hp. destruct (take_both p Hp) as (Ho & Ht & E). unfold peer_stop.
  destruct (take_sender (take_watchdog p)) as [p1 s]. cbn in Ho, Ht, E. destruct Ht as [T1 T2 T3 T4 T5 T6 T7].
  set (p2 := match s with Some i => sender_stop p1 i | None => p1 end).
  assert (peer_ok p2 /\ sender p2 = None /\ watchdog p2 = None /\ closed p2 = closed p /\
    connection_open p2 = connection_open p /\ receiver_state p2 = receiver_state p1) as (Ho2 & S1 & S2 & S3 & S4 & S5).
  { subst p2. destruct s as [i|]; [|done]. split; [by apply sender_stop_ok|done]. }
  clearbody p2. subst s. destruct (bool_decide (is_Some (sender p)) && negb joined) eqn:Hf.
  - apply andb_true_iff in Hf as [Hs%bool_decide_eq_true Hj]. by destruct joined.
  - destruct (receiver p2) eqn:Hr; [|split_and!; try done; by apply (pk_gone p2)].
    split; [|done]. apply with_receiver_ok; cbn; try done; [by rewrite S1; intros []|by apply Ho2].
Qed.

Lemma with_connection_ok (p : Peer) c rd o : peer_ok p -> peer_ok (with_connection p c rd o).
Proof. intros []. by split. Qed.

Lemma with_counters_ok (p : Peer) a b c d : peer_ok p -> peer_ok (with_counters p a b c d).
Proof. intros []. by split. Qed.

Lemma peer_drop_ok (p : Peer) runtime closes : peer_ok p ->
  let p' := peer_drop p runtime closes in
  peer_ok p' /\ sender p' = None /\ watchdog p' = None /\ receiver p' = false /\
  rcv_shutdown (receiver_state p') = true /\ rtcp_reader p' = false /\
  connection_open p' = connection_open p && negb (negb (closed p) && runtime && closes).
Proof.
  intros Hp. cbv zeta. unfold peer_drop.
  set (p1 := with_connection (take_watchdog p) _ _ _).
  assert (take_sender p1 = (with_connection (take_sender (take_watchdog p)).1 (closed p1) (rtcp_reader p1) (connection_open p1),
    (take_sender (take_watchdog p)).2)) as E by (subst p1; unfold take_sender; cbn; by destruct (sender (take_watchdog p))).
  destruct (take_both p Hp) as (Ho & Ht & _). rewrite E. destruct (take_sender (take_watchdog p)) as [p2 s].
  cbn in Ho, Ht |- *. destruct Ht as [T1 T2 T3 T4 T5 T6 T7].
  assert (connection_open p1 = connection_open p && negb (negb (closed p) && runtime && closes)) as Hc.
  { subst p1. cbn. assert (closed (take_watchdog p) = closed p) as -> by (unfold take_watchdog; by destruct (watchdog p)).
    assert (connection_open (take_watchdog p) = connection_open p) as -> by (unfold take_watchdog; by destruct (watchdog p)).
    destruct (negb (closed p) && runtime && closes); cbn; [by rewrite andb_false_r|by rewrite andb_true_r]. }
  destruct (receiver p2) eqn:Hr; cbn.
  - split_and!; try done. apply with_receiver_ok; cbn; try done; [by apply with_connection_ok|by rewrite T1; intros []|].
    by apply Ho.
  - split_and!; try done; [by apply with_connection_ok|by apply (pk_gone p2)].
Qed.

(** *** The turns of the tasks *)

Definition selects (r : Receiver) : Prop :=
  forall tx, rcv_task r = Forwarding (Some tx) -> rcv_changed r = false -> rcv_selection r = Some tx.

Lemma receiver_turn_spec (r : Receiver) (rtp : Rtp Frame) delivered : selects r ->
  let '(r', read, forwarded) := receiver_turn r rtp delivered in
  selects r' /\ rcv_shutdown r' = rcv_shutdown r /\ rcv_selection r' = rcv_selection r /\
  match forwarded with
  | Some (tx, payload) => rcv_selection r = Some tx /\ rcv_shutdown r = false /\ rtp = Packet payload /\ read = true
  | None => True
  end.
Proof.
  intros Hr. unfold receiver_turn. destruct (rcv_task r) as [|output|] eqn:Et; [done| |done].
  destruct (rcv_shutdown r) eqn:Es; [by cbn; rewrite ?Es|].
  destruct (rcv_changed r) eqn:Ec; [split_and!; try done; cbn; by intros tx [= ->]|].
  destruct rtp as [payload|]; [|split_and!; done].
  destruct output as [tx|]; [|split_and!; done]. destruct delivered; split_and!; try done. by apply Hr.
Qed.

Lemma sender_turn_spec (t : SenderTask) (input : InputRecv Frame) written :
  let (t', sample) := sender_turn t input written in
  snd_shutdown t' = snd_shutdown t /\ (is_Some sample -> snd_running t = true /\ snd_shutdown t = false).
Proof.
  unfold sender_turn. destruct (snd_running t); [|done]. destruct (snd_shutdown t) eqn:Es; cbn; [by rewrite Es|].
  destruct input; [|done|cbn; by rewrite Es]. destruct written; cbn; done.
Qed.

(** Without a start, a peer that holds no sender and whose receiver forwards nowhere
    lets nothing through. *)
Definition quiet (p : Peer) : Prop :=
  sender p = None /\ watchdog p = None /\
  (rcv_selection (receiver_state p) = None \/ rcv_shutdown (receiver_state p) = true).

Definition starts (op : PeerOp) : bool := match op with OpStart _ _ => true | _ => false end.

Lemma peer_step_ok (p : Peer) op : peer_ok p ->
  peer_ok (peer_step p op).1 /\
  (quiet p -> starts op = false -> quiet (peer_step p op).1 /\ (peer_step p op).2 = []).
Proof.
  intros Hp. pose proof Hp as [P1 P2 P3 P4 P5 P6 P7 P8]. destruct op as [output now| |joined|joined closes|runtime closes|i|i input written| |rtp delivered|is_ok|i now]; cbn [peer_step fst snd].
  - split; [by apply peer_start_ok|done].
  - destruct (peer_pause_ok p Hp) as (Ho & E1 & E2 & _ & _ & E3). split; [done|]. intros _ _. split; [|done]. by split_and!.
  - pose proof (peer_stop_ok p joined Hp) as Hs. destruct (peer_stop p joined) as [[[]|e] p']; cbn.
    + destruct Hs as (Ho & E1 & E2 & E3 & E4 & _). split; [done|]. intros _ _. split; [|done]. split_and!; [done..|by right].
    + destruct Hs as (Ho & E1 & E2 & E3 & E4). split; [done|]. intros (Q & _ & _) _. rewrite Q in E4. by destruct E4.
  - unfold peer_close. pose proof (peer_stop_ok p joined Hp) as Hs. destruct (peer_stop p joined) as [[[]|e] p']; cbn.
    + destruct Hs as (Ho & E1 & E2 & E3 & E4 & _).
      assert (quiet p') as Hq by (split_and!; [done..|by right]).
      destruct closes; cbn; (split; [by apply with_connection_ok|done]).
    + destruct Hs as (Ho & E1 & E2 & E3 & E4). split; [done|]. intros (Q & _ & _) _. rewrite Q in E4. by destruct E4.
  - destruct (peer_drop_ok p runtime closes Hp) as (Ho & E1 & E2 & E3 & E4 & _). split; [done|].
    intros _ _. split; [|done]. split_and!; [done..|by right].
  - split; [by apply sender_stop_ok|done].
  - unfold peer_send. destruct (sender_tasks p !! i) as [t|] eqn:Et; [|done].
    pose proof (sender_turn_spec t input written) as Hturn. destruct (sender_turn t input written) as [t' sample].
    destruct Hturn as [Hsh Hsome]. set (p1 := with_senders p _ _).
    assert (peer_ok p1) as Ho.
    { split; cbn; try done.
      - intros j u [(-> & -> & _)|[Hne Hu]]%insert_cases Hn; [rewrite Hsh|]; eauto.
      - intros j Hj. rewrite length_insert. eauto. }
    split; [destruct sample; [by apply with_counters_ok|done]|]. intros (Q1 & Q2 & Q3) _.
    destruct sample as [sm|]; [|done]. destruct Hsome as [_ Hfalse]; [done|].
    rewrite (P1 i t Et) in Hfalse; [done|by rewrite Q1].
  - split; [|by intros (Q1 & Q2 & Q3) _; split; [split_and!|]; cbn; try done; unfold receiver_announced; destruct (rcv_task (receiver_state p))].
    apply with_receiver_ok; try done; unfold receiver_announced.
    + destruct (rcv_task (receiver_state p)); eauto.
    + destruct (rcv_task (receiver_state p)) eqn:Et; try done; [|by rewrite Et; eauto|by rewrite Et].
      cbn. by intros tx [= ->].
  - unfold peer_receive. pose proof (receiver_turn_spec (receiver_state p) rtp delivered P8) as Hturn.
    destruct (receiver_turn (receiver_state p) rtp delivered) as [[r read] forwarded].
    destruct Hturn as (R1 & R2 & R3 & R4). cbn. split.
    + apply with_counters_ok, with_receiver_ok; [done|done|rewrite R2; eauto|done].
    + intros (Q1 & Q2 & Q3) _. destruct forwarded as [[tx payload]|].
      * destruct R4 as (R4 & R5 & _). rewrite R4, R5 in Q3. by destruct Q3.
      * split; [|done]. split_and!; cbn; [done|done|by rewrite R2, R3].
  - unfold peer_rtcp. destruct (rtcp_reader p); cbn; [|done].
    destruct is_ok; cbn; (split; [by (apply with_counters_ok || apply with_connection_ok)|done]).
  - unfold peer_tick. destruct (watchdogs p !! i) as [w|] eqn:Ew; [|done].
    destruct (watchdog_tick w now (inbound_of p)) as [w' reports] eqn:Et. cbn.
    assert (wd_running w = false -> wd_running w' = false /\ reports = false) as Hoff.
    { intros Hr. unfold watchdog_tick in Et. rewrite Hr in Et. cbn in Et. by injection Et as <- <-. }
    split.
    + split; cbn; try done.
      * intros j u [(-> & -> & _)|[Hne Hu]]%insert_cases Hn; [|eauto]. apply Hoff. eauto.
      * intros j Hj. rewrite length_insert. eauto.
    + intros (Q1 & Q2 & Q3) _. destruct Hoff as [_ ->]; [by eapply P2; [|rewrite Q2]|]. done.
Qed.

Lemma peer_run_ok (p : Peer) ops : peer_ok p -> peer_ok (peer_run p ops).1.
Proof.
  revert p. induction ops as [|op ops IH]; intros p Hp; [done|]. cbn.
  destruct (peer_step_ok p op Hp) as [Ho _]. destruct (peer_step p op) as [p1 out].
  specialize (IH p1 Ho). by destruct (peer_run p1 ops).
Qed.

Lemma quiet_run (p : Peer) ops : peer_ok p -> quiet p -> Forall (λ op, starts op = false) ops ->
  (peer_run p ops).2 = [] /\ quiet (peer_run p ops).1.
Proof.
  revert p. induction ops as [|op ops IH]; intros p Hp Hq Hs; [done|]. apply Forall_cons in Hs as [Hop Hs]. cbn.
  destruct (peer_step_ok p op Hp) as [Ho Hstep]. destruct (Hstep Hq Hop) as [Hq1 Hout].
  destruct (peer_step p op) as [p1 out]. cbn in *. specialize (IH p1 Ho Hq1 Hs).
  destruct (peer_run p1 ops) as [p2 more]. cbn in *. by rewrite Hout.
Qed.


(** ** The life of a peer *)

(** What a peer promises: it is ready, its audio is active, or it is over. *)
Inductive Phase := Ready | Active | Over.

#[local] Instance Phase_eq_dec : EqDecision Phase.
Proof. solve_decision. Defined.

Definition phase_step (ph : Phase) (op : PeerOp) : Phase :=
  match op, ph with
  | OpStart _ _, Ready => Active
  | OpPause, Active => Ready
  | OpStop false, Active | OpClose false _, Active => Ready
  | OpStop _, _ | OpClose _ _, _ | OpDrop _ _, _ => Over
  | _, ph => ph
  end.

Definition phase_start (ph : Phase) : Result () WebrtcError :=
  match ph with Ready => Ok () | Active => Err CallActive | Over => Err NoCallActive end.

Definition phase (p : Peer) : Phase :=
  match sender p with Some _ => Active | None => if receiver p then Ready else Over end.

Lemma phase_keeps (p : Peer) p' : sender p' = sender p -> receiver p' = receiver p -> phase p' = phase p.
Proof. intros E1 E2. unfold phase. by rewrite E1, E2. Qed.

Lemma peer_stop_phase (p : Peer) joined : peer_ok p ->
  (peer_stop p joined).1 = (if bool_decide (phase p = Active) && negb joined then Err OtherError else Ok ()) /\
  phase (peer_stop p joined).2 = phase_step (phase p) (OpStop joined).
Proof.
  intros Hp. pose proof (peer_stop_ok p joined Hp) as Hs.
  destruct (take_both p Hp) as (Ho & [T1 T2 T3 T4 T5 T6 T7] & E).
  assert ((peer_stop p joined).1 = if bool_decide (is_Some (sender p)) && negb joined then Err OtherError else Ok ()) as Ea.
  { unfold peer_stop. destruct (take_sender (take_watchdog p)) as [p1 s]. cbn in E. subst s.
    by destruct (bool_decide (is_Some (sender p)) && negb joined). }
  assert (receiver (peer_stop p joined).2 = if bool_decide (is_Some (sender p)) && negb joined then receiver p else false) as Er.
  { unfold peer_stop. destruct (take_sender (take_watchdog p)) as [p1 s]. cbn in E, T3. subst s.
    destruct (bool_decide (is_Some (sender p)) && negb joined); destruct (sender p); cbn; try done;
      (destruct (receiver p1) eqn:Hr; [done|by cbn; rewrite ?Hr]). }
  assert (sender (peer_stop p joined).2 = None) as Es
    by (destruct (peer_stop p joined) as [[]?]; apply Hs).
  assert (bool_decide (phase p = Active) = bool_decide (is_Some (sender p))) as Eb.
  { unfold phase. destruct (sender p); cbn; [done|]. by destruct (receiver p). }
  rewrite Eb. split; [done|]. unfold phase at 1. rewrite Es, Er.
  pose proof (pk_receiver p Hp) as Hrec. unfold phase.
  destruct (sender p) as [k|]; cbn; [rewrite Hrec by done; by destruct joined|by destruct (receiver p), joined].
Qed.

(** A turn that keeps what is held keeps the phase. *)
#[local] Ltac kept :=
  match goal with Hp : peer_ok ?p |- _ => etrans; [by apply (phase_keeps p)|by destruct (phase p)] end.

Lemma phase_follows (p : Peer) op : peer_ok p ->
  phase (peer_step p op).1 = phase_step (phase p) op /\
  (forall output now, op = OpStart output now -> (peer_start p output now).1 = phase_start (phase p)).
Proof.
  intros Hp. destruct op as [output now| |joined|joined closes|runtime closes|i|i input written| |rtp delivered|is_ok|i now]; cbn [peer_step fst snd];
    (split; [|first [by intros ? ? [= -> ->]|intros out n [= -> ->]]]).
  - unfold peer_start, phase. destruct (sender p) as [k|] eqn:Es; cbn; [by rewrite Es|].
    destruct (receiver p) eqn:Hr; cbn; [done|]. by rewrite Es, Hr.
  - unfold peer_start, phase, phase_start. destruct (sender p); cbn; [done|]. by destruct (receiver p).
  - destruct (peer_pause_ok p Hp) as (Ho & E1 & _ & _ & E2 & _). unfold phase. rewrite E1, E2.
    pose proof (pk_receiver p Hp) as Hrec. destruct (sender p); cbn; [by rewrite Hrec|by destruct (receiver p)].
  - by apply peer_stop_phase.
  - destruct (peer_stop_phase p joined Hp) as [Ea Eph]. unfold peer_close.
    destruct (peer_stop p joined) as [[[]|e] p']; cbn in *.
    + destruct closes; (etrans; [apply (phase_keeps p'); done|]); rewrite Eph; by destruct joined, (phase p).
    + rewrite Eph. by destruct joined, (phase p).
  - destruct (peer_drop_ok p runtime closes Hp) as (_ & E1 & _ & E2 & _). unfold phase at 1. rewrite E1, E2.
    by destruct (phase p).
  - kept.
  - unfold peer_send. destruct (sender_tasks p !! i) as [t|]; [|kept].
    destruct (sender_turn t input written) as [t' [sm|]]; kept.
  - kept.
  - unfold peer_receive. destruct (receiver_turn _ _ _) as [[r read] forwarded]. kept.
  - unfold peer_rtcp. destruct (rtcp_reader p), is_ok; kept.
  - unfold peer_tick. destruct (watchdogs p !! i) as [w|]; [|kept].
    destruct (watchdog_tick w now (inbound_of p)) as [w' r]. kept.
Qed.

(** A peer follows its contract: ready, active, or over. It is started when ready -
    the first time or after a pause - and refuses otherwise, with the reason; a pause
    makes it ready again, a stop, a close and a drop end it for good; and what its tasks
    do changes nothing of it. *)
Theorem peer_follows_phases (ops : list PeerOp) (output : Output) now :
  let p := (peer_run peer_new ops).1 in
  phase p = foldl phase_step Ready ops /\ (peer_start p output now).1 = phase_start (foldl phase_step Ready ops) /\
  ((peer_start p output now).1 <> Ok () -> (peer_start p output now).2 = p).
Proof.
  cbv zeta. assert (forall p, peer_ok p -> phase (peer_run p ops).1 = foldl phase_step (phase p) ops) as Hrun.
  { induction ops as [|op ops IH]; intros p Hp; [done|]. cbn. destruct (phase_follows p op Hp) as [<- _].
    destruct (peer_step_ok p op Hp) as [Ho _]. destruct (peer_step p op) as [p1 out]. cbn in *. rewrite <- (IH p1 Ho).
    by destruct (peer_run p1 ops). }
  specialize (Hrun peer_new peer_new_ok). change (phase peer_new) with Ready in Hrun.
  assert (peer_ok (peer_run peer_new ops).1) as Hp by apply peer_run_ok, peer_new_ok.
  destruct (phase_follows _ (OpStart output now) Hp) as [_ Hstart]. specialize (Hstart _ _ eq_refl).
  rewrite Hrun in Hstart. split_and!; [done|done|]. clear. unfold peer_start.
  destruct (bool_decide _); [done|]. by destruct (receiver _).
Qed.

(** A dropped peer leaves nothing behind: its watchdogs and the reader of RTCP do not
    run, its senders and its receiver are told to end and do nothing else at their next
    turn, and the connection is closed, if there is a runtime to close it on and the peer
    was not closed before. *)
Theorem dropped_peer_leaves_nothing (ops : list PeerOp) :
  let p := (peer_run peer_new ops).1 in
  let p' := peer_drop p true true in
  Forall (λ w, wd_running w = false) (watchdogs p') /\ rtcp_reader p' = false /\
  Forall (λ t, forall (input : InputRecv Frame) written, sender_turn t input written = (sender_end t, None) \/ snd_running t = false) (sender_tasks p') /\
  (forall rtp delivered, match (receiver_turn (receiver_state p') rtp delivered : Receiver * bool * option (Output * Frame)) with
     (r, read, forwarded) => read = false /\ forwarded = None /\ (rcv_task r = Ended \/ rcv_task r = Unannounced) end) /\
  (closed p = false \/ connection_open p = false -> connection_open p' = false).
Proof.
  cbv zeta. set (p := (peer_run peer_new ops).1). assert (peer_ok p) as Hp by apply peer_run_ok, peer_new_ok. clearbody p.
  destruct (peer_drop_ok p true true Hp) as ([P1 P2 _ _ _ _ _ _] & E1 & E2 & E3 & E4 & E5 & E6). split_and!.
  - apply Forall_lookup. intros i w Hw. by eapply P2; [|rewrite E2].
  - done.
  - apply Forall_lookup. intros i t Ht input written. unfold sender_turn.
    assert (snd_shutdown t = true) as -> by (by eapply P1; [|rewrite E1]).
    destruct (snd_running t); [by left|by right].
  - intros rtp delivered. unfold receiver_turn. rewrite E4.
    destruct (rcv_task _) eqn:Et; rewrite ?Et; cbn; auto.
  - rewrite E6. intros [Hc|Hc]; rewrite Hc; [by rewrite andb_false_r|done].
Qed.

(** ** The watchdog *)

Definition has_fired (p : Peer) (i : nat) : Prop := exists w, watchdogs p !! i = Some w /\ fired w = true.

Lemma tick_fires (w : Watchdog) now inbound : let (w', reports) := watchdog_tick w now inbound in
  (fired w = true -> fired w' = true) /\ (reports = true -> fired w = false /\ fired w' = true).
Proof.
  unfold watchdog_tick. destruct (wd_running w); [|done]. cbn.
  set (w1 := if bool_decide _ then w else _).
  assert (fired w1 = fired w) as E by (subst w1; by case_match).
  destruct (negb (fired w1) && _) eqn:Hf; [|by rewrite E]. apply andb_true_iff in Hf as [Hf _].
  apply negb_true_iff in Hf. by rewrite <- E, Hf.
Qed.

Lemma fired_stays (p : Peer) op i : peer_ok p ->
  (has_fired p i -> has_fired (peer_step p op).1 i) /\
  (NoInboundMedia i ∈ (peer_step p op).2 -> ~ has_fired p i /\ has_fired (peer_step p op).1 i).
Proof.
  intros Hp.
  assert (forall p' : Peer, watchdogs p' = watchdogs p -> has_fired p i -> has_fired p' i) as Hsame.
  { intros p' E (w & Hw & Hf). exists w. by rewrite E. }
  assert (forall p' : Peer, watchdogs p' = watchdogs (take_watchdog p) -> has_fired p i -> has_fired p' i) as Htaken.
  { intros p' E (w & Hw & Hf). unfold has_fired. rewrite E. unfold take_watchdog. destruct (watchdog p) as [k|]; [|by exists w].
    cbn. rewrite list_lookup_alter. destruct (decide (k = i)) as [->|]; [|by exists w]. rewrite Hw. by eexists. }
  assert (forall q : Peer, watchdogs (take_sender q).1 = watchdogs q) as Hts
    by (intros q; unfold take_sender; by destruct (sender q)).
  destruct op as [output now| |joined|joined closes|runtime closes|j|j input written| |rtp delivered|is_ok|j now];
    cbn [peer_step fst snd]; (split; [|try (by intros ?%elem_of_nil)]).
  - intros Hf. unfold peer_start. destruct (bool_decide _); [done|]. destruct (receiver p); [|done]. cbn.
    destruct Hf as (w & Hw & Hf). exists w. cbn. split; [|done]. by apply lookup_app_l_Some.
  - apply Htaken. unfold peer_pause. pose proof (Hts (take_watchdog p)) as E.
    destruct (take_sender (take_watchdog p)) as [p1 s]. cbn in *. by destruct (receiver p1).
  - apply Htaken. unfold peer_stop. pose proof (Hts (take_watchdog p)) as E.
    destruct (take_sender (take_watchdog p)) as [p1 s]. cbn in *. destruct (bool_decide _ && _); destruct s; cbn; by repeat case_match.
  - apply Htaken. unfold peer_close, peer_stop. pose proof (Hts (take_watchdog p)) as E.
    destruct (take_sender (take_watchdog p)) as [p1 s]. cbn in *. destruct (bool_decide _ && _); destruct s, closes; cbn; by repeat case_match.
  - apply Htaken. unfold peer_drop. set (q := with_connection _ _ _ _). pose proof (Hts q) as E.
    destruct (take_sender q) as [p1 s]. cbn in *. by destruct (receiver p1).
  - by apply Hsame.
  - unfold peer_send. destruct (sender_tasks p !! j) as [t|]; [|done].
    destruct (sender_turn t input written) as [t' [sm|]]; by apply Hsame.
  - unfold peer_send. destruct (sender_tasks p !! j) as [t|]; [|by intros ?%elem_of_nil].
    destruct (sender_turn t input written) as [t' [sm|]]; [by intros ?%list_elem_of_singleton|by intros ?%elem_of_nil].
  - by apply Hsame.
  - unfold peer_receive. destruct (receiver_turn _ _ _) as [[r read] forwarded]. by apply Hsame.
  - unfold peer_receive. destruct (receiver_turn _ _ _) as [[r read] [[tx f]|]]; [by intros ?%list_elem_of_singleton|by intros ?%elem_of_nil].
  - unfold peer_rtcp. destruct (rtcp_reader p), is_ok; by apply Hsame.
  - intros (w & Hw & Hf). unfold peer_tick. destruct (watchdogs p !! j) as [u|] eqn:Eu; [|by exists w].
    pose proof (tick_fires u now (inbound_of p)) as Ht. destruct (watchdog_tick u now (inbound_of p)) as [u' r].
    destruct (decide (j = i)) as [->|Hne]; cbn.
    + exists u'. cbn. rewrite list_lookup_insert_eq by (by eapply lookup_lt_Some). split; [done|].
      rewrite Hw in Eu. injection Eu as <-.
      destruct Ht as [Ht _]. by apply Ht.
    + exists w. cbn. by rewrite list_lookup_insert_ne.
  - unfold peer_tick. destruct (watchdogs p !! j) as [u|] eqn:Eu; [|by intros ?%elem_of_nil].
    pose proof (tick_fires u now (inbound_of p)) as Ht. destruct (watchdog_tick u now (inbound_of p)) as [u' []]; [|by intros ?%elem_of_nil].
    intros [= <-]%list_elem_of_singleton. destruct Ht as [_ [H1 H2]]; [done|]. split.
    + intros (w & Hw & Hf). rewrite Hw in Eu. injection Eu as <-. by rewrite Hf in H1.
    + exists u'. cbn. by rewrite list_lookup_insert_eq by (by eapply lookup_lt_Some).
Qed.

Definition reports_of (i : nat) (out : list Let) : list Let :=
  filter (λ o, match o with NoInboundMedia j => j =? i | _ => false end = true) out.

Lemma reports_of_app i out more : reports_of i (out ++ more) = reports_of i out ++ reports_of i more.
Proof. apply filter_app. Qed.

Lemma no_reports i out : NoInboundMedia i ∉ out -> reports_of i out = [].
Proof.
  intros Hn. induction out as [|o out IH]; [done|]. unfold reports_of. rewrite filter_cons_False.
  - apply IH. set_solver.
  - destruct o as [| |j]; [done|done|]. intros ->%Nat.eqb_eq. set_solver.
Qed.

Lemma silent_after_firing (p : Peer) ops i : peer_ok p -> has_fired p i -> reports_of i (peer_run p ops).2 = [].
Proof.
  revert p. induction ops as [|op ops IH]; intros p Hp Hf; [done|]. cbn [peer_run].
  destruct (fired_stays p op i Hp) as [Hs Hn]. destruct (peer_step_ok p op Hp) as [Ho _]. specialize (Hs Hf).
  destruct (peer_step p op) as [p1 out]. cbn [fst snd] in *. specialize (IH p1 Ho Hs). destruct (peer_run p1 ops) as [p2 more].
  cbn [fst snd] in *. rewrite reports_of_app, IH, no_reports; [done|]. intros Hin. by destruct (Hn Hin).
Qed.

(** The watchdog of a start reports at most once, over the whole life of the peer,
    however often it is started, paused and stopped. *)
Theorem reported_once_per_start (ops : list PeerOp) i : length (reports_of i (peer_run peer_new ops).2) <= 1.
Proof.
  generalize peer_new_ok. generalize (@peer_new Output) as p. induction ops as [|op ops IH]; intros p Hp; [cbn; lia|]. cbn [peer_run].
  destruct (fired_stays p op i Hp) as [Hs Hn]. destruct (peer_step_ok p op Hp) as [Ho _].
  assert (length (peer_step p op).2 <= 1) as Hlen.
  { destruct op; cbn; try lia; unfold peer_send, peer_receive, peer_tick; by repeat (case_match; cbn; try lia). }
  destruct (peer_step p op) as [p1 out]. cbn [fst snd] in *. specialize (IH p1 Ho).
  pose proof (silent_after_firing p1 ops i Ho) as Hsil. destruct (peer_run p1 ops) as [p2 more]. cbn [fst snd] in *.
  rewrite reports_of_app. destruct (reports_of i out) as [|o l] eqn:E; [done|].
  assert (NoInboundMedia i ∈ out) as Hin.
  { assert (o ∈ reports_of i out) as Ho' by (rewrite E; by left). apply list_elem_of_filter in Ho' as [Hb Ho'].
    destruct o as [| |j]; [done|done|]. by apply Nat.eqb_eq in Hb as ->. }
  rewrite Hsil by (by apply Hn). rewrite app_nil_r, <- E. etrans; [apply length_filter|done].
Qed.

Fixpoint watch (w : Watchdog) (ticks : list (Instant * (N * N))) : list bool :=
  match ticks with
  | [] => []
  | (now, inbound) :: ticks => let (w, reports) := watchdog_tick w now inbound in reports :: watch w ticks
  end.

(** The tick [j], at [s], found the counters changed since the tick before. *)
Definition changed_at (inbound : N * N) (ticks : list (Instant * (N * N))) (j : nat) (s : Instant) : Prop :=
  exists before after, (inbound :: map snd ticks) !! j = Some before /\ ticks !! j = Some (s, after) /\ before <> after.

(** The path is alive: at every tick the counters changed within the last five seconds,
    and within fifteen seconds of the start there was audio. *)
Definition alive (start since : Instant) (inbound : N * N) (ticks : list (Instant * (N * N))) : Prop :=
  forall k t c, ticks !! k = Some (t, c) ->
    (c.1 <> 0%N \/ (t < start + FIRST_RTP_TIMEOUT)%N) /\
    ((t < since + NO_INBOUND_MEDIA_TIMEOUT)%N \/
     exists j s, j <= k /\ changed_at inbound ticks j s /\ (t < s + NO_INBOUND_MEDIA_TIMEOUT)%N).

Fixpoint in_order (now : Instant) (ticks : list (Instant * (N * N))) : Prop :=
  match ticks with [] => True | (t, _) :: ticks => (now <= t)%N /\ in_order t ticks end.

Lemma alive_cons start since inbound t c ticks : (since <= t)%N -> in_order t ticks ->
  let since' := if bool_decide (c = inbound) then since else t in
  (c.1 <> 0%N \/ (t < start + FIRST_RTP_TIMEOUT)%N) -> (t < since' + NO_INBOUND_MEDIA_TIMEOUT)%N ->
  alive start since inbound ((t, c) :: ticks) <-> alive start since' c ticks.
Proof.
  cbv zeta. intros Hle Hord Hrtp Hstall. split.
  - intros Ha k u d Hk. destruct (Ha (S k) u d Hk) as [Hr [Hs|(j & s & Hj & (b & a & Hb & Ha' & Hne) & Hs)]]; split; try done.
    + left. destruct (bool_decide (c = inbound)); lia.
    + destruct j as [|j].
      * left. cbn in Hb, Ha'. injection Hb as <-. injection Ha' as <- <-.
        destruct (bool_decide (c = inbound)) eqn:E; [|done]. apply bool_decide_eq_true in E. congruence.
      * right. exists j, s. split; [lia|]. split; [|done]. by exists b, a.
  - intros Ha k u d Hk.
    assert (bool_decide (c = inbound) = false -> changed_at inbound ((t, c) :: ticks) 0 t) as Hfirst.
    { intros E%bool_decide_eq_false. exists inbound, c. split_and!; [done|done|]. congruence. }
    destruct k as [|k].
    + cbn in Hk. injection Hk as <- <-. split; [done|]. destruct (bool_decide (c = inbound)) eqn:E; [by left|].
      right. exists 0, t. split; [lia|]. by split; [apply Hfirst|].
    + destruct (Ha k u d Hk) as [Hr [Hs|(j & s & Hj & (b & a & Hb & Ha' & Hne) & Hs)]]; split; try done.
      * destruct (bool_decide (c = inbound)) eqn:E; [by left|]. right. exists 0, t. split; [lia|]. by split; [apply Hfirst|].
      * right. exists (S j), s. split; [lia|]. split; [|done]. by exists b, a.
Qed.

Lemma watch_alive (w : Watchdog) ticks : wd_running w = true -> fired w = false ->
  in_order (last_inbound_change w) ticks ->
  true ∈ watch w ticks <-> ~ alive (started_at w) (last_inbound_change w) (last_inbound w) ticks.
Proof.
  revert w. induction ticks as [|[t c] ticks IH]; intros w Hr Hf Hord.
  { cbn. split; [by intros ?%elem_of_nil|]. intros Hn. destruct Hn. by intros k t c Hk. }
  destruct Hord as [Hle Hord]. cbn [watch]. unfold watchdog_tick. rewrite Hr. cbn [negb].
  set (w1 := if bool_decide (c = last_inbound w) then w else _).
  set (since' := if bool_decide (c = last_inbound w) then last_inbound_change w else t).
  assert (wd_running w1 = true /\ fired w1 = false /\ started_at w1 = started_at w /\
    last_inbound_change w1 = since' /\ last_inbound w1 = c) as (W1 & W2 & W3 & W4 & W5).
  { subst w1 since'. destruct (bool_decide (c = last_inbound w)) eqn:E; [|done]. apply bool_decide_eq_true in E. done. }
  rewrite W2. cbn [negb andb]. unfold stalled, rtp_never_arrived, duration_since. rewrite W3, W4.
  destruct (N.leb_spec NO_INBOUND_MEDIA_TIMEOUT (t - since')) as [Hst|Hst]; cbn [orb].
  { split; [intros _|by left]. intros Ha. destruct (Ha 0 t c eq_refl) as [_ [Hs|(j & s & Hj & (b & a & Hb & Ha' & Hne) & Hs)]].
    - subst since'. destruct (bool_decide _); unfold NO_INBOUND_MEDIA_TIMEOUT in *; lia.
    - assert (j = 0) as -> by lia. cbn in Hb, Ha'. injection Hb as <-. injection Ha' as <- <-. subst since'.
      rewrite bool_decide_eq_false_2 in Hst by congruence. unfold NO_INBOUND_MEDIA_TIMEOUT in *; lia. }
  destruct ((c.1 =? 0)%N && (FIRST_RTP_TIMEOUT <=? t - started_at w)%N) eqn:Hrtp.
  { apply andb_true_iff in Hrtp as [H1%N.eqb_eq H2%N.leb_le]. split; [intros _|by left]. intros Ha.
    destruct (Ha 0 t c eq_refl) as [[Hc|Hc] _]; [done|]. unfold FIRST_RTP_TIMEOUT in *. lia. }
  assert (c.1 <> 0%N \/ (t < started_at w + FIRST_RTP_TIMEOUT)%N) as Hok.
  { apply andb_false_iff in Hrtp as [H1%N.eqb_neq|H2%N.leb_gt]; [by left|right]. unfold FIRST_RTP_TIMEOUT in *. lia. }
  rewrite elem_of_cons, (alive_cons _ _ _ _ _ _ Hle Hord Hok).
  - fold since'. rewrite <- W3, <- W4, <- W5 at 1. rewrite (IH w1 W1 W2); [|by rewrite W4; subst since'; destruct (bool_decide _); [destruct ticks as [|[u d]]; [done|destruct Hord; split; [lia|done]]|]].
    rewrite W3, W4, W5. split; [by intros [|]|by right].
  - fold since'. lia.
Qed.

(** C37: A dead path is noticed, and nothing else: the watchdog reports exactly when at one
    of its ticks the counters of RTP and RTCP had not changed for five seconds, or no RTP
    had ever arrived fifteen seconds after the start - a path that stays alive is never
    reported, however late the ticks come. *)
Theorem dead_path_is_noticed start inbound (ticks : list (Instant * (N * N))) : in_order start ticks ->
  true ∈ watch (watchdog_new start inbound) ticks <-> ~ alive start start inbound ticks.
Proof. intros Hord. by apply (watch_alive (watchdog_new start inbound)). Qed.
End media.

(** ** ICE servers *)

(** Of the ICE servers a peer is given exactly the supported addresses are used, in
    their order, under their server; a server without any is left out; and the relay is
    forced exactly when it is asked for. *)
Theorem supported_servers_are_used (config : IceConfig) force_relay :
  let rtc := rtc_configuration config force_relay in
  relay_only rtc = force_relay /\
  concat (map rtc_urls (rtc_ice_servers rtc)) =
    filter (λ url, is_supported_ice_url url = true) (concat (map urls (ice_servers config))) /\
  Forall (λ s, rtc_urls s <> []) (rtc_ice_servers rtc).
Proof.
  cbv zeta. destruct config as [servers].
  assert (rtc_ice_servers (rtc_configuration (mkIceConfig servers) force_relay) =
    filter (λ s, rtc_urls s <> []) (map server_into_rtc servers)) as -> by (by destruct force_relay).
  split; [by destruct force_relay|]. split.
  - cbn [ice_servers]. induction servers as [|s servers IH]; [done|]. cbn [map concat]. rewrite filter_app, <- IH.
    destruct (decide (rtc_urls (server_into_rtc s) <> [])) as [Hne|He].
    + by rewrite filter_cons_True by done.
    + rewrite filter_cons_False by done.
      destruct (filter (λ url, is_supported_ice_url url = true) (urls s)) as [|u l] eqn:E; [done|].
      destruct He. unfold server_into_rtc. cbn. by rewrite E.
  - apply Forall_forall. intros s Hs. by apply list_elem_of_filter in Hs as [Hne _].
Qed.

Example turn_over_udp_only :
  map is_supported_ice_url ["stun:s:3478"; "turn:t:3478?transport=udp"; " TURNS:t:5349"; "turn:t?Transport=TCP"; "turn:t"]%string =
    [true; true; false; false; true].
Proof. by vm_compute. Qed.

(** ** Concrete inputs *)

(** A peer is not closed twice: when its connection could not be closed, dropping the
    peer does not try again. *)
Lemma closed_peer_is_not_closed_again {Output : Type} (p : Peer Output) runtime closes : peer_ok p -> closed p = true ->
  connection_open (peer_drop p runtime closes) = connection_open p.
Proof.
  intros Hp Hc. destruct (peer_drop_ok p runtime closes Hp) as (_ & _ & _ & _ & _ & _ & ->). rewrite Hc. cbn.
  by rewrite andb_true_r.
Qed.

Example failed_close_stays_open :
  connection_open (peer_run (Frame:=nat) (Output:=nat) peer_new [OpClose true false; OpDrop true true]).1 = true.
Proof. done. Qed.

Example lost_frames_are_reported_witness :
  let inputs : list (InputRecv nat * bool) :=
    [(InputFrame 1, true); (InputLagged 4, true); (InputFrame 6, false); (InputFrame 7, true); (InputClosed, true)] in
  (send_all sender_new inputs).2 = [mkSample 1 0; mkSample 7 5] /\
  told 0 (send_all sender_new inputs).2 = [(1, 1%N); (7, 7%N)].
Proof.
  cbv zeta. split; [by vm_compute|].
  apply (lost_frames_are_reported [(InputFrame 1, true); (InputLagged 4, true); (InputFrame 6, false); (InputFrame 7, true); (InputClosed, true)]).
  by vm_compute.
Defined.


(** RTCP flows and no RTP ever comes. *)
Definition one_way : list (Instant * (N * N)) :=
  map (λ k, (N.of_nat k * 1000000000, (0, N.of_nat k))%N) (seq 0 17).

Example dead_path_is_noticed_witness :
  true ∈ watch (watchdog_new 0 (0, 0)%N) one_way <-> ~ alive 0 0 (0, 0)%N one_way.
Proof. apply (dead_path_is_noticed 0 (0, 0)%N one_way). cbn. lia. Defined.

Example one_way_is_reported_once :
  watch (watchdog_new 0 (0, 0)%N) one_way = replicate 15 false ++ [true; false].
Proof. by vm_compute. Qed.
