(* ===== verification/Dataset.v ===== *)
(** Dataset: how the server comes by the coverage it serves, [vacs-server/src/dataset.rs]:
    the download of a release of the dataset, its validation, the replacement of the
    directory it is read from, and the synchronisation at the start ([main.rs]) and on
    request ([routes/admin.rs]).

    GitHub, the archive and the loading of a dataset are arguments; the file system is
    the directory in use, its backup and the extracted download, and every call to it
    answers whether it worked. Each operation answers with the states of the disk it went
    through: a crash leaves one of them. *)
From stdpp Require Import prelude gmap strings list.
From S2P Require Import Prelude Protocol Calls Controllers Releases.

(** What a call to the file system answers; a removal that failed may have removed a
    part. *)
Inductive Answer := Worked | Failed | FailedHalfway.

Inductive Call := RemoveStale | MoveAway | MoveIn | RollBack | CreateParent | CleanUp | WriteVersion.

Section dataset.
Context {Files Network : Type}.

(** A directory with its files and the version file [.dataset-sha], or what a removal left
    of one *)
Inductive Dir :=
| Whole (files : Files) (version_file : option string)
| Torn.

(** [coverage_dir], its backup with the extension [old], and the extracted download *)
Record Disk := mkDisk { coverage_dir : option Dir; backup : option Dir; extracted : option Dir }.

Definition exists_ (d : option Dir) : bool := bool_decide (is_Some d).

Section calls.
(** The answers of one run *)
Variable answers : Call -> Answer.

Definition worked (c : Call) : bool := match answers c with Worked => true | _ => false end.

(** [remove_dir_all] of the backup *)
Definition remove_backup (c : Call) (d : Disk) : Disk :=
  match answers c with
  | Worked => mkDisk (coverage_dir d) None (extracted d)
  | Failed => d
  | FailedHalfway => mkDisk (coverage_dir d) (Some Torn) (extracted d)
  end.

Definition move_away (d : Disk) : Disk := mkDisk None (coverage_dir d) (extracted d).
Definition move_in (d : Disk) : Disk := mkDisk (extracted d) (backup d) None.
Definition roll_back (d : Disk) : Disk := mkDisk (backup d) None (extracted d).

(** [atomic_replace_dir]: the states after the first, and whether it succeeded *)
Definition clean_up (d : Disk) : list Disk :=
  if exists_ (backup d) then [remove_backup CleanUp d] else [].

Definition swap (d : Disk) : list Disk * bool :=
  if exists_ (coverage_dir d) then
    if negb (worked MoveAway) then ([], false)
    else
      let away := move_away d in
      if negb (worked MoveIn) then
        if worked RollBack then ([away; roll_back away], false) else ([away], false)
      else let in_place := move_in away in (away :: in_place :: clean_up in_place, true)
  else if negb (worked CreateParent) then ([], false)
  else if negb (worked MoveIn) then ([], false)
  else let in_place := move_in d in (in_place :: clean_up in_place, true).

Definition atomic_replace_dir (d : Disk) : list Disk * bool :=
  if exists_ (backup d) then
    let cleaned := remove_backup RemoveStale d in
    if negb (worked RemoveStale) then ([cleaned], false)
    else let (states, ok) := swap cleaned in (cleaned :: states, ok)
  else swap d.

(** [save_sha]; the directory exists when it is called. A write that failed may have
    emptied the file. *)
Definition save_sha (sha : string) (d : Disk) : list Disk * bool :=
  match coverage_dir d with
  | Some (Whole files _) =>
    let write s := mkDisk (Some (Whole files (Some s))) (backup d) (extracted d) in
    match answers WriteVersion with
    | Worked => ([write sha], true)
    | Failed => ([], false)
    | FailedHalfway => ([write ""%string], false)
    end
  | _ => ([], false)
  end.

(** The disk after the states of an operation *)
Definition disk_after (d : Disk) (states : list Disk) : Disk := default d (last states).

(** [Network::load_from_dir] of a directory's files; [None] for errors *)
Variable load : Files -> option Network.

(** [fetch_and_install]; [download]: the files of the release, if it could be downloaded,
    extracted and has a [dataset] directory. *)
Definition fetch_and_install (download : option Files) (commit_sha : string) (d : Disk) :
    list Disk * option Network :=
  match download with
  | None => ([], None)
  | Some files =>
    match load files with
    | None => ([], None)
    | Some network =>
      let d := mkDisk (coverage_dir d) (backup d) (Some (Whole files None)) in
      let (states, ok) := atomic_replace_dir d in
      if negb ok then (d :: states, None)
      else
        let (more, saved) := save_sha commit_sha (disk_after d states) in
        (d :: states ++ more, if saved then Some network else None)
    end
  end.

(** [local_sha] *)
Definition local_sha (d : Disk) : option string :=
  match coverage_dir d with
  | Some (Whole _ (Some s)) => if bool_decide (trim s = ""%string) then None else Some (trim s)
  | _ => None
  end.

(** [sync_on_startup]; [deployed]: the commit of the deployed tag, if it was resolved *)
Definition sync_on_startup (deployed : option string) (download : option Files) (d : Disk) :
    list Disk * option Network :=
  match deployed with
  | None => ([], None)
  | Some deployed_sha =>
    if bool_decide (local_sha d = Some deployed_sha) then ([], None)
    else fetch_and_install download deployed_sha d
  end.

(** What is loaded from the directory in use *)
Definition load_from_dir (d : Disk) : option Network :=
  match coverage_dir d with
  | Some (Whole files _) => load files
  | _ => None
  end.

(** The start of the server, [main.rs]: the network it serves; [None]: it does not
    start. *)
Definition startup (configured : bool) (deployed : option string) (download : option Files) (d : Disk) :
    list Disk * option Network :=
  if configured then
    let (states, installed) := sync_on_startup deployed download d in
    match installed with
    | Some network => (states, Some network)
    | None => (states, load_from_dir (disk_after d states))
    end
  else ([], load_from_dir d).

(** [reload_dataset]: on success the network is replaced. *)
Definition reload_dataset (download : option Files) (git_ref : string) (sha : option string)
    (served : Network) (d : Disk) : list Disk * Network * bool :=
  match fetch_and_install download (default git_ref sha) d with
  | (states, Some network) => (states, network, true)
  | (states, None) => (states, served, false)
  end.
End calls.
End dataset.
Arguments Dir : clear implicits.
Arguments Disk : clear implicits.
