(* ===== verification/DatasetProperties.v ===== *)
(** DatasetProperties: the theorems about the dataset of the server: what is served is what
    is on disk, no crash and no failing call loses the dataset, and a dataset is installed
    once. *)
From stdpp Require Import prelude gmap strings list.
From S2P Require Import Prelude Protocol Calls Controllers Releases Dataset.

Section dataset.
Context {Files Network : Type}.
Variable load : Files -> option Network.
Abbreviation Disk := (Disk Files).
Abbreviation Dir := (Dir Files).

(** A directory that is read is whole. *)
Definition whole_or_none (d : option Dir) : Prop := d = None \/ exists files v, d = Some (Whole files v).

Lemma last_cons_default {A : Type} (x y : A) l : default x (last (y :: l)) = default y (last l).
Proof. destruct l as [|z l]; [done|]. cbn [last]. revert z. induction l as [|u l IH]; intros z; [done|]. apply IH. Qed.

(** Where the dataset is while a directory is replaced *)
Definition kept (old : option Dir) (new : Files) (d : Disk) : Prop :=
  coverage_dir d = old \/ coverage_dir d = Some (Whole new None) \/ (coverage_dir d = None /\ backup d = old).

Lemma clean_up_spec answers (d : Disk) :
  Forall (λ s, coverage_dir s = coverage_dir d) (clean_up answers d) /\
  coverage_dir (disk_after d (clean_up answers d)) = coverage_dir d.
Proof.
  unfold clean_up. destruct (exists_ (backup d)); [|done]. unfold disk_after. cbn.
  unfold remove_backup. destruct (answers CleanUp); (split; [by repeat constructor|done]).
Qed.

Lemma swap_spec answers (d : Disk) new : extracted d = Some (Whole new None) -> backup d = None ->
  let (states, ok) := swap answers d in
  Forall (kept (coverage_dir d) new) states /\
  if ok then coverage_dir (disk_after d states) = Some (Whole new None)
  else coverage_dir (disk_after d states) = coverage_dir d \/
       (answers RollBack <> Worked /\ coverage_dir (disk_after d states) = None /\
        backup (disk_after d states) = coverage_dir d).
Proof.
  intros Hx Hb. unfold swap. destruct (exists_ (coverage_dir d)) eqn:He.
  - destruct (worked answers MoveAway); cbn [negb]; [|split; [done|by left]].
    set (away := move_away d). assert (kept (coverage_dir d) new away) as Haway by (right; right; done).
    destruct (worked answers MoveIn); cbn [negb].
    + set (in_place := move_in away).
      assert (coverage_dir in_place = Some (Whole new None)) as Hin by done.
      destruct (clean_up_spec answers in_place) as [Hc1 Hc2]. split.
      * constructor; [done|]. constructor; [right; left; done|]. eapply Forall_impl; [done|]. intros s Hs. right; left. congruence.
      * unfold disk_after in *. rewrite !last_cons_default. congruence.
    + destruct (worked answers RollBack) eqn:Hr.
      * split; [|by left]. constructor; [done|]. constructor; [by left|done].
      * split; [by constructor|]. right. split_and!; [|done|done]. unfold worked in Hr. by destruct (answers RollBack).
  - destruct (worked answers CreateParent); cbn [negb]; [|split; [done|by left]].
    destruct (worked answers MoveIn); cbn [negb]; [|split; [done|by left]].
    set (in_place := move_in d). assert (coverage_dir in_place = Some (Whole new None)) as Hin by done.
    destruct (clean_up_spec answers in_place) as [Hc1 Hc2]. split.
    + constructor; [right; left; done|]. eapply Forall_impl; [done|]. intros s Hs. right; left. congruence.
    + unfold disk_after in *. rewrite last_cons_default. congruence.
Qed.

Lemma replace_spec answers (d : Disk) new : extracted d = Some (Whole new None) ->
  let (states, ok) := atomic_replace_dir answers d in
  Forall (kept (coverage_dir d) new) states /\
  if ok then coverage_dir (disk_after d states) = Some (Whole new None)
  else coverage_dir (disk_after d states) = coverage_dir d \/
       (answers RollBack <> Worked /\ coverage_dir (disk_after d states) = None /\
        backup (disk_after d states) = coverage_dir d).
Proof.
  intros Hx. unfold atomic_replace_dir. destruct (exists_ (backup d)) eqn:Hb.
  - set (cleaned := remove_backup answers RemoveStale d).
    assert (coverage_dir cleaned = coverage_dir d /\ extracted cleaned = extracted d) as [C1 C2]
      by (subst cleaned; unfold remove_backup; by destruct (answers RemoveStale)).
    destruct (worked answers RemoveStale) eqn:Hw; cbn [negb].
    + assert (backup cleaned = None) as C3.
      { subst cleaned. unfold remove_backup. unfold worked in Hw. by destruct (answers RemoveStale). }
      pose proof (swap_spec answers cleaned new) as Hs. destruct (swap answers cleaned) as [states ok].
      destruct Hs as [Hs1 Hs2]; [congruence|done|]. rewrite C1 in Hs1, Hs2. split.
      * constructor; [by left|done].
      * unfold disk_after in *. rewrite !last_cons_default. done.
    + split; [constructor; [by left|done]|]. by left.
  - apply swap_spec; [done|]. unfold exists_ in Hb. apply bool_decide_eq_false in Hb. by destruct (backup d); [destruct Hb|].
Qed.

(** The version file is written last. *)
Lemma save_sha_spec answers sha (d : Disk) files v : coverage_dir d = Some (Whole files v) ->
  let (states, saved) := save_sha answers sha d in
  Forall (λ s, exists v', coverage_dir s = Some (Whole files v')) states /\
  (exists v', coverage_dir (disk_after d states) = Some (Whole files v') /\ (saved = true -> v' = Some sha)).
Proof.
  intros Hd. unfold save_sha. rewrite Hd. unfold disk_after.
  destruct (answers WriteVersion); (split; [repeat constructor; by eexists|]); eexists; by split.
Qed.

(** Where the dataset is while one is installed: the old one or a valid new one is in
    use, or nothing is and the old one is the backup. *)
Definition safe (download : option Files) (d s : Disk) : Prop :=
  coverage_dir s = coverage_dir d \/
  (exists files v, download = Some files /\ is_Some (load files) /\ coverage_dir s = Some (Whole files v)) \/
  (coverage_dir s = None /\ backup s = coverage_dir d).

Lemma install_spec answers download sha (d : Disk) :
  let (states, network) := fetch_and_install answers load download sha d in
  Forall (safe download d) states /\
  match network with
  | Some n => exists files, download = Some files /\ load files = Some n /\
      coverage_dir (disk_after d states) = Some (Whole files (Some sha))
  | None => True
  end.
Proof.
  unfold fetch_and_install. destruct download as [files|]; [|done]. destruct (load files) as [n|] eqn:Hn; [|done].
  set (d1 := mkDisk _ _ _). pose proof (replace_spec answers d1 files eq_refl) as Hr.
  destruct (atomic_replace_dir answers d1) as [states ok]. destruct Hr as [Hs Ha].
  assert (Forall (safe (Some files) d) states) as Hsafe.
  { eapply Forall_impl; [done|]. intros s [Hk|[Hk|Hk]]; [by left|right; left|by right; right].
    exists files, None. by rewrite Hn. }
  assert (safe (Some files) d d1) as Hd1 by by left.
  destruct ok; cbn [negb]; [|split; [by constructor|done]].
  pose proof (save_sha_spec answers sha (disk_after d1 states) files None Ha) as Hv.
  destruct (save_sha answers sha (disk_after d1 states)) as [more saved]. destruct Hv as [Hm (v & Hv & Hsaved)].
  split.
  - constructor; [done|]. apply Forall_app. split; [done|]. eapply Forall_impl; [done|]. intros s (v' & Hv').
    right; left. exists files, v'. by rewrite Hn.
  - destruct saved; [|done]. exists files. split_and!; [done|done|]. rewrite (Hsaved eq_refl) in Hv. rewrite <- Hv.
    f_equal. unfold disk_after. rewrite last_cons_default, last_app. by destruct (last more).
Qed.

(** C38: No dataset is lost and none is half there: whatever call to the file system fails
    - also halfway - and wherever the server crashes while it installs a dataset, the
    directory in use is the old one or the new one, whole and valid, or it is missing and
    the old one is the backup beside it. *)
Theorem no_dataset_is_lost answers download sha (d : Disk) :
  Forall (safe download d) (fetch_and_install answers load download sha d).1.
Proof.
  pose proof (install_spec answers download sha d) as H.
  destruct (fetch_and_install answers load download sha d) as [states network]. apply H.
Qed.

(** What a starting server serves is what is on its disk, whether it installed a new
    dataset, kept the old one or failed to install: the next start without a connection
    serves the same. *)
Theorem started_network_is_on_disk answers configured deployed download (d : Disk) n :
  (startup answers load configured deployed download d).2 = Some n ->
  load_from_dir load (disk_after d (startup answers load configured deployed download d).1) = Some n.
Proof.
  unfold startup. destruct configured; [|by cbn]. unfold sync_on_startup.
  destruct deployed as [sha|]; [|by cbn]. destruct (bool_decide (local_sha d = Some sha)); [by cbn|].
  pose proof (install_spec answers download sha d) as H.
  destruct (fetch_and_install answers load download sha d) as [states [n'|]]; [|done].
  destruct H as (_ & files & _ & Hl & Hd). intros [= <-]. cbn [fst]. unfold load_from_dir. by rewrite Hd.
Qed.

(** A dataset is installed once: after a release was installed under the commit of
    the deployed tag, a start that resolves the same commit downloads nothing, leaves
    the disk alone and serves it. *)
Theorem installed_once answers answers' download download' sha (d : Disk) n :
  trim sha = sha -> sha <> ""%string ->
  (fetch_and_install answers load download sha d).2 = Some n ->
  startup answers' load true (Some sha) download' (disk_after d (fetch_and_install answers load download sha d).1) =
    ([], Some n).
Proof.
  intros Ht Hne. pose proof (install_spec answers download sha d) as H.
  destruct (fetch_and_install answers load download sha d) as [states [n'|]]; [|done].
  destruct H as (_ & files & _ & Hl & Hd). intros [= <-]. unfold startup, sync_on_startup. cbn [fst].
  assert (local_sha (disk_after d states) = Some sha) as ->.
  { unfold local_sha. rewrite Hd, Ht. by rewrite bool_decide_eq_false_2. }
  rewrite bool_decide_eq_true_2 by done. change (disk_after (disk_after d states) []) with (disk_after d states).
  unfold load_from_dir. by rewrite Hd, Hl.
Qed.

(** A reload that fails can have installed the dataset: when the version file cannot be
    written the server goes on with the old network while the new dataset is in use on
    its disk. *)
Theorem failed_reload_can_install answers files git_ref sha served (d : Disk) n :
  load files = Some n -> answers WriteVersion <> Worked ->
  (forall c, c <> WriteVersion -> answers c = Worked) ->
  match reload_dataset answers load (Some files) git_ref sha served d with
  | (states, network, ok) => ok = false /\ network = served /\ load_from_dir load (disk_after d states) = Some n
  end.
Proof.
  intros Hl Hw Hall. unfold reload_dataset, fetch_and_install. rewrite Hl. set (d1 := mkDisk _ _ _).
  assert (forall c, c <> WriteVersion -> worked answers c = true) as Hok by (intros c Hc; unfold worked; by rewrite Hall).
  assert ((atomic_replace_dir answers d1).2 = true) as Hreplace.
  { unfold atomic_replace_dir, swap. rewrite ?Hok by done. cbn [negb].
    destruct (exists_ (backup d1)); [destruct (exists_ _)|destruct (exists_ _)]; done. }
  pose proof (replace_spec answers d1 files eq_refl) as Hr.
  destruct (atomic_replace_dir answers d1) as [states ok]. cbn in Hreplace. subst ok. destruct Hr as [_ Ha]. cbn [negb].
  pose proof (save_sha_spec answers (default git_ref sha) (disk_after d1 states) files None Ha) as Hv.
  assert ((save_sha answers (default git_ref sha) (disk_after d1 states)).2 = false) as Hno.
  { unfold save_sha. rewrite Ha. by destruct (answers WriteVersion). }
  destruct (save_sha answers (default git_ref sha) (disk_after d1 states)) as [more saved]. cbn in Hno. subst saved.
  destruct Hv as [_ (v & Hv & _)]. split_and!; [done|done|]. unfold load_from_dir.
  assert (disk_after d (d1 :: states ++ more) = disk_after (disk_after d1 states) more) as ->.
  { unfold disk_after. rewrite last_cons_default, last_app. by destruct (last more). }
  by rewrite Hv.
Qed.

(** A crash between the two renames leaves the server without a dataset: nothing is in
    use, the old dataset is the backup, and a start that cannot download one does not
    serve - it never looks at the backup. *)
Theorem crash_between_renames answers answers' files sha (d : Disk) old v n :
  coverage_dir d = Some (Whole old v) -> backup d = None -> load files = Some n -> answers MoveAway = Worked ->
  exists crashed, crashed ∈ (fetch_and_install answers load (Some files) sha d).1 /\
    backup crashed = Some (Whole old v) /\
    forall configured download, (startup answers' load configured None download crashed).2 = None.
Proof.
  intros Hd Hb Hl Hw. set (d1 := mkDisk (coverage_dir d) (backup d) (Some (Whole files None))).
  exists (move_away d1). split_and!.
  - assert (move_away d1 ∈ (atomic_replace_dir answers d1).1) as Hin.
    { unfold atomic_replace_dir, swap. cbn. rewrite Hb, Hd. cbn. unfold worked at 1. rewrite Hw. cbn.
      destruct (worked answers MoveIn); cbn; [by left|]. destruct (worked answers RollBack); cbn; by left. }
    unfold fetch_and_install. rewrite Hl. fold d1. destruct (atomic_replace_dir answers d1) as [states ok].
    destruct ok; cbn [negb]; [|by right].
    destruct (save_sha answers sha (disk_after d1 states)) as [more saved]. cbn. right. apply elem_of_app. by left.
  - cbn. by rewrite Hd.
  - intros configured download. unfold startup, sync_on_startup. by destruct configured.
Qed.
End dataset.

(** ** Concrete inputs *)

(** Whole numbers for files; an even one is a dataset. *)
Definition even_load (n : nat) : option nat := if Nat.even n then Some n else None.

Definition deployed_disk : Disk nat := mkDisk (Some (Whole 2 (Some "aa"%string))) None None.

Example started_network_is_on_disk_witness :
  (startup (λ _, Worked) even_load true (Some "bb"%string) (Some 4) deployed_disk).2 = Some 4 /\
  load_from_dir even_load (disk_after deployed_disk (startup (λ _, Worked) even_load true (Some "bb"%string) (Some 4) deployed_disk).1) = Some 4.
Proof.
  split; [by vm_compute|]. apply (started_network_is_on_disk even_load (λ _, Worked) true (Some "bb"%string) (Some 4) deployed_disk 4).
  by vm_compute.
Defined.

Example installed_once_witness :
  startup (λ _, Failed) even_load true (Some "bb"%string) None
    (disk_after deployed_disk (fetch_and_install (λ _, Worked) even_load (Some 4) "bb" deployed_disk).1) = ([], Some 4).
Proof. by apply (installed_once even_load (λ _, Worked) (λ _, Failed) (Some 4) None "bb" deployed_disk 4). Defined.

Example failed_reload_can_install_witness :
  match reload_dataset (λ c, match c with WriteVersion => Failed | _ => Worked end) even_load (Some 4) "main" None 2 deployed_disk with
  | (states, network, ok) => ok = false /\ network = 2 /\ load_from_dir even_load (disk_after deployed_disk states) = Some 4
  end.
Proof.
  apply (failed_reload_can_install even_load (λ c, match c with WriteVersion => Failed | _ => Worked end) 4 "main" None 2 deployed_disk 4);
    [done|done|by intros []].
Defined.

Example crash_between_renames_witness :
  exists crashed, crashed ∈ (fetch_and_install (λ _, Worked) even_load (Some 4) "bb" deployed_disk).1 /\
    backup crashed = Some (Whole 2 (Some "aa"%string)) /\
    forall configured download, (startup (λ _, Worked) even_load configured None download crashed).2 = None.
Proof. by apply (crash_between_renames even_load (λ _, Worked) (λ _, Worked) 4 "bb" deployed_disk 2 (Some "aa"%string) 4). Defined.
