(* ===== verification/Feed.v ===== *)
(** Feed: where the server learns who controls what, [vacs-vatsim]: the slurper
    ([slurper.rs]) asked for one client at its login, and the data feed with its cache
    ([data_feed/vatsim.rs]); and the limits of requests, [vacs-server/src/ratelimit.rs].

    Requests over HTTP, the reading of CSV and JSON and the token buckets of the governor
    are arguments. *)
From stdpp Require Import prelude gmap strings list pretty.
From Stdlib Require Import Ascii NArith.
From S2P Require Import Prelude Protocol Calls Controllers Releases.

(** ** Numbers in text *)

Definition digit_of (a : ascii) : option Z :=
  let n := N_of_ascii a in
  if (48 <=? n)%N && (n <=? 57)%N then Some (Z.of_N (n - 48)) else None.

Definition in_i32 (z : Z) : bool := (- 2 ^ 31 <=? z)%Z && (z <? 2 ^ 31)%Z.

(** The digits, with the sign; every step is checked for overflow. *)
Fixpoint parse_digits (negative : bool) (acc : Z) (s : string) : option Z :=
  match s with
  | EmptyString => Some acc
  | String a s =>
    match digit_of a with
    | None => None
    | Some d =>
      let acc := (if negative then acc * 10 - d else acc * 10 + d)%Z in
      if in_i32 acc then parse_digits negative acc s else None
    end
  end.

(** [str::parse::<i32>] *)
Definition parse_i32 (s : string) : option Z :=
  match s with
  | EmptyString => None
  | String a rest =>
    if bool_decide (a = "-"%char) then
      match rest with EmptyString => None | _ => parse_digits true 0 rest end
    else if bool_decide (a = "+"%char) then
      match rest with EmptyString => None | _ => parse_digits false 0 rest end
    else parse_digits false 0 s
  end.

(** [eq_ignore_ascii_case] *)
Definition eq_ignore_ascii_case (s t : string) : bool :=
  bool_decide (to_ascii_lowercase s = to_ascii_lowercase t).

(** ** The slurper *)

Module Slurper.
Definition CALLSIGN_FIELD_INDEX : nat := 1.
Definition FACILITY_TYPE_FIELD_INDEX : nat := 2.
Definition FREQUENCY_FIELD_INDEX : nat := 3.
Definition VISIBILITY_RANGE_FIELD_INDEX : nat := 4.
Definition FACILITY_TYPE_ATC : string := "atc".
Definition FACILITY_TYPE_PILOT : string := "pilot".

(** A record: its fields *)
Definition extract_controller_info (client : ClientId) (record : list string) : option ControllerInfo :=
  let facility := default FACILITY_TYPE_PILOT (record !! FACILITY_TYPE_FIELD_INDEX) in
  if negb (eq_ignore_ascii_case facility FACILITY_TYPE_ATC) then None
  else
    let visibility_range := default 0%Z (parse_i32 (default "0"%string (record !! VISIBILITY_RANGE_FIELD_INDEX))) in
    if (visibility_range =? 0)%Z then None
    else
      match record !! CALLSIGN_FIELD_INDEX with
      | None => None
      | Some callsign =>
        if bool_decide (callsign = ""%string) then None
        else
          match record !! FREQUENCY_FIELD_INDEX with
          | None => None
          | Some frequency =>
            if bool_decide (frequency = ""%string) then None
            else
              let facility_type := facility_from callsign in
              if bool_decide (facility_type = FT_Unknown) then None
              else Some (mkControllerInfo client callsign frequency facility_type
                           (if (visibility_range <? 0)%Z then None else Some (Z.to_N visibility_range)))
          end
      end.

(** [None] for a record that could not be read; those are skipped. *)
Fixpoint parse_slurper_data (client : ClientId) (records : list (option (list string))) : option ControllerInfo :=
  match records with
  | [] => None
  | None :: records => parse_slurper_data client records
  | Some record :: records =>
    match extract_controller_info client record with
    | Some info => Some info
    | None => parse_slurper_data client records
    end
  end.

Section get.
Context {Error : Type}.

(** [response]: the body of the answer; [records]: how it reads as CSV *)
Definition get_controller_info (client : ClientId) (response : Result string Error)
    (records : string -> list (option (list string))) : Result (option ControllerInfo) Error :=
  if bool_decide (client = ClientId_from "") then Ok None
  else
    match response with
    | Err e => Err e
    | Ok body => if bool_decide (body = ""%string) then Ok None else Ok (parse_slurper_data client (records body))
    end.
End get.
End Slurper.

(** ** The data feed *)

(** A value of JSON as far as the range of a controller looks at it *)
Inductive JsonValue := JsonNull | JsonNumber (n : Z) | JsonOther.

(** Of the answer of the feed; a controller without the field has [None]. *)
Record FeedController := mkFeedController {
  fc_cid : Z;
  fc_callsign : string;
  fc_frequency : string;
  fc_visual_range : option JsonValue
}.

Module DataFeed.
Definition DEFAULT_CACHE_TTL : Duration := 15000000000.

(** [as_u64], then to 32 bits *)
Definition lenient_visual_range (v : JsonValue) : option N :=
  match v with
  | JsonNumber n => if (0 <=? n)%Z && (n <? 2 ^ 32)%Z then Some (Z.to_N n) else None
  | _ => None
  end.

Definition into_controller_info (c : FeedController) : ControllerInfo :=
  mkControllerInfo (ClientId_from (pretty (fc_cid c))) (fc_callsign c) (fc_frequency c)
    (facility_from (fc_callsign c)) (fc_visual_range c ≫= lenient_visual_range).

Record Cache := mkCache { cached : list ControllerInfo; updated_at : Instant }.

Record Feed := mkFeed { cache_ttl : Duration; cache : option Cache }.

Definition new : Feed := mkFeed DEFAULT_CACHE_TTL None.

Definition with_cache_ttl (ttl : Duration) : Feed := mkFeed ttl None.

Definition fresh (f : Feed) (now : Instant) : option (list ControllerInfo) :=
  match cache f with
  | Some c => if (duration_since now (updated_at c) <? cache_ttl f)%N then Some (cached c) else None
  | None => None
  end.

Section fetch.
Context {Error : Type}.

(** [asked]: when; [response]: what the feed answers if it is asked, and when *)
Definition fetch_controller_info (f : Feed) (asked : Instant) (response : Result (list FeedController) Error)
    (answered : Instant) : Feed * Result (list ControllerInfo) Error :=
  match fresh f asked with
  | Some controllers => (f, Ok controllers)
  | None =>
    match response with
    | Err e => (f, Err e)
    | Ok answer =>
      let controllers := map into_controller_info answer in
      (mkFeed (cache_ttl f) (Some (mkCache controllers answered)), Ok controllers)
    end
  end.
End fetch.
End DataFeed.

(** ** Limits *)

Inductive CallInviteRejection := RateLimited (wait : Duration) | TooManyTargets.

(** What a limiter answers *)
Inductive Verdict := Allowed | NotUntil (wait : Duration) | InsufficientCapacity.

(** A quota: a token each period, and so many at once *)
Record Quota := mkQuota { period : Duration; burst : N }.

(** Limiters of the governor by key *)
Class Governor (Limiter : Type) := {
  keyed : Quota -> Limiter;
  check_key_n : Limiter -> string -> N -> Instant -> Limiter * Verdict
}.

(** [burst] is a [NonZeroU32]. *)
Record Policy := mkPolicy { enabled : bool; per_seconds : N; policy_burst : N }.

Module RateLimit.
Section limits.
Context {Limiter : Type} `{Governor Limiter}.

Definition SECOND : Duration := 1000000000.

Definition policy (per_seconds burst : N) : Policy := mkPolicy true per_seconds burst.
Definition disabled (p : Policy) : Policy := mkPolicy false (per_seconds p) (policy_burst p).
Definition quota (p : Policy) : Quota := mkQuota (N.max (per_seconds p) 1 * SECOND) (policy_burst p).

(** [Quota::per_minute(n).allow_burst(n)] *)
Definition per_minute (n : N) : Quota := mkQuota (60 * SECOND / n)%N n.

(** A pair of limits: the short one and the one per minute *)
Record Limits := mkLimits { short : option Limiter; minute : option Limiter }.

Record RateLimiters := mkRateLimiters {
  call_invite : Limits;
  failed_auth : Limits;
  version_update : Limits;
  vatsim_token : Limits
}.

Record Config := mkConfig {
  all_enabled : bool;
  cfg_call_invite : Policy * N;
  cfg_failed_auth : Policy * N;
  cfg_version_update : Policy * N;
  cfg_vatsim_token : Policy * N
}.

Definition default_config : Config := {|
  all_enabled := true;
  cfg_call_invite := (policy 10 8, 40%N);
  cfg_failed_auth := (disabled (policy 60 5), 0%N);
  cfg_version_update := (policy 1 10, 60%N);
  cfg_vatsim_token := (policy 30 3, 10%N)
|}.

Definition limits_of (c : Policy * N) : Limits :=
  mkLimits (if enabled c.1 then Some (keyed (quota c.1)) else None)
    (if (0 <? c.2)%N then Some (keyed (per_minute c.2)) else None).

Definition from_config (c : Config) : RateLimiters :=
  if negb (all_enabled c) then
    let none := mkLimits None None in mkRateLimiters none none none none
  else mkRateLimiters (limits_of (cfg_call_invite c)) (limits_of (cfg_failed_auth c))
         (limits_of (cfg_version_update c)) (limits_of (cfg_vatsim_token c)).

(** [check]: [check_key] is the check of one token. *)
Definition check (l : option Limiter) (key : string) (now : Instant) : option Limiter * Result () Duration :=
  match l with
  | None => (None, Ok ())
  | Some l =>
    match check_key_n l key 1 now with
    | (l, NotUntil wait) => (Some l, Err wait)
    | (l, _) => (Some l, Ok ())
    end
  end.

Definition check_n (l : option Limiter) (key : string) (n : N) (now : Instant) :
    option Limiter * Result () CallInviteRejection :=
  match l with
  | None => (None, Ok ())
  | Some l =>
    match check_key_n l key n now with
    | (l, Allowed) => (Some l, Ok ())
    | (l, NotUntil wait) => (Some l, Err (RateLimited wait))
    | (l, InsufficientCapacity) => (Some l, Err TooManyTargets)
    end
  end.

Definition tokens (targets : nat) : N := N.max (N.min (N.of_nat targets) (2 ^ 32 - 1)) 1.

(** The short limit comes first, one token for each target. *)
Definition check_call_invite (l : Limits) (key : string) (targets : nat) (now : Instant) :
    Limits * Result () CallInviteRejection :=
  let n := tokens targets in
  match check_n (short l) key n now with
  | (s, Err e) => (mkLimits s (minute l), Err e)
  | (s, Ok _) => let (m, r) := check_n (minute l) key n now in (mkLimits s m, r)
  end.

(** Of failed logins, versions and tokens the limit per minute comes first. *)
Definition check_request (l : Limits) (key : string) (now : Instant) : Limits * Result () Duration :=
  match check (minute l) key now with
  | (m, Err e) => (mkLimits (short l) m, Err e)
  | (m, Ok _) => let (s, r) := check (short l) key now in (mkLimits s m, r)
  end.
End limits.
End RateLimit.
