(* ===== verification/FeedProperties.v ===== *)
(** FeedProperties: the theorems about where the server learns who controls what: numbers
    are read as they are written, the slurper answers the first station of a client, what
    the data feed answers is fresh, and a request passes when both of its limits let it. *)
From stdpp Require Import prelude gmap strings list pretty.
From Stdlib Require Import Ascii NArith.
From S2P Require Import Prelude Protocol Calls Controllers Releases Feed.

(** ** Numbers *)

Lemma digit_of_char n : (n < 10)%N -> digit_of (pretty_N_char n) = Some (Z.of_N n).
Proof.
  intros Hn.
  assert (forallb (λ i, bool_decide (digit_of (pretty_N_char (N.of_nat i)) = Some (Z.of_nat i))) (seq 0 10) = true) as Hall
    by (vm_compute; reflexivity).
  rewrite forallb_forall in Hall. specialize (Hall (N.to_nat n)).
  rewrite bool_decide_eq_true, N2Nat.id, N_nat_Z in Hall. apply Hall, in_seq. lia.
Qed.

Definition signed (negative : bool) (n : N) : Z := if negative then (- Z.of_N n)%Z else Z.of_N n.

Lemma parse_digits_go negative n s : in_i32 (signed negative n) = true ->
  parse_digits negative 0 (pretty_N_go n s) =
    parse_digits negative (signed negative n) s.
Proof.
  revert s. induction (N.lt_wf_0 n) as [n _ IH]. intros s Hr.
  destruct (decide (n = 0)%N) as [->|Hne]; [rewrite pretty_N_go_0; by destruct negative|].
  rewrite pretty_N_go_step by lia.
  assert (Z.of_N n = Z.of_N (n `div` 10) * 10 + Z.of_N (n `mod` 10))%Z as Hdm.
  { pose proof (N.div_mod n 10 ltac:(done)). lia. }
  rewrite IH.
  - cbn [parse_digits]. rewrite digit_of_char by (by apply N.mod_lt).
    assert ((if negative then signed negative (n `div` 10) * 10 - Z.of_N (n `mod` 10)
      else signed negative (n `div` 10) * 10 + Z.of_N (n `mod` 10)) = signed negative n)%Z as E
      by (unfold signed; destruct negative; lia).
    cbv zeta. rewrite E, Hr. done.
  - apply N.div_lt; lia.
  - unfold in_i32, signed in *. change (2 ^ 31)%Z with 2147483648%Z in *.
    clear IH. destruct negative; apply andb_true_iff in Hr as [H1%Z.leb_le H2%Z.ltb_lt]; apply andb_true_iff;
      rewrite Z.leb_le, Z.ltb_lt; revert Hdm;
      generalize (N2Z.is_nonneg (n `div` 10)), (N2Z.is_nonneg (n `mod` 10));
      generalize (Z.of_N (n `div` 10)), (Z.of_N (n `mod` 10)); intros; lia.
Qed.

Lemma go_starts_with_digit n s : (0 < n)%N -> exists a rest, pretty_N_go n s = String a rest /\ is_Some (digit_of a).
Proof.
  revert s. induction (N.lt_wf_0 n) as [n _ IH]. intros s Hn. rewrite pretty_N_go_step by done.
  destruct (decide (n `div` 10 = 0)%N) as [->|Hne].
  - rewrite pretty_N_go_0. eexists _, _. split; [done|]. rewrite digit_of_char by (by apply N.mod_lt). done.
  - apply IH; [apply N.div_lt; lia|by apply N.neq_0_lt_0].
Qed.

Lemma digit_is_no_sign a : is_Some (digit_of a) -> a <> "-"%char /\ a <> "+"%char.
Proof. intros Hd. split; intros ->; by destruct Hd. Qed.

(** What a 32-bit integer is written as is read as the integer. *)
Lemma parse_i32_pretty (z : Z) : in_i32 z = true -> parse_i32 (pretty z) = Some z.
Proof.
  intros Hz. destruct z as [|n|n]; [done| |].
  - change (pretty (Z.pos n)) with (pretty_N_go (Npos n) "").
    destruct (go_starts_with_digit (Npos n) "" ltac:(done)) as (a & rest & E & Hd).
    pose proof (digit_is_no_sign a Hd) as [H1 H2]. unfold parse_i32. rewrite E at 1.
    rewrite !bool_decide_eq_false_2 by done. rewrite (parse_digits_go false); [done|done].
  - change (pretty (Z.neg n)) with (String "-" (pretty_N_go (Npos n) "")).
    destruct (go_starts_with_digit (Npos n) "" ltac:(done)) as (a & rest & E & Hd).
    unfold parse_i32. rewrite bool_decide_eq_true_2 by done. rewrite E at 1.
    rewrite (parse_digits_go true) by done. done.
Qed.

(** The ids of the clients of the data feed are distinct. *)
Lemma feed_ids_are_distinct (a b : Z) : ClientId_from (pretty a) = ClientId_from (pretty b) -> a = b.
Proof. intros [= E]. by apply (inj pretty) in E. Qed.

(** ** The slurper *)

(** A record tells of a station: a controller that is seen, with callsign and frequency,
    of a known facility. *)
Record tells (client : ClientId) (record : list string) (info : ControllerInfo) : Prop := {
  tl_atc : exists facility, record !! 2 = Some facility /\ to_ascii_lowercase facility = "atc"%string;
  tl_seen : exists text range, record !! 4 = Some text /\ parse_i32 text = Some range /\ range <> 0%Z /\
    visual_range info = (if (range <? 0)%Z then None else Some (Z.to_N range));
  tl_callsign : record !! 1 = Some (callsign info) /\ callsign info <> ""%string;
  tl_frequency : record !! 3 = Some (frequency info) /\ frequency info <> ""%string;
  tl_facility : facility_type info = facility_from (callsign info) /\ facility_type info <> FT_Unknown;
  tl_client : cid info = client
}.

Lemma parse_zero : parse_i32 "0" = Some 0%Z.
Proof. done. Qed.

Lemma extract_spec client record info :
  Slurper.extract_controller_info client record = Some info <-> tells client record info.
Proof.
  unfold Slurper.extract_controller_info, eq_ignore_ascii_case, Slurper.FACILITY_TYPE_FIELD_INDEX,
    Slurper.VISIBILITY_RANGE_FIELD_INDEX, Slurper.CALLSIGN_FIELD_INDEX, Slurper.FREQUENCY_FIELD_INDEX.
  split.
  - destruct (record !! 2) as [facility|] eqn:E2; cbn [default from_option id]; [|done].
    destruct (bool_decide _) eqn:Hatc; cbn [negb]; [|done]. apply bool_decide_eq_true in Hatc.
    destruct (record !! 4) as [text|] eqn:E4; cbn [default from_option id]; [|by rewrite ?parse_zero].
    destruct (parse_i32 text) as [range|] eqn:Ep; cbn [default from_option id]; [|done].
    destruct (Z.eqb_spec range 0) as [|Hr]; [done|].
    destruct (record !! 1) as [cs|] eqn:E1; [|done]. destruct (bool_decide (cs = _)) eqn:Hcs; [done|].
    destruct (record !! 3) as [fq|] eqn:E3; [|done]. destruct (bool_decide (fq = _)) eqn:Hfq; [done|].
    destruct (bool_decide (facility_from cs = FT_Unknown)) eqn:Hft; [done|]. intros [= <-].
    apply bool_decide_eq_false in Hcs, Hfq, Hft. split; cbn; eauto 10.
  - intros [(facility & -> & Hatc) (text & range & -> & Hp & Hr & Hv) [E1 H1] [E3 H3] [Hf Hu] <-]. cbn [default from_option id].
    rewrite bool_decide_eq_true_2 by done. cbn [negb]. rewrite Hp. cbn [default from_option id].
    destruct (Z.eqb_spec range 0); [done|]. rewrite E1, E3, !bool_decide_eq_false_2 by (done || by rewrite <- Hf).
    destruct info; cbn in *. by subst.
Qed.

(** The slurper answers the first station of a client: exactly the first of the
    records that could be read and tells of one - a controller that is seen, with a
    callsign of a known facility and a frequency - and nothing for a client without one. *)
Theorem slurper_answers_first_station {Error : Type} client body (records : string -> list (option (list string))) info :
  client <> ClientId_from "" -> body <> ""%string ->
  Slurper.get_controller_info client (Ok body : Result string Error) records = Ok (Some info) <->
  exists before record after, records body = before ++ Some record :: after /\ tells client record info /\
    Forall (λ r, forall record' info', r = Some record' -> ~ tells client record' info') before.
Proof.
  intros Hc Hb. unfold Slurper.get_controller_info. rewrite !bool_decide_eq_false_2 by done.
  generalize (records body) as l. intros l. induction l as [|[record|] l IH]; cbn [Slurper.parse_slurper_data].
  - split; [done|]. intros (before & ? & ? & E & _). by destruct before.
  - destruct (Slurper.extract_controller_info client record) as [info'|] eqn:E.
    + split.
      * intros [= <-]. exists [], record, l. split_and!; [done|by apply extract_spec|done].
      * intros (before & record' & after & El & Ht & Hn). destruct before as [|r before].
        -- injection El as <- <-. apply extract_spec in Ht. congruence.
        -- injection El as <- El. apply Forall_cons in Hn as [Hn _]. apply extract_spec in E. by destruct (Hn record info').
    + assert (forall info', ~ tells client record info') as Hno.
      { intros info' Ht. apply extract_spec in Ht. congruence. }
      rewrite IH. split.
      * intros (before & record' & after & -> & Ht & Hn). exists (Some record :: before), record', after.
        split_and!; [done|done|]. constructor; [|done]. intros r i [= <-]. apply Hno.
      * intros (before & record' & after & El & Ht & Hn). destruct before as [|r before].
        -- injection El as <- <-. by destruct (Hno info).
        -- injection El as <- El. apply Forall_cons in Hn as [_ Hn]. by exists before, record', after.
  - rewrite IH. split.
    + intros (before & record' & after & -> & Ht & Hn). exists (None :: before), record', after.
      split_and!; [done|done|]. by constructor.
    + intros (before & record' & after & El & Ht & Hn). destruct before as [|r before]; [done|].
      injection El as <- El. apply Forall_cons in Hn as [_ Hn]. by exists before, record', after.
Qed.

Example slurper_answers_first_station_witness :
  let info := mkControllerInfo (ClientId_from "1234567") "LOVV_CTR" "123.450" Enroute (Some 600%N) in
  let records (_ : string) := [Some ["1234567"; "LOWW_D_ATIS"; "atc"; "121.730"; "0"]; None; Some ["1234567"; "LOVV_CTR"; "atc"; "123.450"; "600"]]%string in
  Slurper.get_controller_info (ClientId_from "1234567") (Ok "body"%string : Result string ()) records = Ok (Some info) /\
  exists before record after, records "body"%string = before ++ Some record :: after /\
    tells (ClientId_from "1234567") record info /\
    Forall (λ r, forall record' info', r = Some record' -> ~ tells (ClientId_from "1234567") record' info') before.
Proof.
  cbv zeta. split; [by vm_compute|].
  apply (slurper_answers_first_station (Error:=()) (ClientId_from "1234567") "body"
    (λ _, [Some ["1234567"; "LOWW_D_ATIS"; "atc"; "121.730"; "0"]; None; Some ["1234567"; "LOVV_CTR"; "atc"; "123.450"; "600"]]%string));
    [done|done|by vm_compute].
Defined.

(** A range below zero is not one greater than zero, and is accepted. *)
Example negative_range_accepted :
  Slurper.parse_slurper_data (ClientId_from "1") [Some ["1"; "LOVV_CTR"; "atc"; "123.450"; "-5"]; Some ["1"; "LOWW_TWR"; "atc"; "119.400"; "50"]]%string =
    Some (mkControllerInfo (ClientId_from "1") "LOVV_CTR" "123.450" Enroute None).
Proof. by vm_compute. Qed.

(** ** The data feed *)

Section feed.
Context {Error : Type}.
Abbreviation Request := (Instant * Result (list FeedController) Error * Instant)%type.

(** The requests to a feed one after the other, with what each gets *)
Fixpoint feed_run (f : DataFeed.Feed) (requests : list Request) : DataFeed.Feed * list (Result (list ControllerInfo) Error) :=
  match requests with
  | [] => (f, [])
  | (asked, response, answered) :: requests =>
    let (f, r) := DataFeed.fetch_controller_info f asked response answered in
    let (f, rs) := feed_run f requests in (f, r :: rs)
  end.

(** What the cache holds was answered. *)
Definition cache_from (ttl : Duration) (done : list Request) (f : DataFeed.Feed) : Prop :=
  DataFeed.cache_ttl f = ttl /\
  forall c, DataFeed.cache f = Some c -> exists asked answer,
    (asked, Ok answer, DataFeed.updated_at c) ∈ done /\ DataFeed.cached c = map DataFeed.into_controller_info answer.

Lemma fetch_keeps_cache ttl earlier f asked response answered : cache_from ttl earlier f ->
  cache_from ttl (earlier ++ [(asked, response, answered)])
    (DataFeed.fetch_controller_info f asked response answered).1.
Proof.
  intros [Ht Hc]. unfold DataFeed.fetch_controller_info.
  assert (cache_from ttl (earlier ++ [(asked, response, answered)]) f) as Hf.
  { split; [done|]. intros c E. destruct (Hc c E) as (a & ans & Hin & Hd). exists a, ans. split; [|done].
    apply elem_of_app. by left. }
  destruct (DataFeed.fresh f asked); [done|]. destruct response as [answer|]; [|done]. cbn. split; [done|].
  intros c [= <-]. exists asked, answer. split; [|done]. apply elem_of_app. right. by left.
Qed.

Lemma feed_run_cache ttl earlier f requests : cache_from ttl earlier f ->
  cache_from ttl (earlier ++ requests) (feed_run f requests).1.
Proof.
  revert earlier f. induction requests as [|[[asked response] answered] requests IH]; intros earlier f Hf;
    [by rewrite app_nil_r|].
  cbn [feed_run]. pose proof (fetch_keeps_cache ttl earlier f asked response answered Hf) as Hf1.
  destruct (DataFeed.fetch_controller_info f asked response answered) as [f1 r]. cbn in Hf1.
  specialize (IH _ _ Hf1). destruct (feed_run f1 requests) as [f2 rs]. by rewrite <- app_assoc in IH.
Qed.

(** What the data feed answers is fresh: it is the answer to this request, or to an
    earlier one no older than the time it may be kept; an error is never kept, and is only
    answered when the request itself failed - while a fresh answer is kept the feed is
    not asked. *)
Theorem feed_is_fresh ttl (earlier : list Request) asked (response : Result (list FeedController) Error) answered :
  let f := (feed_run (DataFeed.with_cache_ttl ttl) earlier).1 in
  match DataFeed.fetch_controller_info f asked response answered with
  | (f', Ok controllers) =>
    exists answer, controllers = map DataFeed.into_controller_info answer /\
      ((response = Ok answer /\ DataFeed.fresh f asked = None) \/
       (f' = f /\ exists asked' answered', (asked', Ok answer, answered') ∈ earlier /\
          (duration_since asked answered' < ttl)%N))
  | (f', Err e) => response = Err e /\ f' = f /\ DataFeed.fresh f asked = None
  end.
Proof.
  cbv zeta. pose proof (feed_run_cache ttl [] (DataFeed.with_cache_ttl ttl) earlier) as Hf.
  destruct Hf as [Ht Hc]; [by split|]. set (f := (feed_run _ earlier).1) in *. clearbody f.
  unfold DataFeed.fetch_controller_info, DataFeed.fresh. destruct (DataFeed.cache f) as [c|].
  - rewrite Ht. destruct (N.ltb_spec (duration_since asked (DataFeed.updated_at c)) ttl) as [Hlt|Hge].
    + destruct (Hc c eq_refl) as (asked' & answer & Hin & Hd). exists answer. split; [done|]. right. split; [done|]. by eauto.
    + destruct response as [answer|e]; [exists answer; split; [done|by left]|done].
  - destruct response as [answer|e]; [exists answer; split; [done|by left]|done].
Qed.
End feed.

(** ** Limits *)

Section limits.
Context {Limiter : Type} `{Governor Limiter}.
Import RateLimit.

Definition allows (l : option Limiter) (key : string) (n : N) (now : Instant) : Prop :=
  match l with Some l => (check_key_n l key n now).2 = Allowed | None => True end.

(** An invitation passes exactly when both of its limits, where they are set, allow as
    many tokens as it has targets - one for none; the limit per minute is asked after the
    short one allowed it, and is not charged for an invitation the short one refused. *)
Theorem invite_passes_both (l : Limits) key targets now :
  let n := N.max (N.min (N.of_nat targets) 4294967295) 1 in
  ((check_call_invite l key targets now).2 = Ok () <-> allows (short l) key n now /\ allows (minute l) key n now) /\
  (~ allows (short l) key n now -> minute (check_call_invite l key targets now).1 = minute l).
Proof.
  cbv zeta. unfold check_call_invite, tokens, allows, check_n. change (2 ^ 32 - 1)%N with 4294967295%N.
  set (n := N.max _ _). destruct (short l) as [s|].
  - destruct (check_key_n s key n now) as [s' []]; cbn [snd].
    + destruct (minute l) as [m|]; [|done]. destruct (check_key_n m key n now) as [m' []]; cbn; by intuition.
    + by intuition.
    + by intuition.
  - destruct (minute l) as [m|]; [|by intuition]. destruct (check_key_n m key n now) as [m' []]; cbn; by intuition.
Qed.

(** Without limits everything passes. *)
Lemma disabled_limits_pass (c : Config) key targets now : all_enabled c = false ->
  (check_call_invite (call_invite (from_config c)) key targets now).2 = Ok () /\
  (check_request (failed_auth (from_config c)) key now).2 = Ok () /\
  (check_request (version_update (from_config c)) key now).2 = Ok () /\
  (check_request (vatsim_token (from_config c)) key now).2 = Ok ().
Proof. intros E. unfold from_config. by rewrite E. Qed.

(** No quota has the period zero. *)
Lemma quota_has_a_period (p : Policy) : (0 < period (quota p))%N.
Proof. unfold quota, SECOND. cbn. lia. Qed.
End limits.
