(* ===== verification/Devices.v ===== *)
(** Devices: the choice of an audio device, [vacs-audio/src/device.rs] with the data of
    [backend.rs]: by its identifier, by its name, or the default one, and with the stream
    configuration that fits best.

    What hosts and devices answer is of the backend, a library; a device is what it
    answers. The lower case of Unicode is an argument. *)
From stdpp Require Import prelude strings list.
From Stdlib Require Import NArith.
From S2P Require Import Prelude Protocol Calls Controllers Releases Feed.

Inductive DeviceType := InputDevice | OutputDevice.

Inductive SampleFormat := F32 | I16 | U16 | OtherFormat.

Record StreamConfigRange := mkRange {
  channels : N;
  min_sample_rate : N;
  max_sample_rate : N;
  sample_format : SampleFormat
}.

Inductive BufferSize := DefaultSize | Fixed (n : N).

Record StreamConfig := mkStreamConfig {
  sc_channels : N;
  sc_sample_rate : N;
  sc_sample_format : SampleFormat;
  sc_buffer_size : BufferSize
}.

Definition with_sample_rate (r : StreamConfigRange) (rate : N) : StreamConfig :=
  mkStreamConfig (channels r) rate (sample_format r) DefaultSize.

Definition TARGET_SAMPLE_RATE : N := 48000.

(** ** The score of a configuration: the lower, the better *)

Definition sample_rate_distance (min max : N) : N :=
  if (min <=? TARGET_SAMPLE_RATE)%N && (TARGET_SAMPLE_RATE <=? max)%N then 0%N
  else if (TARGET_SAMPLE_RATE <? min)%N then (min - TARGET_SAMPLE_RATE)%N
  else (TARGET_SAMPLE_RATE - max)%N.

Definition closest_sample_rate (min max : N) : N :=
  if (min <=? TARGET_SAMPLE_RATE)%N && (TARGET_SAMPLE_RATE <=? max)%N then TARGET_SAMPLE_RATE
  else if (TARGET_SAMPLE_RATE <? min)%N then min
  else max.

(** Distance of the rate, of the channels, preference of the format *)
Definition Score : Type := N * N * N.

(** [abs_diff] *)
Definition abs_diff (a b : N) : N := (N.max a b - N.min a b)%N.

Definition score_stream_config_range (r : StreamConfigRange) (preferred_channels : N) : Score :=
  (sample_rate_distance (min_sample_rate r) (max_sample_rate r), abs_diff (channels r) preferred_channels,
   match sample_format r with F32 => 0 | I16 => 1 | U16 => 2 | OtherFormat => 3 end%N).

(** The order of [StreamConfigScore] *)
Definition score_ltb (a b : Score) : bool :=
  let '(a1, a2, a3) := a in
  let '(b1, b2, b3) := b in
  (a1 <? b1)%N || ((a1 =? b1)%N && ((a2 <? b2)%N || ((a2 =? b2)%N && (a3 <? b3)%N))).

(** The loops that keep the first of the best *)
Definition keep_best {A : Type} (best : option (A * Score)) (candidate : A * Score) : option (A * Score) :=
  match best with
  | None => Some candidate
  | Some (a, score) => if score_ltb candidate.2 score then Some candidate else Some (a, score)
  end.

Section devices.
Context {Error : Type}.

(** [AudioDevice], by what it answers *)
Record AudioDevice := mkDevice {
  dev_name : string;
  dev_id : option string;
  identifiers : list string;
  supports_direction : DeviceType -> bool;
  supported_configs : DeviceType -> Result (list StreamConfigRange) Error
}.

(** [AudioHost] *)
Record AudioHost := mkHost {
  host_devices : DeviceType -> Result (list AudioDevice) Error;
  default_device : DeviceType -> option AudioDevice;
  device_by_id : string -> option AudioDevice
}.

(** [AudioBackend] *)
Record AudioBackend := mkBackend {
  default_host : AudioHost;
  host_by_name : string -> option AudioHost
}.

Inductive AudioError := BackendError (e : Error) | NoDefaultDevice | NoSupportedConfig | NoDeviceWithConfig.

Definition select_host (b : AudioBackend) (preferred_host : option string) : AudioHost :=
  match preferred_host with
  | Some name => match host_by_name b name with Some host => host | None => default_host b end
  | None => default_host b
  end.

Definition preferred_channels (t : DeviceType) : N := match t with InputDevice => 1 | OutputDevice => 2 end.

Definition pick_best_stream_config (t : DeviceType) (d : AudioDevice) : Result (StreamConfig * Score) AudioError :=
  match supported_configs d t with
  | Err e => Err (BackendError e)
  | Ok configs =>
    match foldl keep_best None (map (λ r, (r, score_stream_config_range r (preferred_channels t))) configs) with
    | None => Err NoSupportedConfig
    | Some (range, score) =>
      Ok (with_sample_rate range (closest_sample_rate (min_sample_rate range) (max_sample_rate range)), score)
    end
  end.

(** [str::to_lowercase] *)
Variable to_lowercase : string -> string.

Definition named (name : string) (d : AudioDevice) : bool :=
  existsb (λ n, eq_ignore_ascii_case n name) (identifiers d).

Definition named_alike (name : string) (d : AudioDevice) : bool :=
  existsb (λ n, contains (to_lowercase n) (to_lowercase name)) (identifiers d).

(** [select_device]; the flag: it is not the preferred one *)
Definition select_default (t : DeviceType) (host : AudioHost) (preferred : bool) : Result (AudioDevice * bool) AudioError :=
  match default_device host t with
  | Some d => Ok (d, preferred)
  | None => Err NoDefaultDevice
  end.

Definition select_by_name (t : DeviceType) (host : AudioHost) (preferred_id preferred_name : option string) :
    Result (AudioDevice * bool) AudioError :=
  match preferred_name with
  | Some name =>
    match host_devices host t with
    | Err e => Err (BackendError e)
    | Ok devices =>
      match List.find (named name) devices with
      | Some d => Ok (d, false)
      | None =>
        match List.find (named_alike name) devices with
        | Some d => Ok (d, false)
        | None => select_default t host true
        end
      end
    end
  | None => select_default t host (bool_decide (is_Some preferred_id))
  end.

Definition select_device (t : DeviceType) (host : AudioHost) (preferred_id preferred_name : option string) :
    Result (AudioDevice * bool) AudioError :=
  match preferred_id ≫= device_by_id host with
  | Some d => Ok (d, false)
  | None => select_by_name t host preferred_id preferred_name
  end.

(** The devices with their best configurations, those without left out *)
Definition scored (t : DeviceType) (devices : list AudioDevice) : list (AudioDevice * StreamConfig * Score) :=
  omap (λ d, match pick_best_stream_config t d with Ok (c, s) => Some (d, c, s) | Err _ => None end) devices.

Definition pick_device_with_stream_config (t : DeviceType) (host : AudioHost)
    (preferred_id preferred_name : option string) : Result (AudioDevice * StreamConfig * bool) AudioError :=
  match select_device t host preferred_id preferred_name with
  | Err e => Err e
  | Ok (d, is_fallback) =>
    match pick_best_stream_config t d with
    | Ok (config, _) => Ok (d, config, is_fallback)
    | Err _ =>
      match host_devices host t with
      | Err e => Err (BackendError e)
      | Ok devices =>
        match foldl keep_best None (scored t devices) with
        | Some (d, config, _) => Ok (d, config, true)
        | None => Err NoDeviceWithConfig
        end
      end
    end
  end.

(** [open]: the device with its configuration, and whether it is a fallback *)
Definition open (b : AudioBackend) (t : DeviceType) (preferred_host preferred_id preferred_name : option string) :
    Result (AudioDevice * StreamConfig * bool) AudioError :=
  pick_device_with_stream_config t (select_host b preferred_host) preferred_id preferred_name.

Definition all_device_names (b : AudioBackend) (t : DeviceType) (preferred_host : option string) :
    Result (list string) Error :=
  match host_devices (select_host b preferred_host) t with
  | Err e => Err e
  | Ok devices =>
    Ok (omap (λ d, if bool_decide (dev_name d = ""%string) then None
                   else if negb (supports_direction d t) then None else Some (dev_name d)) devices)
  end.

Definition device_name_of (r : Result (AudioDevice * bool) AudioError) : Result string AudioError :=
  match r with Ok (d, _) => Ok (dev_name d) | Err e => Err e end.

Definition default_device_name (b : AudioBackend) (t : DeviceType) (preferred_host : option string) : Result string AudioError :=
  device_name_of (select_device t (select_host b preferred_host) None None).

Definition picked_device_name (b : AudioBackend) (t : DeviceType) (preferred_host preferred_id preferred_name : option string) :
    Result string AudioError :=
  device_name_of (select_device t (select_host b preferred_host) preferred_id preferred_name).

Definition resolve_device_id (b : AudioBackend) (t : DeviceType) (preferred_host : option string) (device_name : string) : option string :=
  match host_devices (select_host b preferred_host) t with
  | Err _ => None
  | Ok devices => List.find (named device_name) devices ≫= dev_id
  end.
End devices.
Arguments AudioDevice : clear implicits.
Arguments AudioHost : clear implicits.
Arguments AudioBackend : clear implicits.
Arguments AudioError : clear implicits.
