(* ===== verification/DeviceProperties.v ===== *)
(** DeviceProperties: the theorems about the choice of an audio device: the configuration
    is the best one, a device that can be opened is found, and it is told when it is not
    the preferred one. *)
From stdpp Require Import prelude strings list.
From Stdlib Require Import NArith.
From S2P Require Import Prelude Protocol Calls Controllers Releases Feed Devices.

(** ** Scores *)

Lemma score_ltb_spec a1 a2 a3 b1 b2 b3 : score_ltb (a1, a2, a3) (b1, b2, b3) = true <->
  (a1 < b1 \/ (a1 = b1 /\ (a2 < b2 \/ (a2 = b2 /\ a3 < b3))))%N.
Proof. unfold score_ltb. rewrite !orb_true_iff, !andb_true_iff, !orb_true_iff, !andb_true_iff, !N.ltb_lt, !N.eqb_eq. done. Qed.

Lemma score_irreflexive a : score_ltb a a = false.
Proof. destruct a as [[a1 a2] a3]. apply not_true_iff_false. rewrite score_ltb_spec. lia. Qed.

Lemma score_transitive a b c : score_ltb a b = true -> score_ltb b c = true -> score_ltb a c = true.
Proof. destruct a as [[a1 a2] a3], b as [[b1 b2] b3], c as [[c1 c2] c3]. rewrite !score_ltb_spec. lia. Qed.

(** What is better than the better is better than the worse. *)
Lemma score_better a b c : score_ltb a b = true -> score_ltb c b = false -> score_ltb a c = true.
Proof.
  destruct a as [[a1 a2] a3], b as [[b1 b2] b3], c as [[c1 c2] c3].
  rewrite <- not_true_iff_false, !score_ltb_spec. lia.
Qed.

(** The first of the best *)
Definition first_best {A : Type} (l : list (A * Score)) (x : A * Score) : Prop :=
  exists before after, l = before ++ x :: after /\
    Forall (λ y, score_ltb x.2 y.2 = true) before /\ Forall (λ y, score_ltb y.2 x.2 = false) after.

Lemma keep_best_spec {A : Type} (l : list (A * Score)) : match foldl keep_best None l with
  | Some x => first_best l x
  | None => l = []
  end.
Proof.
  induction l as [|y l IH] using rev_ind; [done|]. rewrite foldl_app. cbn [foldl].
  destruct (foldl keep_best None l) as [[a s]|]; cbn [keep_best].
  2: { subst l. by exists [], []. }
  destruct IH as (before & after & -> & Hb & Ha). cbn [snd] in *. destruct (score_ltb y.2 s) eqn:E.
  - exists (before ++ (a, s) :: after), []. split_and!; [done| |done]. apply Forall_app. split; [|constructor].
    + eapply Forall_impl; [done|]. intros z Hz. cbn in *. by eapply score_transitive.
    + done.
    + eapply Forall_impl; [done|]. intros z Hz. by eapply score_better.
  - exists before, (after ++ [y]). split_and!; [by rewrite <- app_assoc|done|]. apply Forall_app. by split; [|constructor].
Qed.

Lemma first_best_elem {A : Type} (l : list (A * Score)) x : first_best l x ->
  x ∈ l /\ forall y, y ∈ l -> score_ltb y.2 x.2 = false.
Proof.
  intros (before & after & -> & Hb & Ha). split; [set_solver|].
  intros y [Hy|[->|Hy]%elem_of_cons]%elem_of_app.
  - rewrite Forall_forall in Hb. specialize (Hb y Hy). apply not_true_iff_false. intros Hc.
    pose proof (score_transitive _ _ _ Hb Hc) as Hx. by rewrite score_irreflexive in Hx.
  - apply score_irreflexive.
  - rewrite Forall_forall in Ha. by apply Ha.
Qed.

(** ** Sample rates *)

Lemma closest_in_range min max : (min <= max)%N ->
  (min <= closest_sample_rate min max <= max)%N /\
  sample_rate_distance min max = abs_diff (closest_sample_rate min max) TARGET_SAMPLE_RATE /\
  (forall rate, min <= rate <= max -> sample_rate_distance min max <= abs_diff rate TARGET_SAMPLE_RATE)%N.
Proof.
  intros Hle. unfold closest_sample_rate, sample_rate_distance, abs_diff.
  destruct (N.leb_spec min TARGET_SAMPLE_RATE), (N.leb_spec TARGET_SAMPLE_RATE max),
    (N.ltb_spec TARGET_SAMPLE_RATE min); cbn [andb]; try lia; (split; [lia|]); (split; [lia|]); intros rate Hr; lia.
Qed.

Definition format_preference (f : SampleFormat) : N :=
  match f with F32 => 0 | I16 => 1 | U16 => 2 | OtherFormat => 3 end.

(** How far a rate, a number of channels and a format are from what is wanted *)
Definition distance (t : DeviceType) (rate chans : N) (f : SampleFormat) : Score :=
  (abs_diff rate TARGET_SAMPLE_RATE, abs_diff chans (preferred_channels t), format_preference f).

Section devices.
Context {Error : Type}.
Variable to_lowercase : string -> string.
Abbreviation AudioDevice := (AudioDevice Error).
Abbreviation AudioHost := (AudioHost Error).

(** The configuration of a device is the best it supports: one of its ranges, with a
    rate in it, and no rate of any of its ranges is nearer to 48 kHz, or as near with
    channels nearer to the wanted, or as near in both with a preferred format. *)
Theorem best_configuration t (d : AudioDevice) configs config score :
  supported_configs d t = Ok configs -> Forall (λ r, min_sample_rate r <= max_sample_rate r)%N configs ->
  pick_best_stream_config t d = Ok (config, score) ->
  (exists r, r ∈ configs /\ config = with_sample_rate r (sc_sample_rate config) /\
     (min_sample_rate r <= sc_sample_rate config <= max_sample_rate r)%N) /\
  score = distance t (sc_sample_rate config) (sc_channels config) (sc_sample_format config) /\
  forall r rate, r ∈ configs -> (min_sample_rate r <= rate <= max_sample_rate r)%N ->
    score_ltb (distance t rate (channels r) (sample_format r)) score = false.
Proof.
  intros Hd Hr. unfold pick_best_stream_config. rewrite Hd.
  pose proof (keep_best_spec (map (λ r, (r, score_stream_config_range r (preferred_channels t))) configs)) as Hbest.
  destruct (foldl keep_best None _) as [[range s]|]; [|done]. intros [= <- <-].
  apply first_best_elem in Hbest as [Hin Hall]. apply list_elem_of_fmap in Hin as (r & [= -> ->] & Hin).
  rewrite Forall_forall in Hr. destruct (closest_in_range _ _ (Hr r Hin)) as (Hc & Hdist & _). split_and!.
  - exists r. cbn. split_and!; [done|done|apply Hc|apply Hc].
  - unfold distance, score_stream_config_range. cbn. by rewrite Hdist.
  - intros r' rate Hin' Hrate. destruct (closest_in_range _ _ (Hr r' Hin')) as (_ & _ & Hle). specialize (Hle rate Hrate).
    specialize (Hall (r', score_stream_config_range r' (preferred_channels t))).
    assert (score_ltb (score_stream_config_range r' (preferred_channels t)) (score_stream_config_range r (preferred_channels t)) = false) as Hno
      by (apply Hall; apply list_elem_of_fmap; by exists r').
    apply not_true_iff_false in Hno. apply not_true_iff_false. intros Hlt. apply Hno. revert Hlt.
    unfold distance, score_stream_config_range, format_preference. rewrite !score_ltb_spec. lia.
Qed.

(** A device that supports a configuration has a best one. *)
Lemma has_configuration t (d : AudioDevice) configs e :
  supported_configs d t = Ok configs -> configs <> [] -> pick_best_stream_config t d <> Err e.
Proof.
  intros Hd Hne. unfold pick_best_stream_config. rewrite Hd.
  pose proof (keep_best_spec (map (λ r, (r, score_stream_config_range r (preferred_channels t))) configs)) as Hbest.
  destruct (foldl keep_best None _) as [[r s]|]; [done|]. by destruct configs.
Qed.

(** A device is what was preferred: by its identifier, by its name, or the default one. *)
Inductive preferred (t : DeviceType) (host : AudioHost) : option string -> option string -> AudioDevice -> Prop :=
| by_id id name d : device_by_id host id = Some d -> preferred t host (Some id) name d
| by_name id name d devices : (id ≫= device_by_id host) = None -> host_devices host t = Ok devices -> d ∈ devices ->
    named name d = true \/ (named_alike to_lowercase name d = true /\ forall d', d' ∈ devices -> named name d' = false) ->
    preferred t host id (Some name) d
| by_default d : default_device host t = Some d -> preferred t host None None d.

Lemma find_spec {A : Type} (f : A -> bool) l x : List.find f l = Some x -> x ∈ l /\ f x = true.
Proof. intros Hf. apply List.find_some in Hf as [Hin Hx]. split; [by apply list_elem_of_In|done]. Qed.

Lemma find_nothing {A : Type} (f : A -> bool) l : List.find f l = None -> forall x, x ∈ l -> f x = false.
Proof. intros Hf x Hx. eapply List.find_none; [done|by apply list_elem_of_In]. Qed.

Lemma select_device_spec t (host : AudioHost) id name d :
  select_device to_lowercase t host id name = Ok (d, false) -> preferred t host id name d.
Proof.
  unfold select_device. destruct (id ≫= device_by_id host) as [d'|] eqn:Hid.
  { intros [= ->]. destruct id as [i|]; [|done]. by apply by_id. }
  unfold select_by_name, select_default. destruct name as [n|].
  - destruct (host_devices host t) as [devices|] eqn:Hh; [|done].
    destruct (List.find (named n) devices) as [d1|] eqn:E1.
    { intros [= ->]. apply find_spec in E1 as [Hin Hn]. eapply by_name; eauto. }
    destruct (List.find (named_alike to_lowercase n) devices) as [d2|] eqn:E2.
    { intros [= ->]. apply find_spec in E2 as [Hin Hn]. eapply by_name; eauto. right. split; [done|]. by apply find_nothing. }
    by destruct (default_device host t).
  - destruct id as [i|]; destruct (default_device host t) as [d1|] eqn:E; try done. intros [= ->]. by apply by_default.
Qed.

(** It is told when a device is not the preferred one: a device that is opened without
    the flag of a fallback is the one with the preferred identifier, or else one with the
    preferred name - exactly, if there is such a one - or the default one if nothing is
    preferred; and any device that is opened has a configuration, its best. *)
Theorem fallback_is_told (b : AudioBackend Error) t host id name d config is_fallback :
  open to_lowercase b t host id name = Ok (d, config, is_fallback) ->
  (is_fallback = false -> preferred t (select_host b host) id name d) /\
  exists score, pick_best_stream_config t d = Ok (config, score).
Proof.
  unfold open, pick_device_with_stream_config. set (h := select_host b host).
  destruct (select_device to_lowercase t h id name) as [[d1 f1]|] eqn:Hs; [|done].
  destruct (pick_best_stream_config t d1) as [[c1 s1]|] eqn:Hc.
  - intros [= -> -> ->]. split; [|by eexists]. intros ->. by apply select_device_spec.
  - destruct (host_devices h t) as [devices|]; [|done].
    pose proof (keep_best_spec (scored t devices)) as Hbest.
    destruct (foldl keep_best None (scored t devices)) as [[[d2 c2] s2]|]; [|done]. intros [= -> -> <-].
    split; [done|]. apply first_best_elem in Hbest as [Hin _]. apply list_elem_of_omap in Hin as (d3 & _ & Hd3).
    destruct (pick_best_stream_config t d3) as [[c3 s3]|] eqn:Hc3; [|done]. injection Hd3 as -> -> ->. by eexists.
Qed.

(** A device that can be opened is found: when the host has a default device and lists
    its devices, and one of these has a configuration, some device is opened, whatever
    is preferred. *)
Theorem openable_device_is_found (b : AudioBackend Error) t host id name devices d0 d1 configs :
  default_device (select_host b host) t = Some d0 -> host_devices (select_host b host) t = Ok devices ->
  d1 ∈ devices -> supported_configs d1 t = Ok configs -> configs <> [] ->
  exists d config is_fallback, open to_lowercase b t host id name = Ok (d, config, is_fallback).
Proof.
  intros Hd0 Hh Hin Hc Hne. unfold open, pick_device_with_stream_config. set (h := select_host b host) in *.
  assert (exists d f, select_device to_lowercase t h id name = Ok (d, f)) as (d & f & ->).
  { unfold select_device. destruct (id ≫= device_by_id h); [by eexists _, _|].
    unfold select_by_name, select_default. rewrite Hh, Hd0.
    destruct name as [n|]; [|by eexists _, _].
    destruct (List.find (named n) devices); [by eexists _, _|].
    destruct (List.find (named_alike to_lowercase n) devices); by eexists _, _. }
  destruct (pick_best_stream_config t d) as [[c s]|]; [by eexists _, _, _|]. rewrite Hh.
  pose proof (keep_best_spec (scored t devices)) as Hbest.
  destruct (foldl keep_best None (scored t devices)) as [[[d2 c2] s2]|]; [by eexists _, _, _|].
  exfalso. destruct (pick_best_stream_config t d1) as [[c s]|e] eqn:E; [|by apply (has_configuration t d1 configs e Hc Hne) in E].
  assert ((d1, c, s) ∈ scored t devices) as Hx by (apply list_elem_of_omap; exists d1; by rewrite E).
  rewrite Hbest in Hx. by apply elem_of_nil in Hx.
Qed.
End devices.
