(* ===== verification/Joystick.v ===== *)
(** Joystick: the joysticks of the desktop client, [vacs-client/src/keybinds/joystick.rs],
    the capture of a button and the commands of the settings, [keybinds/commands.rs].

    The poller's thread takes one event of SDL at a time and answers what it sends to every
    channel; which channels are closed, the handle of a device and the start of SDL are
    arguments. A command that waits is cut where it waits. *)
From stdpp Require Import prelude gmap strings list.
From Stdlib Require Import NArith.
From S2P Require Import Prelude Protocol Keybinds.

(** Two devices with the same [device] are the same for the settings. *)
Record JoystickDevice := mkJoystickDevice {
  jd_device : string;
  jd_name : option string
}.

(** [KeyEvent::button]: the button, its label and whether it is down *)
Record ButtonEvent := mkButtonEvent {
  be_button : JoystickButton;
  be_label : string;
  be_down : bool
}.

Inductive KeybindsError := ListenerError | CapabilityNotAvailable (what : string) | OtherError.

(** ** The poller *)

Record OpenDevice := mkOpenDevice {
  guid : string;
  name : string;
  held : gset N
}.

(** Devices are known by the instance that SDL gives them. *)
Record Poller := mkPoller {
  devices : gmap N JoystickDevice;
  open : gmap N OpenDevice
}.

Definition no_devices : Poller := mkPoller ∅ ∅.

(** The number of a button as text *)
Class Decimal := decimal : N -> string.

(** [opened] is what opening the device answers, its identifier and its name. *)
Inductive SdlEvent :=
| JoyDeviceAdded (which : N) (opened : option (string * string))
| JoyDeviceRemoved (which : N)
| JoyButtonDown (which button_idx : N)
| JoyButtonUp (which button_idx : N)
| OtherEvent.

Section poller.
Context {HO : HashOrder} {D : Decimal}.

Definition button_event (guid name : string) (button : N) (is_down : bool) : ButtonEvent :=
  mkButtonEvent (mkJoystickButton guid button (Some name)) (name +:+ " B" +:+ decimal button) is_down.

Definition handle_event (p : Poller) (event : SdlEvent) : list ButtonEvent * Poller :=
  match event with
  | JoyDeviceAdded which (Some (guid, name)) =>
    ([], mkPoller (<[which := mkJoystickDevice guid (Some name)]> (devices p))
           (<[which := mkOpenDevice guid name ∅]> (open p)))
  | JoyDeviceAdded _ None => ([], p)
  | JoyDeviceRemoved which =>
    (match open p !! which with
     | Some d => map (λ button, button_event (guid d) (name d) button false) (set_iter (held d))
     | None => []
     end, mkPoller (delete which (devices p)) (delete which (open p)))
  | JoyButtonDown which button =>
    match open p !! which with
    | Some d => ([button_event (guid d) (name d) button true],
                 mkPoller (devices p) (<[which := mkOpenDevice (guid d) (name d) ({[button]} ∪ held d)]> (open p)))
    | None => ([], p)
    end
  | JoyButtonUp which button =>
    match open p !! which with
    | Some d => ([button_event (guid d) (name d) button false],
                 mkPoller (devices p) (<[which := mkOpenDevice (guid d) (name d) (held d ∖ {[button]})]> (open p)))
    | None => ([], p)
    end
  | OtherEvent => ([], p)
  end.

(** [send]: each event goes to every channel that is open, the others are forgotten. *)
Definition send (is_closed : N -> bool) (senders : list N) (event : ButtonEvent) : list (N * ButtonEvent) * list N :=
  let senders := List.filter (λ s, negb (is_closed s)) senders in
  (map (λ s, (s, event)) senders, senders).

Definition send_all (is_closed : N -> bool) (senders : list N) (events : list ButtonEvent) :
    list (N * ButtonEvent) * list N :=
  foldl (λ acc event, let (sent, senders) := send is_closed acc.2 event in (acc.1 ++ sent, senders))
    ([], senders) events.

(** ** The service *)

Record RunningPoller := mkRunningPoller {
  senders : list N;
  poller : Poller
}.

(** Whether SDL starts, with the events that wait there *)
Definition Startup : Type := Result (list SdlEvent) KeybindsError.

Definition drain (p : Poller) (events : list SdlEvent) : Poller :=
  foldl (λ p event, (handle_event p event).2) p events.

(** [ensure_started]; the service is the poller that runs, if any. *)
Definition ensure_started (service : option RunningPoller) (startup : Startup) : Result RunningPoller KeybindsError :=
  match service with
  | Some running => Ok running
  | None =>
    match startup with
    | Ok waiting => Ok (mkRunningPoller [] (drain no_devices waiting))
    | Err e => Err e
    end
  end.

Definition register (service : option RunningPoller) (startup : Startup) (is_closed : N -> bool) (tx : N) :
    Result () KeybindsError * option RunningPoller :=
  match ensure_started service startup with
  | Err e => (Err e, service)
  | Ok r => (Ok (), Some (mkRunningPoller (List.filter (λ s, negb (is_closed s)) (senders r) ++ [tx]) (poller r)))
  end.

(** Devices with one identifier are one entry: the first in the map. *)
Definition collect_devices (l : list JoystickDevice) : gmap string JoystickDevice :=
  foldl (λ m d, match m !! jd_device d with Some _ => m | None => <[jd_device d := d]> m end) ∅ l.

Definition connected_devices (service : option RunningPoller) (startup : Startup) :
    Result (gmap string JoystickDevice) KeybindsError * option RunningPoller :=
  match ensure_started service startup with
  | Err e => (Err e, service)
  | Ok r => (Ok (collect_devices (map_values (devices (poller r)))), Some r)
  end.

(** One turn of [run_poller] *)
Definition poll (service : option RunningPoller) (is_closed : N -> bool) (event : SdlEvent) :
    list (N * ButtonEvent) * option RunningPoller :=
  match service with
  | None => ([], None)
  | Some r =>
    let (events, p) := handle_event (poller r) event in
    let (sent, senders) := send_all is_closed (senders r) events in
    (sent, Some (mkRunningPoller senders p))
  end.

Definition shutdown (service : option RunningPoller) : option RunningPoller := None.

(** ** The list of the devices ([commands.rs]) *)

Record JoystickDeviceEntry := mkEntry {
  entry_device : JoystickDevice;
  connected : bool;
  ignored : bool
}.

(** A set of devices is a map by their identifiers. *)
Definition merge_device_entries (connected ignored : gmap string JoystickDevice) : gmap string JoystickDeviceEntry :=
  let entries := map_imap (λ device d, Some (mkEntry d true (bool_decide (is_Some (ignored !! device))))) connected in
  foldl (λ entries d, match entries !! jd_device d with
                      | Some _ => entries
                      | None => <[jd_device d := mkEntry d false true]> entries
                      end) entries (map_values ignored).

Definition list_joystick_devices (joystick_capable : bool) (service : option RunningPoller) (startup : Startup)
    (ignored : gmap string JoystickDevice) :
    Result (gmap string JoystickDeviceEntry) KeybindsError * option RunningPoller :=
  if negb joystick_capable then (Err (CapabilityNotAvailable "Joystick"), service)
  else
    match connected_devices service startup with
    | (Err e, service) => (Err e, service)
    | (Ok connected, service) => (Ok (merge_device_entries connected ignored), service)
    end.
End poller.

(** ** The capture of a button ([commands.rs]) *)

Definition capturable_button (event : ButtonEvent) (ignored : gset string) : option JoystickButton :=
  if negb (be_down event) then None
  else if bool_decide (device (be_button event) ∈ ignored) then None
  else Some (be_button event).

(** A capture: not yet subscribed, waiting with what its channel holds, or answered *)
Inductive CaptureTask :=
| Starting
| Waiting (ignored : gset string) (rx : list ButtonEvent)
| Captured (answer : Result (option JoystickButton) KeybindsError).

(** [JoystickCaptureState] with the tokens that are cancelled and the captures by their
    tokens; a token is new when its number is. *)
Record Captures := mkCaptures {
  active : option (string * N);
  cancelled : gset N;
  tasks : list CaptureTask
}.

Definition no_captures : Captures := mkCaptures None ∅ [].

(** [keybinds_capture_joystick_button] up to the lock of the state *)
Definition capture (st : Captures) (joystick_capable : bool) (capture_id : string) : Captures :=
  if negb joystick_capable then
    mkCaptures (active st) (cancelled st) (tasks st ++ [Captured (Err (CapabilityNotAvailable "Joystick"))])
  else
    let token := N.of_nat (length (tasks st)) in
    mkCaptures (Some (capture_id, token))
      (match active st with Some (_, previous) => {[previous]} ∪ cancelled st | None => cancelled st end)
      (tasks st ++ [Starting]).

Definition set_task (st : Captures) (token : N) (task : CaptureTask) : Captures :=
  mkCaptures (active st) (cancelled st) (<[N.to_nat token := task]> (tasks st)).

Definition task_of (st : Captures) (token : N) : option CaptureTask := tasks st !! N.to_nat token.

(** It reads the devices to ignore and subscribes. *)
Definition capture_subscribe (st : Captures) (token : N) (ignored : gset string) (subscribed : Result () KeybindsError) : Captures :=
  match task_of st token with
  | Some Starting =>
    set_task st token match subscribed with Ok _ => Waiting ignored [] | Err e => Captured (Err e) end
  | _ => st
  end.

(** An event of the poller in the channel of the capture *)
Definition capture_receive (st : Captures) (token : N) (event : ButtonEvent) : Captures :=
  match task_of st token with
  | Some (Waiting ignored rx) => set_task st token (Waiting ignored (rx ++ [event]))
  | _ => st
  end.

(** [next_button], with what it leaves in the channel *)
Fixpoint next_button (ignored : gset string) (rx : list ButtonEvent) : option JoystickButton * list ButtonEvent :=
  match rx with
  | [] => (None, [])
  | event :: rx =>
    match capturable_button event ignored with
    | Some button => (Some button, rx)
    | None => next_button ignored rx
    end
  end.

(** One turn of the select, whose branches are tried in their order; [gone]: no sender is
    left, [elapsed]: so is the time. *)
Definition capture_turn (st : Captures) (token : N) (gone elapsed : bool) : Captures :=
  match task_of st token with
  | Some (Waiting ignored rx) =>
    if bool_decide (token ∈ cancelled st) then set_task st token (Captured (Ok None))
    else
      match next_button ignored rx with
      | (Some button, _) => set_task st token (Captured (Ok (Some button)))
      | (None, rx) =>
        if gone || elapsed then set_task st token (Captured (Ok None)) else set_task st token (Waiting ignored rx)
      end
  | _ => st
  end.

(** [keybinds_cancel_joystick_capture] *)
Definition cancel_capture (st : Captures) (capture_id : string) : Captures :=
  match active st with
  | Some (id, token) =>
    if bool_decide (id = capture_id) then mkCaptures None ({[token]} ∪ cancelled st) (tasks st) else st
  | None => st
  end.

(** ** The bindings ([commands.rs]) *)

Definition is_key (input : option InputCode) : bool := match input with Some (Key _) => true | _ => false end.

Definition ensure_keybind_capability (keybind_listener joystick_capable : bool) (inputs : list (option InputCode)) :
    Result () KeybindsError :=
  if negb keybind_listener && negb joystick_capable then Err (CapabilityNotAvailable "Keybinds")
  else if negb keybind_listener && existsb is_key inputs then Err (CapabilityNotAvailable "Keyboard keybinds")
  else Ok ().

Inductive Keybind :=
| KB_PushToTalk | KB_PushToMute | KB_RadioPushToTalk | KB_AcceptCall | KB_EndCall | KB_ToggleRadioPrio | KB_SayAgain.

(** The configuration of the client, as far as the commands use it. [afv_emit]: the key
    that is pressed for Audio for VATSIM, if that is the integration. *)
Record ClientConfig := mkClientConfig {
  transmit_config : TransmitConfig;
  keybinds : KeybindsConfig;
  radio_integration : bool;
  afv_emit : option string;
  ignored_joysticks : gmap string JoystickDevice
}.

Section bindings.
Context {PF : Platform}.

(** [RadioConfig::validate] *)
Definition validate (c : ClientConfig) (t : TransmitConfig) : Result () KeybindsError :=
  match afv_emit c with
  | Some code =>
    if is_trigger (TransmitConfig.active_radio_trigger t true) (Input (Key code)) then Err OtherError else Ok ()
  | None => Ok ()
  end.

(** [KeybindEngine::set_config] with its answer: whether the engine starts *)
Definition engine_set_config (e : KeybindEngine) (t : TransmitConfig) (k : KeybindsConfig)
    (radio_enabled keyboard_ok joystick_ok bound : bool) : Result () KeybindsError * (list Effect * KeybindEngine) :=
  let (stopped, stopped_engine) := KeybindEngine.stop e in
  let configured := KeybindEngine.configure t k radio_enabled (call_pressed stopped_engine) (radio_pressed stopped_engine)
    (call_active stopped_engine) (radio_prio stopped_engine) (implicit_radio_prio stopped_engine) (radio_transmitting stopped_engine) in
  let (effects, ready) := KeybindEngine.reset_input_state configured in
  let (started, engine) := KeybindEngine.start ready keyboard_ok joystick_ok bound in
  (if started then Ok () else Err ListenerError, (stopped ++ effects, engine)).

(** What a command does: the effects, the engine and the configuration of the client,
    which is written to its file when the command comes to that. *)
Record Settings := mkSettings {
  st_engine : KeybindEngine;
  st_config : ClientConfig;
  st_file : ClientConfig
}.

Definition with_transmit_config (c : ClientConfig) (t : TransmitConfig) : ClientConfig :=
  mkClientConfig t (keybinds c) (radio_integration c) (afv_emit c) (ignored_joysticks c).
Definition with_keybinds (c : ClientConfig) (k : KeybindsConfig) : ClientConfig :=
  mkClientConfig (transmit_config c) k (radio_integration c) (afv_emit c) (ignored_joysticks c).
Definition with_ignored_joysticks (c : ClientConfig) (ignored : gmap string JoystickDevice) : ClientConfig :=
  mkClientConfig (transmit_config c) (keybinds c) (radio_integration c) (afv_emit c) ignored.

(** [persist] *)
Definition persist (s : Settings) (written : Result () KeybindsError) : Result () KeybindsError * Settings :=
  (written, match written with
            | Ok _ => mkSettings (st_engine s) (st_config s) (st_config s)
            | Err _ => s
            end).

(** The platform when a command runs: its capabilities, which listeners start, whether
    the file is written *)
Record Situation := mkSituation {
  listener_capable : bool;
  joystick_capable : bool;
  keyboard_ok : bool;
  joystick_ok : bool;
  portal_bound : bool;
  written : Result () KeybindsError
}.

Definition apply_config (s : Settings) (x : Situation) (c : ClientConfig) : Result () KeybindsError * (list Effect * Settings) :=
  let '(answer, (effects, engine)) := engine_set_config (st_engine s) (transmit_config c) (keybinds c)
    (radio_integration (st_config s)) (keyboard_ok x) (joystick_ok x) (portal_bound x) in
  match answer with
  | Err e => (Err e, (effects, mkSettings engine (st_config s) (st_file s)))
  | Ok _ => let (answer, s) := persist (mkSettings engine c (st_file s)) (written x) in (answer, (effects, s))
  end.

(** [keybinds_set_transmit_config], of a configuration whose codes were read *)
Definition set_transmit_config (s : Settings) (x : Situation) (t : Result TransmitConfig KeybindsError) :
    Result () KeybindsError * (list Effect * Settings) :=
  match t with
  | Err e => (Err e, ([], s))
  | Ok t =>
    match ensure_keybind_capability (listener_capable x) (joystick_capable x)
            [push_to_talk t; push_to_mute t; radio_push_to_talk t] with
    | Err e => (Err e, ([], s))
    | Ok _ =>
      match validate (st_config s) t with
      | Err e => (Err e, ([], s))
      | Ok _ => apply_config s x (with_transmit_config (st_config s) t)
      end
    end
  end.

Definition bind_key (k : KeybindsConfig) (keybind : Keybind) (input : option InputCode) : KeybindsConfig :=
  match keybind with
  | KB_AcceptCall => mkKeybindsConfig input (end_call k) (toggle_radio_prio k) (say_again k)
  | KB_EndCall => mkKeybindsConfig (accept_call k) input (toggle_radio_prio k) (say_again k)
  | KB_ToggleRadioPrio => mkKeybindsConfig (accept_call k) (end_call k) input (say_again k)
  | KB_SayAgain => mkKeybindsConfig (accept_call k) (end_call k) (toggle_radio_prio k) input
  | _ => k
  end.

(** [keybinds_set_binding] *)
Definition set_binding (s : Settings) (x : Situation) (input : option InputCode) (keybind : Keybind) :
    Result () KeybindsError * (list Effect * Settings) :=
  match ensure_keybind_capability (listener_capable x) (joystick_capable x) [input] with
  | Err e => (Err e, ([], s))
  | Ok _ => apply_config s x (with_keybinds (st_config s) (bind_key (keybinds (st_config s)) keybind input))
  end.

(** [keybinds_set_ignored_joysticks] *)
Definition set_ignored_joysticks (s : Settings) (x : Situation) (ignored : gmap string JoystickDevice) :
    Result () KeybindsError * Settings :=
  if negb (joystick_capable x) then (Err (CapabilityNotAvailable "Joystick"), s)
  else persist (mkSettings (st_engine s) (with_ignored_joysticks (st_config s) ignored) (st_file s)) (written x).
End bindings.
