(* ===== verification/JoystickProperties.v ===== *)
(** JoystickProperties: the theorems about joysticks: with the engine of Keybinds, what is
    bound to a button transmits only while a connected device holds the button; a press is
    captured only by the newest capture; settings are kept together with the engine. *)
From stdpp Require Import prelude gmap strings list.
From Stdlib Require Import NArith.
From S2P Require Import Prelude Protocol Keybinds KeybindProperties Joystick.

(** ** Buttons and the devices that hold them *)

(** A button event as the engine sees it *)
Definition key_of (event : ButtonEvent) : Trigger * bool := (Input (Button (be_button event)), be_down event).

Definition holds (p : Poller) (b : JoystickButton) : Prop :=
  exists which d, open p !! which = Some d /\ guid d = device b /\ button b ∈ held d.

(** What is down for the reader of the events is held by a device. *)
Definition held_if_down (events : list (Trigger * bool)) (p : Poller) : Prop :=
  forall b, down events (Input (Button b)) = true -> holds p b.

(** SDL gives no instance to a device while another has it. *)
Definition fresh_instance (p : Poller) (event : SdlEvent) : Prop :=
  match event with JoyDeviceAdded which (Some _) => open p !! which = None | _ => True end.

Lemma down_snoc events t d t' : down (events ++ [(t, d)]) t' = if trigger_eqb t' t then d else down events t'.
Proof. unfold down. by rewrite foldl_app. Qed.

Lemma down_releases events releases t : Forall (λ r, r.2 = false) releases -> down (events ++ releases) t = true ->
  down events t = true /\ Forall (λ r, trigger_eqb t r.1 = false) releases.
Proof.
  induction releases as [|[r d] releases IH] using rev_ind; intros Hr.
  { rewrite app_nil_r. by split. }
  apply Forall_app in Hr as [Hr [Hd _]%Forall_cons]. cbn in Hd. subst d.
  rewrite app_assoc, down_snoc. destruct (trigger_eqb t r) eqn:E; [done|]. intros Hdown.
  destruct (IH Hr Hdown) as [H1 H2]. split; [done|]. apply Forall_app. by repeat constructor.
Qed.

Lemma same_button b b' : trigger_eqb (Input (Button b)) (Input (Button b')) = true <-> device b = device b' /\ button b = button b'.
Proof. cbn. unfold button_eqb. by rewrite andb_true_iff, bool_decide_eq_true, N.eqb_eq. Qed.

Section poller.
Context {HO : HashOrder} {D : Decimal}.

(** A device that is unplugged releases what it held. *)
Lemma removed_held events p which : held_if_down events p ->
  held_if_down (events ++ map key_of (handle_event p (JoyDeviceRemoved which)).1) (handle_event p (JoyDeviceRemoved which)).2.
Proof.
  intros Hheld b Hb. cbn [handle_event fst snd map] in *. unfold holds. cbn.
  destruct (open p !! which) as [d|] eqn:Ho.
  2: { cbn in Hb. rewrite app_nil_r in Hb. destruct (Hheld b Hb) as (w & d & Hw & Hd). exists w, d. split; [|done].
    rewrite lookup_delete_ne; [done|]. intros <-. congruence. }
  apply down_releases in Hb as [Hb Hno].
  2: { apply Forall_forall. intros r Hr. apply list_elem_of_fmap in Hr as (e & -> & He).
    by apply list_elem_of_fmap in He as (n & -> & _). }
  destruct (Hheld b Hb) as (w & d' & Hw & Hd & Hin). exists w, d'. split; [|done].
  rewrite lookup_delete_ne; [done|]. intros <-. rewrite Ho in Hw. injection Hw as <-.
  assert (key_of (button_event (guid d) (name d) (button b) false) ∈
    map key_of (map (λ n, button_event (guid d) (name d) n false) (set_iter (held d)))) as Hm.
  { apply list_elem_of_fmap. eexists. split; [done|]. apply list_elem_of_fmap. exists (button b).
    split; [done|]. by apply elem_of_set_iter. }
  rewrite Forall_forall in Hno. specialize (Hno _ Hm). apply not_true_iff_false in Hno. apply Hno. by apply same_button.
Qed.

(** A device that presses or releases a button, [is_down], holds [held'] then. *)
Lemma button_held events p which d n (is_down : bool) held' :
  open p !! which = Some d -> held_if_down events p ->
  (forall m, m ∈ held' <-> if is_down then m = n \/ m ∈ held d else m ∈ held d /\ m <> n) ->
  held_if_down (events ++ [key_of (button_event (guid d) (name d) n is_down)])
    (mkPoller (devices p) (<[which := mkOpenDevice (guid d) (name d) held']> (open p))).
Proof.
  intros Ho Hheld Hnew b. unfold key_of. cbn [be_button be_down button_event]. rewrite down_snoc.
  assert (forall w d', open p !! w = Some d' -> guid d' = device b -> button b ∈ held d' ->
    (which = w -> button b ∈ held') -> holds (mkPoller (devices p) (<[which := mkOpenDevice (guid d) (name d) held']> (open p))) b) as Hkeep.
  { intros w d' Hw Hg Hin Hin'. destruct (decide (which = w)) as [<-|Hne].
    - exists which. eexists. cbn. rewrite lookup_insert_eq. split_and!; [done| |by apply Hin']. cbn. congruence.
    - exists w, d'. cbn. by rewrite lookup_insert_ne. }
  destruct (trigger_eqb _ _) eqn:E; intros Hb.
  - subst is_down. apply same_button in E as [E1 E2]. cbn in E1, E2. exists which. eexists. cbn. rewrite lookup_insert_eq.
    split_and!; [done|done|]. cbn. apply Hnew. by left.
  - destruct (Hheld b Hb) as (w & d' & Hw & Hd & Hin). apply (Hkeep w d'); try done. intros ->. rewrite Ho in Hw.
    injection Hw as <-. apply Hnew. destruct is_down; [by right|]. split; [done|]. intros En.
    apply not_true_iff_false in E. apply E. by apply same_button.
Qed.

Lemma handle_event_held events p event : fresh_instance p event -> held_if_down events p ->
  held_if_down (events ++ map key_of (handle_event p event).1) (handle_event p event).2.
Proof.
  intros Hfresh Hheld. destruct event as [which [[g nm]|]|which|which n|which n|]; [| |by apply removed_held| | |];
    cbn [handle_event fst snd map]; rewrite ?app_nil_r; try done.
  - intros b Hb. destruct (Hheld b Hb) as (w & d & Hw & Hd). exists w, d. split; [|done].
    cbn. rewrite lookup_insert_ne; [done|]. intros ->. cbn in Hfresh. congruence.
  - destruct (open p !! which) as [d|] eqn:Ho; cbn [fst snd map]; [|by rewrite app_nil_r].
    apply button_held; [done..|]. intros m. set_solver.
  - destruct (open p !! which) as [d|] eqn:Ho; cbn [fst snd map]; [|by rewrite app_nil_r].
    apply button_held; [done..|]. intros m. set_solver.
Qed.
End poller.

(** ** What a channel receives *)

Definition received (chan : N) (sent : list (N * ButtonEvent)) : list (Trigger * bool) :=
  map (λ m, key_of m.2) (List.filter (λ m, (m.1 =? chan)%N) sent).

(** The channels that stay: those that are open, in their order *)
Definition open_senders (is_closed : N -> bool) (senders : list N) : list N :=
  List.filter (λ s, negb (is_closed s)) senders.

Lemma elem_of_open is_closed senders s : s ∈ open_senders is_closed senders <-> s ∈ senders /\ is_closed s = false.
Proof. unfold open_senders. rewrite !list_elem_of_In, filter_In, negb_true_iff. done. Qed.

Lemma NoDup_open is_closed senders : NoDup senders -> NoDup (open_senders is_closed senders).
Proof. rewrite !NoDup_ListNoDup. apply List.NoDup_filter. Qed.

Lemma received_app chan l l' : received chan (l ++ l') = received chan l ++ received chan l'.
Proof. unfold received. by rewrite List.filter_app, map_app. Qed.

(** An event reaches a channel once, if it is registered. *)
Lemma received_once chan senders event : NoDup senders ->
  received chan (map (λ s, (s, event)) senders) = if bool_decide (chan ∈ senders) then [key_of event] else [].
Proof.
  induction 1 as [|s senders Hs Hnd IH]; [done|]. cbn [map]. change (?x :: ?l) with ([x] ++ l).
  rewrite received_app, IH. unfold received. cbn. case_bool_decide as Hin; case_bool_decide as Hin'.
  - rewrite (proj2 (N.eqb_neq s chan)); [done|]. by intros ->.
  - set_solver.
  - assert (s = chan) as -> by set_solver. by rewrite N.eqb_refl.
  - rewrite (proj2 (N.eqb_neq s chan)); [done|]. set_solver.
Qed.

(** Every event reaches every open channel, in order. *)
Lemma send_all_spec chan is_closed senders events : NoDup senders -> is_closed chan = false ->
  let (sent, senders') := send_all is_closed senders events in
  received chan sent = (if bool_decide (chan ∈ senders) then map key_of events else []) /\
  NoDup senders' /\ (forall s, s ∈ senders' -> s ∈ senders) /\ (chan ∈ senders <-> chan ∈ senders').
Proof.
  intros Hnd Hc. unfold send_all. induction events as [|event events IH] using rev_ind.
  { cbn. split_and!; [by case_bool_decide|done..]. }
  rewrite foldl_app. cbn [foldl]. destruct (foldl _ ([], senders) events) as [sent senders'].
  destruct IH as (Hsent & Hnd' & Hsub & Hchan). cbn [fst snd]. unfold send. fold (open_senders is_closed senders').
  split_and!.
  - rewrite received_app, Hsent, received_once by (by apply NoDup_open).
    rewrite (bool_decide_ext (chan ∈ open_senders is_closed senders') (chan ∈ senders)).
    + case_bool_decide; [by rewrite map_app|done].
    + rewrite elem_of_open. naive_solver.
  - by apply NoDup_open.
  - intros s [Hs _]%elem_of_open. by apply Hsub.
  - rewrite elem_of_open. naive_solver.
Qed.

(** ** The desk: the cockpit with the joysticks *)

Section desk.
Context {HO : HashOrder} {D : Decimal} {PF : Platform}.

(** The cockpit of Keybinds, the service, the channel of the engine and what is in it;
    channels are numbered as they are made. *)
Record Desk := mkDesk {
  cockpit : Cockpit;
  service : option RunningPoller;
  chan : N;
  next : N;
  inbox : list (Trigger * bool)
}.

(** [Registered]: another consumer, such as a capture. [Reconfigured]: the engine gets a
    new channel, and registers it when a button is bound. *)
Inductive Occasion :=
| Sdl (event : SdlEvent) (is_closed : N -> bool)
| Read (bound room : bool)
| Registered (startup : Startup) (is_closed : N -> bool)
| Reconfigured (t : TransmitConfig) (k : KeybindsConfig) (radio_enabled keyboard_ok bound : bool)
    (startup : Startup) (is_closed : N -> bool)
| Elsewhere (h : Happening).

(** The engine holds its channel open. *)
Definition closed_but (is_closed : N -> bool) (chan s : N) : bool := is_closed s && negb (s =? chan)%N.

Definition is_started (service : option RunningPoller) (startup : Startup) : bool :=
  match ensure_started service startup with Ok _ => true | Err _ => false end.

Definition occur (s : Desk) (o : Occasion) : Desk :=
  match o with
  | Sdl event is_closed =>
    let (sent, service) := poll (service s) (closed_but is_closed (chan s)) event in
    mkDesk (cockpit s) service (chan s) (next s) (inbox s ++ received (chan s) sent)
  | Read bound room =>
    match inbox s with
    | [] => s
    | (t, d) :: rest => mkDesk (happen (cockpit s) (KeyEvent t d bound room)) (service s) (chan s) (next s) rest
    end
  | Registered startup is_closed =>
    mkDesk (cockpit s) (register (service s) startup (closed_but is_closed (chan s)) (next s)).2 (chan s) (next s + 1) (inbox s)
  | Reconfigured t k radio_enabled keyboard_ok bound startup is_closed =>
    let cockpit := happen (cockpit s) (Configured t k radio_enabled keyboard_ok (is_started (service s) startup) bound) in
    mkDesk cockpit
      (if KeybindEngine.any_button_trigger (engine cockpit) then (register (service s) startup is_closed (next s)).2 else service s)
      (next s) (next s + 1) []
  | Elsewhere h => mkDesk (happen (cockpit s) h) (service s) (chan s) (next s) (inbox s)
  end.

(** What the rest of the client does: everything but the engine's settings and buttons *)
Definition elsewhere (h : Happening) : Prop :=
  match h with
  | KeyEvent (Input (Button _)) _ _ _ | Configured _ _ _ _ _ _ => False
  | _ => True
  end.

Definition possible (s : Desk) (o : Occasion) : Prop :=
  match o with
  | Sdl event _ => match service s with Some r => fresh_instance (poller r) event | None => True end
  | Elsewhere h => elsewhere h
  | _ => True
  end.

Inductive reached : Desk -> Prop :=
| reached_cold t k radio_enabled : reached (mkDesk (cold t k radio_enabled) None 0 1 [])
| reached_step s o : reached s -> possible s o -> reached (occur s o).

(** No button is down in the events. *)
Definition no_button (events : list (Trigger * bool)) : Prop := forall b, down events (Input (Button b)) = false.

(** [events] is what the engine read from its channel since it has it. *)
Definition linked (s : Desk) (events : list (Trigger * bool)) : Prop :=
  match service s with
  | Some r =>
    NoDup (senders r) /\ Forall (λ x, x < next s)%N (senders r) /\
    (if bool_decide (chan s ∈ senders r) then held_if_down (events ++ inbox s) (poller r) else no_button (events ++ inbox s))
  | None => no_button (events ++ inbox s)
  end.

Record desk_ok (s : Desk) (events : list (Trigger * bool)) : Prop := {
  do_cockpit : cockpit_ok (cockpit s);
  do_keys : keys_ok events (engine (cockpit s));
  do_chan : (chan s < next s)%N;
  do_linked : linked s events
}.

Lemma sdl_linked s events event is_closed : possible s (Sdl event is_closed) -> linked s events ->
  linked (occur s (Sdl event is_closed)) events.
Proof.
  unfold linked. cbn [possible occur]. destruct (service s) as [r|]; [|by cbn; rewrite app_nil_r].
  intros Hfresh (Hnd & Hlt & Hheld). cbn [poll].
  pose proof (handle_event_held (events ++ inbox s) (poller r) event Hfresh) as Hstep.
  destruct (handle_event (poller r) event) as [evs p]. cbn [fst snd] in Hstep.
  assert (closed_but is_closed (chan s) (chan s) = false) as Hc by (unfold closed_but; by rewrite N.eqb_refl, andb_false_r).
  pose proof (send_all_spec (chan s) (closed_but is_closed (chan s)) (senders r) evs Hnd Hc) as Hsend.
  destruct (send_all _ _ _) as [sent senders']. destruct Hsend as (Hr & Hnd' & Hsub & Hchan). cbn [service senders next chan inbox poller].
  split_and!; [done| |].
  - rewrite Forall_forall in *. auto.
  - rewrite Hr, <- (bool_decide_ext _ _ Hchan). case_bool_decide; [rewrite app_assoc; auto|by rewrite app_nil_r].
Qed.

Lemma register_spec service startup is_closed tx r : (register service startup is_closed tx).2 = Some r ->
  service = Some r \/ exists r0, ensure_started service startup = Ok r0 /\
    r = mkRunningPoller (open_senders is_closed (senders r0) ++ [tx]) (poller r0).
Proof.
  unfold register. destruct (ensure_started service startup) as [r0|e] eqn:E; cbn; [|by left].
  intros [= <-]. right. by exists r0.
Qed.

(** The channels after a registration *)
Lemma registered_senders senders is_closed next :
  NoDup senders -> Forall (λ x, x < next)%N senders ->
  NoDup (open_senders is_closed senders ++ [next]) /\ Forall (λ x, x < next + 1)%N (open_senders is_closed senders ++ [next]).
Proof.
  intros Hnd Hlt. rewrite Forall_forall in Hlt.
  assert (forall x, x ∈ open_senders is_closed senders -> (x < next)%N) as Hlt' by (intros x [Hx _]%elem_of_open; auto).
  split.
  - apply NoDup_app. split_and!; [by apply NoDup_open| |by apply NoDup_singleton].
    intros x Hx ->%list_elem_of_singleton. specialize (Hlt' _ Hx). lia.
  - apply Forall_app. split; [|repeat constructor; lia]. apply Forall_forall. intros x Hx. specialize (Hlt' _ Hx). lia.
Qed.

Lemma no_button_nil p : no_button [] /\ held_if_down [] p.
Proof. by split. Qed.

Lemma registered_linked s events startup is_closed : (chan s < next s)%N -> linked s events ->
  linked (occur s (Registered startup is_closed)) events.
Proof.
  intros Hchan. unfold linked, register, ensure_started. cbn [occur service next chan inbox].
  destruct (service s) as [r|]; cbn.
  - intros (Hnd & Hlt & Hheld). fold (open_senders (closed_but is_closed (chan s)) (senders r)).
    destruct (registered_senders _ (closed_but is_closed (chan s)) _ Hnd Hlt) as [H1 H2]. split_and!; [done..|].
    rewrite (bool_decide_ext _ (chan s ∈ senders r)); [done|].
    rewrite elem_of_app, elem_of_open, list_elem_of_singleton. unfold closed_but. rewrite N.eqb_refl, andb_false_r.
    split; [intros [[]|]; [done|lia]|by left].
  - intros Hno. destruct startup as [waiting|e]; cbn; [|done].
    split_and!; [apply NoDup_singleton|repeat constructor; lia|]. rewrite bool_decide_eq_false_2; [done|].
    intros Hin%list_elem_of_singleton. lia.
Qed.

(** A new channel of the engine: nothing was read of it. *)
Lemma reconfigured_linked s events t k radio_enabled keyboard_ok bound startup is_closed :
  linked s events -> linked (occur s (Reconfigured t k radio_enabled keyboard_ok bound startup is_closed)) [].
Proof.
  unfold linked. cbn [occur service next chan inbox app].
  destruct (KeybindEngine.any_button_trigger _); unfold register, ensure_started; destruct (service s) as [r|]; cbn.
  - intros (Hnd & Hlt & _). fold (open_senders is_closed (senders r)).
    destruct (registered_senders _ is_closed _ Hnd Hlt) as [H1 H2]. split_and!; [done..|]. by case_bool_decide.
  - intros _. destruct startup as [waiting|e]; cbn; [|done].
    split_and!; [apply NoDup_singleton|repeat constructor; lia|]. by case_bool_decide.
  - intros (Hnd & Hlt & _). split_and!; [done| |by case_bool_decide].
    eapply Forall_impl; [done|]. cbn. lia.
  - done.
Qed.

(** Keys of the keyboard and the rest say nothing of buttons. *)
Lemma elsewhere_down h events rest b : elsewhere h ->
  down ((events ++ key_events [h]) ++ rest) (Input (Button b)) = down (events ++ rest) (Input (Button b)).
Proof.
  intros Hh. destruct h as [t d bound room| | | | | | |]; cbn; rewrite ?app_nil_r; try done.
  rewrite <- app_assoc. unfold down. rewrite !foldl_app. cbn. by destruct t as [[]|].
Qed.

Lemma elsewhere_linked s events h : elsewhere h -> linked s events ->
  linked (occur s (Elsewhere h)) (events ++ key_events [h]).
Proof.
  intros Hh. unfold linked, no_button, held_if_down. cbn [occur service next chan inbox].
  assert (forall b, down ((events ++ key_events [h]) ++ inbox s) (Input (Button b)) =
    down (events ++ inbox s) (Input (Button b))) as Hd by (intros b; by apply elsewhere_down).
  destruct (service s) as [r|]; [|intros H b; by rewrite Hd].
  intros (Hnd & Hlt & Hheld). split_and!; [done..|]. case_bool_decide; intros b; rewrite Hd; apply Hheld.
Qed.

Lemma configured_idle s t k radio_enabled keyboard_ok joystick_ok bound :
  keys_ok [] (engine (happen s (Configured t k radio_enabled keyboard_ok joystick_ok bound))).
Proof.
  cbn [happen]. unfold after. destruct (performed _ _ _). cbn [engine].
  unfold KeybindEngine.set_config. destruct (KeybindEngine.stop _) as [stopped e1]. set (e2 := KeybindEngine.configure _ _ _ _ _ _ _ _ _).
  destruct (KeybindEngine.reset_input_state e2) as [effects e3] eqn:Hreset. cbn [snd].
  destruct (start_frame e3 keyboard_ok joystick_ok bound) as (S1 & S2 & _).
  assert (e3 = (KeybindEngine.reset_input_state e2).2) as -> by by rewrite Hreset.
  by apply idle_keys_ok; rewrite ?S1, ?S2.
Qed.

Lemma occur_ok s o events : possible s o -> desk_ok s events -> exists events', desk_ok (occur s o) events'.
Proof.
  intros Hp [Hc Hk Hchan Hl]. destruct o as [event is_closed|bound room|startup is_closed|t k re ko bound startup is_closed|h].
  - exists events. split; [..|by apply sdl_linked]; cbn [occur]; by destruct (poll _ _ _).
  - destruct (inbox s) as [|[t d] rest] eqn:Hi; cbn [occur]; rewrite Hi; [by exists events|].
    exists (events ++ [(t, d)]). split; cbn [cockpit chan next]; [by apply happen_ok|by apply (happen_keys _ _ (KeyEvent t d bound room)); [apply Hc|]|done|].
    revert Hl. unfold linked. cbn [service chan next inbox]. rewrite Hi, <- app_assoc. done.
  - exists events. split; cbn [occur cockpit chan next]; [done..|lia|by apply registered_linked].
  - exists []. split; [by apply happen_ok|by apply configured_idle|cbn [occur chan next]; lia|by eapply reconfigured_linked].
  - exists (events ++ key_events [h]). split; [by apply happen_ok|by apply happen_keys; [apply Hc|]|done|by apply elsewhere_linked].
Qed.

Lemma reached_ok s : reached s -> exists events, desk_ok s events.
Proof.
  induction 1 as [t k radio_enabled|s o Hs [events IH] Hp]; [|by eapply occur_ok].
  exists []. split; [apply cold_ok|by apply idle_keys_ok|done|done].
Qed.

(** C39: Nothing that is bound to a button of a joystick is stuck: whatever happens at the
    desk - buttons, keys, devices plugged and unplugged, calls, settings, other readers of
    the joysticks - once the engine has read what it was sent, the radio transmits, and in
    push-to-talk the microphone of a call is open, only while a connected device holds
    the button it is bound to. *)
Theorem no_button_is_stuck s b : reached s -> inbox s = [] ->
  let e := engine (cockpit s) in
  (radio_keyed (cockpit s) = true -> radio_key e = Some (Input (Button b)) ->
     exists r, service s = Some r /\ holds (poller r) b) /\
  (call_mic_mode e = PushToTalk -> call_active e = true -> mic_muted (cockpit s) = Some false ->
     call_trigger e = Some (Input (Button b)) -> exists r, service s = Some r /\ holds (poller r) b).
Proof.
  intros [events [[He Hr Hm] [_ Kc Kr] _ Hl]]%reached_ok Hi. cbv zeta.
  assert (down events (Input (Button b)) = true -> exists r, service s = Some r /\ holds (poller r) b) as Hb.
  { revert Hl. unfold linked. rewrite Hi, app_nil_r. destruct (service s) as [r|]; [|intros Hno; by rewrite Hno].
    intros (_ & _ & Hheld) Hd. exists r. split; [done|]. revert Hheld. case_bool_decide; intros Hheld; [by apply Hheld|].
    by rewrite Hheld in Hd. }
  split.
  - intros Hkeyed Hkey. apply Hb. specialize (Kr (eo_held _ He ltac:(by rewrite <- Hr))). by rewrite Hkey in Kr.
  - intros H1 H2 H3 Hkey. apply Hb. specialize (Kc (Hm H1 H2 H3)). by rewrite Hkey in Kc.
Qed.
End desk.

(** A device with the same identifier releases the button of another. *)
Lemma twin_device_releases :
  let order := listed_order in let digits : Decimal := λ _, "1"%string in
  let p := mkPoller ∅ {[1%N := mkOpenDevice "stick" "Stick" {[1%N]}; 2%N := mkOpenDevice "stick" "Stick" {[1%N]}]} in
  let b := mkJoystickButton "stick" 1 None in
  let (sent, p') := handle_event p (JoyButtonUp 2 1) in
  down ([(Input (Button b), true)] ++ map key_of sent) (Input (Button b)) = false /\ holds p' b.
Proof. cbv zeta. split; [by vm_compute|]. exists 1%N. eexists. split_and!; [by vm_compute|done|]. cbn. set_solver. Qed.

(** A button of a stick is the key of the radio, pressed and read; then the stick is
    unplugged. *)
Definition stick_config : TransmitConfig :=
  mkTransmitConfig PushToTalk (Some (Key "Space")) None (Some (Button (mkJoystickButton "stick" 1 None))) None.

Definition flown (unplugged : bool) : Desk :=
  let order := listed_order in let digits : Decimal := λ _, "1"%string in
  foldl (occur (PF := on_desktop)) (mkDesk (cold (PF := on_desktop) stick_config no_controls true) None 0 1 [])
    ([Reconfigured stick_config no_controls true true false (Ok [JoyDeviceAdded 7 (Some ("stick", "Stick")%string)]) (λ _, false);
      Sdl (JoyButtonDown 7 1) (λ _, false); Read false true]
     ++ if unplugged then [Sdl (JoyDeviceRemoved 7) (λ _, false); Read false true] else []).

Lemma flown_reached unplugged : reached (HO := listed_order) (D := λ _, "1"%string) (PF := on_desktop) (flown unplugged).
Proof.
  destruct unplugged; unfold flown; cbn [foldl app]; repeat (apply reached_step; [|by vm_compute]); apply reached_cold.
Qed.

Lemma unplugged_is_silent : radio_keyed (cockpit (flown false)) = true /\ radio_keyed (cockpit (flown true)) = false.
Proof. by vm_compute. Qed.

Lemma no_button_is_stuck_witness :
  let s := flown false in let b := mkJoystickButton "stick" 1 None in
  radio_keyed (cockpit s) = true /\ exists r, service s = Some r /\ holds (poller r) b.
Proof.
  split; [by vm_compute|].
  destruct (no_button_is_stuck (HO := listed_order) (D := λ _, "1"%string) (PF := on_desktop) (flown false)
    (mkJoystickButton "stick" 1 None) (flown_reached false) eq_refl) as [Hradio _].
  apply Hradio; by vm_compute.
Defined.

(** ** Captures *)

Inductive CaptureAct :=
| CA_Capture (joystick_capable : bool) (capture_id : string)
| CA_Subscribe (token : N) (ignored : gset string) (subscribed : Result () KeybindsError)
| CA_Receive (token : N) (event : ButtonEvent)
| CA_Turn (token : N) (gone elapsed : bool)
| CA_Cancel (capture_id : string).

Definition act (st : Captures) (a : CaptureAct) : Captures :=
  match a with
  | CA_Capture joystick_capable capture_id => capture st joystick_capable capture_id
  | CA_Subscribe token ignored subscribed => capture_subscribe st token ignored subscribed
  | CA_Receive token event => capture_receive st token event
  | CA_Turn token gone elapsed => capture_turn st token gone elapsed
  | CA_Cancel capture_id => cancel_capture st capture_id
  end.

Definition unanswered (task : CaptureTask) : Prop := match task with Captured _ => False | _ => True end.

(** A capture without an answer is the active one or cancelled. *)
Definition one_active (st : Captures) : Prop :=
  forall token task, task_of st token = Some task -> unanswered task ->
    (exists id, active st = Some (id, token)) \/ token ∈ cancelled st.

Lemma set_task_active st token task task' : task_of st token = Some task -> (unanswered task' -> unanswered task) ->
  one_active st -> one_active (set_task st token task').
Proof.
  intros Ht Hun Hone t u. unfold task_of, set_task. cbn. destruct (decide (N.to_nat t = N.to_nat token)) as [E|E].
  - rewrite E, list_lookup_insert_eq by (by eapply lookup_lt_Some). intros [= <-] Hu.
    assert (t = token) as -> by lia. apply (Hone _ task); auto.
  - rewrite list_lookup_insert_ne by done. apply Hone.
Qed.

Lemma capture_active st capable capture_id : one_active st -> one_active (capture st capable capture_id).
Proof.
  intros Hone t u. unfold capture, task_of. destruct capable; cbn; intros [Hu|[Hl Hu]]%lookup_app_Some Hun.
  - right. destruct (Hone t u Hu Hun) as [[id E]|Hin]; [rewrite E|destruct (active st) as [[]|]]; set_solver.
  - left. exists capture_id. apply lookup_lt_Some in Hu. cbn in Hu. do 2 f_equal. lia.
  - by apply Hone with u.
  - apply list_lookup_singleton_Some in Hu as [_ <-]. done.
Qed.

Lemma act_active st a : one_active st -> one_active (act st a).
Proof.
  intros Hone. destruct a as [capable capture_id|token ignored subscribed|token event|token gone elapsed|capture_id]; cbn [act].
  - by apply capture_active.
  - unfold capture_subscribe. destruct (task_of st token) as [[]|] eqn:E; try done.
    by apply (set_task_active _ _ _ _ E).
  - unfold capture_receive. destruct (task_of st token) as [[]|] eqn:E; try done. by apply (set_task_active _ _ _ _ E).
  - unfold capture_turn. destruct (task_of st token) as [[]|] eqn:E; try done.
    case_bool_decide; [by apply (set_task_active _ _ _ _ E)|]. destruct (next_button _ _) as [[b|] rx'].
    + by apply (set_task_active _ _ _ _ E).
    + destruct (gone || elapsed); by apply (set_task_active _ _ _ _ E).
  - unfold cancel_capture. destruct (active st) as [[id token]|] eqn:E; [|done]. case_bool_decide; [|done].
    intros t u Ht Hu. right. destruct (Hone t u Ht Hu) as [[id' E']|Hin]; [rewrite E in E'; injection E' as _ <-|]; set_solver.
Qed.

Lemma next_button_spec ignored rx button rest : next_button ignored rx = (Some button, rest) ->
  exists before event, rx = before ++ event :: rest /\ Forall (λ e, capturable_button e ignored = None) before /\
    button = be_button event /\ be_down event = true /\ device button ∉ ignored.
Proof.
  induction rx as [|event rx IH]; cbn; [done|].
  destruct (capturable_button event ignored) as [b|] eqn:E.
  - intros [= -> ->]. exists [], event. split_and!; [done|done|..]; revert E; unfold capturable_button;
      destruct (be_down event); cbn; try done; case_bool_decide; try done; by intros [= <-].
  - intros (before & event' & -> & Hb & H)%IH. exists (event :: before), event'. split_and!; try done; try apply H. by constructor.
Qed.

(** A press is captured only by the newest capture: when a capture answers a button, it
    is the active one, the button is that of the first press in its channel of a device
    that is not ignored, and every other capture that has no answer yet is cancelled, and
    so answers none. *)
Theorem newest_captures acts token gone elapsed button :
  let st := foldl act no_captures acts in
  (forall answer, task_of st token <> Some (Captured answer)) ->
  task_of (capture_turn st token gone elapsed) token = Some (Captured (Ok (Some button))) ->
  (exists id, active st = Some (id, token)) /\
  (exists ignored before event rest, task_of st token = Some (Waiting ignored (before ++ event :: rest)) /\
     Forall (λ e, capturable_button e ignored = None) before /\
     button = be_button event /\ be_down event = true /\ device button ∉ ignored) /\
  (forall other task, other <> token -> task_of st other = Some task -> unanswered task -> other ∈ cancelled st).
Proof.
  cbv zeta. set (st := foldl act no_captures acts).
  assert (one_active st) as Hone.
  { subst st. induction acts as [|a acts IH] using rev_ind; [by intros t u|]. rewrite foldl_app. by apply act_active. }
  clearbody st. unfold capture_turn. destruct (task_of st token) as [[|ignored rx|answer]|] eqn:E; intros Hno; rewrite ?E; try done.
  2: { by destruct (Hno answer). }
  assert (forall u, task_of (set_task st token u) token = Some u) as Hset.
  { intros u. unfold task_of, set_task. cbn. apply list_lookup_insert_eq. by eapply lookup_lt_Some. }
  case_bool_decide as Hc; [by rewrite Hset|]. destruct (next_button ignored rx) as [[b|] rest] eqn:Hn.
  2: { destruct (gone || elapsed); by rewrite Hset. }
  rewrite Hset. intros [= ->]. apply next_button_spec in Hn as (before & event & -> & Hn).
  destruct (Hone token _ E I) as [[id Ha]|]; [|done]. split_and!; [by exists id|by exists ignored, before, event, rest|].
  intros other task Hne Ht Hu. destruct (Hone other task Ht Hu) as [[id' Ha']|]; [congruence|done].
Qed.

Definition press_of (stick : string) (n : N) : ButtonEvent := mkButtonEvent (mkJoystickButton stick n None) "" true.

(** Two captures are started, the first is cancelled with its own identifier too late. *)
Definition two_captures : list CaptureAct :=
  [CA_Capture true "a"; CA_Subscribe 0 ∅ (Ok ()); CA_Capture true "b"; CA_Subscribe 1 {["throttle"]} (Ok ());
   CA_Cancel "a"; CA_Receive 0 (press_of "throttle" 3); CA_Receive 1 (press_of "throttle" 3);
   CA_Receive 0 (press_of "stick" 1); CA_Receive 1 (press_of "stick" 1)].

Lemma newest_captures_witness :
  let st := foldl act no_captures two_captures in
  task_of (capture_turn st 0 false false) 0 = Some (Captured (Ok None)) /\ exists id, active st = Some (id, 1%N).
Proof.
  split; [by vm_compute|].
  destruct (newest_captures two_captures 1 false false (mkJoystickButton "stick" 1 None)) as [Ha _]; [|by vm_compute|exact Ha].
  intros answer. by vm_compute.
Defined.

(** ** The list of devices *)

Section lists.
Context {HO : HashOrder}.

Lemma insert_absent_spec (l : list JoystickDevice) (entries : gmap string JoystickDeviceEntry) x e :
  foldl (λ entries d, match entries !! jd_device d with
                      | Some _ => entries
                      | None => <[jd_device d := mkEntry d false true]> entries
                      end) entries l !! x = Some e ->
  entries !! x = Some e \/ (entries !! x = None /\ exists d, d ∈ l /\ jd_device d = x /\ e = mkEntry d false true).
Proof.
  revert entries. induction l as [|d l IH]; intros entries; cbn [foldl]; [by left|].
  intros [He|(Hn & d' & Hd & Hx)]%IH.
  - destruct (entries !! jd_device d) eqn:E; [by left|]. destruct (decide (jd_device d = x)) as [<-|Hne].
    + rewrite lookup_insert_eq in He. injection He as <-. right. split; [done|]. exists d. split; [left|done].
    + rewrite lookup_insert_ne in He by done. by left.
  - right. destruct (entries !! jd_device d) eqn:E.
    + split; [done|]. exists d'. split; [by right|done].
    + destruct (decide (jd_device d = x)) as [<-|Hne]; [by rewrite lookup_insert_eq in Hn|].
      rewrite lookup_insert_ne in Hn by done. split; [done|]. exists d'. split; [by right|done].
Qed.

Lemma insert_absent_keeps (l : list JoystickDevice) (entries : gmap string JoystickDeviceEntry) x :
  is_Some (entries !! x) \/ (exists d, d ∈ l /\ jd_device d = x) ->
  is_Some (foldl (λ entries d, match entries !! jd_device d with
                               | Some _ => entries
                               | None => <[jd_device d := mkEntry d false true]> entries
                               end) entries l !! x).
Proof.
  revert entries. induction l as [|d l IH]; intros entries; cbn [foldl]; [intros [H|(d & Hd & _)]; [done|by apply elem_of_nil in Hd]|].
  intros H. apply IH. destruct H as [H|(d' & [->|Hd]%elem_of_cons & <-)].
  - left. destruct (entries !! jd_device d) eqn:E; [done|]. rewrite lookup_insert. by case_decide.
  - left. destruct (entries !! jd_device d) eqn:E; [by rewrite E|]. by rewrite lookup_insert_eq.
  - right. by exists d'.
Qed.

(** The settings list exactly the devices that are connected or ignored, each with what it
    is; the name of a connected one is the name it has now. *)
Theorem merge_device_entries_spec connected_ ignored_ device :
  (forall x d, connected_ !! x = Some d -> jd_device d = x) -> (forall x d, ignored_ !! x = Some d -> jd_device d = x) ->
  merge_device_entries connected_ ignored_ !! device =
    match connected_ !! device, ignored_ !! device with
    | Some d, i => Some (mkEntry d true (bool_decide (is_Some i)))
    | None, Some d => Some (mkEntry d false true)
    | None, None => None
    end.
Proof.
  intros Hc Hi. unfold merge_device_entries.
  set (entries := map_imap _ connected_).
  assert (entries !! device = (λ d, mkEntry d true (bool_decide (is_Some (ignored_ !! device)))) <$> connected_ !! device) as He.
  { subst entries. rewrite map_lookup_imap. by destruct (connected_ !! device). }
  pose proof (insert_absent_spec (map_values ignored_) entries device) as Hspec.
  pose proof (insert_absent_keeps (map_values ignored_) entries device) as Hkeeps.
  destruct (foldl _ entries (map_values ignored_) !! device) as [e|].
  - destruct (Hspec e eq_refl) as [H|(H & d & Hd & Hx & ->)]; rewrite He in H.
    + destruct (connected_ !! device); [by injection H as <-|done].
    + destruct (connected_ !! device); [done|]. apply list_elem_of_fmap in Hd as ([y d'] & -> & Hy).
      apply elem_of_map_iter in Hy. cbn in *. rewrite (Hi _ _ Hy) in Hx. subst y. by rewrite Hy.
  - destruct (connected_ !! device) as [d|] eqn:Ed; cbn in He.
    { exfalso. destruct Hkeeps as [? ?]; [left; by eexists|done]. }
    destruct (ignored_ !! device) as [d|] eqn:Ei; [|done]. exfalso.
    destruct Hkeeps as [? ?]; [|done]. right. exists d. split; [|by apply Hi].
    apply list_elem_of_fmap. exists (device, d). split; [done|]. by apply elem_of_map_iter.
Qed.
End lists.

(** ** Settings *)

Section settings.
Context {PF : Platform}.

Lemma engine_set_config_effects e t k radio_enabled keyboard_ok joystick_ok bound :
  (engine_set_config e t k radio_enabled keyboard_ok joystick_ok bound).2 =
    KeybindEngine.set_config e t k radio_enabled keyboard_ok joystick_ok bound.
Proof.
  unfold engine_set_config, KeybindEngine.set_config. destruct (KeybindEngine.stop e) as [stopped e1].
  destruct (KeybindEngine.reset_input_state _) as [effects e2]. by destruct (KeybindEngine.start _ _ _ _).
Qed.

(** The engine has the keys of a configuration. *)
Definition has_keys (e : KeybindEngine) (t : TransmitConfig) (k : KeybindsConfig) (radio_enabled : bool) : Prop :=
  call_mic_mode e = tc_call_mic_mode t /\ call_trigger e = TransmitConfig.active_call_trigger t /\
  radio_trigger e = TransmitConfig.active_radio_trigger t radio_enabled /\
  accept_call_trigger e = KeybindEngine.select_trigger PA_CallControl (accept_call k) /\
  end_call_trigger e = KeybindEngine.select_trigger PA_CallControl (end_call k) /\
  toggle_radio_prio_trigger e = KeybindEngine.select_trigger PA_ToggleRadioPrio (toggle_radio_prio k) /\
  say_again_trigger e = KeybindEngine.select_trigger PA_SayAgain (say_again k).

Lemma start_has_keys e t k radio_enabled keyboard_ok joystick_ok bound : has_keys e t k radio_enabled ->
  has_keys (KeybindEngine.start e keyboard_ok joystick_ok bound).2 t k radio_enabled.
Proof.
  intros H. unfold KeybindEngine.start. destruct (running e); [done|]. destruct (_ && _ && _); [done|].
  destruct (_ && _); [done|]. destruct (_ && _ && _); [done|]. cbn [snd].
  unfold refresh_radio_follows_call. by destruct (_ || _ || _).
Qed.

Lemma set_config_has_keys e t k radio_enabled keyboard_ok joystick_ok bound :
  has_keys (KeybindEngine.set_config e t k radio_enabled keyboard_ok joystick_ok bound).2 t k radio_enabled.
Proof.
  unfold KeybindEngine.set_config. destruct (KeybindEngine.stop e) as [stopped e1]. cbn [KeybindEngine.reset_input_state].
  apply start_has_keys. by split_and!.
Qed.

(** The engine, the configuration and its file agree. *)
Definition together (s : Settings) : Prop :=
  has_keys (st_engine s) (transmit_config (st_config s)) (keybinds (st_config s)) (radio_integration (st_config s)) /\
  st_file s = st_config s.

Lemma apply_config_spec s x c : radio_integration c = radio_integration (st_config s) ->
  let '(answer, (_, s')) := apply_config s x c in answer = Ok () -> together s' /\ st_config s' = c.
Proof.
  intros Hr. unfold apply_config.
  pose proof (engine_set_config_effects (st_engine s) (transmit_config c) (keybinds c)
    (radio_integration (st_config s)) (keyboard_ok x) (joystick_ok x) (portal_bound x)) as He.
  pose proof (set_config_has_keys (st_engine s) (transmit_config c) (keybinds c)
    (radio_integration (st_config s)) (keyboard_ok x) (joystick_ok x) (portal_bound x)) as Hk.
  destruct (engine_set_config _ _ _ _ _ _ _) as [[[]|e] [effects engine]]; [|done]. cbn [snd] in He. rewrite <- He in Hk.
  unfold persist. cbn. destruct (written x) as [[]|e]; [|done]. intros _. split; [|done]. split; [|done]. cbn in *. by rewrite Hr.
Qed.

(** When a binding or the keys to transmit are answered to be set, the engine has them,
    and so has the configuration and its file; what the platform cannot do, or what would
    key the radio by its own key, changes nothing. *)
Theorem answered_settings_hold s x input keybind t :
  (let '(answer, (_, s')) := set_binding s x input keybind in
   answer = Ok () -> together s' /\ keybinds (st_config s') = bind_key (keybinds (st_config s)) keybind input) /\
  (let '(answer, (_, s')) := set_transmit_config s x t in
   answer = Ok () -> together s' /\ t = Ok (transmit_config (st_config s'))) /\
  (forall code, afv_emit (st_config s) = Some code ->
     forall t', t = Ok t' -> is_trigger (TransmitConfig.active_radio_trigger t' true) (Input (Key code)) = true ->
     exists e, set_transmit_config s x t = (Err e, ([], s))) /\
  (listener_capable x = false -> is_key input = true -> exists e, set_binding s x input keybind = (Err e, ([], s))).
Proof.
  split_and!.
  - unfold set_binding. destruct (ensure_keybind_capability _ _ _); [|done].
    pose proof (apply_config_spec s x (with_keybinds (st_config s) (bind_key (keybinds (st_config s)) keybind input)) eq_refl) as H.
    destruct (apply_config _ _ _) as [answer [effects s']]. intros Ha. destruct (H Ha) as [Ht ->]. by split.
  - unfold set_transmit_config. destruct t as [t|]; [|done]. destruct (ensure_keybind_capability _ _ _); [|done].
    destruct (validate _ _); [|done]. pose proof (apply_config_spec s x (with_transmit_config (st_config s) t) eq_refl) as H.
    destruct (apply_config _ _ _) as [answer [effects s']]. intros Ha. destruct (H Ha) as [Ht ->]. by split.
  - intros code Hafv t' -> Htr. cbn [set_transmit_config]. destruct (ensure_keybind_capability _ _ _); [|by eexists].
    unfold validate. rewrite Hafv, Htr. by eexists.
  - intros Hl Hkey. unfold set_binding, ensure_keybind_capability. rewrite Hl. cbn [negb andb existsb]. rewrite Hkey.
    destruct (negb (joystick_capable x)); by eexists.
Qed.
End settings.

(** When no listener starts for a new binding, the command answers an error and the old
    keys stay in the configuration, but the engine has stopped: they do nothing. *)
Lemma failed_binding_stops_the_engine :
  let config := mkClientConfig ptt_config no_controls true None ∅ in
  let engine := (KeybindEngine.set_config (PF := on_desktop) (KeybindEngine.new (PF := on_desktop) ptt_config no_controls true)
    ptt_config no_controls true true true false).2 in
  let x := mkSituation true true false false false (Ok ()) in
  let '(answer, (_, s')) := set_binding (PF := on_desktop) (mkSettings engine config config) x
    (Some (Button (mkJoystickButton "stick" 1 None))) KB_AcceptCall in
  running engine = true /\ answer = Err ListenerError /\ running (st_engine s') = false /\
  st_config s' = config /\ st_file s' = config.
Proof. by vm_compute. Qed.
