(* ===== verification/Loading.v ===== *)
(** Loading: reading a network from its directory, the first half of
    [Network::load_from_dir] and [FlightInformationRegionRaw::load_from_dir]
    ([vacs-vatsim/src/coverage]).

    A directory answers what is below it and lists its entries in some order, or fails.
    Paths are text with slashes. What the parsers of TOML and JSON make of the bytes of a
    file, and which names are text, are arguments. *)
From stdpp Require Import prelude gmap strings list.
From Stdlib Require Import Ascii.
From S2P Require Import Prelude Protocol CoverageErrors Profile Coverage.

(** ** The file system *)

Inductive Node :=
| FileNode (content : Result string string)
| DirNode (child : string -> option Node) (entries : Result (list (Result string string)) string)
| OtherNode.

Definition is_file (node : option Node) : bool := match node with Some (FileNode _) => true | _ => false end.
Definition is_dir (node : option Node) : bool := match node with Some (DirNode _ _) => true | _ => false end.

Definition child_of (node : Node) (name : string) : option Node :=
  match node with DirNode child _ => child name | _ => None end.

(** [read_dir] *)
Definition read_dir (node : Node) : Result (list (Result string string)) string :=
  match node with DirNode _ entries => entries | _ => Err "not a directory" end.

Definition join (dir name : string) : string := dir +:+ "/" +:+ name.

(** [Path::extension]: what follows the last dot, if anything is before it *)
Fixpoint after_last_dot (s : string) : option string :=
  match s with
  | EmptyString => None
  | String c s =>
    match after_last_dot s with
    | Some e => Some e
    | None => if Ascii.eqb c "."%char then Some s else None
    end
  end.

Definition extension (name : string) : option string :=
  match name with String _ s => after_last_dot s | EmptyString => None end.

(** What the parsers answer, by the extension of the file *)
Class Formats := {
  parse_stations : string -> string -> Result (list StationRaw) string;
  parse_positions : string -> string -> Result (list PositionRaw) string;
  parse_profile : string -> string -> Result ProfileRaw string;
  is_text : string -> bool
}.

(** ** A region ([flight_information_region.rs]) *)

Definition FILE_EXTENSIONS : list string := ["toml"; "json"].

Section loading.
Context {SP : SizePattern} {F : Formats}.

Definition parse_file {T : Type} (parse : string -> string -> Result T string) (path name : string) (node : Node) :
    Result T CoverageError :=
  let ext := default EmptyString (extension name) in
  match node with
  | FileNode (Ok bytes) =>
    if bool_decide (ext ∈ FILE_EXTENSIONS) then
      match parse ext bytes with
      | Ok value => Ok value
      | Err reason => Err (Io (IO_Parse path reason))
      end
    else Err (Io (IO_Read path ("unsupported file extension: " +:+ ext)))
  | FileNode (Err reason) => Err (Io (IO_Read path reason))
  | _ => Err (Io (IO_Read path "not a file"))
  end.

(** The first of the extensions with a file *)
Fixpoint find_file (dir : Node) (kind : string) (extensions : list string) : option (string * Node) :=
  match extensions with
  | [] => None
  | ext :: extensions =>
    let name := kind +:+ "." +:+ ext in
    match child_of dir name with
    | Some (FileNode content) => Some (name, FileNode content)
    | _ => find_file dir kind extensions
    end
  end.

Definition read_file {T : Type} (parse : string -> string -> Result T string) (path : string) (dir : Node) (kind : string) :
    Result T CoverageError :=
  match find_file dir kind FILE_EXTENSIONS with
  | Some (name, file) => parse_file parse (join path name) name file
  | None => Err (Io (IO_Read path ("No " +:+ kind +:+ " file found")))
  end.

(** [profiles.insert(raw.id, Profile::from_raw(raw)?)] *)
Definition insert_profile (profiles : gmap ProfileId Profile) (raw : ProfileRaw) : Result (gmap ProfileId Profile) CoverageError :=
  map_ok (λ profile, <[raw_id raw := profile]> profiles) (profile_from_raw raw).

(** The loop over the directory of the profiles *)
Fixpoint read_profile_entries (path : string) (dir : Node) (entries : list (Result string string))
    (profiles : gmap ProfileId Profile) : Result (gmap ProfileId Profile) CoverageError :=
  match entries with
  | [] => Ok profiles
  | Err reason :: _ => Err (Io (IO_Read path reason))
  | Ok name :: entries =>
    match child_of dir name with
    | Some (FileNode content) =>
      match parse_file parse_profile (join path name) name (FileNode content) with
      | Err e => Err e
      | Ok raw =>
        match insert_profile profiles raw with
        | Err e => Err e
        | Ok profiles => read_profile_entries path dir entries profiles
        end
      end
    | _ => read_profile_entries path dir entries profiles
    end
  end.

Definition read_profiles (path : string) (dir : Node) : Result (gmap ProfileId Profile) CoverageError :=
  match
    match read_file parse_profile path dir "profile" with
    | Ok raw => insert_profile ∅ raw
    | Err _ => Ok ∅
    end
  with
  | Err e => Err e
  | Ok profiles =>
    match child_of dir "profiles" with
    | Some (DirNode child entries as profiles_dir) =>
      match entries with
      | Err reason => Err (Io (IO_Read (join path "profiles") reason))
      | Ok entries => read_profile_entries (join path "profiles") profiles_dir entries profiles
      end
    | _ => Ok profiles
    end
  end.

Definition error_of {T : Type} (r : Result T CoverageError) : list CoverageError :=
  match r with Ok _ => [] | Err e => [e] end.

(** [FlightInformationRegionRaw::load_from_dir], of a directory with a name *)
Definition load_region (path name : string) (dir : Node) : Result FlightInformationRegionRaw (list CoverageError) :=
  if negb (is_text name) then Err [Io (IO_Read path "invalid dir name")]
  else
    let stations := read_file parse_stations path dir "stations" in
    let positions := read_file parse_positions path dir "positions" in
    let profiles := read_profiles path dir in
    match stations, positions, profiles with
    | Ok stations, Ok positions, Ok profiles => Ok (mkFirRaw (FirId_from name) stations positions profiles)
    | _, _, _ => Err (error_of stations ++ error_of positions ++ error_of profiles)
    end.

(** ** The network ([network.rs]) *)

(** The loop over the entries: the errors and the regions, in their order *)
Definition read_entry (path : string) (dir : Node) (acc : list CoverageError * list FlightInformationRegionRaw)
    (entry : Result string string) : list CoverageError * list FlightInformationRegionRaw :=
  match entry with
  | Err reason => (acc.1 ++ [Io (IO_ReadEntry reason)], acc.2)
  | Ok name =>
    match child_of dir name with
    | Some (DirNode child entries) =>
      match load_region (join path name) name (DirNode child entries) with
      | Ok region => (acc.1, acc.2 ++ [region])
      | Err errors => (acc.1 ++ map (SE_Load "FIR" (join path name)) errors, acc.2)
      end
    | _ => acc
    end
  end.

Context {HO : HashOrder} {FP : FrequencyPattern}.

(** [Network::load_from_dir] *)
Definition load_network (path : string) (dir : Node) : Result Network (list CoverageError) :=
  match read_dir dir with
  | Err reason => Err [Io (IO_Read path reason)]
  | Ok entries =>
    let (errors, raw_firs) := foldl (read_entry path dir) ([], []) entries in
    build_network errors raw_firs
  end.
End loading.
