(* ===== verification/LoadingProperties.v ===== *)
(** LoadingProperties: the theorems about reading a network: what is served is exactly what
    the files hold, and when something cannot be read every error is reported. *)
From stdpp Require Import prelude gmap strings list.
From S2P Require Import Prelude Protocol Controllers CoverageErrors Profile ProfileProperties.
From S2P Require Import Coverage CoverageLookup CoverageBuild CoverageProperties Loading.

(** ** Errors only grow while a network is built *)

Definition keeps_errors (b b' : Build) : Prop := b_errors b `prefix_of` b_errors b'.

#[export] Instance keeps_errors_preorder : PreOrder keeps_errors.
Proof. unfold keeps_errors. split; [intros b; reflexivity|intros b1 b2 b3; apply transitivity]. Qed.

Lemma push_keeps errors b : keeps_errors b (push errors b).
Proof. by exists errors. Qed.

Lemma keeps_same b b' : b_errors b' = b_errors b -> keeps_errors b b'.
Proof. unfold keeps_errors. by intros ->. Qed.

Lemma fold_keeps {A : Type} (step : Build -> A -> Build) l b :
  (forall b x, keeps_errors b (step b x)) -> keeps_errors b (foldl step b l).
Proof. intros Hstep. revert b. induction l as [|x l IH]; intros b; [by apply keeps_same|]. cbn.
  etrans; [apply Hstep|apply IH]. Qed.

Section build.
Context {HO : HashOrder} {FP : FrequencyPattern}.

Lemma add_position_keeps fir b raw : keeps_errors b (add_position fir b raw).
Proof. unfold add_position. case_bool_decide; [apply push_keeps|]. destruct (position_from_raw _ _); [by apply keeps_same|apply push_keeps]. Qed.

Lemma add_station_keeps all fir b raw : keeps_errors b (add_station all fir b raw).
Proof.
  unfold add_station. case_bool_decide; [apply push_keeps|]. destruct (station_from_raw _ _ _); [|apply push_keeps].
  case_bool_decide; [apply push_keeps|by apply keeps_same].
Qed.

Lemma add_profile_keeps fir b entry : keeps_errors b (add_profile fir b entry).
Proof. unfold add_profile. case_bool_decide; [apply push_keeps|by apply keeps_same]. Qed.

Lemma add_fir_keeps all positions profiles b fir : keeps_errors b (add_fir all positions profiles b fir).
Proof.
  unfold add_fir. set (b1 := push _ b). trans b1; [apply push_keeps|].
  case_bool_decide; [apply push_keeps|]. destruct (fir_try_from fir) as [f|]; [|apply push_keeps].
  set (b2 := mkBuild _ _ _ _ _). trans b2; [by apply keeps_same|].
  etrans; [apply (fold_keeps (add_position fir) (fr_positions fir)), add_position_keeps|].
  etrans; [apply (fold_keeps (add_station all fir) (fr_stations fir)), add_station_keeps|].
  apply fold_keeps, add_profile_keeps.
Qed.

Lemma control_stations_keeps b station : keeps_errors b (control_stations b station).
Proof.
  apply fold_keeps. intros b' id. unfold control_station. destruct (b_positions b' !! id); [by apply keeps_same|apply push_keeps].
Qed.

(** The errors met while reading are answered. *)
Lemma build_keeps_errors errors raw_firs errors' :
  build_network errors raw_firs = Err errors' -> forall e, e ∈ errors -> e ∈ errors'.
Proof.
  unfold build_network.
  set (b1 := foldl (add_fir _ _ _) _ raw_firs). set (b2 := foldl control_stations b1 _).
  assert (keeps_errors (mkBuild errors ∅ ∅ ∅ ∅) b2) as [more Hmore].
  { trans b1; apply fold_keeps; [apply add_fir_keeps|apply control_stations_keeps]. }
  cbn in Hmore. destruct (b_errors b2) as [|e0 es]; [done|]. intros [= <-] e He. rewrite Hmore. set_solver.
Qed.
End build.

(** Every station of a region is in the network that is built. *)
Lemma built_station_of {HO : HashOrder} {FP : FrequencyPattern} errors regions n region raw :
  build_network errors regions = Ok n -> region ∈ regions -> raw ∈ fr_stations region ->
  is_Some (stations n !! sr_id raw).
Proof.
  intros Hn Hin Hraw. pose proof Hn as (_ & Hok & _)%build_network_eq.
  destruct (ok_stations _ Hok) as [_ H]. destruct (H raw) as (_ & cb & Hcb & _).
  { apply elem_of_raw. exists region. by apply elem_of_of_firs. }
  exists (mkStation (sr_id raw) (sr_parent_id raw) cb (fr_id region)). apply (built_stations _ _ _ Hn).
  by exists region, raw.
Qed.

(** ** Reading *)

Section loading.
Context {SP : SizePattern} {F : Formats}.

(** A directory is read as a region when all of its files are, and else the errors of
    all of them are answered. *)
Lemma load_region_spec path name dir : is_text name = true ->
  match load_region path name dir with
  | Ok region =>
    fr_id region = FirId_from name /\
    read_file parse_stations path dir "stations" = Ok (fr_stations region) /\
    read_file parse_positions path dir "positions" = Ok (fr_positions region) /\
    read_profiles path dir = Ok (fr_profiles region)
  | Err errors =>
    errors <> [] /\
    (forall e, e ∈ errors <-> read_file parse_stations path dir "stations" = Err e \/
       read_file parse_positions path dir "positions" = Err e \/ read_profiles path dir = Err e)
  end.
Proof.
  intros Ht. unfold load_region. rewrite Ht. cbn [negb].
  destruct (read_file parse_stations path dir "stations"), (read_file parse_positions path dir "positions"),
    (read_profiles path dir); cbn; try done; (split; [done|]); intros e; set_solver.
Qed.

Lemma region_was_read path name dir region : load_region path name dir = Ok region ->
  fr_id region = FirId_from name /\
  read_file parse_stations path dir "stations" = Ok (fr_stations region) /\
  read_file parse_positions path dir "positions" = Ok (fr_positions region) /\
  read_profiles path dir = Ok (fr_profiles region).
Proof.
  intros Hl. destruct (is_text name) eqn:Ht; [|by unfold load_region in Hl; rewrite Ht in Hl].
  pose proof (load_region_spec path name dir Ht) as H. by rewrite Hl in H.
Qed.

(** The regions and the errors of the entries that were read *)
Definition region_at (path : string) (dir : Node) (name : string) (region : FlightInformationRegionRaw) : Prop :=
  exists node, child_of dir name = Some node /\ is_dir (Some node) = true /\
    load_region (join path name) name node = Ok region.

Definition error_at (path : string) (dir : Node) (name : string) (e : CoverageError) : Prop :=
  exists node errors error, child_of dir name = Some node /\ is_dir (Some node) = true /\
    load_region (join path name) name node = Err errors /\ error ∈ errors /\ e = SE_Load "FIR" (join path name) error.

(** What one entry adds *)
Definition yield (path : string) (dir : Node) (entry : Result string string) :
    list CoverageError * list FlightInformationRegionRaw := read_entry path dir ([], []) entry.

Lemma read_entries_yield path dir entries :
  foldl (read_entry path dir) ([], []) entries =
    (mjoin (map (λ entry, (yield path dir entry).1) entries), mjoin (map (λ entry, (yield path dir entry).2) entries)).
Proof.
  induction entries as [|entry entries IH] using rev_ind; [done|].
  rewrite foldl_app, !map_app, !join_app, IH. cbn [foldl]. unfold yield. cbn.
  destruct entry as [name|reason]; cbn; [|by rewrite !app_nil_r].
  destruct (child_of dir name) as [[|child listing|]|]; cbn; rewrite ?app_nil_r; try done.
  by destruct (load_region _ _ _); cbn; rewrite ?app_nil_r.
Qed.

Lemma yield_region path dir entry region :
  region ∈ (yield path dir entry).2 <-> exists name, entry = Ok name /\ region_at path dir name region.
Proof.
  unfold yield, read_entry, region_at. destruct entry as [name|reason]; cbn; [|set_solver].
  destruct (child_of dir name) as [[content|child listing|]|] eqn:Hc; cbn;
    try (split; [by intros ?%elem_of_nil|intros (? & [= <-] & ? & ? & ? & ?); congruence]).
  - split; [by intros ?%elem_of_nil|]. intros (? & [= <-] & node & Hn & Hd & _). rewrite Hc in Hn. by injection Hn as <-.
  - destruct (load_region _ _ _) as [r|es] eqn:Hl; cbn; [rewrite list_elem_of_singleton|rewrite elem_of_nil];
      (split; [|intros (? & [= <-] & node & Hn & _ & Hr); rewrite Hc in Hn; injection Hn as <-; congruence]); [|done].
    intros ->. exists name. split; [done|]. by exists (DirNode child listing).
  - split; [by intros ?%elem_of_nil|]. intros (? & [= <-] & node & Hn & Hd & _). rewrite Hc in Hn. by injection Hn as <-.
Qed.

Lemma yield_error path dir entry e :
  e ∈ (yield path dir entry).1 <->
    (exists reason, entry = Err reason /\ e = Io (IO_ReadEntry reason)) \/ (exists name, entry = Ok name /\ error_at path dir name e).
Proof.
  unfold yield, read_entry, error_at. destruct entry as [name|reason]; cbn.
  2: { rewrite list_elem_of_singleton. naive_solver. }
  destruct (child_of dir name) as [[content|child listing|]|] eqn:Hc; cbn;
    try (split; [by intros ?%elem_of_nil|]; intros [(? & ? & _)|(? & [= <-] & node & es & x & Hn & Hd & _)]; [done|];
         rewrite Hc in Hn; by injection Hn as <-).
  - destruct (load_region _ _ _) as [r|es] eqn:Hl; cbn; [rewrite elem_of_nil|rewrite list_elem_of_fmap].
    + split; [done|]. intros [(? & ? & _)|(? & [= <-] & node & es & x & Hn & _ & Hr & _)]; [done|].
      rewrite Hc in Hn. injection Hn as <-. congruence.
    + split.
      * intros (x & -> & Hx). right. exists name. split; [done|]. by exists (DirNode child listing), es, x.
      * intros [(? & ? & _)|(? & [= <-] & node & es' & x & Hn & _ & Hr & Hx & ->)]; [done|].
        rewrite Hc in Hn. injection Hn as <-. rewrite Hl in Hr. injection Hr as <-. by exists x.
  - split; [by intros ?%elem_of_nil|]. intros [(? & ? & _)|(? & [= <-] & node & es & x & Hn & _)]; [done|]. congruence.
Qed.

Lemma elem_of_yields {X : Type} (f : Result string string -> list X) entries x :
  x ∈ mjoin (map f entries) <-> exists entry, entry ∈ entries /\ x ∈ f entry.
Proof.
  rewrite list_elem_of_join. split.
  - intros (l & Hx & Hl). apply list_elem_of_fmap in Hl as (entry & -> & He). by exists entry.
  - intros (entry & He & Hx). exists (f entry). split; [done|]. apply list_elem_of_fmap. by exists entry.
Qed.

Context {HO : HashOrder} {FP : FrequencyPattern}.

(** The directories of a network's directory *)
Definition listed_dir (dir : Node) (name : string) (node : Node) : Prop :=
  (exists entries, read_dir dir = Ok entries /\ Ok name ∈ entries) /\ child_of dir name = Some node /\ is_dir (Some node) = true.

Lemma load_network_ok path dir n : load_network path dir = Ok n ->
  exists regions, build_network [] regions = Ok n /\
    (forall entries reason, read_dir dir = Ok entries -> Err reason ∉ entries) /\
    (forall name node, listed_dir dir name node ->
       exists region, region ∈ regions /\ load_region (join path name) name node = Ok region) /\
    (forall region, region ∈ regions ->
       exists name node, listed_dir dir name node /\ load_region (join path name) name node = Ok region).
Proof.
  unfold load_network. destruct (read_dir dir) as [entries|] eqn:Hd; [|done]. rewrite read_entries_yield.
  set (errors := mjoin _). set (regions := mjoin _). intros Hb.
  assert (errors = []) as He by (by apply build_network_eq in Hb as [-> _]). rewrite He in Hb.
  assert (forall e, e ∉ errors) as Hno by (rewrite He; intros e; apply not_elem_of_nil).
  exists regions. split; [done|]. split_and!.
  - intros entries' reason [= <-] Hin. apply (Hno (Io (IO_ReadEntry reason))), elem_of_yields.
    exists (Err reason). split; [done|]. apply yield_error. left. by exists reason.
  - intros name node [(listed & Hlisted & Hin) [Hc Hdir]]. rewrite Hd in Hlisted. injection Hlisted as <-.
    destruct (load_region (join path name) name node) as [region|es] eqn:Hl.
    + exists region. split; [|done]. apply elem_of_yields. exists (Ok name). split; [done|].
      apply yield_region. exists name. split; [done|]. by exists node.
    + exfalso. destruct es as [|e es].
      * revert Hl. unfold load_region. destruct (negb _); [done|].
        by destruct (read_file parse_stations _ _ _), (read_file parse_positions _ _ _), (read_profiles _ _).
      * apply (Hno (SE_Load "FIR" (join path name) e)), elem_of_yields. exists (Ok name). split; [done|].
        apply yield_error. right. exists name. split; [done|]. exists node, (e :: es), e. split_and!; [done|done|done|left|done].
  - intros region ([name|reason] & Hin & Hr)%elem_of_yields; apply yield_region in Hr as (name' & [= <-] & node & Hc & Hdir & Hl).
    exists name, node. split; [|done]. split; [by exists entries|done].
Qed.


(** Every error of reading is answered: when a network is not loaded although its directory
    can be listed, the answer holds the error of every entry that could not be listed and, of
    every directory, the errors of all of its files that could not be read. *)
Theorem every_reading_error_is_answered path dir entries errors :
  read_dir dir = Ok entries -> load_network path dir = Err errors ->
  (forall reason, Err reason ∈ entries -> Io (IO_ReadEntry reason) ∈ errors) /\
  (forall name node e, listed_dir dir name node -> is_text name = true ->
     read_file parse_stations (join path name) node "stations" = Err e \/
     read_file parse_positions (join path name) node "positions" = Err e \/
     read_profiles (join path name) node = Err e ->
     SE_Load "FIR" (join path name) e ∈ errors).
Proof.
  unfold load_network. intros Hd. rewrite Hd, read_entries_yield. intros Hb. split.
  - intros reason Hin. apply (build_keeps_errors _ _ _ Hb), elem_of_yields. exists (Err reason). split; [done|].
    apply yield_error. left. by exists reason.
  - intros name node e [(listed & Hlisted & Hin) [Hc Hdir]] Ht He. rewrite Hd in Hlisted. injection Hlisted as <-.
    apply (build_keeps_errors _ _ _ Hb), elem_of_yields. exists (Ok name). split; [done|].
    apply yield_error. right. exists name. split; [done|]. pose proof (load_region_spec (join path name) name node Ht) as Hl.
    destruct (load_region (join path name) name node) as [region|es] eqn:Hr.
    { destruct Hl as (_ & H1 & H2 & H3). rewrite H1, H2, H3 in He. naive_solver. }
    exists node, es, e. destruct Hl as [_ Hl]. split_and!; [done..| |done]. by apply Hl.
Qed.

(** A layout that cannot be parsed, or passes no check of its text, is left out without an
    error when it is the file [profile]; in the directory [profiles] it is an error. *)
Lemma broken_profile_is_ignored path dir bytes reason :
  child_of dir "profile.toml" = Some (FileNode (Ok bytes)) -> parse_profile "toml" bytes = Err reason ->
  is_dir (child_of dir "profiles") = false -> read_profiles path dir = Ok ∅.
Proof.
  intros Hf Hp Hd. unfold read_profiles, read_file. cbn [find_file FILE_EXTENSIONS].
  change ("profile" +:+ "." +:+ "toml") with "profile.toml"%string. rewrite Hf. unfold parse_file. cbn. rewrite Hp.
  by destruct (child_of dir "profiles") as [[]|].
Qed.
End loading.

(** ** A small directory *)

Definition demo_formats (broken : string) : Formats := {|
  parse_stations _ _ := Ok (fr_stations demo_fir);
  parse_positions _ _ := Ok (fr_positions demo_fir);
  parse_profile _ bytes := if bool_decide (bytes = broken) then Err "unexpected end"%string
                           else Ok (tabbed_of [ProfileProperties.key_of (Some (StationId_from bytes)) None]);
  is_text _ := true
|}.

(** Names and what is under them *)
Definition dir_of (files : list (string * Node)) : Node :=
  DirNode (λ name, snd <$> List.find (λ f, bool_decide (f.1 = name)) files) (Ok (map (λ f, Ok f.1) files)).

Definition text_file (bytes : string) : Node := FileNode (Ok bytes).

Definition demo_dir : Node :=
  dir_of [("README.md"%string, text_file "");
          ("lovv"%string, dir_of [("stations.toml"%string, text_file ""); ("positions.json"%string, text_file "");
             ("profile.toml"%string, text_file "?");
             ("profiles"%string, dir_of [("a.toml"%string, text_file "LOWW_TWR"); ("b.toml"%string, text_file "LOWW_APP")])])].

Definition every_size : SizePattern := λ _, true.


(** The two layouts of the directory have one identifier: the one that is listed later
    is served, and nothing is said; the layout that cannot be parsed is left out. *)
Lemma twin_profile_is_replaced :
  match load_network (SP := every_size) (F := demo_formats "?") (HO := listed_order) (FP := any_frequency) "data" demo_dir with
  | Ok n => bool_decide (relevant_station_ids <$> (profiles n !! ProfileId_from "LOWW") = Some {[app_station]}) &&
            bool_decide (size (profiles n) = 1)
  | Err _ => false
  end = true.
Proof. vm_compute. reflexivity. Qed.

(** Both files of a region are missing and a layout is broken: three errors. *)
Lemma every_reading_error_is_answered_witness :
  let dir := dir_of [("lovv"%string, dir_of [("profiles"%string, dir_of [("a.toml"%string, text_file "?")])])] in
  exists errors, load_network (SP := every_size) (F := demo_formats "?") (HO := listed_order) (FP := any_frequency) "data" dir = Err errors /\
    SE_Load "FIR" "data/lovv" (Io (IO_Parse "data/lovv/profiles/a.toml" "unexpected end")) ∈ errors.
Proof.
  cbv zeta. set (dir := dir_of _).
  assert (exists errors, load_network (SP := every_size) (F := demo_formats "?") (HO := listed_order) (FP := any_frequency)
    "data" dir = Err errors) as [errors He] by (eexists; vm_compute; reflexivity).
  exists errors. split; [exact He|].
  apply (every_reading_error_is_answered (SP := every_size) (F := demo_formats "?") (HO := listed_order) (FP := any_frequency)
    "data" dir _ errors eq_refl He) with (name := "lovv"%string) (node := dir_of [("profiles"%string, dir_of [("a.toml"%string, text_file "?")])]).
  - split; [eexists; split; [vm_compute; reflexivity|left]|split; vm_compute; reflexivity].
  - reflexivity.
  - right. right. vm_compute. reflexivity.
Defined.
