(* ===== verification/Portal.v ===== *)
(** Portal: the shortcuts of the desktop under Wayland,
    [vacs-client/src/keybinds/runtime/linux/wayland.rs], [wayland/listener.rs] and the choice
    of the identifiers in [wayland/registry.rs]; and the keys of X11 ([x11/listener.rs]).

    What the portal answers, in what time, and which signals wait at a turn of the listener
    are arguments; a key code of X11 is known by what the table of codes makes of it. *)
From stdpp Require Import prelude gmap strings list.
From Stdlib Require Import NArith.
From S2P Require Import Prelude Protocol Controllers Releases Keybinds Joystick.

(** ** The identifiers ([wayland.rs]) *)

Inductive PortalShortcutId :=
| PS_PushToTalk | PS_PushToMute | PS_RadioPushToTalk | PS_CallControl | PS_ToggleRadioPrio | PS_SayAgain.

#[export] Instance PortalShortcutId_eq_dec : EqDecision PortalShortcutId.
Proof. solve_decision. Defined.

Definition as_str (id : PortalShortcutId) : string :=
  match id with
  | PS_PushToTalk => "push_to_talk"
  | PS_PushToMute => "push_to_mute"
  | PS_RadioPushToTalk => "radio_push_to_talk"
  | PS_CallControl => "call_control"
  | PS_ToggleRadioPrio => "toggle_radio_prio"
  | PS_SayAgain => "say_again"
  end.

Definition all : list PortalShortcutId :=
  [PS_PushToTalk; PS_PushToMute; PS_RadioPushToTalk; PS_CallControl; PS_ToggleRadioPrio; PS_SayAgain].

(** [FromStr] *)
Definition from_str (s : string) : option PortalShortcutId :=
  let s := to_ascii_lowercase (trim s) in
  if bool_decide (s = "push_to_talk"%string) then Some PS_PushToTalk
  else if bool_decide (s = "push_to_mute"%string) then Some PS_PushToMute
  else if bool_decide (s = "radio_push_to_talk"%string) then Some PS_RadioPushToTalk
  else if bool_decide (s = "call_control"%string) then Some PS_CallControl
  else if bool_decide (s = "toggle_radio_prio"%string) then Some PS_ToggleRadioPrio
  else if bool_decide (s = "say_again"%string) then Some PS_SayAgain
  else None.

#[export] Instance PortalShortcutId_countable : Countable PortalShortcutId.
Proof. apply (inj_countable as_str from_str). by intros []; vm_compute. Defined.

Definition into_action (id : PortalShortcutId) : PortalAction :=
  match id with
  | PS_PushToTalk => PA_PushToTalk
  | PS_PushToMute => PA_PushToMute
  | PS_RadioPushToTalk => PA_RadioPushToTalk
  | PS_CallControl => PA_CallControl
  | PS_ToggleRadioPrio => PA_ToggleRadioPrio
  | PS_SayAgain => PA_SayAgain
  end.

Definition of_keybind (k : Keybind) : PortalShortcutId :=
  match k with
  | KB_PushToTalk => PS_PushToTalk
  | KB_PushToMute => PS_PushToMute
  | KB_RadioPushToTalk => PS_RadioPushToTalk
  | KB_AcceptCall => PS_CallControl
  | KB_EndCall => PS_CallControl
  | KB_ToggleRadioPrio => PS_ToggleRadioPrio
  | KB_SayAgain => PS_SayAgain
  end.

(** ** The identifier of the program ([registry.rs]) *)

Definition DESKTOP_APP_ID : string := "vacs".
Definition LEGACY_URL_HANDLER_APP_ID : string := "vacs-client-handler".
Definition STABLE_URL_HANDLER_APP_ID : string := "vacs-handler".

Definition candidates (url_handler : option string) (legacy_url_handler_exists : bool) : list string :=
  DESKTOP_APP_ID ::
    (if legacy_url_handler_exists && bool_decide (url_handler = Some STABLE_URL_HANDLER_APP_ID)
     then [LEGACY_URL_HANDLER_APP_ID] else []) ++
    match url_handler with Some id => [id] | None => [] end.

(** What the portal answers to a registration; [NoRegistry]: it knows no such call. *)
Inductive Registration := Registered | NoRegistry | Rejected.

(** [connect], as the identifier its connection is registered under, with those that
    were tried. Every try has a connection of its own. *)
Fixpoint connect (register : string -> Registration) (candidates : list string) : option string * list string :=
  match candidates with
  | [] => (None, [])
  | app_id :: candidates =>
    match register app_id with
    | Registered => (Some app_id, [app_id])
    | NoRegistry => (None, [app_id])
    | Rejected => let (id, tried) := connect register candidates in (id, app_id :: tried)
    end
  end.

(** ** The start of the listener ([listener.rs]) *)

(** A shortcut as the portal tells it: its identifier and what triggers it *)
Definition Shortcut : Type := string * string.

Abbreviation ShortcutMap := (gmap PortalShortcutId string).

Definition update_shortcuts_map (map : ShortcutMap) (bound_shortcuts : list Shortcut) : ShortcutMap :=
  foldl (λ map shortcut,
      match from_str shortcut.1 with
      | Some id => if bool_decide (shortcut.2 = EmptyString) then map else <[id := shortcut.2]> map
      | None => map
      end) map bound_shortcuts.

(** A request that fails, or whose response does, or the shortcuts it answers *)
Inductive Request := RequestFailed | ResponseFailed | Response (shortcuts : list Shortcut).

(** [slow]: the request to bind is not done within three seconds. *)
Record PortalAnswers := mkPortalAnswers {
  connected : bool;
  session_created : bool;
  listed : Request;
  slow : bool;
  bound : Request;
  streams : bool
}.

(** What is told to the engine that waits, the shortcuts, and whether the session with
    the portal is open and the signals are listened to *)
Record Setup := mkSetup {
  startup : option (Result () string);
  shortcuts : ShortcutMap;
  session_open : bool;
  listening : bool
}.

(** [startup_tx.take().map(|tx| tx.send(..))] *)
Definition tell (s : Setup) (answer : Result () string) : Setup :=
  mkSetup (match startup s with Some told => Some told | None => Some answer end) (shortcuts s) (session_open s) (listening s).

Definition with_shortcuts (s : Setup) (shortcuts : ShortcutMap) : Setup :=
  mkSetup (startup s) shortcuts (session_open s) (listening s).

Definition initialize_portal (a : PortalAnswers) : Setup :=
  let s := mkSetup None ∅ false false in
  if negb (connected a) then tell s (Err "Portal unavailable"%string)
  else if negb (session_created a) then tell s (Err "Portal session failed"%string)
  else mkSetup None ∅ true false.

(** Whether every shortcut is known, if the request succeeds *)
Definition check_existing_shortcuts (s : Setup) (listed : Request) : option bool * Setup :=
  match listed with
  | RequestFailed => (None, tell s (Err "Failed to list shortcuts"%string))
  | ResponseFailed => (Some false, s)
  | Response l =>
    (Some (forallb (λ id, bool_decide (as_str id ∈ l.*1)) all),
     if bool_decide (l = []) then s else with_shortcuts s (update_shortcuts_map (shortcuts s) l))
  end.

Definition bind_shortcuts (s : Setup) (all_known slow : bool) (bound : Request) : bool * Setup :=
  let s := if all_known && negb slow then s else tell s (Ok ()) in
  match bound with
  | RequestFailed | ResponseFailed => (false, tell s (Err "Failed to bind shortcuts"%string))
  | Response l => (true, tell (with_shortcuts s (update_shortcuts_map (shortcuts s) l)) (Ok ()))
  end.

(** [session.close()] *)
Definition close_session (s : Setup) : Setup := mkSetup (startup s) (shortcuts s) false false.

(** [setup_shortcuts_listener], up to where the signals are listened to *)
Definition setup_shortcuts_listener (a : PortalAnswers) : Setup :=
  let s := initialize_portal a in
  if negb (session_open s) then s
  else
    match check_existing_shortcuts s (listed a) with
    | (None, s) => close_session s
    | (Some all_known, s) =>
      match bind_shortcuts s all_known (slow a) (bound a) with
      | (false, s) => close_session s
      | (true, s) => if streams a then mkSetup (startup s) (shortcuts s) true true else close_session s
      end
    end.

(** ** The signals ([run_shortcuts_listener]) *)

(** The signals that wait, each kind in a stream of its own *)
Record Signals := mkSignals {
  activated : list string;
  deactivated : list string;
  shortcuts_changed : list (list Shortcut)
}.

Definition no_signals : Signals := mkSignals [] [] [].

Definition portal_event (id : string) (is_down : bool) : list (Trigger * bool) :=
  match from_str id with Some id => [(Portal (into_action id), is_down)] | None => [] end.

Definition change_shortcuts (map : ShortcutMap) (updated : list Shortcut) : ShortcutMap :=
  foldl (λ map shortcut,
      match from_str shortcut.1 with
      | Some id => if bool_decide (shortcut.2 = EmptyString) then delete id map else <[id := shortcut.2]> map
      | None => map
      end) map updated.

(** A turn of the select, whose branches are tried in their order: what is sent, the
    shortcuts and the signals that still wait, or [None] when the listener ends. [ended]:
    no stream has more signals to come. *)
Definition listener_turn (cancelled ended : bool) (signals : Signals) (map : ShortcutMap) :
    option (list (Trigger * bool) * Signals * ShortcutMap) :=
  if cancelled then None
  else
    match activated signals, deactivated signals, shortcuts_changed signals with
    | id :: rest, down, changed => Some (portal_event id true, mkSignals rest down changed, map)
    | [], id :: rest, changed => Some (portal_event id false, mkSignals [] rest changed, map)
    | [], [], updated :: rest => Some ([], mkSignals [] [] rest, change_shortcuts map updated)
    | [], [], [] => if ended then None else Some ([], signals, map)
    end.

Definition has_external_binding (map : ShortcutMap) (k : Keybind) : bool := bool_decide (is_Some (map !! of_keybind k)).
Definition get_external_binding (map : ShortcutMap) (k : Keybind) : option string := map !! of_keybind k.

(** ** The keys of X11 ([x11/listener.rs]) *)

(** [forward_key_event]; [code]: what the key is, if the table has it *)
Definition forward_key_event (code : option string) (repeated is_down : bool) : list (Trigger * bool) :=
  if repeated then []
  else match code with Some code => [(Input (Key code), is_down)] | None => [] end.
