(* ===== verification/PortalProperties.v ===== *)
(** PortalProperties: the theorems about the shortcuts of the desktop: the engine that waits
    for the listener is answered once and the session is not left open, the shortcuts are
    those that were told last, and a release is never lost. *)
From stdpp Require Import prelude gmap strings list.
From Stdlib Require Import NArith.
From S2P Require Import Prelude Protocol Controllers Releases Keybinds KeybindProperties Joystick Portal.

(** ** Identifiers *)

Lemma from_str_as_str id : from_str (as_str id) = Some id.
Proof. by destruct id; vm_compute. Qed.

Lemma into_action_inj : Inj (=) (=) into_action.
Proof. by intros [] []. Qed.

(** The program is registered under the first identifier that is accepted, and none is
    tried after it or after the portal said that it has no registry. *)
Theorem registration_spec register candidates :
  let (id, tried) := connect register candidates in
  exists after, candidates = tried ++ after /\
    match id with
    | Some id => exists before, tried = before ++ [id] /\ register id = Registered /\ Forall (λ x, register x = Rejected) before
    | None => (after = [] /\ Forall (λ x, register x = Rejected) tried) \/
        exists before last, tried = before ++ [last] /\ register last = NoRegistry /\ Forall (λ x, register x = Rejected) before
    end.
Proof.
  induction candidates as [|x candidates IH]; cbn; [exists []; split; [done|by left]|].
  destruct (register x) eqn:Hx.
  - exists candidates. split; [done|]. by exists [].
  - exists candidates. split; [done|]. right. by exists [], x.
  - destruct (connect register candidates) as [id tried]. destruct IH as (after & -> & H). exists after. split; [done|].
    destruct id as [id|].
    + destruct H as (before & -> & Hr & Hb). exists (x :: before). by split_and!; [| |constructor].
    + destruct H as [[-> H]|(before & last & -> & Hr & Hb)]; [left; by split; [|constructor]|].
      right. exists (x :: before), last. by split_and!; [| |constructor].
Qed.

(** ** The start *)

(** The engine that waits for the listener is answered whatever the portal answers, and the
    session is open only while signals are listened to; an error means that they are not,
    and when every shortcut was known and the portal is not slow, so does a failure to bind
    them: the answer is honest. *)
Theorem startup_is_honest a :
  let s := setup_shortcuts_listener a in
  (exists answer, startup s = Some answer /\ (forall e, answer = Err e -> listening s = false) /\
     (listening s = true -> answer = Ok ())) /\
  session_open s = listening s /\
  (forall l, listed a = Response l -> (forall id, as_str id ∈ l.*1) -> slow a = false ->
     startup s = Some (Ok ()) -> exists l', bound a = Response l').
Proof.
  cbv zeta. destruct a as [[] [] [| |l] slw bnd str]; unfold setup_shortcuts_listener, initialize_portal; cbn;
    try (split_and!; [by eexists; split_and!|done|done]).
  - destruct bnd as [| |l']; destruct str; cbn; split_and!; try done; try by eexists; split_and!.
  - assert (forall s0, startup s0 = None -> session_open s0 = true ->
      forall known, (forallb (λ id, bool_decide (as_str id ∈ l.*1)) all = known) ->
      let s := (match bind_shortcuts s0 known slw bnd with
                | (false, s) => close_session s
                | (true, s) => if str then mkSetup (startup s) (shortcuts s) true true else close_session s
                end) in
      (exists answer, startup s = Some answer /\ (forall e, answer = Err e -> listening s = false) /\
        (listening s = true -> answer = Ok ())) /\
      session_open s = listening s /\
      (known = true -> slw = false -> startup s = Some (Ok ()) -> exists l', bnd = Response l')) as H.
    { intros s0 Hs Ho known _. cbv zeta. unfold bind_shortcuts, tell.
      destruct (known && negb slw) eqn:E, bnd as [| |l'], str; cbn; rewrite ?Hs; split_and!; try done;
        try (by eexists; split_and!); try (by eexists); intros -> ->; done. }
    specialize (H (if bool_decide (l = []) then mkSetup None ∅ true false
                   else with_shortcuts (mkSetup None ∅ true false) (update_shortcuts_map ∅ l))
                 ltac:(by case_bool_decide) ltac:(by case_bool_decide) _ eq_refl).
    destruct H as (H1 & H2 & H3). split_and!; [exact H1|exact H2|].
    intros l' [= <-] Hall Hslow Hstart. apply H3; [|done|exact Hstart].
    apply forallb_forall. intros id _. apply bool_decide_eq_true, Hall.
Qed.

(** ** The shortcuts *)

(** What was told last of a shortcut, without the shortcuts that are told to have none *)
Definition last_trigger (id : PortalShortcutId) (l : list Shortcut) (before : option string) : option string :=
  foldl (λ trigger shortcut,
      if bool_decide (from_str shortcut.1 = Some id /\ shortcut.2 <> EmptyString) then Some shortcut.2 else trigger) before l.

Lemma update_shortcuts_map_spec map l id : update_shortcuts_map map l !! id = last_trigger id l (map !! id).
Proof.
  revert map. induction l as [|[s t] l IH]; intros map; [done|]. unfold update_shortcuts_map, last_trigger in *. cbn. rewrite IH. f_equal.
  destruct (from_str s) as [id'|]; [|by rewrite bool_decide_eq_false_2 by naive_solver].
  case_bool_decide as Ht.
  { rewrite bool_decide_eq_false_2; [done|]. by intros [_ ?]. }
  destruct (decide (id' = id)) as [->|Hne].
  - by rewrite lookup_insert_eq, bool_decide_eq_true_2.
  - rewrite lookup_insert_ne by done. rewrite bool_decide_eq_false_2; [done|]. by intros [[= ->] _].
Qed.

(** While the listener runs, a shortcut is what the portal told of it last, before or when it
    was bound, whichever of the two tells of triggers. *)
Theorem shortcuts_are_merged a l l' id : listed a = Response l -> bound a = Response l' ->
  listening (setup_shortcuts_listener a) = true ->
  shortcuts (setup_shortcuts_listener a) !! id = last_trigger id (l ++ l') None.
Proof.
  intros Hl Hb. unfold setup_shortcuts_listener, initialize_portal. destruct (connected a), (session_created a); cbn; try done.
  rewrite Hl, Hb. cbn. set (s0 := if bool_decide (l = []) then _ else _).
  assert (shortcuts s0 !! id = last_trigger id l None) as H0.
  { subst s0. case_bool_decide as E; [by rewrite E|]. cbn. by rewrite update_shortcuts_map_spec, lookup_empty. }
  clearbody s0. destruct (streams a); [|by destruct (_ && _)]. intros _.
  destruct (_ && _); cbn; rewrite update_shortcuts_map_spec, H0; unfold last_trigger; by rewrite foldl_app.
Qed.

(** ** Presses and releases *)

(** Signals arrive, and the listener takes its turns. *)
Inductive Happens := Activated (id : string) | Deactivated (id : string) | Changed (updated : list Shortcut) | Turn.

Record Run := mkRun { waiting : Signals; map_now : ShortcutMap; sent : list (Trigger * bool) }.

Definition happens (r : Run) (h : Happens) : Run :=
  let s := waiting r in
  match h with
  | Activated id => mkRun (mkSignals (activated s ++ [id]) (deactivated s) (shortcuts_changed s)) (map_now r) (sent r)
  | Deactivated id => mkRun (mkSignals (activated s) (deactivated s ++ [id]) (shortcuts_changed s)) (map_now r) (sent r)
  | Changed updated => mkRun (mkSignals (activated s) (deactivated s) (shortcuts_changed s ++ [updated])) (map_now r) (sent r)
  | Turn =>
    match listener_turn false false s (map_now r) with
    | Some (events, s, map) => mkRun s map (sent r ++ events)
    | None => r
    end
  end.

(** Whether the shortcut is held, by the signals as they arrived *)
Definition held_now (hs : list Happens) (id : PortalShortcutId) : bool :=
  foldl (λ held h,
      match h with
      | Activated s => if bool_decide (from_str s = Some id) then true else held
      | Deactivated s => if bool_decide (from_str s = Some id) then false else held
      | _ => held
      end) false hs.

Definition names (id : PortalShortcutId) (l : list string) : Prop := exists s, s ∈ l /\ from_str s = Some id.

Definition key_of_id (id : PortalShortcutId) : Trigger := Portal (into_action id).
#[local] Arguments key_of_id : simpl never.
#[local] Arguments down : simpl never.
#[local] Arguments portal_event : simpl never.

(** A shortcut that is released has its release waiting, or is up and has no press waiting. *)
Definition release_kept (held : bool) (id : PortalShortcutId) (r : Run) : Prop :=
  held = false -> names id (deactivated (waiting r)) \/
    (~ names id (activated (waiting r)) /\ down (sent r) (key_of_id id) = false).

Lemma names_app id l s : names id (l ++ [s]) <-> names id l \/ from_str s = Some id.
Proof. unfold names. setoid_rewrite elem_of_app. setoid_rewrite list_elem_of_singleton. naive_solver. Qed.

Lemma names_cons id s l : names id (s :: l) <-> from_str s = Some id \/ names id l.
Proof. unfold names. setoid_rewrite elem_of_cons. naive_solver. Qed.

Lemma down_portal events s id d :
  down (events ++ portal_event s d) (key_of_id id) = if bool_decide (from_str s = Some id) then d else down events (key_of_id id).
Proof.
  unfold portal_event, key_of_id. destruct (from_str s) as [id'|]; [|by rewrite app_nil_r].
  unfold down. rewrite foldl_app. cbn. destruct (decide (id' = id)) as [->|Hne].
  - by rewrite !bool_decide_eq_true_2.
  - rewrite !bool_decide_eq_false_2; [done| |]; [by intros [= ->]|]. intros H. by apply Hne, into_action_inj.
Qed.

Lemma happens_kept hs h r id : release_kept (held_now hs id) id r ->
  release_kept (held_now (hs ++ [h]) id) id (happens r h).
Proof.
  unfold held_now. rewrite foldl_app. cbn [foldl]. unfold release_kept. intros Hr.
  destruct h as [s|s|updated|]; cbn [happens waiting activated deactivated sent].
  - case_bool_decide as E; [done|]. intros Hh. destruct (Hr Hh) as [H|[H1 H2]]; [by left|]. right.
    split; [|done]. rewrite names_app. naive_solver.
  - rewrite names_app. case_bool_decide as E; [intros _; by left; right|].
    intros Hh. destruct (Hr Hh) as [H|H]; [by left; left|by right].
  - done.
  - intros Hh. specialize (Hr Hh). destruct r as [[act deact chg] map snt]. cbn in *.
    destruct act as [|s act]; [destruct deact as [|s deact]; [destruct chg as [|u chg]|]|]; cbn; rewrite ?app_nil_r; try done.
    + rewrite down_portal. destruct Hr as [[H|H]%names_cons|[H1 H2]]; [|by left|].
      * right. split; [by intros (? & ?%elem_of_nil & _)|]. by rewrite bool_decide_eq_true_2.
      * right. split; [done|]. by case_bool_decide.
    + rewrite down_portal. destruct Hr as [H|[H1 H2]]; [by left|]. right. rewrite names_cons in H1.
      split; [naive_solver|]. rewrite bool_decide_eq_false_2; [done|naive_solver].
Qed.

(** A release is never lost: however the signals of the desktop and the turns of the
    listener interleave, once the listener has taken them all, a shortcut whose last signal
    is its release is up for the engine. *)
Theorem no_release_is_lost hs id :
  let r := foldl happens (mkRun no_signals ∅ []) hs in
  activated (waiting r) = [] -> deactivated (waiting r) = [] -> held_now hs id = false ->
  down (sent r) (key_of_id id) = false.
Proof.
  cbv zeta.
  assert (release_kept (held_now hs id) id (foldl happens (mkRun no_signals ∅ []) hs)) as Hr.
  { induction hs as [|h hs IH] using rev_ind; [|rewrite foldl_app; by apply happens_kept].
    intros _. right. split; [|done]. by intros (? & ?%elem_of_nil & _). }
  intros Ha Hd Hh. destruct (Hr Hh) as [(s & Hs & _)|[_ H]]; [|done]. rewrite Hd in Hs. by apply elem_of_nil in Hs.
Qed.

(** It takes turns enough: every turn takes a signal. *)
Lemma turns_take_signals r n :
  length (activated (waiting r)) + length (deactivated (waiting r)) + length (shortcuts_changed (waiting r)) <= n ->
  waiting (foldl happens r (replicate n Turn)) = no_signals.
Proof.
  revert r. induction n as [|n IH]; intros [[act deact chg] map snt] Hn; cbn in *.
  - destruct act, deact, chg; cbn in *; try lia. done.
  - apply IH. destruct act as [|? act]; [destruct deact as [|? deact]; [destruct chg as [|? chg]|]|]; cbn in *; lia.
Qed.

Definition quick : list Happens :=
  [Activated "push_to_talk"; Turn; Deactivated "push_to_talk"; Activated "push_to_talk"; Turn; Turn].

Lemma no_release_is_lost_witness :
  held_now (quick ++ [Deactivated "push_to_talk"; Turn]) PS_PushToTalk = false /\
  down (sent (foldl happens (mkRun no_signals ∅ []) (quick ++ [Deactivated "push_to_talk"; Turn]))) (key_of_id PS_PushToTalk) = false.
Proof.
  split; [by vm_compute|]. by apply (no_release_is_lost (quick ++ [Deactivated "push_to_talk"; Turn]) PS_PushToTalk); vm_compute.
Defined.

(** A press may be lost: the listener looks for presses before releases, so a shortcut that is
    released and pressed again between two turns is up for the engine while it is held. *)
Lemma quick_press_is_lost :
  let r := foldl happens (mkRun no_signals ∅ []) quick in
  waiting r = no_signals /\ held_now quick PS_PushToTalk = true /\ down (sent r) (key_of_id PS_PushToTalk) = false.
Proof. by vm_compute. Qed.

(** When the streams end, the listener ends; a shortcut that was held is not released, and the
    radio it keys stays keyed. *)
Definition on_wayland : Platform := true.
Definition portal_config : TransmitConfig := mkTransmitConfig PushToTalk None None None None.

Lemma ended_listener_leaves_key_down :
  let s := fly (PF := on_wayland) (cold (PF := on_wayland) portal_config no_controls true)
    [Configured portal_config no_controls true true true true] in
  match listener_turn false false (mkSignals ["radio_push_to_talk"%string] [] []) ∅ with
  | Some (events, signals, map) =>
    radio_keyed (fly (PF := on_wayland) s (List.map (λ e, KeyEvent e.1 e.2 true true) events)) &&
      match listener_turn false true signals map with None => true | Some _ => false end
  | None => false
  end = true.
Proof. vm_compute. reflexivity. Qed.
